(* ===== verification/_CoqProject ===== *)
-Q . S2P
Prelude.v
Json.v
Float64.v
Digest.v
Identity.v
SyncModels.v
FrameBuffer.v
Matcher.v
SyncService.v
Database.v
Migrations.v
ManifestStore.v
LatestLive.v
Frames.v
AlertReceiver.v
Alerts.v
FileSystem.v
Archive.v
Reconciliation.v
SessionIdentity.v
Config.v
StreamState.v
RelayClient.v
Ingest.v
Mjpeg.v
CameraSessions.v
IngestGate.v
IngestServer.v
RelayProtocol.v
RelayCredentials.v
Backoff.v
LiveClient.v
Lifecycle.v
ReplayLoader.v
Replay.v
StorageRelay.v
ReplayCli.v
Uploads.v
AlertRoutes.v
Monitoring.v
Recorder.v
