(* ===== verification/Prelude.v ===== *)
(** * gc-image-stream: a verification development

    The program (src/app) is a server that takes camera frames over gRPC or
    fetches them over HTTP, archives them on disk and in a SQLite database,
    groups the frames of the expected cameras into frame-sets of minimum
    span, and offers the newest frame-set to a processing server over a live
    relay that is paid for by credits; alerts of the processor come back and
    are handed to phones. Scripts (src/scripts) replay archived frames.

    The development is a shallow embedding: a method is a function on the
    state of its object, an exception a value of [result], and a thread or a
    crash a relation on such steps. Every definition is executable, and the
    [Example]s and witnesses run them on concrete inputs.

    ** Files

    Foundations. Prelude.v (this file): attribute assignment [x <| f := v |>],
    [result] with its monad and the lemmas of [raise_unless], Python's dicts
    as association lists in insertion order ([dict_set], [dict_get],
    [dict_del]), bounded deques, stable sorting by a key, string order, and
    the tactics [bools] and [ok_steps]. Json.v: [json.dumps] as
    [canonical_json] calls it, and a reader that inverts it. Float64.v:
    Python's [float] on the standard library's binary64. Digest.v: SHA-256 and UUIDv5, as the
    interface [Hashing] (with the law [HexDigest]), an executable
    instance checked on the published vectors, and a transparent one for
    witnesses.

    Synchronisation. Identity.v: services/identity.py. SyncModels.v:
    services/sync/models.py. FrameBuffer.v: services/sync/frame_buffer.py, the bounded buffer of
    each camera and the index of retained frames. Matcher.v:
    services/sync/matcher.py, the search over a heap for the frame-set of
    least span, and what a match or miss leaves. SyncService.v:
    services/sync/service.py, which composes them; its events are the calls
    other threads make.

    Storage. Database.v: models/frame.py, models/frame_set_manifest.py,
    db/session.py: typed tables, and transactions that read one state and
    commit into another. Migrations.v: db/migrations.py, on untyped tables.
    ManifestStore.v: services/sync/manifest_store.py. LatestLive.v:
    services/relay_v2/latest_live.py. Frames.v: services/frames/service.py.
    FileSystem.v: what pathlib and os do, with faults and crashes. Archive.v:
    services/ingest/archive.py. Reconciliation.v:
    services/ingest/reconciliation.py.

    Ingest. SessionIdentity.v: services/session_identity.py, JWTs of sessions and
    cameras. Ingest.v: services/ingest/ingest_pipeline.py. IngestGate.v and
    IngestServer.v: infrastructure/grpc/grpc_ingest_server.py, the gate as a
    lock-protected object and the streams as interleaved threads over it.
    Mjpeg.v, CameraSessions.v: services/ingest/adapters,
    camera_session_manager.py, capture_timing.py and core/cameras.py.
    StreamState.v: services/stream/state.py.

    Delivery. RelayClient.v: infrastructure/grpc/processing_relay_client.py
    (the first relay, its service for frames and that for frame-sets).
    RelayProtocol.v: services/relay_v2/protocol.py and the
    generated messages' fields. RelayCredentials.v:
    services/relay_credentials.py. Backoff.v, LiveClient.v:
    infrastructure/grpc/live_relay_v2_client.py, the delays between its
    connections and the client. AlertReceiver.v, Alerts.v:
    services/alerts.

    The whole. Config.v: core/env.py, core/relay.py, core/phone_alerts.py.
    Lifecycle.v: core/server.py and runtime/lifecycle.py, start and stop over
    the state of all services. Monitoring.v: services/monitoring and the
    routes monitoring, debug and health, what they read of the other
    services. Recorder.v: services/stream/experiment_recorder.py and
    stream_experiment.py, on its own: the pipeline does not read what it
    records, and Ingest.v, IngestServer.v, CameraSessions.v and Lifecycle.v
    leave its calls out.

    Scripts. ReplayLoader.v, Replay.v: scripts/storage_sync_replay, its
    loader and its core. StorageRelay.v: scripts/storage_processing_relay,
    the relay of stored frames. ReplayCli.v: the command lines of both.

    Routes. Uploads.v: api/routes/frames.py and capture.py, files sent over
    HTTP. AlertRoutes.v: api/routes/phone.py and internal.py, the event
    stream of a phone and the calls of the processing server.

    ** How the parts meet

    [Ingest.ingest_frame] is the path of a frame: SyncService, the relays,
    Archive (FileSystem and Frames), StreamState, ManifestStore. It runs
    under a thread of IngestServer or a session of CameraSessions; the live
    client reads the projections it commits through LatestLive. Interfaces
    are type classes: [Hashing]/[HexDigest] between identifiers and digests,
    [PyJWT] between the verifier and the library, [ReplayMatcher] between the
    replay and the two matchers it drives. The scripts drive the same
    SyncService and build the same messages (RelayClient) as the server, and
    their theorems are stated against [SyncService.service_run].

    ** What is proved

    Synchronisation: buffers stay within their bound and index exactly what
    they hold; the heap search ends and finds a choice of least span; a set
    has one authorization scope; its identifier determines its members; a
    camera's frames go into sets in strictly increasing order.
    Storage: a manifest is persisted once and is complete; a persist leaves
    at most one frame-set eligible, the newest, if none became eligible
    between its read and its commit, and may leave two otherwise (see
    findings); a durable write leaves the old or the new file after any crash;
    archiving keeps the durable rows and their files consistent, but for a
    row whose file name is chosen again for other bytes (see findings);
    where every manifest has its projection, reconciliation commits and
    degrades exactly the rows whose file fails; migrations are atomic, lose
    nothing and are idempotent, except that the driver's early commit can
    leave a table behind that blocks every later start (see findings).
    Delivery: one frame-set in flight, however the transactions of pipeline
    and client interleave; each credit answered once; only credentials that
    were verified for the claim and bytes that match their digest are sent,
    the lease being checked at one instant of the attempt (see findings);
    queued relay messages are streamed while the relay runs; alerts take
    effect once, in version order, and the receiver refines the path of
    hazards.
    Ingest: only authorized frames enter, under one capture session, for
    every interleaving of the streams; an archive failure never blocks the
    live path; MJPEG frames are exactly those between markers, if no start
    marker is cut by two chunks; a start raises exactly on the listed
    conditions and otherwise leaves all services wired; a stop tells every
    session and worker to end and empties the services, though a thread may
    outlive its join (see findings).
    Replay: both matchers terminate with sound, disjoint, numbered sets, and
    the [span] replay reports what the live service would emit; the relay of
    stored frame-sets streams the messages of those very sets, and counts
    them; the replay command writes what separate runs would, although its
    sweep reuses results ([replay_main_exact]).
    Operation: the states of the cameras are those of an abstract history of
    frames and streams; the log of an experiment is its start, the lines of
    the written calls and its end, and its counters are the calls counted;
    through an outage the client reconnects, and counts, up to 1024 times in
    a row, where the delay overflows and ends its thread (see findings).
    Routes: a refused or failed upload leaves no row and, unless its removal
    fails, no file; a phone receives the recent alerts and then every
    published one that it matches, but those its queue dropped and those of
    publications that queue.Full ended, which takes two that overlap.

    ** Bounds and fuel

    Integers are Z; where a width matters it is written out (SQLite's 64
    bits in AlertReceiver.v, protobuf's in RelayClient.v and
    RelayProtocol.v). [Matcher.select_loop] takes the number of frames not
    yet passed as fuel, and [span_search_terminates] shows that more changes
    nothing; [Mjpeg.extract_loop] takes one turn per byte of the buffer, and
    every turn consumes one; [Json.loads] takes the length of the text. No
    theorem is conditional on fuel. A [float] is an exact binary64, so
    rounding is part of the statements.

    ** Time, threads, crashes

    Clock readings, fresh identifiers and what the network answers are
    arguments of the step that asks for them. A method that holds a lock is
    one step; where the code releases it the steps are separate and may
    interleave with any others (IngestServer.v, LiveClient.v, AlertRoutes.v,
    RelayClient.v, Recorder.v). A transaction reads one state of the database
    and commits into a later one ([Database.later]); the histories of
    ManifestStore.v and LatestLive.v let it read any earlier state, and a
    column of an UPDATE is written only where it differs from what was read.
    A crash keeps any part of what was not synchronised (FileSystem.v) or
    committed (Migrations.v). Coarser than the code are: raising a counter,
    one step (AlertRoutes.v); the monitoring calls, which read one state of
    the cameras and the gate while the code takes no lock (Monitoring.v); a
    directory just made, which is taken to survive a crash although only the
    parent of a file is synchronised (FileSystem.v); and monotonic readings,
    in milliseconds (RelayProtocol.v).

    ** Parameters

    PyJWT's decoding and signature check, the digests ([Hashing]), the gRPC
    runtime and the encoding of protobuf, [MessageToDict], HTTP answers,
    the bytes of files a replay reads and the entries of its folders, how
    often an RPC pulls from the generator it is given, and the functions of
    src/app/infrastructure/storage/file_utils.py, which is not in the
    repository.

    ** Not modelled

    Generated code (infrastructure/grpc/generated), logging (core/logging.py),
    the settings of core/collector.py, which nothing reads, the HTML and
    JavaScript of the viewers in api/routes/debug.py and
    api/routes/monitoring.py, the argument parsing, console output and JSON
    texts of the scripts, scripts/send_phone_alert_test.py, a client to try a
    phone by hand, and FastAPI itself: app_factory.py and main.py, routing,
    validation of query parameters and the response schemas. A failing write
    of the experiment log is left out of Recorder.v.
*)

From Stdlib Require Export ZArith Lia Permutation Sorting.Sorted.
From Stdlib Require Import Ascii.
From Stdlib Require Strings.Byte.
From stdpp Require Export base tactics option list strings numbers pretty.
From stdpp Require Export countable fin_maps gmap sets.
From stdpp Require Import sorting.

#[global] Open Scope Z_scope.

Declare Scope gc_scope.
Delimit Scope gc_scope with gc.
#[global] Open Scope gc_scope.

(** ** Attribute assignment

    [x <| f := v |>] is the object [x] after [x.f = v], and [x <| f ::= g |>]
    after [x.f = g(x.f)] (or [dataclasses.replace] of that field). A record
    opts in with an instance of [Settable] that rebuilds it from its
    projections; the setter of a projection is found by abstracting it. *)

Class Settable (T : Type) := settable : T -> T.
Class Setter {T F : Type} (proj : T -> F) := update : (F -> F) -> T -> T.
#[global] Hint Mode Setter + + + : typeclass_instances.

Ltac solve_setter :=
  match goal with
  | |- @Setter ?T ?F ?proj =>
      let e := constr:(ltac:(let x := eval cbv [settable] in (@settable T _) in
                             let x := eval hnf in x in exact x)) in
      let e := eval cbv beta in e in
      match eval pattern proj in e with
      | ?g _ => let r := eval cbv beta in (fun (f : F -> F) (x : T) => g (fun y => f (proj y)) x)
                in exact r
      end
  end.
#[global] Hint Extern 1 (Setter _) => solve_setter : typeclass_instances.
#[global] Arguments update {T F} proj {Setter} f x /.

Notation "x <| proj := v |>" := (update proj (fun _ => v) x)
  (at level 1, left associativity, proj at next level,
   format "x  <| proj  :=  v |>") : gc_scope.
Notation "x <| proj ::= f |>" := (update proj f x)
  (at level 1, left associativity, proj at next level, f at level 99,
   format "x  <| proj  ::=  f |>") : gc_scope.

(** ** Results: Python's [return] and [raise]

    [result E A] is a call that returns an [A] or raises an [E]. *)

Inductive result (E A : Type) : Type :=
| Ok (a : A)
| Raise (e : E).
Arguments Ok {E A} a.
Arguments Raise {E A} e.

#[global] Instance result_ret {E} : MRet (result E) := fun A a => Ok a.
#[global] Instance result_bind {E} : MBind (result E) :=
  fun A B f r => match r with Ok a => f a | Raise e => Raise e end.
#[global] Instance result_fmap {E} : FMap (result E) :=
  fun A B f r => match r with Ok a => Ok (f a) | Raise e => Raise e end.

Definition is_ok {E A} (r : result E A) : bool :=
  match r with Ok _ => true | Raise _ => false end.

(** [raise_unless b e]: [if not b: raise e]. *)
Definition raise_unless {E} (b : bool) (e : E) : result E unit :=
  if b then Ok tt else Raise e.

Lemma result_bind_Ok {E A B} (r : result E A) (f : A -> result E B) b :
  (r ≫= f) = Ok b <-> exists a, r = Ok a /\ f a = Ok b.
Proof. destruct r; cbn; naive_solver. Qed.

Lemma raise_unless_Ok {E} b (e : E) u : raise_unless b e = Ok u <-> b = true.
Proof. destruct b, u; cbn; naive_solver. Qed.

Lemma raise_unless_bind {E A} b (e : E) (r : result E A) a :
  (raise_unless b e ≫= fun _ => r) = Ok a <-> b = true /\ r = Ok a.
Proof. destruct b; cbn; naive_solver. Qed.

(** A call that returned, statement by statement. *)
Ltac ok_step :=
  match goal with
  | E : (raise_unless _ _ ≫= _) = Ok _ |- _ => apply raise_unless_bind in E as [? E]
  | E : mbind _ _ = Ok _ |- _ =>
      let x := fresh "x" in let Hx := fresh "Hx" in apply result_bind_Ok in E as (x & Hx & E)
  end.
Ltac ok_steps := repeat ok_step.

(** ** Truth values of Python's [str | None]

    [None] and [""] are false; every other string is true. *)

Definition truthy (s : string) : bool := negb (bool_decide (s = "")).

Definition truthy_opt (s : option string) : bool :=
  match s with Some s => truthy s | None => false end.

(** [a or b] for [a : str | None] and [b : str]. *)
Definition or_str (a : option string) (b : string) : string :=
  match a with Some s => if truthy s then s else b | None => b end.

Lemma truthy_opt_true s : truthy_opt s = true <-> exists x, s = Some x /\ x <> "".
Proof.
  destruct s as [s|]; cbn; [|naive_solver].
  unfold truthy. rewrite negb_true_iff, bool_decide_eq_false. naive_solver.
Qed.

(** ** [str.strip], [str.lower] and [str.upper] on ASCII text

    Strings are sequences of UTF-8 bytes; the methods below act on the
    ASCII characters, which is what the identifiers, states and mode names
    of the program consist of. *)

Definition is_py_space (c : ascii) : bool :=
  let n := nat_of_ascii c in
  (Nat.leb 9 n && Nat.leb n 13) || (Nat.leb 28 n && Nat.leb n 32).

Fixpoint lstrip (s : string) : string :=
  match s with
  | String c s' => if is_py_space c then lstrip s' else s
  | EmptyString => EmptyString
  end.

Fixpoint rstrip (s : string) : string :=
  match s with
  | EmptyString => EmptyString
  | String c s' =>
      match rstrip s' with
      | EmptyString => if is_py_space c then EmptyString else String c EmptyString
      | r => String c r
      end
  end.

Definition strip (s : string) : string := rstrip (lstrip s).

Fixpoint any_char (p : ascii -> bool) (s : string) : bool :=
  match s with EmptyString => false | String c s' => p c || any_char p s' end.

Lemma strip_id s : any_char is_py_space s = false -> strip s = s.
Proof.
  intros Hs. assert (lstrip s = s) as El.
  { destruct s as [|c s]; [done|]. cbn in *. by apply orb_false_iff in Hs as [-> _]. }
  unfold strip. rewrite El. clear El. induction s as [|c s IH]; [done|]. cbn in *.
  apply orb_false_iff in Hs as [Hc Hs]. rewrite IH by done. destruct s; [|done]. by rewrite Hc.
Qed.

Definition ascii_lower (c : ascii) : ascii :=
  let n := nat_of_ascii c in
  if Nat.leb 65 n && Nat.leb n 90 then ascii_of_nat (n + 32) else c.

Definition ascii_upper (c : ascii) : ascii :=
  let n := nat_of_ascii c in
  if Nat.leb 97 n && Nat.leb n 122 then ascii_of_nat (n - 32) else c.

Fixpoint map_string (f : ascii -> ascii) (s : string) : string :=
  match s with
  | EmptyString => EmptyString
  | String c s' => String (f c) (map_string f s')
  end.

Definition lower : string -> string := map_string ascii_lower.
Definition upper : string -> string := map_string ascii_upper.

(** [s.split(c)] for a separator of one character. *)
Fixpoint split_char (c : ascii) (s : string) : list string :=
  match s with
  | EmptyString => [""]
  | String x s =>
      if ascii_dec x c then "" :: split_char c s
      else match split_char c s with
           | [] => [String x ""]
           | part :: parts => String x part :: parts
           end
  end.

Lemma length_string_app (a b : string) : String.length (a +:+ b) = (String.length a + String.length b)%nat.
Proof. induction a as [|c a IH]; [done|]. change (String c a +:+ b) with (String c (a +:+ b)). cbn. by rewrite IH. Qed.

Lemma substring_all m s : (String.length s <= m)%nat -> String.substring 0 m s = s.
Proof. revert m. induction s as [|c s IH]; intros [|m] Hm; cbn in *; [done|done|lia|]. by rewrite IH by lia. Qed.

Lemma substring_halves n m s : (String.length s <= m)%nat ->
  (String.substring 0 n s +:+ String.substring n m s) = s.
Proof.
  revert n. induction s as [|c s IH]; intros n Hm; [by destruct n; destruct m|].
  destruct n as [|n]; [exact (substring_all m (String c s) Hm)|].
  cbn in Hm |- *. change (String c (String.substring 0 n s +:+ String.substring n m s) = String c s).
  f_equal. apply IH. lia.
Qed.

Lemma substring_add n m k s :
  (String.substring n m s +:+ String.substring (n + m) k s) = String.substring n (m + k) s.
Proof.
  revert n m. induction s as [|c s IH]; intros n m; [by destruct n, m, k|].
  destruct n as [|n]; [|exact (IH n m)].
  destruct m as [|m]; [done|]. cbn.
  change (String c (String.substring 0 m s +:+ String.substring m k s) = String c (String.substring 0 (m + k) s)).
  f_equal. apply (IH 0%nat m).
Qed.

Definition starts_with (prefix s : string) : bool := String.prefix prefix s.

Fixpoint ends_with (suffix s : string) : bool :=
  if String.eqb s suffix then true
  else match s with EmptyString => false | String _ s => ends_with suffix s end.

(** [sep.join(l)]. *)
Fixpoint join (sep : string) (l : list string) : string :=
  match l with
  | [] => ""
  | [s] => s
  | s :: l' => s +:+ sep +:+ join sep l'
  end.

(** ** [sorted(l, key=...)]

    Python's sort is stable; insertion from the right, before the first
    element that is not smaller, is the stable sort for the order [leb]. *)

Section StableSort.
Context {A : Type} (leb : A -> A -> bool).

Fixpoint insert_by (x : A) (l : list A) : list A :=
  match l with
  | [] => [x]
  | y :: l' => if leb x y then x :: l else y :: insert_by x l'
  end.

Definition sort_by (l : list A) : list A := foldr insert_by [] l.

Definition le_by (x y : A) : Prop := leb x y = true.

Lemma insert_by_perm x l : insert_by x l ≡ₚ x :: l.
Proof.
  induction l as [|y l IH]; cbn; [done|].
  destruct (leb x y); [done|]. rewrite IH. by apply Permutation_swap.
Qed.

Lemma sort_by_perm l : sort_by l ≡ₚ l.
Proof. induction l as [|x l IH]; cbn; [done|]. by rewrite insert_by_perm, IH. Qed.

Lemma elem_of_sort_by x l : x ∈ sort_by l <-> x ∈ l.
Proof. by rewrite sort_by_perm. Qed.

Lemma length_sort_by l : length (sort_by l) = length l.
Proof. by rewrite sort_by_perm. Qed.

Lemma sort_by_nil_inv l : sort_by l = [] <-> l = [].
Proof.
  split; [|by intros ->]. intros H. apply length_zero_iff_nil.
  by rewrite <- length_sort_by, H.
Qed.

Context (leb_total : forall x y, leb x y = true \/ leb y x = true).
Context (leb_trans : forall x y z, leb x y = true -> leb y z = true -> leb x z = true).

Lemma insert_by_sorted x l : StronglySorted le_by l -> StronglySorted le_by (insert_by x l).
Proof using leb_total leb_trans.
  induction 1 as [|y l Hl IH Hy]; cbn; [repeat constructor|].
  destruct (leb x y) eqn:E.
  - constructor; [by constructor|]. constructor; [done|].
    eapply Forall_impl; [exact Hy|]. intros z Hz. by apply (leb_trans x y z).
  - constructor; [done|]. rewrite insert_by_perm. constructor; [|done].
    destruct (leb_total x y) as [?|?]; [congruence|done].
Qed.

Lemma sort_by_sorted l : StronglySorted le_by (sort_by l).
Proof using leb_total leb_trans.
  induction l; cbn; [constructor|]. by apply insert_by_sorted.
Qed.

(** The sorted list depends on the multiset only, where elements that
    compare equal both ways are equal. *)
Lemma sort_by_perm_eq l l' :
  (forall x y, x ∈ l -> y ∈ l -> leb x y = true -> leb y x = true -> x = y) ->
  l ≡ₚ l' -> sort_by l = sort_by l'.
Proof using leb_total leb_trans.
  intros Hanti Hp. apply (StronglySorted_unique_strong le_by).
  - intros x y. rewrite !elem_of_sort_by, <- Hp. apply Hanti.
  - apply sort_by_sorted.
  - apply sort_by_sorted.
  - by rewrite !sort_by_perm.
Qed.
End StableSort.

(** Lexicographic comparison of Python tuples: compare the first
    components, fall through to the rest when they are equal. *)
Definition lex_leb {A} (ltb eqb rest : A -> A -> bool) (x y : A) : bool :=
  ltb x y || (eqb x y && rest x y).

Lemma string_leb_total s t : String.leb s t = true \/ String.leb t s = true.
Proof. destruct (String.leb_total s t) as [H|H]; auto. Qed.

Lemma string_leb_trans s t u :
  String.leb s t = true -> String.leb t u = true -> String.leb s u = true.
Proof.
  intros H1 H2. apply Is_true_true.
  apply Is_true_true in H1, H2. exact (@transitivity _ String.le _ s t u H1 H2).
Qed.

Lemma string_leb_refl s : String.leb s s = true.
Proof. destruct (string_leb_total s s); done. Qed.

Lemma string_leb_antisym s t :
  String.leb s t = true -> String.leb t s = true -> s = t.
Proof. apply String.leb_antisym. Qed.

Lemma string_ltb_leb s t : String.ltb s t = true -> String.leb s t = true.
Proof. unfold String.ltb, String.leb. by destruct (String.compare s t). Qed.

Lemma string_ltb_total s t : String.ltb s t = true \/ s = t \/ String.ltb t s = true.
Proof.
  unfold String.ltb. rewrite (String.compare_antisym t s).
  destruct (String.compare s t) eqn:E; cbn; auto. right. left. by apply String.compare_eq_iff.
Qed.

Lemma string_ltb_irrefl s : String.ltb s s = false.
Proof.
  unfold String.ltb. pose proof (String.compare_antisym s s) as E.
  by destruct (String.compare s s).
Qed.

Lemma string_ltb_trans s t u :
  String.ltb s t = true -> String.ltb t u = true -> String.ltb s u = true.
Proof.
  intros H1 H2. destruct (string_ltb_total s u) as [H|[E|H]]; [done|..]; exfalso.
  - subst u. pose proof (string_leb_antisym _ _ (string_ltb_leb _ _ H1) (string_ltb_leb _ _ H2)).
    subst t. by rewrite string_ltb_irrefl in H1.
  - pose proof (string_leb_trans _ _ _ (string_ltb_leb _ _ H2) (string_ltb_leb _ _ H)) as H3.
    pose proof (string_leb_antisym _ _ (string_ltb_leb _ _ H1) H3).
    subst t. by rewrite string_ltb_irrefl in H1.
Qed.

(** The lexicographic order is total and transitive where its parts are. *)
Section LexOrder.
Context {A B : Type} (key : A -> B) (ltb : B -> B -> bool) (eqb : B -> B -> bool).
Context (rest : A -> A -> bool).
Context (ltb_total : forall x y, ltb x y = true \/ x = y \/ ltb y x = true).
Context (ltb_trans : forall x y z, ltb x y = true -> ltb y z = true -> ltb x z = true).
Context (eqb_eq : forall x y, eqb x y = true <-> x = y).
Context (rest_total : forall x y, rest x y = true \/ rest y x = true).
Context (rest_trans : forall x y z, rest x y = true -> rest y z = true -> rest x z = true).

Let leb := lex_leb (fun x y => ltb (key x) (key y)) (fun x y => eqb (key x) (key y)) rest.

Lemma lex_total x y : leb x y = true \/ leb y x = true.
Proof using ltb_total eqb_eq rest_total.
  unfold leb, lex_leb. rewrite !orb_true_iff, !andb_true_iff, !eqb_eq.
  destruct (ltb_total (key x) (key y)) as [?|[?|?]]; auto.
  destruct (rest_total x y); auto.
Qed.

Lemma lex_trans x y z : leb x y = true -> leb y z = true -> leb x z = true.
Proof using ltb_trans eqb_eq rest_trans.
  unfold leb, lex_leb. rewrite !orb_true_iff, !andb_true_iff, !eqb_eq.
  intros [H1|[H1 H2]] [H3|[H3 H4]].
  - left. by eapply ltb_trans.
  - left. by rewrite <- H3.
  - left. by rewrite H1.
  - right. rewrite H1. split; [done|]. by eapply rest_trans.
Qed.
End LexOrder.

Lemma last_sort_by {A} (leb : A -> A -> bool) l m :
  (forall x y, leb x y = true \/ leb y x = true) ->
  (forall x y z, leb x y = true -> leb y z = true -> leb x z = true) ->
  last (sort_by leb l) = Some m -> m ∈ l /\ forall x, x ∈ l -> leb x m = true.
Proof.
  intros Ht Htr Hl. apply last_Some in Hl as [k Hk].
  pose proof (sort_by_sorted leb Ht Htr l) as Hs. rewrite Hk in Hs.
  assert (forall x, x ∈ l <-> x ∈ k ++ [m]) as Hin by (intros x; by rewrite <- Hk, elem_of_sort_by).
  split; [apply Hin; set_solver|]. intros x [Hx|Hx%list_elem_of_singleton]%Hin%elem_of_app.
  - clear Hin Hk. induction k as [|y k IH]; cbn in Hs; [set_solver|].
    apply StronglySorted_inv in Hs as [Hs Hf]. rewrite Forall_forall in Hf.
    apply elem_of_cons in Hx as [->|Hx]; [apply Hf; set_solver|by apply IH].
  - subst. by destruct (Ht m m).
Qed.

(** ** [collections.deque(maxlen=n)]

    Appending beyond [maxlen] drops elements from the left. *)

Section Deque.
Context {A : Type}.
Implicit Types (l : list A) (n : Z).

Definition deque_trim n l : list A := drop (length l - Z.to_nat n) l.
Definition deque_append n l x : list A := deque_trim n (l ++ [x]).

Lemma deque_trim_length n l : (length (deque_trim n l) <= Z.to_nat n)%nat.
Proof. unfold deque_trim. rewrite length_drop. lia. Qed.

Lemma deque_trim_suffix n l : deque_trim n l `suffix_of` l.
Proof. exists (take (length l - Z.to_nat n) l). symmetry. apply take_drop. Qed.

Lemma deque_trim_id n l : (length l <= Z.to_nat n)%nat -> deque_trim n l = l.
Proof. intros H. unfold deque_trim. by replace (_ - _)%nat with 0%nat by lia. Qed.

Lemma deque_append_full n l x :
  0 < n -> Z.of_nat (length l) = n -> deque_append n l x = drop 1 l ++ [x].
Proof.
  intros Hn Hl. unfold deque_append, deque_trim. rewrite length_app. cbn.
  replace (_ - _)%nat with 1%nat by lia. rewrite drop_app_le; [done|lia].
Qed.

Lemma deque_append_room n l x :
  Z.of_nat (length l) < n -> deque_append n l x = l ++ [x].
Proof. intros H. apply deque_trim_id. rewrite length_app. cbn. lia. Qed.

Lemma elem_of_deque_append n l x y : y ∈ deque_append n l x -> y ∈ l \/ y = x.
Proof.
  intros H. unfold deque_append in H.
  destruct (deque_trim_suffix n (l ++ [x])) as [k E].
  assert (y ∈ l ++ [x]) as Hy by (rewrite E; set_solver). set_solver.
Qed.
End Deque.

Lemma deque_append_trim {A} n (l : list A) x : 0 < n -> deque_append n (deque_trim n l) x = deque_trim n (l ++ [x]).
Proof.
  intros Hn. unfold deque_append, deque_trim. rewrite !length_app, length_drop. cbn.
  destruct (decide (length l < Z.to_nat n)%nat).
  - replace (length l - Z.to_nat n)%nat with 0%nat by lia. rewrite drop_0.
    f_equal. lia.
  - replace (_ - _ + 1 - _)%nat with 1%nat by lia.
    replace (length l + 1 - Z.to_nat n)%nat with (S (length l - Z.to_nat n)) by lia.
    rewrite !drop_app_le by (rewrite ?length_drop; lia).
    by rewrite drop_drop, Nat.add_1_r.
Qed.

(** ** Dictionaries with insertion order

    A Python [dict] whose iteration order matters is the list of its items
    in insertion order: assignment to a present key keeps its position. *)

Section Dict.
Context {K V : Type} `{EqDecision K}.
Implicit Types (d : list (K * V)) (k : K) (v : V).

Fixpoint dict_get k d : option V :=
  match d with
  | [] => None
  | (k', v) :: d' => if decide (k = k') then Some v else dict_get k d'
  end.

Fixpoint dict_set k v d : list (K * V) :=
  match d with
  | [] => [(k, v)]
  | (k', v') :: d' => if decide (k = k') then (k, v) :: d' else (k', v') :: dict_set k v d'
  end.

Fixpoint dict_del k d : list (K * V) :=
  match d with
  | [] => []
  | (k', v) :: d' => if decide (k = k') then d' else (k', v) :: dict_del k d'
  end.

Lemma dict_get_elem k v d : dict_get k d = Some v -> (k, v) ∈ d.
Proof.
  induction d as [|[k' v'] d IH]; cbn; [done|]. case_decide; intros; simplify_eq; set_solver.
Qed.

Lemma dict_get_None k d : dict_get k d = None <-> k ∉ d.*1.
Proof.
  induction d as [|[k' v'] d IH]; cbn; [set_solver|]. case_decide; set_solver.
Qed.

Lemma dict_elem_get k v d : NoDup (d.*1) -> (k, v) ∈ d -> dict_get k d = Some v.
Proof.
  induction d as [|[k' v'] d IH]; cbn; [set_solver|].
  intros [Hk Hd]%NoDup_cons [Heq|Hin]%elem_of_cons.
  - simplify_eq. by rewrite decide_True.
  - rewrite decide_False; [by apply IH|]. intros ->. apply Hk.
    apply (list_elem_of_fmap_2 fst) in Hin. done.
Qed.

Lemma dict_set_new k v d : k ∉ d.*1 -> dict_set k v d = d ++ [(k, v)].
Proof.
  induction d as [|[k' v'] d IH]; cbn; [done|]. rewrite not_elem_of_cons. intros [Hne Hd].
  rewrite decide_False by done. by rewrite IH.
Qed.

Lemma dict_set_elem k v d p : p ∈ dict_set k v d -> p = (k, v) \/ p ∈ d.
Proof. induction d as [|[k' v'] d IH]; cbn; [set_solver|]. case_decide; set_solver. Qed.

Lemma dict_get_set k v d : dict_get k (dict_set k v d) = Some v.
Proof.
  induction d as [|[k' v'] d IH]; cbn; [by rewrite decide_True|].
  case_decide; cbn; [by rewrite decide_True|by rewrite decide_False].
Qed.

Lemma dict_get_set_ne k k' v d : k <> k' -> dict_get k' (dict_set k v d) = dict_get k' d.
Proof.
  intros Hne. induction d as [|[k1 v1] d IH]; cbn; [by rewrite decide_False|].
  repeat case_decide; cbn; subst; repeat case_decide; naive_solver.
Qed.

Lemma dict_keys_set k v d :
  (dict_set k v d).*1 =
  if decide (k ∈ d.*1) then d.*1 else d.*1 ++ [k].
Proof.
  induction d as [|[k' v'] d IH]; cbn; [rewrite decide_False by set_solver; done|].
  destruct (decide (k = k')) as [->|Hne]; cbn.
  - rewrite decide_True by set_solver. done.
  - rewrite IH. repeat case_decide; set_solver.
Qed.

Lemma dict_set_NoDup k v d : NoDup (d.*1) -> NoDup ((dict_set k v d).*1).
Proof.
  intros H. rewrite dict_keys_set. case_decide; [done|].
  apply NoDup_app. split_and!; [done|set_solver|apply NoDup_singleton].
Qed.

Lemma dict_del_subseteq k d : dict_del k d ⊆ d.
Proof. induction d as [|[k' v'] d IH]; cbn; [done|]. case_decide; set_solver. Qed.

Lemma dict_del_NoDup k d : NoDup (d.*1) -> NoDup ((dict_del k d).*1).
Proof.
  induction d as [|[k' v'] d IH]; cbn; [done|]. intros [Hk Hd]%NoDup_cons.
  case_decide; cbn; [done|]. apply NoDup_cons. split; [|by apply IH].
  intros [[k1 v1] [E Hin]]%list_elem_of_fmap. cbn in E; subst. apply Hk.
  apply list_elem_of_fmap. exists (k1, v1). split; [done|]. by apply (dict_del_subseteq k).
Qed.

Lemma dict_get_del k d : NoDup (d.*1) -> dict_get k (dict_del k d) = None.
Proof.
  induction d as [|[k' v'] d IH]; cbn; [done|]. intros [Hk Hd]%NoDup_cons.
  case_decide; subst; cbn; [by apply dict_get_None|]. rewrite decide_False by done. auto.
Qed.

Lemma dict_get_del_ne k k' d : k <> k' -> dict_get k' (dict_del k d) = dict_get k' d.
Proof.
  intros Hne. induction d as [|[k1 v1] d IH]; cbn; [done|].
  repeat case_decide; cbn; subst; repeat case_decide; naive_solver.
Qed.

Lemma dict_del_length k d : (length (dict_del k d) <= length d)%nat.
Proof. induction d as [|[k' v'] d IH]; cbn; [lia|]. case_decide; cbn; lia. Qed.

Lemma dict_set_length k v d :
  length (dict_set k v d) =
  (if decide (k ∈ d.*1) then length d else S (length d)).
Proof.
  rewrite <- (length_fmap fst), dict_keys_set.
  case_decide; rewrite ?length_app, ?length_fmap; cbn; lia.
Qed.

Lemma dict_filter_NoDup (P : K * V -> Prop) `{forall x, Decision (P x)} d :
  NoDup (d.*1) -> NoDup ((filter P d).*1).
Proof.
  induction d as [|kv d IH]; [done|]. rewrite fmap_cons. intros [Hk Hd]%NoDup_cons.
  rewrite filter_cons. case_decide; [|by apply IH]. rewrite fmap_cons.
  apply NoDup_cons. split; [|by apply IH].
  intros [x [E [_ Hin]%list_elem_of_filter]]%list_elem_of_fmap. apply Hk.
  apply list_elem_of_fmap. eauto.
Qed.
End Dict.

(** ** [min] and [max] of an iterable of integers

    [None] is the [ValueError] Python raises on an empty iterable. *)

Definition min_list (l : list Z) : option Z :=
  match l with [] => None | x :: l' => Some (foldl Z.min x l') end.
Definition max_list (l : list Z) : option Z :=
  match l with [] => None | x :: l' => Some (foldl Z.max x l') end.

Lemma foldl_min_spec x l :
  (foldl Z.min x l = x \/ foldl Z.min x l ∈ l) /\
  foldl Z.min x l <= x /\ (forall y, y ∈ l -> foldl Z.min x l <= y).
Proof.
  revert x. induction l as [|z l IH]; intros x; cbn; [set_solver by lia|].
  destruct (IH (x `min` z)) as (H1 & H2 & H3). split_and!.
  - destruct H1 as [->|H1]; [|set_solver].
    destruct (Z.min_spec x z) as [[_ ->]|[_ ->]]; set_solver.
  - lia.
  - intros y [->|Hy]%elem_of_cons; [lia|by apply H3].
Qed.

Lemma foldl_max_spec x l :
  (foldl Z.max x l = x \/ foldl Z.max x l ∈ l) /\
  x <= foldl Z.max x l /\ (forall y, y ∈ l -> y <= foldl Z.max x l).
Proof.
  revert x. induction l as [|z l IH]; intros x; cbn; [set_solver by lia|].
  destruct (IH (x `max` z)) as (H1 & H2 & H3). split_and!.
  - destruct H1 as [->|H1]; [|set_solver].
    destruct (Z.max_spec x z) as [[_ ->]|[_ ->]]; set_solver.
  - lia.
  - intros y [->|Hy]%elem_of_cons; [lia|by apply H3].
Qed.

Lemma min_list_Some l m : min_list l = Some m <-> m ∈ l /\ forall y, y ∈ l -> m <= y.
Proof.
  destruct l as [|x l]; cbn; [set_solver|].
  destruct (foldl_min_spec x l) as (H1 & H2 & H3). split.
  - intros [= <-]. split; [destruct H1 as [->|]; set_solver|].
    intros y [->|Hy]%elem_of_cons; auto.
  - intros [Hm Hle]. f_equal. apply Z.le_antisymm.
    + apply elem_of_cons in Hm as [->|Hm]; auto.
    + destruct H1 as [->|H1]; apply Hle; set_solver.
Qed.

Lemma max_list_Some l m : max_list l = Some m <-> m ∈ l /\ forall y, y ∈ l -> y <= m.
Proof.
  destruct l as [|x l]; cbn; [set_solver|].
  destruct (foldl_max_spec x l) as (H1 & H2 & H3). split.
  - intros [= <-]. split; [destruct H1 as [->|]; set_solver|].
    intros y [->|Hy]%elem_of_cons; auto.
  - intros [Hm Hle]. f_equal. apply Z.le_antisymm.
    + destruct H1 as [->|H1]; apply Hle; set_solver.
    + apply elem_of_cons in Hm as [->|Hm]; auto.
Qed.

Lemma min_list_is_Some l : l <> [] -> is_Some (min_list l).
Proof. destruct l; [done|eauto]. Qed.

Lemma max_list_is_Some l : l <> [] -> is_Some (max_list l).
Proof. destruct l; [done|eauto]. Qed.

(** ** Generic list lemmas *)

Lemma filter_none {A} (P : A -> Prop) `{forall x, Decision (P x)} (l : list A) :
  (forall x, x ∈ l -> ~ P x) -> filter P l = [].
Proof.
  induction l as [|x l IH]; intros Hl; [done|].
  rewrite filter_cons, decide_False by (apply Hl; left). apply IH. intros y Hy. apply Hl. by right.
Qed.

(** A decidable fact about the numbers below [k], checked one by one. *)
Lemma N_below (P : N -> bool) (k : nat) :
  forallb (fun i => P (N.of_nat i)) (seq 0 k) = true ->
  forall n, (n < N.of_nat k)%N -> P n = true.
Proof.
  intros Hall n Hn. rewrite <- (N2Nat.id n).
  apply (proj1 (forallb_forall _ _) Hall (N.to_nat n)). apply in_seq. lia.
Qed.

Lemma filter_all {A} (P : A -> Prop) `{forall x, Decision (P x)} (l : list A) :
  Forall P l -> filter P l = l.
Proof. induction 1 as [|x l Hx Hl IH]; [done|]. rewrite filter_cons, decide_True by done. by rewrite IH. Qed.

(** ** Hints

    [gc]: the orders of strings and the invariants of dictionaries.
    [bools]: conditions of the code, read as propositions. *)

Create HintDb gc.
#[export] Hint Resolve string_leb_total string_leb_trans string_leb_refl string_ltb_leb string_ltb_trans : gc.
#[export] Hint Resolve dict_set_NoDup dict_del_NoDup dict_filter_NoDup dict_del_subseteq : gc.

#[export] Hint Rewrite andb_true_iff orb_true_iff negb_true_iff negb_false_iff : bools.
#[export] Hint Rewrite Z.leb_le Z.ltb_lt Z.eqb_eq Z.leb_gt Z.ltb_ge Z.eqb_neq String.eqb_eq : bools.
#[export] Hint Rewrite @bool_decide_eq_true @bool_decide_eq_false : bools.
#[export] Hint Rewrite @raise_unless_Ok @raise_unless_bind : bools.

Ltac bools := autorewrite with bools.
Tactic Notation "bools" "in" hyp(H) := autorewrite with bools in H.
