(* ===== verification/Json.v ===== *)
(** * JSON text

    The values the program serialises and [json.dumps] with the options
    [canonical_json] of src/app/services/identity.py passes to it:
    [ensure_ascii=False], [separators=(",", ":")], [sort_keys=True].
    [dumps] is that encoder; [loads] reads the compact text back, and
    [loads_dumps] is the round trip, from which the encoding is injective.
    A float is carried as the text [float.__repr__] gives it. *)

From Stdlib Require Import Ascii.
From S2P Require Import Prelude.

Inductive json : Type :=
| JNull
| JBool (b : bool)
| JInt (z : Z)
| JFloat (repr : string)
| JStr (s : string)
| JList (l : list json)
| JObj (fields : list (string * json)).

(** [None] is [null]; a string is a string. *)
Definition json_opt_str (s : option string) : json :=
  match s with Some s => JStr s | None => JNull end.
Definition json_opt_int (z : option Z) : json :=
  match z with Some z => JInt z | None => JNull end.

(** ** Encoder *)

Definition hex_char (n : nat) : ascii :=
  ascii_of_nat (if Nat.ltb n 10 then 48 + n else 87 + n).

(** The two characters that must be escaped, the short escapes and the
    remaining control characters; everything else stands for itself. *)
Definition escape_char (c : ascii) : string :=
  let n := nat_of_ascii c in
  if Nat.eqb n 34 then String "\" (String c "")
  else if Nat.eqb n 92 then String "\" (String c "")
  else if Nat.eqb n 8 then "\b"
  else if Nat.eqb n 9 then "\t"
  else if Nat.eqb n 10 then "\n"
  else if Nat.eqb n 12 then "\f"
  else if Nat.eqb n 13 then "\r"
  else if Nat.ltb n 32
  then "\u00" +:+ String (hex_char (Nat.div n 16)) (String (hex_char (Nat.modulo n 16)) "")
  else String c "".

Fixpoint escape (s : string) : string :=
  match s with
  | EmptyString => EmptyString
  | String c s' => escape_char c +:+ escape s'
  end.

Definition dquote : string := String (ascii_of_nat 34) "".

Definition quote (s : string) : string := dquote +:+ escape s +:+ dquote.

Definition key_leb {V} (x y : string * V) : bool := String.leb x.1 y.1.

Fixpoint dumps (v : json) : string :=
  match v with
  | JNull => "null"
  | JBool true => "true"
  | JBool false => "false"
  | JInt z => pretty z
  | JFloat r => r
  | JStr s => quote s
  | JList l => "[" +:+ join "," (dumps <$> l) +:+ "]"
  | JObj fs =>
      "{" +:+
      join "," ((fun '(k, t) => quote k +:+ ":" +:+ t) <$>
                sort_by key_leb (prod_map id dumps <$> fs)) +:+ "}"
  end.

(** [json.dumps(value, ensure_ascii=False, indent=2)] at [depth] spaces. *)
Definition line_feed : string := String (ascii_of_nat 10) "".
Fixpoint spaces (n : nat) : string := match n with O => "" | S n => " " +:+ spaces n end.

Fixpoint dumps_indented (depth : nat) (v : json) : string :=
  let line n := line_feed +:+ spaces n in
  match v with
  | JList [] => "[]"
  | JList l => "[" +:+ line (depth + 2)%nat +:+ join ("," +:+ line (depth + 2)%nat) (dumps_indented (depth + 2) <$> l) +:+
               line depth +:+ "]"
  | JObj [] => "{}"
  | JObj fs => "{" +:+ line (depth + 2)%nat +:+
      join ("," +:+ line (depth + 2)%nat)
        ((fun '(k, t) => quote k +:+ ": " +:+ t) <$> (prod_map id (dumps_indented (depth + 2)) <$> fs)) +:+
      line depth +:+ "}"
  | _ => dumps v
  end.

(** The order in which the encoder writes the fields of an object. *)
Fixpoint sort_keys (v : json) : json :=
  match v with
  | JList l => JList (sort_keys <$> l)
  | JObj fs => JObj (sort_by key_leb (prod_map id sort_keys <$> fs))
  | _ => v
  end.

Example dumps_example :
  dumps (JObj [("b", JInt (-3)); ("a", JList [JStr "x"; JNull; JBool true])]) =
  "{" +:+ quote "a" +:+ ":[" +:+ quote "x" +:+ ",null,true]," +:+ quote "b" +:+ ":-3}".
Proof. vm_compute. reflexivity. Qed.

(** ** [ensure_ascii=True]

    The default of [json.dumps]: the code points from 127 on are written as
    [\uXXXX], those above 0xFFFF as a surrogate pair. They occur inside
    strings only, so escaping the text of [dumps] is the encoder with the
    default options. Text is UTF-8. *)

Definition hex4 (n : N) : string :=
  let digit k := hex_char (N.to_nat (N.modulo (N.shiftr n k) 16)) in
  "\u" +:+ String (digit 12%N) (String (digit 8%N) (String (digit 4%N) (String (digit 0%N) ""))).

Definition escape_code_point (n : N) : string :=
  if (n <? 65536)%N then hex4 n
  else let v := (n - 65536)%N in
       hex4 (55296 + N.shiftr v 10)%N +:+ hex4 (56320 + N.land v 1023)%N.

Fixpoint ensure_ascii (s : string) : string :=
  match s with
  | EmptyString => EmptyString
  | String a s1 =>
      let x := N_of_ascii a in
      let low c := N.land (N_of_ascii c) 63 in
      if (x <? 127)%N then String a (ensure_ascii s1)
      else if (x =? 127)%N then hex4 x +:+ ensure_ascii s1
      else match s1 with
           | String b s2 =>
               if (x <? 224)%N
               then escape_code_point (N.shiftl (N.land x 31) 6 + low b)%N +:+ ensure_ascii s2
               else match s2 with
                    | String c s3 =>
                        if (x <? 240)%N
                        then escape_code_point (N.shiftl (N.land x 15) 12 + N.shiftl (low b) 6 + low c)%N
                               +:+ ensure_ascii s3
                        else match s3 with
                             | String d s4 =>
                                 escape_code_point (N.shiftl (N.land x 7) 18 + N.shiftl (low b) 12 +
                                                    N.shiftl (low c) 6 + low d)%N +:+ ensure_ascii s4
                             | EmptyString => EmptyString
                             end
                    | EmptyString => EmptyString
                    end
           | EmptyString => EmptyString
           end
  end.

Definition dumps_ascii (v : json) : string := ensure_ascii (dumps v).

Example dumps_ascii_example :
  dumps_ascii (JStr "é😀") = dquote +:+ "\u00e9\ud83d\ude00" +:+ dquote.
Proof. vm_compute. reflexivity. Qed.

(** ** Decoder of the compact text *)

Definition is_num_char (c : ascii) : bool :=
  let n := nat_of_ascii c in
  (Nat.leb 48 n && Nat.leb n 57) || Nat.eqb n 43 || Nat.eqb n 45 || Nat.eqb n 46
  || Nat.eqb n 69 || Nat.eqb n 101.

(** The characters a float's text has and an integer's has not. *)
Definition is_float_char (c : ascii) : bool :=
  let n := nat_of_ascii c in Nat.eqb n 46 || Nat.eqb n 69 || Nat.eqb n 101.

Fixpoint span (p : ascii -> bool) (s : string) : string * string :=
  match s with
  | EmptyString => ("", "")
  | String c s' => if p c then let '(a, b) := span p s' in (String c a, b) else ("", s)
  end.

Fixpoint read_dec (acc : N) (s : string) : option N :=
  match s with
  | EmptyString => Some acc
  | String c s' =>
      let n := N_of_ascii c in
      if (48 <=? n)%N && (n <=? 57)%N then read_dec (acc * 10 + (n - 48))%N s' else None
  end.

Definition read_N (s : string) : option N :=
  match s with EmptyString => None | _ => read_dec 0 s end.

Definition read_Z (s : string) : option Z :=
  match s with
  | String "-" s' => n ← read_N s'; Some (- Z.of_N n)%Z
  | _ => n ← read_N s; Some (Z.of_N n)
  end.

Definition read_num (t : string) : option json :=
  if any_char is_float_char t then Some (JFloat t) else z ← read_Z t; Some (JInt z).

Definition hex_val (c : ascii) : option nat :=
  let n := nat_of_ascii c in
  if Nat.leb 48 n && Nat.leb n 57 then Some (n - 48)%nat
  else if Nat.leb 97 n && Nat.leb n 102 then Some (n - 87)%nat else None.

Definition unescape_short (c : ascii) : option ascii :=
  match c with
  | "b"%char => Some (ascii_of_nat 8)
  | "t"%char => Some (ascii_of_nat 9)
  | "n"%char => Some (ascii_of_nat 10)
  | "f"%char => Some (ascii_of_nat 12)
  | "r"%char => Some (ascii_of_nat 13)
  | _ => if Nat.eqb (nat_of_ascii c) 34 || Nat.eqb (nat_of_ascii c) 92
         then Some c else None
  end.

(** The rest of a string literal, after its opening quote. *)
Fixpoint unquote (s : string) : option (string * string) :=
  match s with
  | EmptyString => None
  | String c r =>
      if Nat.eqb (nat_of_ascii c) 34 then Some ("", r)
      else if Nat.eqb (nat_of_ascii c) 92 then
        match r with
        | String "u" (String "0" (String "0" (String h1 (String h2 r')))) =>
            a ← hex_val h1; b ← hex_val h2;
            if Nat.ltb a 8 then
              '(t, r'') ← unquote r'; Some (String (ascii_of_nat (16 * a + b)) t, r'')
            else None
        | String e r' =>
            a ← unescape_short e; '(t, r'') ← unquote r'; Some (String a t, r'')
        | EmptyString => None
        end
      else '(t, r') ← unquote r; Some (String c t, r')
  end.

Fixpoint parse_value (n : nat) (s : string) : option (json * string) :=
  match n with
  | O => None
  | S n =>
      match s with
      | String "n" (String "u" (String "l" (String "l" r))) => Some (JNull, r)
      | String "t" (String "r" (String "u" (String "e" r))) => Some (JBool true, r)
      | String "f" (String "a" (String "l" (String "s" (String "e" r)))) =>
          Some (JBool false, r)
      | String "[" (String "]" r) => Some (JList [], r)
      | String "[" r => '(l, r') ← parse_items n r; Some (JList l, r')
      | String "{" (String "}" r) => Some (JObj [], r)
      | String "{" r => '(fs, r') ← parse_fields n r; Some (JObj fs, r')
      | String c r =>
          if Nat.eqb (nat_of_ascii c) 34 then '(t, r') ← unquote r; Some (JStr t, r')
          else let '(t, r') := span is_num_char s in v ← read_num t; Some (v, r')
      | EmptyString => None
      end
  end
with parse_items (n : nat) (s : string) : option (list json * string) :=
  match n with
  | O => None
  | S n =>
      '(v, r) ← parse_value n s;
      match r with
      | String "," r' => '(l, r'') ← parse_items n r'; Some (v :: l, r'')
      | String "]" r' => Some ([v], r')
      | _ => None
      end
  end
with parse_fields (n : nat) (s : string) : option (list (string * json) * string) :=
  match n with
  | O => None
  | S n =>
      match s with
      | String q s' =>
          if Nat.eqb (nat_of_ascii q) 34 then
            '(k, r) ← unquote s';
            match r with
            | String ":" r' =>
                '(v, r'') ← parse_value n r';
                match r'' with
                | String "," t => '(fs, t') ← parse_fields n t; Some ((k, v) :: fs, t')
                | String "}" t => Some ([(k, v)], t)
                | _ => None
                end
            | _ => None
            end
          else None
      | EmptyString => None
      end
  end.

Definition loads (s : string) : option json :=
  match parse_value (S (String.length s)) s with
  | Some (v, EmptyString) => Some v
  | _ => None
  end.

(** Every float in [v] is the text of a finite float. *)
Definition float_text (t : string) : bool :=
  any_char is_float_char t && negb (any_char (fun c => negb (is_num_char c)) t).

Fixpoint floats_ok (v : json) : bool :=
  match v with
  | JFloat t => float_text t
  | JList l => forallb floats_ok l
  | JObj fs => forallb (fun f => floats_ok f.2) fs
  | _ => true
  end.

(** ** The round trip *)

Section JsonInd.
Context (P : json -> Prop).
Context (HNull : P JNull) (HBool : forall b, P (JBool b)) (HInt : forall z, P (JInt z)).
Context (HFloat : forall t, P (JFloat t)) (HStr : forall s, P (JStr s)).
Context (HList : forall l, Forall P l -> P (JList l)).
Context (HObj : forall fs, Forall (fun f => P f.2) fs -> P (JObj fs)).

Fixpoint json_nested_ind (v : json) : P v :=
  match v with
  | JNull => HNull
  | JBool b => HBool b
  | JInt z => HInt z
  | JFloat t => HFloat t
  | JStr s => HStr s
  | JList l =>
      HList l ((fix go l : Forall P l := match l with
                            | [] => Forall_nil_2 P
                            | v :: l => Forall_cons_2 P v l (json_nested_ind v) (go l)
                            end) l)
  | JObj fs =>
      HObj fs ((fix go l : Forall (fun f => P f.2) l := match l with
                            | [] => Forall_nil_2 _
                            | f :: l => Forall_cons_2 _ f l (json_nested_ind f.2) (go l)
                            end) fs)
  end.
End JsonInd.

Lemma string_app_cons c (s t : string) : String c s +:+ t = String c (s +:+ t).
Proof. done. Qed.

Lemma string_app_nil_l (t : string) : "" +:+ t = t.
Proof. done. Qed.

Lemma string_length_app (s t : string) :
  String.length (s +:+ t) = (String.length s + String.length t)%nat.
Proof. induction s as [|c s IH]; [done|]. cbn. by rewrite string_app_cons, <- IH. Qed.

Lemma string_app_nil_r (s : string) : s +:+ "" = s.
Proof. induction s as [|c s IH]; [done|]. by rewrite string_app_cons, IH. Qed.

Lemma string_app_assoc (r s t : string) : r +:+ (s +:+ t) = (r +:+ s) +:+ t.
Proof. induction r as [|c r IH]; [done|]. by rewrite !string_app_cons, IH. Qed.

Create Rewrite HintDb str.
#[export] Hint Rewrite string_length_app string_app_cons string_app_nil_l : str.

Lemma unquote_escape_char c rest :
  unquote (escape_char c +:+ rest) =
  unquote rest ≫= (fun '(t, r) => Some (String c t, r)).
Proof. destruct c as [[] [] [] [] [] [] [] []]; reflexivity. Qed.

Lemma unquote_escape s rest :
  unquote (escape s +:+ dquote +:+ rest) = Some (s, rest).
Proof.
  induction s as [|c s IH]; cbn [escape]; [reflexivity|].
  by rewrite <- string_app_assoc, unquote_escape_char, IH.
Qed.

(** What may follow a value: never a character of a number. *)
Definition stops (s : string) : bool :=
  match s with String c _ => negb (is_num_char c) | EmptyString => true end.

Lemma span_num t rest :
  any_char (fun c => negb (is_num_char c)) t = false -> stops rest = true ->
  span is_num_char (t +:+ rest) = (t, rest).
Proof.
  induction t as [|c t IH]; cbn [any_char]; intros Ht Hr.
  - destruct rest as [|c r]; [done|]. cbn [stops String.app] in *. rewrite string_app_nil_l. cbn [span]. by destruct (is_num_char c).
  - apply orb_false_iff in Ht as [Hc%negb_false_iff Ht].
    rewrite string_app_cons. cbn [span]. by rewrite Hc, IH.
Qed.

Lemma parse_num n c t rest :
  any_char (fun c => negb (is_num_char c)) (String c t) = false -> stops rest = true ->
  parse_value (S n) (String c t +:+ rest) = (v ← read_num (String c t); Some (v, rest)).
Proof.
  intros Ht Hr. pose proof (span_num _ _ Ht Hr) as Hs.
  cbn [any_char] in Ht. apply orb_false_iff in Ht as [Hc _].
  rewrite string_app_cons in *.
  destruct c as [[] [] [] [] [] [] [] []]; try discriminate Hc;
    cbn [parse_value]; rewrite Hs; reflexivity.
Qed.

Lemma read_dec_pretty_go x acc :
  (0 < x)%N -> read_dec 0 (pretty_N_go x acc) = read_dec x acc.
Proof.
  revert acc. induction (N.lt_wf_0 x) as [x _ IH]; intros acc Hx.
  rewrite pretty_N_go_step by done.
  assert (read_dec (x / 10) (String (pretty_N_char (x mod 10)) acc) = read_dec x acc) as E.
  { pose proof (N.mod_lt x 10 ltac:(done)) as Hm.
    pose proof (N.div_mod x 10 ltac:(done)) as Hd. revert Hm Hd.
    generalize (x mod 10)%N (x / 10)%N. intros m q Hm Hd.
    assert (m = 0 \/ m = 1 \/ m = 2 \/ m = 3 \/ m = 4 \/ m = 5 \/ m = 6 \/ m = 7 \/
            m = 8 \/ m = 9)%N as Hc by lia.
    destruct_or! Hc; subst m; cbn; f_equal; lia. }
  destruct (decide (x / 10 = 0)%N) as [H0|H0].
  - rewrite H0 in *. by rewrite pretty_N_go_0.
  - rewrite IH; [done|by apply N.div_lt|by apply N.neq_0_lt_0].
Qed.

Lemma pretty_N_go_num x acc :
  any_char (fun c => negb (is_num_char c)) acc = false ->
  any_char is_float_char acc = false ->
  any_char (fun c => negb (is_num_char c)) (pretty_N_go x acc) = false /\
  any_char is_float_char (pretty_N_go x acc) = false.
Proof.
  revert acc. induction (N.lt_wf_0 x) as [x _ IH]; intros acc H1 H2.
  destruct (decide (x = 0)%N) as [->|H0]; [by rewrite pretty_N_go_0|].
  rewrite pretty_N_go_step by lia.
  assert (forall m, is_num_char (pretty_N_char m) = true /\ is_float_char (pretty_N_char m) = false)
    as Hc by (intros m; unfold pretty_N_char; repeat case_match; done).
  apply IH; [apply N.div_lt; [by apply N.neq_0_lt_0|done]|..]; cbn [any_char];
    destruct (Hc (x mod 10)%N) as [E1 E2]; [by rewrite E1|by rewrite E2].
Qed.

Lemma pretty_pos_num p :
  let t := pretty (N.pos p) in
  read_N t = Some (N.pos p) /\ any_char (fun c => negb (is_num_char c)) t = false /\
  any_char is_float_char t = false /\ exists c t', t = String c t' /\ c <> "-"%char.
Proof.
  cbn zeta. unfold pretty, pretty_N. rewrite decide_False by done.
  pose proof (read_dec_pretty_go (N.pos p) "" ltac:(lia)) as Hr.
  destruct (pretty_N_go_num (N.pos p) "" eq_refl eq_refl) as [H1 H2].
  destruct (pretty_N_go (N.pos p) "") as [|c t]; [done|].
  split_and!; [done..|]. exists c, t. split; [done|]. intros ->. done.
Qed.

Lemma read_num_pretty z : read_num (pretty z) = Some (JInt z) /\
  any_char (fun c => negb (is_num_char c)) (pretty z) = false /\
  exists c t, pretty z = String c t.
Proof.
  destruct z as [|p|p]; [by eauto 10|..];
    destruct (pretty_pos_num p) as (H1 & H2 & H3 & c & t & E & Hc).
  - change (pretty (Z.pos p)) with (pretty (N.pos p)). rewrite E in *. unfold read_num.
    rewrite H3. split_and!; [|done|by eauto]. unfold read_Z.
    destruct c as [[] [] [] [] [] [] [] []]; try done; by rewrite H1.
  - change (pretty (Z.neg p)) with (String "-" (pretty (N.pos p))). unfold read_num.
    cbn [any_char read_Z]. rewrite H1, H2, H3. eauto.
Qed.

Lemma sort_by_map {V W} (f : V -> W) (l : list (string * V)) :
  sort_by key_leb (prod_map id f <$> l) = prod_map id f <$> sort_by key_leb l.
Proof.
  induction l as [|[k v] l IH]; cbn; [done|].
  unfold sort_by in IH. rewrite IH. clear IH.
  induction (foldr (insert_by key_leb) [] l) as [|[k' v'] l' IH]; cbn; [done|].
  unfold key_leb at 1 3. cbn. case_match; cbn; [done|]. by rewrite IH.
Qed.

(** The first character of a value is none of those that close or
    separate. *)
Definition opens (s : string) : bool :=
  match s with
  | String c _ => negb (bool_decide (c = "]"%char \/ c = "}"%char \/ c = ","%char))
  | EmptyString => false
  end.

Lemma num_opens t : any_char (fun c => negb (is_num_char c)) t = false -> t <> "" -> opens t = true.
Proof.
  destruct t as [|c t]; [done|]. cbn. intros [Hc%negb_false_iff _]%orb_false_iff _.
  apply negb_true_iff, bool_decide_eq_false. intros [->|[->| ->]]; done.
Qed.

Lemma float_text_spec t : float_text t = true ->
  any_char is_float_char t = true /\
  any_char (fun c => negb (is_num_char c)) t = false /\ exists c t', t = String c t'.
Proof.
  unfold float_text. intros [H1 H2%negb_true_iff]%andb_true_iff.
  destruct t; [done|]. eauto.
Qed.

Lemma dumps_opens v : floats_ok v = true -> opens (dumps v) = true.
Proof.
  destruct v as [|[]|z|t|s|l|fs]; cbn [floats_ok dumps]; try done; intros Hf.
  - destruct (read_num_pretty z) as (_ & H & c & t & E). by apply num_opens; [|rewrite E].
  - apply float_text_spec in Hf as (_ & H & c & t' & ->). by apply num_opens.
Qed.

Lemma opens_app s t : opens s = true -> opens (s +:+ t) = true.
Proof. by destruct s. Qed.

Lemma parse_open_list n r : opens r = true ->
  parse_value (S n) (String "[" r) = parse_items n r ≫= (fun '(l, r') => Some (JList l, r')).
Proof.
  destruct r as [|c r]; [done|]. cbn [opens]. intros H%negb_true_iff%bool_decide_eq_false.
  destruct c as [[] [] [] [] [] [] [] []]; try reflexivity. exfalso. naive_solver.
Qed.

Lemma parse_quote n s rest : parse_value (S n) (quote s +:+ rest) = Some (JStr s, rest).
Proof.
  unfold quote. rewrite <- !string_app_assoc. cbn [dquote].
  change (dquote +:+ ?x) with (String (ascii_of_nat 34) x) at 1.
  cbn -[unquote escape]. by rewrite unquote_escape.
Qed.

Definition parses (v : json) : Prop :=
  forall n rest, floats_ok v = true -> stops rest = true ->
    (String.length (dumps v) <= n)%nat ->
    parse_value n (dumps v +:+ rest) = Some (sort_keys v, rest).

Lemma parse_items_dumps l : Forall parses l -> l <> [] -> forall n rest,
  forallb floats_ok l = true -> (String.length (join "," (dumps <$> l)) < n)%nat ->
  parse_items n (join "," (dumps <$> l) +:+ "]" +:+ rest) = Some (sort_keys <$> l, rest).
Proof.
  induction 1 as [|v l Hv Hl IH]; [done|]. intros _ n rest [Hfv Hfl]%andb_true_iff Hn.
  destruct n as [|n]; [lia|]. cbn [fmap list_fmap parse_items].
  destruct l as [|w l].
  - cbn [fmap list_fmap join] in *. rewrite Hv by (done || lia). done.
  - remember (w :: l) as l' eqn:El. 
    assert (join "," (dumps v :: (dumps <$> l')) =
            dumps v +:+ "," +:+ join "," (dumps <$> l')) as E by by rewrite El.
    change (list_fmap json string dumps l') with (dumps <$> l') in *.
    cbn [fmap list_fmap] in Hn. change (list_fmap json string dumps l') with (dumps <$> l') in *.
    rewrite E in *. autorewrite with str in Hn. cbn in Hn.
    rewrite <- !string_app_assoc, Hv by (done || lia). cbn [mbind option_bind].
    rewrite string_app_cons, string_app_nil_l, IH; [done|by rewrite El|by rewrite El|lia].
Qed.

Definition field_text (f : string * json) : string := quote f.1 +:+ ":" +:+ dumps f.2.

Lemma parse_fields_dumps fs : Forall (fun f => parses f.2) fs -> fs <> [] -> forall n rest,
  forallb (fun f => floats_ok f.2) fs = true ->
  (String.length (join "," (field_text <$> fs)) < n)%nat ->
  parse_fields n (join "," (field_text <$> fs) +:+ "}" +:+ rest) =
  Some (prod_map id sort_keys <$> fs, rest).
Proof.
  induction 1 as [|[k v] l Hv Hl IH]; [done|]. intros _ n rest [Hfv Hfl]%andb_true_iff Hn.
  cbn [snd] in *.
  destruct n as [|n]; [lia|].
  assert (Hq : forall t r, (String.length (dumps v) <= n)%nat -> stops t = true ->
    (match t with
     | String "," t => '(fs, t') ← parse_fields n t; Some ((k, sort_keys v) :: fs, t')
     | String "}" t => Some ([(k, sort_keys v)], t)
     | _ => None
     end) = Some r ->
    parse_fields (S n) (quote k +:+ ":" +:+ dumps v +:+ t) = Some r).
  { intros t r Hlen Ht Hr. unfold quote. rewrite <- !string_app_assoc.
    change (dquote +:+ ?x) with (String (ascii_of_nat 34) x) at 1.
    cbn [parse_fields]. change (Nat.eqb _ 34) with true. cbn iota.
    rewrite unquote_escape. cbn [mbind option_bind].
    rewrite string_app_cons, string_app_nil_l, Hv by done. cbn [mbind option_bind].
    exact Hr. }
  destruct l as [|w l].
  - cbn [fmap list_fmap join] in *. unfold field_text in *. cbn [fst snd] in *.
    autorewrite with str in Hn. cbn in Hn. rewrite <- !string_app_assoc.
    apply Hq; [lia|done|done].
  - remember (w :: l) as l' eqn:El.
    assert (join "," (field_text <$> ((k, v) :: l')) =
            field_text (k, v) +:+ "," +:+ join "," (field_text <$> l')) as E by by rewrite El.
    rewrite E in *. unfold field_text at 1 in Hn. unfold field_text at 1. cbn [fst snd] in *.
    autorewrite with str in Hn. cbn in Hn. rewrite <- !string_app_assoc.
    apply Hq; [lia|done|]. rewrite string_app_cons, string_app_nil_l, IH; 
      [done|by rewrite El|by rewrite El|lia].
Qed.

Lemma dumps_obj fs :
  dumps (JObj fs) = "{" +:+ join "," (field_text <$> sort_by key_leb fs) +:+ "}".
Proof.
  cbn [dumps]. rewrite sort_by_map, <- list_fmap_compose. f_equal.
Qed.

Lemma parse_open_obj n r :
  parse_value (S n) (String "{" (dquote +:+ r)) =
  (parse_fields n (dquote +:+ r) ≫= fun '(fs, r') => Some (JObj fs, r')).
Proof. reflexivity. Qed.

Lemma field_text_quote fs : fs <> [] -> forall t, exists r,
  join "," (field_text <$> fs) +:+ t = dquote +:+ r.
Proof.
  destruct fs as [|f fs]; [done|]. intros _ t.
  destruct fs; cbn [fmap list_fmap join]; unfold field_text at 1, quote;
    rewrite <- !string_app_assoc; eauto.
Qed.

Lemma dumps_parses v : parses v.
Proof.
  induction v as [|b|z|t|s|l Hl|fs Hfs] using json_nested_ind;
    intros n rest Hf Hr Hn; [..|rewrite dumps_obj in *]; cbn [dumps sort_keys floats_ok] in *.
  - destruct n; [cbn in *; lia|done].
  - destruct b, n; (cbn in *; lia) || done.
  - destruct (read_num_pretty z) as (H1 & H2 & c & t & E). rewrite E in *.
    destruct n; [cbn [String.length] in Hn; lia|]. rewrite parse_num by done. by rewrite H1.
  - apply float_text_spec in Hf as (H1 & H2 & c & t' & ->).
    destruct n; [cbn [String.length] in Hn; lia|]. rewrite parse_num by done. unfold read_num. by rewrite H1.
  - destruct n; [unfold quote, dquote in Hn; autorewrite with str in Hn; cbn in Hn; lia|]. apply parse_quote.
  - autorewrite with str in Hn; cbn [String.length] in Hn; autorewrite with str in Hn; cbn [String.length] in Hn.
    destruct n as [|n]; [lia|]. rewrite !string_app_cons, string_app_nil_l.
    destruct l as [|w l]; [done|]. rewrite <- string_app_assoc, parse_open_list.
    + rewrite parse_items_dumps; [done|done|done|done|]. match goal with |- (?x < _)%nat => change (S (x + 1) <= S n)%nat in Hn; lia end.
    + apply opens_app. apply andb_true_iff in Hf as [Hw _].
      destruct l; cbn [fmap list_fmap join]; [by apply dumps_opens|].
      by apply opens_app, dumps_opens.
  - rewrite sort_by_map. autorewrite with str in Hn; cbn [String.length] in Hn; autorewrite with str in Hn; cbn [String.length] in Hn.
    destruct n as [|n]; [lia|]. rewrite !string_app_cons, string_app_nil_l.
    destruct (decide (fs = [])) as [->|Hne]; [done|].
    assert (sort_by key_leb fs <> []) as Hne' by by rewrite sort_by_nil_inv.
    rewrite <- string_app_assoc.
    destruct (field_text_quote _ Hne' ("}" +:+ rest)) as [r E].
    rewrite E, parse_open_obj, <- E, parse_fields_dumps; [done|..|lia].
    + by rewrite sort_by_perm.
    + done.
    + apply Is_true_true, forallb_True. rewrite sort_by_perm. by apply forallb_True, Is_true_true.
Qed.

(** Encoding then decoding gives the value back, its objects' fields in
    sorted order. *)
Lemma loads_dumps v : floats_ok v = true -> loads (dumps v) = Some (sort_keys v).
Proof.
  intros Hf. unfold loads. rewrite <- (string_app_nil_r (dumps v)) at 2.
  rewrite dumps_parses; [done|done|done|lia].
Qed.

(** Two values with the same canonical text differ in field order only. *)
Lemma dumps_inj v w : floats_ok v = true -> floats_ok w = true ->
  dumps v = dumps w -> sort_keys v = sort_keys w.
Proof.
  intros Hv Hw E. apply loads_dumps in Hv, Hw. rewrite E in Hv. congruence.
Qed.
