(* ===== verification/Float64.v ===== *)
(** * Floats

    Python's [float] as the binary64 numbers of [SpecFloat]: the operations
    round to nearest, ties to even, and are computed on the integers of the
    mantissas. Here are the ones the program uses: [float(text)], conversions
    from and to [int], the comparisons, the four operations, [//] and
    [round]. *)

From Stdlib Require Import Ascii.
From Stdlib Require Export SpecFloat.
From S2P Require Import Prelude.

Abbreviation float64 := spec_float.

Inductive float_error := FloatValueError | FloatOverflowError | FloatZeroDivisionError.

#[export] Instance float64_eq_dec : EqDecision float64.
Proof. solve_decision. Defined.

(** ** Arithmetic *)

Definition prec64 : Z := 53.
Definition emax64 : Z := 1024.

Definition float_add : float64 -> float64 -> float64 := SFadd prec64 emax64.
Definition float_sub : float64 -> float64 -> float64 := SFsub prec64 emax64.
Definition float_mul : float64 -> float64 -> float64 := SFmul prec64 emax64.

(** [x < y], [x <= y], [x == y]: false when one is not a number. *)
Definition float_ltb : float64 -> float64 -> bool := SFltb.
Definition float_leb : float64 -> float64 -> bool := SFleb.
Definition float_eqb : float64 -> float64 -> bool := SFeqb.

Definition float_zero : float64 := S754_zero false.

(** [x / y] raises for a zero. *)
Definition float_div (x y : float64) : result float_error float64 :=
  match y with S754_zero _ => Raise FloatZeroDivisionError | _ => Ok (SFdiv prec64 emax64 x y) end.

(** An [int] before it is rounded. *)
Definition exact_int (n : Z) : float64 :=
  match n with Z0 => S754_zero false | Zpos m => S754_finite false m 0 | Zneg m => S754_finite true m 0 end.

(** [a / b] of two [int]s: the quotient rounded once, however large they
    are; only a result that is too large overflows. *)
Definition int_truediv (a b : Z) : result float_error float64 :=
  if b =? 0 then Raise FloatZeroDivisionError
  else match SFdiv prec64 emax64 (exact_int a) (exact_int b) with S754_infinity _ => Raise FloatOverflowError | x => Ok x end.

(** [m * 2 ^ e] rounded; a zero with the sign [neg]. *)
Definition float_of (m e : Z) (neg : bool) : float64 := binary_normalize prec64 emax64 m e neg.

(** [float(n)] of an [int], also where one meets a float. *)
Definition float_of_int (n : Z) : result float_error float64 :=
  match float_of n 0 false with S754_infinity _ => Raise FloatOverflowError | x => Ok x end.

Definition signed (neg : bool) (n : Z) : Z := if neg then - n else n.

(** The integer below, and the one towards zero. *)
Definition floor_of (neg : bool) (m : positive) (e : Z) : Z :=
  if 0 <=? e then signed neg (Z.pos m) * 2 ^ e else signed neg (Z.pos m) / 2 ^ (- e).
Definition trunc_of (neg : bool) (m : positive) (e : Z) : Z :=
  if 0 <=? e then signed neg (Z.pos m) * 2 ^ e else signed neg (Z.pos m / 2 ^ (- e)).

(** [int(x)]. *)
Definition int_of_float (x : float64) : result float_error Z :=
  match x with
  | S754_zero _ => Ok 0
  | S754_infinity _ => Raise FloatOverflowError
  | S754_nan => Raise FloatValueError
  | S754_finite s m e => Ok (trunc_of s m e)
  end.

(** [m * 2 ^ e] to the nearest integer, ties to even. *)
Definition nearest_even (m e : Z) : Z :=
  if 0 <=? e then m * 2 ^ e
  else
    let q := m / 2 ^ (- e) in
    let twice := 2 * (m mod 2 ^ (- e)) in
    if (2 ^ (- e) <? twice) || ((2 ^ (- e) =? twice) && Z.odd q) then q + 1 else q.

(** [round(x)]: ties to even. *)
Definition round_of_float (x : float64) : result float_error Z :=
  match x with
  | S754_zero _ => Ok 0
  | S754_infinity _ => Raise FloatOverflowError
  | S754_nan => Raise FloatValueError
  | S754_finite s m e => Ok (signed s (nearest_even (Z.pos m) e))
  end.

(** C's [fmod]: exact, with the sign of [x]. *)
Definition float_fmod (x y : float64) : float64 :=
  match x, y with
  | S754_nan, _ | _, S754_nan | S754_infinity _, _ | _, S754_zero _ => S754_nan
  | S754_zero s, _ => S754_zero s
  | x, S754_infinity _ => x
  | S754_finite s m e, S754_finite _ n f =>
      let low := Z.min e f in
      float_of (signed s ((Z.pos m * 2 ^ (e - low)) mod (Z.pos n * 2 ^ (f - low)))) low s
  end.

Definition float_is_neg (x : float64) : bool := float_ltb x float_zero.
Definition float_is_zero (x : float64) : bool := float_eqb x float_zero.
Definition float_one : float64 := float_of 1 0 false.
Definition float_half : float64 := float_of 1 (-1) false.

Definition sign_of (x : float64) : bool :=
  match x with S754_zero s | S754_infinity s | S754_finite s _ _ => s | S754_nan => false end.

Definition float_floor (x : float64) : float64 :=
  match x with S754_finite s m e => float_of (floor_of s m e) 0 s | _ => x end.

(** [x // y], as CPython computes it: from the remainder. *)
Definition float_floordiv (x y : float64) : result float_error float64 :=
  match y with
  | S754_zero _ => Raise FloatZeroDivisionError
  | _ =>
      let m := float_fmod x y in
      let div := SFdiv prec64 emax64 (float_sub x m) y in
      let div := if float_is_zero m then div
                 else if Bool.eqb (float_is_neg y) (float_is_neg m) then div else float_sub div float_one in
      if float_is_zero div then Ok (S754_zero (sign_of (SFdiv prec64 emax64 x y)))
      else
        let below := float_floor div in
        Ok (if float_ltb float_half (float_sub div below) then float_add below float_one else below)
  end.

(** ** [float(text)] *)

Definition decimal_digit (c : ascii) : option Z :=
  let n := Z.of_N (N_of_ascii c) in if (48 <=? n) && (n <=? 57) then Some (n - 48) else None.

Definition starts_with_digit (s : string) : bool :=
  match s with String c _ => bool_decide (is_Some (decimal_digit c)) | EmptyString => false end.

(** The digits at the head of the text, one underscore allowed between two:
    the number they make with [acc] before them, how many, what follows. *)
Fixpoint scan_digits (acc : Z) (n : nat) (s : string) : Z * nat * string :=
  match s with
  | EmptyString => (acc, n, s)
  | String c r =>
      match decimal_digit c with
      | Some d => scan_digits (10 * acc + d) (S n) r
      | None => if bool_decide (c = "_"%char) && (0 <? Z.of_nat n) && starts_with_digit r then scan_digits acc n r
                else (acc, n, s)
      end
  end.

(** A sign at the head. *)
Definition scan_sign (s : string) : bool * string :=
  match s with String "-" r => (true, r) | String "+" r => (false, r) | _ => (false, s) end.

(** The exponent; [None] for other text. *)
Definition scan_exponent (s : string) : option Z :=
  match s with
  | EmptyString => Some 0
  | String c r =>
      if bool_decide (lower (String c "") = "e") then
        let '(neg, r) := scan_sign r in
        match scan_digits 0 0 r with
        | (k, S _, EmptyString) => Some (signed neg k)
        | _ => None
        end
      else None
  end.

(** [m * 10 ^ k] rounded. *)
Definition decimal_float (neg : bool) (m k : Z) : float64 :=
  match m with
  | Z.pos p =>
      if 0 <=? k then float_of (signed neg (m * 10 ^ k)) 0 neg
      else SFdiv prec64 emax64 (S754_finite neg p 0) (S754_finite false (Z.to_pos (10 ^ (- k))) 0)
  | _ => S754_zero neg
  end.

(** [round(x, n)]: the decimal of [n] places nearest to [x], and the float
    nearest to it. *)
Definition float_round_to (n : Z) (x : float64) : float64 :=
  match x with S754_finite s m e => decimal_float s (nearest_even (Z.pos m * 10 ^ n) e) (- n) | _ => x end.

Definition py_float (text : string) : option float64 :=
  let '(neg, s) := scan_sign (strip text) in
  let word := lower s in
  if bool_decide (word ∈ ["inf"; "infinity"]) then Some (S754_infinity neg)
  else if bool_decide (word = "nan") then Some S754_nan
  else
    let '(whole, n, r) := scan_digits 0 0 s in
    let '(m, n', r) :=
      match r with
      | String "." r =>
          if starts_with_digit r then scan_digits whole 0 r else (whole, 0%nat, r)
      | _ => (whole, 0%nat, r)
      end in
    if bool_decide ((n + n')%nat = 0%nat) then None
    else k ← scan_exponent r; Some (decimal_float neg m (k - Z.of_nat n')).

Example py_float_tenth : py_float " 0.1 " = Some (S754_finite false 7205759403792794 (-56)).
Proof. vm_compute. reflexivity. Qed.
Example py_float_words : py_float "-Infinity" = Some (S754_infinity true) /\ py_float "nan" = Some S754_nan.
Proof. vm_compute. by split. Qed.
Example py_float_forms :
  py_float "1_0.5e-1" = py_float "1.05" /\ py_float ".5" = Some float_half /\ py_float "1." = Some float_one /\
  py_float "1e400" = Some (S754_infinity false) /\ py_float "1_.5" = None /\ py_float "." = None /\ py_float "1e" = None /\
  py_float "1._5" = None /\ py_float "" = None.
Proof. vm_compute. repeat split. Qed.

(** 0.7 // 0.1, whose quotient is just below 7. *)
Example floordiv_tenths :
  match py_float "0.7", py_float "0.1" with Some x, Some y => float_floordiv x y | _, _ => Ok float_zero end = Ok (float_of 6 0 false).
Proof. vm_compute. reflexivity. Qed.
Example floordiv_negative : float_floordiv (float_of (-7) 0 false) (float_of 2 0 false) = Ok (float_of (-4) 0 false).
Proof. vm_compute. reflexivity. Qed.
Example round_half_even : round_of_float (float_of 5 (-1) false) = Ok 2 /\ round_of_float (float_of 7 (-1) false) = Ok 4.
Proof. vm_compute. by split. Qed.

Example round_places : (float_round_to 6 <$> py_float "0.1234565") = py_float "0.123456" /\ (float_round_to 6 <$> py_float "-2.5e-7") = Some (S754_zero true) /\ (float_round_to 3 <$> py_float "2.0005") = py_float "2.001".
Proof. vm_compute. done. Qed.

(** ** What is not a number *)

(** No comparison with it holds. *)
Lemma nan_incomparable x : float_ltb S754_nan x = false /\ float_ltb x S754_nan = false /\
  float_leb S754_nan x = false /\ float_leb x S754_nan = false /\ float_eqb S754_nan x = false.
Proof. by destruct x. Qed.

(** It absorbs. *)
Lemma nan_add x : float_add S754_nan x = S754_nan /\ float_add x S754_nan = S754_nan.
Proof. by destruct x. Qed.
Lemma nan_sub x : float_sub S754_nan x = S754_nan /\ float_sub x S754_nan = S754_nan.
Proof. by destruct x. Qed.

(** ** The quotient of two integers is finite *)

Lemma digits2_below p : Z.pos p < 2 ^ Z.pos (digits2_pos p).
Proof. induction p; cbn [digits2_pos]; rewrite ?Pos2Z.inj_succ, ?Z.pow_succ_r by lia; lia. Qed.

Lemma digits2_above p : 2 ^ (Z.pos (digits2_pos p) - 1) <= Z.pos p.
Proof.
  induction p; cbn [digits2_pos]; [..|done]; rewrite Pos2Z.inj_succ;
    replace (Z.succ (Z.pos (digits2_pos p)) - 1) with (Z.succ (Z.pos (digits2_pos p) - 1)) by lia; rewrite Z.pow_succ_r by lia; lia.
Qed.

Lemma digits2_le m k : 0 <= m < 2 ^ k -> 0 <= k -> Zdigits2 m <= k.
Proof.
  intros Hm Hk. destruct m as [|p|p]; cbn; [lia| |lia]. destruct (Z.le_gt_cases (Z.pos (digits2_pos p)) k) as [|Hlt]; [done|].
  pose proof (digits2_above p). pose proof (Z.pow_le_mono_r 2 k (Z.pos (digits2_pos p) - 1)). lia.
Qed.

Lemma digits2_exact m k : 2 ^ (k - 1) <= m -> m < 2 ^ k -> 0 < k -> Zdigits2 m = k.
Proof.
  intros Hl Hu Hk. assert (0 < 2 ^ (k - 1)) by (apply Z.pow_pos_nonneg; lia). pose proof (digits2_le m k ltac:(lia) ltac:(lia)).
  destruct m as [|p|p]; [lia| |lia]. pose proof (digits2_below p) as Hb. cbn in *.
  destruct (Z.le_gt_cases (Z.pos (digits2_pos p)) (k - 1)) as [Hle|]; [|lia]. pose proof (Z.pow_le_mono_r 2 _ (k - 1) ltac:(lia) Hle). lia.
Qed.

Lemma shr_1_half r : 0 <= shr_m r -> shr_m (shr_1 r) = shr_m r / 2.
Proof.
  destruct r as [m r s]. cbn. intros Hm. destruct m as [|[p|p|]|p]; cbn; try done; [|].
  - rewrite <- Z.div2_div. done.
  - rewrite <- Z.div2_div. done.
Qed.

Lemma div_pow_pow m i j : 0 <= i -> 0 <= j -> m / 2 ^ i / 2 ^ j = m / 2 ^ (i + j).
Proof. intros Hi Hj. rewrite Z.div_div, <- Z.pow_add_r by lia. done. Qed.

Lemma iter_shr_1 n : forall r, 0 <= shr_m r -> shr_m (SpecFloat.iter_pos shr_1 n r) = shr_m r / 2 ^ Z.pos n.
Proof.
  assert (forall m k, 0 <= m -> 0 <= m / 2 ^ Z.pos k) as Hpos by (intros m k Hm; apply Z.div_pos; lia).
  induction n as [n IH|n IH|]; intros r Hr; cbn [SpecFloat.iter_pos]; [| |by apply shr_1_half].
  - pose proof (shr_1_half r Hr) as H1. assert (0 <= shr_m (shr_1 r)) as H2 by (rewrite H1; apply Z.div_pos; lia).
    rewrite IH by (rewrite IH by done; by apply Hpos). rewrite IH, H1 by done. replace (shr_m r / 2) with (shr_m r / 2 ^ 1) by done.
    rewrite !div_pow_pow by lia. f_equal. f_equal. lia.
  - rewrite IH by (rewrite IH by done; by apply Hpos). rewrite IH, div_pow_pow by (done || lia). f_equal. f_equal. lia.
Qed.

(** The mantissa after [shr_fexp] has at most 53 digits if it had any to
    lose, and its value does not grow. *)
Lemma shr_fexp_bound m e l k r e' : 0 <= m < 2 ^ k -> 0 <= k -> shr_fexp prec64 emax64 m e l = (r, e') ->
  e' <= Z.max e (Z.max (k + e - 53) (-1074)) /\ 0 <= shr_m r < 2 ^ (Z.max 0 (k + e - e')) /\ e <= e'.
Proof.
  intros Hm Hk. unfold shr_fexp, shr. pose proof (digits2_le m k Hm Hk) as Hd.
  assert (shr_m (shr_record_of_loc m l) = m) as Hr by (by destruct l as [|[]]).
  unfold fexp, emin, prec64, emax64. destruct (Z.max _ _ - e) as [|n|n] eqn:En; intros [= <- <-].
  - rewrite Hr. split; [lia|]. split; [|lia]. by replace (Z.max 0 (k + e - e)) with k by lia.
  - rewrite iter_shr_1, Hr by (rewrite Hr; lia). split; [lia|]. split; [|lia]. split; [apply Z.div_pos; lia|].
    apply Z.div_lt_upper_bound; [lia|]. rewrite <- Z.pow_add_r by lia. pose proof (Z.pow_le_mono_r 2 k (Z.pos n + Z.max 0 (k + e - (e + Z.pos n)))). lia.
  - rewrite Hr. split; [lia|]. split; [|lia]. by replace (Z.max 0 (k + e - e)) with k by lia.
Qed.

Lemma round_nearest_even_bound m l : m <= round_nearest_even m l <= m + 1.
Proof. unfold round_nearest_even. destruct l as [|[]]; [lia|destruct (Z.even m); lia|lia|lia]. Qed.

(** A magnitude below [2 ^ 970] is rounded to a finite number. *)
Lemma round_aux_finite m e l k : 0 <= m < 2 ^ k -> 0 <= k -> e <= 0 -> k + e <= 970 ->
  let x := binary_round_aux prec64 emax64 false m e l in x = S754_zero false \/ exists n f, x = S754_finite false n f.
Proof.
  intros Hm Hk He Hke. unfold binary_round_aux. destruct (shr_fexp _ _ m e l) as [r1 e1] eqn:E1.
  destruct (shr_fexp_bound _ _ _ _ _ _ Hm Hk E1) as (H1 & H2 & H3). set (k1 := Z.max 0 (k + e - e1)) in *.
  pose proof (round_nearest_even_bound (shr_m r1) (loc_of_shr_record r1)) as Hn. set (m1 := round_nearest_even _ _) in *.
  destruct (shr_fexp _ _ m1 e1 _) as [r2 e2] eqn:E2.
  assert (0 <= m1 < 2 ^ (k1 + 1)) as Hm1 by (rewrite Z.pow_add_r by lia; lia).
  destruct (shr_fexp_bound _ _ _ _ _ _ Hm1 ltac:(lia) E2) as (H4 & H5 & H6). cbn zeta. unfold emax64, prec64.
  destruct (shr_m r2) as [|n|n] eqn:En; [by left| |lia]. right. rewrite (proj2 (Z.leb_le _ _)) by lia. eauto.
Qed.

Lemma int_truediv_ok a b : 0 <= a < 2 ^ 900 -> 1 <= b ->
  exists x, int_truediv a b = Ok x /\ (x = S754_zero false \/ exists m e, x = S754_finite false m e).
Proof.
  intros Ha Hb. unfold int_truediv. rewrite (proj2 (Z.eqb_neq b 0)) by lia.
  destruct a as [|p|p]; [destruct b as [|q|q]; try lia; cbn; eauto| |lia]. destruct b as [|q|q]; try lia. cbn [exact_int SFdiv].
  unfold SFdiv_core_binary. set (e := Z.min _ _). assert (e <= 0) as He by lia.
  set (m' := match 0 - 0 - e with Z0 => Z.pos p | Zpos _ => Z.shiftl (Z.pos p) (0 - 0 - e) | Zneg _ => 0 end).
  assert (m' = Z.pos p * 2 ^ (- e)) as Hm'.
  { unfold m'. destruct (0 - 0 - e) as [|s|s] eqn:Es; [replace (- e) with 0 by lia; lia| |lia].
    rewrite Z.shiftl_mul_pow2 by lia. do 2 f_equal. lia. }
  assert (0 < 2 ^ (- e)) as Hp by lia. assert (0 <= m' < 2 ^ (900 - e)) as Hb'.
  { rewrite Hm'. replace (900 - e) with (900 + - e) by lia. rewrite Z.pow_add_r by lia. nia. }
  destruct (Z.div_eucl m' (Z.pos q)) as [mz r] eqn:Eq.
  assert (mz = m' / Z.pos q) as -> by (unfold Z.div; by rewrite Eq).
  assert (0 <= m' / Z.pos q <= m') as Hq 
    by (split; [apply Z.div_pos; lia|apply Z.div_le_upper_bound; [lia|]; rewrite <- (Z.mul_1_l m') at 1; apply Z.mul_le_mono_nonneg_r; lia]).
  change (xorb false false) with false.
  destruct (round_aux_finite (m' / Z.pos q) e (new_location (Z.pos q) r) (900 - e)) as [-> |(n & f & ->)]; [lia|lia|lia|lia|eauto|eauto 6].
Qed.

(** A small integer is a float, and not zero. *)
Lemma float_of_int_small n : 0 < n < 2 ^ 53 -> exists m e, float_of_int n = Ok (S754_finite false m e).
Proof.
  intros Hn. destruct n as [|p|p]; try lia. unfold float_of_int, float_of. cbn [binary_normalize]. unfold binary_round.
  assert (1 <= Z.pos (digits2_pos p) <= 53) as Hd by (pose proof (digits2_le (Z.pos p) 53 ltac:(lia) ltac:(lia)); cbn in *; lia).
  pose proof (digits2_below p) as Hb. pose proof (digits2_above p) as Ha. set (d := Z.pos (digits2_pos p)) in *.
  assert (fexp prec64 emax64 (d + 0) = d - 53) as -> by (unfold fexp, emin, prec64, emax64; lia).
  assert (exists q, shl_align p 0 (d - 53) = (q, d - 53) /\ 2 ^ 52 <= Z.pos q < 2 ^ 53) as (q & -> & Hq).
  { unfold shl_align. destruct (d - 53 - 0) as [|z|z] eqn:E; [| |].
    - exists p. split; [f_equal; lia|]. assert (d = 53) as E' by lia. rewrite E' in *. lia.
    - lia.
    - exists (shift_pos z p). split; [done|]. rewrite shift_pos_correct, Z.pow_pos_fold. replace (Z.pos z) with (53 - d) by lia.
      assert (2 ^ 53 = 2 ^ (53 - d) * 2 ^ d) as -> by (rewrite <- Z.pow_add_r by lia; f_equal; lia).
      assert (2 ^ 52 = 2 ^ (53 - d) * 2 ^ (d - 1)) as -> by (rewrite <- Z.pow_add_r by lia; f_equal; lia). nia. }
  pose proof (digits2_exact (Z.pos q) 53 ltac:(lia) ltac:(lia) ltac:(lia)) as Hdq.
  assert (Hnone : forall l, shr_fexp prec64 emax64 (Z.pos q) (d - 53) l = (shr_record_of_loc (Z.pos q) l, d - 53)).
  { intros l. unfold shr_fexp, shr. rewrite Hdq. replace (fexp prec64 emax64 (53 + (d - 53)) - (d - 53)) with 0; [done|].
    unfold fexp, emin, prec64, emax64. lia. }
  unfold binary_round_aux. rewrite Hnone. cbv beta iota.
  change (round_nearest_even _ _) with (Z.pos q). rewrite Hnone. cbn [shr_record_of_loc shr_m].
  rewrite (proj2 (Z.leb_le _ _)) by (unfold emax64, prec64; lia). eauto.
Qed.
