(* ===== verification/Digest.v ===== *)
(** * Digests and name-based identifiers

    [hashlib.sha256(...).hexdigest()] and [uuid.uuid5], the two primitives
    of the standard library that src/app/services/identity.py builds every
    identifier on. [Hashing] is the interface the rest of the development
    is proved against; [sha2_hashing] is the executable instance (SHA-256,
    and SHA-1 truncated to a version-5 UUID), checked on the published test
    vectors. Byte strings are [string]s: a character is a byte. *)

From Stdlib Require Import Ascii.
From S2P Require Import Prelude.

(** What identifiers need of the two primitives. Neither is injective, so
    the theorems about identifiers say "or the primitive collides". *)
Class Hashing := {
  sha256_hex : string -> string;
  uuid5 : string -> string -> string;
}.

(** Two distinct inputs with the same digest. *)
Definition sha256_collision `{Hashing} : Prop :=
  exists s t, s <> t /\ sha256_hex s = sha256_hex t.

Definition uuid5_collision `{Hashing} (namespace : string) : Prop :=
  exists s t, s <> t /\ uuid5 namespace s = uuid5 namespace t.

Lemma sha256_hex_eq `{Hashing} s t :
  sha256_hex s = sha256_hex t -> s = t \/ sha256_collision.
Proof. intros E. destruct (decide (s = t)); [by left|right; by exists s, t]. Qed.

Lemma uuid5_eq `{Hashing} ns s t :
  uuid5 ns s = uuid5 ns t -> s = t \/ uuid5_collision ns.
Proof. intros E. destruct (decide (s = t)); [by left|right; by exists s, t]. Qed.

(** ** 32-bit words and bytes *)

Module Word32.
Local Open Scope N_scope.

Definition wrap (x : N) : N := N.land x 0xffffffff.
Definition add (x y : N) : N := wrap (x + y).
Definition rotr (n x : N) : N :=
  N.lor (N.shiftr x n) (wrap (N.shiftl x (32 - n))).
Definition rotl (n x : N) : N := rotr (32 - n) x.
Definition not (x : N) : N := N.lxor x 0xffffffff.

Fixpoint bytes_of (s : string) : list N :=
  match s with
  | EmptyString => []
  | String c s' => N_of_ascii c :: bytes_of s'
  end.

(** Big-endian bytes of [x], [n] of them. *)
Fixpoint be (n : nat) (x : N) : list N :=
  match n with O => [] | S n => be n (x / 256) ++ [x mod 256] end.

Definition of_be (l : list N) : N := foldl (fun a b => 256 * a + b) 0 l.

Fixpoint words (fuel : nat) (l : list N) : list N :=
  match fuel, l with
  | S fuel, _ :: _ => of_be (take 4 l) :: words fuel (drop 4 l)
  | _, _ => []
  end.

(** Padding to a multiple of 64 bytes: 0x80, zeros, the bit length. *)
Definition pad (l : list N) : list N :=
  let len := length l in
  let zeros := ((119 - len mod 64) mod 64)%nat in
  l ++ [0x80] ++ replicate zeros 0 ++ be 8 (8 * N.of_nat len).

Fixpoint blocks (fuel : nat) (l : list N) : list (list N) :=
  match fuel, l with
  | S fuel, _ :: _ => words 16 (take 64 l) :: blocks fuel (drop 64 l)
  | _, _ => []
  end.

Definition hex_digit (n : N) : ascii :=
  ascii_of_N (if n <? 10 then 48 + n else 87 + n).

Fixpoint hex (l : list N) : string :=
  match l with
  | [] => ""
  | b :: l => String (hex_digit (b / 16)) (String (hex_digit (b mod 16)) (hex l))
  end.
End Word32.

Module Sha256.
Import Word32.
Local Open Scope N_scope.

(** The constants are the first 32 fractional bits of the cube roots of the
    first 64 primes and, for the initial state, of the square roots of the
    first eight. *)
Definition primes : list N := [
  2; 3; 5; 7; 11; 13; 17; 19; 23; 29; 31; 37; 41; 43; 47; 53; 59; 61; 67; 71; 73;
  79; 83; 89; 97; 101; 103; 107; 109; 113; 127; 131; 137; 139; 149; 151; 157; 163;
  167; 173; 179; 181; 191; 193; 197; 199; 211; 223; 227; 229; 233; 239; 241; 251;
  257; 263; 269; 271; 277; 281; 283; 293; 307; 311].

(** The integer cube root of [x], its bits [n-1 .. 0] chosen from the top. *)
Fixpoint cube_root (n : nat) (r x : N) : N :=
  match n with
  | O => r
  | S n =>
      let r' := r + N.shiftl 1 (N.of_nat n) in
      cube_root n (if r' * r' * r' <=? x then r' else r) x
  end.

Definition k : list N :=
  Eval vm_compute in (fun p => wrap (cube_root 36 0 (N.shiftl p 96))) <$> primes.

Definition init : list N :=
  Eval vm_compute in (fun p => wrap (N.sqrt (N.shiftl p 64))) <$> take 8 primes.

Definition nth_word (i : nat) (l : list N) : N := default 0 (l !! i).

(** The message schedule, newest word first. *)
Fixpoint extend (n : nat) (w : list N) : list N :=
  match n with
  | O => w
  | S n =>
      let x := nth_word 1 w in let y := nth_word 14 w in
      let s1 := N.lxor (N.lxor (rotr 17 x) (rotr 19 x)) (N.shiftr x 10) in
      let s0 := N.lxor (N.lxor (rotr 7 y) (rotr 18 y)) (N.shiftr y 3) in
      extend n (add (add s1 (nth_word 6 w)) (add s0 (nth_word 15 w)) :: w)
  end.

Definition round (st : list N) (kw : N * N) : list N :=
  match st with
  | [a; b; c; d; e; f; g; h] =>
      let s1 := N.lxor (N.lxor (rotr 6 e) (rotr 11 e)) (rotr 25 e) in
      let ch := N.lxor (N.land e f) (N.land (not e) g) in
      let t1 := add (add h s1) (add ch (add kw.1 kw.2)) in
      let s0 := N.lxor (N.lxor (rotr 2 a) (rotr 13 a)) (rotr 22 a) in
      let maj := N.lxor (N.lxor (N.land a b) (N.land a c)) (N.land b c) in
      [add t1 (add s0 maj); a; b; c; add d t1; e; f; g]
  | _ => st
  end.

Definition compress (st block : list N) : list N :=
  let w := reverse (extend 48 (reverse block)) in
  zip_with add st (foldl round st (zip k w)).

Definition digest (s : string) : list N :=
  let l := pad (bytes_of s) in
  flat_map (be 4) (foldl compress init (blocks (length l) l)).
End Sha256.

Module Sha1.
Import Word32.
Local Open Scope N_scope.

Definition init : list N := [0x67452301; 0xefcdab89; 0x98badcfe; 0x10325476; 0xc3d2e1f0].

Fixpoint extend (n : nat) (w : list N) : list N :=
  match n with
  | O => w
  | S n =>
      let nth i := default 0 (w !! i) in
      extend n (rotl 1 (N.lxor (N.lxor (nth 2%nat) (nth 7%nat))
                               (N.lxor (nth 13%nat) (nth 15%nat))) :: w)
  end.

Definition round (st : nat * list N) (w : N) : nat * list N :=
  match st.2 with
  | [a; b; c; d; e] =>
      let '(f, k) :=
        if Nat.ltb st.1 20 then (N.lor (N.land b c) (N.land (not b) d), 0x5a827999)
        else if Nat.ltb st.1 40 then (N.lxor (N.lxor b c) d, 0x6ed9eba1)
        else if Nat.ltb st.1 60
        then (N.lor (N.lor (N.land b c) (N.land b d)) (N.land c d), 0x8f1bbcdc)
        else (N.lxor (N.lxor b c) d, 0xca62c1d6) in
      (S st.1, [add (add (rotl 5 a) f) (add e (add k w)); a; rotl 30 b; c; d])
  | _ => st
  end.

Definition compress (st block : list N) : list N :=
  zip_with add st (foldl round (O, st) (reverse (extend 64 (reverse block)))).2.

Definition digest (l : list N) : list N :=
  let l := pad l in flat_map (be 4) (foldl compress init (blocks (length l) l)).
End Sha1.

(** ** Version-5 UUIDs *)

Module Uuid.
Import Word32.
Local Open Scope N_scope.

Definition hex_value (c : ascii) : option N :=
  let n := N_of_ascii c in
  if (48 <=? n) && (n <=? 57) then Some (n - 48)
  else if (97 <=? n) && (n <=? 102) then Some (n - 87) else None.

(** The sixteen bytes of a UUID's text; dashes are skipped. *)
Fixpoint bytes (s : string) : list N :=
  match s with
  | String "-" s' => bytes s'
  | String a (String b s') =>
      match hex_value a, hex_value b with
      | Some x, Some y => (16 * x + y) :: bytes s'
      | _, _ => []
      end
  | _ => []
  end.

Definition text (l : list N) : string :=
  join "-" [hex (take 4 l); hex (take 2 (drop 4 l)); hex (take 2 (drop 6 l));
            hex (take 2 (drop 8 l)); hex (drop 10 l)].

(** [uuid5(namespace, name)]: SHA-1 of the namespace's bytes and the
    name, its first sixteen bytes with the version and variant set. *)
Definition v5 (namespace name : string) : string :=
  let h := take 16 (Sha1.digest (bytes namespace ++ bytes_of name)) in
  text (alter (fun b => N.lor (N.land b 0x3f) 0x80) 8%nat
         (alter (fun b => N.lor (N.land b 0x0f) 0x50) 6%nat h)).
End Uuid.

#[export] Instance sha2_hashing : Hashing := {
  sha256_hex s := Word32.hex (Sha256.digest s);
  uuid5 := Uuid.v5;
}.

(** [uuid.NAMESPACE_URL]. *)
Definition NAMESPACE_URL : string := "6ba7b811-9dad-11d1-80b4-00c04fd430c8".

(** ** Hexadecimal digests

    The one further property of a digest's text the program relies on when
    it passes it through a normalising [strip]. *)
Class HexDigest `{Hashing} : Prop :=
  hex_digest_ok : forall s, sha256_hex s <> "" /\ strip (sha256_hex s) = sha256_hex s.

Lemma hex_digit_not_space n : (n < 16)%N -> is_py_space (Word32.hex_digit n) = false.
Proof.
  intros Hn. apply negb_true_iff. by apply (N_below (fun n => negb (is_py_space (Word32.hex_digit n))) 16).
Qed.

Lemma hex_not_space l :
  Forall (fun b => (b < 256)%N) l -> any_char is_py_space (Word32.hex l) = false.
Proof.
  induction 1 as [|b l Hb Hl IH]; cbn; [done|].
  rewrite !hex_digit_not_space; [done|by apply N.mod_lt|].
  apply N.Div0.div_lt_upper_bound. lia.
Qed.

Lemma be_bytes n x : Forall (fun b => (b < 256)%N) (Word32.be n x).
Proof.
  revert x. induction n as [|n IH]; intros x; cbn; [constructor|].
  apply Forall_app. split; [apply IH|]. constructor; [by apply N.mod_lt|constructor].
Qed.

Lemma sha256_round_length st kw : length (Sha256.round st kw) = length st.
Proof. unfold Sha256.round. by repeat case_match. Qed.

Lemma sha256_compress_length st block : length (Sha256.compress st block) = length st.
Proof.
  unfold Sha256.compress. rewrite length_zip_with.
  assert (forall l st', length (foldl Sha256.round st' l) = length st') as ->; [|lia].
  intros l. induction l as [|x l IH]; intros st'; [done|]. cbn. by rewrite IH, sha256_round_length.
Qed.

#[export] Instance sha2_hex_digest : HexDigest (H := sha2_hashing).
Proof.
  intros s. cbn. unfold Sha256.digest. set (bs := Word32.blocks _ _).
  assert (length (foldl Sha256.compress Sha256.init bs) = 8%nat) as Hlen.
  { clearbody bs. assert (forall st, length (foldl Sha256.compress st bs) = length st) as ->; [|done].
    induction bs as [|b bs IH]; intros st; [done|]. cbn. by rewrite IH, sha256_compress_length. }
  destruct (foldl Sha256.compress Sha256.init bs) as [|w ws]; [done|]. split.
  - cbn -[Word32.be]. by destruct (Word32.be 4 w) eqn:E; [apply (f_equal length) in E; discriminate E|].
  - apply strip_id, hex_not_space. clear Hlen.
    induction (w :: ws) as [|x l IH]; cbn -[Word32.be]; [constructor|].
    apply Forall_app. split; [apply be_bytes|done].
Qed.

(** The published test vectors. *)
Example sha256_abc :
  sha256_hex "abc" = "ba7816bf8f01cfea414140de5dae2223b00361a396177a9cb410ff61f20015ad".
Proof. vm_compute. reflexivity. Qed.

Example sha256_empty :
  sha256_hex "" = "e3b0c44298fc1c149afbf4c8996fb92427ae41e4649b934ca495991b7852b855".
Proof. vm_compute. reflexivity. Qed.

(** [uuid5(NAMESPACE_DNS, "python.org")] of Python's documentation. *)
Example uuid5_python_org :
  uuid5 "6ba7b810-9dad-11d1-80b4-00c04fd430c8" "python.org" =
  "886313e1-3b8a-5372-9b90-0c9aee199e5d".
Proof. vm_compute. reflexivity. Qed.

(** The interface implemented by the identity: an instance without
    collisions, for evaluating the model on concrete inputs. The brackets
    keep the "digest" free of surrounding white space. *)
Definition transparent_hashing : Hashing := {|
  sha256_hex s := "<" +:+ s +:+ ">";
  uuid5 namespace name := namespace +:+ "/" +:+ name;
|}.

Lemma rstrip_snoc s : rstrip (s +:+ ">") = s +:+ ">".
Proof.
  induction s as [|c s IH]; [done|]. change (String c s +:+ ">") with (String c (s +:+ ">")).
  cbn [rstrip]. rewrite IH. by destruct s.
Qed.

#[export] Instance transparent_hex_digest : HexDigest (H := transparent_hashing).
Proof. intros s. split; [done|]. apply (rstrip_snoc ("<" +:+ s)). Qed.
