(* ===== verification/Identity.v ===== *)
(** * Identifiers of frames, sessions and frame-sets

    src/app/services/identity.py: every identifier is a name-based UUID or
    a SHA-256 over the canonical JSON of what it identifies. The theorems
    say when two identifiers agree: on equal normalised inputs, or where the
    digest itself collides. *)

From S2P Require Import Prelude Json Digest.

(** The module raises [ValueError] only. *)
Inductive identity_error := ValueError (message : string).

Definition IDENTITY_MODE_V2 : string := "V2".
Definition IDENTITY_MODE_LEGACY : string := "LEGACY".

Definition CAPTURE_CONFIG_FIELDS : gset string := list_to_set [
  "exposure_lock_requested"; "exposure_time_ns_requested"; "focal_length_mm";
  "focus_lock_requested"; "focus_mode"; "format"; "fps_target"; "height";
  "iso_requested"; "manual_exposure_requested"; "orientation_deg";
  "white_balance_lock_requested"; "width"; "zoom_disabled"].

Definition canonical_json (value : json) : string := dumps value.

Definition _required_text (name value : string) : result identity_error string :=
  let normalized := strip value in
  if truthy normalized then Ok normalized
  else Raise (ValueError (name +:+ " must not be empty")).

Definition _valid_sequence (value : Z) : result identity_error Z :=
  if value <? 0
  then Raise (ValueError "frame_sequence must be greater than or equal to 0")
  else Ok value.

Definition canonical_camera_stream_id (device_id : string) (camera_id : option string)
  : result identity_error string :=
  device ← _required_text "device_id" device_id;
  let camera := strip (or_str camera_id "") in
  Ok (if truthy camera && negb (bool_decide (camera = device))
      then device +:+ "/" +:+ camera else device).

Section Hashed.
Context `{Hashing}.

Definition SOURCE_FRAME_NAMESPACE : string :=
  uuid5 NAMESPACE_URL "https://geocap.local/identity/source-frame/v2".
Definition CAPTURE_SESSION_NAMESPACE : string :=
  uuid5 NAMESPACE_URL "https://geocap.local/identity/capture-session/v2".
Definition FRAME_SET_NAMESPACE : string :=
  uuid5 NAMESPACE_URL "https://geocap.local/identity/frame-set/v2".

Definition sha256_bytes (payload : string) : string := sha256_hex payload.

Definition build_source_frame_uid (source_session_id camera_stream_id : string)
    (frame_sequence : Z) : result identity_error string :=
  session ← _required_text "source_session_id" source_session_id;
  camera ← _required_text "camera_stream_id" camera_stream_id;
  sequence ← _valid_sequence frame_sequence;
  Ok (uuid5 SOURCE_FRAME_NAMESPACE
        (canonical_json (JList [JStr session; JStr camera; JInt sequence]))).

(** The comparison of two-element lists of text. *)
Definition member_leb (x y : string * string) : bool :=
  lex_leb (fun x y => String.ltb x.1 y.1) (fun x y => String.eqb x.1 y.1)
          (fun x y => String.leb x.2 y.2) x y.

Definition capture_member (m : string * string) : result identity_error (string * string) :=
  camera ← _required_text "camera_stream_id" m.1;
  session ← _required_text "source_session_id" m.2;
  Ok (camera, session).

Fixpoint capture_members (l : list (string * string))
  : result identity_error (list (string * string)) :=
  match l with
  | [] => Ok []
  | m :: l => x ← capture_member m; xs ← capture_members l; Ok (x :: xs)
  end.

Definition members_json (l : list (string * string)) : json :=
  JList ((fun m => JList [JStr m.1; JStr m.2]) <$> l).

Definition build_capture_session_id (source_sessions : list (string * string))
  : result identity_error string :=
  ms ← capture_members source_sessions;
  let members := sort_by member_leb ms in
  if bool_decide (members = [])
  then Raise (ValueError "source_sessions must not be empty")
  else Ok (uuid5 CAPTURE_SESSION_NAMESPACE (canonical_json (members_json members))).

(** [payload] is a dict: its items, whose keys are distinct. *)
Definition build_manifest_digest (payload : list (string * json)) : string :=
  sha256_hex (canonical_json (JObj payload)).

Definition build_capture_config_digest (metadata : option (list (string * json))) : string :=
  let config := filter (fun kv => kv.1 ∈ CAPTURE_CONFIG_FIELDS) (default [] metadata) in
  sha256_hex (canonical_json (JObj config)).

Definition build_frame_set_uid (manifest_digest : string) : result identity_error string :=
  digest ← _required_text "manifest_digest" manifest_digest;
  Ok (uuid5 FRAME_SET_NAMESPACE digest).
End Hashed.

Example source_frame_namespace_value :
  SOURCE_FRAME_NAMESPACE = "aa666d77-ecfa-5155-935b-f54738159c3e".
Proof. vm_compute. reflexivity. Qed.

(** ** Normalised text *)

Lemma required_text_Ok n v r :
  _required_text n v = Ok r <-> r = strip v /\ strip v <> "".
Proof.
  unfold _required_text, truthy. destruct (decide (strip v = "")) as [E|E].
  - rewrite bool_decide_eq_true_2 by done. naive_solver.
  - rewrite bool_decide_eq_false_2 by done. naive_solver.
Qed.

Lemma required_text_Raise n v e :
  _required_text n v = Raise e <->
  strip v = "" /\ e = ValueError (n +:+ " must not be empty").
Proof.
  unfold _required_text, truthy. destruct (decide (strip v = "")) as [E|E].
  - rewrite bool_decide_eq_true_2 by done. naive_solver.
  - rewrite bool_decide_eq_false_2 by done. naive_solver.
Qed.

Lemma valid_sequence_Ok z r : _valid_sequence z = Ok r <-> r = z /\ 0 <= z.
Proof. unfold _valid_sequence. destruct (Z.ltb_spec z 0); split; naive_solver lia. Qed.

(** ** The order of the members of a capture session *)

Lemma member_leb_spec x y :
  member_leb x y = true <->
  (x.1 <> y.1 /\ String.leb x.1 y.1 = true) \/ (x.1 = y.1 /\ String.leb x.2 y.2 = true).
Proof.
  unfold member_leb, lex_leb. rewrite orb_true_iff, andb_true_iff, String.eqb_eq.
  unfold String.ltb, String.leb. split.
  - intros [E|E]; [|by right]. left. case_match eqn:C; try done. split; [|done].
    intros E1. rewrite E1 in C.
    pose proof (String.compare_antisym y.1 y.1) as C'. by rewrite C in C'.
  - intros [[Hne E]|E]; [|by right]. left. case_match eqn:C; try done.
    by apply String.compare_eq_iff in C.
Qed.

Lemma member_leb_total x y : member_leb x y = true \/ member_leb y x = true.
Proof.
  rewrite !member_leb_spec. destruct (decide (x.1 = y.1)) as [E|E].
  - destruct (string_leb_total x.2 y.2); auto.
  - destruct (string_leb_total x.1 y.1); [left|right]; left; auto.
Qed.

Lemma member_leb_trans x y z :
  member_leb x y = true -> member_leb y z = true -> member_leb x z = true.
Proof.
  rewrite !member_leb_spec. intros [[H1 H2]|[H1 H2]] [[H3 H4]|[H3 H4]].
  - left. split; [|by eapply string_leb_trans]. intros E. apply H1.
    apply string_leb_antisym; [done|]. by rewrite E.
  - left. by rewrite <- H3.
  - left. by rewrite H1.
  - right. rewrite H1. split; [done|]. by eapply string_leb_trans.
Qed.

Lemma member_leb_antisym x y :
  member_leb x y = true -> member_leb y x = true -> x = y.
Proof.
  rewrite !member_leb_spec. destruct x as [a b], y as [c d]; cbn.
  intros [[H1 H2]|[H1 H2]] [[H3 H4]|[H3 H4]]; try congruence.
  - by pose proof (string_leb_antisym _ _ H2 H4).
  - subst. f_equal. by apply string_leb_antisym.
Qed.

Lemma sort_members_perm l l' :
  l ≡ₚ l' -> sort_by member_leb l = sort_by member_leb l'.
Proof.
  apply sort_by_perm_eq; [apply member_leb_total|apply member_leb_trans|].
  intros x y _ _. apply member_leb_antisym.
Qed.

Lemma capture_members_perm l l' ms :
  l ≡ₚ l' -> capture_members l = Ok ms ->
  exists ms', capture_members l' = Ok ms' /\ ms ≡ₚ ms'.
Proof.
  intros Hp. revert ms. induction Hp as [|x l l' Hp IH|x y l|l1 l2 l3 H1 IH1 H2 IH2];
    intros ms; cbn [capture_members].
  - intros [= <-]. eauto.
  - rewrite result_bind_Ok. intros (a & Ha & (b & Hb & [= <-])%result_bind_Ok).
    destruct (IH _ Hb) as (b' & Hb' & Hperm). exists (a :: b'). rewrite Ha; cbn.
    rewrite Hb'; cbn. auto.
  - rewrite result_bind_Ok.
    intros (a & Ha & (b & (c & Hc & (d & Hd & [= <-])%result_bind_Ok)%result_bind_Ok & [= <-])%result_bind_Ok).
    exists (c :: a :: d). rewrite Hc; cbn. rewrite Ha; cbn. rewrite Hd; cbn.
    split; [done|by apply Permutation_swap].
  - intros Hms. destruct (IH1 _ Hms) as (b & Hb & Hp1). destruct (IH2 _ Hb) as (c & Hc & Hp2).
    exists c. split; [done|]. by rewrite Hp1.
Qed.

Lemma capture_members_Ok l ms :
  capture_members l = Ok ms -> ms = (prod_map strip strip <$> l).
Proof.
  revert ms. induction l as [|[a b] l IH]; intros ms; cbn [capture_members].
  - by intros [= <-].
  - rewrite result_bind_Ok. intros (x & Hx & (xs & Hxs & [= <-])%result_bind_Ok).
    unfold capture_member in Hx. rewrite result_bind_Ok in Hx.
    destruct Hx as (c & [-> _]%required_text_Ok & (d & [-> _]%required_text_Ok & [= <-])%result_bind_Ok).
    cbn. f_equal. by apply IH.
Qed.

(** ** When identifiers agree *)

Section Agreement.
Context `{Hashing}.

(** Two source frame identifiers agree only for the same session, stream
    and sequence number (up to surrounding white space). *)
Lemma source_frame_uid_inj s c n s' c' n' u :
  build_source_frame_uid s c n = Ok u -> build_source_frame_uid s' c' n' = Ok u ->
  (strip s = strip s' /\ strip c = strip c' /\ n = n') \/
  uuid5_collision SOURCE_FRAME_NAMESPACE.
Proof.
  assert (forall s c n u, build_source_frame_uid s c n = Ok u -> u = uuid5 SOURCE_FRAME_NAMESPACE
            (canonical_json (JList [JStr (strip s); JStr (strip c); JInt n]))) as Hu.
  { clear. intros s c n u. unfold build_source_frame_uid. rewrite !result_bind_Ok.
    intros (? & [-> _]%required_text_Ok & (? & [-> _]%required_text_Ok & 
      (? & [-> _]%valid_sequence_Ok & [= <-])%result_bind_Ok)%result_bind_Ok). done. }
  intros E1%Hu E2%Hu. rewrite E1 in E2.
  apply uuid5_eq in E2 as [E2|E2]; [left|by right].
  apply dumps_inj in E2; [|done..]. cbn in E2. naive_solver.
Qed.

(** A capture session's identifier is that of the set of its members: the
    order in which they are listed does not matter. *)
Lemma capture_session_id_perm l l' u :
  l ≡ₚ l' -> build_capture_session_id l = Ok u -> build_capture_session_id l' = Ok u.
Proof.
  intros Hp. unfold build_capture_session_id. rewrite result_bind_Ok.
  intros (ms & Hms & Hu). destruct (capture_members_perm _ _ _ Hp Hms) as (ms' & Hms' & Hp').
  rewrite Hms'. cbn. by rewrite <- (sort_members_perm _ _ Hp').
Qed.

Lemma members_json_inj l l' : 
  sort_keys (members_json l) = sort_keys (members_json l') -> l = l'.
Proof.
  unfold members_json. cbn [sort_keys]. intros [= E]. revert l' E.
  induction l as [|[a b] l IH]; intros [|[c d] l'] E; try done.
  cbn in E. injection E as -> -> E. f_equal. by apply IH.
Qed.

Lemma members_json_floats l : floats_ok (members_json l) = true.
Proof. induction l as [|m l IH]; [done|]. exact IH. Qed.

Lemma capture_session_id_inj l l' u :
  build_capture_session_id l = Ok u -> build_capture_session_id l' = Ok u ->
  (prod_map strip strip <$> l) ≡ₚ (prod_map strip strip <$> l') \/
  uuid5_collision CAPTURE_SESSION_NAMESPACE.
Proof.
  unfold build_capture_session_id. rewrite !result_bind_Ok.
  intros (ms & ->%capture_members_Ok & Hu) (ms' & ->%capture_members_Ok & Hu').
  do 2 case_bool_decide; try done. injection Hu as Hu. injection Hu' as Hu'.
  rewrite <- Hu' in Hu. apply uuid5_eq in Hu as [E|E]; [left|by right].
  apply (dumps_inj _ _ (members_json_floats _) (members_json_floats _)), members_json_inj in E.
  by rewrite <- (sort_by_perm member_leb), E, sort_by_perm.
Qed.

(** A manifest digest agrees only for the same content. *)
Lemma manifest_digest_inj p q :
  floats_ok (JObj p) = true -> floats_ok (JObj q) = true ->
  build_manifest_digest p = build_manifest_digest q ->
  sort_keys (JObj p) = sort_keys (JObj q) \/ sha256_collision.
Proof.
  intros Hp Hq [E|E]%sha256_hex_eq; [left|by right]. by apply dumps_inj.
Qed.

(** The canonical text of a dict does not depend on the order in which its
    keys were inserted. *)
Lemma canonical_json_perm p q :
  NoDup (p.*1) -> p ≡ₚ q -> canonical_json (JObj p) = canonical_json (JObj q).
Proof.
  intros Hnd Hp. unfold canonical_json. rewrite !dumps_obj. do 4 f_equal.
  apply sort_by_perm_eq; [..|done].
  - intros. apply string_leb_total.
  - intros x y z. apply string_leb_trans.
  - intros [k v] [k' v'] H1 H2 E1 E2. unfold key_leb in *. cbn in *.
    pose proof (string_leb_antisym _ _ E1 E2) as <-. f_equal.
    apply (dict_elem_get _ _ _ Hnd) in H1, H2. congruence.
Qed.

(** The capture configuration's digest is that of the configuration fields:
    other metadata and the order of the fields have no effect. *)
Lemma capture_config_digest_eq p q :
  NoDup (p.*1) ->
  filter (fun kv => kv.1 ∈ CAPTURE_CONFIG_FIELDS) p ≡ₚ
  filter (fun kv => kv.1 ∈ CAPTURE_CONFIG_FIELDS) q ->
  build_capture_config_digest (Some p) = build_capture_config_digest (Some q).
Proof.
  intros Hnd Hp. unfold build_capture_config_digest. cbn [default]. f_equal.
  apply canonical_json_perm; [|done]. by apply dict_filter_NoDup.
Qed.

(** A camera's stream identifier is never empty. *)
Lemma canonical_camera_stream_id_nonempty d c s :
  canonical_camera_stream_id d c = Ok s -> s <> "" /\ exists t, s = strip d +:+ t.
Proof.
  unfold canonical_camera_stream_id. rewrite result_bind_Ok.
  intros (x & [-> Hx]%required_text_Ok & [= <-]). case_match.
  - split; [|eauto]. by destruct (strip d).
  - split; [done|]. exists "". by rewrite string_app_nil_r.
Qed.
End Agreement.
