(* ===== verification/SyncModels.v ===== *)
(** * Frames and frame-sets

    The three dataclasses of src/app/services/sync/models.py. They are
    frozen: [dataclasses.replace] makes a new value. Image bytes are a
    [string] of bytes; the [frames] dict of a frame-set keeps its insertion
    order. *)

From S2P Require Import Prelude.

Record SyncInputFrame := mkSyncInputFrame {
  in_frame_id : option Z;
  in_device_id : string;
  in_timestamp_ms : Z;
  in_sequence : option Z;
  in_content_type : string;
  in_image_bytes : string;
  in_file_path : option string;
  in_source_session_id : option string;
  in_camera_stream_id : option string;
  in_source_frame_uid : option string;
  in_content_digest : option string;
  in_identity_mode : string;
  in_archive_state : string;
  in_archive_error : option string;
  in_received_at_ms : option Z;
  in_capture_config_digest : option string;
  in_capture_metadata_json : option string;
  in_tenant_id : option string;
  in_site_id : option string;
  in_capture_session_id : option string;
  in_processing_job_id : option string;
  in_profile_digest : option string;
  in_authorized_subject : option string;
  in_session_token_jti : option string;
  in_authorized_camera_id : option string;
  in_camera_claim_id : option string;
}.

#[export] Instance SyncInputFrame_settable : Settable SyncInputFrame := fun x => mkSyncInputFrame
  (in_frame_id x) (in_device_id x) (in_timestamp_ms x) (in_sequence x)
  (in_content_type x) (in_image_bytes x) (in_file_path x) (in_source_session_id x)
  (in_camera_stream_id x) (in_source_frame_uid x) (in_content_digest x)
  (in_identity_mode x) (in_archive_state x) (in_archive_error x) (in_received_at_ms x)
  (in_capture_config_digest x) (in_capture_metadata_json x) (in_tenant_id x)
  (in_site_id x) (in_capture_session_id x) (in_processing_job_id x)
  (in_profile_digest x) (in_authorized_subject x) (in_session_token_jti x)
  (in_authorized_camera_id x) (in_camera_claim_id x).

#[export] Instance SyncInputFrame_eq_dec : EqDecision SyncInputFrame.
Proof. solve_decision. Defined.

Record StoredSyncFrame := mkStoredSyncFrame {
  sf_frame_id : option Z;
  sf_device_id : string;
  sf_timestamp_ms : Z;
  sf_sequence : option Z;
  sf_content_type : string;
  sf_image_bytes : string;
  sf_image_size : Z;
  sf_file_path : option string;
  sf_buffer_key : string;
  sf_source_session_id : option string;
  sf_camera_stream_id : option string;
  sf_source_frame_uid : option string;
  sf_content_digest : option string;
  sf_identity_mode : string;
  sf_archive_state : string;
  sf_archive_error : option string;
  sf_received_at_ms : option Z;
  sf_capture_config_digest : option string;
  sf_capture_metadata_json : option string;
  sf_tenant_id : option string;
  sf_site_id : option string;
  sf_capture_session_id : option string;
  sf_processing_job_id : option string;
  sf_profile_digest : option string;
  sf_authorized_subject : option string;
  sf_session_token_jti : option string;
  sf_authorized_camera_id : option string;
  sf_camera_claim_id : option string;
}.

#[export] Instance StoredSyncFrame_settable : Settable StoredSyncFrame := fun x => mkStoredSyncFrame
  (sf_frame_id x) (sf_device_id x) (sf_timestamp_ms x) (sf_sequence x)
  (sf_content_type x) (sf_image_bytes x) (sf_image_size x) (sf_file_path x)
  (sf_buffer_key x) (sf_source_session_id x) (sf_camera_stream_id x)
  (sf_source_frame_uid x) (sf_content_digest x) (sf_identity_mode x)
  (sf_archive_state x) (sf_archive_error x) (sf_received_at_ms x)
  (sf_capture_config_digest x) (sf_capture_metadata_json x) (sf_tenant_id x)
  (sf_site_id x) (sf_capture_session_id x) (sf_processing_job_id x)
  (sf_profile_digest x) (sf_authorized_subject x) (sf_session_token_jti x)
  (sf_authorized_camera_id x) (sf_camera_claim_id x).

#[export] Instance StoredSyncFrame_eq_dec : EqDecision StoredSyncFrame.
Proof. solve_decision. Defined.

Record SynchronizedFrameSet := mkSynchronizedFrameSet {
  fs_frame_set_id : Z;
  fs_anchor_timestamp_ms : Z;
  fs_max_delta_ms : Z;
  fs_frames : list (string * StoredSyncFrame);
  fs_span_ms : option Z;
  fs_capture_session_id : option string;
  fs_capture_run_id : option string;
  fs_frame_set_uid : option string;
  fs_manifest_digest : option string;
  fs_manifest_json : option string;
  fs_identity_mode : string;
  fs_archive_state : string;
  fs_archive_error : option string;
  fs_sync_window_ms : Z;
  fs_synchronized_at_ms : Z;
  fs_member_count : Z;
  fs_tenant_id : option string;
  fs_site_id : option string;
  fs_processing_job_id : option string;
  fs_profile_digest : option string;
  fs_authorized_subject : option string;
  fs_session_token_jti : option string;
}.

#[export] Instance SynchronizedFrameSet_settable : Settable SynchronizedFrameSet := fun x => mkSynchronizedFrameSet
  (fs_frame_set_id x) (fs_anchor_timestamp_ms x) (fs_max_delta_ms x) (fs_frames x)
  (fs_span_ms x) (fs_capture_session_id x) (fs_capture_run_id x) (fs_frame_set_uid x)
  (fs_manifest_digest x) (fs_manifest_json x) (fs_identity_mode x) (fs_archive_state x)
  (fs_archive_error x) (fs_sync_window_ms x) (fs_synchronized_at_ms x)
  (fs_member_count x) (fs_tenant_id x) (fs_site_id x) (fs_processing_job_id x)
  (fs_profile_digest x) (fs_authorized_subject x) (fs_session_token_jti x).

Definition ARCHIVE_PENDING : string := "ARCHIVE_PENDING".
Definition ARCHIVE_DURABLE : string := "ARCHIVE_DURABLE".
Definition ARCHIVE_DEGRADED_LIVE_ONLY : string := "ARCHIVE_DEGRADED_LIVE_ONLY".

(** [SyncInputFrame] with only the fields without a default. *)
Definition input_frame (device_id : string) (timestamp_ms : Z) (sequence : option Z)
    (image_bytes : string) : SyncInputFrame :=
  mkSyncInputFrame None device_id timestamp_ms sequence "image/jpeg" image_bytes None
    None None None None "LEGACY" ARCHIVE_PENDING None None None None None None None
    None None None None None None.

(** The exceptions the synchronisation code raises. *)
Inductive sync_error :=
| SyncValueError (message : string)
| FrameScopeConflict (message : string)
| SyncKeyError (key : string).
