(* ===== verification/FrameBuffer.v ===== *)
(** * Per-camera frame buffers

    src/app/services/sync/frame_buffer.py. [CameraSyncBuffer] is one
    camera's bounded buffer; [SyncFrameBufferManager] holds a buffer per
    device and the index [_frames_by_key] of retained frames. Each method
    takes its [Lock] for its whole body, so an operation is one step on the
    state. *)

From S2P Require Import Prelude Digest Identity SyncModels.

(** ** CameraSyncBuffer *)

Record CameraSyncBuffer := mkCameraSyncBuffer {
  cb_max_frames : Z;
  cb_frames : list StoredSyncFrame;
  cb_received_count : Z;
  cb_last_sequence : option Z;
  cb_last_timestamp_ms : option Z;
  cb_sequence_gap_count : Z;
  cb_source_identity : option (option string * option string);
  cb_retained_keys : list string;
}.

#[export] Instance CameraSyncBuffer_settable : Settable CameraSyncBuffer :=
  fun x => mkCameraSyncBuffer (cb_max_frames x) (cb_frames x) (cb_received_count x)
    (cb_last_sequence x) (cb_last_timestamp_ms x) (cb_sequence_gap_count x)
    (cb_source_identity x) (cb_retained_keys x).

Definition new_CameraSyncBuffer (max_frames : Z) : CameraSyncBuffer :=
  mkCameraSyncBuffer max_frames [] 0 None None 0 None [].

(** [(frame.source_session_id, frame.camera_stream_id)]. *)
Definition frame_identity (frame : StoredSyncFrame) : option string * option string :=
  (sf_source_session_id frame, sf_camera_stream_id frame).

Definition is_out_of_order (b : CameraSyncBuffer) (frame : StoredSyncFrame) : bool :=
  bool_decide (sf_identity_mode frame = IDENTITY_MODE_V2) &&
  bool_decide (Some (frame_identity frame) = cb_source_identity b) &&
  (match sf_sequence frame, cb_last_sequence b with
   | Some sequence, Some last_sequence => sequence <=? last_sequence
   | _, _ => false
   end ||
   match cb_last_timestamp_ms b with
   | Some last_timestamp_ms => sf_timestamp_ms frame <? last_timestamp_ms
   | None => false
   end).

(** The first [if] of [append]: a new source starts an empty buffer. *)
Definition adopt_identity (b : CameraSyncBuffer) (frame : StoredSyncFrame) : CameraSyncBuffer :=
  if bool_decide (Some (frame_identity frame) = cb_source_identity b) then b
  else b <| cb_frames := [] |>
         <| cb_last_sequence := None |>
         <| cb_last_timestamp_ms := None |>
         <| cb_source_identity := Some (frame_identity frame) |>.

Definition append (b : CameraSyncBuffer) (frame : StoredSyncFrame) : CameraSyncBuffer :=
  let b := adopt_identity b frame in
  let b := b <| cb_sequence_gap_count ::= fun gap =>
    match cb_last_sequence b, sf_sequence frame with
    | Some last_sequence, Some sequence =>
        if last_sequence + 1 <? sequence then gap + (sequence - last_sequence - 1) else gap
    | _, _ => gap
    end |> in
  let b := b <| cb_frames := deque_append (cb_max_frames b) (cb_frames b) frame |>
             <| cb_received_count ::= Z.succ |> in
  let b := match sf_sequence frame with
           | Some sequence => b <| cb_last_sequence := Some sequence |>
           | None => b
           end in
  b <| cb_last_timestamp_ms := Some (sf_timestamp_ms frame) |>.

(** The loop of [nearest_frame]; the accumulator is [nearest] with
    [nearest_delta]. *)
Definition nearest_step (anchor_timestamp_ms window_ms : Z) (excluded : gset string)
    (acc : option (StoredSyncFrame * Z)) (frame : StoredSyncFrame)
    : option (StoredSyncFrame * Z) :=
  if bool_decide (sf_buffer_key frame ∈ excluded) then acc
  else
    let delta := Z.abs (sf_timestamp_ms frame - anchor_timestamp_ms) in
    if (delta <=? window_ms) &&
       match acc with None => true | Some (_, nearest_delta) => delta <? nearest_delta end
    then Some (frame, delta) else acc.

Definition buffer_nearest_frame (b : CameraSyncBuffer) (anchor_timestamp_ms window_ms : Z)
    (exclude_frame_keys : option (gset string)) : option StoredSyncFrame :=
  fst <$> foldl (nearest_step anchor_timestamp_ms window_ms (default ∅ exclude_frame_keys))
                None (cb_frames b).

(** [key=lambda frame: (frame.timestamp_ms, frame.buffer_key)]. *)
Definition frame_leb (x y : StoredSyncFrame) : bool :=
  lex_leb (fun x y => sf_timestamp_ms x <? sf_timestamp_ms y)
          (fun x y => sf_timestamp_ms x =? sf_timestamp_ms y)
          (fun x y => String.leb (sf_buffer_key x) (sf_buffer_key y)) x y.

Definition buffer_available_frames (b : CameraSyncBuffer)
    (exclude_frame_keys : option (gset string)) : list StoredSyncFrame :=
  sort_by frame_leb
    (filter (fun frame => sf_buffer_key frame ∉ default ∅ exclude_frame_keys) (cb_frames b)).

Definition drop_step (max_frames timestamp_ms : Z) (counted_excluded : gset string)
    (acc : list StoredSyncFrame * Z) (frame : StoredSyncFrame) : list StoredSyncFrame * Z :=
  let '(kept, dropped_count) := acc in
  if sf_timestamp_ms frame <? timestamp_ms
  then (kept, if bool_decide (sf_buffer_key frame ∈ counted_excluded)
              then dropped_count else dropped_count + 1)
  else (deque_append max_frames kept frame, dropped_count).

Definition buffer_drop_frames_older_than (b : CameraSyncBuffer) (timestamp_ms : Z)
    (counted_exclude_frame_keys : option (gset string)) : CameraSyncBuffer * Z :=
  let '(kept, dropped_count) :=
    foldl (drop_step (cb_max_frames b) timestamp_ms (default ∅ counted_exclude_frame_keys))
          ([], 0) (cb_frames b) in
  (b <| cb_frames := kept |>, dropped_count).

(** The dict [CameraSyncBuffer.status] returns. *)
Record CameraStatus := mkCameraStatus {
  cs_device_id : string;
  cs_buffered_count : Z;
  cs_received_count : Z;
  cs_sequence_gap_count : Z;
  cs_last_sequence : option Z;
  cs_last_timestamp_ms : option Z;
}.

Definition buffer_status (b : CameraSyncBuffer) (device_id : string) : CameraStatus :=
  mkCameraStatus device_id (Z.of_nat (length (cb_frames b))) (cb_received_count b)
    (cb_sequence_gap_count b) (cb_last_sequence b) (cb_last_timestamp_ms b).

(** ** SyncFrameBufferManager *)

Record SyncFrameBufferManager := mkSyncFrameBufferManager {
  bm_buffer_size : Z;
  bm_buffers : gmap string CameraSyncBuffer;
  bm_frames_by_key : gmap string StoredSyncFrame;
  bm_received_count : Z;
  bm_duplicate_frame_count : Z;
  bm_out_of_order_frame_count : Z;
  bm_evicted_frame_count : Z;
}.

#[export] Instance SyncFrameBufferManager_settable : Settable SyncFrameBufferManager :=
  fun x => mkSyncFrameBufferManager (bm_buffer_size x) (bm_buffers x) (bm_frames_by_key x)
    (bm_received_count x) (bm_duplicate_frame_count x) (bm_out_of_order_frame_count x)
    (bm_evicted_frame_count x).

Definition new_SyncFrameBufferManager (buffer_size : Z)
    : result sync_error SyncFrameBufferManager :=
  if buffer_size <? 1 then Raise (SyncValueError "buffer_size must be positive")
  else Ok (mkSyncFrameBufferManager buffer_size ∅ ∅ 0 0 0 0).

Definition build_buffer_key `{Hashing} (frame : SyncInputFrame) : string :=
  if truthy_opt (in_source_frame_uid frame)
  then "source:" +:+ default "" (in_source_frame_uid frame)
  else match in_frame_id frame with
       | Some frame_id => "db:" +:+ pretty frame_id
       | None =>
           let digest := or_str (in_content_digest frame) (sha256_bytes (in_image_bytes frame)) in
           "legacy:" +:+ in_device_id frame +:+ ":" +:+ pretty (in_timestamp_ms frame) +:+ ":" +:+
           match in_sequence frame with Some sequence => pretty sequence | None => "-" end
           +:+ ":" +:+ digest
       end.

(** The [StoredSyncFrame] that [add_frame] builds. *)
Definition store_frame `{Hashing} (frame : SyncInputFrame) : StoredSyncFrame := {|
  sf_frame_id := in_frame_id frame;
  sf_device_id := in_device_id frame;
  sf_timestamp_ms := in_timestamp_ms frame;
  sf_sequence := in_sequence frame;
  sf_content_type := in_content_type frame;
  sf_image_bytes := in_image_bytes frame;
  sf_image_size := Z.of_nat (String.length (in_image_bytes frame));
  sf_file_path := in_file_path frame;
  sf_buffer_key := build_buffer_key frame;
  sf_source_session_id := in_source_session_id frame;
  sf_camera_stream_id := in_camera_stream_id frame;
  sf_source_frame_uid := in_source_frame_uid frame;
  sf_content_digest := in_content_digest frame;
  sf_identity_mode := in_identity_mode frame;
  sf_archive_state := in_archive_state frame;
  sf_archive_error := in_archive_error frame;
  sf_received_at_ms := in_received_at_ms frame;
  sf_capture_config_digest := in_capture_config_digest frame;
  sf_capture_metadata_json := in_capture_metadata_json frame;
  sf_tenant_id := in_tenant_id frame;
  sf_site_id := in_site_id frame;
  sf_capture_session_id := in_capture_session_id frame;
  sf_processing_job_id := in_processing_job_id frame;
  sf_profile_digest := in_profile_digest frame;
  sf_authorized_subject := in_authorized_subject frame;
  sf_session_token_jti := in_session_token_jti frame;
  sf_authorized_camera_id := in_authorized_camera_id frame;
  sf_camera_claim_id := in_camera_claim_id frame;
|}.

(** [while len(buffer.retained_keys) > self.buffer_size: ...popleft()]. *)
Fixpoint evict_retained (buffer_size : Z) (retained_keys : list string)
    (frames_by_key : gmap string StoredSyncFrame)
    : list string * gmap string StoredSyncFrame :=
  match retained_keys with
  | [] => ([], frames_by_key)
  | key :: rest =>
      if buffer_size <? Z.of_nat (length retained_keys)
      then evict_retained buffer_size rest (delete key frames_by_key)
      else (retained_keys, frames_by_key)
  end.

(** The locked block of [add_frame] for the stored frame. *)
Definition add_stored (m : SyncFrameBufferManager) (stored : StoredSyncFrame)
    : SyncFrameBufferManager * option StoredSyncFrame :=
  let key := sf_buffer_key stored in
  match bm_frames_by_key m !! key with
  | Some _ => (m <| bm_duplicate_frame_count ::= Z.succ |>, None)
  | None =>
      let device_id := sf_device_id stored in
      let buffer := default (new_CameraSyncBuffer (bm_buffer_size m)) (bm_buffers m !! device_id) in
      let m := m <| bm_buffers ::= <[device_id := buffer]> |> in
      if is_out_of_order buffer stored
      then (m <| bm_out_of_order_frame_count ::= Z.succ |>, None)
      else
        let m := if Z.of_nat (length (cb_frames buffer)) =? bm_buffer_size m
                 then m <| bm_evicted_frame_count ::= Z.succ |> else m in
        let buffer := append buffer stored in
        let '(retained, index) :=
          evict_retained (bm_buffer_size m) (cb_retained_keys buffer ++ [key])
                         (<[key := stored]> (bm_frames_by_key m)) in
        let buffer := buffer <| cb_retained_keys := retained |> in
        (m <| bm_buffers ::= <[device_id := buffer]> |>
           <| bm_frames_by_key := index |>
           <| bm_received_count ::= Z.succ |>, Some stored)
  end.

Definition add_frame `{Hashing} (m : SyncFrameBufferManager) (frame : SyncInputFrame)
    : SyncFrameBufferManager * option StoredSyncFrame :=
  add_stored m (store_frame frame).

Definition nearest_frame (m : SyncFrameBufferManager) (device_id : string)
    (anchor_timestamp_ms window_ms : Z) (exclude_frame_keys : option (gset string))
    : option StoredSyncFrame :=
  match bm_buffers m !! device_id with
  | None => None
  | Some buffer => buffer_nearest_frame buffer anchor_timestamp_ms window_ms exclude_frame_keys
  end.

Definition available_frames (m : SyncFrameBufferManager) (device_id : string)
    (exclude_frame_keys : option (gset string)) : list StoredSyncFrame :=
  match bm_buffers m !! device_id with
  | None => []
  | Some buffer => buffer_available_frames buffer exclude_frame_keys
  end.

(** The dict [latest_timestamps] builds, in insertion order. *)
Definition latest_timestamps (m : SyncFrameBufferManager) (device_ids : list string)
    : list (string * Z) :=
  foldl (fun latest device_id =>
           match bm_buffers m !! device_id ≫= cb_last_timestamp_ms with
           | None => latest
           | Some last_timestamp_ms => dict_set device_id last_timestamp_ms latest
           end) [] device_ids.

Fixpoint drop_frames_older_than (m : SyncFrameBufferManager) (device_ids : list string)
    (timestamp_ms : Z) (counted_exclude_frame_keys : option (gset string))
    : SyncFrameBufferManager * Z :=
  match device_ids with
  | [] => (m, 0)
  | device_id :: device_ids =>
      match bm_buffers m !! device_id with
      | None => drop_frames_older_than m device_ids timestamp_ms counted_exclude_frame_keys
      | Some buffer =>
          let '(buffer, dropped) :=
            buffer_drop_frames_older_than buffer timestamp_ms counted_exclude_frame_keys in
          let '(m, dropped_count) :=
            drop_frames_older_than (m <| bm_buffers ::= <[device_id := buffer]> |>)
              device_ids timestamp_ms counted_exclude_frame_keys in
          (m, dropped + dropped_count)
      end
  end.

(** The dict [snapshot] returns. *)
Record BufferSnapshot := mkBufferSnapshot {
  bs_camera_count : Z;
  bs_received_count : Z;
  bs_duplicate_frame_count : Z;
  bs_out_of_order_frame_count : Z;
  bs_evicted_frame_count : Z;
  bs_retained_frame_count : Z;
  bs_buffer_size : Z;
  bs_cameras : list CameraStatus;
}.

Definition snapshot (m : SyncFrameBufferManager) : BufferSnapshot := {|
  bs_camera_count := Z.of_nat (size (bm_buffers m));
  bs_received_count := bm_received_count m;
  bs_duplicate_frame_count := bm_duplicate_frame_count m;
  bs_out_of_order_frame_count := bm_out_of_order_frame_count m;
  bs_evicted_frame_count := bm_evicted_frame_count m;
  bs_retained_frame_count := Z.of_nat (size (bm_frames_by_key m));
  bs_buffer_size := bm_buffer_size m;
  bs_cameras := (fun kb => buffer_status kb.2 kb.1) <$>
    sort_by (fun x y => String.leb x.1 y.1) (map_to_list (bm_buffers m));
|}.

Definition clear (m : SyncFrameBufferManager) : SyncFrameBufferManager :=
  mkSyncFrameBufferManager (bm_buffer_size m) ∅ ∅ 0 0 0 0.

Definition consume_step (max_frames : Z) (chosen : StoredSyncFrame)
    (acc : list StoredSyncFrame * Z) (frame : StoredSyncFrame) : list StoredSyncFrame * Z :=
  let '(kept, superseded) := acc in
  if sf_timestamp_ms frame <=? sf_timestamp_ms chosen
  then (kept, if bool_decide (sf_buffer_key frame = sf_buffer_key chosen)
              then superseded else superseded + 1)
  else (deque_append max_frames kept frame, superseded).

Definition buffer_consume_through (b : CameraSyncBuffer) (chosen : StoredSyncFrame)
    : CameraSyncBuffer * Z :=
  let '(kept, superseded) :=
    foldl (consume_step (cb_max_frames b) chosen) ([], 0) (cb_frames b) in
  (b <| cb_frames := kept |>, superseded).

(** [self._buffers[device_id]] raises [KeyError] for an unknown device; the
    devices before it have been consumed by then. *)
Fixpoint consume_through (m : SyncFrameBufferManager) (selected : list (string * StoredSyncFrame))
    : SyncFrameBufferManager * result sync_error Z :=
  match selected with
  | [] => (m, Ok 0)
  | (device_id, chosen) :: selected =>
      match bm_buffers m !! device_id with
      | None => (m, Raise (SyncKeyError device_id))
      | Some buffer =>
          let '(buffer, superseded) := buffer_consume_through buffer chosen in
          let '(m, r) := consume_through (m <| bm_buffers ::= <[device_id := buffer]> |>) selected in
          (m, Z.add superseded <$> r)
      end
  end.

(** [replace(stored, frame_id=..., ...)]. *)
Definition archived (stored : StoredSyncFrame) (frame_id : option Z) (file_path : option string)
    (archive_state : string) (archive_error : option string) : StoredSyncFrame :=
  stored <| sf_frame_id := frame_id |>
         <| sf_file_path := file_path |>
         <| sf_archive_state := archive_state |>
         <| sf_archive_error := archive_error |>.

(** [updated if item.buffer_key == frame_key else item] over a buffer. *)
Definition buffer_replace (b : CameraSyncBuffer) (frame_key : string) (updated : StoredSyncFrame)
    : CameraSyncBuffer :=
  b <| cb_frames := deque_trim (cb_max_frames b)
         ((fun item => if bool_decide (sf_buffer_key item = frame_key) then updated else item)
          <$> cb_frames b) |>.

Definition finalize_archive (m : SyncFrameBufferManager) (frame_key : string)
    (frame_id : option Z) (file_path : option string) (archive_state : string)
    (archive_error : option string) : SyncFrameBufferManager * option StoredSyncFrame :=
  match bm_frames_by_key m !! frame_key with
  | None => (m, None)
  | Some stored =>
      let updated := archived stored frame_id file_path archive_state archive_error in
      let m := m <| bm_frames_by_key ::= <[frame_key := updated]> |> in
      match bm_buffers m !! sf_device_id stored with
      | None => (m, Some updated)
      | Some buffer =>
          (m <| bm_buffers ::= <[sf_device_id stored := buffer_replace buffer frame_key updated]> |>,
           Some updated)
      end
  end.

#[global] Arguments append : simpl never.
#[global] Arguments adopt_identity : simpl never.
#[global] Arguments deque_append : simpl never.
#[global] Arguments deque_trim : simpl never.

(** ** One buffer *)

Section Loops.
Context {A : Type}.

(** The shape both filtering loops share: rebuild the deque from the
    elements that stay, count the others that are not exempt. *)
Lemma keep_loop (max : Z) (p q : A -> bool) (l kept : list A) (n : Z) :
  Z.of_nat (length kept + length l) <= max ->
  foldl (fun acc x => let '(kept, n) := acc in
           if p x then (kept, if q x then n else n + 1)
           else (deque_append max kept x, n)) (kept, n) l =
  (kept ++ filter (fun x => p x = false) l,
   n + Z.of_nat (length (filter (fun x => p x = true /\ q x = false) l))).
Proof.
  revert kept n. induction l as [|x l IH]; intros kept n Hlen; cbn [foldl].
  { rewrite app_nil_r. f_equal. cbn. lia. }
  cbn [length] in Hlen. destruct (p x) eqn:Hp.
  - rewrite IH by lia. rewrite !filter_cons, Hp.
    rewrite decide_False by done. f_equal.
    destruct (q x); [rewrite decide_False by naive_solver; lia|].
    rewrite decide_True by done. cbn [length]. lia.
  - rewrite deque_append_room by lia. rewrite IH by (rewrite length_app; cbn; lia).
    rewrite !filter_cons, Hp, decide_True, decide_False by naive_solver.
    by rewrite <- app_assoc.
Qed.

Lemma deque_trim_suffix_mono (n : Z) (l k : list A) :
  l `suffix_of` k -> deque_trim n l `suffix_of` deque_trim n k.
Proof.
  intros [p ->]. unfold deque_trim. rewrite length_app.
  destruct (decide (length p + length l - Z.to_nat n <= length p)%nat).
  - rewrite drop_app_le by lia. apply suffix_app_r.
    exists (take (length l - Z.to_nat n) l). symmetry. apply take_drop.
  - rewrite drop_app_ge by lia.
    by replace (length p + length l - Z.to_nat n - length p)%nat
      with (length l - Z.to_nat n)%nat by lia.
Qed.

Lemma deque_trim_fmap {B} (f : A -> B) (n : Z) (l : list A) :
  f <$> deque_trim n l = deque_trim n (f <$> l).
Proof. unfold deque_trim. by rewrite fmap_drop, length_fmap. Qed.
End Loops.

Lemma drop_loop_eq b timestamp_ms ex :
  Z.of_nat (length (cb_frames b)) <= cb_max_frames b ->
  buffer_drop_frames_older_than b timestamp_ms ex =
  (b <| cb_frames := filter (fun f => (sf_timestamp_ms f <? timestamp_ms) = false) (cb_frames b) |>,
   Z.of_nat (length (filter (fun f => (sf_timestamp_ms f <? timestamp_ms) = true /\
                             bool_decide (sf_buffer_key f ∈ default ∅ ex) = false) (cb_frames b)))).
Proof.
  intros Hlen. unfold buffer_drop_frames_older_than, drop_step.
  by rewrite keep_loop by done.
Qed.

Lemma consume_loop_eq b chosen :
  Z.of_nat (length (cb_frames b)) <= cb_max_frames b ->
  buffer_consume_through b chosen =
  (b <| cb_frames := filter (fun f => (sf_timestamp_ms f <=? sf_timestamp_ms chosen) = false)
                            (cb_frames b) |>,
   Z.of_nat (length (filter (fun f => (sf_timestamp_ms f <=? sf_timestamp_ms chosen) = true /\
                             bool_decide (sf_buffer_key f = sf_buffer_key chosen) = false)
                            (cb_frames b)))).
Proof.
  intros Hlen. unfold buffer_consume_through, consume_step.
  by rewrite keep_loop by done.
Qed.

Section Append.
Context (b : CameraSyncBuffer) (f : StoredSyncFrame).

Lemma append_max_frames : cb_max_frames (append b f) = cb_max_frames b.
Proof. unfold append, adopt_identity. by repeat case_match. Qed.

Lemma append_frames :
  cb_frames (append b f) =
  deque_append (cb_max_frames b) (cb_frames (adopt_identity b f)) f.
Proof. unfold append, adopt_identity. by repeat case_match. Qed.

Lemma append_identity : cb_source_identity (append b f) = Some (frame_identity f).
Proof.
  unfold append, adopt_identity. case_bool_decide; destruct (sf_sequence f); cbn; done.
Qed.

Lemma append_last_timestamp : cb_last_timestamp_ms (append b f) = Some (sf_timestamp_ms f).
Proof. unfold append, adopt_identity. by repeat case_match. Qed.

Lemma append_last_sequence :
  cb_last_sequence (append b f) =
  match sf_sequence f with
  | Some s => Some s
  | None => cb_last_sequence (adopt_identity b f)
  end.
Proof. unfold append, adopt_identity. by destruct (sf_sequence f). Qed.

Lemma append_retained : cb_retained_keys (append b f) = cb_retained_keys b.
Proof. unfold append, adopt_identity. by repeat case_match. Qed.

Lemma adopt_frames_cases :
  cb_frames (adopt_identity b f) = cb_frames b \/ cb_frames (adopt_identity b f) = [].
Proof. unfold adopt_identity. case_bool_decide; auto. Qed.

Lemma adopt_frames_length : (length (cb_frames (adopt_identity b f)) <= length (cb_frames b))%nat.
Proof. destruct adopt_frames_cases as [-> | ->]; cbn; lia. Qed.
End Append.

(** [nearest_frame] returns the earliest buffered frame among those closest
    to the anchor, and nothing only when every candidate is outside the
    window. *)
Section Nearest.
Context (anchor window : Z) (excluded : gset string).

Definition candidate (f : StoredSyncFrame) : Prop := sf_buffer_key f ∉ excluded.
Definition delta_to (f : StoredSyncFrame) : Z := Z.abs (sf_timestamp_ms f - anchor).

Definition nearest_of (l : list StoredSyncFrame) (acc : option (StoredSyncFrame * Z)) : Prop :=
  match acc with
  | None => forall g, g ∈ l -> candidate g -> window < delta_to g
  | Some (f, d) =>
      d = delta_to f /\ d <= window /\ candidate f /\
      exists l1 l2, l = l1 ++ f :: l2 /\
        (forall g, g ∈ l1 -> candidate g -> d < delta_to g) /\
        (forall g, g ∈ l2 -> candidate g -> d <= delta_to g)
  end.

Lemma nearest_loop l k acc :
  nearest_of l acc -> nearest_of (l ++ k) (foldl (nearest_step anchor window excluded) acc k).
Proof.
  revert l acc. induction k as [|x k IH]; intros l acc H; cbn [foldl].
  { by rewrite app_nil_r. }
  replace (l ++ x :: k) with ((l ++ [x]) ++ k) by by rewrite <- app_assoc.
  apply IH. clear IH k. unfold nearest_step.
  case_bool_decide as Hx.
  - destruct acc as [[f d]|]; cbn in *.
    + destruct H as (? & ? & ? & l1 & l2 & -> & H1 & H2). split_and!; [done..|].
      exists l1, (l2 ++ [x]). split; [by rewrite <- app_assoc|]. split; [done|].
      intros g [Hg|Hg]%elem_of_app Hc; [by apply H2|]. apply list_elem_of_singleton in Hg as ->.
      done.
    + intros g [Hg|Hg]%elem_of_app Hc; [by apply H|]. apply list_elem_of_singleton in Hg as ->.
      done.
  - fold (delta_to x). destruct acc as [[f d]|]; cbn in *.
    + destruct H as (-> & ? & ? & l1 & l2 & -> & H1 & H2).
      destruct (Z.leb_spec (delta_to x) window); cbn; [destruct (Z.ltb_spec (delta_to x) (delta_to f))|].
      * split_and!; [done..|]. exists (l1 ++ f :: l2), []. split_and!; [done| |set_solver].
        intros g [Hg|[->|Hg]%elem_of_cons]%elem_of_app Hc; [|lia|].
        -- specialize (H1 _ Hg Hc). lia.
        -- specialize (H2 _ Hg Hc). lia.
      * split_and!; [done..|]. exists l1, (l2 ++ [x]). split; [by rewrite <- app_assoc|].
        split; [done|]. intros g [Hg|Hg]%elem_of_app Hc; [by apply H2|].
        by apply list_elem_of_singleton in Hg as ->.
      * split_and!; [done..|]. exists l1, (l2 ++ [x]). split; [by rewrite <- app_assoc|].
        split; [done|]. intros g [Hg|Hg]%elem_of_app Hc; [by apply H2|].
        apply list_elem_of_singleton in Hg as ->. lia.
    + destruct (Z.leb_spec (delta_to x) window); cbn.
      * split_and!; [done..|]. exists l, []. split_and!; [done| |set_solver].
        intros g Hg Hc. specialize (H _ Hg Hc). lia.
      * intros g [Hg|Hg]%elem_of_app Hc; [by apply H|].
        by apply list_elem_of_singleton in Hg as ->.
Qed.
End Nearest.

Lemma buffer_nearest_spec b anchor window ex :
  nearest_of anchor window (default ∅ ex) (cb_frames b)
    (foldl (nearest_step anchor window (default ∅ ex)) None (cb_frames b)).
Proof. apply (nearest_loop _ _ _ [] _ None). intros g Hg. by apply elem_of_nil in Hg. Qed.

Lemma frame_leb_spec x y :
  frame_leb x y = true <->
  sf_timestamp_ms x < sf_timestamp_ms y \/
  (sf_timestamp_ms x = sf_timestamp_ms y /\
   String.leb (sf_buffer_key x) (sf_buffer_key y) = true).
Proof.
  unfold frame_leb, lex_leb. by bools.
Qed.

Lemma frame_leb_total x y : frame_leb x y = true \/ frame_leb y x = true.
Proof.
  rewrite !frame_leb_spec. destruct (string_leb_total (sf_buffer_key x) (sf_buffer_key y));
    destruct (Z.lt_trichotomy (sf_timestamp_ms x) (sf_timestamp_ms y)) as [?|[?|?]]; auto.
Qed.

Lemma frame_leb_trans x y z :
  frame_leb x y = true -> frame_leb y z = true -> frame_leb x z = true.
Proof.
  rewrite !frame_leb_spec. intros [?|[? ?]] [?|[? ?]]; [left; lia..|].
  right. split; [lia|]. by eapply string_leb_trans.
Qed.

Lemma available_frames_sorted b ex :
  StronglySorted (le_by frame_leb) (buffer_available_frames b ex).
Proof. apply sort_by_sorted; [apply frame_leb_total|apply frame_leb_trans]. Qed.

Lemma elem_of_available_frames b ex f :
  f ∈ buffer_available_frames b ex <->
  f ∈ cb_frames b /\ sf_buffer_key f ∉ default ∅ ex.
Proof. unfold buffer_available_frames. rewrite elem_of_sort_by, list_elem_of_filter. naive_solver. Qed.

(** ** The manager's invariant

    What every buffer and the index satisfy after any sequence of
    operations: sizes bounded by [buffer_size], the retained keys of the
    buffers distinct and exactly the keys of the index. *)

Record buffer_ok (buffer_size : Z) (device_id : string) (b : CameraSyncBuffer) : Prop := {
  bok_max : cb_max_frames b = buffer_size;
  bok_frames : Z.of_nat (length (cb_frames b)) <= buffer_size;
  bok_retained : Z.of_nat (length (cb_retained_keys b)) <= buffer_size;
  bok_NoDup : NoDup (cb_retained_keys b);
  bok_device : Forall (fun f => sf_device_id f = device_id) (cb_frames b);
}.

Record manager_ok (m : SyncFrameBufferManager) : Prop := {
  mok_size : 1 <= bm_buffer_size m;
  mok_buffers : map_Forall (buffer_ok (bm_buffer_size m)) (bm_buffers m);
  mok_index : forall key f, bm_frames_by_key m !! key = Some f ->
    sf_buffer_key f = key /\
    exists b, bm_buffers m !! sf_device_id f = Some b /\ key ∈ cb_retained_keys b;
  mok_retained : forall device_id b key,
    bm_buffers m !! device_id = Some b -> key ∈ cb_retained_keys b ->
    exists f, bm_frames_by_key m !! key = Some f /\ sf_device_id f = device_id;
}.

Lemma buffer_ok_new size device_id : 1 <= size -> buffer_ok size device_id (new_CameraSyncBuffer size).
Proof. intros. split; cbn; try lia; constructor. Qed.

Lemma manager_ok_empty size a b c d :
  1 <= size -> manager_ok (mkSyncFrameBufferManager size ∅ ∅ a b c d).
Proof.
  intros. split; cbn; [done|apply map_Forall_empty|..]; intros *; by rewrite lookup_empty.
Qed.

(** The counters play no part in the invariant. *)
Lemma manager_ok_same m m' :
  bm_buffer_size m' = bm_buffer_size m -> bm_buffers m' = bm_buffers m ->
  bm_frames_by_key m' = bm_frames_by_key m -> manager_ok m -> manager_ok m'.
Proof. intros E1 E2 E3 []. split; by rewrite ?E1, ?E2, ?E3. Qed.

(** Replacing the frames of one buffer by frames of the same device. *)
Lemma manager_ok_set_buffer m device_id b b' :
  manager_ok m -> bm_buffers m !! device_id = Some b ->
  cb_retained_keys b' = cb_retained_keys b ->
  buffer_ok (bm_buffer_size m) device_id b' ->
  manager_ok (m <| bm_buffers ::= <[device_id := b']> |>).
Proof.
  intros [Hs Hb Hi Hr] Hl Hk Hok. split; cbn.
  - done.
  - by apply map_Forall_insert_2.
  - intros key f Hf. destruct (Hi _ _ Hf) as (E & b0 & Hb0 & Hin). split; [done|].
    destruct (decide (sf_device_id f = device_id)) as [Ed|Hne].
    + exists b'. rewrite Ed in *. rewrite lookup_insert_eq. split; [done|]. rewrite Hk.
      congruence.
    + exists b0. by rewrite lookup_insert_ne.
  - intros d b0 key. rewrite lookup_insert_Some. intros [[<- <-]|[Hne Hb0]] Hin.
    + rewrite Hk in Hin. by eapply Hr.
    + by eapply Hr.
Qed.

Lemma buffer_ok_sub size device_id b l :
  buffer_ok size device_id b -> (length l <= length (cb_frames b))%nat ->
  Forall (fun f => sf_device_id f = device_id) l ->
  buffer_ok size device_id (b <| cb_frames := l |>).
Proof. intros [] Hl Hf. split; cbn; try done. lia. Qed.

Lemma buffer_ok_filter size device_id b (P : StoredSyncFrame -> Prop) `{forall x, Decision (P x)} :
  buffer_ok size device_id b ->
  buffer_ok size device_id (b <| cb_frames := filter P (cb_frames b) |>).
Proof.
  intros Hb. apply buffer_ok_sub; [done|apply length_filter|].
  apply Forall_forall. intros f [_ Hf]%list_elem_of_filter.
  destruct Hb as [_ _ _ _ Hd]. by eapply Forall_forall in Hd.
Qed.

Lemma buffer_ok_append size device_id b f :
  1 <= size -> buffer_ok size device_id b -> sf_device_id f = device_id ->
  buffer_ok size device_id (append b f).
Proof.
  intros Hs [Hm Hf Hr Hn Hd] Hdev. split.
  - by rewrite append_max_frames.
  - rewrite append_frames, Hm.
    pose proof (deque_trim_length size (cb_frames (adopt_identity b f) ++ [f])).
    unfold deque_append. lia.
  - by rewrite append_retained.
  - by rewrite append_retained.
  - apply Forall_forall. intros g. rewrite append_frames.
    intros [Hg| ->]%elem_of_deque_append; [|done].
    destruct (adopt_frames_cases b f) as [E|E]; rewrite E in Hg; [|by apply elem_of_nil in Hg].
    by eapply Forall_forall in Hd.
Qed.

Lemma evict_retained_spec n keys idx keys' idx' :
  0 <= n -> evict_retained n keys idx = (keys', idx') ->
  keys' = deque_trim n keys /\
  exists dropped, keys = dropped ++ keys' /\
    forall k, idx' !! k = if decide (k ∈ dropped) then None else idx !! k.
Proof.
  intros Hn. revert idx. induction keys as [|k keys IH]; intros idx; cbn [evict_retained].
  { intros [= <- <-]. split; [done|]. exists []. split; [done|].
    intros k. by rewrite decide_False by set_solver. }
  destruct (Z.ltb_spec n (Z.of_nat (length (k :: keys)))) as [Hlt|Hge]; cbn [length] in *.
  - intros (-> & dropped & E & Hk)%IH. split.
    + unfold deque_trim. cbn [length].
      replace (S (length keys) - Z.to_nat n)%nat with (S (length keys - Z.to_nat n)) by lia. done.
    + exists (k :: dropped). split; [by rewrite E at 1|]. intros k'. rewrite Hk.
      destruct (decide (k = k')) as [->|Hne].
      * rewrite lookup_delete_eq. rewrite (decide_True (P := k' ∈ k' :: dropped)) by set_solver.
        by case_decide.
      * rewrite lookup_delete_ne by done. repeat case_decide; set_solver.
  - intros [= <- <-]. split; [symmetry; apply deque_trim_id; cbn; lia|].
    exists []. split; [done|]. intros k'. by rewrite decide_False by set_solver.
Qed.

(** The three outcomes of [add_stored]. *)
Inductive add_outcome (m : SyncFrameBufferManager) (f : StoredSyncFrame)
  : SyncFrameBufferManager * option StoredSyncFrame -> Prop :=
| AddDuplicate g :
    bm_frames_by_key m !! sf_buffer_key f = Some g ->
    add_outcome m f (m <| bm_duplicate_frame_count ::= Z.succ |>, None)
| AddOutOfOrder b :
    bm_frames_by_key m !! sf_buffer_key f = None ->
    bm_buffers m !! sf_device_id f = Some b -> is_out_of_order b f = true ->
    add_outcome m f (m <| bm_buffers ::= <[sf_device_id f := b]> |>
                       <| bm_out_of_order_frame_count ::= Z.succ |>, None)
| AddAccepted b dropped index evicted :
    bm_frames_by_key m !! sf_buffer_key f = None ->
    b = default (new_CameraSyncBuffer (bm_buffer_size m)) (bm_buffers m !! sf_device_id f) ->
    is_out_of_order b f = false ->
    evicted = (if Z.of_nat (length (cb_frames b)) =? bm_buffer_size m
               then Z.succ (bm_evicted_frame_count m) else bm_evicted_frame_count m) ->
    cb_retained_keys b ++ [sf_buffer_key f] =
      dropped ++ deque_append (bm_buffer_size m) (cb_retained_keys b) (sf_buffer_key f) ->
    (forall k, index !! k = if decide (k ∈ dropped) then None
                           else <[sf_buffer_key f := f]> (bm_frames_by_key m) !! k) ->
    add_outcome m f
      (mkSyncFrameBufferManager (bm_buffer_size m)
         (<[sf_device_id f := (append b f) <| cb_retained_keys :=
              deque_append (bm_buffer_size m) (cb_retained_keys b) (sf_buffer_key f) |>]>
            (bm_buffers m))
         index (Z.succ (bm_received_count m)) (bm_duplicate_frame_count m)
         (bm_out_of_order_frame_count m) evicted, Some f).

Lemma add_stored_outcome m f : 0 <= bm_buffer_size m -> add_outcome m f (add_stored m f).
Proof.
  intros Hs. unfold add_stored. destruct (bm_frames_by_key m !! sf_buffer_key f) as [g|] eqn:Hk.
  { by eapply AddDuplicate. }
  destruct (is_out_of_order _ f) eqn:Ho.
  - destruct (bm_buffers m !! sf_device_id f) as [b|] eqn:Hb.
    + cbn. by eapply AddOutOfOrder.
    + exfalso. revert Ho. unfold is_out_of_order. cbn. by rewrite andb_false_r.
  - set (m1 := if _ =? _ then _ else _).
    destruct (evict_retained _ _ _) as [keys idx] eqn:He.
    assert (bm_buffer_size m1 = bm_buffer_size m /\
            bm_frames_by_key m1 = bm_frames_by_key m /\
            bm_buffers m1 = <[sf_device_id f := default (new_CameraSyncBuffer (bm_buffer_size m))
                              (bm_buffers m !! sf_device_id f)]> (bm_buffers m))
      as (E1 & E2 & E3) by (subst m1; case_match; done).
    rewrite append_retained, E1, E2 in He.
    apply evict_retained_spec in He as (-> & dropped & E & Hidx); [|done].
    assert (forall x y, x = y -> add_outcome m f x -> add_outcome m f y) as Hsub by congruence.
    eapply Hsub; [|eapply (AddAccepted m f _ dropped idx _); try done].
    subst m1. cbn. destruct (_ =? _); cbn; by rewrite insert_insert_eq.
Qed.

Lemma manager_ok_add m f : manager_ok m -> manager_ok (add_stored m f).1.
Proof.
  intros Hm. destruct (add_stored_outcome m f) as [g Hg|b Hk Hb Ho|b dropped idx ev Hk Hb Ho _ Hd Hidx].
  { pose proof (mok_size m Hm). lia. }
  { by apply (manager_ok_same m). }
  { apply (manager_ok_same m); [done| |done|exact Hm]. cbn. by apply insert_id. }
  cbn. pose proof Hm as [Hs Hbs Hi Hr].
  assert (buffer_ok (bm_buffer_size m) (sf_device_id f) b) as Hbok.
  { subst b. destruct (bm_buffers m !! sf_device_id f) eqn:E; cbn; [by apply Hbs in E|].
    by apply buffer_ok_new. }
  assert (forall k, k ∈ cb_retained_keys b -> exists g, bm_frames_by_key m !! k = Some g /\
            sf_device_id g = sf_device_id f) as Hold.
  { intros k Hin. destruct (bm_buffers m !! sf_device_id f) as [b0|] eqn:E; subst b; cbn in *.
    - by eapply Hr.
    - by apply elem_of_nil in Hin. }
  assert (NoDup (cb_retained_keys b ++ [sf_buffer_key f])) as Hnd.
  { apply NoDup_app. split; [by destruct Hbok|]. split; [|apply NoDup_singleton].
    intros k Hin ->%list_elem_of_singleton. destruct (Hold _ Hin) as (g & Hg & _). congruence. }
  set (kept := deque_append _ _ _) in *. rewrite Hd in Hnd.
  apply NoDup_app in Hnd as (_ & Hdisj & Hnd).
  assert (forall k, k ∈ kept -> k = sf_buffer_key f \/ k ∈ cb_retained_keys b) as Hkept.
  { intros k [Hin| ->]%elem_of_deque_append; auto. }
  split; cbn.
  - done.
  - apply map_Forall_insert_2; [|done].
    pose proof (buffer_ok_append _ _ _ f Hs Hbok eq_refl) as [H1 H2 H3 H4 H5].
    split; cbn; try done. unfold kept, deque_append.
    pose proof (deque_trim_length (bm_buffer_size m) (cb_retained_keys b ++ [sf_buffer_key f])). lia.
  - intros key g. rewrite Hidx. case_decide as Hnin; [done|].
    rewrite lookup_insert_Some. intros [[<- <-]|[Hne Hg]].
    + split; [done|]. eexists. rewrite lookup_insert_eq. split; [done|]. cbn.
      destruct (decide (sf_buffer_key f ∈ kept)) as [|Hnk]; [done|]. exfalso.
      assert (sf_buffer_key f ∈ dropped ++ kept) as Hin by (rewrite <- Hd; set_solver).
      set_solver.
    + destruct (Hi _ _ Hg) as (E & b0 & Hb0 & Hin). split; [done|].
      destruct (decide (sf_device_id g = sf_device_id f)) as [Heq|Hned].
      * eexists. rewrite Heq, lookup_insert_eq. split; [done|]. cbn.
        rewrite Heq in Hb0. rewrite Hb0 in Hb. cbn in Hb. subst b0.
        assert (key ∈ dropped ++ kept) as Hk' by (rewrite <- Hd; set_solver). set_solver.
      * exists b0. by rewrite lookup_insert_ne.
  - intros d b0 key. rewrite lookup_insert_Some. intros [[<- <-]|[Hne Hb0]] Hin.
    + cbn in Hin. rewrite Hidx. rewrite decide_False by (intros ?; by eapply Hdisj).
      destruct (decide (key = sf_buffer_key f)) as [->|Hnk].
      * rewrite lookup_insert_eq. eauto.
      * rewrite lookup_insert_ne by done. apply Hold.
        by destruct (Hkept _ Hin) as [?|?].
    + destruct (Hr _ _ _ Hb0 Hin) as (g & Hg & Hdg). exists g. split; [|done].
      rewrite Hidx, decide_False, lookup_insert_ne; [done|congruence|].
      intros Hindrop. assert (key ∈ cb_retained_keys b ++ [sf_buffer_key f]) as Hin'
        by (rewrite Hd; set_solver).
      apply elem_of_app in Hin' as [Hin'|Hin'%list_elem_of_singleton]; [|congruence].
      destruct (Hold _ Hin') as (g' & Hg' & ?). congruence.
Qed.

Lemma manager_ok_drop m ds ts ex : manager_ok m -> manager_ok (drop_frames_older_than m ds ts ex).1.
Proof.
  revert m. induction ds as [|d ds IH]; intros m Hm; cbn [drop_frames_older_than]; [done|].
  destruct (bm_buffers m !! d) as [b|] eqn:Hb; [|by apply IH].
  pose proof (mok_buffers m Hm _ _ Hb) as Hbok.
  rewrite drop_loop_eq by (destruct Hbok as [-> ?]; done).
  destruct (drop_frames_older_than _ ds ts ex) as [m' n'] eqn:E. cbn.
  change m' with ((m', n').1). rewrite <- E. apply IH.
  eapply manager_ok_set_buffer; [done..|]. by apply buffer_ok_filter.
Qed.

Lemma manager_ok_consume m sel : manager_ok m -> manager_ok (consume_through m sel).1.
Proof.
  revert m. induction sel as [|[d c] sel IH]; intros m Hm; cbn [consume_through]; [done|].
  destruct (bm_buffers m !! d) as [b|] eqn:Hb; [|done].
  pose proof (mok_buffers m Hm _ _ Hb) as Hbok.
  rewrite consume_loop_eq by (destruct Hbok as [-> ?]; done).
  destruct (consume_through _ sel) as [m' r] eqn:E. cbn.
  change m' with ((m', r).1). rewrite <- E. apply IH.
  eapply manager_ok_set_buffer; [done..|]. by apply buffer_ok_filter.
Qed.

Lemma manager_ok_finalize m k i p s e : manager_ok m -> manager_ok (finalize_archive m k i p s e).1.
Proof.
  intros Hm. unfold finalize_archive. destruct (bm_frames_by_key m !! k) as [f|] eqn:Hf; [|done].
  pose proof Hm as [Hs Hbs Hi Hr].
  set (u := archived f i p s e).
  assert (manager_ok (m <| bm_frames_by_key ::= <[k := u]> |>)) as Hm'.
  { split; cbn; [done..| |].
    - intros key g. rewrite lookup_insert_Some. intros [[<- <-]|[? Hg]]; [|by apply Hi].
      exact (Hi _ _ Hf).
    - intros d b key Hb Hin. destruct (Hr _ _ _ Hb Hin) as (g & Hg & Hd).
      destruct (decide (key = k)) as [->|Hne].
      + rewrite lookup_insert_eq. exists u. split; [done|]. cbn. congruence.
      + rewrite lookup_insert_ne by done. eauto. }
  cbn. destruct (bm_buffers m !! sf_device_id f) as [b|] eqn:Hb; [|done].
  apply (manager_ok_set_buffer _ _ b (buffer_replace b k u) Hm'); [done..|].
  pose proof (Hbs _ _ Hb) as Hbok. apply buffer_ok_sub; [done| |].
  - unfold deque_trim. rewrite length_drop, length_fmap. lia.
  - apply Forall_drop, Forall_fmap. destruct Hbok as [_ _ _ _ Hd].
    eapply Forall_impl; [exact Hd|]. intros g Hg. cbn. by case_bool_decide.
Qed.

(** ** Memory *)

Lemma length_concat_le {A} (n : nat) (ls : list (list A)) :
  Forall (fun l => length l <= n)%nat ls -> (length (mjoin ls) <= length ls * n)%nat.
Proof.
  induction 1 as [|l ls Hl Hls IH]; [done|]. change (mjoin (l :: ls)) with (l ++ mjoin ls).
  rewrite length_app. cbn [length]. lia.
Qed.

Lemma size_list_to_set_le (l : list string) :
  (size (list_to_set l : gset string) <= length l)%nat.
Proof.
  induction l as [|x l IH]; cbn [list_to_set]; [by rewrite size_empty|].
  rewrite size_union_alt, size_singleton. cbn [length].
  pose proof (subseteq_size (list_to_set l ∖ {[x]} : gset string) (list_to_set l)
                ltac:(set_solver)). lia.
Qed.

Lemma index_size m : manager_ok m ->
  Z.of_nat (size (bm_frames_by_key m)) <= Z.of_nat (size (bm_buffers m)) * bm_buffer_size m.
Proof.
  intros [Hs Hbs Hi Hr].
  set (keys := mjoin ((fun kb : string * CameraSyncBuffer => cb_retained_keys kb.2) <$>
                       map_to_list (bm_buffers m))).
  assert (dom (bm_frames_by_key m) ⊆ (list_to_set keys : gset string)) as Hsub.
  { intros key [f Hf]%elem_of_dom. destruct (Hi _ _ Hf) as (_ & b & Hb & Hin).
    apply elem_of_list_to_set, list_elem_of_join. exists (cb_retained_keys b). split; [done|].
    apply list_elem_of_fmap. exists (sf_device_id f, b). split; [done|].
    by apply elem_of_map_to_list. }
  apply subseteq_size in Hsub. rewrite size_dom in Hsub.
  pose proof (size_list_to_set_le keys) as H1.
  assert (length keys <= size (bm_buffers m) * Z.to_nat (bm_buffer_size m))%nat as H2.
  { rewrite <- length_map_to_list. unfold keys.
    erewrite <- (length_fmap _ (map_to_list _)) at 1. apply length_concat_le.
    apply Forall_fmap, Forall_forall. intros [d b] Hin%elem_of_map_to_list. cbn.
    destruct (Hbs _ _ Hin). lia. }
  nia.
Qed.

(** ** Ordered sources

    Frames of one V2 source arrive in order: the buffer holds them sorted,
    and its frames are the newest of the retained ones. *)

Definition v2_frame (f : StoredSyncFrame) : Prop :=
  sf_identity_mode f = IDENTITY_MODE_V2 /\ is_Some (sf_sequence f).

(** [x] precedes [y] in its source. *)
Definition precedes (x y : StoredSyncFrame) : Prop :=
  exists i j, sf_sequence x = Some i /\ sf_sequence y = Some j /\ i < j /\
              sf_timestamp_ms x <= sf_timestamp_ms y.

(** [f] is not newer than the last frame the buffer has accepted. *)
Definition seen (b : CameraSyncBuffer) (f : StoredSyncFrame) : Prop :=
  exists i j t, sf_sequence f = Some i /\ cb_last_sequence b = Some j /\ i <= j /\
                cb_last_timestamp_ms b = Some t /\ sf_timestamp_ms f <= t.

Record buffer_ordered (index : gmap string StoredSyncFrame) (b : CameraSyncBuffer) : Prop := {
  bo_source : Forall (fun f => v2_frame f /\ Some (frame_identity f) = cb_source_identity b)
                     (cb_frames b);
  bo_sorted : StronglySorted precedes (cb_frames b);
  bo_seen : Forall (seen b) (cb_frames b);
  bo_keys : (sf_buffer_key <$> cb_frames b) `suffix_of` cb_retained_keys b;
  bo_index : Forall (fun f => index !! sf_buffer_key f = Some f) (cb_frames b);
}.

Definition manager_ordered (m : SyncFrameBufferManager) : Prop :=
  map_Forall (fun _ => buffer_ordered (bm_frames_by_key m)) (bm_buffers m).

Lemma precedes_trans x y z : precedes x y -> precedes y z -> precedes x z.
Proof. intros (i & j & ? & ? & ? & ?) (j' & k & ? & ? & ? & ?). exists i, k. naive_solver lia. Qed.

Lemma not_out_of_order b f :
  is_out_of_order b f = false -> v2_frame f -> Some (frame_identity f) = cb_source_identity b ->
  (forall j, cb_last_sequence b = Some j -> exists i, sf_sequence f = Some i /\ j < i) /\
  (forall t, cb_last_timestamp_ms b = Some t -> t <= sf_timestamp_ms f).
Proof.
  unfold is_out_of_order. intros Ho [Em [i Hi]] Es. rewrite Em, Es, Hi in Ho. rewrite Hi.
  rewrite !bool_decide_eq_true_2 in Ho by done. cbn in Ho.
  apply orb_false_iff in Ho as [H1 H2]. split.
  - intros j Hj. rewrite Hj in H1. apply Z.leb_gt in H1. eauto.
  - intros t Ht. rewrite Ht in H2. by apply Z.ltb_ge in H2.
Qed.

Lemma StronglySorted_suffix {A} (R : A -> A -> Prop) l k :
  l `suffix_of` k -> StronglySorted R k -> StronglySorted R l.
Proof. intros [p ->]. induction p as [|x p IH]; [done|]. inversion 1; auto. Qed.

Lemma Forall_suffix {A} (P : A -> Prop) l k : l `suffix_of` k -> Forall P k -> Forall P l.
Proof. intros [p ->]. by intros [_ ?]%Forall_app. Qed.

Lemma StronglySorted_map {A B} (R : A -> A -> Prop) (R' : B -> B -> Prop) (f : A -> B) l :
  (forall x y, x ∈ l -> y ∈ l -> R x y -> R' (f x) (f y)) ->
  StronglySorted R l -> StronglySorted R' (f <$> l).
Proof.
  intros Hf. induction 1 as [|x l Hl IH Hx]; cbn; [constructor|]. constructor.
  - apply IH. intros y z Hy Hz. apply Hf; by right.
  - apply Forall_fmap, Forall_forall. intros y Hy. cbn. rewrite Forall_forall in Hx.
    apply Hf; [left|by right|by apply Hx].
Qed.

Lemma StronglySorted_snoc {A} (R : A -> A -> Prop) l x :
  StronglySorted R l -> Forall (fun y => R y x) l -> StronglySorted R (l ++ [x]).
Proof.
  induction 1 as [|y l Hl IH Hy]; intros Hx; cbn; [repeat constructor|].
  apply Forall_cons in Hx as [Hyx Hx]. constructor; [by apply IH|].
  apply Forall_app. split; [done|]. by apply Forall_singleton.
Qed.

(** A filter on the timestamps of a sorted buffer cuts off a prefix. *)
Lemma filter_sorted_suffix (p : Z -> bool) l :
  (forall s t, s <= t -> p t = true -> p s = true) -> StronglySorted precedes l ->
  filter (fun f => p (sf_timestamp_ms f) = false) l `suffix_of` l.
Proof.
  intros Hmono. induction 1 as [|f l Hl IH Hf]; [done|]. rewrite filter_cons.
  case_decide as Hp.
  - rewrite filter_all; [done|].
    eapply Forall_impl; [exact Hf|]. intros g (i & j & _ & _ & _ & Hle).
    apply not_true_iff_false. intros Hg. specialize (Hmono _ _ Hle Hg). congruence.
  - by apply suffix_cons_r.
Qed.

Lemma buffer_ordered_suffix idx b l :
  l `suffix_of` cb_frames b -> buffer_ordered idx b -> buffer_ordered idx (b <| cb_frames := l |>).
Proof.
  intros Hl [H1 H2 H3 H4 H5]. split; cbn.
  - by eapply Forall_suffix.
  - by eapply StronglySorted_suffix.
  - by eapply Forall_suffix.
  - etrans; [|exact H4]. destruct Hl as [p ->]. rewrite fmap_app. by apply suffix_app_r.
  - by eapply Forall_suffix.
Qed.

Lemma buffer_ordered_new idx size : buffer_ordered idx (new_CameraSyncBuffer size).
Proof. split; cbn; try constructor. exists []. done. Qed.

Lemma manager_ordered_drop m ds ts ex :
  manager_ok m -> manager_ordered m -> manager_ordered (drop_frames_older_than m ds ts ex).1.
Proof.
  revert m. induction ds as [|d ds IH]; intros m Hm Ho; cbn [drop_frames_older_than]; [done|].
  destruct (bm_buffers m !! d) as [b|] eqn:Hb; [|by apply IH].
  pose proof (mok_buffers m Hm _ _ Hb) as Hbok.
  rewrite drop_loop_eq by (destruct Hbok as [-> ?]; done).
  destruct (drop_frames_older_than _ ds ts ex) as [m' n'] eqn:E. cbn.
  change m' with ((m', n').1). rewrite <- E. apply IH.
  - eapply manager_ok_set_buffer; [done..|]. by apply buffer_ok_filter.
  - apply map_Forall_insert_2; [|done]. pose proof (Ho _ _ Hb) as Hbo.
    apply buffer_ordered_suffix; [|done].
    apply (filter_sorted_suffix (fun t => t <? ts)); [|by destruct Hbo].
    intros s t Hst. rewrite !Z.ltb_lt. lia.
Qed.

Lemma manager_ordered_consume m sel :
  manager_ok m -> manager_ordered m -> manager_ordered (consume_through m sel).1.
Proof.
  revert m. induction sel as [|[d c] sel IH]; intros m Hm Ho; cbn [consume_through]; [done|].
  destruct (bm_buffers m !! d) as [b|] eqn:Hb; [|done].
  pose proof (mok_buffers m Hm _ _ Hb) as Hbok.
  rewrite consume_loop_eq by (destruct Hbok as [-> ?]; done).
  destruct (consume_through _ sel) as [m' r] eqn:E. cbn.
  change m' with ((m', r).1). rewrite <- E. apply IH.
  - eapply manager_ok_set_buffer; [done..|]. by apply buffer_ok_filter.
  - apply map_Forall_insert_2; [|done]. pose proof (Ho _ _ Hb) as Hbo.
    apply buffer_ordered_suffix; [|done].
    apply (filter_sorted_suffix (fun t => t <=? sf_timestamp_ms c)); [|by destruct Hbo].
    intros s t Hst. rewrite !Z.leb_le. lia.
Qed.

(** Appending an accepted frame to an ordered buffer. *)
Lemma append_ordered idx b f :
  buffer_ordered idx b -> v2_frame f -> is_out_of_order b f = false ->
  Forall (fun g => precedes g f) (cb_frames (adopt_identity b f)) /\
  StronglySorted precedes (cb_frames (adopt_identity b f)).
Proof.
  intros [H1 H2 H3 H4 H5] Hv Ho. unfold adopt_identity. case_bool_decide as E; [|by repeat constructor].
  destruct (not_out_of_order _ _ Ho Hv E) as [Hseq Hts]. split; [|done].
  eapply Forall_impl; [exact H3|]. intros g (i & j & t & Hi & Hj & Hij & Ht & Hle).
  destruct (Hseq _ Hj) as (k & Hk & Hjk). specialize (Hts _ Ht).
  exists i, k. split_and!; [done|done|lia|lia].
Qed.

Lemma seen_append b f g :
  v2_frame f -> g = f \/ precedes g f -> seen (append b f) g.
Proof.
  intros [Hm [i Hi]] Hg. unfold seen. rewrite append_last_sequence, append_last_timestamp, Hi.
  destruct Hg as [->|(a & c & ? & ? & ? & ?)].
  - exists i, i, (sf_timestamp_ms f). split_and!; [done|done|lia|done|lia].
  - exists a, i, (sf_timestamp_ms f). simplify_eq. split_and!; [done|done|lia|done|lia].
Qed.

Lemma manager_ordered_add m f :
  manager_ok m -> manager_ordered m -> v2_frame f -> manager_ordered (add_stored m f).1.
Proof.
  intros Hm Ho Hv. pose proof (manager_ok_add m f Hm) as Hm'. revert Hm'.
  destruct (add_stored_outcome m f) as [g Hg|b Hk Hb Hooo|b dropped idx ev Hk Hb Hooo _ Hd Hidx];
    [by pose proof (mok_size m Hm); lia|done| |].
  { intros _. unfold manager_ordered. cbn. by rewrite insert_id. }
  cbn. intros Hm'.
  assert (buffer_ordered (bm_frames_by_key m) b) as Hbo.
  { subst b. destruct (bm_buffers m !! sf_device_id f) eqn:E; [by apply Ho in E|].
    apply buffer_ordered_new. }
  destruct (append_ordered _ _ _ Hbo Hv Hooo) as [Hprec Hsort].
  set (b' := append b f) in *.
  assert (cb_frames b' = deque_append (cb_max_frames b) (cb_frames (adopt_identity b f)) f) as Ef
    by apply append_frames.
  assert (cb_frames b' `suffix_of` cb_frames (adopt_identity b f) ++ [f]) as Hsuf
    by (rewrite Ef; apply deque_trim_suffix).
  assert (forall g, g ∈ cb_frames (adopt_identity b f) -> g ∈ cb_frames b) as Hadopt.
  { intros g. destruct (adopt_frames_cases b f) as [-> | ->]; [done|by intros ?%elem_of_nil]. }
  assert (cb_max_frames b = bm_buffer_size m) as Emax.
  { pose proof (mok_buffers _ Hm' _ _ (lookup_insert_eq _ _ _)) as [Hmax _ _ _ _].
    change (cb_max_frames (append b f) = bm_buffer_size m) in Hmax.
    by rewrite append_max_frames in Hmax. }
  assert ((sf_buffer_key <$> cb_frames b') `suffix_of`
          deque_append (bm_buffer_size m) (cb_retained_keys b) (sf_buffer_key f)) as Hkeys.
  { rewrite Ef, Emax. unfold deque_append. rewrite deque_trim_fmap.
    apply deque_trim_suffix_mono. rewrite fmap_app.
    destruct (adopt_frames_cases b f) as [-> | ->]; cbn.
    - destruct (bo_keys _ _ Hbo) as [p ->]. exists p. by rewrite <- app_assoc.
    - by eexists. }
  assert (Forall (fun g => g = f \/ precedes g f) (cb_frames b')) as Hnew.
  { eapply Forall_suffix; [exact Hsuf|]. apply Forall_app. split; [|by constructor; [left|]].
    eapply Forall_impl; [exact Hprec|]. auto. }
  assert (forall d b0 g, <[sf_device_id f := b' <| cb_retained_keys :=
              deque_append (bm_buffer_size m) (cb_retained_keys b) (sf_buffer_key f) |>]>
            (bm_buffers m) !! d = Some b0 -> sf_buffer_key g ∈ cb_retained_keys b0 ->
            g = f \/ bm_frames_by_key m !! sf_buffer_key g = Some g ->
            idx !! sf_buffer_key g = Some g) as Hindex.
  { intros d b0 g Hb0 Hin Hg.
    destruct (mok_retained _ Hm' d _ _ Hb0 Hin) as (h & Hh & _). cbn in Hh. rewrite Hh.
    rewrite Hidx in Hh. case_decide; [done|].
    destruct Hg as [->|Hg]; [by simplify_map_eq|].
    rewrite lookup_insert_ne in Hh by congruence. congruence. }
  intros d b0 Hb0. cbn in Hb0. pose proof Hb0 as Hl. apply lookup_insert_Some in Hb0 as [[<- <-]|[Hne Hb0]].
  - split; cbn.
    + eapply Forall_suffix; [exact Hsuf|]. unfold b'. rewrite append_identity.
      apply Forall_app. split; [|by repeat constructor; apply Hv].
      unfold adopt_identity. case_bool_decide as E; [|constructor].
      rewrite E. exact (bo_source _ _ Hbo).
    + eapply StronglySorted_suffix; [exact Hsuf|]. by apply StronglySorted_snoc.
    + eapply Forall_impl; [exact Hnew|]. intros g Hg. by apply seen_append.
    + exact Hkeys.
    + apply Forall_forall. intros g Hg. eapply (Hindex _ _ _ Hl).
      * cbn. destruct Hkeys as [p ->]. apply elem_of_app. right. by apply list_elem_of_fmap_2.
      * destruct Hsuf as [p E].
        assert (g ∈ cb_frames (adopt_identity b f) ++ [f]) as Hg'
          by (rewrite E; apply elem_of_app; auto).
        apply elem_of_app in Hg' as [Hg'|Hg'%list_elem_of_singleton]; [right|auto].
        pose proof (bo_index _ _ Hbo) as Hi. by eapply Forall_forall in Hi; [|apply Hadopt].
  - pose proof (Ho _ _ Hb0) as [H1 H2 H3 H4 H5]. split; [done..|].
    apply Forall_forall. intros g Hg. eapply (Hindex _ _ _ Hl).
    + destruct H4 as [p ->]. apply elem_of_app. right. by apply list_elem_of_fmap_2.
    + right. by eapply Forall_forall in H5.
Qed.

Lemma manager_ordered_finalize m k i p s e :
  manager_ok m -> manager_ordered m -> manager_ordered (finalize_archive m k i p s e).1.
Proof.
  intros Hm Ho. unfold finalize_archive. destruct (bm_frames_by_key m !! k) as [f|] eqn:Hf; [|done].
  cbn. destruct (mok_index m Hm _ _ Hf) as (Hkey & b & Hb & Hin). rewrite Hb. cbn.
  set (u := archived f i p s e).
  set (upd := fun item => if bool_decide (sf_buffer_key item = k) then u else item).
  assert (forall g, bm_frames_by_key m !! sf_buffer_key g = Some g ->
            sf_sequence (upd g) = sf_sequence g /\ sf_timestamp_ms (upd g) = sf_timestamp_ms g /\
            frame_identity (upd g) = frame_identity g /\ sf_identity_mode (upd g) = sf_identity_mode g /\
            sf_buffer_key (upd g) = sf_buffer_key g /\
            <[k := u]> (bm_frames_by_key m) !! sf_buffer_key (upd g) = Some (upd g)) as Hupd.
  { intros g Hg. unfold upd. case_bool_decide as E.
    - rewrite E in Hg. assert (g = f) as -> by congruence. cbn. rewrite Hkey, lookup_insert_eq. done.
    - rewrite lookup_insert_ne by done. done. }
  intros d b0 Hl. cbn [bm_buffers] in Hl.
  apply lookup_insert_Some in Hl as [[<- <-]|[Hne Hb0]]; cbn.
  - pose proof (Ho _ _ Hb) as [H1 H2 H3 H4 H5].
    pose proof (mok_buffers m Hm _ _ Hb) as [Hmax Hlen _ _ _].
    unfold buffer_replace. rewrite deque_trim_id by (rewrite length_fmap; lia).
    fold upd. rewrite Forall_forall in H1, H3, H5. split; cbn.
    + apply Forall_fmap, Forall_forall. intros g Hg. cbn.
      destruct (Hupd _ (H5 _ Hg)) as (E1 & _ & E2 & E3 & _).
      unfold v2_frame. rewrite E1, E2, E3. by apply H1.
    + eapply StronglySorted_map; [|exact H2]. intros g h Hg Hh (x & y & ? & ? & ? & ?).
      destruct (Hupd g (H5 _ Hg)) as (E1 & E2 & _).
      destruct (Hupd h (H5 _ Hh)) as (E3 & E4 & _).
      exists x, y. by rewrite E1, E2, E3, E4.
    + apply Forall_fmap, Forall_forall. intros g Hg. cbn.
      destruct (Hupd _ (H5 _ Hg)) as (E1 & E2 & _). unfold seen. cbn. rewrite E1, E2. by apply H3.
    + rewrite <- list_fmap_compose. erewrite list_fmap_ext; [exact H4|].
      intros j g Hg. cbn. apply Hupd, H5. by eapply list_elem_of_lookup_2.
    + apply Forall_fmap, Forall_forall. intros g Hg. cbn. by apply Hupd, H5.
  - pose proof (Ho _ _ Hb0) as [H1 H2 H3 H4 H5]. split; [done..|].
    rewrite Forall_forall in *. intros g Hg.
    rewrite lookup_insert_ne; [by apply H5|]. intros E.
    pose proof (H5 _ Hg) as Hidx. rewrite <- E, Hf in Hidx. injection Hidx as <-.
    destruct (mok_buffers m Hm _ _ Hb0) as [_ _ _ _ Hdev]. rewrite Forall_forall in Hdev.
    specialize (Hdev _ Hg). congruence.
Qed.

(** ** The buffers after an operation *)

Definition keep_after (c : StoredSyncFrame) (b : CameraSyncBuffer) : CameraSyncBuffer :=
  b <| cb_frames := filter (fun f => (sf_timestamp_ms f <=? sf_timestamp_ms c) = false)
                           (cb_frames b) |>.

Lemma manager_ok_len m d b :
  manager_ok m -> bm_buffers m !! d = Some b -> Z.of_nat (length (cb_frames b)) <= cb_max_frames b.
Proof. intros Hm Hb. destruct (mok_buffers m Hm _ _ Hb) as [-> ? _ _ _]. done. Qed.

Lemma consume_through_spec m sel :
  manager_ok m -> NoDup (sel.*1) -> (forall d, d ∈ sel.*1 -> is_Some (bm_buffers m !! d)) ->
  (exists n, (consume_through m sel).2 = Ok n /\ 0 <= n) /\
  bm_frames_by_key (consume_through m sel).1 = bm_frames_by_key m /\
  forall d, bm_buffers (consume_through m sel).1 !! d =
    match dict_get d sel with
    | Some c => keep_after c <$> bm_buffers m !! d
    | None => bm_buffers m !! d
    end.
Proof.
  revert m. induction sel as [|[d c] sel IH]; intros m Hm Hnd Hin; cbn [consume_through].
  { split_and!; [by exists 0|done|done]. }
  rewrite fmap_cons in Hnd, Hin. cbn [fst] in Hnd, Hin.
  apply NoDup_cons in Hnd as [Hd Hnd].
  destruct (Hin d) as [b Hb]; [left|]. rewrite Hb.
  rewrite consume_loop_eq by by eapply manager_ok_len.
  fold (keep_after c b). set (m1 := m <| bm_buffers ::= <[d := keep_after c b]> |>).
  destruct (IH m1) as ((n & E & Hn) & Hidx & Hl).
  - eapply manager_ok_set_buffer; [done..|]. apply buffer_ok_filter. by apply (mok_buffers m).
  - done.
  - intros d' Hd'. cbn. destruct (decide (d = d')) as [->|Hne].
    + rewrite lookup_insert_eq. eauto.
    + rewrite lookup_insert_ne by done. apply Hin. by right.
  - destruct (consume_through m1 sel) as [m' r]. cbn [fst snd] in *. subst r. split_and!.
    + eexists. split; [done|]. lia.
    + done.
    + intros d'. rewrite Hl. cbn [dict_get]. subst m1. cbn. destruct (decide (d' = d)) as [->|Hne].
      * apply dict_get_None in Hd. rewrite Hd, lookup_insert_eq, Hb. done.
      * by rewrite lookup_insert_ne.
Qed.

Definition drop_before (timestamp_ms : Z) (b : CameraSyncBuffer) : CameraSyncBuffer :=
  b <| cb_frames := filter (fun f => (sf_timestamp_ms f <? timestamp_ms) = false) (cb_frames b) |>.

Lemma drop_older_spec m ds ts ex : manager_ok m ->
  bm_frames_by_key (drop_frames_older_than m ds ts ex).1 = bm_frames_by_key m /\
  forall d, bm_buffers (drop_frames_older_than m ds ts ex).1 !! d =
    if decide (d ∈ ds) then drop_before ts <$> bm_buffers m !! d else bm_buffers m !! d.
Proof.
  revert m. induction ds as [|d ds IH]; intros m Hm; cbn [drop_frames_older_than].
  { split; [done|]. intros d. by rewrite decide_False by apply not_elem_of_nil. }
  destruct (bm_buffers m !! d) as [b|] eqn:Hb.
  - rewrite drop_loop_eq by by eapply manager_ok_len. fold (drop_before ts b).
    set (m1 := m <| bm_buffers ::= <[d := drop_before ts b]> |>).
    destruct (IH m1) as [Hidx Hl].
    { eapply manager_ok_set_buffer; [done..|]. apply buffer_ok_filter. by apply (mok_buffers m). }
    destruct (drop_frames_older_than m1 ds ts ex) as [m' n]. cbn [fst] in *. split; [done|].
    intros d'. rewrite Hl. subst m1. cbn. destruct (decide (d = d')) as [<-|Hne].
    + rewrite lookup_insert_eq, Hb. rewrite (decide_True (P := d ∈ d :: ds)) by left.
      case_decide; [|done]. cbn. f_equal. unfold drop_before. cbn. f_equal.
      apply filter_all, Forall_forall. by intros f [? _]%list_elem_of_filter.
    + rewrite lookup_insert_ne by done. apply decide_ext. rewrite elem_of_cons. naive_solver.
  - destruct (IH m Hm) as [Hidx Hl]. split; [done|]. intros d'. rewrite Hl.
    destruct (decide (d = d')) as [<-|Hne].
    + rewrite Hb. cbn. by repeat case_decide.
    + apply decide_ext. rewrite elem_of_cons. naive_solver.
Qed.

Lemma drop_buffer_size m ds ts ex :
  bm_buffer_size (drop_frames_older_than m ds ts ex).1 = bm_buffer_size m.
Proof.
  revert m. induction ds as [|d ds IH]; intros m; cbn [drop_frames_older_than]; [done|].
  destruct (bm_buffers m !! d) as [b|]; [|apply IH].
  destruct (buffer_drop_frames_older_than b ts ex) as [b' n].
  specialize (IH (m <| bm_buffers ::= <[d := b']> |>)).
  destruct (drop_frames_older_than _ ds ts ex). exact IH.
Qed.

Lemma consume_buffer_size m sel :
  bm_buffer_size (consume_through m sel).1 = bm_buffer_size m.
Proof.
  revert m. induction sel as [|[d c] sel IH]; intros m; cbn [consume_through]; [done|].
  destruct (bm_buffers m !! d) as [b|]; [|done].
  destruct (buffer_consume_through b c) as [b' n].
  specialize (IH (m <| bm_buffers ::= <[d := b']> |>)).
  destruct (consume_through _ sel). exact IH.
Qed.

(** ** Runs *)

Inductive buffer_op :=
| OpAdd (frame : SyncInputFrame)
| OpDropOlder (device_ids : list string) (timestamp_ms : Z) (excluded : option (gset string))
| OpConsume (selected : list (string * StoredSyncFrame))
| OpFinalize (frame_key : string) (frame_id : option Z) (file_path : option string)
             (archive_state : string) (archive_error : option string)
| OpClear.

Section Runs.
Context `{Hashing}.

(** The manager after an operation, and the frame it accepted. *)
Definition buffer_step (m : SyncFrameBufferManager) (op : buffer_op)
    : SyncFrameBufferManager * option StoredSyncFrame :=
  match op with
  | OpAdd frame => add_frame m frame
  | OpDropOlder ds ts ex => ((drop_frames_older_than m ds ts ex).1, None)
  | OpConsume sel => ((consume_through m sel).1, None)
  | OpFinalize k i p s e => ((finalize_archive m k i p s e).1, None)
  | OpClear => (clear m, None)
  end.

(** A sequence of operations, and the frames it accepted in order. *)
Fixpoint buffer_run (m : SyncFrameBufferManager) (ops : list buffer_op)
    : SyncFrameBufferManager * list StoredSyncFrame :=
  match ops with
  | [] => (m, [])
  | op :: ops =>
      let '(m, accepted) := buffer_step m op in
      let '(m, rest) := buffer_run m ops in
      (m, match accepted with Some f => f :: rest | None => rest end)
  end.

Lemma buffer_step_ok m op : manager_ok m -> manager_ok (buffer_step m op).1.
Proof.
  intros Hm. destruct op; cbn [buffer_step fst].
  - by apply manager_ok_add.
  - by apply manager_ok_drop.
  - by apply manager_ok_consume.
  - by apply manager_ok_finalize.
  - apply manager_ok_empty. by destruct Hm.
Qed.

Lemma buffer_run_invariant (P : SyncFrameBufferManager -> Prop) (Q : buffer_op -> Prop) m ops :
  (forall m op, P m -> Q op -> P (buffer_step m op).1) ->
  P m -> Forall Q ops -> P (buffer_run m ops).1.
Proof.
  intros Hstep Hm Hops. revert m Hm. induction Hops as [|op ops Hop Hops IH]; intros m Hm; [done|].
  cbn. specialize (Hstep m op Hm Hop). destruct (buffer_step m op) as [m1 a]. cbn in *.
  specialize (IH _ Hstep). by destruct (buffer_run m1 ops).
Qed.

Lemma buffer_run_ok m ops : manager_ok m -> manager_ok (buffer_run m ops).1.
Proof.
  intros Hm. apply (buffer_run_invariant manager_ok (fun _ => True)); [|done|by apply Forall_true].
  intros ???  _. by apply buffer_step_ok.
Qed.

Definition v2_op (op : buffer_op) : Prop :=
  match op with
  | OpAdd frame => in_identity_mode frame = IDENTITY_MODE_V2 /\ is_Some (in_sequence frame)
  | _ => True
  end.

Lemma buffer_step_ordered m op :
  manager_ok m /\ manager_ordered m -> v2_op op ->
  manager_ok (buffer_step m op).1 /\ manager_ordered (buffer_step m op).1.
Proof.
  intros [Hm Ho] Hv. split; [by apply buffer_step_ok|]. destruct op; cbn [buffer_step fst].
  - by apply manager_ordered_add.
  - by apply manager_ordered_drop.
  - by apply manager_ordered_consume.
  - by apply manager_ordered_finalize.
  - apply map_Forall_empty.
Qed.

Lemma buffer_run_ordered m ops :
  manager_ok m -> manager_ordered m -> Forall v2_op ops ->
  manager_ok (buffer_run m ops).1 /\ manager_ordered (buffer_run m ops).1.
Proof.
  intros Hm Ho. apply (buffer_run_invariant (fun m => manager_ok m /\ manager_ordered m) v2_op);
    [apply buffer_step_ordered|done].
Qed.

(** What later frames of a device are compared with. *)
Definition buffer_floor (m : SyncFrameBufferManager) (d : string) :=
  (fun b => (cb_source_identity b, cb_last_sequence b, cb_last_timestamp_ms b)) <$>
  bm_buffers m !! d.

Definition above_floor (i : option string * option string) floor (f : StoredSyncFrame) : Prop :=
  match floor with
  | Some (Some i', seq, ts) =>
      i' = i ->
      (forall j, seq = Some j -> exists s, sf_sequence f = Some s /\ j < s) /\
      (forall t, ts = Some t -> t <= sf_timestamp_ms f)
  | _ => True
  end.

Lemma above_floor_trans i f g floor :
  precedes f g -> above_floor i floor f -> above_floor i floor g.
Proof.
  intros (a & c & Ha & Hc & Hac & Ht). destruct floor as [[[[i'|] seq] ts]|]; cbn; try done.
  intros Hf Hi. destruct (Hf Hi) as [H1 H2]. split.
  - intros j Hj. destruct (H1 _ Hj) as (s & Hs & Hjs). exists c. split; [done|].
    simplify_eq. lia.
  - intros t Ht'. specialize (H2 _ Ht'). lia.
Qed.

Lemma buffer_floor_drop m ds ts ex d :
  buffer_floor (drop_frames_older_than m ds ts ex).1 d = buffer_floor m d.
Proof.
  revert m. induction ds as [|d' ds IH]; intros m; cbn [drop_frames_older_than]; [done|].
  destruct (bm_buffers m !! d') as [b|] eqn:Hb; [|apply IH].
  unfold buffer_drop_frames_older_than. destruct (foldl _ _ _) as [kept n].
  specialize (IH (m <| bm_buffers ::= <[d' := b <| cb_frames := kept |>]> |>)).
  destruct (drop_frames_older_than _ ds ts ex) as [m' n']. cbn [fst] in *. rewrite IH.
  unfold buffer_floor. cbn. destruct (decide (d' = d)) as [<-|Hne].
  - by rewrite lookup_insert_eq, Hb.
  - by rewrite lookup_insert_ne.
Qed.

Lemma buffer_floor_consume m sel d :
  buffer_floor (consume_through m sel).1 d = buffer_floor m d.
Proof.
  revert m. induction sel as [|[d' c] sel IH]; intros m; cbn [consume_through]; [done|].
  destruct (bm_buffers m !! d') as [b|] eqn:Hb; [|done].
  unfold buffer_consume_through. destruct (foldl _ _ _) as [kept n].
  specialize (IH (m <| bm_buffers ::= <[d' := b <| cb_frames := kept |>]> |>)).
  destruct (consume_through _ sel) as [m' r]. cbn [fst] in *. rewrite IH.
  unfold buffer_floor. cbn. destruct (decide (d' = d)) as [<-|Hne].
  - by rewrite lookup_insert_eq, Hb.
  - by rewrite lookup_insert_ne.
Qed.

Lemma buffer_floor_finalize m k i p s e d :
  buffer_floor (finalize_archive m k i p s e).1 d = buffer_floor m d.
Proof.
  unfold finalize_archive. destruct (bm_frames_by_key m !! k) as [f|]; [|done]. cbn.
  destruct (bm_buffers m !! sf_device_id f) as [b|] eqn:Hb; [|done].
  unfold buffer_floor. cbn. destruct (decide (sf_device_id f = d)) as [<-|Hne].
  - by rewrite lookup_insert_eq, Hb.
  - by rewrite lookup_insert_ne.
Qed.

(** [add_stored] accepts only frames above the floor, and an accepted frame
    becomes the floor of its device. *)
Lemma buffer_floor_add m f d :
  0 <= bm_buffer_size m ->
  let '(m', r) := add_stored m f in
  match r with
  | Some g => g = f /\ (d = sf_device_id f -> v2_frame f ->
      above_floor (frame_identity f) (buffer_floor m d) f /\
      buffer_floor m' d = Some (Some (frame_identity f), sf_sequence f, Some (sf_timestamp_ms f)))
  | None => buffer_floor m' d = buffer_floor m d
  end /\ (d <> sf_device_id f -> buffer_floor m' d = buffer_floor m d) /\
  bm_buffer_size m' = bm_buffer_size m.
Proof.
  intros Hs. destruct (add_stored_outcome m f Hs) as [g Hg|b Hk Hb Ho|b dr idx ev Hk Hb Ho _ _ _].
  - done.
  - unfold buffer_floor. cbn. by rewrite insert_id.
  - split_and!; [done| | |done]; unfold buffer_floor; cbn.
    + intros -> Hv. rewrite lookup_insert_eq. cbn.
      rewrite append_identity, append_last_sequence, append_last_timestamp.
      destruct Hv as [Hm [i Hi]]. rewrite Hi. split; [|done].
      destruct (bm_buffers m !! sf_device_id f) as [b0|]; [|done]. cbn in Hb. subst b. cbn.
      destruct (cb_source_identity b0) as [i'|] eqn:Ei; [|done].
      intros ->. by apply not_out_of_order; [|split; eauto|].
    + intros Hne. by rewrite lookup_insert_ne.
Qed.

Definition op_of_source (d : string) (i : option string * option string) (op : buffer_op) : Prop :=
  match op with
  | OpAdd frame => in_device_id frame = d ->
      in_identity_mode frame = IDENTITY_MODE_V2 /\ is_Some (in_sequence frame) /\
      (in_source_session_id frame, in_camera_stream_id frame) = i
  | OpClear => False
  | _ => True
  end.

Lemma buffer_run_above_floor d i m ops :
  0 <= bm_buffer_size m -> Forall (op_of_source d i) ops ->
  let accepted := filter (fun f => sf_device_id f = d) (buffer_run m ops).2 in
  Forall (above_floor i (buffer_floor m d)) accepted /\ StronglySorted precedes accepted /\
  Forall (fun f => frame_identity f = i /\ v2_frame f) accepted.
Proof.
  intros Hs Hops. revert m Hs. induction Hops as [|op ops Hop Hops IH]; intros m Hs; cbn zeta in *.
  { split_and!; constructor. }
  cbn [buffer_run]. destruct op as [frame|ds ts ex|sel|k fi p s e|]; cbn [buffer_step].
  - pose proof (buffer_floor_add m (store_frame frame) d Hs) as Ha. unfold add_frame.
    destruct (add_stored m (store_frame frame)) as [m1 a]. destruct Ha as (Ha & Hother & Hsz).
    specialize (IH m1 ltac:(lia)). destruct (buffer_run m1 ops) as [m2 rest]. cbn [snd] in *.
    destruct a as [g|]; [|by rewrite <- Ha]. destruct Ha as [-> Ha].
    rewrite filter_cons. case_decide as Hd; [|by rewrite <- Hother by congruence].
    destruct (Hop Hd) as (Hm & Hseq & Hi). destruct (Ha (eq_sym Hd)) as [Hab Hfl]; [by split|].
    assert (frame_identity (store_frame frame) = i) as Hi' by exact Hi. rewrite Hi' in *.
    destruct IH as (H1 & H2 & H3). rewrite Hfl in H1.
    assert (Forall (precedes (store_frame frame)) (filter (fun f => sf_device_id f = d) rest)) as Hp.
    { apply Forall_forall. intros g Hg. rewrite Forall_forall in H1. specialize (H1 _ Hg).
      destruct (H1 eq_refl) as [Hj Ht]. destruct Hseq as [j Hseq].
      destruct (Hj j Hseq) as (s & Hgs & Hjs). exists j, s. split_and!; [done..|by apply Ht]. }
    split_and!; constructor; try done.
    eapply Forall_impl; [exact Hp|]. intros g Hg. by eapply above_floor_trans.
  - specialize (IH (drop_frames_older_than m ds ts ex).1). rewrite buffer_floor_drop in IH.
    destruct (buffer_run _ ops) as [m2 rest]. apply IH.
    by rewrite drop_buffer_size.
  - specialize (IH (consume_through m sel).1). rewrite buffer_floor_consume in IH.
    destruct (buffer_run _ ops) as [m2 rest]. apply IH.
    by rewrite consume_buffer_size.
  - specialize (IH (finalize_archive m k fi p s e).1). rewrite buffer_floor_finalize in IH.
    destruct (buffer_run _ ops) as [m2 rest]. apply IH.
    unfold finalize_archive. by repeat case_match.
  - done.
Qed.
End Runs.

(** ** Properties *)

(** Evaluation of a run without collisions, for the concrete instances. *)
Definition v2_input (device_id session : string) (sequence timestamp_ms : Z) : SyncInputFrame :=
  (input_frame device_id timestamp_ms (Some sequence) "image")
    <| in_identity_mode := "V2" |>
    <| in_source_session_id := Some session |>
    <| in_camera_stream_id := Some device_id |>
    <| in_source_frame_uid := Some (session +:+ device_id +:+ pretty sequence) |>
    <| in_content_digest := Some "digest" |>.

(** C1: Memory stays bounded whatever happens: after any sequence of
    operations on a new manager, every buffer holds at most [buffer_size]
    frames and [buffer_size] retained keys, the index has exactly the
    retained keys, and so at most [buffer_size] frames per camera. *)
Theorem buffer_manager_bounded `{Hashing} buffer_size m ops :
  new_SyncFrameBufferManager buffer_size = Ok m ->
  let m' := (buffer_run m ops).1 in
  manager_ok m' /\
  (forall d b, bm_buffers m' !! d = Some b -> Z.of_nat (length (cb_frames b)) <= buffer_size) /\
  Z.of_nat (size (bm_frames_by_key m')) <= Z.of_nat (size (bm_buffers m')) * buffer_size.
Proof.
  intros Hnew m'. unfold new_SyncFrameBufferManager in Hnew. case_match eqn:E; [done|].
  apply Z.ltb_ge in E. injection Hnew as <-.
  assert (bm_buffer_size m' = buffer_size) as Hsz.
  { apply (buffer_run_invariant (fun m => bm_buffer_size m = buffer_size) (fun _ => True));
      [|done|by apply Forall_true].
    intros m op <- _. destruct op; cbn [buffer_step fst].
    - unfold add_frame, add_stored. by repeat (case_match || cbn).
    - apply drop_buffer_size.
    - apply consume_buffer_size.
    - unfold finalize_archive. by repeat case_match.
    - done. }
  assert (manager_ok m') as Hok by by apply buffer_run_ok, manager_ok_empty.
  split_and!; [done| |].
  - intros d b Hb. destruct (mok_buffers _ Hok _ _ Hb) as [_ Hl _ _ _]. by rewrite <- Hsz.
  - pose proof (index_size _ Hok). by rewrite <- Hsz.
Qed.

Lemma buffer_manager_bounded_witness :
  exists m', m' = (buffer_run (H := transparent_hashing) (mkSyncFrameBufferManager 2 ∅ ∅ 0 0 0 0)
      [OpAdd (v2_input "cam" "s" 1 10); OpAdd (v2_input "cam" "s" 2 20);
       OpAdd (v2_input "cam" "s" 3 30)]).1 /\
    manager_ok m' /\ Z.of_nat (size (bm_frames_by_key m')) = 2.
Proof.
  eexists. split; [reflexivity|]. split; [|vm_compute; reflexivity].
  exact (proj1 (buffer_manager_bounded (H := transparent_hashing) 2 _ _ eq_refl)).
Defined.

(** One source's frames are accepted in order only: whatever else
    happens in between (evictions, consumption, stale drops, archive
    completions, other cameras), the accepted frames of a device whose V2
    frames all come from one source have strictly increasing sequence
    numbers and non-decreasing timestamps; in particular none is accepted
    twice. *)
Theorem accepted_in_order `{Hashing} buffer_size m ops d i :
  new_SyncFrameBufferManager buffer_size = Ok m -> Forall (op_of_source d i) ops ->
  StronglySorted precedes (filter (fun f => sf_device_id f = d) (buffer_run m ops).2).
Proof.
  unfold new_SyncFrameBufferManager. case_match eqn:E; [done|]. apply Z.ltb_ge in E.
  intros [= <-] Hops. by apply (buffer_run_above_floor d i); [cbn; lia|].
Qed.

Lemma accepted_in_order_witness :
  exists l, l = filter (fun f => sf_device_id f = "cam")
      (buffer_run (H := transparent_hashing) (mkSyncFrameBufferManager 1 ∅ ∅ 0 0 0 0)
        [OpAdd (v2_input "cam" "s" 1 10); OpAdd (v2_input "other" "s" 9 90);
         OpAdd (v2_input "cam" "s" 3 30); OpDropOlder ["cam"] 40 None;
         OpAdd (v2_input "cam" "s" 2 50); OpAdd (v2_input "cam" "s" 1 10);
         OpAdd (v2_input "cam" "s" 4 50)]).2 /\
    sf_sequence <$> l = [Some 1; Some 3; Some 4] /\ StronglySorted precedes l.
Proof.
  eexists. split; [reflexivity|]. split; [vm_compute; reflexivity|].
  apply (accepted_in_order (H := transparent_hashing) 1 _ _ "cam" (Some "s", Some "cam")); [reflexivity|].
  repeat constructor; cbn; intros; try done; eauto.
Defined.

(** With V2 frames only, every buffered frame can be reached through
    the index: the buffers are sorted, their keys are distinct, and
    [finalize_archive] on a buffered frame's key updates that frame in its
    buffer. *)
Theorem ordered_buffers_indexed `{Hashing} buffer_size m ops d b f frame_id file_path state error :
  new_SyncFrameBufferManager buffer_size = Ok m -> Forall v2_op ops ->
  bm_buffers (buffer_run m ops).1 !! d = Some b -> f ∈ cb_frames b ->
  StronglySorted precedes (cb_frames b) /\ NoDup (sf_buffer_key <$> cb_frames b) /\
  exists m' b',
    finalize_archive (buffer_run m ops).1 (sf_buffer_key f) frame_id file_path state error =
      (m', Some (archived f frame_id file_path state error)) /\
    bm_buffers m' !! d = Some b' /\
    archived f frame_id file_path state error ∈ cb_frames b'.
Proof.
  unfold new_SyncFrameBufferManager. case_match eqn:E; [done|]. apply Z.ltb_ge in E.
  intros [= <-] Hops Hb Hf.
  destruct (buffer_run_ordered (mkSyncFrameBufferManager buffer_size ∅ ∅ 0 0 0 0) ops)
    as [Hok Ho]; [by apply manager_ok_empty|apply map_Forall_empty|done|].
  set (m' := (buffer_run _ ops).1) in *.
  pose proof (Ho _ _ Hb) as [_ Hs _ Hk Hi]. pose proof (mok_buffers _ Hok _ _ Hb) as [Hmax Hl _ Hn Hd].
  rewrite Forall_forall in Hi, Hd. specialize (Hi _ Hf). specialize (Hd _ Hf).
  split_and!; [done| |].
  - destruct Hk as [p Ek]. rewrite Ek in Hn. by apply NoDup_app in Hn as (_ & _ & Hn).
  - unfold finalize_archive. rewrite Hi. cbn. rewrite Hd, Hb. do 2 eexists. split; [done|].
    cbn. rewrite lookup_insert_eq. split; [done|]. unfold buffer_replace. cbn.
    rewrite deque_trim_id by (rewrite length_fmap; lia).
    apply list_elem_of_fmap. exists f. by rewrite bool_decide_eq_true_2.
Qed.

Lemma ordered_buffers_indexed_witness :
  let h := transparent_hashing in
  let m := (buffer_run (mkSyncFrameBufferManager 2 ∅ ∅ 0 0 0 0)
              [OpAdd (v2_input "cam" "s" 1 10); OpAdd (v2_input "cam" "s" 2 20)]).1 in
  exists m' u, finalize_archive m "source:scam1" (Some 7) (Some "p") ARCHIVE_DURABLE None = (m', Some u).
Proof.
  intros h m.
  destruct (ordered_buffers_indexed 2 (mkSyncFrameBufferManager 2 ∅ ∅ 0 0 0 0)
              [OpAdd (v2_input "cam" "s" 1 10); OpAdd (v2_input "cam" "s" 2 20)] "cam"
              (default (new_CameraSyncBuffer 2) (bm_buffers m !! "cam"))
              (store_frame (v2_input "cam" "s" 1 10)) (Some 7) (Some "p") ARCHIVE_DURABLE None)
    as (_ & _ & m' & b' & Heq & _).
  - reflexivity.
  - repeat constructor; cbn; eauto.
  - vm_compute. reflexivity.
  - vm_compute. left.
  - exists m'. eexists. exact Heq.
Defined.

(** [nearest_frame] chooses the first buffered frame of the device that
    is not excluded and minimises the distance to the anchor, and answers
    nothing exactly when no candidate is inside the window. *)
Theorem nearest_frame_first_minimum m d b anchor window ex :
  bm_buffers m !! d = Some b ->
  match nearest_frame m d anchor window ex with
  | None => forall g, g ∈ cb_frames b -> candidate (default ∅ ex) g -> window < delta_to anchor g
  | Some f =>
      candidate (default ∅ ex) f /\ delta_to anchor f <= window /\
      exists l1 l2, cb_frames b = l1 ++ f :: l2 /\
        (forall g, g ∈ l1 -> candidate (default ∅ ex) g -> delta_to anchor f < delta_to anchor g) /\
        (forall g, g ∈ l2 -> candidate (default ∅ ex) g -> delta_to anchor f <= delta_to anchor g)
  end.
Proof.
  intros Hb. unfold nearest_frame, buffer_nearest_frame. rewrite Hb.
  pose proof (buffer_nearest_spec b anchor window ex) as Hn.
  destruct (foldl _ _ _) as [[f e]|]; cbn in *; [|done].
  destruct Hn as (-> & Hw & Hc & Hsplit). done.
Qed.

Lemma nearest_frame_first_minimum_witness :
  let h := transparent_hashing in
  let m := (buffer_run (mkSyncFrameBufferManager 3 ∅ ∅ 0 0 0 0)
              [OpAdd (v2_input "cam" "s" 1 10); OpAdd (v2_input "cam" "s" 2 30)]).1 in
  exists f, nearest_frame m "cam" 20 10 None = Some f /\ sf_sequence f = Some 1 /\
    delta_to 20 f <= 10.
Proof.
  intros h m.
  assert (bm_buffers m !! "cam" =
          Some (default (new_CameraSyncBuffer 3) (bm_buffers m !! "cam"))) as Hb
    by (vm_compute; reflexivity).
  pose proof (nearest_frame_first_minimum m "cam" _ 20 10 None Hb) as Hn.
  destruct (nearest_frame m "cam" 20 10 None) as [f|] eqn:E; [|vm_compute in E; discriminate E].
  exists f. split; [reflexivity|]. split; [|exact (proj1 (proj2 Hn))].
  vm_compute in E. injection E as <-. reflexivity.
Defined.

(** A rejected frame leaves no trace but its counter: buffers, index
    and received count stay, exactly one of the duplicate and out-of-order
    counters grows by one, and the reason is that the key is retained or
    that the device's buffer has seen a newer frame of the source. An
    accepted frame is indexed, counted and the newest of its buffer. *)
Theorem add_frame_effect `{Hashing} m frame m' r :
  manager_ok m -> add_frame m frame = (m', r) ->
  let f := store_frame frame in
  match r with
  | None =>
      bm_buffers m' = bm_buffers m /\ bm_frames_by_key m' = bm_frames_by_key m /\
      bm_received_count m' = bm_received_count m /\
      ((is_Some (bm_frames_by_key m !! sf_buffer_key f) /\
        bm_duplicate_frame_count m' = bm_duplicate_frame_count m + 1 /\
        bm_out_of_order_frame_count m' = bm_out_of_order_frame_count m) \/
       (bm_frames_by_key m !! sf_buffer_key f = None /\
        (exists b, bm_buffers m !! sf_device_id f = Some b /\ is_out_of_order b f = true) /\
        bm_duplicate_frame_count m' = bm_duplicate_frame_count m /\
        bm_out_of_order_frame_count m' = bm_out_of_order_frame_count m + 1))
  | Some g =>
      g = f /\ bm_frames_by_key m !! sf_buffer_key f = None /\
      bm_frames_by_key m' !! sf_buffer_key f = Some f /\
      bm_received_count m' = bm_received_count m + 1 /\
      (exists b l, bm_buffers m' !! sf_device_id f = Some b /\ cb_frames b = l ++ [f]) /\
      forall d, d <> sf_device_id f -> bm_buffers m' !! d = bm_buffers m !! d
  end.
Proof.
  intros Hm. pose proof (mok_size _ Hm) as Hs. pose proof (manager_ok_add m (store_frame frame) Hm) as Hm'.
  unfold add_frame. intros E. rewrite E in Hm'. cbn [fst] in Hm'.
  pose proof (add_stored_outcome m (store_frame frame) ltac:(lia)) as Ho. rewrite E in Ho.
  cbn zeta. set (f := store_frame frame) in *. clearbody f.
  inversion Ho as [g Hg Em|b Hk Hb Hooo Em|b dropped idx ev Hk Hb Hooo Hev Hd Hidx Em]; subst m' r.
  - split_and!; [done..|]. left. split_and!; [by eexists|done|done].
  - cbn. split_and!; [by apply insert_id|done|done|]. right. split_and!; [done|eauto|done|done].
  - cbn. assert (f ∈ cb_frames (append b f) /\ exists l, cb_frames (append b f) = l ++ [f]) as [_ [l El]].
    { assert (exists l, cb_frames (append b f) = l ++ [f]) as [l El].
      { assert (cb_max_frames b = bm_buffer_size m) as Emax.
        { subst b. destruct (bm_buffers m !! sf_device_id f) eqn:Eb; [|done].
          by destruct (mok_buffers _ Hm _ _ Eb). }
        rewrite append_frames, Emax. unfold deque_append, deque_trim. rewrite length_app.
        cbn [length]. rewrite drop_app_le by lia. eauto. }
      rewrite El. split; [|eauto]. apply elem_of_app. right. left. }
    assert (idx !! sf_buffer_key f = Some f) as Hi.
    { destruct (mok_retained _ Hm' (sf_device_id f) _ (sf_buffer_key f) (lookup_insert_eq _ _ _))
        as (h & Hh & _).
      - cbn. unfold deque_append, deque_trim. rewrite length_app. cbn [length].
        rewrite drop_app_le by lia. apply elem_of_app. right. left.
      - cbn in Hh. rewrite Hh. rewrite Hidx in Hh. case_decide; [done|].
        by rewrite lookup_insert_eq in Hh. }
    split_and!; try done.
    + eexists _, l. rewrite lookup_insert_eq. split; [done|]. done.
    + intros d Hne. by rewrite lookup_insert_ne.
Qed.

Lemma add_frame_effect_witness :
  let h := transparent_hashing in
  let m := mkSyncFrameBufferManager 2 ∅ ∅ 0 0 0 0 in
  let m1 := (add_frame m (v2_input "cam" "s" 1 10)).1 in
  bm_buffers (add_frame m1 (v2_input "cam" "s" 0 5)).1 = bm_buffers m1.
Proof.
  intros h m m1.
  apply (add_frame_effect m1 (v2_input "cam" "s" 0 5) _ None).
  - apply manager_ok_add, manager_ok_empty. lia.
  - vm_compute. reflexivity.
Defined.

(** After an emitted selection, the buffers hold no candidate that could
    overtake it: each selected device keeps exactly its frames newer than
    the chosen one, the other devices' buffers and the index are untouched,
    and no [KeyError] is raised. *)
Theorem consume_through_frees m selected :
  manager_ok m -> NoDup (selected.*1) ->
  (forall d, d ∈ selected.*1 -> is_Some (bm_buffers m !! d)) ->
  let '(m', r) := consume_through m selected in
  (exists n, r = Ok n) /\ manager_ok m' /\ bm_frames_by_key m' = bm_frames_by_key m /\
  (forall d, d ∉ selected.*1 -> bm_buffers m' !! d = bm_buffers m !! d) /\
  forall d chosen b', (d, chosen) ∈ selected -> bm_buffers m' !! d = Some b' ->
    exists b, bm_buffers m !! d = Some b /\
    forall f, f ∈ cb_frames b' <-> f ∈ cb_frames b /\ sf_timestamp_ms chosen < sf_timestamp_ms f.
Proof.
  intros Hm Hnd Hin. pose proof (consume_through_spec m selected Hm Hnd Hin) as Hspec.
  pose proof (manager_ok_consume m selected Hm) as Hm'.
  destruct (consume_through m selected) as [m' r]. cbn [fst snd] in *.
  destruct Hspec as ((n & -> & _) & Hidx & Hl). split_and!; [eauto|done|done| |].
  - intros d Hd. apply dict_get_None in Hd. by rewrite Hl, Hd.
  - intros d c b' Hdc Hb'. rewrite Hl, (dict_elem_get _ _ _ Hnd Hdc) in Hb'.
    destruct (bm_buffers m !! d) as [b|]; [|done]. injection Hb' as <-. exists b. split; [done|].
    intros f. cbn. rewrite list_elem_of_filter, Z.leb_gt. naive_solver.
Qed.

Lemma consume_through_frees_witness :
  let h := transparent_hashing in
  let m := (buffer_run (mkSyncFrameBufferManager 3 ∅ ∅ 0 0 0 0)
              [OpAdd (v2_input "cam" "s" 1 10); OpAdd (v2_input "cam" "s" 2 30)]).1 in
  exists n, (consume_through m [("cam", store_frame (v2_input "cam" "s" 1 10))]).2 = Ok n.
Proof.
  intros h m.
  pose proof (consume_through_frees m [("cam", store_frame (v2_input "cam" "s" 1 10))]) as Hc.
  destruct (consume_through m _) as [m' r]. apply Hc.
  - apply buffer_run_ok, manager_ok_empty. lia.
  - apply NoDup_singleton.
  - intros d ->%list_elem_of_singleton. vm_compute. eauto.
Defined.

(** The duplicate check guards retained keys, not buffered frames. With
    legacy frames, whose timestamps may go back, a frame can outlive its own
    key in the buffer and then be accepted a second time: this run buffers
    two frames with the same key. *)
Theorem legacy_frame_readmitted :
  let h := transparent_hashing in
  let legacy ts := input_frame "cam" ts None "image" in
  exists ops b, ~ (OpClear ∈ ops) /\
    bm_buffers (buffer_run (mkSyncFrameBufferManager 3 ∅ ∅ 0 0 0 0) ops).1 !! "cam" = Some b /\
    ~ NoDup (sf_buffer_key <$> cb_frames b).
Proof.
  intros h legacy.
  exists [OpAdd (legacy 100); OpAdd (legacy 10); OpAdd (legacy 11); OpDropOlder ["cam"] 20 None;
          OpAdd (legacy 200); OpAdd (legacy 100)].
  eexists. split; [by rewrite !not_elem_of_cons; split_and!; try done; apply not_elem_of_nil|].
  split; [vm_compute; reflexivity|]. vm_compute. intros Hn.
  apply NoDup_cons in Hn as [Hn _]. apply Hn. right. left.
Qed.
