(* ===== verification/Matcher.v ===== *)
(** * The matcher: one frame per camera with minimum span

    src/app/services/sync/matcher.py. The matcher shares the service's
    [SyncFrameBufferManager]; the model passes it through [try_match] and
    [_drop_stale_frames] as a second piece of state. [time.time()] and
    [uuid4()] are arguments ([now_ms], [fresh_run_id]). [heapq] on tuples
    whose prefix is distinct is a list kept sorted by the tuple order. *)

From S2P Require Import Prelude Json Digest Identity SyncModels FrameBuffer.

(** The 7-tuple [authorization_key]. *)
Record AuthorizationKey := mkAuthorizationKey {
  ak_tenant_id : option string;
  ak_site_id : option string;
  ak_capture_session_id : option string;
  ak_processing_job_id : option string;
  ak_profile_digest : option string;
  ak_authorized_subject : option string;
  ak_session_token_jti : option string;
}.

#[export] Instance AuthorizationKey_eq_dec : EqDecision AuthorizationKey.
Proof. solve_decision. Defined.

Record SyncMatcher := mkSyncMatcher {
  sm_expected_cameras : list string;
  sm_window_ms : Z;
  sm_recent_limit : Z;
  sm_next_frame_set_id : Z;
  sm_capture_session_id : option string;
  sm_capture_config_key : option (list (string * string));
  sm_authorization_key : option AuthorizationKey;
  sm_capture_run_id : string;
  sm_last_synchronized_at_ms : Z;
  sm_recent_frame_sets : list SynchronizedFrameSet;
  sm_matched_count : Z;
  sm_missed_count : Z;
  sm_duplicate_count : Z;
  sm_ignored_count : Z;
  sm_last_frame_set_id : option Z;
  sm_last_anchor_timestamp_ms : option Z;
  sm_last_max_delta_ms : option Z;
  sm_last_span_ms : option Z;
  sm_last_watermark_timestamp_ms : option Z;
  sm_dropped_stale_count : Z;
  sm_dropped_superseded_count : Z;
  sm_last_missing_cameras : list string;
  sm_last_reason : option string;
  sm_last_identity_mode : option string;
  sm_legacy_identity_count : Z;
  sm_last_archive_state : option string;
  sm_last_archive_error : option string;
  sm_archive_degraded_count : Z;
}.

#[export] Instance SyncMatcher_settable : Settable SyncMatcher := fun x => mkSyncMatcher
  (sm_expected_cameras x) (sm_window_ms x) (sm_recent_limit x) (sm_next_frame_set_id x)
  (sm_capture_session_id x) (sm_capture_config_key x) (sm_authorization_key x)
  (sm_capture_run_id x) (sm_last_synchronized_at_ms x) (sm_recent_frame_sets x)
  (sm_matched_count x) (sm_missed_count x) (sm_duplicate_count x) (sm_ignored_count x)
  (sm_last_frame_set_id x) (sm_last_anchor_timestamp_ms x) (sm_last_max_delta_ms x)
  (sm_last_span_ms x) (sm_last_watermark_timestamp_ms x) (sm_dropped_stale_count x)
  (sm_dropped_superseded_count x) (sm_last_missing_cameras x) (sm_last_reason x)
  (sm_last_identity_mode x) (sm_legacy_identity_count x) (sm_last_archive_state x)
  (sm_last_archive_error x) (sm_archive_degraded_count x).

(** [deque(maxlen=recent_limit)] raises for a negative limit. *)
Definition new_SyncMatcher (expected_cameras : list string) (window_ms recent_limit : Z)
    (fresh_run_id : string) : result sync_error SyncMatcher :=
  if recent_limit <? 0 then Raise (SyncValueError "maxlen must be non-negative")
  else Ok (mkSyncMatcher expected_cameras window_ms recent_limit 1 None None None fresh_run_id 0 []
             0 0 0 0 None None None None None 0 0 [] None None 0 None None 0).

(** ** Selection of the minimum-span candidate *)

(** A heap entry [(timestamp_ms, buffer_key, device_id, index, frame)]. *)
Record HeapEntry := mkHeapEntry {
  he_timestamp_ms : Z;
  he_buffer_key : string;
  he_device_id : string;
  he_index : nat;
  he_frame : StoredSyncFrame;
}.

Definition heap_entry (device_id : string) (index : nat) (frame : StoredSyncFrame) : HeapEntry :=
  mkHeapEntry (sf_timestamp_ms frame) (sf_buffer_key frame) device_id index frame.

(** Tuple comparison; the index decides before the frames are compared. *)
Definition heap_leb : HeapEntry -> HeapEntry -> bool :=
  lex_leb (fun x y => he_timestamp_ms x <? he_timestamp_ms y)
          (fun x y => he_timestamp_ms x =? he_timestamp_ms y)
  (lex_leb (fun x y => String.ltb (he_buffer_key x) (he_buffer_key y))
           (fun x y => String.eqb (he_buffer_key x) (he_buffer_key y))
  (lex_leb (fun x y => String.ltb (he_device_id x) (he_device_id y))
           (fun x y => String.eqb (he_device_id x) (he_device_id y))
           (fun x y => Nat.leb (he_index x) (he_index y)))).

Definition heappush (heap : list HeapEntry) (e : HeapEntry) : list HeapEntry :=
  insert_by heap_leb e heap.

Definition CandidateLists : Type := list (string * list StoredSyncFrame).
Definition Selection : Type := list (string * StoredSyncFrame).

(** The first loop: the candidate lists and the cameras without frames. *)
Definition collect_candidates (mgr : SyncFrameBufferManager) (expected_cameras : list string)
    : CandidateLists * list string :=
  foldl (fun acc device_id =>
           let '(candidate_lists, missing_cameras) := acc in
           match available_frames mgr device_id None with
           | [] => (candidate_lists, missing_cameras ++ [device_id])
           | frames => (dict_set device_id frames candidate_lists, missing_cameras)
           end) ([], []) expected_cameras.

(** The second loop: the first frame of each list. *)
Definition start_selection (candidate_lists : CandidateLists)
    : list HeapEntry * Selection * option Z :=
  foldl (fun acc item =>
           let '(heap, current_frames, current_max) := acc in
           match item with
           | (device_id, frame :: _) =>
               (heappush heap (heap_entry device_id 0 frame),
                dict_set device_id frame current_frames,
                Some match current_max with
                     | None => sf_timestamp_ms frame
                     | Some m => Z.max m (sf_timestamp_ms frame)
                     end)
           | (_, []) => acc
           end) ([], [], None) candidate_lists.

(** The third loop. [None] is running out of fuel, which [span_fuel] rules
    out; [candidate_lists[device_id]] is present for every heap entry. *)
Fixpoint select_loop (fuel : nat) (candidate_lists : CandidateLists) (heap : list HeapEntry)
    (current_frames : Selection) (current_max : Z) (best : option (Selection * Z))
    : option (option (Selection * Z)) :=
  match fuel with
  | O => None
  | S fuel =>
      match heap with
      | [] => Some best
      | e :: heap =>
          let span_ms := current_max - he_timestamp_ms e in
          let improved := match best with None => true | Some (_, best_span) => span_ms <? best_span end in
          let best := if improved then Some (current_frames, span_ms) else best in
          if improved && (span_ms =? 0) then Some best
          else
            match dict_get (he_device_id e) candidate_lists ≫= (.!! S (he_index e)) with
            | None => Some best
            | Some next_frame =>
                select_loop fuel candidate_lists
                  (heappush heap (heap_entry (he_device_id e) (S (he_index e)) next_frame))
                  (dict_set (he_device_id e) next_frame current_frames)
                  (Z.max current_max (sf_timestamp_ms next_frame)) best
            end
      end
  end.

Definition span_fuel (candidate_lists : CandidateLists) : nat :=
  S (sum_list ((fun item => length item.2) <$> candidate_lists)).

(** [_select_min_span_candidate]: frames with their span, and the missing
    cameras. *)
Definition _select_min_span_candidate (expected_cameras : list string) (window_ms : Z)
    (mgr : SyncFrameBufferManager) : option (Selection * Z) * list string :=
  let '(candidate_lists, missing_cameras) := collect_candidates mgr expected_cameras in
  if bool_decide (missing_cameras <> []) then (None, missing_cameras)
  else
    let '(heap, current_frames, current_max) := start_selection candidate_lists in
    let best :=
      match current_max with
      | None => None
      | Some current_max =>
          default None (select_loop (span_fuel candidate_lists) candidate_lists heap
                                    current_frames current_max None)
      end in
    match best with
    | Some (best_frames, best_span_ms) =>
        if window_ms <? best_span_ms then (None, []) else (Some (best_frames, best_span_ms), [])
    | None => (None, [])
    end.

(** ** Capture identity *)

Definition v2_complete (frame : StoredSyncFrame) : bool :=
  bool_decide (sf_identity_mode frame = IDENTITY_MODE_V2)
  && truthy_opt (sf_source_session_id frame)
  && truthy_opt (sf_camera_stream_id frame)
  && bool_decide (is_Some (sf_sequence frame))
  && truthy_opt (sf_source_frame_uid frame)
  && truthy_opt (sf_content_digest frame).

Definition group_key (frame : StoredSyncFrame) :=
  (sf_tenant_id frame, sf_site_id frame, sf_capture_session_id frame,
   sf_processing_job_id frame, sf_profile_digest frame).

(** The eight authorization fields of a frame. *)
Definition authorization_fields (frame : StoredSyncFrame) : list (option string) :=
  [sf_tenant_id frame; sf_site_id frame; sf_capture_session_id frame;
   sf_processing_job_id frame; sf_profile_digest frame; sf_authorized_subject frame;
   sf_session_token_jti frame; sf_authorized_camera_id frame].

Definition config_key (frames : list StoredSyncFrame) : list (string * string) :=
  sort_by member_leb
    ((fun frame => (default "" (sf_camera_stream_id frame),
                    or_str (sf_capture_config_digest frame) "")) <$> frames).

(** What the last [else] branch and the error paths need of
    [build_capture_session_id]. *)
Definition lift_identity {A} (r : result identity_error A) : result sync_error A :=
  match r with
  | Ok a => Ok a
  | Raise (ValueError message) => Raise (SyncValueError message)
  end.

(** The checks of the authorized branch, in order, and the key. *)
Definition resolve_authorization (frames : list StoredSyncFrame)
    (authorization_group_keys : list (option string * option string * option string *
                                      option string * option string))
    : result sync_error AuthorizationKey :=
  if negb (Nat.eqb (length authorization_group_keys) 1)
     || existsb (fun frame => negb (forallb truthy_opt (authorization_fields frame))) frames
  then Raise (FrameScopeConflict "authorization scope conflict across frame set")
  else
    let authorized_camera_ids := sf_authorized_camera_id <$> frames in
    if negb (Nat.eqb (length (remove_dups authorized_camera_ids)) (length authorized_camera_ids))
    then Raise (FrameScopeConflict "authorized camera was reused across frame set")
    else
      let participant_keys :=
        remove_dups ((fun frame => (sf_authorized_subject frame, sf_session_token_jti frame)) <$> frames) in
      let member_scoped_credentials := existsb (fun frame => truthy_opt (sf_camera_claim_id frame)) frames in
      if member_scoped_credentials
         && existsb (fun frame => negb (truthy_opt (sf_camera_claim_id frame))) frames
      then Raise (FrameScopeConflict "camera credential scope conflict across frame set")
      else
        let common_participant :=
          match participant_keys with
          | [key] => if member_scoped_credentials then (None, None) else key
          | _ => (None, None)
          end in
        match authorization_group_keys with
        | (tenant_id, site_id, session_id, job_id, profile_digest) :: _ =>
            Ok (mkAuthorizationKey tenant_id site_id session_id job_id profile_digest
                  common_participant.1 common_participant.2)
        | [] => Raise (FrameScopeConflict "authorization scope conflict across frame set")
        end.

(** [identity_mode], [capture_session_id], [capture_config_key] and
    [authorization_key]. *)
Record CaptureIdentity := mkCaptureIdentity {
  ci_identity_mode : string;
  ci_capture_session_id : option string;
  ci_capture_config_key : option (list (string * string));
  ci_authorization_key : option AuthorizationKey;
}.

Definition _resolve_capture_identity `{Hashing} (frames : list StoredSyncFrame)
    : result sync_error CaptureIdentity :=
  if negb (forallb v2_complete frames)
  then Ok (mkCaptureIdentity IDENTITY_MODE_LEGACY None None None)
  else
    let authorization_group_keys :=
      remove_dups (group_key <$> filter (fun frame => existsb truthy_opt (authorization_fields frame)) frames) in
    if bool_decide (authorization_group_keys <> [])
    then
      key ← resolve_authorization frames authorization_group_keys;
      Ok (mkCaptureIdentity IDENTITY_MODE_V2 (ak_capture_session_id key)
            (Some (config_key frames)) (Some key))
    else
      capture_session_id ← lift_identity (build_capture_session_id
        ((fun frame => (default "" (sf_camera_stream_id frame),
                        default "" (sf_source_session_id frame))) <$> frames));
      Ok (mkCaptureIdentity IDENTITY_MODE_V2 (Some capture_session_id)
            (Some (config_key frames)) None).

(** ** Manifest *)

Definition authorization_json (key : AuthorizationKey) : json := JObj [
  ("tenant_id", json_opt_str (ak_tenant_id key));
  ("site_id", json_opt_str (ak_site_id key));
  ("capture_session_id", json_opt_str (ak_capture_session_id key));
  ("processing_job_id", json_opt_str (ak_processing_job_id key));
  ("profile_digest", json_opt_str (ak_profile_digest key));
  ("authorized_subject", json_opt_str (ak_authorized_subject key));
  ("session_token_jti", json_opt_str (ak_session_token_jti key))].

Definition member_json (frame : StoredSyncFrame) : json := JObj [
  ("device_id", JStr (sf_device_id frame));
  ("source_session_id", json_opt_str (sf_source_session_id frame));
  ("camera_stream_id", json_opt_str (sf_camera_stream_id frame));
  ("frame_sequence", json_opt_int (sf_sequence frame));
  ("source_frame_uid", json_opt_str (sf_source_frame_uid frame));
  ("capture_timestamp_ms", JInt (sf_timestamp_ms frame));
  ("content_type", JStr (sf_content_type frame));
  ("image_size", JInt (sf_image_size frame));
  ("content_digest", json_opt_str (sf_content_digest frame));
  ("capture_config_digest", json_opt_str (sf_capture_config_digest frame));
  ("authorized_camera_id", json_opt_str (sf_authorized_camera_id frame));
  ("camera_claim_id", json_opt_str (sf_camera_claim_id frame));
  ("authorized_subject", json_opt_str (sf_authorized_subject frame));
  ("session_token_jti", json_opt_str (sf_session_token_jti frame));
  ("capture_metadata_json", JStr (default "{}" (sf_capture_metadata_json frame)))].

(** [key=lambda item: (item.camera_stream_id or item.device_id)]. *)
Definition member_order (x y : StoredSyncFrame) : bool :=
  String.leb (or_str (sf_camera_stream_id x) (sf_device_id x))
             (or_str (sf_camera_stream_id y) (sf_device_id y)).

Definition _build_manifest_payload (capture_session_id : option string)
    (frames : list StoredSyncFrame) (identity_mode : string)
    (sync_window_ms synchronization_span_ms anchor_timestamp_ms : Z)
    (authorization_key : option AuthorizationKey) : list (string * json) := [
  ("schema_version", JInt 2);
  ("identity_mode", JStr identity_mode);
  ("capture_session_id", json_opt_str capture_session_id);
  ("authorization", match authorization_key with
                    | Some key => authorization_json key
                    | None => JNull
                    end);
  ("synchronization", JObj [
    ("algorithm", JStr "minimum-span-v1");
    ("window_ms", JInt sync_window_ms);
    ("span_ms", JInt synchronization_span_ms);
    ("anchor_timestamp_ms", JInt anchor_timestamp_ms);
    ("freshness_origin_ms", json_opt_int (min_list (sf_timestamp_ms <$> frames)))]);
  ("members", JList (member_json <$> sort_by member_order frames))].

(** ** Archive state of a frame-set *)

Definition is_degraded (frame : StoredSyncFrame) : bool :=
  bool_decide (sf_archive_state frame = ARCHIVE_DEGRADED_LIVE_ONLY).

Definition members_archive_state (frames : list StoredSyncFrame) : string :=
  if existsb is_degraded frames then ARCHIVE_DEGRADED_LIVE_ONLY else ARCHIVE_PENDING.

(** The sorted distinct errors of the degraded members, joined. *)
Definition members_archive_error (frames : list StoredSyncFrame) : option string :=
  let degraded := filter (fun frame => is_degraded frame = true) frames in
  if bool_decide (degraded = []) then None
  else Some (join "; " (sort_by String.leb (remove_dups
         ((fun frame => or_str (sf_archive_error frame) "member archive unavailable") <$> degraded)))).

(** ** Operations of the matcher *)

Definition _record_miss (m : SyncMatcher) (trigger_frame : StoredSyncFrame) (reason : string)
    (missing_cameras : list string) : SyncMatcher :=
  m <| sm_missed_count ::= Z.succ |>
    <| sm_last_anchor_timestamp_ms := Some (sf_timestamp_ms trigger_frame) |>
    <| sm_last_missing_cameras := missing_cameras |>
    <| sm_last_reason := Some reason |>.

(** [min()] of no timestamps raises; the callers have expected cameras. *)
Definition _drop_stale_frames (m : SyncMatcher) (mgr : SyncFrameBufferManager)
    : SyncMatcher * SyncFrameBufferManager :=
  let latest := latest_timestamps mgr (sm_expected_cameras m) in
  if negb (Nat.eqb (length latest) (length (sm_expected_cameras m))) then (m, mgr)
  else
    match min_list (latest.*2) with
    | None => (m, mgr)
    | Some watermark =>
        let '(mgr, dropped_count) :=
          drop_frames_older_than mgr (sm_expected_cameras m) (watermark - sm_window_ms m) None in
        (m <| sm_last_watermark_timestamp_ms := Some watermark |>
           <| sm_dropped_stale_count ::= Z.add dropped_count |>, mgr)
    end.

(** A new run when the capture identity changed, then the identity kept. *)
Definition adopt_capture (m : SyncMatcher) (ci : CaptureIdentity) (fresh_run_id : string)
    : SyncMatcher :=
  match ci_capture_session_id ci with
  | None => m
  | Some session =>
      let m :=
        match sm_capture_session_id m with
        | Some current =>
            if bool_decide (session <> current
                            \/ ci_capture_config_key ci <> sm_capture_config_key m
                            \/ ci_authorization_key ci <> sm_authorization_key m)
            then m <| sm_capture_run_id := fresh_run_id |> <| sm_next_frame_set_id := 1 |>
            else m
        | None => m
        end in
      m <| sm_capture_session_id := Some session |>
        <| sm_capture_config_key := ci_capture_config_key ci |>
        <| sm_authorization_key := ci_authorization_key ci |>
  end.

(** The [SynchronizedFrameSet] that [try_match] builds. *)
Definition make_frame_set (m : SyncMatcher) (ci : CaptureIdentity) (selected : Selection)
    (span_ms anchor_timestamp_ms synchronized_at_ms : Z) (manifest_digest manifest_json : string)
    (frame_set_uid : option string) : SynchronizedFrameSet :=
  let frames := selected.*2 in
  let key := ci_authorization_key ci in {|
    fs_frame_set_id := sm_next_frame_set_id m;
    fs_anchor_timestamp_ms := anchor_timestamp_ms;
    fs_max_delta_ms := span_ms;
    fs_frames := selected;
    fs_span_ms := Some span_ms;
    fs_capture_session_id := ci_capture_session_id ci;
    fs_capture_run_id := Some (sm_capture_run_id m);
    fs_frame_set_uid := frame_set_uid;
    fs_manifest_digest := Some manifest_digest;
    fs_manifest_json := Some manifest_json;
    fs_identity_mode := ci_identity_mode ci;
    fs_archive_state := members_archive_state frames;
    fs_archive_error := members_archive_error frames;
    fs_sync_window_ms := sm_window_ms m;
    fs_synchronized_at_ms := synchronized_at_ms;
    fs_member_count := Z.of_nat (length selected);
    fs_tenant_id := key ≫= ak_tenant_id;
    fs_site_id := key ≫= ak_site_id;
    fs_processing_job_id := key ≫= ak_processing_job_id;
    fs_profile_digest := key ≫= ak_profile_digest;
    fs_authorized_subject := key ≫= ak_authorized_subject;
    fs_session_token_jti := key ≫= ak_session_token_jti;
  |}.

(** The bookkeeping after a match, up to the stale drop. *)
Definition record_match (m : SyncMatcher) (frame_set : SynchronizedFrameSet) : SyncMatcher :=
  m <| sm_next_frame_set_id ::= Z.succ |>
    <| sm_matched_count ::= Z.succ |>
    <| sm_last_frame_set_id := Some (fs_frame_set_id frame_set) |>
    <| sm_last_anchor_timestamp_ms := Some (fs_anchor_timestamp_ms frame_set) |>
    <| sm_last_max_delta_ms := Some (fs_max_delta_ms frame_set) |>
    <| sm_last_span_ms := Some (fs_max_delta_ms frame_set) |>
    <| sm_last_missing_cameras := [] |>
    <| sm_last_reason := Some "matched" |>
    <| sm_last_identity_mode := Some (fs_identity_mode frame_set) |>
    <| sm_legacy_identity_count ::= fun n =>
         if bool_decide (fs_identity_mode frame_set = IDENTITY_MODE_LEGACY) then n + 1 else n |>
    <| sm_last_archive_state := Some (fs_archive_state frame_set) |>
    <| sm_last_archive_error := fs_archive_error frame_set |>
    <| sm_archive_degraded_count ::= fun n =>
         if bool_decide (fs_archive_state frame_set = ARCHIVE_DEGRADED_LIVE_ONLY) then n + 1 else n |>
    <| sm_recent_frame_sets ::= fun l => deque_append (sm_recent_limit m) l frame_set |>.

Section TryMatch.
Context `{Hashing}.

(** The frame-set of a selection and the bookkeeping of a match: from the
    anchor to [_recent_frame_sets.append]. *)
Definition make_match (m : SyncMatcher) (selected : Selection) (span_ms : Z)
    (ci : CaptureIdentity) (now_ms : Z) : SyncMatcher * result sync_error SynchronizedFrameSet :=
  let frames := selected.*2 in
  match max_list (sf_timestamp_ms <$> frames) with
  | None => (m, Raise (SyncValueError "max() arg is an empty sequence"))
  | Some anchor_timestamp_ms =>
      let payload := _build_manifest_payload (ci_capture_session_id ci) frames
        (ci_identity_mode ci) (sm_window_ms m) span_ms anchor_timestamp_ms
        (ci_authorization_key ci) in
      let manifest_digest := build_manifest_digest payload in
      let synchronized_at_ms := Z.max now_ms (sm_last_synchronized_at_ms m + 1) in
      let m := m <| sm_last_synchronized_at_ms := synchronized_at_ms |> in
      let uid := if bool_decide (ci_identity_mode ci = IDENTITY_MODE_V2)
                 then Some <$> lift_identity (build_frame_set_uid manifest_digest)
                 else Ok None in
      match uid with
      | Raise e => (m, Raise e)
      | Ok frame_set_uid =>
          let frame_set := make_frame_set m ci selected span_ms anchor_timestamp_ms
            synchronized_at_ms manifest_digest (canonical_json (JObj payload)) frame_set_uid in
          (record_match m frame_set, Ok frame_set)
      end
  end.

(** [try_match] from the consumption of the selection on. *)
Definition emit_frame_set (m : SyncMatcher) (mgr : SyncFrameBufferManager)
    (selected : Selection) (span_ms : Z) (ci : CaptureIdentity) (now_ms : Z) (fresh_run_id : string)
    : SyncMatcher * SyncFrameBufferManager * result sync_error (option SynchronizedFrameSet) :=
  let '(mgr, superseded) := consume_through mgr selected in
  match superseded with
  | Raise e => (m, mgr, Raise e)
  | Ok superseded =>
      let m := m <| sm_dropped_superseded_count ::= Z.add superseded |> in
      let m := adopt_capture m ci fresh_run_id in
      let '(m, r) := make_match m selected span_ms ci now_ms in
      match r with
      | Raise e => (m, mgr, Raise e)
      | Ok frame_set =>
          let '(m, mgr) := _drop_stale_frames m mgr in (m, mgr, Ok (Some frame_set))
      end
  end.

Definition miss (m : SyncMatcher) (mgr : SyncFrameBufferManager) (trigger_frame : StoredSyncFrame)
    (reason : string) (missing_cameras : list string)
    : SyncMatcher * SyncFrameBufferManager * result sync_error (option SynchronizedFrameSet) :=
  let '(m, mgr) := _drop_stale_frames (_record_miss m trigger_frame reason missing_cameras) mgr in
  (m, mgr, Ok None).

Definition try_match (m : SyncMatcher) (mgr : SyncFrameBufferManager)
    (trigger_frame : StoredSyncFrame) (now_ms : Z) (fresh_run_id : string)
    : SyncMatcher * SyncFrameBufferManager * result sync_error (option SynchronizedFrameSet) :=
  if bool_decide (sm_expected_cameras m = [])
  then (_record_miss m trigger_frame "expected cameras are not configured" [], mgr, Ok None)
  else if bool_decide (sf_device_id trigger_frame ∉ sm_expected_cameras m)
  then
    (m <| sm_ignored_count ::= Z.succ |>
       <| sm_last_anchor_timestamp_ms := Some (sf_timestamp_ms trigger_frame) |>
       <| sm_last_missing_cameras := [] |>
       <| sm_last_reason := Some ("unexpected camera: " +:+ sf_device_id trigger_frame) |>,
     mgr, Ok None)
  else
    match _select_min_span_candidate (sm_expected_cameras m) (sm_window_ms m) mgr with
    | (_, (_ :: _) as missing_cameras) =>
        miss m mgr trigger_frame "missing cameras inside sync window" missing_cameras
    | (None, []) => miss m mgr trigger_frame "no frame set inside sync window" []
    | (Some (selected, span_ms), []) =>
        match _resolve_capture_identity (selected.*2) with
        | Raise (FrameScopeConflict reason) => miss m mgr trigger_frame reason []
        | Raise e => (m, mgr, Raise e)
        | Ok ci => emit_frame_set m mgr selected span_ms ci now_ms fresh_run_id
        end
    end.
End TryMatch.

(** [m._replace_recent_frame_set(updated)]. *)
Definition same_set (x y : SynchronizedFrameSet) : bool :=
  bool_decide (fs_capture_run_id x = fs_capture_run_id y) &&
  bool_decide (fs_frame_set_id x = fs_frame_set_id y).

Definition _replace_recent_frame_set (m : SyncMatcher) (updated : SynchronizedFrameSet) : SyncMatcher :=
  m <| sm_recent_frame_sets ::= fun l => deque_trim (sm_recent_limit m)
         ((fun item => if same_set item updated then updated else item) <$> l) |>.

Definition finalize_archive_state (m : SyncMatcher) (frame_set : SynchronizedFrameSet)
    (state : string) (error : option string) : SyncMatcher * SynchronizedFrameSet :=
  let updated := frame_set <| fs_archive_state := state |> <| fs_archive_error := error |> in
  let m := m <| sm_archive_degraded_count ::= fun n =>
    if bool_decide (fs_archive_state frame_set <> ARCHIVE_DEGRADED_LIVE_ONLY
                    /\ state = ARCHIVE_DEGRADED_LIVE_ONLY) then n + 1 else n |> in
  let m := m <| sm_last_archive_state := Some state |> <| sm_last_archive_error := error |> in
  (_replace_recent_frame_set m updated, updated).

(** The loop of [replace_frame_member]: the first member with the key. *)
Fixpoint replace_member (frames : Selection) (frame : StoredSyncFrame) : Selection :=
  match frames with
  | [] => []
  | (device_id, member) :: rest =>
      if bool_decide (sf_buffer_key member = sf_buffer_key frame)
      then (device_id, frame) :: rest
      else (device_id, member) :: replace_member rest frame
  end.

Definition with_member (frame_set : SynchronizedFrameSet) (frame : StoredSyncFrame)
    : SynchronizedFrameSet :=
  let frames := replace_member (fs_frames frame_set) frame in
  frame_set <| fs_frames := frames |>
            <| fs_archive_state := members_archive_state (frames.*2) |>
            <| fs_archive_error := members_archive_error (frames.*2) |>.

Definition replace_frame_member (m : SyncMatcher) (frame_set : SynchronizedFrameSet)
    (frame : StoredSyncFrame) : SyncMatcher * SynchronizedFrameSet :=
  let updated := with_member frame_set frame in
  let m := m <| sm_archive_degraded_count ::= fun n =>
    if bool_decide (fs_archive_state frame_set <> ARCHIVE_DEGRADED_LIVE_ONLY
                    /\ fs_archive_state updated = ARCHIVE_DEGRADED_LIVE_ONLY) then n + 1 else n |> in
  let m := m <| sm_last_archive_state := Some (fs_archive_state updated) |>
             <| sm_last_archive_error := fs_archive_error updated |> in
  (_replace_recent_frame_set m updated, updated).

Definition has_member (frame : StoredSyncFrame) (frame_set : SynchronizedFrameSet) : bool :=
  existsb (fun item => bool_decide (sf_buffer_key item.2 = sf_buffer_key frame)) (fs_frames frame_set).

Definition replace_recent_frame_member (m : SyncMatcher) (frame : StoredSyncFrame)
    : SyncMatcher * option SynchronizedFrameSet :=
  match find (has_member frame) (reverse (sm_recent_frame_sets m)) with
  | Some frame_set =>
      let '(m, updated) := replace_frame_member m frame_set frame in (m, Some updated)
  | None => (m, None)
  end.

(** The dict [status] returns. *)
Record MatcherStatus := mkMatcherStatus {
  st_matched_count : Z;
  st_missed_count : Z;
  st_duplicate_count : Z;
  st_ignored_count : Z;
  st_last_frame_set_id : option Z;
  st_last_anchor_timestamp_ms : option Z;
  st_last_max_delta_ms : option Z;
  st_last_span_ms : option Z;
  st_watermark_timestamp_ms : option Z;
  st_dropped_stale_count : Z;
  st_dropped_superseded_count : option Z;
  st_last_missing_cameras : list string;
  st_last_reason : option string;
  st_capture_session_id : option string;
  st_capture_run_id : option string;
  st_last_identity_mode : option string;
  st_legacy_identity_count : Z;
  st_last_archive_state : option string;
  st_last_archive_error : option string;
  st_archive_degraded_count : Z;
}.

Definition matcher_status (m : SyncMatcher) : MatcherStatus := {|
  st_matched_count := sm_matched_count m;
  st_missed_count := sm_missed_count m;
  st_duplicate_count := sm_duplicate_count m;
  st_ignored_count := sm_ignored_count m;
  st_last_frame_set_id := sm_last_frame_set_id m;
  st_last_anchor_timestamp_ms := sm_last_anchor_timestamp_ms m;
  st_last_max_delta_ms := sm_last_max_delta_ms m;
  st_last_span_ms := sm_last_span_ms m;
  st_watermark_timestamp_ms := sm_last_watermark_timestamp_ms m;
  st_dropped_stale_count := sm_dropped_stale_count m;
  st_dropped_superseded_count := Some (sm_dropped_superseded_count m);
  st_last_missing_cameras := sm_last_missing_cameras m;
  st_last_reason := sm_last_reason m;
  st_capture_session_id := sm_capture_session_id m;
  st_capture_run_id := Some (sm_capture_run_id m);
  st_last_identity_mode := sm_last_identity_mode m;
  st_legacy_identity_count := sm_legacy_identity_count m;
  st_last_archive_state := sm_last_archive_state m;
  st_last_archive_error := sm_last_archive_error m;
  st_archive_degraded_count := sm_archive_degraded_count m;
|}.

Definition recent_frame_sets (m : SyncMatcher) : list SynchronizedFrameSet := sm_recent_frame_sets m.

(** ** Correctness of the selection *)

Lemma heap_leb_order :
  (forall x y, heap_leb x y = true \/ heap_leb y x = true) /\
  (forall x y z, heap_leb x y = true -> heap_leb y z = true -> heap_leb x z = true).
Proof.
  assert (forall x y : Z, (x <? y) = true \/ x = y \/ (y <? x) = true) as Hz by lia.
  assert (forall x y z : Z, (x <? y) = true -> (y <? z) = true -> (x <? z) = true) as Hz' by lia.
  assert (forall x y : nat, Nat.leb x y = true \/ Nat.leb y x = true) as Hn
    by (intros; rewrite !Nat.leb_le; lia).
  assert (forall x y z : nat, Nat.leb x y = true -> Nat.leb y z = true -> Nat.leb x z = true) as Hn'
    by (intros *; rewrite !Nat.leb_le; lia).
  split; unfold heap_leb.
  - apply (lex_total he_timestamp_ms Z.ltb Z.eqb); [done|apply Z.eqb_eq|].
    apply (lex_total he_buffer_key String.ltb String.eqb); [apply string_ltb_total|apply String.eqb_eq|].
    apply (lex_total he_device_id String.ltb String.eqb); [apply string_ltb_total|apply String.eqb_eq|].
    intros. apply Hn.
  - apply (lex_trans he_timestamp_ms Z.ltb Z.eqb); [done|apply Z.eqb_eq|].
    apply (lex_trans he_buffer_key String.ltb String.eqb); [apply string_ltb_trans|apply String.eqb_eq|].
    apply (lex_trans he_device_id String.ltb String.eqb); [apply string_ltb_trans|apply String.eqb_eq|].
    intros *. apply Hn'.
Qed.

Lemma heap_leb_timestamp x y : heap_leb x y = true -> he_timestamp_ms x <= he_timestamp_ms y.
Proof. unfold heap_leb at 1, lex_leb at 1. intros [H|[H _]%andb_true_iff]%orb_true_iff; lia. Qed.

Lemma heappush_sorted heap e :
  StronglySorted (le_by heap_leb) heap -> StronglySorted (le_by heap_leb) (heappush heap e).
Proof. apply insert_by_sorted; apply heap_leb_order. Qed.

(** *** Selections and their span *)

(** One buffered frame per device of the lists, in their order. *)
Definition selection_of (L : CandidateLists) (sel : Selection) : Prop :=
  sel.*1 = L.*1 /\ forall d f, (d, f) ∈ sel -> exists l, (d, l) ∈ L /\ f ∈ l.

(** The distance between a selection's latest and earliest timestamps. *)
Definition span_of (sel : Selection) : option Z :=
  hi ← max_list (sf_timestamp_ms <$> sel.*2);
  lo ← min_list (sf_timestamp_ms <$> sel.*2);
  Some (hi - lo).

Lemma span_of_Some sel s : span_of sel = Some s <->
  exists hi lo, max_list (sf_timestamp_ms <$> sel.*2) = Some hi /\
                min_list (sf_timestamp_ms <$> sel.*2) = Some lo /\ s = hi - lo.
Proof.
  unfold span_of. destruct (max_list _), (min_list _); cbn; naive_solver.
Qed.

Lemma span_of_bound sel x y :
  x ∈ sel -> y ∈ sel ->
  exists s, span_of sel = Some s /\ sf_timestamp_ms x.2 - sf_timestamp_ms y.2 <= s.
Proof.
  intros Hx Hy. set (ts := sf_timestamp_ms <$> sel.*2).
  assert (forall z, z ∈ sel -> sf_timestamp_ms z.2 ∈ ts) as Hin.
  { intros z Hz. apply list_elem_of_fmap_2, list_elem_of_fmap_2. done. }
  assert (ts <> []) as Hne.
  { intros E. apply Hin in Hx. rewrite E in Hx. by apply elem_of_nil in Hx. }
  destruct (max_list_is_Some _ Hne) as [hi Hhi]. destruct (min_list_is_Some _ Hne) as [lo Hlo].
  exists (hi - lo). split; [apply span_of_Some; eauto|].
  apply max_list_Some in Hhi as [_ Hhi]. apply min_list_Some in Hlo as [_ Hlo].
  specialize (Hhi _ (Hin _ Hx)). specialize (Hlo _ (Hin _ Hy)). lia.
Qed.

Section Select.
Context (L : CandidateLists).
Context (L_keys : NoDup (L.*1)).
Context (L_sorted : forall d l, (d, l) ∈ L ->
  StronglySorted (fun x y => sf_timestamp_ms x <= sf_timestamp_ms y) l).

(** The state of the loop, given by one index per device. *)
Implicit Types (p : string -> nat).

Definition pointed p : Selection := omap (fun '(d, l) => (fun f => (d, f)) <$> l !! p d) L.
Definition pointed_heap p (K : CandidateLists) : list HeapEntry :=
  omap (fun '(d, l) => heap_entry d (p d) <$> l !! p d) K.

Definition advance (d : string) p : string -> nat :=
  fun d' => if decide (d = d') then S (p d) else p d'.

Lemma advance_eq d p : advance d p d = S (p d).
Proof using. unfold advance. by rewrite decide_True. Qed.

Lemma advance_ne d d' p : d <> d' -> advance d p d' = p d'.
Proof using. intros. unfold advance. by rewrite decide_False. Qed.

Definition valid p : Prop := forall d l, (d, l) ∈ L -> (p d < length l)%nat.

(** The frames the pointers have not passed. *)
Definition remaining p (sel : Selection) : Prop :=
  forall d f, (d, f) ∈ sel -> exists l, (d, l) ∈ L /\ f ∈ drop (p d) l.

Lemma lists_functional d l l' : (d, l) ∈ L -> (d, l') ∈ L -> l = l'.
Proof using L_keys.
  intros H1 H2. apply (dict_elem_get _ _ _ L_keys) in H1, H2. congruence.
Qed.

Lemma elem_of_pointed p d f : (d, f) ∈ pointed p <-> exists l, (d, l) ∈ L /\ l !! p d = Some f.
Proof.
  unfold pointed. rewrite list_elem_of_omap. split.
  - intros ([d' l] & Hin & Hf). destruct (l !! p d') eqn:E; [|done]. naive_solver.
  - intros (l & Hin & Hf). exists (d, l). by rewrite Hf.
Qed.

Lemma pointed_keys p : valid p -> (pointed p).*1 = L.*1.
Proof using.
  clear. unfold valid, pointed. induction L as [|[d l] K IH]; intros Hv; [done|]. cbn.
  destruct (lookup_lt_is_Some_2 l (p d)) as [f Hf]; [apply Hv; left|].
  rewrite Hf. cbn. f_equal. apply IH. intros d' l' Hin. apply Hv. by right.
Qed.

Lemma pointed_selection p : valid p -> selection_of L (pointed p).
Proof using.
  clear L_keys. intros Hv. split; [by apply pointed_keys|].
  intros d f (l & Hin & Hf)%elem_of_pointed. exists l. split; [done|]. by eapply list_elem_of_lookup_2.
Qed.

Lemma pointed_advance p d l f :
  (d, l) ∈ L -> valid p -> l !! S (p d) = Some f ->
  pointed (advance d p) = dict_set d f (pointed p).
Proof using L_keys.
  intros Hin Hv Hf. clear L_sorted. unfold pointed, valid in *.
  induction L as [|[d' l'] K IH]; [by apply elem_of_nil in Hin|].
  cbn in L_keys. apply NoDup_cons in L_keys as [Hd' Hk]. cbn [omap list_omap].
  destruct (lookup_lt_is_Some_2 l' (p d')) as [g Hg]; [apply Hv; left|]. rewrite Hg. cbn [fmap option_fmap].
  cbn [dict_set]. destruct (decide (d = d')) as [->|Hne].
  - assert (l = l') as ->.
    { apply elem_of_cons in Hin as [Hin|Hin]; [congruence|].
      exfalso. apply Hd'. apply (list_elem_of_fmap_2 fst) in Hin. done. }
    rewrite advance_eq. rewrite Hf. cbn. rewrite decide_True by done. f_equal.
    clear -Hd'. induction K as [|[d l] K IH]; [done|]. cbn.
    rewrite advance_ne by set_solver.
    destruct (l !! p d); cbn; [f_equal|]; apply IH; set_solver.
  - rewrite advance_ne by done. rewrite Hg. cbn. rewrite decide_False by done. f_equal.
    apply elem_of_cons in Hin as [Hin|Hin]; [congruence|].
    apply IH; [done|done|]. intros d1 l1 Hin1. apply Hv. by right.
Qed.

Lemma pointed_heap_other p d K : d ∉ K.*1 -> pointed_heap (advance d p) K = pointed_heap p K.
Proof using.
  clear. unfold pointed_heap. induction K as [|[d' l] K IH]; [done|]. cbn. intros Hd.
  rewrite advance_ne by set_solver.
  rewrite IH by set_solver. done.
Qed.

Lemma lists_split d l : (d, l) ∈ L -> exists K, L ≡ₚ (d, l) :: K /\ (d ∉ K.*1).
Proof using L_keys.
  intros Hin. apply elem_of_Permutation in Hin as [K HK]. exists K. split; [done|].
  rewrite HK in L_keys. by apply NoDup_cons in L_keys as [? _].
Qed.

(** *** The loop *)

Definition fuel_left p : nat := sum_list ((fun '(d, l) => length l - p d)%nat <$> L).

Lemma fuel_left_advance p d l :
  (d, l) ∈ L -> (p d < length l)%nat -> fuel_left p = S (fuel_left (advance d p)).
Proof using L_keys.
  intros Hin Hlt. destruct (lists_split _ _ Hin) as (K & HK & Hd). unfold fuel_left.
  assert (forall q, sum_list ((fun '(d, l) => length l - q d)%nat <$> L) =
          ((length l - q d) + sum_list ((fun '(d, l) => length l - q d)%nat <$> K))%nat) as Hsum.
  { intros q. rewrite HK. done. }
  rewrite !Hsum. rewrite advance_eq.
  assert (((fun '(d', l) => length l - advance d p d')%nat <$> K) =
          ((fun '(d', l) => length l - p d')%nat <$> K)) as ->; [|lia].
  clear -Hd. induction K as [|[d' l] K IH]; [done|]. cbn. f_equal; [|apply IH; set_solver].
  rewrite advance_ne; [done|set_solver].
Qed.

Record loop_inv p (heap : list HeapEntry) (current : Selection) (current_max : Z)
    (best : option (Selection * Z)) : Prop := {
  li_valid : valid p;
  li_current : current = pointed p;
  li_heap : heap ≡ₚ pointed_heap p L;
  li_sorted : StronglySorted (le_by heap_leb) heap;
  li_max : max_list (sf_timestamp_ms <$> (pointed p).*2) = Some current_max;
  li_best : forall sel s, best = Some (sel, s) -> selection_of L sel /\ span_of sel = Some s;
  li_optimal : forall sel, selection_of L sel -> remaining p sel \/
    exists b s s', best = Some (b, s) /\ span_of sel = Some s' /\ s <= s';
}.

(** What the loop is to return: a selection of smallest span. *)
Definition optimal (best : option (Selection * Z)) : Prop :=
  exists sel s, best = Some (sel, s) /\ selection_of L sel /\ span_of sel = Some s /\
    forall sel', selection_of L sel' -> exists s', span_of sel' = Some s' /\ s <= s'.

(** The popped entry is the current frame of one device, the earliest. *)
Lemma popped p e heap current current_max best :
  loop_inv p (e :: heap) current current_max best ->
  exists d l f K, e = heap_entry d (p d) f /\ (d, l) ∈ L /\ l !! p d = Some f /\
    L ≡ₚ (d, l) :: K /\ (d ∉ K.*1) /\ heap ≡ₚ pointed_heap p K /\
    min_list (sf_timestamp_ms <$> (pointed p).*2) = Some (sf_timestamp_ms f).
Proof using L_keys.
  intros [Hv -> Hh Hs Hmax _ _].
  assert (e ∈ pointed_heap p L) as He by (rewrite <- Hh; left).
  unfold pointed_heap in He. apply list_elem_of_omap in He as ([d l] & Hin & He).
  destruct (l !! p d) as [f|] eqn:Hf; [|done]. injection He as <-.
  destruct (lists_split _ _ Hin) as (K & HK & Hd). exists d, l, f, K. split_and!; try done.
  - apply (Permutation_cons_inv (a := heap_entry d (p d) f)). rewrite Hh. unfold pointed_heap.
    rewrite HK. cbn. by rewrite Hf.
  - apply min_list_Some. split.
    + apply (list_elem_of_fmap_2 sf_timestamp_ms). apply (list_elem_of_fmap_2 snd _ (d, f)).
      apply elem_of_pointed. eauto.
    + intros t Ht. apply list_elem_of_fmap in Ht as (g & -> & Hg).
      apply list_elem_of_fmap in Hg as ([d' g'] & -> & Hg). cbn.
      apply elem_of_pointed in Hg as (l' & Hin' & Hg').
      assert (heap_entry d' (p d') g' ∈ heap_entry d (p d) f :: heap) as Hin2.
      { rewrite Hh. apply list_elem_of_omap. exists (d', l'). by rewrite Hg'. }
      apply elem_of_cons in Hin2 as [E|Hin2].
      * apply (f_equal he_timestamp_ms) in E. cbn in E. lia.
      * inversion Hs as [|? ? _ Hall]; subst. rewrite Forall_forall in Hall.
        exact (heap_leb_timestamp _ _ (Hall _ Hin2)).
Qed.

(** Every selection that still uses the popped frame spans at least what
    the current frames span. *)
Lemma remaining_cases p d l f sel current_max :
  valid p -> (d, l) ∈ L -> l !! p d = Some f ->
  max_list (sf_timestamp_ms <$> (pointed p).*2) = Some current_max ->
  selection_of L sel -> remaining p sel ->
  remaining (advance d p) sel \/
  exists s, span_of sel = Some s /\ current_max - sf_timestamp_ms f <= s.
Proof using L_keys L_sorted.
  intros Hv Hin Hf Hmax [Hkeys Hsel] Hrem.
  assert (exists g, (d, g) ∈ sel) as [g Hg].
  { assert (d ∈ sel.*1) as Hd by (rewrite Hkeys; by apply (list_elem_of_fmap_2 fst) in Hin).
    apply list_elem_of_fmap in Hd as ([d' g] & -> & ?). eauto. }
  destruct (Hrem _ _ Hg) as (l' & Hin' & Hgd). rewrite (lists_functional _ _ _ Hin' Hin) in Hgd.
  rewrite (drop_S _ _ _ Hf) in Hgd. apply elem_of_cons in Hgd as [->|Hgd].
  - right. apply max_list_Some in Hmax as [Hmax _].
    apply list_elem_of_fmap in Hmax as (h & -> & Hh).
    apply list_elem_of_fmap in Hh as ([dh h'] & -> & Hh). cbn.
    apply elem_of_pointed in Hh as (lh & Hlh & Hh).
    assert (exists k, (dh, k) ∈ sel) as [k Hk].
    { assert (dh ∈ sel.*1) as Hd by (rewrite Hkeys; by apply (list_elem_of_fmap_2 fst) in Hlh).
      apply list_elem_of_fmap in Hd as ([d' k] & -> & ?). eauto. }
    destruct (Hrem _ _ Hk) as (lk & Hlk & Hkd). rewrite (lists_functional _ _ _ Hlk Hlh) in Hkd.
    assert (sf_timestamp_ms h' <= sf_timestamp_ms k) as Hle.
    { rewrite (drop_S _ _ _ Hh) in Hkd. apply elem_of_cons in Hkd as [->|Hkd]; [lia|].
      pose proof (L_sorted _ _ Hlh) as Hs.
      rewrite <- (take_drop (p dh) lh), (drop_S _ _ _ Hh) in Hs.
      apply (StronglySorted_suffix _ (h' :: drop (S (p dh)) lh)) in Hs; [|by eexists].
      inversion Hs as [|? ? _ Hall]; subst. rewrite Forall_forall in Hall. by apply Hall. }
    destruct (span_of_bound sel _ _ Hk Hg) as (s & Hs & Hle'). cbn in Hle'.
    exists s. split; [done|]. lia.
  - left. intros d' f' Hf'. destruct (Hrem _ _ Hf') as (l1 & Hl1 & Hd1). exists l1. split; [done|].
    unfold advance. destruct (decide (d = d')) as [<-|Hne]; [|done].
    rewrite (lists_functional _ _ _ Hl1 Hin).
    assert (NoDup (sel.*1)) as Hnd by by rewrite Hkeys.
    apply (dict_elem_get _ _ _ Hnd) in Hg, Hf'. by assert (f' = g) as -> by congruence.
Qed.
Lemma elem_of_pointed_timestamps p t :
  t ∈ sf_timestamp_ms <$> (pointed p).*2 <->
  exists d l f, (d, l) ∈ L /\ l !! p d = Some f /\ t = sf_timestamp_ms f.
Proof.
  rewrite list_elem_of_fmap. split.
  - intros (f & -> & ([d g] & -> & (l & ? & ?)%elem_of_pointed)%list_elem_of_fmap). eauto 10.
  - intros (d & l & f & Hl & Hf & ->). exists f. split; [done|].
    apply list_elem_of_fmap. exists (d, f). split; [done|]. apply elem_of_pointed. eauto.
Qed.

Lemma next_not_earlier d l i f g :
  (d, l) ∈ L -> l !! i = Some f -> l !! S i = Some g -> sf_timestamp_ms f <= sf_timestamp_ms g.
Proof using L_sorted.
  intros Hin Hf Hg. pose proof (L_sorted _ _ Hin) as Hs.
  rewrite <- (take_drop i l), (drop_S _ _ _ Hf), (drop_S _ _ _ Hg) in Hs.
  apply (StronglySorted_suffix _ (f :: g :: drop (S (S i)) l)) in Hs; [|by eexists].
  inversion Hs as [|? ? _ Hall]; subst. by inversion Hall.
Qed.

Lemma max_advance p d l f g current_max :
  (d, l) ∈ L -> l !! p d = Some f -> l !! S (p d) = Some g ->
  max_list (sf_timestamp_ms <$> (pointed p).*2) = Some current_max ->
  max_list (sf_timestamp_ms <$> (pointed (advance d p)).*2) =
  Some (Z.max current_max (sf_timestamp_ms g)).
Proof using L_keys L_sorted.
  intros Hin Hf Hg [Hmax Hle]%max_list_Some.
  pose proof (next_not_earlier _ _ _ _ _ Hin Hf Hg) as Hfg. apply max_list_Some. split.
  - apply elem_of_pointed_timestamps.
    destruct (Z.max_spec current_max (sf_timestamp_ms g)) as [[Hlt ->]|[Hlt ->]].
    + exists d, l, g. by rewrite advance_eq.
    + apply elem_of_pointed_timestamps in Hmax as (d1 & l1 & h & Hl1 & Hh & ->).
      destruct (decide (d = d1)) as [<-|Hne].
      * exists d, l, g. rewrite advance_eq. split_and!; [done|done|].
        rewrite (lists_functional _ _ _ Hl1 Hin), Hf in Hh. injection Hh as <-. lia.
      * exists d1, l1, h. by rewrite advance_ne.
  - intros t (d1 & l1 & h & Hl1 & Hh & ->)%elem_of_pointed_timestamps.
    destruct (decide (d = d1)) as [<-|Hne].
    + rewrite advance_eq, (lists_functional _ _ _ Hl1 Hin), Hg in Hh. injection Hh as <-. lia.
    + rewrite advance_ne in Hh by done.
      assert (sf_timestamp_ms h <= current_max); [|lia].
      apply Hle, elem_of_pointed_timestamps. by exists d1, l1, h.
Qed.

Lemma loop_step p heap current current_max best best' d l f g K :
  loop_inv p (heap_entry d (p d) f :: heap) current current_max best ->
  (d, l) ∈ L -> l !! p d = Some f -> l !! S (p d) = Some g ->
  L ≡ₚ (d, l) :: K -> d ∉ K.*1 -> heap ≡ₚ pointed_heap p K ->
  (forall sel s, best' = Some (sel, s) -> selection_of L sel /\ span_of sel = Some s) ->
  (forall sel, selection_of L sel -> remaining (advance d p) sel \/
    exists b s s', best' = Some (b, s) /\ span_of sel = Some s' /\ s <= s') ->
  loop_inv (advance d p) (heappush heap (heap_entry d (S (p d)) g))
    (dict_set d g current) (Z.max current_max (sf_timestamp_ms g)) best'.
Proof using L_keys L_sorted.
  intros [Hv -> Hh Hs Hmax Hbest Hopt] Hin Hf Hg HK Hd Hheap Hb' Ho'. split.
  - intros d' l' Hin'. destruct (decide (d = d')) as [<-|Hne].
    + rewrite advance_eq, (lists_functional _ _ _ Hin' Hin). by eapply lookup_lt_Some.
    + rewrite advance_ne by done. by apply Hv.
  - symmetry. by eapply pointed_advance.
  - unfold heappush. rewrite insert_by_perm, Hheap. rewrite <- (pointed_heap_other p d K Hd).
    unfold pointed_heap. rewrite HK. cbn. by rewrite advance_eq, Hg.
  - apply heappush_sorted. by inversion Hs.
  - by eapply max_advance.
  - exact Hb'.
  - exact Ho'.
Qed.

(** With enough fuel the loop ends, with a selection of smallest span. *)
Lemma select_loop_optimal fuel p heap current current_max best :
  L <> [] -> (fuel_left p < fuel)%nat -> loop_inv p heap current current_max best ->
  exists r, select_loop fuel L heap current current_max best = Some r /\ optimal r.
Proof using L_keys L_sorted.
  intros Hne. revert p heap current current_max best.
  induction fuel as [|fuel IH]; intros p heap current current_max best Hfuel Hinv; [lia|].
  cbn [select_loop]. destruct heap as [|e heap].
  { exfalso. destruct Hinv as [Hv _ Hh _ Hmax _ _].
    apply max_list_Some in Hmax as [(d & l & f & Hl & Hf & _)%elem_of_pointed_timestamps _].
    assert (heap_entry d (p d) f ∈ pointed_heap p L) as Hin.
    { apply list_elem_of_omap. exists (d, l). by rewrite Hf. }
    rewrite <- Hh in Hin. by apply elem_of_nil in Hin. }
  destruct (popped _ _ _ _ _ _ Hinv) as (d & l & f & K & -> & Hin & Hf & HK & Hd & Hheap & Hmin).
  cbn [he_timestamp_ms he_device_id he_index heap_entry].
  pose proof Hinv as [Hv Hcur _ _ Hmax Hbest Hopt].
  set (span := current_max - sf_timestamp_ms f) in *.
  assert (span_of current = Some span) as Hspan by (subst current; apply span_of_Some; eauto).
  assert (selection_of L current) as Hsel by (subst current; by apply pointed_selection).
  set (improved := match best with None => true | Some (_, s) => span <? s end).
  set (best' := if improved then Some (current, span) else best).
  assert (exists b s, best' = Some (b, s) /\ s <= span /\
            (forall b0 s0, best = Some (b0, s0) -> s <= s0)) as (b & s & Eb & Hs & Hs0).
  { subst best' improved. destruct best as [[b0 s0]|].
    - destruct (Z.ltb_spec span s0); [exists current, span|exists b0, s0];
        (split_and!; [done|lia|]); intros ? ? [= <- <-]; lia.
    - exists current, span. split_and!; [done|lia|done]. }
  assert (forall sel s, best' = Some (sel, s) -> selection_of L sel /\ span_of sel = Some s) as Hb'.
  { intros sel s1. subst best'. destruct improved; [|apply Hbest]. by intros [= <- <-]. }
  assert (forall sel, selection_of L sel -> remaining (advance d p) sel \/
            exists b s s', best' = Some (b, s) /\ span_of sel = Some s' /\ s <= s') as Ho'.
  { intros sel Hs1. destruct (Hopt sel Hs1) as [Hrem|(b0 & s0 & s' & E0 & E1 & Hle)].
    - destruct (remaining_cases _ _ _ _ _ _ Hv Hin Hf Hmax Hs1 Hrem) as [?|(s' & E1 & Hle)];
        [by left|right]. exists b, s, s'. split_and!; [done|done|]. fold span in Hle. lia.
    - right. exists b, s, s'. split_and!; [done|done|]. specialize (Hs0 _ _ E0). lia. }
  destruct (improved && (span =? 0)) eqn:Ez.
  - apply andb_true_iff in Ez as [Ei Ez%Z.eqb_eq]. exists best'. split; [done|].
    assert (best' = Some (current, span)) as E by (unfold best'; by rewrite Ei).
    exists current, span. split_and!; try done. intros sel' [Hk _].
    assert (exists x, x ∈ sel') as [x Hx].
    { destruct sel' as [|x sel']; [|by exists x; left].
      destruct L; [done|discriminate Hk]. }
    destruct (span_of_bound sel' x x Hx Hx) as (s' & Es & Hle). exists s'. split; [done|lia].
  - rewrite (dict_elem_get _ _ _ L_keys Hin). cbn [mbind option_bind].
    destruct (l !! S (p d)) as [g|] eqn:Hg.
    + apply (IH (advance d p)).
      * pose proof (fuel_left_advance p d l Hin (Hv _ _ Hin)). lia.
      * by eapply loop_step.
    + exists best'. split; [done|]. exists b, s. split_and!; [done|apply (Hb' b s Eb)..|].
      intros sel' Hs'. destruct (Ho' sel' Hs') as [Hrem|(b1 & s1 & s2 & E1 & E2 & Hle)].
      * exfalso. destruct Hs' as [Hk _].
        assert (d ∈ sel'.*1) as Hd' by (rewrite Hk; by apply (list_elem_of_fmap_2 fst) in Hin).
        apply list_elem_of_fmap in Hd' as ([d' h] & -> & Hdh). cbn in *.
        destruct (Hrem _ _ Hdh) as (l' & Hl' & Hdrop).
        rewrite advance_eq, (lists_functional _ _ _ Hl' Hin), drop_ge in Hdrop
          by by apply lookup_ge_None.
        by apply elem_of_nil in Hdrop.
      * exists s2. split; [done|]. congruence.
Qed.
End Select.

(** *** From the buffers to the loop *)

Lemma start_selection_spec L :
  NoDup (L.*1) -> (forall d l, (d, l) ∈ L -> l <> []) ->
  exists heap cur mx, start_selection L = (heap, cur, mx) /\
    cur = pointed L (fun _ => 0%nat) /\ heap ≡ₚ pointed_heap (fun _ => 0%nat) L /\
    StronglySorted (le_by heap_leb) heap /\
    mx = max_list (sf_timestamp_ms <$> cur.*2).
Proof.
  unfold start_selection. induction L as [|[d l] K IH] using rev_ind; intros Hnd Hne.
  { exists [], [], None. split_and!; try done. constructor. }
  rewrite fmap_app in Hnd. apply NoDup_app in Hnd as (Hnd & Hdisj & _).
  destruct IH as (heap & cur & mx & E & Hc & Hh & Hs & Hm); [done| |].
  { intros d' l' Hin. apply (Hne d'). apply elem_of_app. by left. }
  rewrite foldl_app, E. cbn [foldl].
  destruct l as [|f l]; [by destruct (Hne d []); [apply elem_of_app; right; left|]|].
  assert (d ∉ cur.*1) as Hd.
  { intros Hin. rewrite Hc, pointed_keys in Hin.
    - apply (Hdisj d); [done|left].
    - intros d' l' Hin'. destruct l'; [|cbn; lia]. exfalso. apply (Hne d' []); [|done].
      apply elem_of_app. by left. }
  eexists _, _, _. split; [done|]. rewrite dict_set_new by done. split_and!.
  - rewrite Hc. unfold pointed. by rewrite omap_app.
  - unfold heappush. rewrite insert_by_perm, Hh. unfold pointed_heap. rewrite omap_app. cbn.
    by rewrite Permutation_app_comm.
  - by apply heappush_sorted.
  - rewrite !fmap_app. cbn. subst mx. destruct (sf_timestamp_ms <$> cur.*2) as [|t ts]; [done|].
    cbn. f_equal. rewrite foldl_app. cbn. done.
Qed.

Lemma start_loop_inv L heap cur mx :
  NoDup (L.*1) -> (forall d l, (d, l) ∈ L -> l <> []) ->
  start_selection L = (heap, cur, Some mx) ->
  loop_inv L (fun _ => 0%nat) heap cur mx None.
Proof.
  intros Hnd Hne E. destruct (start_selection_spec L Hnd Hne) as (h & c & m & E' & -> & Hh & Hs & Hm).
  rewrite E' in E. simplify_eq. split; try done.
  - intros d l Hin. destruct l; [by destruct (Hne _ _ Hin)|cbn; lia].
  - intros sel [_ Hsel]. left. intros d f Hin. destruct (Hsel _ _ Hin) as (l & Hl & Hf).
    exists l. by rewrite drop_0.
Qed.

Lemma fuel_left_zero L : fuel_left L (fun _ => 0%nat) = sum_list ((fun item => length item.2) <$> L).
Proof.
  unfold fuel_left. f_equal. apply list_fmap_ext. intros _ [d l] _. cbn. lia.
Qed.

Lemma collect_candidates_spec mgr expected L missing :
  collect_candidates mgr expected = (L, missing) ->
  NoDup (L.*1) /\ missing = filter (fun d => available_frames mgr d None = []) expected /\
  forall d l, (d, l) ∈ L <->
    d ∈ expected /\ l = available_frames mgr d None /\ l <> [].
Proof.
  unfold collect_candidates. revert L missing.
  induction expected as [|d expected IH] using rev_ind; intros L missing.
  { intros [= <- <-]. split_and!; [constructor|done|].
    intros d l. rewrite !elem_of_nil. naive_solver. }
  rewrite foldl_app. destruct (foldl _ _ expected) as [K miss] eqn:E. cbn [foldl].
  destruct (IH _ _ eq_refl) as (Hnd & -> & HK). rewrite filter_app, filter_cons.
  destruct (available_frames mgr d None) as [|f l] eqn:Ea.
  - intros [= <- <-]. rewrite decide_True by done. split_and!; [done|done|].
    intros d' l'. rewrite HK, elem_of_app, list_elem_of_singleton.
    split; [naive_solver|]. intros ([?| ->] & -> & ?); [done|congruence].
  - intros [= <- <-]. rewrite decide_False by done. split_and!.
    + by auto with gc.
    + by rewrite app_nil_r.
    + intros d' l'. rewrite elem_of_app, list_elem_of_singleton. split.
      * intros Hin. apply dict_elem_get in Hin; [|by apply dict_set_NoDup].
        destruct (decide (d = d')) as [<-|Hne].
        -- rewrite dict_get_set in Hin. injection Hin as <-. rewrite Ea. naive_solver.
        -- rewrite dict_get_set_ne in Hin by done. apply dict_get_elem, HK in Hin. naive_solver.
      * intros ([Hd'| ->] & -> & Hne).
        -- apply dict_get_elem. destruct (decide (d = d')) as [<-|Hne'].
           ++ by rewrite dict_get_set, Ea.
           ++ rewrite dict_get_set_ne by done. apply dict_elem_get; [done|]. by apply HK.
        -- rewrite Ea. apply dict_get_elem, dict_get_set.
Qed.

(** One buffered frame for every expected camera. *)
Definition frame_choice (mgr : SyncFrameBufferManager) (expected : list string) (sel : Selection)
    : Prop :=
  NoDup (sel.*1) /\ (forall d, d ∈ sel.*1 <-> d ∈ expected) /\
  forall d f, (d, f) ∈ sel -> f ∈ available_frames mgr d None.

Lemma span_of_perm sel sel' s :
  (forall x, x ∈ sel <-> x ∈ sel') -> span_of sel = Some s -> span_of sel' = Some s.
Proof.
  intros Hx. rewrite !span_of_Some. intros (hi & lo & Hhi & Hlo & ->). exists hi, lo.
  assert (forall t, t ∈ sf_timestamp_ms <$> sel.*2 <-> t ∈ sf_timestamp_ms <$> sel'.*2) as Ht.
  { intros t. rewrite !list_elem_of_fmap. setoid_rewrite list_elem_of_fmap.
    setoid_rewrite Hx. done. }
  split_and!; [| |done].
  - apply max_list_Some in Hhi as [? Hle]. apply max_list_Some. rewrite <- Ht. split; [done|].
    intros y. rewrite <- Ht. apply Hle.
  - apply min_list_Some in Hlo as [? Hle]. apply min_list_Some. rewrite <- Ht. split; [done|].
    intros y. rewrite <- Ht. apply Hle.
Qed.

(** A choice, put in the order of the candidate lists. *)
Lemma choice_selection mgr expected L sel :
  collect_candidates mgr expected = (L, []) -> frame_choice mgr expected sel ->
  exists sel', selection_of L sel' /\ forall x, x ∈ sel' <-> x ∈ sel.
Proof.
  intros HL (Hnd & Hkeys & Hav).
  apply collect_candidates_spec in HL as (HndL & Hmiss & HL).
  assert (forall d, d ∈ L.*1 <-> d ∈ sel.*1) as Hd.
  { intros d. rewrite Hkeys. rewrite list_elem_of_fmap. split.
    - intros ([d' l] & -> & Hin). cbn. by apply HL in Hin as [? _].
    - intros Hin. exists (d, available_frames mgr d None). split; [done|]. apply HL.
      split_and!; [done|done|]. intros Hnil.
      assert (d ∈ filter (fun d => available_frames mgr d None = []) expected) as Hf
        by by apply list_elem_of_filter.
      rewrite <- Hmiss in Hf. by apply elem_of_nil in Hf. }
  set (sel' := omap (fun d => (fun f => (d, f)) <$> dict_get d sel) (L.*1)).
  assert (forall d f, (d, f) ∈ sel' <-> (d, f) ∈ sel) as Hsel'.
  { intros d f. unfold sel'. rewrite list_elem_of_omap. split.
    - intros (d' & Hin & E). destruct (dict_get d' sel) as [g|] eqn:Eg; [|done].
      injection E as -> ->. by apply dict_get_elem.
    - intros Hin. exists d. split; [apply Hd; by apply (list_elem_of_fmap_2 fst) in Hin|].
      by rewrite (dict_elem_get _ _ _ Hnd Hin). }
  exists sel'. split; [|by intros [d f]]. split.
  - assert (forall d, d ∈ L.*1 -> is_Some (dict_get d sel)) as Hsome.
    { intros d Hin. apply not_eq_None_Some. intros Hn. apply dict_get_None in Hn. by apply Hn, Hd. }
    unfold sel'. clear -Hsome. induction (L.*1) as [|d ds IH]; [done|]. cbn.
    destruct (Hsome d) as [f Hf]; [left|]. rewrite Hf. cbn. f_equal. apply IH.
    intros d' Hin. apply Hsome. by right.
  - intros d f Hin%Hsel'. pose proof (Hav _ _ Hin) as Hf.
    exists (available_frames mgr d None). split; [|done]. apply HL.
    split_and!; [|done|by intros E; rewrite E in Hf; apply elem_of_nil in Hf].
    apply Hkeys. by apply (list_elem_of_fmap_2 fst) in Hin.
Qed.

Lemma available_sorted_timestamps mgr d :
  StronglySorted (fun x y => sf_timestamp_ms x <= sf_timestamp_ms y) (available_frames mgr d None).
Proof.
  unfold available_frames. destruct (bm_buffers mgr !! d) as [b|]; [|constructor].
  rewrite <- (list_fmap_id (buffer_available_frames b None)).
  eapply StronglySorted_map; [|apply available_frames_sorted].
  intros x y _ _ Hxy. apply frame_leb_spec in Hxy. cbn. lia.
Qed.

(** More fuel does not change a result. *)
Lemma select_loop_fuel fuel fuel' L heap current current_max best r :
  select_loop fuel L heap current current_max best = Some r -> (fuel <= fuel')%nat ->
  select_loop fuel' L heap current current_max best = Some r.
Proof.
  revert fuel' heap current current_max best. induction fuel as [|fuel IH]; intros fuel' heap current current_max best; [done|].
  intros E Hf. destruct fuel' as [|fuel']; [lia|]. cbn [select_loop] in *.
  destruct heap as [|e heap]; [done|]. cbv zeta in *.
  destruct (_ && _); [done|]. destruct (_ ≫= _) as [f|]; [|done]. apply IH; [done|lia].
Qed.

(** The candidates of cameras that all have frames, and the loop on them. *)
Lemma candidates_loop mgr expected L : expected <> [] -> collect_candidates mgr expected = (L, []) ->
  NoDup (L.*1) /\ (forall d l, (d, l) ∈ L <-> d ∈ expected /\ l = available_frames mgr d None /\ l <> []) /\
  exists heap cur mx sel s, start_selection L = (heap, cur, Some mx) /\
    select_loop (span_fuel L) L heap cur mx None = Some (Some (sel, s)) /\
    selection_of L sel /\ span_of sel = Some s /\
    forall sel', selection_of L sel' -> exists s', span_of sel' = Some s' /\ s <= s'.
Proof.
  intros Hexp EL. pose proof (collect_candidates_spec _ _ _ _ EL) as (Hnd & Hmiss & HL).
  split; [done|]. split; [done|].
  assert (forall d, d ∈ expected -> available_frames mgr d None <> []) as Hall.
  { intros d Hin Hnil.
    assert (d ∈ filter (fun d => available_frames mgr d None = []) expected) as Hf
      by by apply list_elem_of_filter.
    rewrite <- Hmiss in Hf. by apply elem_of_nil in Hf. }
  assert (forall d l, (d, l) ∈ L -> l <> []) as Hne by (intros d l Hin; by apply HL in Hin as (_ & _ & ?)).
  assert (L <> []) as HneL.
  { destruct expected as [|d ds]; [done|]. intros ->. clear Hne.
    assert ((d, available_frames mgr d None) ∈ @nil (string * list StoredSyncFrame)) as Hin.
    { apply HL. split_and!; [left|done|apply Hall; left]. }
    by apply elem_of_nil in Hin. }
  assert (forall d l, (d, l) ∈ L ->
            StronglySorted (fun x y => sf_timestamp_ms x <= sf_timestamp_ms y) l) as Hsorted.
  { intros d l Hin. apply HL in Hin as (_ & -> & _). apply available_sorted_timestamps. }
  destruct (start_selection_spec L Hnd Hne) as (heap & cur & mx & Est & Hc & _ & _ & Hm).
  destruct mx as [mx|].
  2: { exfalso. subst cur. destruct L as [|[d l] K]; [done|]. destruct l as [|f l]; [|done].
       by destruct (Hne d []); [left|]. }
  destruct (select_loop_optimal L Hnd Hsorted (span_fuel L) (fun _ => 0%nat) heap cur mx None)
    as (r & Er & sel & s & -> & Hsel & Hspan & Hopt); [done| | |].
  { rewrite fuel_left_zero. unfold span_fuel. lia. }
  { by apply start_loop_inv. }
  by exists heap, cur, mx, sel, s.
Qed.

(** The selection as a whole: what it answers and that the answer is best. *)
Lemma select_min_span_spec expected window mgr :
  expected <> [] ->
  match _select_min_span_candidate expected window mgr with
  | (Some (sel, span), missing) =>
      missing = [] /\ frame_choice mgr expected sel /\ span_of sel = Some span /\ span <= window /\
      forall sel', frame_choice mgr expected sel' ->
        exists span', span_of sel' = Some span' /\ span <= span'
  | (None, []) =>
      (forall d, d ∈ expected -> available_frames mgr d None <> []) /\
      forall sel', frame_choice mgr expected sel' ->
        exists span', span_of sel' = Some span' /\ window < span'
  | (None, missing) =>
      missing = filter (fun d => available_frames mgr d None = []) expected
  end.
Proof.
  intros Hexp. unfold _select_min_span_candidate.
  destruct (collect_candidates mgr expected) as [L missing] eqn:EL.
  pose proof (collect_candidates_spec _ _ _ _ EL) as (_ & Hmiss & _).
  destruct missing as [|d0 ds]; [|by rewrite bool_decide_eq_true_2].
  rewrite bool_decide_eq_false_2 by naive_solver.
  destruct (candidates_loop mgr expected L Hexp EL)
    as (Hnd & HL & heap & cur & mx & sel & s & Est & Er & Hsel & Hspan & Hopt).
  assert (forall d, d ∈ expected -> available_frames mgr d None <> []) as Hall.
  { intros d Hin Hnil. assert (d ∈ @nil string) as Hf by (rewrite Hmiss; by apply list_elem_of_filter).
    by apply elem_of_nil in Hf. }
  rewrite Est.
  rewrite Er. cbv [default id].
  assert (forall sel', frame_choice mgr expected sel' ->
            exists s', span_of sel' = Some s' /\ s <= s') as Hbest.
  { intros sel' Hsel'. destruct (choice_selection _ _ _ _ EL Hsel') as (sel2 & H2 & Hperm).
    destruct (Hopt _ H2) as (s' & Es' & Hle). exists s'. split; [|done]. by eapply span_of_perm. }
  assert (frame_choice mgr expected sel) as Hchoice.
  { destruct Hsel as [Hk Hm']. split_and!.
    - by rewrite Hk.
    - intros d. rewrite Hk, list_elem_of_fmap. split.
      + intros ([d' l] & -> & Hin). by apply HL in Hin as [? _].
      + intros Hin. exists (d, available_frames mgr d None). split; [done|]. apply HL. auto.
    - intros d f Hin. destruct (Hm' _ _ Hin) as (l & Hl & Hf). apply HL in Hl as (_ & -> & _). done. }
  destruct (Z.ltb_spec window s) as [Hlt|Hge].
  - split; [done|]. intros sel' Hsel'. destruct (Hbest _ Hsel') as (s' & ? & ?). exists s'. split; [done|lia].
  - done.
Qed.

(** ** [try_match] *)

(** What the bookkeeping of misses and stale drops leaves alone. *)
Definition matcher_core (m : SyncMatcher) :=
  (sm_expected_cameras m, sm_window_ms m, sm_recent_limit m, sm_next_frame_set_id m,
   (sm_capture_session_id m, sm_capture_config_key m, sm_authorization_key m),
   sm_capture_run_id m, sm_last_synchronized_at_ms m, sm_recent_frame_sets m).

Lemma drop_stale_core m mgr : matcher_core (_drop_stale_frames m mgr).1 = matcher_core m.
Proof.
  unfold _drop_stale_frames. case_match; [done|]. case_match; [|done].
  by destruct (drop_frames_older_than _ _ _ _).
Qed.

Lemma drop_stale_manager m mgr :
  (_drop_stale_frames m mgr).2 = mgr \/
  exists t, (_drop_stale_frames m mgr).2 = (drop_frames_older_than mgr (sm_expected_cameras m) t None).1.
Proof.
  unfold _drop_stale_frames. case_match; [by left|]. case_match; [|by left]. right.
  destruct (drop_frames_older_than _ _ _ _) eqn:E. eexists. by rewrite E.
Qed.

Lemma drop_stale_ok m mgr : manager_ok mgr -> manager_ok (_drop_stale_frames m mgr).2.
Proof.
  intros Hm. destruct (drop_stale_manager m mgr) as [->|[t ->]]; [done|by apply manager_ok_drop].
Qed.

Lemma drop_stale_ordered m mgr :
  manager_ok mgr -> manager_ordered mgr -> manager_ordered (_drop_stale_frames m mgr).2.
Proof.
  intros Hm Ho. destruct (drop_stale_manager m mgr) as [->|[t ->]]; [done|by apply manager_ordered_drop].
Qed.

Section TryMatchSpec.
Context `{Hashing}.
Implicit Types (m : SyncMatcher) (mgr : SyncFrameBufferManager).

Lemma miss_core m mgr f reason missing m' mgr' r :
  miss m mgr f reason missing = (m', mgr', r) ->
  r = Ok None /\ matcher_core m' = matcher_core m /\
  mgr' = (_drop_stale_frames (_record_miss m f reason missing) mgr).2.
Proof.
  unfold miss. destruct (_drop_stale_frames _ mgr) as [m1 mgr1] eqn:E. intros [= <- <- <-].
  split; [done|]. split; [|done]. change m1 with ((m1, mgr1).1). rewrite <- E.
  by rewrite drop_stale_core.
Qed.

(** The devices of a choice have buffers. *)
Lemma choice_has_buffers mgr expected sel :
  frame_choice mgr expected sel -> forall d, d ∈ sel.*1 -> is_Some (bm_buffers mgr !! d).
Proof.
  intros (_ & _ & Hav) d Hd. apply list_elem_of_fmap in Hd as ([d' f] & -> & Hin).
  specialize (Hav _ _ Hin). unfold available_frames in Hav. cbn.
  destruct (bm_buffers mgr !! d'); [done|by apply elem_of_nil in Hav].
Qed.

Lemma choice_nonempty mgr expected sel :
  expected <> [] -> frame_choice mgr expected sel -> sel.*2 <> [].
Proof.
  intros He (_ & Hk & _) E. destruct expected as [|d ds]; [done|].
  apply fmap_nil_inv in E as ->. specialize (proj2 (Hk d) ltac:(left)). apply elem_of_nil.
Qed.

Lemma emitted_manifest_uid `{!HexDigest} p :
  exists u, build_frame_set_uid (build_manifest_digest p) = Ok u.
Proof.
  unfold build_frame_set_uid, _required_text, build_manifest_digest.
  destruct (hex_digest_ok (canonical_json (JObj p))) as [Hne Hs]. rewrite Hs. unfold truthy.
  rewrite bool_decide_eq_false_2 by done. eexists. reflexivity.
Qed.

(** The frame-set [try_match] emits for a selection. *)
Definition emitted_set m sel span ci now run : SynchronizedFrameSet :=
  let frames := sel.*2 in
  let anchor := default 0 (max_list (sf_timestamp_ms <$> frames)) in
  let payload := _build_manifest_payload (ci_capture_session_id ci) frames (ci_identity_mode ci)
    (sm_window_ms m) span anchor (ci_authorization_key ci) in
  make_frame_set (adopt_capture m ci run) ci sel span anchor
    (Z.max now (sm_last_synchronized_at_ms m + 1))
    (build_manifest_digest payload) (canonical_json (JObj payload))
    (if bool_decide (ci_identity_mode ci = IDENTITY_MODE_V2)
     then match build_frame_set_uid (build_manifest_digest payload) with
          | Ok u => Some u | Raise _ => None end
     else None).

Lemma adopt_capture_core m ci run :
  sm_expected_cameras (adopt_capture m ci run) = sm_expected_cameras m /\
  sm_window_ms (adopt_capture m ci run) = sm_window_ms m /\
  sm_recent_limit (adopt_capture m ci run) = sm_recent_limit m /\
  sm_last_synchronized_at_ms (adopt_capture m ci run) = sm_last_synchronized_at_ms m /\
  sm_recent_frame_sets (adopt_capture m ci run) = sm_recent_frame_sets m.
Proof. unfold adopt_capture. by repeat case_match. Qed.

(** The run and the next identifier either stay or start afresh. *)
Lemma adopt_capture_run m ci run :
  let m1 := adopt_capture m ci run in
  (sm_capture_run_id m1 = sm_capture_run_id m /\ sm_next_frame_set_id m1 = sm_next_frame_set_id m) \/
  (sm_capture_run_id m1 = run /\ sm_next_frame_set_id m1 = 1 /\
   exists s s', sm_capture_session_id m = Some s /\ ci_capture_session_id ci = Some s' /\
   (s' <> s \/ ci_capture_config_key ci <> sm_capture_config_key m \/
    ci_authorization_key ci <> sm_authorization_key m)).
Proof.
  unfold adopt_capture. destruct (ci_capture_session_id ci) as [s'|]; [|by left].
  destruct (sm_capture_session_id m) as [s|]; [|by left].
  case_bool_decide as E; [right|by left]. cbn. split_and!; try done. eauto.
Qed.

Lemma adopt_capture_same m m0 ci run :
  matcher_core m0 = matcher_core m ->
  matcher_core (adopt_capture m0 ci run) = matcher_core (adopt_capture m ci run).
Proof.
  unfold matcher_core. intros E. injection E as E1 E2 E3 E4 E5 E6 E7 E8 E9 E10.
  unfold adopt_capture. destruct (ci_capture_session_id ci); cbn; [|congruence].
  rewrite E5. destruct (sm_capture_session_id m); cbn; [|congruence].
  rewrite E6, E7. case_bool_decide; cbn; congruence.
Qed.

Lemma make_match_spec `{!HexDigest} m0 m sel span ci now run :
  matcher_core m0 = matcher_core (adopt_capture m ci run) -> sel.*2 <> [] ->
  let fs := emitted_set m sel span ci now run in
  exists m', make_match m0 sel span ci now = (m', Ok fs) /\
    matcher_core m' =
      (sm_expected_cameras m, sm_window_ms m, sm_recent_limit m, fs_frame_set_id fs + 1,
       (sm_capture_session_id m0, sm_capture_config_key m0, sm_authorization_key m0),
       sm_capture_run_id (adopt_capture m ci run), fs_synchronized_at_ms fs,
       deque_append (sm_recent_limit m) (sm_recent_frame_sets m) fs).
Proof.
  intros Hcore Hne fs. destruct (adopt_capture_core m ci run) as (A1 & A2 & A3 & A4 & A5).
  pose proof Hcore as E. unfold matcher_core in E.
  injection E as E1 E2 E3 E4 E5 E6 E7 E8 E9 E10.
  destruct (max_list_is_Some (sf_timestamp_ms <$> sel.*2)) as [anchor Ea].
  { by intros E%fmap_nil_inv. }
  unfold make_match. rewrite Ea.
  destruct (emitted_manifest_uid (_build_manifest_payload (ci_capture_session_id ci) sel.*2
    (ci_identity_mode ci) (sm_window_ms m0) span anchor (ci_authorization_key ci))) as [u Eu].
  rewrite Eu. cbn [lift_identity fmap result_fmap].
  assert (fs = make_frame_set m0 ci sel span anchor (Z.max now (sm_last_synchronized_at_ms m0 + 1))
    (build_manifest_digest (_build_manifest_payload (ci_capture_session_id ci) sel.*2
    (ci_identity_mode ci) (sm_window_ms m0) span anchor (ci_authorization_key ci)))
    (canonical_json (JObj (_build_manifest_payload (ci_capture_session_id ci) sel.*2
    (ci_identity_mode ci) (sm_window_ms m0) span anchor (ci_authorization_key ci))))
    (if bool_decide (ci_identity_mode ci = IDENTITY_MODE_V2) then Some u else None)) as Efs.
  { unfold fs, emitted_set. rewrite Ea. cbn [default]. unfold id.
    rewrite <- A2, <- E2, Eu. unfold make_frame_set. by rewrite E4, E8, E9, A4, E2, A2. }
  clearbody fs. subst fs.
  destruct (bool_decide (ci_identity_mode ci = IDENTITY_MODE_V2));
    (eexists; split; [reflexivity|]);
    unfold matcher_core; cbn -[_build_manifest_payload build_manifest_digest canonical_json];
    by rewrite <- A1, <- A2, <- A3, <- A5, <- E1, <- E2, <- E3, <- E8, <- E10.
Qed.

Lemma emit_frame_set_spec `{!HexDigest} m mgr sel span ci now run :
  manager_ok mgr -> sm_expected_cameras m <> [] -> frame_choice mgr (sm_expected_cameras m) sel ->
  let fs := emitted_set m sel span ci now run in
  let mgr1 := (consume_through mgr sel).1 in
  exists m1,
    emit_frame_set m mgr sel span ci now run =
      ((_drop_stale_frames m1 mgr1).1, (_drop_stale_frames m1 mgr1).2, Ok (Some fs)) /\
    matcher_core m1 =
      (sm_expected_cameras m, sm_window_ms m, sm_recent_limit m, fs_frame_set_id fs + 1,
       (sm_capture_session_id (adopt_capture m ci run),
        sm_capture_config_key (adopt_capture m ci run),
        sm_authorization_key (adopt_capture m ci run)),
       sm_capture_run_id (adopt_capture m ci run), fs_synchronized_at_ms fs,
       deque_append (sm_recent_limit m) (sm_recent_frame_sets m) fs).
Proof.
  intros Hm Hne Hc fs mgr1. unfold emit_frame_set.
  destruct (consume_through_spec mgr sel Hm) as ((n & En & _) & _ & _);
    [apply Hc|by eapply choice_has_buffers|].
  unfold mgr1. destruct (consume_through mgr sel) as [mgr2 r]. cbn [fst snd] in *. subst r.
  set (m0 := adopt_capture (m <| sm_dropped_superseded_count ::= Z.add n |>) ci run).
  assert (matcher_core m0 = matcher_core (adopt_capture m ci run)) as Hcore
    by by apply adopt_capture_same.
  destruct (make_match_spec m0 m sel span ci now run Hcore) as (m1 & E & Hm1);
    [by eapply choice_nonempty|].
  rewrite E. exists m1. split.
  - by destruct (_drop_stale_frames m1 mgr2).
  - rewrite Hm1. unfold matcher_core in Hcore. injection Hcore as _ _ _ _ -> -> -> _ _ _. done.
Qed.
End TryMatchSpec.

(** ** What the manifest determines *)

Lemma json_opt_str_inj s t : json_opt_str s = json_opt_str t -> s = t.
Proof. destruct s, t; cbn; congruence. Qed.

Lemma json_opt_int_inj s t : json_opt_int s = json_opt_int t -> s = t.
Proof. destruct s, t; cbn; congruence. Qed.

Lemma sort_keys_opt_str s : sort_keys (json_opt_str s) = json_opt_str s.
Proof. by destruct s. Qed.

Lemma sort_keys_opt_int s : sort_keys (json_opt_int s) = json_opt_int s.
Proof. by destruct s. Qed.

(** The identity of a member, as the manifest records it. *)
Definition member_identity (f : StoredSyncFrame) :=
  (sf_device_id f, sf_source_session_id f, sf_camera_stream_id f, sf_sequence f,
   sf_source_frame_uid f, sf_timestamp_ms f, sf_content_digest f).

Lemma member_json_inj f g :
  sort_keys (member_json f) = sort_keys (member_json g) -> member_identity f = member_identity g.
Proof.
  unfold member_json. cbn. rewrite !sort_keys_opt_str, !sort_keys_opt_int. intros E.
  injection E. intros. unfold member_identity.
  repeat match goal with
         | E : json_opt_str _ = json_opt_str _ |- _ => apply json_opt_str_inj in E
         | E : json_opt_int _ = json_opt_int _ |- _ => apply json_opt_int_inj in E
         end. congruence.
Qed.

Lemma floats_ok_opt_str s : floats_ok (json_opt_str s) = true.
Proof. by destruct s. Qed.

Lemma floats_ok_opt_int s : floats_ok (json_opt_int s) = true.
Proof. by destruct s. Qed.

Lemma member_json_floats f : floats_ok (member_json f) = true.
Proof. unfold member_json. cbn. by rewrite !floats_ok_opt_str, !floats_ok_opt_int. Qed.

Lemma payload_floats s fs mode w span a key :
  floats_ok (JObj (_build_manifest_payload s fs mode w span a key)) = true.
Proof.
  unfold _build_manifest_payload. cbn. rewrite floats_ok_opt_str, floats_ok_opt_int.
  assert (floats_ok (match key with Some key => authorization_json key | None => JNull end) = true)
    as ->. { destruct key; [|done]. cbn. by rewrite !floats_ok_opt_str. }
  rewrite !andb_true_r. cbn. induction (sort_by member_order fs) as [|f l IH]; [done|].
  cbn [fmap list_fmap forallb]. by rewrite member_json_floats.
Qed.

Lemma cons_inv {A} (x y : A) l k : x :: l = y :: k -> x = y /\ l = k.
Proof. by intros [= -> ->]. Qed.

Lemma payload_members s fs mode w span a key s' fs' mode' w' span' a' key' :
  sort_keys (JObj (_build_manifest_payload s fs mode w span a key)) =
  sort_keys (JObj (_build_manifest_payload s' fs' mode' w' span' a' key')) ->
  member_identity <$> sort_by member_order fs = member_identity <$> sort_by member_order fs' /\
  s = s' /\ w = w' /\ span = span' /\ a = a'.
Proof.
  unfold _build_manifest_payload. cbn -[sort_by member_order].
  change (sort_by key_leb ?l) with (foldr (insert_by key_leb) [] l). cbn -[sort_by member_order].
  rewrite !sort_keys_opt_str. intros E. injection E. intros.
  split_and!; try congruence.
  - clear E. match goal with E : sort_keys <$> (member_json <$> _) = _ |- _ => rename E into El end.
    revert El. generalize (sort_by member_order fs), (sort_by member_order fs').
    intros l. induction l as [|f l IH]; intros [|g l'] El; try discriminate El; [done|].
    rewrite !fmap_cons in El. apply cons_inv in El as [Eh Et]. rewrite !fmap_cons.
    f_equal; [by apply member_json_inj|by apply IH].
  - by apply json_opt_str_inj.
Qed.

(** ** The outcomes of [try_match] *)

Section Outcomes.
Context `{Hashing} `{!HexDigest}.
Implicit Types (m : SyncMatcher) (mgr : SyncFrameBufferManager).

Inductive match_outcome m mgr f now run
  : SyncMatcher * SyncFrameBufferManager * result sync_error (option SynchronizedFrameSet) -> Prop :=
| MatchIgnored m' :
    sm_expected_cameras m = [] \/ sf_device_id f ∉ sm_expected_cameras m ->
    matcher_core m' = matcher_core m -> match_outcome m mgr f now run (m', mgr, Ok None)
| MatchMissed m1 m' mgr' reason missing :
    sf_device_id f ∈ sm_expected_cameras m ->
    m1 = _record_miss m f reason missing ->
    (m', mgr') = _drop_stale_frames m1 mgr ->
    (reason = "missing cameras inside sync window" /\ missing <> [] /\
       missing = filter (fun d => available_frames mgr d None = []) (sm_expected_cameras m)) \/
    (missing = [] /\ reason = "no frame set inside sync window" /\
       forall sel, frame_choice mgr (sm_expected_cameras m) sel ->
         exists s, span_of sel = Some s /\ sm_window_ms m < s) \/
    (missing = [] /\ exists sel s,
       frame_choice mgr (sm_expected_cameras m) sel /\ span_of sel = Some s /\
       s <= sm_window_ms m /\ _resolve_capture_identity sel.*2 = Raise (FrameScopeConflict reason)) ->
    match_outcome m mgr f now run (m', mgr', Ok None)
| MatchRaised e sel :
    frame_choice mgr (sm_expected_cameras m) sel ->
    _resolve_capture_identity sel.*2 = Raise e -> (forall r, e <> FrameScopeConflict r) ->
    match_outcome m mgr f now run (m, mgr, Raise e)
| MatchEmitted m1 sel s ci :
    sm_expected_cameras m <> [] -> sf_device_id f ∈ sm_expected_cameras m ->
    frame_choice mgr (sm_expected_cameras m) sel -> span_of sel = Some s ->
    s <= sm_window_ms m ->
    (forall sel', frame_choice mgr (sm_expected_cameras m) sel' ->
       exists s', span_of sel' = Some s' /\ s <= s') ->
    _resolve_capture_identity sel.*2 = Ok ci ->
    matcher_core m1 =
      (sm_expected_cameras m, sm_window_ms m, sm_recent_limit m,
       fs_frame_set_id (emitted_set m sel s ci now run) + 1,
       (sm_capture_session_id (adopt_capture m ci run),
        sm_capture_config_key (adopt_capture m ci run),
        sm_authorization_key (adopt_capture m ci run)),
       sm_capture_run_id (adopt_capture m ci run),
       fs_synchronized_at_ms (emitted_set m sel s ci now run),
       deque_append (sm_recent_limit m) (sm_recent_frame_sets m) (emitted_set m sel s ci now run)) ->
    match_outcome m mgr f now run
      ((_drop_stale_frames m1 (consume_through mgr sel).1).1,
       (_drop_stale_frames m1 (consume_through mgr sel).1).2,
       Ok (Some (emitted_set m sel s ci now run))).

Lemma try_match_outcome m mgr f now run :
  manager_ok mgr -> match_outcome m mgr f now run (try_match m mgr f now run).
Proof.
  intros Hm. unfold try_match. case_bool_decide as He.
  { apply MatchIgnored; [by left|done]. }
  case_bool_decide as Hd; [apply MatchIgnored; [by right|done]|].
  pose proof (select_min_span_spec _ (sm_window_ms m) mgr He) as Hsel.
  destruct (_select_min_span_candidate _ _ _) as [[[sel s]|] missing].
  - destruct Hsel as (-> & Hc & Hs & Hw & Hopt).
    destruct (_resolve_capture_identity sel.*2) as [ci|e] eqn:Er.
    + destruct (emit_frame_set_spec m mgr sel s ci now run Hm He Hc) as (m1 & -> & Hm1).
      by apply MatchEmitted.
    + destruct e as [msg|msg|k]; [by eapply MatchRaised| |by eapply MatchRaised].
      unfold miss. destruct (_drop_stale_frames _ mgr) as [m2 mgr2] eqn:E.
      eapply MatchMissed; [done|done|by rewrite E|]. do 2 right. split; [done|]. eauto 10.
  - destruct missing as [|d ds].
    + unfold miss. destruct (_drop_stale_frames _ mgr) as [m2 mgr2] eqn:E.
      eapply MatchMissed; [done|done|by rewrite E|]. right. left. naive_solver.
    + unfold miss. destruct (_drop_stale_frames _ mgr) as [m2 mgr2] eqn:E.
      eapply MatchMissed; [done|done|by rewrite E|]. left. naive_solver.
Qed.

Lemma try_match_manager_ok m mgr f now run :
  manager_ok mgr -> manager_ok (try_match m mgr f now run).1.2.
Proof.
  intros Hm. destruct (try_match_outcome m mgr f now run Hm)
    as [m' _ _|m1 m' mgr' ? ? _ _ E _|e sel _ _ _|m1 sel s ci _ _ _ _ _ _ _ _]; cbn; try done.
  - change mgr' with ((m', mgr').2). rewrite E. by apply drop_stale_ok.
  - by apply drop_stale_ok, manager_ok_consume.
Qed.

Lemma try_match_ordered m mgr f now run :
  manager_ok mgr -> manager_ordered mgr -> manager_ordered (try_match m mgr f now run).1.2.
Proof.
  intros Hm Ho. destruct (try_match_outcome m mgr f now run Hm)
    as [m' _ _|m1 m' mgr' ? ? _ _ E _|e sel _ _ _|m1 sel s ci _ _ _ _ _ _ _ _]; cbn; try done.
  - change mgr' with ((m', mgr').2). rewrite E. by apply drop_stale_ordered.
  - by apply drop_stale_ordered; [apply manager_ok_consume|apply manager_ordered_consume].
Qed.

(** What a call leaves of the emission state, and what it emits. *)
Lemma try_match_core m mgr f now run :
  manager_ok mgr ->
  let '(m', _, r) := try_match m mgr f now run in
  sm_expected_cameras m' = sm_expected_cameras m /\ sm_window_ms m' = sm_window_ms m /\
  sm_recent_limit m' = sm_recent_limit m /\
  match r with
  | Ok (Some fs) =>
      ((sm_capture_run_id m' = sm_capture_run_id m /\ fs_frame_set_id fs = sm_next_frame_set_id m) \/
       (sm_capture_run_id m' = run /\ fs_frame_set_id fs = 1)) /\
      fs_capture_run_id fs = Some (sm_capture_run_id m') /\
      sm_next_frame_set_id m' = fs_frame_set_id fs + 1 /\
      fs_synchronized_at_ms fs = Z.max now (sm_last_synchronized_at_ms m + 1) /\
      sm_last_synchronized_at_ms m' = fs_synchronized_at_ms fs /\
      sm_recent_frame_sets m' = deque_append (sm_recent_limit m) (sm_recent_frame_sets m) fs
  | _ => matcher_core m' = matcher_core m
  end.
Proof.
  intros Hm. destruct (try_match_outcome m mgr f now run Hm)
    as [m' _ E|m1 m' mgr' ? ? _ -> E _|e sel _ _ _|m1 sel s ci _ _ _ _ _ _ _ Hm1].
  - split_and!; try done; by (unfold matcher_core in E; injection E).
  - pose proof (drop_stale_core (_record_miss m f reason missing) mgr) as Ec. rewrite <- E in Ec.
    cbn [fst] in Ec. assert (matcher_core m' = matcher_core m) as Ec' by by rewrite Ec.
    split_and!; try done; by (unfold matcher_core in Ec'; injection Ec').
  - done.
  - pose proof (drop_stale_core m1 (consume_through mgr sel).1) as Ec. rewrite Hm1 in Ec.
    set (m' := (_drop_stale_frames m1 _).1) in *. unfold matcher_core in Ec.
    injection Ec as E1 E2 E3 E4 E5 E6 E7 E8 E9 E10.
    pose proof (adopt_capture_run m ci run) as Hrun.
    split_and!; try done.
    + rewrite E8. destruct Hrun as [[-> Hn]|(-> & Hn & _)]; [left|right]; by split.
    + rewrite E8. done.
Qed.
End Outcomes.

(** ** Properties *)

(** A matcher for two cameras, and frames for the concrete instances. *)
Definition two_cameras : SyncMatcher :=
  mkSyncMatcher ["a"; "b"] 50 4 1 None None None "run-0" 0 []
    0 0 0 0 None None None None None 0 0 [] None None 0 None None 0.

Definition buffered (frames : list SyncInputFrame) : SyncFrameBufferManager :=
  (buffer_run (H := transparent_hashing) (mkSyncFrameBufferManager 8 ∅ ∅ 0 0 0 0) (OpAdd <$> frames)).1.

Lemma buffered_ok frames : manager_ok (buffered frames).
Proof. apply buffer_run_ok, manager_ok_empty. lia. Qed.

Definition two_buffered : SyncFrameBufferManager :=
  buffered [v2_input "a" "s" 1 100; v2_input "a" "s" 2 140; v2_input "b" "t" 1 150].

Definition trigger : StoredSyncFrame := store_frame (H := transparent_hashing) (v2_input "b" "t" 1 150).

(** C2: What the matcher emits: one buffered frame per expected camera,
    their span is the reported one, inside the window and minimal among all
    choices of buffered frames, and the anchor is the latest timestamp. *)
Theorem emitted_set_minimal `{Hashing} `{!HexDigest} m mgr f now run m' mgr' fs :
  manager_ok mgr -> try_match m mgr f now run = (m', mgr', Ok (Some fs)) ->
  frame_choice mgr (sm_expected_cameras m) (fs_frames fs) /\
  span_of (fs_frames fs) = Some (fs_max_delta_ms fs) /\
  fs_max_delta_ms fs <= sm_window_ms m /\
  (forall sel, frame_choice mgr (sm_expected_cameras m) sel ->
     exists s, span_of sel = Some s /\ fs_max_delta_ms fs <= s) /\
  max_list (sf_timestamp_ms <$> (fs_frames fs).*2) = Some (fs_anchor_timestamp_ms fs) /\
  fs_member_count fs = Z.of_nat (length (fs_frames fs)).
Proof.
  intros Hm E. pose proof (try_match_outcome m mgr f now run Hm) as Ho. rewrite E in Ho.
  inversion Ho as [| | |m1 sel s ci Hne _ Hc Hs Hw Hopt _ _]; subst. cbn.
  split_and!; try done.
  destruct (max_list_is_Some (sf_timestamp_ms <$> sel.*2)) as [a Ha]; [|by rewrite Ha].
  intros En%fmap_nil_inv. by eapply choice_nonempty.
Qed.

Lemma emitted_set_minimal_witness :
  exists m' mgr' fs,
    try_match (H := transparent_hashing) two_cameras two_buffered trigger 1000 "run-1" =
      (m', mgr', Ok (Some fs)) /\ fs_max_delta_ms fs = 10 /\ span_of (fs_frames fs) = Some 10.
Proof.
  destruct (try_match (H := transparent_hashing) two_cameras two_buffered trigger 1000 "run-1")
    as [[m' mgr'] r] eqn:E.
  destruct r as [[fs|]|e]; [|exfalso; revert E; vm_compute; discriminate..].
  exists m', mgr', fs. split; [reflexivity|].
  destruct (emitted_set_minimal (H := transparent_hashing) two_cameras two_buffered trigger 1000 "run-1"
              m' mgr' fs (buffered_ok _) E) as (_ & Hs & _).
  assert (fs_max_delta_ms fs = 10) as Hd by (revert E; vm_compute; intros [= <- <- <-]; reflexivity).
  split; [exact Hd|]. rewrite <- Hd. exact Hs.
Defined.

(** C3: The search for the smallest span terminates: once every expected
    camera has a frame, the [while heap] loop ends after at most one round
    for each buffered frame and one more, with a choice of frames; further
    rounds would not change it. *)
Theorem span_search_terminates expected mgr L :
  expected <> [] -> collect_candidates mgr expected = (L, []) ->
  exists heap cur mx best, start_selection L = (heap, cur, Some mx) /\
    span_fuel L = S (sum_list ((fun item => length (available_frames mgr item.1 None)) <$> L)) /\
    forall fuel, (span_fuel L <= fuel)%nat -> select_loop fuel L heap cur mx None = Some (Some best).
Proof.
  intros Hexp EL. destruct (candidates_loop mgr expected L Hexp EL)
    as (_ & HL & heap & cur & mx & sel & s & Est & Er & _).
  exists heap, cur, mx, (sel, s). split; [done|]. split.
  - unfold span_fuel. f_equal. f_equal. apply list_fmap_ext. intros j [d l] Hj. cbn.
    apply list_elem_of_lookup_2, HL in Hj as (_ & -> & _). done.
  - intros fuel Hf. by apply (select_loop_fuel (span_fuel L)).
Qed.

Lemma span_search_terminates_witness :
  exists heap cur mx best, start_selection (collect_candidates two_buffered ["a"; "b"]).1 = (heap, cur, Some mx) /\
    select_loop 4 (collect_candidates two_buffered ["a"; "b"]).1 heap cur mx None = Some (Some best).
Proof.
  destruct (span_search_terminates ["a"; "b"] two_buffered (collect_candidates two_buffered ["a"; "b"]).1)
    as (heap & cur & mx & best & E & _ & H); [discriminate|vm_compute; reflexivity|].
  exists heap, cur, mx, best. split; [exact E|]. apply H. vm_compute. lia.
Defined.

(** No match is missed without a reason: when an expected camera's
    frame triggers no set, either expected cameras have no frame (and are
    exactly the recorded ones), or no choice of buffered frames fits the
    window, or the chosen frames' authorization scopes conflict; the reason
    is the one recorded. *)
Theorem miss_has_reason `{Hashing} `{!HexDigest} m mgr f now run m' mgr' :
  manager_ok mgr -> sf_device_id f ∈ sm_expected_cameras m ->
  try_match m mgr f now run = (m', mgr', Ok None) ->
  let missing := filter (fun d => available_frames mgr d None = []) (sm_expected_cameras m) in
  (missing <> [] /\ sm_last_missing_cameras m' = missing /\
   sm_last_reason m' = Some "missing cameras inside sync window") \/
  (missing = [] /\ sm_last_missing_cameras m' = [] /\
   sm_last_reason m' = Some "no frame set inside sync window" /\
   forall sel, frame_choice mgr (sm_expected_cameras m) sel ->
     exists s, span_of sel = Some s /\ sm_window_ms m < s) \/
  (sm_last_missing_cameras m' = [] /\
   exists sel s reason, frame_choice mgr (sm_expected_cameras m) sel /\
     span_of sel = Some s /\ s <= sm_window_ms m /\ sm_last_reason m' = Some reason /\
     _resolve_capture_identity sel.*2 = Raise (FrameScopeConflict reason)).
Proof.
  intros Hm Hd E missing. pose proof (try_match_outcome m mgr f now run Hm) as Ho. rewrite E in Ho.
  inversion Ho as [m2 Hig _|m1 m2 mgr2 reason miss0 Hd' Em Edrop Hr| |]; subst.
  { exfalso. destruct Hig as [Hn|Hn]; [rewrite Hn in Hd; by apply elem_of_nil in Hd|done]. }
  assert (sm_last_missing_cameras m' = miss0 /\ sm_last_reason m' = Some reason) as [El Er].
  { revert Edrop. unfold _drop_stale_frames. case_match; [by intros [= -> ->]|].
    case_match; [|by intros [= -> ->]]. destruct (drop_frames_older_than _ _ _ _).
    by intros [= -> ->]. }
  rewrite El, Er. destruct Hr as [(-> & Hne & ->)|[(-> & -> & Hall)|(-> & sel & s & Hc & Hs & Hw & Hres)]].
  - left. done.
  - destruct (decide (missing = [])) as [Hmis|Hmis]; [right; left; naive_solver|].
    exfalso. revert Ho E. unfold try_match.
    rewrite bool_decide_eq_false_2 by (intros Hn; rewrite Hn in Hd; by apply elem_of_nil in Hd).
    rewrite bool_decide_eq_false_2 by auto.
    pose proof (select_min_span_spec (sm_expected_cameras m) (sm_window_ms m) mgr) as Hsel.
    destruct (_select_min_span_candidate _ _ _) as [[[sel s]|] [|d ds]];
      (specialize (Hsel ltac:(intros Hn; rewrite Hn in Hd; by apply elem_of_nil in Hd))).
    + destruct Hsel as (_ & Hc & Hs & Hw & _). destruct (Hall _ Hc) as (s' & Hs' & Hlt).
      assert (s = s') as -> by congruence. lia.
    + by destruct Hsel as [? _].
    + destruct Hsel as [Hav _]. intros _ _. apply Hmis. unfold missing.
      by apply filter_none.
    + intros _ Em. unfold miss in Em. destruct (_drop_stale_frames _ mgr) as [m3 mgr3] eqn:E3 in Em.
      injection Em as <- <-.
      assert (sm_last_missing_cameras m3 = d :: ds) as El'.
      { revert E3. unfold _drop_stale_frames. case_match; [by intros [= <- <-]|].
        case_match; [|by intros [= <- <-]]. destruct (drop_frames_older_than _ _ _ _).
        by intros [= <- <-]. }
      congruence.
  - right. right. split; [done|]. exists sel, s, reason. done.
Qed.

Lemma miss_has_reason_witness :
  let mgr := buffered [v2_input "b" "t" 1 150] in
  exists m' mgr', try_match (H := transparent_hashing) two_cameras mgr trigger 1000 "run-1" =
      (m', mgr', Ok None) /\ sm_last_missing_cameras m' = ["a"].
Proof.
  intros mgr.
  destruct (try_match (H := transparent_hashing) two_cameras mgr trigger 1000 "run-1")
    as [[m' mgr'] r] eqn:E.
  destruct r as [[fs|]|e]; [exfalso; revert E; vm_compute; discriminate| |exfalso; revert E; vm_compute; discriminate].
  exists m', mgr'. split; [reflexivity|].
  destruct (miss_has_reason (H := transparent_hashing) two_cameras mgr trigger 1000 "run-1" m' mgr'
              (buffered_ok _) ltac:(right; left) E) as [(_ & Hl & _)|[(Hn & _)|(Hl & _)]].
  - rewrite Hl. vm_compute. reflexivity.
  - exfalso. revert Hn. vm_compute. discriminate.
  - exfalso. revert Hl. revert E. vm_compute. intros [= <- <-]. discriminate.
Defined.

(** [try_match] raises only before it changes anything: the exception
    is that of building the capture session's identifier, and the matcher
    and the buffers are as they were. *)
Theorem try_match_raise_atomic `{Hashing} `{!HexDigest} m mgr f now run m' mgr' e :
  manager_ok mgr -> try_match m mgr f now run = (m', mgr', Raise e) ->
  m' = m /\ mgr' = mgr /\
  exists sel message, frame_choice mgr (sm_expected_cameras m) sel /\
    e = SyncValueError message /\ _resolve_capture_identity sel.*2 = Raise e.
Proof.
  intros Hm E. pose proof (try_match_outcome m mgr f now run Hm) as Ho. rewrite E in Ho.
  inversion Ho as [| |e' sel Hc Hr Hn|]; subst. split_and!; [done|done|].
  exists sel. destruct e as [msg|msg|k]; [by eexists|by destruct (Hn msg)|].
  exfalso. revert Hr. unfold _resolve_capture_identity, resolve_authorization.
  repeat (case_match; try done); unfold mbind, result_bind; try (by repeat case_match).
  destruct (build_capture_session_id _) as [?|[?]]; done.
Qed.

Lemma try_match_raise_atomic_witness :
  let bad := (v2_input "b" "t" 1 150) <| in_camera_stream_id := Some " " |> in
  let mgr := buffered [v2_input "a" "s" 1 100; bad] in
  exists m' mgr' e,
    try_match (H := transparent_hashing) two_cameras mgr trigger 1000 "run-1" = (m', mgr', Raise e) /\
    m' = two_cameras /\ mgr' = mgr.
Proof.
  intros bad mgr.
  destruct (try_match (H := transparent_hashing) two_cameras mgr trigger 1000 "run-1")
    as [[m' mgr'] r] eqn:E.
  destruct r as [[fs|]|e]; [exfalso; revert E; vm_compute; discriminate..|].
  exists m', mgr', e. split; [reflexivity|].
  destruct (try_match_raise_atomic (H := transparent_hashing) two_cameras mgr trigger 1000 "run-1"
              m' mgr' e (buffered_ok _) E) as (H1 & H2 & _). by split.
Defined.

(** No overtaking: once a set is emitted, every frame left in an
    expected camera's buffer is newer than the emitted one. *)
Theorem emitted_frames_consumed `{Hashing} `{!HexDigest} m mgr f now run m' mgr' fs d chosen b :
  manager_ok mgr -> try_match m mgr f now run = (m', mgr', Ok (Some fs)) ->
  (d, chosen) ∈ fs_frames fs -> bm_buffers mgr' !! d = Some b ->
  manager_ok mgr' /\ forall g, g ∈ cb_frames b -> sf_timestamp_ms chosen < sf_timestamp_ms g.
Proof.
  intros Hm E. pose proof (try_match_outcome m mgr f now run Hm) as Ho.
  pose proof (try_match_manager_ok m mgr f now run Hm) as Hm'. rewrite E in Ho, Hm'.
  inversion Ho as [| | |m1 sel s ci Hne _ Hc _ _ _ _ _]; subst. cbn. intros Hin Hb.
  split; [done|]. intros g Hg. clear Ho E.
  destruct (consume_through_spec mgr sel Hm) as (_ & _ & Hl);
    [apply Hc|by eapply choice_has_buffers|].
  assert (exists b0, bm_buffers (consume_through mgr sel).1 !! d = Some b0 /\ g ∈ cb_frames b0)
    as (b0 & Hb0 & Hg0).
  { destruct (drop_stale_manager m1 (consume_through mgr sel).1) as [Ed|[t Ed]].
    - rewrite Ed in Hb. eauto.
    - rewrite Ed in Hb. clear Ed.
      destruct (drop_older_spec (consume_through mgr sel).1 (sm_expected_cameras m1) t None)
        as [_ Hd]; [by apply manager_ok_consume|]. rewrite Hd in Hb. case_decide; [|eauto].
      destruct (bm_buffers (consume_through mgr sel).1 !! d) as [b0|]; [|done].
      injection Hb as <-. exists b0. split; [done|]. by apply list_elem_of_filter in Hg as [_ ?]. }
  rewrite Hl, (dict_elem_get d chosen sel) in Hb0 by (done || apply Hc).
  destruct (bm_buffers mgr !! d) as [b1|]; [|done]. injection Hb0 as <-. cbn in Hg0.
  apply list_elem_of_filter in Hg0 as [Hle _]. by apply Z.leb_gt in Hle.
Qed.

Lemma emitted_frames_consumed_witness :
  exists m' mgr' fs b,
    try_match (H := transparent_hashing) two_cameras two_buffered trigger 1000 "run-1" =
      (m', mgr', Ok (Some fs)) /\ bm_buffers mgr' !! "a" = Some b /\
    manager_ok mgr' /\ cb_frames b = [].
Proof.
  destruct (try_match (H := transparent_hashing) two_cameras two_buffered trigger 1000 "run-1")
    as [[m' mgr'] r] eqn:E.
  destruct r as [[fs|]|e]; [|exfalso; revert E; vm_compute; discriminate..].
  destruct (bm_buffers mgr' !! "a") as [b|] eqn:Eb;
    [|exfalso; revert E Eb; vm_compute; intros [= <- <- <-]; discriminate].
  exists m', mgr', fs, b. split; [reflexivity|]. split; [exact Eb|].
  assert (exists chosen, ("a", chosen) ∈ fs_frames fs) as [chosen Hin].
  { revert E. vm_compute. intros [= <- <- <-]. eexists. left. }
  split; [exact (proj1 (emitted_frames_consumed (H := transparent_hashing) two_cameras two_buffered
           trigger 1000 "run-1" m' mgr' fs "a" chosen b (buffered_ok _) E Hin Eb))|].
  revert E Eb. vm_compute. intros [= <- <- <-] [= <-]. reflexivity.
Defined.

(** ** Scope of a set *)

Lemma length_remove_dups_le {A} `{EqDecision A} (l : list A) : (length (remove_dups l) <= length l)%nat.
Proof. induction l as [|x l IH]; [done|]. cbn. case_decide; cbn; lia. Qed.

Lemma remove_dups_length_NoDup {A} `{EqDecision A} (l : list A) :
  length (remove_dups l) = length l -> NoDup l.
Proof.
  induction l as [|x l IH]; [constructor|]. cbn. pose proof (length_remove_dups_le l).
  case_decide as Hx; cbn; intros E; [lia|]. constructor; [done|]. apply IH. lia.
Qed.

Lemma existsb_false_iff {A} (p : A -> bool) l : existsb p l = false <-> forall x, x ∈ l -> p x = false.
Proof.
  induction l as [|x l IH]; cbn.
  - split; [by intros _ x ?%elem_of_nil|done].
  - rewrite orb_false_iff, IH. split.
    + intros [? ?] y [->|?]%elem_of_cons; auto.
    + intros Hl. split; [apply Hl; left|]. intros y Hy. apply Hl. by right.
Qed.

Lemma existsb_true_iff {A} (p : A -> bool) l : existsb p l = true <-> exists x, x ∈ l /\ p x = true.
Proof.
  rewrite existsb_exists. setoid_rewrite list_elem_of_In. done.
Qed.

Lemma forallb_true_iff {A} (p : A -> bool) l : forallb p l = true <-> forall x, x ∈ l -> p x = true.
Proof. rewrite forallb_forall. setoid_rewrite list_elem_of_In. done. Qed.

Definition ak_group (key : AuthorizationKey) :=
  (ak_tenant_id key, ak_site_id key, ak_capture_session_id key, ak_processing_job_id key,
   ak_profile_digest key).

(** What one authorization means for the frames of a set. *)
Record authorized_by (key : AuthorizationKey) (frames : list StoredSyncFrame) : Prop := {
  ab_group : forall f, f ∈ frames -> group_key f = ak_group key;
  ab_complete : forall f, f ∈ frames -> forallb truthy_opt (authorization_fields f) = true;
  ab_cameras : NoDup (sf_authorized_camera_id <$> frames);
  ab_claims : (forall f, f ∈ frames -> truthy_opt (sf_camera_claim_id f) = true) \/
              (forall f, f ∈ frames -> truthy_opt (sf_camera_claim_id f) = false);
  ab_participant : (ak_authorized_subject key = None /\ ak_session_token_jti key = None) \/
    (forall f, f ∈ frames -> sf_authorized_subject f = ak_authorized_subject key /\
       sf_session_token_jti f = ak_session_token_jti key /\ truthy_opt (sf_camera_claim_id f) = false);
}.

Lemma resolve_authorization_spec frames key :
  frames <> [] ->
  resolve_authorization frames
    (remove_dups (group_key <$> filter (fun f => existsb truthy_opt (authorization_fields f)) frames)) =
  Ok key -> authorized_by key frames.
Proof.
  intros Hne. unfold resolve_authorization. set (keys := remove_dups _).
  destruct (negb (Nat.eqb (length keys) 1) || _) eqn:E1; [done|].
  apply orb_false_iff in E1 as [Hlen%negb_false_iff%Nat.eqb_eq Hall].
  destruct (negb _) eqn:E2; [done|]. apply negb_false_iff, Nat.eqb_eq in E2.
  set (claims := existsb _ frames).
  destruct (claims && _) eqn:E3; [done|].
  destruct keys as [|[[[[t s] c] j] p] [|? ?]] eqn:Ek; try discriminate Hlen.
  assert (forall f, f ∈ frames -> forallb truthy_opt (authorization_fields f) = true) as Hcomplete.
  { intros f Hf. rewrite existsb_false_iff in Hall. specialize (Hall _ Hf).
    by apply negb_false_iff in Hall. }
  assert (forall f, f ∈ frames -> group_key f = (t, s, c, j, p)) as Hgroup.
  { intros f Hf. assert (group_key f ∈ keys) as Hin.
    { unfold keys. apply elem_of_remove_dups, list_elem_of_fmap_2, list_elem_of_filter.
      split; [|done]. specialize (Hcomplete _ Hf). unfold authorization_fields in *.
      cbn in *. apply andb_true_iff in Hcomplete as [-> _]. done. }
    rewrite Ek in Hin. by apply list_elem_of_singleton in Hin. }
  intros [= <-]. split; cbn [ak_group ak_tenant_id ak_site_id ak_capture_session_id ak_processing_job_id
                             ak_profile_digest ak_authorized_subject ak_session_token_jti].
  - exact Hgroup.
  - exact Hcomplete.
  - by apply remove_dups_length_NoDup.
  - unfold claims in *. destruct (existsb (fun f => truthy_opt (sf_camera_claim_id f)) frames) eqn:Ec.
    + left. cbn in E3. rewrite existsb_false_iff in E3. intros f Hf.
      specialize (E3 _ Hf). by apply negb_false_iff in E3.
    + right. by rewrite existsb_false_iff in Ec.
  - destruct (remove_dups ((fun frame => (sf_authorized_subject frame, sf_session_token_jti frame)) <$> frames))
      as [|[subj jti] [|? ?]] eqn:Ep; [by left| |by left].
    destruct claims eqn:Ec; [by left|right]. intros f Hf.
    assert ((sf_authorized_subject f, sf_session_token_jti f) ∈ [(subj, jti)]) as Hin.
    { rewrite <- Ep. by apply elem_of_remove_dups, (list_elem_of_fmap_2 (fun frame =>
        (sf_authorized_subject frame, sf_session_token_jti frame))). }
    apply list_elem_of_singleton in Hin. injection Hin as -> ->. split_and!; [done|done|].
    unfold claims in Ec. rewrite existsb_false_iff in Ec. by apply Ec.
Qed.

Lemma resolve_spec `{Hashing} frames ci :
  frames <> [] -> _resolve_capture_identity frames = Ok ci ->
  (ci = mkCaptureIdentity IDENTITY_MODE_LEGACY None None None /\
   exists f, f ∈ frames /\ v2_complete f = false) \/
  (ci_identity_mode ci = IDENTITY_MODE_V2 /\ (forall f, f ∈ frames -> v2_complete f = true) /\
   ci_capture_config_key ci = Some (config_key frames) /\
   ((exists key, ci_authorization_key ci = Some key /\
       ci_capture_session_id ci = ak_capture_session_id key /\ authorized_by key frames) \/
    (ci_authorization_key ci = None /\
     (forall f, f ∈ frames -> existsb truthy_opt (authorization_fields f) = false) /\
     exists s, ci_capture_session_id ci = Some s /\
       build_capture_session_id ((fun f => (default "" (sf_camera_stream_id f),
                                            default "" (sf_source_session_id f))) <$> frames) = Ok s))).
Proof.
  intros Hne. unfold _resolve_capture_identity. destruct (negb (forallb v2_complete frames)) eqn:Ev.
  { intros [= <-]. left. split; [done|].
    apply negb_true_iff in Ev. destruct (existsb (fun f => negb (v2_complete f)) frames) eqn:Ex.
    - apply existsb_true_iff in Ex as (f & Hf & Hv%negb_true_iff). eauto.
    - exfalso. rewrite existsb_false_iff in Ex. apply not_true_iff_false in Ev. apply Ev.
      apply forallb_true_iff. intros f Hf. specialize (Ex _ Hf). by apply negb_false_iff in Ex. }
  apply negb_false_iff in Ev. rewrite forallb_true_iff in Ev. right.
  case_bool_decide as Hk.
  - apply result_bind_Ok in H0 as (key & Hkey & [= <-]). split_and!; [done..|]. left. exists key.
    split_and!; [done|done|]. by apply resolve_authorization_spec.
  - apply result_bind_Ok in H0 as (s & Hs & [= <-]). split_and!; [done..|]. right.
    split_and!; [done| |].
    + intros f Hf. apply not_true_iff_false. intros Ht.
      assert (group_key f ∈ remove_dups (group_key <$> filter (fun f => existsb truthy_opt
                (authorization_fields f)) frames)) as Hin.
      { apply elem_of_remove_dups, list_elem_of_fmap_2, list_elem_of_filter.
        split; [by rewrite Ht|done]. }
      rewrite Hk in Hin. by apply elem_of_nil in Hin.
    + exists s. split; [done|]. destruct (build_capture_session_id _) as [?|[?]]; cbn in Hs; [|done].
      by injection Hs as ->.
Qed.

(** C4: One scope per set: when a V2 set has an authorized member, all its
    members carry the complete authorization of one tenant, site, capture
    session, processing job and profile (the ones recorded in the set), on
    distinct authorized cameras, with camera claims on all members or none;
    a common subject and token are recorded only where every member has
    them. *)
Theorem emitted_scope_uniform `{Hashing} `{!HexDigest} m mgr f now run m' mgr' fs g :
  manager_ok mgr -> try_match m mgr f now run = (m', mgr', Ok (Some fs)) ->
  fs_identity_mode fs = IDENTITY_MODE_V2 -> g ∈ (fs_frames fs).*2 ->
  existsb truthy_opt (authorization_fields g) = true ->
  exists key, authorized_by key (fs_frames fs).*2 /\
    (fs_tenant_id fs, fs_site_id fs, fs_capture_session_id fs, fs_processing_job_id fs,
     fs_profile_digest fs) = ak_group key /\
    fs_authorized_subject fs = ak_authorized_subject key /\
    fs_session_token_jti fs = ak_session_token_jti key.
Proof.
  intros Hm E. pose proof (try_match_outcome m mgr f now run Hm) as Ho. rewrite E in Ho.
  inversion Ho as [| | |m1 sel s ci Hne _ Hc _ _ _ Hr _]; subst. intros Hmode Hg Hauth. change (fs_frames _) with sel in *.
  destruct (resolve_spec sel.*2 ci) as [(-> & _)|(_ & _ & _ & Hcase)];
    [by eapply choice_nonempty|done|done|].
  destruct Hcase as [(key & Hkey & Hs & Hab)|(_ & Hno & _)].
  - exists key. cbn [emitted_set make_frame_set fs_tenant_id fs_site_id fs_capture_session_id
      fs_processing_job_id fs_profile_digest fs_authorized_subject fs_session_token_jti].
    rewrite Hkey, Hs. by destruct key.
  - rewrite (Hno _ Hg) in Hauth. done.
Qed.

(** Authorized inputs for the concrete instances. *)
Definition authorized_input (device_id session camera : string) (sequence timestamp_ms : Z) : SyncInputFrame :=
  (v2_input device_id session sequence timestamp_ms)
    <| in_tenant_id := Some "tenant" |> <| in_site_id := Some "site" |>
    <| in_capture_session_id := Some "capture" |> <| in_processing_job_id := Some "job" |>
    <| in_profile_digest := Some "profile" |> <| in_authorized_subject := Some "subject" |>
    <| in_session_token_jti := Some "jti" |> <| in_authorized_camera_id := Some camera |>.

Definition two_authorized : SyncFrameBufferManager :=
  buffered [authorized_input "a" "s" "cam-a" 1 100; authorized_input "b" "t" "cam-b" 1 110].

Lemma emitted_scope_uniform_witness :
  exists m' mgr' fs,
    try_match (H := transparent_hashing) two_cameras two_authorized trigger 1000 "run-1" =
      (m', mgr', Ok (Some fs)) /\
    exists key, authorized_by key (fs_frames fs).*2 /\ fs_authorized_subject fs = Some "subject".
Proof.
  destruct (try_match (H := transparent_hashing) two_cameras two_authorized trigger 1000 "run-1")
    as [[m' mgr'] r] eqn:E.
  destruct r as [[fs|]|e]; [|exfalso; revert E; vm_compute; discriminate..].
  exists m', mgr', fs. split; [reflexivity|].
  assert (fs_identity_mode fs = IDENTITY_MODE_V2 /\ fs_authorized_subject fs = Some "subject" /\
          exists g, g ∈ (fs_frames fs).*2 /\ existsb truthy_opt (authorization_fields g) = true)
    as (Hmode & Hsub & g & Hg & Ha).
  { revert E. vm_compute. intros [= <- <- <-]. split; [reflexivity|]. split; [reflexivity|].
    eexists. split; [left|reflexivity]. }
  destruct (emitted_scope_uniform (H := transparent_hashing) two_cameras two_authorized trigger 1000 "run-1"
              m' mgr' fs g (buffered_ok _) E Hmode Hg Ha) as (key & Hk & _).
  exists key. split; [exact Hk|exact Hsub].
Defined.

(** C5: A frame-set's identifier determines its content: two emitted V2
    sets with the same [frame_set_uid] have the same members (device,
    session, stream, sequence, frame identifier, timestamp and content
    digest), session, window, span and anchor, unless a digest collides. *)
Theorem frame_set_uid_determines `{Hashing} `{!HexDigest}
    m1 mgr1 f1 now1 run1 m1' mgr1' fs1 m2 mgr2 f2 now2 run2 m2' mgr2' fs2 u :
  manager_ok mgr1 -> try_match m1 mgr1 f1 now1 run1 = (m1', mgr1', Ok (Some fs1)) ->
  manager_ok mgr2 -> try_match m2 mgr2 f2 now2 run2 = (m2', mgr2', Ok (Some fs2)) ->
  fs_frame_set_uid fs1 = Some u -> fs_frame_set_uid fs2 = Some u ->
  (member_identity <$> sort_by member_order (fs_frames fs1).*2 =
     member_identity <$> sort_by member_order (fs_frames fs2).*2 /\
   fs_capture_session_id fs1 = fs_capture_session_id fs2 /\
   fs_sync_window_ms fs1 = fs_sync_window_ms fs2 /\
   fs_max_delta_ms fs1 = fs_max_delta_ms fs2 /\
   fs_anchor_timestamp_ms fs1 = fs_anchor_timestamp_ms fs2) \/
  sha256_collision \/ uuid5_collision FRAME_SET_NAMESPACE.
Proof.
  assert (forall m mgr f now run m' mgr' fs,
    manager_ok mgr -> try_match m mgr f now run = (m', mgr', Ok (Some fs)) ->
    fs_frame_set_uid fs = Some u -> exists mode key,
      u = uuid5 FRAME_SET_NAMESPACE (build_manifest_digest (_build_manifest_payload
            (fs_capture_session_id fs) (fs_frames fs).*2 mode (fs_sync_window_ms fs)
            (fs_max_delta_ms fs) (fs_anchor_timestamp_ms fs) key))) as Huid.
  { clear m1 mgr1 f1 now1 run1 m1' mgr1' fs1 m2 mgr2 f2 now2 run2 m2' mgr2' fs2.
    intros m mgr f now run m' mgr' fs Hm E.
    pose proof (try_match_outcome m mgr f now run Hm) as Ho. rewrite E in Ho.
    inversion Ho as [| | |m1 sel s ci Hne _ Hc _ _ _ Hr _]; subst.
    destruct (adopt_capture_core m ci run) as (_ & Hw & _). cbn. rewrite Hw.
    case_bool_decide; [|done]. intros Hu. eexists _, _. revert Hu.
    unfold build_frame_set_uid, _required_text. set (p := _build_manifest_payload _ _ _ _ _ _ _).
    destruct (hex_digest_ok (canonical_json (JObj p))) as [Hd1 Hd2].
    unfold build_manifest_digest at 1 2 3. rewrite Hd2. unfold truthy. rewrite bool_decide_eq_false_2 by done.
    cbn. intros [= <-]. reflexivity. }
  intros Hm1 E1 Hm2 E2 Hu1 Hu2.
  destruct (Huid _ _ _ _ _ _ _ _ Hm1 E1 Hu1) as (mode1 & key1 & Eu1).
  destruct (Huid _ _ _ _ _ _ _ _ Hm2 E2 Hu2) as (mode2 & key2 & Eu2).
  rewrite Eu1 in Eu2. apply uuid5_eq in Eu2 as [Eu2|Hc]; [|by right; right].
  apply manifest_digest_inj in Eu2 as [Ep|Hc]; [|by right; left|apply payload_floats..].
  left. apply payload_members in Ep as (? & ? & ? & ? & ?). done.
Qed.

Lemma frame_set_uid_determines_witness :
  exists m' mgr' fs u,
    try_match (H := transparent_hashing) two_cameras two_buffered trigger 1000 "run-1" =
      (m', mgr', Ok (Some fs)) /\ fs_frame_set_uid fs = Some u /\
    (fs_anchor_timestamp_ms fs = fs_anchor_timestamp_ms fs \/
     sha256_collision (H := transparent_hashing) \/
     uuid5_collision (H := transparent_hashing) (FRAME_SET_NAMESPACE (H := transparent_hashing))).
Proof.
  destruct (try_match (H := transparent_hashing) two_cameras two_buffered trigger 1000 "run-1")
    as [[m' mgr'] r] eqn:E.
  destruct r as [[fs|]|e]; [|exfalso; revert E; vm_compute; discriminate..].
  assert (exists u, fs_frame_set_uid fs = Some u) as [u Hu].
  { revert E. vm_compute. intros [= <- <- <-]. eexists. reflexivity. }
  exists m', mgr', fs, u. split; [reflexivity|]. split; [exact Hu|].
  destruct (frame_set_uid_determines (H := transparent_hashing)
              two_cameras two_buffered trigger 1000 "run-1" m' mgr' fs
              two_cameras two_buffered trigger 1000 "run-1" m' mgr' fs u
              (buffered_ok _) E (buffered_ok _) E Hu Hu) as [(_ & _ & _ & _ & Ha)|Hc].
  - left. exact Ha.
  - right. exact Hc.
Defined.
