(* ===== verification/SyncService.v ===== *)
(** * The synchronisation service

    src/app/services/sync/service.py: [StreamSyncService] owns the buffer
    manager and the matcher. Its [RLock] makes each method one step, so
    concurrent callers are a sequence of steps. *)

From S2P Require Import Prelude Json Digest Identity SyncModels FrameBuffer Matcher.

Record StreamSyncService := mkStreamSyncService {
  ss_enabled : bool;
  ss_expected_cameras : list string;
  ss_window_ms : Z;
  ss_buffer_manager : SyncFrameBufferManager;
  ss_matcher : option SyncMatcher;
}.

#[export] Instance StreamSyncService_settable : Settable StreamSyncService :=
  fun x => mkStreamSyncService (ss_enabled x) (ss_expected_cameras x) (ss_window_ms x)
    (ss_buffer_manager x) (ss_matcher x).

(** [StreamSyncService()]: disabled, with a buffer manager of 120. *)
Definition new_StreamSyncService : StreamSyncService :=
  mkStreamSyncService false [] 50 (mkSyncFrameBufferManager 120 ∅ ∅ 0 0 0 0) None.

(** A constructor that raises leaves the attributes assigned before it. *)
Definition configure (s : StreamSyncService) (enabled : bool) (expected_cameras : list string)
    (window_ms buffer_size recent_limit : Z) (fresh_run_id : string)
    : StreamSyncService * result sync_error unit :=
  let s := s <| ss_enabled := enabled |> <| ss_expected_cameras := expected_cameras |>
             <| ss_window_ms := window_ms |> in
  match new_SyncFrameBufferManager buffer_size with
  | Raise e => (s, Raise e)
  | Ok manager =>
      let s := s <| ss_buffer_manager := manager |> in
      if enabled
      then match new_SyncMatcher expected_cameras window_ms recent_limit fresh_run_id with
           | Raise e => (s, Raise e)
           | Ok matcher => (s <| ss_matcher := Some matcher |>, Ok tt)
           end
      else (s <| ss_matcher := None |>, Ok tt)
  end.

Definition service_clear (s : StreamSyncService) (fresh_run_id : string) :=
  configure s false [] 50 120 20 fresh_run_id.

Section Service.
Context `{Hashing}.

Definition handle_frame (s : StreamSyncService) (frame : SyncInputFrame) (now_ms : Z)
    (fresh_run_id : string)
    : StreamSyncService * result sync_error (option SynchronizedFrameSet) :=
  match ss_matcher s with
  | Some matcher =>
      if negb (ss_enabled s) then (s, Ok None)
      else
        let '(manager, stored) := add_frame (ss_buffer_manager s) frame in
        let s := s <| ss_buffer_manager := manager |> in
        match stored with
        | None => (s, Ok None)
        | Some stored =>
            let '(matcher, manager, r) := try_match matcher manager stored now_ms fresh_run_id in
            (s <| ss_buffer_manager := manager |> <| ss_matcher := Some matcher |>, r)
        end
  | None => (s, Ok None)
  end.

Definition service_recent_frame_sets (s : StreamSyncService) : list SynchronizedFrameSet :=
  match ss_matcher s with None => [] | Some matcher => recent_frame_sets matcher end.

Definition service_finalize_archive_state (s : StreamSyncService) (frame_set : SynchronizedFrameSet)
    (state : string) (error : option string) : StreamSyncService * SynchronizedFrameSet :=
  match ss_matcher s with
  | None => (s, frame_set)
  | Some matcher =>
      let '(matcher, updated) := finalize_archive_state matcher frame_set state error in
      (s <| ss_matcher := Some matcher |>, updated)
  end.

(** The first member with the key among the candidates' members. *)
Fixpoint find_member (key : string) (candidates : list SynchronizedFrameSet)
    : option StoredSyncFrame :=
  match candidates with
  | [] => None
  | candidate :: rest =>
      match find (fun member => bool_decide (sf_buffer_key member = key)) (fs_frames candidate).*2 with
      | Some member => Some member
      | None => find_member key rest
      end
  end.

(** The end of [finalize_frame_archive], once [stored] is known. *)
Definition replace_archived (s : StreamSyncService) (matcher : SyncMatcher)
    (frame_set : option SynchronizedFrameSet) (stored : StoredSyncFrame)
    : StreamSyncService * option SynchronizedFrameSet :=
  let '(matcher, updated) := replace_recent_frame_member matcher stored in
  match updated with
  | Some updated => (s <| ss_matcher := Some matcher |>, Some updated)
  | None =>
      match frame_set with
      | Some frame_set =>
          let '(matcher, updated) := replace_frame_member matcher frame_set stored in
          (s <| ss_matcher := Some matcher |>, Some updated)
      | None => (s <| ss_matcher := Some matcher |>, None)
      end
  end.

Definition finalize_frame_archive (s : StreamSyncService) (frame : SyncInputFrame)
    (frame_set : option SynchronizedFrameSet) (frame_id : option Z) (file_path : option string)
    (archive_state : string) (archive_error : option string)
    : StreamSyncService * option SynchronizedFrameSet :=
  let '(manager, stored) :=
    finalize_archive (ss_buffer_manager s) (build_buffer_key frame) frame_id file_path
                     archive_state archive_error in
  let s := s <| ss_buffer_manager := manager |> in
  match ss_matcher s with
  | None => (s, frame_set)
  | Some matcher =>
      match stored with
      | Some stored => replace_archived s matcher frame_set stored
      | None =>
          let candidates := recent_frame_sets matcher ++ option_list frame_set in
          match find_member (build_buffer_key frame) candidates with
          | None => (s, frame_set)
          | Some member =>
              replace_archived s matcher frame_set
                (archived member frame_id file_path archive_state archive_error)
          end
      end
  end.
End Service.

(** [build_sync_progress]; the ratio is [Some (matched, expected)] for the
    quotient of the two and [None] for [0.0]. *)
Record SyncProgress := mkSyncProgress {
  sp_expected_frame_set_count : Z;
  sp_matched_ratio : option (Z * Z);
  sp_per_expected_camera_received_count : list (string * Z);
}.

Definition build_sync_progress (buffer_snapshot : BufferSnapshot) (expected_cameras : list string)
    (matched_count : Z) : SyncProgress :=
  let camera_counts :=
    foldl (fun d camera => dict_set (cs_device_id camera) (cs_received_count camera) d) []
          (bs_cameras buffer_snapshot) in
  let expected_counts := (fun device_id => default 0 (dict_get device_id camera_counts)) <$> expected_cameras in
  let expected_frame_set_count :=
    match min_list expected_counts with
    | Some least => if forallb (fun count => 0 <? count) expected_counts then least else 0
    | None => 0
    end in
  {| sp_expected_frame_set_count := expected_frame_set_count;
     sp_matched_ratio := if 0 <? expected_frame_set_count
                         then Some (matched_count, expected_frame_set_count) else None;
     sp_per_expected_camera_received_count :=
       foldl (fun d kv => dict_set kv.1 kv.2 d) [] (zip expected_cameras expected_counts) |}.

(** The status of a disabled service: the same keys but
    [dropped_superseded_count], which it lacks. *)
Definition disabled_status : MatcherStatus := {|
  st_matched_count := 0; st_missed_count := 0; st_duplicate_count := 0; st_ignored_count := 0;
  st_last_frame_set_id := None; st_last_anchor_timestamp_ms := None; st_last_max_delta_ms := None;
  st_last_span_ms := None; st_watermark_timestamp_ms := None; st_dropped_stale_count := 0;
  st_dropped_superseded_count := None; st_last_missing_cameras := []; st_last_reason := None;
  st_capture_session_id := None; st_capture_run_id := None; st_last_identity_mode := None;
  st_legacy_identity_count := 0; st_last_archive_state := None; st_last_archive_error := None;
  st_archive_degraded_count := 0;
|}.

Record ServiceStatus := mkServiceStatus {
  sv_enabled : bool;
  sv_expected_cameras : list string;
  sv_window_ms : Z;
  sv_buffer : BufferSnapshot;
  sv_progress : SyncProgress;
  sv_sync : MatcherStatus;
}.

Definition service_status (s : StreamSyncService) : ServiceStatus :=
  let buffer_snapshot := snapshot (ss_buffer_manager s) in
  let sync_status := match ss_matcher s with
                     | Some matcher => matcher_status matcher
                     | None => disabled_status
                     end in
  {| sv_enabled := ss_enabled s;
     sv_expected_cameras := ss_expected_cameras s;
     sv_window_ms := ss_window_ms s;
     sv_buffer := buffer_snapshot;
     sv_progress := build_sync_progress buffer_snapshot (ss_expected_cameras s)
                      (st_matched_count sync_status);
     sv_sync := sync_status |}.

(** ** Runs of the service *)

Inductive service_event :=
| EvFrame (frame : SyncInputFrame) (now_ms : Z) (fresh_run_id : string)
| EvFinalizeSet (frame_set : SynchronizedFrameSet) (state : string) (error : option string)
| EvFinalizeFrame (frame : SyncInputFrame) (frame_set : option SynchronizedFrameSet)
    (frame_id : option Z) (file_path : option string) (archive_state : string)
    (archive_error : option string).

(** The run identifiers [uuid4] would supply to the events. *)
Definition event_runs (evs : list service_event) : list string :=
  omap (fun ev => match ev with EvFrame _ _ run => Some run | _ => None end) evs.

Section Runs.
Context `{Hashing} `{!HexDigest}.
Implicit Types (s : StreamSyncService) (m : SyncMatcher).

(** The service after an event, and the frame-set it emitted. *)
Definition service_step s (ev : service_event) : StreamSyncService * option SynchronizedFrameSet :=
  match ev with
  | EvFrame frame now_ms run =>
      let '(s, r) := handle_frame s frame now_ms run in
      (s, match r with Ok fs => fs | Raise _ => None end)
  | EvFinalizeSet fs state error => ((service_finalize_archive_state s fs state error).1, None)
  | EvFinalizeFrame frame fs i p st e => ((finalize_frame_archive s frame fs i p st e).1, None)
  end.

Fixpoint service_run s (evs : list service_event) : StreamSyncService * list SynchronizedFrameSet :=
  match evs with
  | [] => (s, [])
  | ev :: evs =>
      let '(s, emitted) := service_step s ev in
      let '(s, rest) := service_run s evs in
      (s, option_list emitted ++ rest)
  end.

(** The emission state of the matcher: current run, next identifier, last
    synchronisation time. *)
Definition emission_state m := (sm_capture_run_id m, sm_next_frame_set_id m, sm_last_synchronized_at_ms m).

Lemma replace_frame_member_emission m fs f :
  emission_state (replace_frame_member m fs f).1 = emission_state m.
Proof. done. Qed.

Lemma replace_recent_emission m f :
  emission_state (replace_recent_frame_member m f).1 = emission_state m.
Proof. unfold replace_recent_frame_member. by case_match. Qed.

Lemma replace_archived_step s m fs f :
  exists m', (replace_archived s m fs f).1 = s <| ss_matcher := Some m' |> /\
             emission_state m' = emission_state m.
Proof.
  unfold replace_archived. pose proof (replace_recent_emission m f) as E.
  destruct (replace_recent_frame_member m f) as [m1 [u|]]; cbn in E; [by eauto|].
  destruct fs as [fs|]; [|by eauto]. eexists. split; [done|]. by rewrite <- E.
Qed.

(** What an event does to the buffers and the emission state. *)
Lemma finalize_frame_step s frame fs i p st e m :
  ss_matcher s = Some m ->
  exists m', ss_matcher (finalize_frame_archive s frame fs i p st e).1 = Some m' /\
    emission_state m' = emission_state m /\
    ss_buffer_manager (finalize_frame_archive s frame fs i p st e).1 =
      (finalize_archive (ss_buffer_manager s) (build_buffer_key frame) i p st e).1.
Proof.
  intros Hm. unfold finalize_frame_archive.
  destruct (finalize_archive _ _ i p st e) as [mgr stored]. cbn [fst].
  change (ss_matcher (s <| ss_buffer_manager := mgr |>)) with (ss_matcher s). rewrite Hm.
  destruct stored as [f|].
  - destruct (replace_archived_step (s <| ss_buffer_manager := mgr |>) m fs f) as (m' & E & E').
    rewrite E. eauto.
  - destruct (find_member _ _) as [f|]; [|by eauto].
    destruct (replace_archived_step (s <| ss_buffer_manager := mgr |>) m fs (archived f i p st e))
      as (m' & E & E'). rewrite E. eauto.
Qed.

(** The effect of a frame on the buffers and the emission state. *)
Lemma handle_frame_step s frame now run m :
  manager_ok (ss_buffer_manager s) -> ss_matcher s = Some m ->
  let '(s', r) := handle_frame s frame now run in
  manager_ok (ss_buffer_manager s') /\
  exists m', ss_matcher s' = Some m' /\
  match r with
  | Ok (Some fs) =>
      ((sm_capture_run_id m' = sm_capture_run_id m /\ fs_frame_set_id fs = sm_next_frame_set_id m) \/
       (sm_capture_run_id m' = run /\ fs_frame_set_id fs = 1)) /\
      fs_capture_run_id fs = Some (sm_capture_run_id m') /\
      sm_next_frame_set_id m' = fs_frame_set_id fs + 1 /\
      sm_last_synchronized_at_ms m < fs_synchronized_at_ms fs /\
      now <= fs_synchronized_at_ms fs /\
      sm_last_synchronized_at_ms m' = fs_synchronized_at_ms fs
  | _ => emission_state m' = emission_state m
  end.
Proof.
  intros Hok Hm. unfold handle_frame. rewrite Hm. destruct (negb (ss_enabled s)); [by eauto|].
  pose proof (manager_ok_add _ (store_frame frame) Hok) as Hadd. unfold add_frame.
  destruct (add_stored _ _) as [mgr [f|]]; cbn in Hadd; [|by eauto].
  pose proof (try_match_core m mgr f now run Hadd) as Hc.
  pose proof (try_match_manager_ok m mgr f now run Hadd) as Hok'.
  destruct (try_match m mgr f now run) as [[m' mgr'] r]. cbn in Hok'.
  split; [done|]. exists m'. split; [done|].
  destruct Hc as (_ & _ & _ & Hc). destruct r as [[fs|]|err].
  - destruct Hc as (H1 & H2 & H3 & H4 & H5 & _). split_and!; try done; lia.
  - unfold matcher_core in Hc. unfold emission_state. by injection Hc as _ _ _ -> _ _ _ -> -> _.
  - unfold matcher_core in Hc. unfold emission_state. by injection Hc as _ _ _ -> _ _ _ -> -> _.
Qed.

Lemma service_step_emission s ev m :
  manager_ok (ss_buffer_manager s) -> ss_matcher s = Some m ->
  let '(s', emitted) := service_step s ev in
  manager_ok (ss_buffer_manager s') /\
  exists m', ss_matcher s' = Some m' /\
  match emitted with
  | Some fs =>
      (exists frame now run, ev = EvFrame frame now run /\
      ((sm_capture_run_id m' = sm_capture_run_id m /\ fs_frame_set_id fs = sm_next_frame_set_id m) \/
       (sm_capture_run_id m' = run /\ fs_frame_set_id fs = 1))) /\
      fs_capture_run_id fs = Some (sm_capture_run_id m') /\
      sm_next_frame_set_id m' = fs_frame_set_id fs + 1 /\
      sm_last_synchronized_at_ms m < fs_synchronized_at_ms fs /\
      sm_last_synchronized_at_ms m' = fs_synchronized_at_ms fs
  | None => emission_state m' = emission_state m
  end.
Proof.
  intros Hok Hm. destruct ev as [frame now run|fs st e|frame fs i p st e]; cbn [service_step].
  - pose proof (handle_frame_step s frame now run m Hok Hm) as Hs.
    destruct (handle_frame s frame now run) as [s' r]. destruct Hs as (Hok' & m' & Hm' & Hs).
    split; [done|]. exists m'. split; [done|]. destruct r as [[fs|]|err]; [|done|done].
    destruct Hs as (H1 & H2 & H3 & H4 & _ & H5). split_and!; eauto 10.
  - unfold service_finalize_archive_state. rewrite Hm. cbn. eauto.
  - destruct (finalize_frame_step s frame fs i p st e m Hm) as (m' & Hm' & He & Hb).
    split; [rewrite Hb; by apply manager_ok_finalize|]. eauto.
Qed.

(** *** Emission times and identifiers *)

Lemma service_run_times s evs m :
  manager_ok (ss_buffer_manager s) -> ss_matcher s = Some m ->
  let l := (service_run s evs).2 in
  StronglySorted (fun x y => fs_synchronized_at_ms x < fs_synchronized_at_ms y) l /\
  Forall (fun x => sm_last_synchronized_at_ms m < fs_synchronized_at_ms x) l.
Proof.
  revert s m. induction evs as [|ev evs IH]; intros s m Hok Hm; cbn [service_run]; [by split; constructor|].
  pose proof (service_step_emission s ev m Hok Hm) as Hs.
  destruct (service_step s ev) as [s' em]. destruct Hs as (Hok' & m' & Hm' & Hs).
  specialize (IH s' m' Hok' Hm'). destruct (service_run s' evs) as [s'' rest]. cbn [snd] in *.
  destruct IH as [IH1 IH2]. destruct em as [fs|]; cbn.
  - destruct Hs as (_ & _ & _ & Hlt & Heq). rewrite Heq in IH2. split; constructor; try done.
    eapply Forall_impl; [exact IH2|]. cbn. lia.
  - unfold emission_state in Hs. injection Hs as _ _ Hlast. split; [done|]. by rewrite <- Hlast.
Qed.

Definition ids_of_run (r : string) (l : list SynchronizedFrameSet) : list Z :=
  fs_frame_set_id <$> filter (fun fs => fs_capture_run_id fs = Some r) l.

Lemma ids_of_run_cons r fs l :
  ids_of_run r (fs :: l) =
  if decide (fs_capture_run_id fs = Some r) then fs_frame_set_id fs :: ids_of_run r l
  else ids_of_run r l.
Proof. unfold ids_of_run. rewrite filter_cons. by case_decide. Qed.

(** [l] is [a, a+1, a+2, ...]. *)
Definition counts_from (a : Z) (l : list Z) : Prop := l = seqZ a (Z.of_nat (length l)).

Lemma counts_from_cons a l : counts_from (a + 1) l -> counts_from a (a :: l).
Proof.
  unfold counts_from. intros E. cbn [length]. rewrite seqZ_cons by lia. f_equal. rewrite E at 1. f_equal; lia.
Qed.

Lemma service_run_ids s evs m :
  manager_ok (ss_buffer_manager s) -> ss_matcher s = Some m ->
  NoDup (sm_capture_run_id m :: event_runs evs) ->
  forall r,
  (r = sm_capture_run_id m /\
     counts_from (sm_next_frame_set_id m) (ids_of_run r (service_run s evs).2)) \/
  (r ∈ event_runs evs /\ counts_from 1 (ids_of_run r (service_run s evs).2)) \/
  ids_of_run r (service_run s evs).2 = [].
Proof.
  revert s m. induction evs as [|ev evs IH]; intros s m Hok Hm Hnd r; cbn [service_run]; [by right; right|].
  pose proof (service_step_emission s ev m Hok Hm) as Hs.
  destruct (service_step s ev) as [s' em]. destruct Hs as (Hok' & m' & Hm' & Hs).
  specialize (IH s' m' Hok' Hm'). destruct (service_run s' evs) as [s'' rest]. cbn [snd] in *.
  assert (NoDup (sm_capture_run_id m :: event_runs evs) /\ event_runs evs ⊆ event_runs (ev :: evs))
    as [Hnd' Hsub].
  { unfold event_runs in *. cbn in Hnd |- *. destruct ev; cbn in *; [|by split..].
    rewrite !NoDup_cons, elem_of_cons in Hnd. rewrite NoDup_cons. split; [naive_solver|].
    intros x Hx. by right. }
  destruct em as [fs|]; [change (option_list (Some fs) ++ rest) with (fs :: rest)|
    change (option_list None ++ rest) with rest].
  - destruct Hs as ((frame & now & run & -> & Hcase) & Hrun & Hnext & _ & _).
    rewrite ids_of_run_cons, Hrun. destruct Hcase as [[Er Eid]|[Er Eid]].
    + rewrite Er in *. specialize (IH Hnd' r). rewrite Hnext in IH.
      destruct (decide (Some (sm_capture_run_id m) = Some r)) as [[= <-]|Hne].
      * left. split; [done|]. rewrite Eid. apply counts_from_cons.
        destruct IH as [[_ IH]|[[Hin IH]|IH]]; [by rewrite <- Eid|exfalso|by rewrite IH].
        apply NoDup_cons in Hnd' as [Hn _]. done.
      * right. destruct IH as [[-> _]|[[Hin IH]|IH]]; [done|left; split; [by apply Hsub|done]|by right].
    + assert (NoDup (run :: event_runs evs) /\ run <> sm_capture_run_id m /\
              sm_capture_run_id m ∉ event_runs evs) as (Hnd2 & Hne & Hnin).
      { unfold event_runs in *. cbn in Hnd. rewrite !NoDup_cons, elem_of_cons in Hnd.
        rewrite NoDup_cons. naive_solver. }
      rewrite Er in *. specialize (IH Hnd2 r). rewrite Hnext, Eid in IH.
      destruct (decide (Some run = Some r)) as [[= <-]|Hne'].
      * right. left. split; [unfold event_runs; cbn; left|]. rewrite Eid. apply counts_from_cons.
        destruct IH as [[_ IH]|[[Hin IH]|IH]]; [done|exfalso|by rewrite IH].
        apply NoDup_cons in Hnd2 as [Hn _]. done.
      * right. destruct IH as [[-> _]|[[Hin IH]|IH]]; [done|left; split; [by apply Hsub|done]|by right].
  - unfold emission_state in Hs. injection Hs as Er Eid _. rewrite Er in IH.
    specialize (IH Hnd' r). rewrite Eid in IH.
    destruct IH as [IH|[[Hin IH]|IH]]; [by left|right; left; split; [by apply Hsub|done]|by right; right].
Qed.
End Runs.

(** *** Order of the members across frame-sets *)

Section Order.
Context `{Hashing} `{!HexDigest}.
Context (d : string) (i : option string * option string).

(** Everything the device's buffer holds or will accept comes after [g]. *)
Definition passed (mgr : SyncFrameBufferManager) (g : StoredSyncFrame) : Prop :=
  exists b, bm_buffers mgr !! d = Some b /\ seen b g /\ Forall (precedes g) (cb_frames b).

(** The device's buffer belongs to the source [i]. *)
Definition of_source (mgr : SyncFrameBufferManager) : Prop :=
  forall b, bm_buffers mgr !! d = Some b -> cb_source_identity b = Some i.

Definition frame_of_source (frame : SyncInputFrame) : Prop :=
  in_identity_mode frame = IDENTITY_MODE_V2 /\ is_Some (in_sequence frame) /\
  (in_device_id frame = d -> (in_source_session_id frame, in_camera_stream_id frame) = i).

Definition event_of_source (ev : service_event) : Prop :=
  match ev with EvFrame frame _ _ => frame_of_source frame | _ => True end.

Record ordered_state (mgr : SyncFrameBufferManager) (last : option StoredSyncFrame) : Prop := {
  os_ok : manager_ok mgr;
  os_ordered : manager_ordered mgr;
  os_source : of_source mgr;
  os_passed : forall g, last = Some g -> passed mgr g;
}.

(** Operations that shrink or rewrite the device's buffer in place. *)
Lemma ordered_state_sub mgr mgr' last :
  manager_ok mgr' -> manager_ordered mgr' ->
  (forall b', bm_buffers mgr' !! d = Some b' -> exists b, bm_buffers mgr !! d = Some b /\
     cb_source_identity b' = cb_source_identity b /\ cb_last_sequence b' = cb_last_sequence b /\
     cb_last_timestamp_ms b' = cb_last_timestamp_ms b /\
     (forall f, f ∈ cb_frames b' -> exists f0, f0 ∈ cb_frames b /\
        sf_sequence f = sf_sequence f0 /\ sf_timestamp_ms f = sf_timestamp_ms f0)) ->
  is_Some (bm_buffers mgr' !! d) \/ bm_buffers mgr !! d = None ->
  ordered_state mgr last -> ordered_state mgr' last.
Proof using.
  intros Hok Ho Hb Hsome [_ _ Hs Hp]. split; [done|done| |].
  - intros b' Hb'. destruct (Hb _ Hb') as (b & Hb0 & -> & _). by apply Hs.
  - intros g Hg. destruct (Hp g Hg) as (b & Hb0 & Hseen & Hall).
    destruct Hsome as [[b' Hb']|Hn]; [|congruence].
    destruct (Hb _ Hb') as (b1 & Hb1 & _ & El & Et & Hf). simplify_eq. exists b'. split_and!; [done| |].
    + destruct Hseen as (x & y & t & ? & ? & ? & ? & ?). exists x, y, t. by rewrite El, Et.
    + apply Forall_forall. intros f Hin. destruct (Hf _ Hin) as (f0 & Hf0 & Es & Ets).
      rewrite Forall_forall in Hall. destruct (Hall _ Hf0) as (x & y & ? & ? & ? & ?).
      exists x, y. by rewrite Es, Ets.
Qed.

Lemma ordered_state_filtered mgr mgr' last (P : option (CameraSyncBuffer -> CameraSyncBuffer)) :
  manager_ok mgr' -> manager_ordered mgr' ->
  bm_buffers mgr' !! d = match P with
    | Some g => g <$> bm_buffers mgr !! d | None => bm_buffers mgr !! d end ->
  (forall g b, P = Some g -> exists l, g b = b <| cb_frames := l |> /\ l ⊆ cb_frames b) ->
  ordered_state mgr last -> ordered_state mgr' last.
Proof using.
  intros Hok Ho Hl HP Hst. apply (ordered_state_sub mgr); [done|done| | |exact Hst].
  - intros b' Hb'. rewrite Hl in Hb'. destruct P as [g|].
    + destruct (bm_buffers mgr !! d) as [b|]; [|done]. injection Hb' as <-.
      destruct (HP g b eq_refl) as (l & -> & Hsub). exists b. split_and!; try done. cbn. eauto.
    + exists b'. split_and!; eauto.
  - rewrite Hl. destruct P as [g|], (bm_buffers mgr !! d); cbn; eauto.
Qed.

Lemma ordered_state_drop mgr ds t last :
  ordered_state mgr last -> ordered_state (drop_frames_older_than mgr ds t None).1 last.
Proof using.
  intros Hst. pose proof Hst as [Hok Ho _ _].
  destruct (drop_older_spec mgr ds t None Hok) as [_ Hl].
  eapply (ordered_state_filtered mgr _ last (if decide (d ∈ ds) then Some (drop_before t) else None));
    [by apply manager_ok_drop|by apply manager_ordered_drop|rewrite Hl; by case_decide| |done].
  intros g b Hg. case_decide; [|done]. injection Hg as <-. eexists. split; [done|].
  intros f [_ ?]%list_elem_of_filter. done.
Qed.

Lemma ordered_state_stale mgr m last :
  ordered_state mgr last -> ordered_state (_drop_stale_frames m mgr).2 last.
Proof using.
  intros Hst. destruct (drop_stale_manager m mgr) as [->|[t ->]]; [done|by apply ordered_state_drop].
Qed.

Lemma ordered_state_finalize mgr k fi p st e last :
  ordered_state mgr last -> ordered_state (finalize_archive mgr k fi p st e).1 last.
Proof using.
  intros Hst. pose proof Hst as [Hok Ho _ _].
  apply (ordered_state_sub mgr); [by apply manager_ok_finalize|by apply manager_ordered_finalize| | |done].
  - intros b' Hb'. unfold finalize_archive in Hb'.
    destruct (bm_frames_by_key mgr !! k) as [f|] eqn:Hf; [|cbn in Hb'; exists b'; eauto 10].
    cbn in Hb'. destruct (bm_buffers mgr !! sf_device_id f) as [b|] eqn:Hb; [|cbn in Hb'; exists b'; eauto 10].
    cbn in Hb'. apply lookup_insert_Some in Hb' as [[Hd <-]|[_ Hb']]; [|exists b'; eauto 10].
    rewrite Hd in Hb. exists b. split_and!; try done.
    intros x Hx. unfold buffer_replace in Hx. cbn in Hx.
    destruct (deque_trim_suffix (cb_max_frames b)
      ((fun item => if bool_decide (sf_buffer_key item = k) then archived f fi p st e else item) <$> cb_frames b))
      as [pre E].
    assert (x ∈ (fun item => if bool_decide (sf_buffer_key item = k) then archived f fi p st e else item)
              <$> cb_frames b) as Hx' by (rewrite E; apply elem_of_app; by right).
    apply list_elem_of_fmap in Hx' as (y & -> & Hy). case_bool_decide as Hk; [|eauto].
    destruct (Ho _ _ Hb) as [_ _ _ _ Hidx]. rewrite Forall_forall in Hidx. specialize (Hidx _ Hy).
    rewrite Hk, Hf in Hidx. injection Hidx as <-. exists f. done.
  - unfold finalize_archive. destruct (bm_frames_by_key mgr !! k) as [f|]; cbn.
    + destruct (bm_buffers mgr !! sf_device_id f) as [b|] eqn:Hb; cbn.
      * destruct (decide (sf_device_id f = d)) as [<-|Hne].
        -- rewrite lookup_insert_eq. eauto.
        -- rewrite lookup_insert_ne by done. destruct (bm_buffers mgr !! d); eauto.
      * destruct (bm_buffers mgr !! d); eauto.
    + destruct (bm_buffers mgr !! d); eauto.
Qed.

Lemma ordered_state_add mgr frame last :
  frame_of_source frame -> ordered_state mgr last ->
  ordered_state (add_stored mgr (store_frame frame)).1 last.
Proof using.
  intros (Hmode & Hseq & Hsrc) [Hok Ho Hs Hp]. set (f := store_frame frame).
  assert (v2_frame f) as Hv by by split.
  assert (sf_device_id f = d -> frame_identity f = i) as Hsrc' by exact Hsrc.
  clearbody f. clear Hsrc.
  pose proof (manager_ok_add mgr f Hok) as Hok'. pose proof (manager_ordered_add mgr f Hok Ho Hv) as Ho'.
  revert Hok' Ho'. destruct (add_stored_outcome mgr f) as
    [g Hg|b Hk Hb Hooo|b dropped idx ev Hk Hb Hooo _ _ _]; [by pose proof (mok_size _ Hok); lia|..];
    intros Hok' Ho'; (split; [exact Hok'|exact Ho'|..]).
  - exact Hs.
  - exact Hp.
  - intros b0. cbn. rewrite insert_id by done. apply Hs.
  - intros g Hg. destruct (Hp g Hg) as (b0 & Hb0 & Hrest). exists b0. cbn.
    rewrite insert_id by done. done.
  - intros b0. cbn. rewrite lookup_insert_Some. intros [[Hd <-]|[_ Hb0]]; [|by apply Hs].
    cbn. rewrite append_identity. f_equal. by apply Hsrc'.
  - intros g Hg. destruct (Hp g Hg) as (b0 & Hb0 & Hseen & Hall). unfold passed. cbn.
    destruct (decide (sf_device_id f = d)) as [Hd|Hne].
    + rewrite Hd, Hb0 in Hb. cbn in Hb. subst b. rewrite Hd, lookup_insert_eq.
      assert (Some (frame_identity f) = cb_source_identity b0) as Hid.
      { rewrite (Hs _ Hb0). f_equal. by apply Hsrc'. }
      destruct (not_out_of_order _ _ Hooo Hv Hid) as [H1 H2].
      assert (precedes g f) as Hgf.
      { destruct Hseen as (x & y & t & Hx & Hy & Hxy & Ht & Hle).
        destruct (H1 _ Hy) as (z & Hz & Hyz). specialize (H2 _ Ht).
        exists x, z. split_and!; [done|done|lia|lia]. }
      eexists. split; [done|]. split; [apply (seen_append b0); auto|]. cbn. rewrite append_frames.
      apply Forall_forall. intros x [Hx| ->]%elem_of_deque_append; [|done].
      destruct (adopt_frames_cases b0 f) as [E|E]; rewrite E in Hx; [|by apply elem_of_nil in Hx].
      by eapply Forall_forall in Hall.
    + rewrite lookup_insert_ne by done. eauto.
Qed.

(** Emitting a set moves the mark to the chosen frame. *)
Lemma ordered_state_consume mgr expected sel chosen last :
  ordered_state mgr last -> frame_choice mgr expected sel -> (d, chosen) ∈ sel ->
  (forall g, last = Some g -> precedes g chosen) /\ frame_identity chosen = i /\
  ordered_state (consume_through mgr sel).1 (Some chosen).
Proof using.
  intros Hst Hc Hin. pose proof Hst as [Hok Ho Hs Hp].
  assert (NoDup sel.*1) as Hnd by apply Hc.
  destruct (consume_through_spec mgr sel Hok Hnd) as (_ & _ & Hl); [by eapply choice_has_buffers|].
  assert (chosen ∈ available_frames mgr d None) as Hav by by apply Hc.
  unfold available_frames in Hav. destruct (bm_buffers mgr !! d) as [b|] eqn:Hb; [|by apply elem_of_nil in Hav].
  apply elem_of_available_frames in Hav as [Hch _].
  pose proof (Ho _ _ Hb) as [Hsrc Hsort Hseen _ _]. rewrite Forall_forall in Hsrc, Hseen. split_and!.
  - intros g Hg. destruct (Hp g Hg) as (b0 & Hb0 & _ & Hall). simplify_eq.
    by eapply Forall_forall in Hall.
  - destruct (Hsrc _ Hch) as [_ Hid]. rewrite (Hs _ Hb) in Hid. congruence.
  - specialize (Hl d). rewrite (dict_elem_get _ _ _ Hnd Hin), Hb in Hl. cbn in Hl. split.
    + by apply manager_ok_consume.
    + by apply manager_ordered_consume.
    + intros b' Hb'. rewrite Hl in Hb'. injection Hb' as <-. exact (Hs _ Hb).
    + intros g [= <-]. eexists. split; [exact Hl|]. split; [by apply Hseen|].
      cbn. apply Forall_forall. intros f [Hlt Hf]%list_elem_of_filter. apply Z.leb_gt in Hlt.
      clear -Hsort Hch Hf Hlt. induction Hsort as [|x l Hl IH Hx]; [by apply elem_of_nil in Hf|].
      rewrite Forall_forall in Hx.
      apply elem_of_cons in Hch as [->|Hch]; apply elem_of_cons in Hf as [->|Hf].
      * lia.
      * by apply Hx.
      * destruct (Hx _ Hch) as (? & ? & _ & _ & _ & Hle). lia.
      * by apply IH.
Qed.

Lemma ordered_state_consume_other mgr expected sel last :
  ordered_state mgr last -> frame_choice mgr expected sel -> dict_get d sel = None ->
  ordered_state (consume_through mgr sel).1 last.
Proof using.
  intros Hst Hc Hn. pose proof Hst as [Hok Ho _ _].
  destruct (consume_through_spec mgr sel Hok) as (_ & _ & Hl);
    [apply Hc|by eapply choice_has_buffers|].
  eapply (ordered_state_filtered mgr _ last None);
    [by apply manager_ok_consume|by apply manager_ordered_consume|by rewrite Hl, Hn|done|done].
Qed.

(** The device's member of a set. *)
Definition member_of (fs : SynchronizedFrameSet) : option StoredSyncFrame := dict_get d (fs_frames fs).

Lemma service_step_order s ev m last :
  event_of_source ev -> ss_matcher s = Some m -> ordered_state (ss_buffer_manager s) last ->
  let '(s', emitted) := service_step s ev in
  match emitted ≫= member_of with
  | Some g => (forall f, last = Some f -> precedes f g) /\ frame_identity g = i /\
              ordered_state (ss_buffer_manager s') (Some g)
  | None => ordered_state (ss_buffer_manager s') last
  end.
Proof using All.
  intros Hev Hm Hst. destruct ev as [frame now run|fs st e|frame fs fi p st e]; cbn [service_step].
  - unfold handle_frame. rewrite Hm. destruct (negb (ss_enabled s)); [done|].
    pose proof (ordered_state_add _ _ last Hev Hst) as Hadd. unfold add_frame.
    destruct (add_stored _ _) as [mgr [f|]]; cbn [fst] in Hadd; [|done].
    pose proof (try_match_outcome m mgr f now run (os_ok _ _ Hadd)) as Ho.
    destruct (try_match m mgr f now run) as [[m' mgr'] r].
    inversion Ho as [| m1 ? ? ? ? _ _ Hd _| |m1 sel sp ci _ _ Hc _ _ _ _ _]; subst.
    + done.
    + match goal with
      | E : _ = _drop_stale_frames ?x mgr |- _ =>
          pose proof (ordered_state_stale _ x _ Hadd) as Hst'; by rewrite <- E in Hst'
      end.
    + done.
    + cbn [option_bind mbind]. change (member_of _) with (dict_get d sel).
      destruct (dict_get d sel) as [g|] eqn:Eg.
      * apply dict_get_elem in Eg.
        destruct (ordered_state_consume _ _ _ _ _ Hadd Hc Eg) as (H1 & H2 & H3).
        split_and!; [done|done|]. by apply ordered_state_stale.
      * apply ordered_state_stale. by eapply ordered_state_consume_other.
  - unfold service_finalize_archive_state. rewrite Hm. done.
  - destruct (finalize_frame_step s frame fs fi p st e m Hm) as (m' & _ & _ & Hb). cbn.
    rewrite Hb. by apply ordered_state_finalize.
Qed.

Lemma service_step_matcher s ev m :
  ss_matcher s = Some m -> exists m', ss_matcher (service_step s ev).1 = Some m'.
Proof using.
  intros Hm. destruct ev as [frame now run|fs st e|frame fs fi p st e]; cbn [service_step].
  - unfold handle_frame. rewrite Hm. destruct (negb (ss_enabled s)); [by eauto|].
    destruct (add_frame _ _) as [mgr [f|]]; [|by eauto].
    destruct (try_match _ _ _ _ _) as [[m' mgr'] r]. by eauto.
  - unfold service_finalize_archive_state. rewrite Hm. cbn. eauto.
  - destruct (finalize_frame_step s frame fs fi p st e m Hm) as (m' & E & _). eauto.
Qed.

Lemma service_run_order s evs m last :
  Forall event_of_source evs -> ss_matcher s = Some m -> ordered_state (ss_buffer_manager s) last ->
  let members := omap member_of (service_run s evs).2 in
  StronglySorted precedes members /\ Forall (fun g => frame_identity g = i) members /\
  forall f, last = Some f -> Forall (precedes f) members.
Proof using All.
  intros Hevs. revert s m last. induction Hevs as [|ev evs Hev Hevs IH]; intros s m last Hm Hst;
    cbn zeta in *; cbn [service_run].
  { split_and!; try constructor. }
  pose proof (service_step_order s ev m last Hev Hm Hst) as Hs.
  destruct (service_step_matcher s ev m Hm) as [m' Hm'].
  destruct (service_step s ev) as [s' em]. cbn [fst] in Hm'.
  destruct (em ≫= member_of) as [g|] eqn:Eg.
  - destruct Hs as (Hlast & Hi & Hst'). destruct em as [fs|]; [|done]. cbn in Eg.
    destruct (IH s' m' _ Hm' Hst') as (H1 & H2 & H3).
    destruct (service_run s' evs) as [s'' rest]. cbn [snd] in *.
    change (option_list (Some fs) ++ rest) with (fs :: rest). cbn [omap list_omap]. rewrite Eg.
    specialize (H3 g eq_refl). split_and!.
    + by constructor.
    + by constructor.
    + intros f Hf. constructor; [by apply Hlast|]. eapply Forall_impl; [exact H3|].
      intros h Hh. eapply precedes_trans; [by apply Hlast|done].
  - destruct (IH s' m' _ Hm' Hs) as (H1 & H2 & H3).
    destruct (service_run s' evs) as [s'' rest]. cbn [snd] in *.
    destruct em as [fs|]; [|done]. cbn in Eg. change (option_list (Some fs) ++ rest) with (fs :: rest).
    cbn [omap list_omap]. by rewrite Eg.
Qed.
End Order.

(** *** Completion of archives *)

Section Archive.
Context `{Hashing}.

Definition set_keys (fs : SynchronizedFrameSet) : list string := sf_buffer_key <$> (fs_frames fs).*2.
Definition set_id (fs : SynchronizedFrameSet) : option string * Z :=
  (fs_capture_run_id fs, fs_frame_set_id fs).

(** The recent sets are within their limit, distinct, and share no member. *)
Record recents_ok (m : SyncMatcher) : Prop := {
  ro_limit : (length (sm_recent_frame_sets m) <= Z.to_nat (sm_recent_limit m))%nat;
  ro_ids : NoDup (set_id <$> sm_recent_frame_sets m);
  ro_keys : NoDup (mjoin (set_keys <$> sm_recent_frame_sets m));
}.

Lemma same_set_iff x y : same_set x y = true <-> set_id x = set_id y.
Proof.
  unfold same_set, set_id. bools. split; [by intros [-> ->]|].
  by intros [= -> ->].
Qed.

Lemma keys_determine_set (R : list SynchronizedFrameSet) x y k :
  NoDup (mjoin (set_keys <$> R)) -> x ∈ R -> y ∈ R -> k ∈ set_keys x -> k ∈ set_keys y -> x = y.
Proof.
  induction R as [|z R IH]; [by intros _ ?%elem_of_nil|].
  rewrite fmap_cons. change (mjoin (?a :: ?b)) with (a ++ mjoin b).
  intros (_ & Hdisj & Hnd)%NoDup_app Hx Hy Hkx Hky.
  assert (forall w, w ∈ R -> k ∈ set_keys w -> k ∈ mjoin (set_keys <$> R)) as Hj.
  { intros w Hw Hk. apply list_elem_of_join. exists (set_keys w). split; [done|].
    by apply list_elem_of_fmap_2. }
  apply elem_of_cons in Hx as [->|Hx]; apply elem_of_cons in Hy as [->|Hy].
  - done.
  - exfalso. eapply Hdisj; [exact Hkx|]. by eapply Hj.
  - exfalso. eapply Hdisj; [exact Hky|]. by eapply Hj.
  - by apply IH.
Qed.

Lemma ids_determine_set (R : list SynchronizedFrameSet) x y :
  NoDup (set_id <$> R) -> x ∈ R -> y ∈ R -> set_id x = set_id y -> x = y.
Proof.
  induction R as [|z R IH]; [by intros _ ?%elem_of_nil|].
  rewrite fmap_cons. intros [Hn Hnd]%NoDup_cons Hx Hy E.
  apply elem_of_cons in Hx as [->|Hx]; apply elem_of_cons in Hy as [->|Hy].
  - done.
  - exfalso. apply Hn. rewrite E. by apply list_elem_of_fmap_2.
  - exfalso. apply Hn. rewrite <- E. by apply list_elem_of_fmap_2.
  - by apply IH.
Qed.

Lemma replace_member_keys sel f :
  sf_buffer_key <$> (replace_member sel f).*2 = sf_buffer_key <$> sel.*2 /\
  (replace_member sel f).*1 = sel.*1.
Proof.
  induction sel as [|[d g] sel [IH1 IH2]]; [done|]. cbn. case_bool_decide as E; cbn.
  - by rewrite E.
  - by rewrite IH1, IH2.
Qed.

Lemma replace_member_elem sel f g :
  NoDup (sf_buffer_key <$> sel.*2) -> g ∈ (replace_member sel f).*2 ->
  (sf_buffer_key g = sf_buffer_key f /\ g = f) \/ (sf_buffer_key g <> sf_buffer_key f /\ g ∈ sel.*2).
Proof.
  induction sel as [|[d h] sel IH]; cbn; [by intros _ ?%elem_of_nil|].
  intros [Hn Hnd]%NoDup_cons. case_bool_decide as E; cbn.
  - intros [->|Hg]%elem_of_cons; [by left|]. right. split; [|by right].
    intros Ek. apply Hn. rewrite E, <- Ek. by apply list_elem_of_fmap_2.
  - intros [->|Hg]%elem_of_cons; [right; split; [done|left]|].
    destruct (IH Hnd Hg) as [?|[? ?]]; [by left|right]. split; [done|by right].
Qed.

Lemma has_member_iff f fs : has_member f fs = true <-> sf_buffer_key f ∈ set_keys fs.
Proof.
  unfold has_member, set_keys. rewrite existsb_true_iff, list_elem_of_fmap. split.
  - intros ([d g] & Hin & E%bool_decide_eq_true). exists g. split; [done|].
    by apply (list_elem_of_fmap_2 snd) in Hin.
  - intros (g & E & ([d g'] & -> & Hin)%list_elem_of_fmap). exists (d, g').
    split; [done|]. by apply bool_decide_eq_true.
Qed.

(** Replacing a set by one with its identity and keys. *)
Lemma replace_recents m u :
  recents_ok m -> (forall y, y ∈ sm_recent_frame_sets m -> set_id y = set_id u -> set_keys y = set_keys u) ->
  recents_ok (_replace_recent_frame_set m u) /\
  sm_recent_frame_sets (_replace_recent_frame_set m u) =
    (fun y => if same_set y u then u else y) <$> sm_recent_frame_sets m.
Proof.
  intros [Hl Hi Hk] Hu. unfold _replace_recent_frame_set. cbn.
  set (g := fun y => if same_set y u then u else y).
  rewrite deque_trim_id by by rewrite length_fmap. split; [|done]. split; cbn.
  - by rewrite length_fmap.
  - replace (set_id <$> (g <$> sm_recent_frame_sets m)) with (set_id <$> sm_recent_frame_sets m); [done|].
    rewrite <- list_fmap_compose. apply list_fmap_ext. intros _ y _. cbn. unfold g.
    case_match eqn:E; [|done]. by apply same_set_iff in E.
  - replace (set_keys <$> (g <$> sm_recent_frame_sets m)) with (set_keys <$> sm_recent_frame_sets m); [done|].
    rewrite <- list_fmap_compose. apply list_fmap_ext. intros j y Hy. cbn. unfold g.
    case_match eqn:E; [|done]. apply Hu; [by eapply list_elem_of_lookup_2|by apply same_set_iff].
Qed.

(** One completed archive write. *)
Record ArchiveCall := mkArchiveCall {
  ac_frame : SyncInputFrame;
  ac_frame_set : option SynchronizedFrameSet;
  ac_frame_id : option Z;
  ac_file_path : option string;
  ac_state : string;
  ac_error : option string;
}.

Definition call_key (c : ArchiveCall) : string := build_buffer_key (ac_frame c).

Definition run_call (s : StreamSyncService) (c : ArchiveCall) : StreamSyncService :=
  (finalize_frame_archive s (ac_frame c) (ac_frame_set c) (ac_frame_id c) (ac_file_path c)
     (ac_state c) (ac_error c)).1.

(** The caller's frame-set is none, or one its frame is a member of. *)
Definition call_ok (R : list SynchronizedFrameSet) (c : ArchiveCall) : Prop :=
  match ac_frame_set c with
  | None => True
  | Some h => call_key c ∈ set_keys h /\
              forall x, x ∈ R -> set_id x = set_id h -> set_keys x = set_keys h
  end.

Definition archived_as (c : ArchiveCall) (g : StoredSyncFrame) : Prop :=
  sf_frame_id g = ac_frame_id c /\ sf_file_path g = ac_file_path c /\
  sf_archive_state g = ac_state c /\ sf_archive_error g = ac_error c.

Definition members (fs : SynchronizedFrameSet) : list StoredSyncFrame := (fs_frames fs).*2.

(** [x'] is [x] after the call: the member with its key archived, the
    others as they were. *)
Definition completed (c : ArchiveCall) (x x' : SynchronizedFrameSet) : Prop :=
  set_id x' = set_id x /\ set_keys x' = set_keys x /\ (fs_frames x').*1 = (fs_frames x).*1 /\
  forall g, g ∈ members x' ->
    (sf_buffer_key g = call_key c /\ archived_as c g) \/ (sf_buffer_key g <> call_key c /\ g ∈ members x).

Lemma completed_other c x : call_key c ∉ set_keys x -> completed c x x.
Proof.
  intros Hn. split_and!; [done..|]. intros g Hg. right. split; [|done].
  intros E. apply Hn. rewrite <- E. by apply list_elem_of_fmap_2.
Qed.

Lemma set_keys_NoDup m x : recents_ok m -> x ∈ sm_recent_frame_sets m -> NoDup (set_keys x).
Proof.
  intros [_ _ Hk] Hx. revert Hk Hx. induction (sm_recent_frame_sets m) as [|y R IH].
  - by intros _ ?%elem_of_nil.
  - rewrite fmap_cons. change (mjoin (?a :: ?b)) with (a ++ mjoin b).
    intros (H1 & _ & H2)%NoDup_app [->|Hx]%elem_of_cons; auto.
Qed.

Lemma replace_frame_member_eq m fs f : exists m1,
  sm_recent_frame_sets m1 = sm_recent_frame_sets m /\ sm_recent_limit m1 = sm_recent_limit m /\
  replace_frame_member m fs f = (_replace_recent_frame_set m1 (with_member fs f), with_member fs f).
Proof. unfold replace_frame_member. eexists. split; [|split]; [..|reflexivity]; reflexivity. Qed.

(** The end of the call, for the archived frame. *)
Lemma replace_archived_completed s m c stored x :
  recents_ok m -> x ∈ sm_recent_frame_sets m -> call_ok (sm_recent_frame_sets m) c ->
  sf_buffer_key stored = call_key c -> archived_as c stored ->
  exists m', ss_matcher (replace_archived s m (ac_frame_set c) stored).1 = Some m' /\
    ss_buffer_manager (replace_archived s m (ac_frame_set c) stored).1 = ss_buffer_manager s /\
    recents_ok m' /\ set_id <$> sm_recent_frame_sets m' = set_id <$> sm_recent_frame_sets m /\
    set_keys <$> sm_recent_frame_sets m' = set_keys <$> sm_recent_frame_sets m /\
    exists x', x' ∈ sm_recent_frame_sets m' /\ completed c x x'.
Proof.
  intros Hm Hx Hc Hkey Harch. unfold replace_archived, replace_recent_frame_member.
  set (R := sm_recent_frame_sets m) in *.
  assert (forall m1 u, sm_recent_frame_sets m1 = R -> sm_recent_limit m1 = sm_recent_limit m ->
    (forall y, y ∈ R -> set_id y = set_id u -> set_keys y = set_keys u) ->
    let m' := _replace_recent_frame_set m1 u in
    recents_ok m' /\ set_id <$> sm_recent_frame_sets m' = set_id <$> R /\
    set_keys <$> sm_recent_frame_sets m' = set_keys <$> R /\
    sm_recent_frame_sets m' = (fun y => if same_set y u then u else y) <$> R) as Hrep.
  { intros m1 u E1 E2 Hu m'. destruct (replace_recents m1 u) as [Hok E].
    - destruct Hm. split; by rewrite ?E1, ?E2.
    - by rewrite E1.
    - rewrite E1 in E. split_and!; [done| | |done]; unfold m'; rewrite E, <- list_fmap_compose;
        apply list_fmap_ext; intros j y Hy; cbn; case_match eqn:Es; try done.
      + by apply same_set_iff in Es.
      + symmetry. apply Hu; [by eapply list_elem_of_lookup_2|by apply same_set_iff]. }
  destruct (find (has_member stored) (reverse R)) as [y|] eqn:Ef.
  - apply find_some in Ef as [Hy Hmem]. apply list_elem_of_In in Hy. rewrite elem_of_reverse in Hy.
    apply has_member_iff in Hmem. rewrite Hkey in Hmem.
    destruct (replace_member_keys (fs_frames y) stored) as [Ek Ed].
    destruct (replace_frame_member_eq m y stored) as (m1 & E1 & E2 & ->).
    cbn [fst]. eexists. split; [done|]. split; [done|]. set (u := with_member y stored).
    assert (set_keys u = set_keys y) as Euk by exact Ek.
    destruct (Hrep m1 u) as (H1 & H2 & H3 & H4); [done|done| |].
    { intros z Hz E. rewrite Euk. change (set_id u) with (set_id y) in E. f_equal. eapply ids_determine_set; [apply Hm|done..]. }
    split_and!; [exact H1|exact H2|exact H3|].
    destruct (decide (call_key c ∈ set_keys x)) as [Hin|Hnin].
    + assert (y = x) as -> by (eapply keys_determine_set; [apply Hm|done..]).
      exists u. split.
      * rewrite H4. apply list_elem_of_fmap. exists x. split; [|done].
        assert (same_set x u = true) as -> by by apply same_set_iff. done.
      * split_and!; [done|done|exact Ed|]. intros g Hg.
        apply replace_member_elem in Hg; [|exact (set_keys_NoDup m x Hm Hx)].
        rewrite <- Hkey. destruct Hg as [[? ->]|?]; [by left|by right].
    + exists x. split; [|by apply completed_other].
      rewrite H4. apply list_elem_of_fmap. exists x. split; [|done].
      destruct (same_set x u) eqn:Es; [|done]. apply same_set_iff in Es.
      change (set_id u) with (set_id y) in Es.
      assert (x = y) as -> by (eapply ids_determine_set; [apply Hm|done..]). done.
  - assert (forall z, z ∈ R -> call_key c ∉ set_keys z) as Hnone.
    { intros z Hz Hin. rewrite <- Hkey in Hin. apply has_member_iff in Hin.
      rewrite (find_none _ _ Ef z) in Hin; [done|].
      by apply list_elem_of_In, elem_of_reverse. }
    destruct (ac_frame_set c) as [h|] eqn:Eh.
    + destruct (replace_frame_member_eq m h stored) as (m1 & E1 & E2 & ->).
      cbn [fst]. eexists. split; [done|]. split; [done|]. set (u := with_member h stored).
      unfold call_ok in Hc. rewrite Eh in Hc. destruct Hc as [Hkh Hsame].
      destruct (Hrep m1 u) as (H1 & H2 & H3 & H4); [done|done| |].
      { intros z Hz E. exfalso. apply (Hnone z Hz). by rewrite (Hsame z Hz E). }
      split_and!; [exact H1|exact H2|exact H3|]. exists x. split; [|by apply completed_other, Hnone].
      rewrite H4. apply list_elem_of_fmap. exists x. split; [|done].
      destruct (same_set x u) eqn:Es; [|done]. apply same_set_iff in Es.
      exfalso. apply (Hnone x Hx). by rewrite (Hsame x Hx Es).
    + exists m. split_and!; try done. exists x. split; [done|]. by apply completed_other, Hnone.
Qed.

Lemma find_member_key k cs g : find_member k cs = Some g -> sf_buffer_key g = k.
Proof.
  induction cs as [|c cs IH]; cbn; [done|]. destruct (find _ _) as [h|] eqn:E; [|done].
  intros [= <-]. apply find_some in E as [_ E]. by apply bool_decide_eq_true in E.
Qed.

Lemma find_member_none k cs x : find_member k cs = None -> x ∈ cs -> k ∉ set_keys x.
Proof.
  induction cs as [|c cs IH]; cbn; [by intros _ ?%elem_of_nil|].
  destruct (find _ _) as [h|] eqn:E; [done|]. intros Hn [->|Hx]%elem_of_cons; [|by apply IH].
  intros (g & Hk & Hg)%list_elem_of_fmap. apply list_elem_of_In in Hg.
  pose proof (find_none _ _ E g Hg) as Hf. by apply bool_decide_eq_false in Hf.
Qed.

(** One call completes its member of a recent set and no other. *)
Lemma run_call_completed s m c x :
  manager_ok (ss_buffer_manager s) -> ss_matcher s = Some m -> recents_ok m ->
  x ∈ sm_recent_frame_sets m -> call_ok (sm_recent_frame_sets m) c ->
  exists m', ss_matcher (run_call s c) = Some m' /\ manager_ok (ss_buffer_manager (run_call s c)) /\
    recents_ok m' /\ set_id <$> sm_recent_frame_sets m' = set_id <$> sm_recent_frame_sets m /\
    set_keys <$> sm_recent_frame_sets m' = set_keys <$> sm_recent_frame_sets m /\
    exists x', x' ∈ sm_recent_frame_sets m' /\ completed c x x'.
Proof.
  intros Hok Hm Hro Hx Hc. unfold run_call, finalize_frame_archive. fold (call_key c).
  pose proof (manager_ok_finalize _ (call_key c) (ac_frame_id c) (ac_file_path c) (ac_state c) (ac_error c) Hok)
    as Hok'.
  assert (forall u, (finalize_archive (ss_buffer_manager s) (call_key c) (ac_frame_id c) (ac_file_path c)
                       (ac_state c) (ac_error c)).2 = Some u ->
            sf_buffer_key u = call_key c /\ archived_as c u) as Hstored.
  { intros u. unfold finalize_archive. destruct (bm_frames_by_key _ !! call_key c) as [f|] eqn:Hf; [|done].
    intros Hu. assert (u = archived f (ac_frame_id c) (ac_file_path c) (ac_state c) (ac_error c)) as ->
      by (revert Hu; case_match; cbn; congruence).
    split; [exact (proj1 (mok_index _ Hok _ _ Hf))|done]. }
  destruct (finalize_archive _ _ _ _ _ _) as [mgr stored]. cbn [fst snd] in *.
  set (s1 := s <| ss_buffer_manager := mgr |>).
  change (ss_matcher s1) with (ss_matcher s). rewrite Hm.
  assert (forall stored, sf_buffer_key stored = call_key c -> archived_as c stored ->
    exists m', ss_matcher (replace_archived s1 m (ac_frame_set c) stored).1 = Some m' /\
    manager_ok (ss_buffer_manager (replace_archived s1 m (ac_frame_set c) stored).1) /\
    recents_ok m' /\ set_id <$> sm_recent_frame_sets m' = set_id <$> sm_recent_frame_sets m /\
    set_keys <$> sm_recent_frame_sets m' = set_keys <$> sm_recent_frame_sets m /\
    exists x', x' ∈ sm_recent_frame_sets m' /\ completed c x x') as Hrep.
  { intros g Hk Ha. destruct (replace_archived_completed s1 m c g x Hro Hx Hc Hk Ha)
      as (m' & H1 & H2 & H3 & H4 & H5 & H6). exists m'. rewrite H2. done. }
  destruct stored as [u|].
  - destruct (Hstored u eq_refl). by apply Hrep.
  - destruct (find_member _ _) as [g|] eqn:Ef.
    + apply Hrep; [|done]. by apply find_member_key in Ef.
    + exists m. split_and!; try done. exists x. split; [done|]. apply completed_other.
      eapply find_member_none; [exact Ef|]. apply elem_of_app. by left.
Qed.

(** A sequence of completions, whatever its order. *)
Lemma run_calls_completed calls : forall s m x,
  manager_ok (ss_buffer_manager s) -> ss_matcher s = Some m -> recents_ok m ->
  x ∈ sm_recent_frame_sets m -> Forall (call_ok (sm_recent_frame_sets m)) calls ->
  NoDup (call_key <$> calls) ->
  exists m' x', ss_matcher (foldl run_call s calls) = Some m' /\ x' ∈ sm_recent_frame_sets m' /\
    set_id x' = set_id x /\ set_keys x' = set_keys x /\ (fs_frames x').*1 = (fs_frames x).*1 /\
    forall g, g ∈ members x' ->
      (exists c, c ∈ calls /\ sf_buffer_key g = call_key c /\ archived_as c g) \/
      ((sf_buffer_key g ∉ (call_key <$> calls)) /\ g ∈ members x).
Proof.
  induction calls as [|c calls IH]; intros s m x Hok Hm Hro Hx Hcalls Hnd.
  { exists m, x. split_and!; try done. intros g Hg. right. split; [|done]. apply not_elem_of_nil. }
  apply Forall_cons in Hcalls as [Hc Hcalls]. rewrite fmap_cons in Hnd. apply NoDup_cons in Hnd as [Hn Hnd].
  destruct (run_call_completed s m c x Hok Hm Hro Hx Hc)
    as (m1 & Hm1 & Hok1 & Hro1 & Hids & Hkeys & x1 & Hx1 & Hid1 & Hk1 & Hd1 & Hmem1).
  destruct (IH (run_call s c) m1 x1) as (m2 & x2 & Hm2 & Hx2 & Hid2 & Hk2 & Hd2 & Hmem2); [done..| |done|].
  - eapply Forall_impl; [exact Hcalls|]. intros c' Hc'. unfold call_ok in *.
    destruct (ac_frame_set c') as [h|]; [|done]. destruct Hc' as [Hkh Hsame]. split; [done|].
    intros z Hz E. apply list_elem_of_lookup in Hz as [j Hj].
    assert ((set_id <$> sm_recent_frame_sets m) !! j = Some (set_id z)) as Hi
      by (rewrite <- Hids, list_lookup_fmap, Hj; done).
    assert ((set_keys <$> sm_recent_frame_sets m) !! j = Some (set_keys z)) as Hk
      by (rewrite <- Hkeys, list_lookup_fmap, Hj; done).
    rewrite list_lookup_fmap in Hi. rewrite list_lookup_fmap in Hk. destruct (sm_recent_frame_sets m !! j) as [w|] eqn:Ew; [|done].
    assert (set_id w = set_id z) as Hi' by (cbn in Hi; congruence).
    assert (set_keys w = set_keys z) as Hk' by (cbn in Hk; congruence). rewrite <- Hk'.
    apply Hsame; [by eapply list_elem_of_lookup_2|]. by rewrite Hi'.
  - exists m2, x2. cbn [foldl]. split_and!; try congruence.
    intros g Hg. destruct (Hmem2 g Hg) as [(c' & Hc' & Hkg & Ha)|[Hng Hg1]].
    + left. exists c'. split; [by right|done].
    + destruct (Hmem1 g Hg1) as [[Hkg Ha]|[Hkg Hg0]].
      * left. exists c. split; [left|done].
      * right. rewrite fmap_cons, not_elem_of_cons. done.
Qed.
End Archive.

(** ** Properties *)

Section Configured.
Context `{Hashing} `{!HexDigest}.

(** A service just configured and enabled. *)
Definition configured (expected : list string) (window size limit : Z) (run : string)
    (s : StreamSyncService) : Prop :=
  configure new_StreamSyncService true expected window size limit run = (s, Ok tt).

Lemma configured_state expected window size limit run s :
  configured expected window size limit run s ->
  exists m, ss_matcher s = Some m /\ sm_capture_run_id m = run /\ sm_next_frame_set_id m = 1 /\
    sm_last_synchronized_at_ms m = 0 /\ manager_ok (ss_buffer_manager s) /\
    manager_ordered (ss_buffer_manager s) /\ bm_buffers (ss_buffer_manager s) = ∅.
Proof.
  unfold configured, configure, new_SyncFrameBufferManager, new_SyncMatcher.
  destruct (Z.ltb_spec size 1); [done|]. destruct (Z.ltb_spec limit 0); [done|].
  intros [= <-]. eexists. cbn. split; [done|]. split_and!; done.
Qed.
End Configured.

(** Frame-set identifiers: in any run of a configured service, the sets
    emitted under each capture run are numbered 1, 2, 3, ... in emission
    order, and emission times strictly increase (so no two emitted sets share
    run and number). *)
Theorem frame_set_ids_contiguous `{Hashing} `{!HexDigest} expected window size limit run s evs :
  configured expected window size limit run s -> NoDup (run :: event_runs evs) ->
  let emitted := (service_run s evs).2 in
  (forall r, counts_from 1 (ids_of_run r emitted)) /\
  StronglySorted (fun x y => fs_synchronized_at_ms x < fs_synchronized_at_ms y) emitted.
Proof.
  intros Hc Hnd emitted. destruct (configured_state _ _ _ _ _ _ Hc) as (m & Hm & Hr & Hn & _ & Hok & _).
  split.
  - intros r. rewrite <- Hr in Hnd. unfold emitted.
    destruct (service_run_ids s evs m Hok Hm Hnd r) as [[_ Hi]|[[_ Hi]| ->]]; [|done|done].
    by rewrite Hn in Hi.
  - by apply (service_run_times s evs m).
Qed.

(** Three cameras' frames arriving in turn. *)
Definition demo_service : StreamSyncService :=
  (configure new_StreamSyncService true ["a"; "b"] 50 4 4 "run-0").1.

Definition demo_events : list service_event := [
  EvFrame (v2_input "a" "s" 1 100) 1000 "r1"; EvFrame (v2_input "b" "t" 1 110) 1000 "r2";
  EvFrame (v2_input "a" "s" 2 200) 1000 "r3"; EvFrame (v2_input "b" "t" 2 220) 1000 "r4"].

Lemma frame_set_ids_contiguous_witness :
  let emitted := (service_run (H := transparent_hashing) demo_service demo_events).2 in
  length emitted = 2%nat /\ (forall r, counts_from 1 (ids_of_run r emitted)).
Proof.
  intros emitted. split; [vm_compute; reflexivity|].
  refine (proj1 (frame_set_ids_contiguous (H := transparent_hashing) ["a"; "b"] 50 4 4 "run-0"
                   demo_service demo_events _ _)).
  - reflexivity.
  - apply (bool_decide_unpack _). vm_compute. exact I.
Defined.

(** C6: Frame-sets never go back: over any run of a configured service whose
    frames are V2 and whose frames of device [d] come from one source, the
    members of [d] in the emitted sets are in strictly increasing sequence
    and non-decreasing time; in particular no frame is in two sets. *)
Theorem members_ordered_across_sets `{Hashing} `{!HexDigest} expected window size limit run s evs d i :
  configured expected window size limit run s -> Forall (event_of_source d i) evs ->
  let members := omap (member_of d) (service_run s evs).2 in
  StronglySorted precedes members /\ Forall (fun g => frame_identity g = i) members.
Proof.
  intros Hc Hevs. destruct (configured_state _ _ _ _ _ _ Hc) as (m & Hm & _ & _ & _ & Hok & Ho & Hb).
  destruct (service_run_order d i s evs m None Hevs Hm) as (H1 & H2 & _); [|done].
  split; [done|done| |done]. intros b. by rewrite Hb, lookup_empty.
Qed.

Lemma members_ordered_across_sets_witness :
  let members := omap (member_of "a")
    (service_run (H := transparent_hashing) demo_service demo_events).2 in
  sf_sequence <$> members = [Some 1; Some 2] /\ StronglySorted precedes members.
Proof.
  intros members. split; [vm_compute; reflexivity|].
  refine (proj1 (members_ordered_across_sets (H := transparent_hashing) ["a"; "b"] 50 4 4 "run-0"
                   demo_service demo_events "a" (Some "s", Some "a") _ _)).
  - reflexivity.
  - repeat constructor; cbn; try discriminate; try reflexivity; eexists; reflexivity.
Defined.

(** Archive completions may arrive in any order: when every member of a
    recent set is completed once, by calls that carry no frame-set or one
    their frame belongs to, the set ends with every member as its own call
    left it, whichever order the calls ran in. *)
Theorem archive_completion_any_order `{Hashing} s m x calls :
  manager_ok (ss_buffer_manager s) -> ss_matcher s = Some m -> recents_ok m ->
  x ∈ sm_recent_frame_sets m -> Forall (call_ok (sm_recent_frame_sets m)) calls ->
  NoDup (call_key <$> calls) -> (forall k, k ∈ set_keys x -> k ∈ call_key <$> calls) ->
  exists m' x', ss_matcher (foldl run_call s calls) = Some m' /\ x' ∈ sm_recent_frame_sets m' /\
    set_id x' = set_id x /\ set_keys x' = set_keys x /\ (fs_frames x').*1 = (fs_frames x).*1 /\
    forall g, g ∈ members x' ->
      exists c, c ∈ calls /\ sf_buffer_key g = call_key c /\ archived_as c g.
Proof.
  intros Hok Hm Hro Hx Hcalls Hnd Hall.
  destruct (run_calls_completed calls s m x Hok Hm Hro Hx Hcalls Hnd)
    as (m' & x' & H1 & H2 & H3 & H4 & H5 & H6). exists m', x'. split_and!; try done.
  intros g Hg. destruct (H6 g Hg) as [Hc|[Hn _]]; [done|]. exfalso. apply Hn, Hall.
  rewrite <- H4. by apply list_elem_of_fmap_2.
Qed.

Definition demo_matched : StreamSyncService :=
  (service_run (H := transparent_hashing) demo_service (take 2 demo_events)).1.

Definition demo_call (frame : SyncInputFrame) : ArchiveCall :=
  mkArchiveCall frame None (Some 1) (Some "path") ARCHIVE_DURABLE None.

Lemma archive_completion_any_order_witness :
  let calls := demo_call <$> [v2_input "b" "t" 1 110; v2_input "a" "s" 1 100] in
  exists m' x', ss_matcher (foldl (run_call (H := transparent_hashing)) demo_matched calls) = Some m' /\
    x' ∈ sm_recent_frame_sets m' /\ length (members x') = 2%nat /\
    forall g, g ∈ members x' -> sf_archive_state g = ARCHIVE_DURABLE.
Proof.
  intros calls.
  assert (exists m x, ss_matcher demo_matched = Some m /\ sm_recent_frame_sets m = [x] /\
    set_keys x = ["source:sa1"; "source:tb1"] /\ sm_recent_limit m = 4) as (m & x & Hm & HR & Hk & Hl).
  { vm_compute. eexists _, _. split; [reflexivity|]. split; [reflexivity|]. split; reflexivity. }
  destruct (archive_completion_any_order (H := transparent_hashing) demo_matched m x calls)
    as (m' & x' & H1 & H2 & _ & H4 & _ & H6).
  - unfold demo_matched. vm_compute take. cbv zeta.
    assert (forall s evs m0, manager_ok (ss_buffer_manager s) -> ss_matcher s = Some m0 ->
              manager_ok (ss_buffer_manager (service_run (H := transparent_hashing) s evs).1)) as Hrun.
    { clear. intros s evs. revert s. induction evs as [|ev evs IH]; intros s m0 Hok Hm0; [exact Hok|].
      cbn [service_run]. pose proof (service_step_emission (H := transparent_hashing) s ev m0 Hok Hm0) as Hs.
      destruct (service_step (H := transparent_hashing) s ev) as [s' em].
      destruct Hs as (Hok' & m' & Hm' & _). specialize (IH s' m' Hok' Hm').
      destruct (service_run (H := transparent_hashing) s' evs). exact IH. }
    eapply Hrun; [|reflexivity]. apply manager_ok_empty. lia.
  - exact Hm.
  - split; rewrite HR; cbn.
    + rewrite Hl. cbn. lia.
    + apply NoDup_singleton.
    + rewrite Hk. apply (bool_decide_unpack _). vm_compute. exact I.
  - rewrite HR. left.
  - repeat constructor.
  - apply (bool_decide_unpack _). vm_compute. exact I.
  - intros k. rewrite Hk. intros [->|[->|[]%elem_of_nil]%elem_of_cons]%elem_of_cons; vm_compute;
      repeat (first [left | right]).
  - exists m', x'. split; [exact H1|]. split; [exact H2|]. split.
    + unfold set_keys in H4, Hk. unfold members. rewrite <- (length_fmap sf_buffer_key).
      rewrite H4, Hk. reflexivity.
    + intros g Hg. destruct (H6 g Hg) as (c & Hc & _ & _ & _ & Hst & _). rewrite Hst.
      apply list_elem_of_fmap in Hc as (f & -> & _). reflexivity.
Defined.
