(* ===== verification/Database.v ===== *)
(** * The archive database

    The tables of src/app/models/frame.py and
    src/app/models/frame_set_manifest.py and the transaction discipline of
    the sessions src/app/db/session.py makes: no autoflush, so a
    transaction's writes reach the tables together, at [commit], and there
    either all of them happen or a constraint fails ([IntegrityError]) and
    none does. A nullable column is an option; a write that would store
    [None] in a [nullable=False] column fails like a violated [UNIQUE].
    Foreign keys are not checked: that the program keeps them is a theorem
    (in ManifestStore.v), not an assumption. *)

From S2P Require Import Prelude.

Record Frame := mkFrame {
  fr_id : Z;
  fr_device_id : string;
  fr_timestamp : Z;
  fr_file_path : option string;
  fr_source_session_id : option string;
  fr_camera_stream_id : option string;
  fr_frame_sequence : option Z;
  fr_source_frame_uid : option string;
  fr_content_digest : option string;
  fr_identity_mode : string;
  fr_archive_state : string;
  fr_archive_error : option string;
  fr_file_size : option Z;
  fr_content_type : option string;
  fr_received_at_ms : option Z;
  fr_capture_config_digest : option string;
  fr_capture_metadata_json : option string;
  fr_tenant_id : option string;
  fr_site_id : option string;
  fr_capture_session_id : option string;
  fr_processing_job_id : option string;
  fr_profile_digest : option string;
  fr_authorized_subject : option string;
  fr_session_token_jti : option string;
  fr_authorized_camera_id : option string;
  fr_camera_claim_id : option string;
}.

#[export] Instance Frame_settable : Settable Frame := fun x => mkFrame (fr_id x)
  (fr_device_id x) (fr_timestamp x) (fr_file_path x) (fr_source_session_id x)
  (fr_camera_stream_id x) (fr_frame_sequence x) (fr_source_frame_uid x) (fr_content_digest x)
  (fr_identity_mode x) (fr_archive_state x) (fr_archive_error x) (fr_file_size x)
  (fr_content_type x) (fr_received_at_ms x) (fr_capture_config_digest x)
  (fr_capture_metadata_json x) (fr_tenant_id x) (fr_site_id x) (fr_capture_session_id x)
  (fr_processing_job_id x) (fr_profile_digest x) (fr_authorized_subject x)
  (fr_session_token_jti x) (fr_authorized_camera_id x) (fr_camera_claim_id x).

#[export] Instance Frame_eq_dec : EqDecision Frame.
Proof. solve_decision. Defined.

Record CaptureSession := mkCaptureSession {
  cs_id : string;
  cs_state : string;
  cs_source_sessions_json : string;
  cs_started_at_ms : Z;
  cs_closed_at_ms : option Z;
  cs_close_reason : option string;
}.

#[export] Instance CaptureSession_settable : Settable CaptureSession := fun x => mkCaptureSession
  (cs_id x) (cs_state x) (cs_source_sessions_json x) (cs_started_at_ms x) (cs_closed_at_ms x)
  (cs_close_reason x).

#[export] Instance CaptureSession_eq_dec : EqDecision CaptureSession.
Proof. solve_decision. Defined.

Record CaptureRun := mkCaptureRun {
  cr_id : string;
  cr_capture_session_id : string;
  cr_identity_mode : string;
  cr_state : string;
  cr_started_at_ms : Z;
  cr_closed_at_ms : option Z;
  cr_close_reason : option string;
}.

#[export] Instance CaptureRun_settable : Settable CaptureRun := fun x => mkCaptureRun (cr_id x)
  (cr_capture_session_id x) (cr_identity_mode x) (cr_state x) (cr_started_at_ms x)
  (cr_closed_at_ms x) (cr_close_reason x).

#[export] Instance CaptureRun_eq_dec : EqDecision CaptureRun.
Proof. solve_decision. Defined.

Record FrameSetManifest := mkFrameSetManifest {
  mf_frame_set_uid : string;
  mf_capture_session_id : string;
  mf_capture_run_id : string;
  mf_frame_set_id : Z;
  mf_anchor_timestamp_ms : Z;
  mf_freshness_origin_ms : Z;
  mf_synchronization_span_ms : Z;
  mf_manifest_digest : string;
  mf_manifest_json : string;
  mf_created_at_ms : Z;
  mf_archive_state : string;
  mf_archive_error : option string;
  mf_sync_window_ms : Z;
  mf_synchronized_at_ms : Z;
  mf_member_count : Z;
  mf_tenant_id : option string;
  mf_site_id : option string;
  mf_processing_job_id : option string;
  mf_profile_digest : option string;
  mf_authorized_subject : option string;
  mf_session_token_jti : option string;
}.

#[export] Instance FrameSetManifest_settable : Settable FrameSetManifest := fun x => mkFrameSetManifest
  (mf_frame_set_uid x) (mf_capture_session_id x) (mf_capture_run_id x) (mf_frame_set_id x)
  (mf_anchor_timestamp_ms x) (mf_freshness_origin_ms x) (mf_synchronization_span_ms x)
  (mf_manifest_digest x) (mf_manifest_json x) (mf_created_at_ms x) (mf_archive_state x)
  (mf_archive_error x) (mf_sync_window_ms x) (mf_synchronized_at_ms x) (mf_member_count x)
  (mf_tenant_id x) (mf_site_id x) (mf_processing_job_id x) (mf_profile_digest x)
  (mf_authorized_subject x) (mf_session_token_jti x).

#[export] Instance FrameSetManifest_eq_dec : EqDecision FrameSetManifest.
Proof. solve_decision. Defined.

(** The generated [id] of a member is its position in the table. *)
Record FrameSetMember := mkFrameSetMember {
  mb_frame_set_uid : string;
  mb_frame_id : option Z;
  mb_source_frame_uid : string;
  mb_source_session_id : string;
  mb_camera_stream_id : string;
  mb_frame_sequence : Z;
  mb_capture_timestamp_ms : Z;
  mb_content_type : string;
  mb_image_size : Z;
  mb_content_digest : string;
  mb_file_path : string;
  mb_authorized_camera_id : option string;
  mb_camera_claim_id : option string;
  mb_authorized_subject : option string;
  mb_session_token_jti : option string;
}.

#[export] Instance FrameSetMember_settable : Settable FrameSetMember := fun x => mkFrameSetMember
  (mb_frame_set_uid x) (mb_frame_id x) (mb_source_frame_uid x) (mb_source_session_id x)
  (mb_camera_stream_id x) (mb_frame_sequence x) (mb_capture_timestamp_ms x) (mb_content_type x)
  (mb_image_size x) (mb_content_digest x) (mb_file_path x) (mb_authorized_camera_id x)
  (mb_camera_claim_id x) (mb_authorized_subject x) (mb_session_token_jti x).

#[export] Instance FrameSetMember_eq_dec : EqDecision FrameSetMember.
Proof. solve_decision. Defined.

Record ArchiveReconciliationIssue := mkArchiveReconciliationIssue {
  is_reconciliation_run_id : string;
  is_issue_type : string;
  is_frame_id : option Z;
  is_file_path : option string;
  is_detail : string;
  is_detected_at_ms : Z;
}.

#[export] Instance ArchiveReconciliationIssue_settable : Settable ArchiveReconciliationIssue := fun x => mkArchiveReconciliationIssue
  (is_reconciliation_run_id x) (is_issue_type x) (is_frame_id x) (is_file_path x) (is_detail x)
  (is_detected_at_ms x).

#[export] Instance ArchiveReconciliationIssue_eq_dec : EqDecision ArchiveReconciliationIssue.
Proof. solve_decision. Defined.

Record FrameSetDeliveryProjection := mkFrameSetDeliveryProjection {
  pj_frame_set_uid : string;
  pj_archive_state : string;
  pj_live_state : string;
  pj_legacy_relay_state : string;
  pj_last_reason : option string;
  pj_updated_at_ms : Z;
}.

#[export] Instance FrameSetDeliveryProjection_settable : Settable FrameSetDeliveryProjection := fun x => mkFrameSetDeliveryProjection
  (pj_frame_set_uid x) (pj_archive_state x) (pj_live_state x) (pj_legacy_relay_state x)
  (pj_last_reason x) (pj_updated_at_ms x).

#[export] Instance FrameSetDeliveryProjection_eq_dec : EqDecision FrameSetDeliveryProjection.
Proof. solve_decision. Defined.

(** The row with [singleton_id = 1], the only one the program writes. *)
Record RelayV2ClientState := mkRelayV2ClientState {
  rc_in_flight_frame_set_uid : option string;
  rc_in_flight_credit_id : option string;
  rc_in_flight_processor_instance_id : option string;
  rc_in_flight_stream_epoch : option string;
  rc_in_flight_offered_at_ms : option Z;
  rc_watermark_capture_run_id : option string;
  rc_watermark_frame_set_id : option Z;
  rc_watermark_frame_set_uid : option string;
  rc_reoffer_frame_set_uid : option string;
  rc_processing_job_id : option string;
  rc_processing_job_capture_run_id : option string;
  rc_updated_at_ms : Z;
}.

#[export] Instance RelayV2ClientState_settable : Settable RelayV2ClientState := fun x => mkRelayV2ClientState
  (rc_in_flight_frame_set_uid x) (rc_in_flight_credit_id x)
  (rc_in_flight_processor_instance_id x) (rc_in_flight_stream_epoch x)
  (rc_in_flight_offered_at_ms x) (rc_watermark_capture_run_id x) (rc_watermark_frame_set_id x)
  (rc_watermark_frame_set_uid x) (rc_reoffer_frame_set_uid x) (rc_processing_job_id x)
  (rc_processing_job_capture_run_id x) (rc_updated_at_ms x).

#[export] Instance RelayV2ClientState_eq_dec : EqDecision RelayV2ClientState.
Proof. solve_decision. Defined.

(** Tables with a textual primary key are maps by it; the others are lists
    of rows in insertion order. *)
Record database := mkDatabase {
  db_frames : list Frame;
  db_sessions : gmap string CaptureSession;
  db_runs : gmap string CaptureRun;
  db_manifests : gmap string FrameSetManifest;
  db_members : list FrameSetMember;
  db_projections : gmap string FrameSetDeliveryProjection;
  db_issues : list ArchiveReconciliationIssue;
  db_client_state : option RelayV2ClientState;
}.

#[export] Instance database_settable : Settable database := fun x => mkDatabase (db_frames x)
  (db_sessions x) (db_runs x) (db_manifests x) (db_members x) (db_projections x) (db_issues x)
  (db_client_state x).

Definition empty_database : database := mkDatabase [] ∅ ∅ ∅ [] ∅ [] None.

(** ** Statements

    What one pending object writes at [commit]; [None] is a failed
    constraint. *)

Definition statement := database -> option database.

Definition commit (writes : list statement) (db : database) : option database :=
  foldl (fun db w => db ≫= w) (Some db) writes.

(** A [UNIQUE] column or column group holds no two equal values without NULL. *)
Definition unique_in {A K} `{EqDecision K} (key : A -> option K) (row : A) (rows : list A) : bool :=
  match key row with
  | Some k => forallb (fun r => negb (bool_decide (key r = Some k))) rows
  | None => true
  end.

(** [uq_frame_source_identity]. *)
Definition source_identity (f : Frame) : option (string * string * Z) :=
  s ← fr_source_session_id f; c ← fr_camera_stream_id f; n ← fr_frame_sequence f; Some (s, c, n).

(** The index [uq_frame_legacy_device_timestamp], partial on SQLite. *)
Definition legacy_key (f : Frame) : option (string * Z) :=
  if bool_decide (fr_identity_mode f = "LEGACY") then Some (fr_device_id f, fr_timestamp f) else None.

(** One more than the greatest id. *)
Definition next_frame_id (db : database) : Z := foldr (fun r m => Z.max (fr_id r) m) 0 (db_frames db) + 1.

Definition insert_frame (row : Frame) : statement := fun db =>
  let row := row <| fr_id := next_frame_id db |> in
  if unique_in fr_source_frame_uid row (db_frames db) &&
     unique_in source_identity row (db_frames db) && unique_in legacy_key row (db_frames db)
  then Some (db <| db_frames ::= fun l => l ++ [row] |>) else None.

Definition update_frame_row (id : Z) (f : Frame -> Frame) : statement := fun db =>
  Some (db <| db_frames ::= map (fun r => if bool_decide (fr_id r = id) then f r else r) |>).

Definition insert_session (row : CaptureSession) : statement := fun db =>
  match db_sessions db !! cs_id row with
  | Some _ => None
  | None => Some (db <| db_sessions ::= <[cs_id row := row]> |>)
  end.

Definition update_session (id : string) (f : CaptureSession -> CaptureSession) : statement := fun db =>
  Some (db <| db_sessions ::= alter f id |>).

Definition insert_run (row : CaptureRun) : statement := fun db =>
  match db_runs db !! cr_id row with
  | Some _ => None
  | None => Some (db <| db_runs ::= <[cr_id row := row]> |>)
  end.

Definition update_run (id : string) (f : CaptureRun -> CaptureRun) : statement := fun db =>
  Some (db <| db_runs ::= alter f id |>).

(** The rows of a table with a textual key. *)
Definition rows {A} (t : gmap string A) : list A := (map_to_list t).*2.

Definition insert_manifest (row : FrameSetManifest) : statement := fun db =>
  let others := rows (db_manifests db) in
  if bool_decide (db_manifests db !! mf_frame_set_uid row = None) &&
     unique_in (fun m => Some (mf_capture_run_id m, mf_frame_set_id m)) row others &&
     unique_in (fun m => Some (mf_manifest_digest m)) row others
  then Some (db <| db_manifests ::= <[mf_frame_set_uid row := row]> |>) else None.

Definition insert_member (row : FrameSetMember) : statement := fun db =>
  if unique_in (fun m => Some (mb_frame_set_uid m, mb_camera_stream_id m)) row (db_members db) &&
     unique_in (fun m => Some (mb_source_frame_uid m)) row (db_members db)
  then Some (db <| db_members ::= fun l => l ++ [row] |>) else None.

Definition insert_projection (row : FrameSetDeliveryProjection) : statement := fun db =>
  match db_projections db !! pj_frame_set_uid row with
  | Some _ => None
  | None => Some (db <| db_projections ::= <[pj_frame_set_uid row := row]> |>)
  end.

Definition update_projection (uid : string)
    (f : FrameSetDeliveryProjection -> FrameSetDeliveryProjection) : statement := fun db =>
  Some (db <| db_projections ::= alter f uid |>).

Definition insert_issue (row : ArchiveReconciliationIssue) : statement := fun db =>
  Some (db <| db_issues ::= fun l => l ++ [row] |>).

Definition not_null_violated : statement := fun _ => None.

(** A row whose [nullable=False] columns all have a value is inserted. *)
Definition insert_row {A} (insert : A -> statement) (row : option A) : statement :=
  match row with Some row => insert row | None => not_null_violated end.

(** ** Commits *)

Lemma commit_nil db : commit [] db = Some db.
Proof. done. Qed.

Lemma commit_None ws : foldl (fun db (w : statement) => db ≫= w) None ws = None.
Proof. by induction ws. Qed.

Lemma commit_cons w ws db : commit (w :: ws) db = w db ≫= commit ws.
Proof. unfold commit. cbn. destruct (w db); cbn; [done|apply commit_None]. Qed.

#[global] Arguments commit : simpl never.

Lemma commit_app ws ws' db : commit (ws ++ ws') db = commit ws db ≫= commit ws'.
Proof.
  revert db. induction ws as [|w ws IH]; intros db; [done|].
  cbn [app]. rewrite !commit_cons. destruct (w db); cbn; [apply IH|done].
Qed.

Lemma commit_one w db : commit [w] db = w db.
Proof. rewrite commit_cons. by destruct (w db). Qed.

(** A table after the same UPDATE on several of its rows. *)
Definition alter_all {A} (f : A -> A) (ks : list string) (t : gmap string A) : gmap string A :=
  foldl (fun t k => alter f k t) t ks.

Lemma alter_all_lookup {A} (f : A -> A) ks t k :
  (forall x, f (f x) = f x) ->
  alter_all f ks t !! k = (if bool_decide (k ∈ ks) then f <$> t !! k else t !! k).
Proof.
  intros Hf. unfold alter_all. revert t. induction ks as [|j ks IH]; intros t; cbn [foldl].
  { by rewrite bool_decide_eq_false_2 by set_solver. }
  rewrite IH. destruct (decide (j = k)) as [->|Hne].
  - rewrite lookup_alter, decide_True by done. rewrite (bool_decide_eq_true_2 (k ∈ k :: ks)) by set_solver.
    case_bool_decide; [|done]. destruct (t !! k); cbn; [by rewrite Hf|done].
  - rewrite lookup_alter_ne by done. destruct (decide (k ∈ ks)).
    + by rewrite !bool_decide_eq_true_2 by set_solver.
    + by rewrite !bool_decide_eq_false_2 by set_solver.
Qed.

Lemma commit_updates {A} (update : string -> statement) (proj : database -> gmap string A)
    (set : (gmap string A -> gmap string A) -> database -> database) (f : A -> A) ks db :
  (forall k db, update k db = Some (set (alter f k) db)) ->
  (forall g h db, set g (set h db) = set (fun t => g (h t)) db) ->
  (forall db, set (fun t => t) db = db) ->
  commit (update <$> ks) db = Some (set (alter_all f ks) db).
Proof.
  intros Hu Hs Hid. revert db. induction ks as [|k ks IH]; intros db; cbn [fmap list_fmap].
  { rewrite commit_nil. f_equal. symmetry. apply Hid. }
  rewrite commit_cons, Hu. cbn. by rewrite IH, Hs.
Qed.

Lemma commit_update_sessions f ks db :
  commit ((fun k => update_session k f) <$> ks) db = Some (db <| db_sessions ::= alter_all f ks |>).
Proof.
  apply (commit_updates _ db_sessions (fun g db => db <| db_sessions ::= g |>) f); try done.
  by intros [].
Qed.

Lemma commit_update_runs f ks db :
  commit ((fun k => update_run k f) <$> ks) db = Some (db <| db_runs ::= alter_all f ks |>).
Proof.
  apply (commit_updates _ db_runs (fun g db => db <| db_runs ::= g |>) f); try done. by intros [].
Qed.

Lemma commit_update_projections f ks db :
  commit ((fun k => update_projection k f) <$> ks) db = Some (db <| db_projections ::= alter_all f ks |>).
Proof.
  apply (commit_updates _ db_projections (fun g db => db <| db_projections ::= g |>) f); try done.
  by intros [].
Qed.

Lemma unique_in_spec {A K} `{EqDecision K} (key : A -> option K) row rows :
  unique_in key row rows = true <->
  forall r k, r ∈ rows -> key row = Some k -> key r <> Some k.
Proof.
  unfold unique_in. destruct (key row) as [k|]; [|naive_solver].
  rewrite forallb_forall. setoid_rewrite negb_true_iff. setoid_rewrite bool_decide_eq_false.
  setoid_rewrite <- list_elem_of_In. naive_solver.
Qed.

Lemma elem_of_rows {A} (t : gmap string A) x : x ∈ rows t <-> exists k, t !! k = Some x.
Proof.
  unfold rows. rewrite list_elem_of_fmap. split.
  - intros ([k y] & -> & H%elem_of_map_to_list). by exists k.
  - intros [k H%elem_of_map_to_list]. by exists (k, x).
Qed.

Lemma insert_session_Some row db db' : insert_session row db = Some db' <->
  db_sessions db !! cs_id row = None /\ db' = db <| db_sessions ::= <[cs_id row := row]> |>.
Proof. unfold insert_session. case_match; naive_solver. Qed.

Lemma insert_run_Some row db db' : insert_run row db = Some db' <->
  db_runs db !! cr_id row = None /\ db' = db <| db_runs ::= <[cr_id row := row]> |>.
Proof. unfold insert_run. case_match; naive_solver. Qed.

Lemma insert_projection_Some row db db' : insert_projection row db = Some db' <->
  db_projections db !! pj_frame_set_uid row = None /\
  db' = db <| db_projections ::= <[pj_frame_set_uid row := row]> |>.
Proof. unfold insert_projection. case_match; naive_solver. Qed.

Lemma insert_row_Some {A} (insert : A -> statement) row db db' :
  insert_row insert row db = Some db' <-> exists r, row = Some r /\ insert r db = Some db'.
Proof. destruct row; cbn; naive_solver. Qed.

Lemma insert_manifest_Some row db db' : insert_manifest row db = Some db' <->
  db_manifests db !! mf_frame_set_uid row = None /\
  (forall k m, db_manifests db !! k = Some m ->
     (mf_capture_run_id m, mf_frame_set_id m) <> (mf_capture_run_id row, mf_frame_set_id row) /\
     mf_manifest_digest m <> mf_manifest_digest row) /\
  db' = db <| db_manifests ::= <[mf_frame_set_uid row := row]> |>.
Proof.
  unfold insert_manifest. case_match eqn:E.
  - rewrite !andb_true_iff, !unique_in_spec, bool_decide_eq_true in E. destruct E as [[E1 E2] E3].
    split; [intros [= <-]|by intros (_ & _ & ->)]. split_and!; [done| |done].
    intros k m Hm. assert (m ∈ rows (db_manifests db)) as Hin by (apply elem_of_rows; eauto).
    specialize (E2 m _ Hin eq_refl). specialize (E3 m _ Hin eq_refl). split; congruence.
  - split; [done|]. intros (E1 & E2 & ->). exfalso. apply not_true_iff_false in E. apply E.
    rewrite !andb_true_iff, !unique_in_spec, bool_decide_eq_true. split_and!; [done|..];
      intros m k [j Hj]%elem_of_rows [= <-]; destruct (E2 _ _ Hj); congruence.
Qed.

(** The members of one manifest, added in order. *)
Lemma commit_members (new : list (option FrameSetMember)) db db' :
  commit (insert_row insert_member <$> new) db = Some db' ->
  exists ms, new = Some <$> ms /\ db' = db <| db_members ::= fun l => l ++ ms |> /\
    (NoDup (mb_source_frame_uid <$> db_members db) ->
     NoDup (mb_source_frame_uid <$> db_members db')).
Proof.
  revert db. induction new as [|[m|] new IH]; intros db; cbn [fmap list_fmap]; rewrite ?commit_cons.
  - intros [= <-]. exists []. split_and!; [done| |done]. destruct db; cbn. by rewrite app_nil_r.
  - cbn [insert_row]. destruct (insert_member m db) as [db1|] eqn:E1; cbn; [|done].
    unfold insert_member in E1. case_match eqn:E; [|done]. injection E1 as <-.
    apply andb_true_iff in E as [_ E]. rewrite unique_in_spec in E.
    intros (ms & -> & -> & Hnd)%IH. exists (m :: ms). split_and!; [done| |].
    + destruct db; cbn. by rewrite <- app_assoc.
    + intros H. apply Hnd. cbn. rewrite fmap_app. apply NoDup_app. split_and!; [done| |apply NoDup_singleton].
      intros u (x & -> & Hx)%list_elem_of_fmap Hu%list_elem_of_singleton.
      eapply (E x); [done|done|]. by rewrite Hu.
  - done.
Qed.

(** ** The state a transaction reads and the one it commits into

    No code deletes a row or changes a manifest or a member; a capture session
    or run is only ever closed. *)
Definition session_kept (s s' : CaptureSession) : Prop :=
  s' = s \/ exists at_ms reason, s' = s <| cs_state := "CLOSED" |> <| cs_closed_at_ms := at_ms |> <| cs_close_reason := reason |>.

Definition run_kept (r r' : CaptureRun) : Prop :=
  r' = r \/ exists at_ms reason, r' = r <| cr_state := "CLOSED" |> <| cr_closed_at_ms := at_ms |> <| cr_close_reason := reason |>.

#[export] Instance session_kept_preorder : PreOrder session_kept.
Proof.
  split; [by left|]. intros a b c [->|(t & r & ->)]; [done|]. intros [->|(t' & r' & ->)]; right; [by exists t, r|by exists t', r'].
Qed.

#[export] Instance run_kept_preorder : PreOrder run_kept.
Proof.
  split; [by left|]. intros a b c [->|(t & r & ->)]; [done|]. intros [->|(t' & r' & ->)]; right; [by exists t, r|by exists t', r'].
Qed.

Lemma run_kept_session r r' : run_kept r r' -> cr_capture_session_id r' = cr_capture_session_id r.
Proof. by intros [->|(t & c & ->)]. Qed.

Record later (read now : database) : Prop := {
  later_sessions : forall k s, db_sessions read !! k = Some s -> exists s', db_sessions now !! k = Some s' /\ session_kept s s';
  later_runs : forall k r, db_runs read !! k = Some r -> exists r', db_runs now !! k = Some r' /\ run_kept r r';
  later_manifests : db_manifests read ⊆ db_manifests now;
  later_members : db_members read `prefix_of` db_members now;
  later_projections : forall k, is_Some (db_projections read !! k) -> is_Some (db_projections now !! k);
}.

#[export] Instance later_preorder : PreOrder later.
Proof.
  split.
  - intros db. split; eauto; intros k x Hx; exists x; (split; [done|reflexivity]).
  - intros a b c [A1 A2 A3 A4 A5] [B1 B2 B3 B4 B5]. split; [| |by etrans|by etrans|by eauto].
    + intros k r (r' & H & K)%A1. destruct (B1 _ _ H) as (r'' & ? & ?). exists r''. split; [done|by etrans].
    + intros k r (r' & H & K)%A2. destruct (B2 _ _ H) as (r'' & ? & ?). exists r''. split; [done|by etrans].
Qed.

(** ** Referential integrity *)
Record schema_ok (db : database) : Prop := {
  so_session : forall k s, db_sessions db !! k = Some s -> cs_id s = k;
  so_run : forall k r, db_runs db !! k = Some r ->
    cr_id r = k /\ is_Some (db_sessions db !! cr_capture_session_id r);
  so_manifest : forall k m, db_manifests db !! k = Some m -> mf_frame_set_uid m = k /\
    exists r, db_runs db !! mf_capture_run_id m = Some r /\
              cr_capture_session_id r = mf_capture_session_id m;
  so_projection : forall k p, db_projections db !! k = Some p ->
    pj_frame_set_uid p = k /\ is_Some (db_manifests db !! k);
  so_member : forall x, x ∈ db_members db -> is_Some (db_manifests db !! mb_frame_set_uid x);
  so_sources : NoDup (mb_source_frame_uid <$> db_members db);
  so_sequence : forall k k' m m', db_manifests db !! k = Some m -> db_manifests db !! k' = Some m' ->
    (mf_capture_run_id m, mf_frame_set_id m) = (mf_capture_run_id m', mf_frame_set_id m') -> k = k';
}.

Lemma empty_database_ok : schema_ok empty_database.
Proof.
  split; cbn; try apply NoDup_nil_2; intros; try (by rewrite lookup_empty in * ); set_solver.
Qed.
