(* ===== verification/Migrations.v ===== *)
(** * Schema migrations

    src/app/db/migrations.py and [ensure_database_schema] of
    src/app/db/session.py: what the program does at start to a database an
    older version wrote. The typed tables of Database.v cannot say this, so
    here a database is what SQLite keeps: tables with their columns,
    constraints and rows of values, and indexes.

    [execute] is a statement of the migrations; [exec] is the connection
    SQLAlchemy gives, with the transaction control of Python's sqlite3: only
    an INSERT or UPDATE begins a transaction, so a CREATE or ALTER before it
    is committed at once. Names are compared exactly and values keep their
    storage class. A NULL in a NOT NULL column fails, also in an INTEGER
    PRIMARY KEY, for which SQLite would generate a value: an old [id] is
    never NULL. *)

From S2P Require Import Prelude.

(** ** Tables *)

Inductive value := NULL | Integer (z : Z) | Text (s : string).

#[export] Instance value_eq_dec : EqDecision value.
Proof. solve_decision. Defined.

Abbreviation row := (gmap string value).
Definition get (name : string) (r : row) : value := default NULL (r !! name).

Record column := mkColumn { co_name : string; co_type : string; co_not_null : bool; co_default : value }.

(** The names of the UNIQUE constraints with their columns. *)
Record table := mkTable {
  tb_columns : list column; tb_primary : list string; tb_unique : list (string * list string); tb_rows : list row;
}.

#[export] Instance table_settable : Settable table := fun x =>
  mkTable (tb_columns x) (tb_primary x) (tb_unique x) (tb_rows x).

(** The condition [column = value] of a partial index. *)
Record index := mkIndex {
  ix_table : string; ix_columns : list string; ix_unique : bool; ix_where : option (string * value);
}.

#[export] Instance index_settable : Settable index := fun x =>
  mkIndex (ix_table x) (ix_columns x) (ix_unique x) (ix_where x).

Record catalog := mkCatalog { ca_tables : gmap string table; ca_indexes : gmap string index }.

#[export] Instance catalog_settable : Settable catalog := fun x => mkCatalog (ca_tables x) (ca_indexes x).

Definition column_names (t : table) : list string := co_name <$> tb_columns t.

(** ** Constraints

    NULLs are distinct from each other in a UNIQUE constraint. *)

Definition conflict (columns : list string) (r r' : row) : bool :=
  forallb (fun c => bool_decide (get c r = get c r') && negb (bool_decide (get c r = NULL))) columns.

Fixpoint distinct_rows (columns : list string) (rows : list row) : bool :=
  match rows with
  | [] => true
  | r :: rows => forallb (fun r' => negb (conflict columns r r')) rows && distinct_rows columns rows
  end.

Definition covered (i : index) (r : row) : bool :=
  match ix_where i with None => true | Some (c, v) => bool_decide (get c r = v) end.

Definition index_holds (i : index) (rows : list row) : bool :=
  negb (ix_unique i) || distinct_rows (ix_columns i) (filter (fun r => covered i r = true) rows).

Definition not_null_holds (t : table) : bool :=
  forallb (fun c => negb (co_not_null c) || forallb (fun r => negb (bool_decide (get (co_name c) r = NULL))) (tb_rows t))
    (tb_columns t).

Definition constraints_hold (t : table) : bool :=
  not_null_holds t && distinct_rows (tb_primary t) (tb_rows t) && forallb (fun u => distinct_rows u.2 (tb_rows t)) (tb_unique t).

Definition indexes_of (name : string) (ca : catalog) : list index :=
  filter (fun i => ix_table i = name) (map_to_list (ca_indexes ca)).*2.

Definition indexes_hold (name : string) (t : table) (ca : catalog) : bool :=
  forallb (fun i => index_holds i (tb_rows t)) (indexes_of name ca).

(** ** Statements *)

Inductive expression := Column (name : string) | Constant (v : value) | Coalesce (name : string) (v : value).

Definition mentioned (e : expression) : option string :=
  match e with Column c | Coalesce c _ => Some c | Constant _ => None end.

Definition eval (r : row) (e : expression) : value :=
  match e with
  | Column c => get c r
  | Constant v => v
  | Coalesce c v => if bool_decide (get c r = NULL) then v else get c r
  end.

Inductive statement :=
| CreateTable (name : string) (columns : list column) (primary : list string) (unique : list (string * list string))
| InsertSelect (target : string) (items : list (string * expression)) (source : string)
| DropTable (name : string)
| RenameTable (old new : string)
| CreateIndex (if_not_exists : bool) (name : string) (i : index)
| AddColumn (name : string) (c : column)
| UpdateWhere (name : string) (values : list (string * value)) (where_ : string * value).

Inductive sql_error := OperationalError (message : string) | ConstraintError | KeyError (name : string) | UnsupportedDialect.

Definition store_table (name : string) (t : table) (ca : catalog) : catalog := ca <| ca_tables ::= insert name t |>.

(** Rows are written if the constraints then hold, all or none. *)
Definition write_rows (name : string) (t : table) (rows : list row) (ca : catalog) : result sql_error catalog :=
  let t := t <| tb_rows := rows |> in
  _ ← raise_unless (constraints_hold t && indexes_hold name t ca) ConstraintError;
  Ok (store_table name t ca).

Definition find_table (name : string) (ca : catalog) : result sql_error table :=
  match ca_tables ca !! name with Some t => Ok t | None => Raise (OperationalError ("no such table: " +:+ name)) end.

Definition no_table (name : string) (ca : catalog) : result sql_error unit :=
  raise_unless (bool_decide (ca_tables ca !! name = None)) (OperationalError ("table already exists: " +:+ name)).

Definition has_columns (columns : list string) (t : table) : result sql_error unit :=
  raise_unless (forallb (fun c => bool_decide (c ∈ column_names t)) columns) (OperationalError "no such column").

(** A column the INSERT does not name gets its default. *)
Definition selected_row (t : table) (items : list (string * expression)) (r : row) : row :=
  list_to_map ((fun c => (co_name c, match dict_get (co_name c) items with Some e => eval r e | None => co_default c end))
                 <$> tb_columns t).

Definition matches (w : string * value) (r : row) : bool := bool_decide (get w.1 r = w.2).

Definition set_values (values : list (string * value)) (r : row) : row :=
  foldl (fun r '(c, v) => <[c := v]> r) r values.

Definition execute (s : statement) (ca : catalog) : result sql_error catalog :=
  match s with
  | CreateTable name columns primary unique =>
      _ ← no_table name ca;
      Ok (store_table name (mkTable columns primary unique []) ca)
  | InsertSelect target items source =>
      t ← find_table target ca;
      from ← find_table source ca;
      _ ← has_columns items.*1 t;
      _ ← has_columns (omap (fun '(_, e) => mentioned e) items) from;
      write_rows target t (tb_rows t ++ (selected_row t items <$> tb_rows from)) ca
  | DropTable name =>
      _ ← find_table name ca;
      Ok (mkCatalog (delete name (ca_tables ca)) (filter (fun '(_, i) => ix_table i <> name) (ca_indexes ca)))
  | RenameTable old new =>
      t ← find_table old ca;
      _ ← no_table new ca;
      Ok (mkCatalog (<[new := t]> (delete old (ca_tables ca)))
            ((fun i => if bool_decide (ix_table i = old) then i <| ix_table := new |> else i) <$> ca_indexes ca))
  | CreateIndex if_not_exists name i =>
      match ca_indexes ca !! name with
      | Some _ => if if_not_exists : bool then Ok ca else Raise (OperationalError ("index already exists: " +:+ name))
      | None =>
          t ← find_table (ix_table i) ca;
          _ ← has_columns (ix_columns i ++ option_list (fst <$> ix_where i)) t;
          _ ← raise_unless (index_holds i (tb_rows t)) ConstraintError;
          Ok (ca <| ca_indexes ::= insert name i |>)
      end
  | AddColumn name c =>
      t ← find_table name ca;
      _ ← raise_unless (bool_decide (co_name c ∉ column_names t)) (OperationalError "duplicate column name");
      _ ← raise_unless (negb (co_not_null c && bool_decide (co_default c = NULL)))
            (OperationalError "Cannot add a NOT NULL column with default value NULL");
      Ok (store_table name (t <| tb_columns ::= fun l => l ++ [c] |> <| tb_rows ::= fmap <[co_name c := co_default c]> |>) ca)
  | UpdateWhere name values w =>
      t ← find_table name ca;
      _ ← has_columns (w.1 :: values.*1) t;
      write_rows name t ((fun r => if matches w r then set_values values r else r) <$> tb_rows t) ca
  end.

(** ** Connections *)

Record connection := mkConnection { cn_committed : catalog; cn_current : catalog; cn_in_transaction : bool }.

Definition connect (ca : catalog) : connection := mkConnection ca ca false.

Definition begins (s : statement) : bool :=
  match s with InsertSelect _ _ _ | UpdateWhere _ _ _ => true | _ => false end.

Definition exec (c : connection) (s : statement) : connection * result sql_error unit :=
  let in_transaction := cn_in_transaction c || begins s in
  match execute s (cn_current c) with
  | Raise e => (mkConnection (cn_committed c) (cn_current c) in_transaction, Raise e)
  | Ok ca => (mkConnection (if in_transaction then cn_committed c else ca) ca in_transaction, Ok tt)
  end.

Fixpoint exec_all (c : connection) (l : list statement) : connection * result sql_error unit :=
  match l with
  | [] => (c, Ok tt)
  | s :: l => let '(c, r) := exec c s in match r with Ok _ => exec_all c l | Raise e => (c, Raise e) end
  end.

(** [with engine.begin()]: commit at the end, roll back when it raises. *)
Definition begin_block (l : list statement) (ca : catalog) : catalog * result sql_error unit :=
  let '(c, r) := exec_all (connect ca) l in
  (match r with Ok _ => cn_current c | Raise _ => cn_committed c end, r).

(** What a crash after each statement of the block leaves. *)
Fixpoint committed_during (c : connection) (l : list statement) : list catalog :=
  cn_committed c ::
  match l with
  | [] => []
  | s :: l => let '(c, r) := exec c s in match r with Ok _ => committed_during c l | Raise _ => [cn_committed c] end
  end.

(** ** The inspector *)

Definition get_column_names (name : string) (ca : catalog) : list string := from_option column_names [] (ca_tables ca !! name).
Definition unique_names (name : string) (ca : catalog) : list string :=
  from_option (fun t => (tb_unique t).*1) [] (ca_tables ca !! name).
Definition has_table (name : string) (ca : catalog) : bool := bool_decide (is_Some (ca_tables ca !! name)).
Definition nullable (table_name name : string) (ca : catalog) : bool :=
  match ca_tables ca !! table_name with
  | None => false
  | Some t => forallb (fun c => negb (bool_decide (co_name c = name) && co_not_null c)) (tb_columns t)
  end.

(** ** Identity of frames *)

Definition FRAME_V2_COLUMNS : list string :=
  ["source_session_id"; "camera_stream_id"; "frame_sequence"; "source_frame_uid"; "content_digest"; "identity_mode";
   "archive_state"; "archive_error"; "file_size"; "content_type"; "received_at_ms"; "capture_config_digest";
   "capture_metadata_json"].

Definition FRAME_BASE_COLUMNS : list string := ["id"; "device_id"; "timestamp"; "file_path"].

Definition text_column (name : string) : column := mkColumn name "VARCHAR" false NULL.
Definition bigint_column (name : string) : column := mkColumn name "BIGINT" false NULL.

Definition frames_v2_columns : list column :=
  [mkColumn "id" "INTEGER" true NULL; mkColumn "device_id" "VARCHAR" true NULL; mkColumn "timestamp" "BIGINT" true NULL;
   text_column "file_path"; text_column "source_session_id"; text_column "camera_stream_id"; bigint_column "frame_sequence";
   text_column "source_frame_uid"; text_column "content_digest";
   mkColumn "identity_mode" "VARCHAR" true (Text "LEGACY");
   mkColumn "archive_state" "VARCHAR" true (Text "ARCHIVE_DURABLE");
   text_column "archive_error"; bigint_column "file_size"; text_column "content_type"; bigint_column "received_at_ms";
   text_column "capture_config_digest"; mkColumn "capture_metadata_json" "TEXT" false NULL].

Definition frames_v2_unique : list (string * list string) :=
  [("uq_frame_source_uid", ["source_frame_uid"]);
   ("uq_frame_source_identity", ["source_session_id"; "camera_stream_id"; "frame_sequence"])].

Definition select_value (columns : list string) (name : string) : expression :=
  if bool_decide (name = "identity_mode")
  then if bool_decide (name ∈ columns) then Coalesce name (Text "LEGACY") else Constant (Text "LEGACY")
  else if bool_decide (name = "archive_state")
  then if bool_decide (name ∈ columns) then Coalesce name (Text "ARCHIVE_DURABLE") else Constant (Text "ARCHIVE_DURABLE")
  else if bool_decide (name ∈ columns) then Column name else Constant NULL.

Definition select_items (columns : list string) : list (string * expression) :=
  ((fun c => (c, Column c)) <$> FRAME_BASE_COLUMNS) ++ ((fun c => (c, select_value columns c)) <$> FRAME_V2_COLUMNS).

Definition legacy_index : index := mkIndex "frames" ["device_id"; "timestamp"] true (Some ("identity_mode", Text "LEGACY")).

Definition frame_identity_statements (columns : list string) : list statement :=
  [CreateTable "frames_v2_migration" frames_v2_columns ["id"] frames_v2_unique;
   InsertSelect "frames_v2_migration" (select_items columns) "frames";
   DropTable "frames";
   RenameTable "frames_v2_migration" "frames";
   CreateIndex false "ix_frames_device_id" (mkIndex "frames" ["device_id"] false None);
   CreateIndex false "ix_frames_timestamp" (mkIndex "frames" ["timestamp"] false None);
   CreateIndex false "uq_frame_legacy_device_timestamp" legacy_index].

Definition frames_current (ca : catalog) : result sql_error bool :=
  if forallb (fun c => bool_decide (c ∈ get_column_names "frames" ca)) FRAME_V2_COLUMNS &&
     negb (bool_decide ("uq_frame_device_timestamp" ∈ unique_names "frames" ca))
  then _ ← raise_unless (bool_decide ("file_path" ∈ get_column_names "frames" ca)) (KeyError "file_path");
       Ok (nullable "frames" "file_path" ca)
  else Ok false.

(** A migration leaves the database and returns whether it changed it. *)
Definition migrated (l : list statement) (ca : catalog) : catalog * result sql_error bool :=
  let '(ca, r) := begin_block l ca in (ca, match r with Ok _ => Ok true | Raise e => Raise e end).

Definition migrate_frame_identity_schema (dialect : string) (ca : catalog) : catalog * result sql_error bool :=
  if negb (has_table "frames" ca) then (ca, Ok false)
  else match frames_current ca with
       | Raise e => (ca, Raise e)
       | Ok true => (ca, Ok false)
       | Ok false =>
           if negb (bool_decide (dialect = "sqlite")) then (ca, Raise UnsupportedDialect)
           else migrated (frame_identity_statements (get_column_names "frames" ca)) ca
       end.

(** ** Added columns

    The dicts of the code, in the order of [sorted]. *)

Definition missing_columns (name : string) (required : list column) (ca : catalog) : list column :=
  filter (fun c => co_name c ∉ get_column_names name ca) required.

Definition add_missing (name : string) (required : list column) (ca : catalog) : catalog * result sql_error bool :=
  if negb (has_table name ca) then (ca, Ok false)
  else match missing_columns name required ca with
       | [] => (ca, Ok false)
       | missing => migrated (AddColumn name <$> missing) ca
       end.

Definition manifest_archive_columns : list column :=
  [text_column "archive_error"; mkColumn "archive_state" "VARCHAR" true (Text "ARCHIVE_DURABLE");
   mkColumn "member_count" "INTEGER" true (Integer 0); mkColumn "sync_window_ms" "BIGINT" true (Integer 0);
   mkColumn "synchronized_at_ms" "BIGINT" true (Integer 0)].

Definition migrate_manifest_archive_schema : catalog -> catalog * result sql_error bool :=
  add_missing "frame_set_manifests" manifest_archive_columns.

Definition relay_v2_client_state_columns : list column :=
  text_column <$> ["processing_job_capture_run_id"; "processing_job_id"; "reoffer_frame_set_uid"].

Definition migrate_relay_v2_client_state_schema : catalog -> catalog * result sql_error bool :=
  add_missing "relay_v2_client_state" relay_v2_client_state_columns.

Definition frames_scope_columns : list column :=
  text_column <$> ["authorized_camera_id"; "authorized_subject"; "camera_claim_id"; "capture_session_id"; "processing_job_id";
                   "profile_digest"; "session_token_jti"; "site_id"; "tenant_id"].
Definition manifest_scope_columns : list column :=
  text_column <$> ["authorized_subject"; "processing_job_id"; "profile_digest"; "session_token_jti"; "site_id"; "tenant_id"].
Definition member_scope_columns : list column :=
  text_column <$> ["authorized_camera_id"; "authorized_subject"; "camera_claim_id"; "session_token_jti"].

Definition table_columns : list (string * list column) :=
  [("frames", frames_scope_columns); ("frame_set_manifests", manifest_scope_columns); ("frame_set_members", member_scope_columns)].

Definition add_scope_columns (ca : catalog) : list statement :=
  mjoin ((fun '(name, required) =>
            if has_table name ca then AddColumn name <$> missing_columns name required ca else []) <$> table_columns).

Definition scope_index (table_name name : string) : statement :=
  CreateIndex true ("ix_" +:+ table_name +:+ "_" +:+ name) (mkIndex table_name [name] false None).

Definition scope_indexes (ca : catalog) : list statement :=
  (if has_table "frames" ca
   then scope_index "frames" <$> ["tenant_id"; "site_id"; "capture_session_id"; "processing_job_id"] else []) ++
  (if has_table "frame_set_manifests" ca
   then scope_index "frame_set_manifests" <$> ["tenant_id"; "site_id"; "processing_job_id"] else []).

Definition migrate_authorization_scope_schema (ca : catalog) : catalog * result sql_error bool :=
  let added := add_scope_columns ca in
  let '(ca, r) := begin_block (added ++ scope_indexes ca) ca in
  (ca, match r with Ok _ => Ok (negb (bool_decide (added = []))) | Raise e => Raise e end).

(** ** Capture runs a stopped process left open *)

Definition close_values (closed_at_ms : Z) : list (string * value) :=
  [("state", Text "CLOSED"); ("closed_at_ms", Integer closed_at_ms); ("close_reason", Text "PROCESS_RESTART")].

Definition is_open : string * value := ("state", Text "OPEN").

Definition close_open_capture_runs_after_restart (closed_at_ms : Z) (ca : catalog) : catalog * result sql_error Z :=
  match ca_tables ca !! "capture_runs" with
  | None => (ca, Ok 0)
  | Some t =>
      let rowcount := Z.of_nat (length (filter (fun r => matches is_open r = true) (tb_rows t))) in
      let '(ca, r) := begin_block [UpdateWhere "capture_runs" (close_values closed_at_ms) is_open] ca in
      (ca, match r with Ok _ => Ok rowcount | Raise e => Raise e end)
  end.

(** ** Start *)

Definition step_ {A} (f : catalog -> catalog * result sql_error A) (x : catalog * result sql_error unit)
    : catalog * result sql_error unit :=
  match x with
  | (ca, Raise e) => (ca, Raise e)
  | (ca, Ok _) => let '(ca, r) := f ca in (ca, match r with Ok _ => Ok tt | Raise e => Raise e end)
  end.

Definition ensure_database_schema (dialect : string) (now_ms : Z) (ca : catalog) : catalog * result sql_error unit :=
  step_ (close_open_capture_runs_after_restart now_ms)
    (step_ migrate_authorization_scope_schema
      (step_ migrate_relay_v2_client_state_schema
        (step_ migrate_manifest_archive_schema
          (step_ (migrate_frame_identity_schema dialect) (ca, Ok tt))))).

(** ** The migration of frames

    The table the migration makes of an old one, and when it can. *)

Definition frames_v2_table (rows : list row) : table := mkTable frames_v2_columns ["id"] frames_v2_unique rows.

Definition migrated_frames (t : table) : table :=
  frames_v2_table (selected_row (frames_v2_table []) (select_items (column_names t)) <$> tb_rows t).

Definition indexes_elsewhere (ca : catalog) : gmap string index := filter (fun '(_, i) => ix_table i <> "frames") (ca_indexes ca).

Definition migrated_indexes (ca : catalog) : gmap string index :=
  <["uq_frame_legacy_device_timestamp" := legacy_index]>
    (<["ix_frames_timestamp" := mkIndex "frames" ["timestamp"] false None]>
      (<["ix_frames_device_id" := mkIndex "frames" ["device_id"] false None]> (indexes_elsewhere ca))).

Definition identity_ready (ca : catalog) (t : table) : bool :=
  bool_decide (ca_tables ca !! "frames_v2_migration" = None) &&
  forallb (fun c => bool_decide (c ∈ column_names t)) FRAME_BASE_COLUMNS &&
  constraints_hold (migrated_frames t) && index_holds legacy_index (tb_rows (migrated_frames t)) &&
  forallb (fun n => bool_decide (indexes_elsewhere ca !! n = None))
    ["ix_frames_device_id"; "ix_frames_timestamp"; "uq_frame_legacy_device_timestamp"].

(** Every index is on a table. *)
Definition catalog_ok (ca : catalog) : Prop := map_Forall (fun _ i => is_Some (ca_tables ca !! ix_table i)) (ca_indexes ca).

Lemma exec_all_in_transaction l : forall c, cn_in_transaction c = true ->
  cn_committed (exec_all c l).1 = cn_committed c /\ Forall (fun ca => ca = cn_committed c) (committed_during c l).
Proof.
  induction l as [|s l IH]; intros c Hc; cbn; [auto|]. unfold exec. rewrite Hc. destruct (execute s (cn_current c)) as [ca|e]; cbn; [|auto].
  destruct (IH (mkConnection (cn_committed c) ca true) eq_refl) as [-> H]. auto.
Qed.

(** In a transaction the statements succeed together or not at all. *)
Fixpoint execute_all (l : list statement) (ca : catalog) : result sql_error catalog :=
  match l with [] => Ok ca | s :: l => ca ← execute s ca; execute_all l ca end.

Lemma exec_all_current l : forall c,
  match execute_all l (cn_current c) with
  | Ok ca => (exec_all c l).2 = Ok tt /\ cn_current (exec_all c l).1 = ca
  | Raise e => (exec_all c l).2 = Raise e
  end.
Proof.
  induction l as [|s l IH]; intros c; cbn; [done|]. unfold exec. destruct (execute s (cn_current c)) as [ca|e]; cbn; [|done].
  apply (IH (mkConnection _ ca _)).
Qed.

(** A block: the statements that commit at once, then a transaction. *)
Lemma begin_block_split s t l ca : begins t = true -> begins s = false ->
  begin_block (s :: t :: l) ca =
    match execute s ca with
    | Raise e => (ca, Raise e)
    | Ok ca1 => match execute_all (t :: l) ca1 with Ok ca2 => (ca2, Ok tt) | Raise e => (ca1, Raise e) end
    end.
Proof.
  intros Ht Hs. unfold begin_block. pose proof (exec_all_current (t :: l)) as Hall. cbn [exec_all]. unfold exec at 1. rewrite Hs. cbn.
  destruct (execute s ca) as [ca1|e]; [|done]. specialize (Hall (mkConnection ca1 ca1 false)). cbn [cn_current] in Hall.
  cbn [exec_all] in *. unfold exec in *. rewrite Ht in *. cbn [cn_in_transaction cn_current cn_committed orb] in *.
  cbn [execute_all] in *. destruct (execute t ca1) as [ca2|e]; cbn in *; [|by simplify_eq].
  destruct (exec_all_in_transaction l (mkConnection ca1 ca2 true) eq_refl) as [Hc _]. cbn in Hc.
  destruct (execute_all l ca2) as [ca3|e]; destruct (exec_all _ l) as [c r]; cbn in *.
  - by destruct Hall as [-> ->].
  - by rewrite Hall, Hc.
Qed.

Lemma mentioned_select_value columns name :
  mentioned (select_value columns name) = if bool_decide (name ∈ columns) then Some name else None.
Proof. unfold select_value. by repeat (case_bool_decide; cbn). Qed.

(** The SELECT only mentions columns there are, the four old ones apart. *)
Lemma selected_columns t : has_columns (omap (fun '(_, e) => mentioned e) (select_items (column_names t))) t =
  has_columns FRAME_BASE_COLUMNS t.
Proof.
  unfold has_columns, select_items. f_equal. rewrite omap_app, forallb_app.
  transitivity (forallb (fun c => bool_decide (c ∈ column_names t)) FRAME_BASE_COLUMNS && true); [|by rewrite andb_true_r].
  f_equal. apply forallb_forall. intros c ([n e] & (n' & [= -> ->] & _)%list_elem_of_fmap & E)%list_elem_of_In%list_elem_of_omap.
  rewrite mentioned_select_value in E. case_bool_decide; [|done]. injection E as ->. by apply bool_decide_true.
Qed.

Lemma indexes_of_elem name ca i : i ∈ indexes_of name ca <-> exists n, ca_indexes ca !! n = Some i /\ ix_table i = name.
Proof.
  unfold indexes_of. rewrite list_elem_of_filter, list_elem_of_fmap. split.
  - intros [Ht ([n i'] & -> & Hn%elem_of_map_to_list)]. eauto.
  - intros (n & Hn%elem_of_map_to_list & Ht). split; [done|]. by exists (n, i).
Qed.

Lemma no_index_holds name t ca : catalog_ok ca -> ca_tables ca !! name = None -> indexes_hold name t ca = true.
Proof.
  intros Hok Hn. apply forallb_forall. intros i (n & Hi & <-)%list_elem_of_In%indexes_of_elem. destruct (Hok _ _ Hi) as [? ?]. congruence.
Qed.

(** Renaming touches no index: the one table has lost its own, the other had none. *)
Lemma renamed_indexes ca : catalog_ok ca -> ca_tables ca !! "frames_v2_migration" = None ->
  (fun i => if bool_decide (ix_table i = "frames_v2_migration") then i <| ix_table := "frames" |> else i) <$> indexes_elsewhere ca
  = indexes_elsewhere ca.
Proof.
  intros Hok Hn. apply map_eq. intros n. rewrite lookup_fmap. unfold indexes_elsewhere. destruct (filter _ _ !! n) as [i|] eqn:E; [|done].
  apply map_lookup_filter_Some in E as [Hi _]. destruct (Hok _ _ Hi) as [? Ht]. cbn. rewrite bool_decide_false; [done|congruence].
Qed.

Lemma create_index_free if_not_exists name i ca t : ca_tables ca !! ix_table i = Some t ->
  is_ok (has_columns (ix_columns i ++ option_list (fst <$> ix_where i)) t) = true ->
  execute (CreateIndex if_not_exists name i) ca =
    match ca_indexes ca !! name with
    | Some _ => if if_not_exists : bool then Ok ca else Raise (OperationalError ("index already exists: " +:+ name))
    | None => if index_holds i (tb_rows t) then Ok (ca <| ca_indexes ::= insert name i |>) else Raise ConstraintError
    end.
Proof.
  intros Ht Hc. cbn -[has_columns]. destruct (ca_indexes ca !! name); [done|]. unfold find_table. rewrite Ht. cbn -[has_columns].
  destruct (has_columns _ t) as [[]|]; [|done]. cbn. by destruct (index_holds i (tb_rows t)).
Qed.

Lemma plain_index_holds t columns rows : index_holds (mkIndex t columns false None) rows = true.
Proof. done. Qed.

Definition after_create (ca : catalog) : catalog := store_table "frames_v2_migration" (frames_v2_table []) ca.

Definition after_migration (ca : catalog) (t : table) : catalog :=
  mkCatalog (<["frames" := migrated_frames t]> (ca_tables ca)) (migrated_indexes ca).


Section Identity.
Context (ca : catalog) (t : table) (Hok : catalog_ok ca).
Context (Ht : ca_tables ca !! "frames" = Some t) (Hn : ca_tables ca !! "frames_v2_migration" = None).

Lemma insert_does :
  match execute (InsertSelect "frames_v2_migration" (select_items (column_names t)) "frames") (after_create ca) with
  | Ok ca' => forallb (fun c => bool_decide (c ∈ column_names t)) FRAME_BASE_COLUMNS && constraints_hold (migrated_frames t) = true /\
              ca' = store_table "frames_v2_migration" (migrated_frames t) ca
  | Raise _ => forallb (fun c => bool_decide (c ∈ column_names t)) FRAME_BASE_COLUMNS && constraints_hold (migrated_frames t) = false
  end.
Proof using Hok Ht Hn.
  cbn [execute]. unfold find_table, after_create, store_table. cbn [ca_tables update catalog_settable settable].
  rewrite lookup_insert_eq, lookup_insert_ne, Ht by done. cbn [mbind result_bind]. rewrite selected_columns.
  change (has_columns (select_items (column_names t)).*1 (frames_v2_table [])) with (Ok (E := sql_error) tt). cbn [mbind result_bind].
  unfold has_columns at 1. destruct (forallb _ FRAME_BASE_COLUMNS); [|done]. cbn [raise_unless mbind result_bind andb].
  unfold write_rows. 
  change ((frames_v2_table []) <| tb_rows := tb_rows (frames_v2_table []) ++ (selected_row (frames_v2_table []) (select_items (column_names t)) <$> tb_rows t) |>)
    with (migrated_frames t).
  rewrite (no_index_holds "frames_v2_migration" (migrated_frames t) ca Hok Hn : indexes_hold _ _ (mkCatalog _ _) = true), andb_true_r.
  destruct (constraints_hold (migrated_frames t)); [|done]. split; [done|]. unfold store_table. cbn. by rewrite insert_insert_eq.
Qed.

Lemma replace_does :
  execute_all [DropTable "frames"; RenameTable "frames_v2_migration" "frames"]
    (store_table "frames_v2_migration" (migrated_frames t) ca)
  = Ok (mkCatalog (<["frames" := migrated_frames t]> (ca_tables ca)) (indexes_elsewhere ca)).
Proof using Hok Ht Hn.
  cbn [execute_all execute]. unfold find_table, no_table, store_table. cbn [ca_tables ca_indexes update catalog_settable settable].
  rewrite (lookup_insert_ne _ "frames_v2_migration" "frames"), Ht by done. cbn [mbind result_bind ca_tables ca_indexes].
  rewrite (lookup_delete_ne _ "frames" "frames_v2_migration"), lookup_insert_eq by done. cbn [mbind result_bind].
  rewrite lookup_delete_eq, bool_decide_true by done. cbn [raise_unless mbind result_bind].
  f_equal. f_equal.
  - apply map_eq. intros n. destruct (decide (n = "frames")) as [->|H1]; [by rewrite !lookup_insert_eq|].
    rewrite !(lookup_insert_ne _ "frames") by done. destruct (decide (n = "frames_v2_migration")) as [->|H2].
    + by rewrite lookup_delete_eq.
    + by rewrite !lookup_delete_ne, lookup_insert_ne by done.
  - by apply renamed_indexes.
Qed.

Lemma indexes_do :
  match execute_all (drop 4 (frame_identity_statements (column_names t)))
          (mkCatalog (<["frames" := migrated_frames t]> (ca_tables ca)) (indexes_elsewhere ca)) with
  | Ok ca' => index_holds legacy_index (tb_rows (migrated_frames t)) &&
      forallb (fun n => bool_decide (indexes_elsewhere ca !! n = None))
        ["ix_frames_device_id"; "ix_frames_timestamp"; "uq_frame_legacy_device_timestamp"] = true /\ ca' = after_migration ca t
  | Raise _ => index_holds legacy_index (tb_rows (migrated_frames t)) &&
      forallb (fun n => bool_decide (indexes_elsewhere ca !! n = None))
        ["ix_frames_device_id"; "ix_frames_timestamp"; "uq_frame_legacy_device_timestamp"] = false
  end.
Proof using Type.
  cbn [drop frame_identity_statements execute_all forallb].
  rewrite (create_index_free _ _ _ _ (migrated_frames t)); [|apply lookup_insert_eq|done]. cbn [ca_indexes].
  destruct (indexes_elsewhere ca !! "ix_frames_device_id") as [i|] eqn:E1.
  { cbn [mbind result_bind]. by rewrite bool_decide_false, andb_false_r. }
  rewrite plain_index_holds. cbn [mbind result_bind].
  rewrite (create_index_free _ _ _ _ (migrated_frames t)); [|apply lookup_insert_eq|done]. cbn [ca_indexes update catalog_settable settable].
  rewrite lookup_insert_ne by done. destruct (indexes_elsewhere ca !! "ix_frames_timestamp") as [i|] eqn:E2.
  { cbn [mbind result_bind]. rewrite (bool_decide_false (Some i = None)) by done. cbn [andb]. by rewrite ?andb_false_r. }
  rewrite plain_index_holds. cbn [mbind result_bind].
  rewrite (create_index_free _ _ _ _ (migrated_frames t)); [|apply lookup_insert_eq|done]. cbn [ca_indexes update catalog_settable settable].
  rewrite !lookup_insert_ne by done. destruct (indexes_elsewhere ca !! "uq_frame_legacy_device_timestamp") as [i|] eqn:E3.
  { cbn [mbind result_bind]. rewrite (bool_decide_false (Some i = None)) by done. cbn [andb]. by rewrite ?andb_false_r. }
  destruct (index_holds legacy_index (tb_rows (migrated_frames t))); [|done]. by cbn [mbind result_bind].
Qed.

Lemma execute_all_app l1 l2 c : execute_all (l1 ++ l2) c = (c ← execute_all l1 c; execute_all l2 c).
Proof using Type.
  revert c. induction l1 as [|s l1 IH]; intros c; [done|]. cbn. destruct (execute s c); [|done]. apply IH.
Qed.

Lemma identity_statements_do :
  match execute_all (tail (frame_identity_statements (column_names t))) (after_create ca) with
  | Ok ca' => identity_ready ca t = true /\ ca' = after_migration ca t
  | Raise _ => identity_ready ca t = false
  end.
Proof using Hok Ht Hn.
  unfold identity_ready. rewrite bool_decide_true, andb_true_l by done.
  change (tail (frame_identity_statements (column_names t)))
    with ([InsertSelect "frames_v2_migration" (select_items (column_names t)) "frames"] ++
          [DropTable "frames"; RenameTable "frames_v2_migration" "frames"] ++
          drop 4 (frame_identity_statements (column_names t))).
  pose proof insert_does as Hi. pose proof replace_does as Hr. pose proof indexes_do as Hx.
  rewrite execute_all_app. cbn [execute_all]. destruct (execute (InsertSelect _ _ _) _) as [ca1|e]; cbn [mbind result_bind].
  - destruct Hi as [Hc ->]. rewrite Hc, andb_true_l, execute_all_app, Hr. cbn [mbind result_bind]. by destruct (execute_all (drop 4 _) _).
  - by rewrite <- !andb_assoc, andb_assoc, Hi.
Qed.
End Identity.

(** ** What a crash or a failure leaves

    Only the empty table of the first statement, committed at once. *)

Lemma identity_block ca t : catalog_ok ca -> ca_tables ca !! "frames" = Some t ->
  match begin_block (frame_identity_statements (column_names t)) ca with
  | (ca', Ok _) => identity_ready ca t = true /\ ca' = after_migration ca t
  | (ca', Raise _) => identity_ready ca t = false /\ (ca' = ca \/ ca_tables ca !! "frames_v2_migration" = None /\ ca' = after_create ca)
  end.
Proof.
  intros Hok Ht. pose proof (identity_statements_do ca t Hok Ht) as Hd. unfold frame_identity_statements in *.
  rewrite begin_block_split by done. cbn [tail] in Hd. unfold execute at 1, no_table.
  destruct (ca_tables ca !! "frames_v2_migration") eqn:Hn.
  - rewrite bool_decide_false by done. cbn. split; [|by left]. unfold identity_ready. by rewrite Hn.
  - rewrite bool_decide_true by done. cbn [raise_unless mbind result_bind]. specialize (Hd eq_refl). fold (frames_v2_table []).
    fold (after_create ca). destruct (execute_all _ (after_create ca)) as [ca'|e]; [done|]. split; [done|by right].
Qed.

Lemma identity_committed ca columns :
  Forall (fun c => c = ca \/ c = after_create ca) (committed_during (connect ca) (frame_identity_statements columns)).
Proof.
  unfold frame_identity_statements. cbn [committed_during]. constructor; [by left|]. unfold exec at 1. cbn -[committed_during].
  unfold no_table. destruct (bool_decide _); cbn -[committed_during]; [|auto]. fold (frames_v2_table []). fold (after_create ca).
  cbn [committed_during]. constructor; [by right|]. unfold exec at 1. cbn [cn_in_transaction begins orb cn_current cn_committed].
  destruct (execute _ (after_create ca)) as [ca2|e]; [|auto].
  destruct (exec_all_in_transaction (drop 2 (frame_identity_statements columns)) (mkConnection (after_create ca) ca2 true) eq_refl) as [_ H].
  eapply Forall_impl; [exact H|]. intros c ->. by right.
Qed.

(** C31: The migration of frames is atomic. It runs when the table is there,
    is not current, and the dialect is SQLite; it returns [True] exactly when
    the old rows satisfy the new constraints and the names it needs are free,
    and then the table is the migrated one and no other table has changed.
    When it raises, or when the process dies during it, the old table is
    untouched: at most the empty new table was added. *)
Theorem frame_migration_atomic dialect ca t : catalog_ok ca -> ca_tables ca !! "frames" = Some t ->
  let run := migrate_frame_identity_schema dialect ca in
  (run.2 = Ok true <-> frames_current ca = Ok false /\ dialect = "sqlite" /\ identity_ready ca t = true) /\
  (run.2 = Ok false <-> frames_current ca = Ok true) /\
  (run.2 = Ok true -> run.1 = after_migration ca t) /\
  (run.2 = Ok false -> run.1 = ca) /\
  (is_ok run.2 = false -> run.1 = ca \/ run.1 = after_create ca) /\
  Forall (fun c => c = ca \/ c = after_create ca) (committed_during (connect ca) (frame_identity_statements (column_names t))).
Proof.
  intros Hok Ht run. assert (Hf : Forall (fun c => c = ca \/ c = after_create ca) (committed_during (connect ca) (frame_identity_statements (column_names t))))
    by apply identity_committed.
  pose proof (identity_block ca t Hok Ht) as Hb. subst run.
  unfold migrate_frame_identity_schema, has_table, get_column_names. rewrite Ht, bool_decide_true by (by eexists). cbn [negb].
  destruct (frames_current ca) as [[|]|e]; [naive_solver| |naive_solver].
  destruct (decide (dialect = "sqlite")) as [->|Hd]; [|rewrite (bool_decide_false (dialect = _)) by done; cbn; naive_solver].
  rewrite (bool_decide_true ("sqlite" = _)) by done. cbn [negb from_option]. unfold migrated.
  destruct (begin_block _ ca) as [ca' [[]|e]]; destruct Hb as [Hr Hc]; rewrite Hr; cbn; naive_solver.
Qed.

(** After an interrupted migration the leftover table stops every later one. *)
Lemma leftover_table_blocks dialect ca t : catalog_ok ca -> ca_tables ca !! "frames" = Some t ->
  is_Some (ca_tables ca !! "frames_v2_migration") -> frames_current ca = Ok false ->
  is_ok (migrate_frame_identity_schema dialect ca).2 = false.
Proof.
  intros Hok Ht [t' Hl] Hc. pose proof (identity_block ca t Hok Ht) as Hb.
  unfold migrate_frame_identity_schema, has_table, get_column_names. rewrite Ht, bool_decide_true, Hc by (by eexists). cbn [negb].
  destruct (bool_decide (dialect = _)); [|done]. cbn [negb from_option]. unfold migrated, identity_ready in *. rewrite Hl in Hb.
  destruct (begin_block _ ca) as [ca' [[]|e]]; [|done]. by destruct Hb.
Qed.

(** ** Added columns keep what was there *)

Definition rows_extend (columns : list string) (l l' : list row) : Prop :=
  Forall2 (fun r r' => forall c, c ∈ columns -> get c r' = get c r) l l'.

Record table_extends (t t' : table) : Prop := {
  te_columns : exists added, tb_columns t' = tb_columns t ++ added /\ Forall (fun c => co_name c ∉ column_names t) added;
  te_unique : tb_unique t' = tb_unique t;
  te_rows : rows_extend (column_names t) (tb_rows t) (tb_rows t');
}.

Definition altered_tables : list string := ["frames"; "frame_set_manifests"; "frame_set_members"; "relay_v2_client_state"].

Record extends (ca ca' : catalog) : Prop := {
  ex_none : forall name, ca_tables ca !! name = None -> ca_tables ca' !! name = None;
  ex_some : forall name t, ca_tables ca !! name = Some t -> exists t', ca_tables ca' !! name = Some t' /\ table_extends t t';
  ex_elsewhere : forall name, name ∉ altered_tables -> ca_tables ca' !! name = ca_tables ca !! name;
  ex_indexes : forall name, is_Some (ca_indexes ca !! name) -> is_Some (ca_indexes ca' !! name);
}.

Lemma table_extends_columns t t' : table_extends t t' -> column_names t ⊆ column_names t'.
Proof. intros [(added & E & _) _ _]. unfold column_names. rewrite E, fmap_app. set_solver. Qed.

#[export] Instance table_extends_preorder : PreOrder table_extends.
Proof.
  split.
  - intros t. split; [exists []; by rewrite app_nil_r|done|]. by apply Forall2_same_length_lookup_2; [|naive_solver].
  - intros t1 t2 t3 H12 H23. pose proof (table_extends_columns _ _ H12) as Hsub. destruct H12 as [(a & Ea & Ha) Hu Hr].
    destruct H23 as [(b & Eb & Hb) Hu' Hr']. split.
    + exists (a ++ b). rewrite Eb, Ea, app_assoc. split; [done|]. apply Forall_app. split; [done|].
      eapply Forall_impl; [exact Hb|]. intros c Hc. cbn in Hc. set_solver.
    + by rewrite Hu'.
    + eapply (Forall2_trans _ _ _ _ _ _ _ Hr Hr').
      Unshelve. intros x y z Hxy Hyz c Hc. rewrite Hyz by set_solver. by apply Hxy.
Qed.

#[export] Instance extends_preorder : PreOrder extends.
Proof.
  split.
  - intros ca. split; [done| |done|done]. intros name t Ht. by exists t.
  - intros a b c [H1 H2 H3 H4] [H1' H2' H3' H4']. split; [auto| |intros n Hn; by rewrite H3', H3|auto].
    intros name t Ht. destruct (H2 _ _ Ht) as (t' & Ht' & He). destruct (H2' _ _ Ht') as (t'' & Ht'' & He'). exists t''. split; [done|by etrans].
Qed.

(** A statement that adds a column or an index. *)
Definition adds (s : statement) : bool := match s with AddColumn name _ => bool_decide (name ∈ altered_tables) | CreateIndex _ _ _ => true | _ => false end.

Lemma get_insert_ne c c' v r : c <> c' -> get c (<[c' := v]> r) = get c r.
Proof. intros H. unfold get. f_equal. by apply (lookup_insert_ne (M := gmap string)). Qed.

Lemma add_column_extends name c ca ca' : name ∈ altered_tables -> execute (AddColumn name c) ca = Ok ca' -> extends ca ca'.
Proof.
  intros Hin. cbn. unfold find_table. destruct (ca_tables ca !! name) as [t|] eqn:Ht; [|done]. cbn. intros E. ok_steps. bools in H. injection E as <-.
  split; cbn; [| | |done].
  3: { intros n Hn. rewrite lookup_insert_ne; [done|]. by intros ->. }
  - intros n Hn. destruct (decide (n = name)) as [->|]; [congruence|by rewrite lookup_insert_ne].
  - intros n t' Hn. destruct (decide (n = name)) as [->|]; [|exists t'; by rewrite lookup_insert_ne].
    simplify_eq. rewrite lookup_insert_eq. eexists. split; [done|]. split; cbn; [by exists [c]; rewrite Forall_singleton|done|].
    apply Forall2_fmap_r, Forall_Forall2_diag, Forall_forall. intros x Hx c' Hc.
    rewrite get_insert_ne; [done|]. by intros ->.
Qed.

Lemma create_index_extends b name i ca ca' : execute (CreateIndex b name i) ca = Ok ca' -> extends ca ca'.
Proof.
  cbn. destruct (ca_indexes ca !! name) eqn:Hi.
  - by destruct b; [intros [= <-]|].
  - intros E. ok_steps. injection E as <-. split; cbn; [done|intros n t' Hn; by exists t'|done|]. intros n Hn. destruct (decide (n = name)) as [->|];
      [by rewrite lookup_insert_eq; eexists|by rewrite lookup_insert_ne].
Qed.

Lemma adds_extends s ca ca' : adds s = true -> execute s ca = Ok ca' -> extends ca ca'.
Proof. destruct s; try done; cbn [adds]; intros H; [apply create_index_extends|bools in H; by apply add_column_extends]. Qed.

(** Outside a transaction every statement is committed. *)
Lemma adds_exec_all l : forall ca, Forall (fun s => adds s = true) l ->
  exists ca', (exec_all (connect ca) l).1 = connect ca' /\ extends ca ca' /\
              ((exec_all (connect ca) l).2 = Ok tt -> execute_all l ca = Ok ca').
Proof.
  induction l as [|s l IH]; intros ca Hl; [by exists ca|]. apply Forall_cons in Hl as [Hs Hl]. cbn. unfold exec. cbn [cn_in_transaction connect cn_current].
  assert (begins s = false) as -> by (by destruct s). cbn [orb]. destruct (execute s ca) as [ca1|e] eqn:E; [|by exists ca].
  destruct (IH ca1 Hl) as (ca' & H1 & H2 & H3). exists ca'. split; [exact H1|]. split; [|exact H3].
  etrans; [by eapply adds_extends|done].
Qed.

Lemma adds_block l ca ca' r : Forall (fun s => adds s = true) l -> begin_block l ca = (ca', r) ->
  extends ca ca' /\ (r = Ok tt -> execute_all l ca = Ok ca').
Proof.
  intros Hl. unfold begin_block. destruct (adds_exec_all l ca Hl) as (c & H1 & H2 & H3).
  destruct (exec_all (connect ca) l) as [cn r']. cbn in *. subst cn. destruct r' as [[]|e]; intros [= <- <-]; auto.
Qed.

(** What a start keeps of a row. The migration of frames keeps the columns
    it knows and fills two of them where they are NULL; the last step
    closes the open capture runs. *)
Definition kept_column (name : string) (t : table) (c : string) : Prop :=
  c ∈ column_names t /\ (name = "frames" -> c ∈ FRAME_BASE_COLUMNS ++ FRAME_V2_COLUMNS).

Definition filled (name c : string) (old new : value) : Prop :=
  name = "frames" /\ old = NULL /\ (c, new) ∈ [("identity_mode", Text "LEGACY"); ("archive_state", Text "ARCHIVE_DURABLE")].

Definition value_kept (name : string) (t : table) (r r' : row) : Prop :=
  forall c, kept_column name t c -> get c r' = get c r \/ filled name c (get c r) (get c r').

Definition table_kept (name : string) (t t' : table) : Prop :=
  (forall c, kept_column name t c -> kept_column name t' c) /\ Forall2 (value_kept name t) (tb_rows t) (tb_rows t').

(** No table is lost, and only those altered have changed. *)
Record kept (ca ca' : catalog) : Prop := {
  kp_tables : forall name t, ca_tables ca !! name = Some t -> exists t', ca_tables ca' !! name = Some t' /\ table_kept name t t';
  kp_elsewhere : forall name, name ∉ "frames_v2_migration" :: altered_tables -> ca_tables ca' !! name = ca_tables ca !! name;
}.

Lemma table_kept_trans name t1 t2 t3 : table_kept name t1 t2 -> table_kept name t2 t3 -> table_kept name t1 t3.
Proof.
  intros [C1 R1] [C2 R2]. split; [by auto|]. refine (Forall2_trans _ _ _ _ _ _ _ R1 R2). clear R1 R2.
  intros r1 r2 r3 H1 H2 c Hc. destruct (H2 c (C1 c Hc)) as [->|(Hn & He & Hin)]; [by apply H1|].
  destruct (H1 c Hc) as [E|(_ & _ & Hin')].
  - right. rewrite <- E. by split_and!.
  - exfalso. rewrite He in Hin'. set_solver.
Qed.

Lemma extends_kept ca ca' : extends ca ca' -> kept ca ca'.
Proof.
  intros [_ H2 H3 _]. split; [|intros n Hn; apply H3; set_solver].
  intros name t Ht. destruct (H2 _ _ Ht) as (t' & Ht' & He). exists t'. split; [done|]. pose proof (table_extends_columns _ _ He).
  split; [intros c [Hc Hf]; split; [set_solver|done]|]. eapply Forall2_impl; [exact (te_rows _ _ He)|]. intros r r' Hr c [Hc _]. left. by apply Hr.
Qed.

#[export] Instance kept_preorder : PreOrder kept.
Proof.
  split.
  - intros ca. by apply extends_kept.
  - intros a b c [H1 H3] [H1' H3']. split; [|intros n Hn; by rewrite H3', H3].
    intros name t Ht. destruct (H1 _ _ Ht) as (t' & Ht' & He). destruct (H1' _ _ Ht') as (t'' & Ht'' & He'). exists t''.
    split; [done|by eapply table_kept_trans].
Qed.

(** *** The rows of the migrated table *)

Lemma selected_get t items r c : NoDup (column_names t) -> c ∈ tb_columns t ->
  get (co_name c) (selected_row t items r) = match dict_get (co_name c) items with Some e => eval r e | None => co_default c end.
Proof.
  intros Hn Hc. unfold get, selected_row. erewrite (elem_of_list_to_map_1 (M := gmap string)); [done| |].
  - by rewrite <- list_fmap_compose.
  - apply list_elem_of_fmap. by exists c.
Qed.

Lemma frames_v2_names : NoDup (column_names (frames_v2_table [])) /\ column_names (frames_v2_table []) = FRAME_BASE_COLUMNS ++ FRAME_V2_COLUMNS.
Proof. split; [by apply (bool_decide_unpack _)|done]. Qed.

Definition select_item (columns : list string) (c : string) : expression :=
  if bool_decide (c ∈ FRAME_BASE_COLUMNS) then Column c else select_value columns c.

Lemma migrated_get columns r c : c ∈ FRAME_BASE_COLUMNS ++ FRAME_V2_COLUMNS ->
  get c (selected_row (frames_v2_table []) (select_items columns) r) = eval r (select_item columns c).
Proof.
  intros Hc. destruct frames_v2_names as [Hn He]. rewrite <- He in Hc. apply list_elem_of_fmap in Hc as (col & -> & Hcol).
  rewrite selected_get by done. cbn in Hcol. repeat (apply elem_of_cons in Hcol as [->|Hcol]; [reflexivity|]). by apply elem_of_nil in Hcol.
Qed.

Lemma migrated_value columns r c : c ∈ columns -> c ∈ FRAME_BASE_COLUMNS ++ FRAME_V2_COLUMNS ->
  let r' := selected_row (frames_v2_table []) (select_items columns) r in
  get c r' = get c r \/ filled "frames" c (get c r) (get c r').
Proof.
  intros Hc Hin r'. unfold r'. rewrite migrated_get by done. unfold select_item, select_value.
  case_bool_decide; [by left|]. rewrite (bool_decide_true (c ∈ columns)) by done.
  repeat case_bool_decide; subst; cbn; [| |by left]; (case_bool_decide; [right|by left]); split_and!; set_solver.
Qed.

Lemma after_migration_kept ca t : ca_tables ca !! "frames" = Some t -> kept ca (after_migration ca t).
Proof.
  intros Ht. split; cbn.
  - intros name t0 H0. destruct (decide (name = "frames")) as [->|Hn]; [|exists t0; rewrite lookup_insert_ne by done; split; [done|];
      split; [done|]; apply Forall_Forall2_diag, Forall_forall; intros r _ c _; by left].
    simplify_eq. exists (migrated_frames t). rewrite lookup_insert_eq. split; [done|]. split.
    + intros c [Hc Hf]. split; [|done]. change (column_names (migrated_frames t)) with (column_names (frames_v2_table [])).
      rewrite (proj2 frames_v2_names). auto.
    + apply Forall2_fmap_r, Forall_Forall2_diag, Forall_forall. intros r _ c [Hc Hf]. apply migrated_value; auto.
  - intros n Hn. rewrite lookup_insert_ne; [done|]. set_solver.
Qed.

Lemma after_create_kept ca : ca_tables ca !! "frames_v2_migration" = None -> kept ca (after_create ca).
Proof.
  intros Hl. split; cbn.
  - intros name t H0. exists t. rewrite lookup_insert_ne by congruence. split; [done|]. split; [done|].
    apply Forall_Forall2_diag, Forall_forall. intros r _ c _. by left.
  - intros n Hn. rewrite lookup_insert_ne; [done|]. set_solver.
Qed.

(** ** Every step keeps the data *)

Lemma identity_kept dialect ca ca' r : catalog_ok ca -> migrate_frame_identity_schema dialect ca = (ca', r) -> kept ca ca'.
Proof.
  intros Hok. unfold migrate_frame_identity_schema, has_table, get_column_names. case_bool_decide as Ht; [|by intros [= <- _]].
  destruct Ht as [t Ht]. cbn [negb]. destruct (frames_current ca) as [[|]|e]; [by intros [= <- _]| |by intros [= <- _]].
  destruct (negb _); [by intros [= <- _]|]. rewrite Ht. cbn [from_option]. unfold migrated. pose proof (identity_block ca t Hok Ht) as Hb.
  destruct (begin_block _ ca) as [c [[]|e]]; intros [= <- _]; destruct Hb as [_ Hc].
  - rewrite Hc. by apply after_migration_kept.
  - destruct Hc as [->|[Hn ->]]; [done|by apply after_create_kept].
Qed.

Lemma adds_columns name l : name ∈ altered_tables -> Forall (fun s => adds s = true) (AddColumn name <$> l).
Proof. intros Hn. apply Forall_fmap, Forall_forall. intros c _. cbn. by apply bool_decide_true. Qed.

(** The columns asked for are there once the statements returned. *)
Lemma add_column_present name c ca ca' : execute (AddColumn name c) ca = Ok ca' -> co_name c ∈ get_column_names name ca'.
Proof.
  cbn. unfold find_table. destruct (ca_tables ca !! name) as [t|] eqn:Ht; [|done]. cbn. intros E. ok_steps. injection E as <-.
  unfold get_column_names. cbn. rewrite lookup_insert_eq. cbn. unfold column_names. cbn. rewrite fmap_app. set_solver.
Qed.

Lemma extends_columns ca ca' name : extends ca ca' -> get_column_names name ca ⊆ get_column_names name ca'.
Proof.
  intros He. unfold get_column_names. destruct (ca_tables ca !! name) as [t|] eqn:Ht; [|by apply list_subseteq_nil].
  destruct (ex_some _ _ He _ _ Ht) as (t' & -> & Hx). by apply table_extends_columns.
Qed.

Lemma execute_all_extends l : forall ca ca', Forall (fun s => adds s = true) l -> execute_all l ca = Ok ca' ->
  extends ca ca' /\ (forall name c, AddColumn name c ∈ l -> co_name c ∈ get_column_names name ca') /\
  (forall b name i, CreateIndex b name i ∈ l -> is_Some (ca_indexes ca' !! name)).
Proof.
  induction l as [|s l IH]; intros ca ca' Hl E; cbn in E.
  - injection E as <-. split_and!; [done|intros ? ? H|intros ? ? ? H]; by apply elem_of_nil in H.
  - apply Forall_cons in Hl as [Hs Hl]. ok_steps. destruct (IH _ _ Hl E) as (He & Hc & Hi). pose proof (adds_extends _ _ _ Hs Hx) as He1.
    split_and!; [by etrans| |].
    + intros name c [<-|H]%elem_of_cons; [|by apply Hc]. apply (extends_columns _ _ _ He). by eapply add_column_present.
    + intros b name i [<-|H]%elem_of_cons; [|by eapply Hi]. apply (ex_indexes _ _ He). cbn in Hx.
      destruct (ca_indexes ca !! name) eqn:En; [destruct b; [injection Hx as <-; by eexists|done]|]. ok_steps. injection Hx as <-. cbn.
      by rewrite lookup_insert_eq.
Qed.

Lemma missing_columns_elem name required ca c : c ∈ missing_columns name required ca <-> (co_name c ∉ get_column_names name ca) /\ c ∈ required.
Proof. unfold missing_columns. by rewrite list_elem_of_filter. Qed.

Lemma columns_present name required ca ca' : extends ca ca' -> has_table name ca = true ->
  (forall c, c ∈ missing_columns name required ca -> co_name c ∈ get_column_names name ca') ->
  forall c, c ∈ required -> co_name c ∈ get_column_names name ca'.
Proof.
  intros He Ht Hm c Hc. destruct (decide (co_name c ∈ get_column_names name ca)) as [Hin|Hin]; [by apply (extends_columns _ _ _ He)|].
  apply Hm. by apply missing_columns_elem.
Qed.

Lemma add_missing_does name required ca ca' r : name ∈ altered_tables -> add_missing name required ca = (ca', r) ->
  extends ca ca' /\ (is_ok r = true -> has_table name ca = true -> forall c, c ∈ required -> co_name c ∈ get_column_names name ca').
Proof.
  intros Hn. unfold add_missing. destruct (has_table name ca) eqn:Ht; cbn [negb]; [|by intros [= <- <-]].
  destruct (missing_columns name required ca) as [|c0 l] eqn:Em.
  { intros [= <- <-]. split; [done|]. intros _ _. apply (columns_present name required ca ca); [done|done|]. rewrite Em. intros c H. by apply elem_of_nil in H. }
  rewrite <- Em in *. clear Em c0 l. unfold migrated. destruct (begin_block _ ca) as [c r'] eqn:E. intros [= <- <-].
  apply adds_block in E as [He Hr]; [|by apply adds_columns]. split; [done|]. destruct r' as [[]|]; [|done]. intros _ _.
  apply (columns_present name required ca); [done|done|]. intros c1 Hc1.
  eapply (execute_all_extends _ ca); [by apply adds_columns|by apply Hr|]. apply list_elem_of_fmap. by exists c1.
Qed.

Lemma frames_current_true ca t : ca_tables ca !! "frames" = Some t -> frames_current ca = Ok true <->
  Forall (fun c => c ∈ column_names t) FRAME_V2_COLUMNS /\ ("uq_frame_device_timestamp" ∉ (tb_unique t).*1) /\
  ("file_path" ∈ column_names t) /\ Forall (fun c => co_name c = "file_path" -> co_not_null c = false) (tb_columns t).
Proof.
  intros Ht. unfold frames_current, get_column_names, unique_names, nullable. rewrite Ht. cbn [from_option].
  destruct (forallb _ FRAME_V2_COLUMNS) eqn:E1; cbn [andb].
  2: { split; [done|]. intros (H & _). exfalso. apply not_true_iff_false in E1. apply E1, forallb_forall. intros c Hc%list_elem_of_In.
       apply bool_decide_true. by eapply (proj1 (Forall_forall _ _) H). }
  rewrite forallb_forall in E1. case_bool_decide as E2; cbn [negb]; [naive_solver|].
  case_bool_decide as E3; cbn; [|naive_solver]. assert (Hi : forall b, Ok (E := sql_error) b = Ok true <-> b = true) by naive_solver. rewrite Hi, forallb_forall. split.
  - intros H. split_and!; [|done|done|].
    + apply Forall_forall. intros c Hc%list_elem_of_In. specialize (E1 c Hc). by bools in E1.
    + apply Forall_forall. intros c Hc%list_elem_of_In Hn. specialize (H c Hc). rewrite bool_decide_true in H by done. by destruct (co_not_null c).
  - intros (_ & _ & _ & H) c Hc%list_elem_of_In. rewrite Forall_forall in H. case_bool_decide; [|done]. by rewrite H.
Qed.

Lemma frames_current_extends ca ca' : extends ca ca' -> has_table "frames" ca = true -> frames_current ca = Ok true -> frames_current ca' = Ok true.
Proof.
  intros He Ht. unfold has_table in Ht. bools in Ht. destruct Ht as [t Ht]. destruct (ex_some _ _ He _ _ Ht) as (t' & Ht' & Hx).
  rewrite (frames_current_true ca t Ht), (frames_current_true ca' t' Ht'). pose proof (table_extends_columns _ _ Hx) as Hsub.
  destruct Hx as [(added & Ec & Ha) Hu _]. intros (H1 & H2 & H3 & H4). rewrite Hu, Ec. split_and!; [|done|by apply Hsub|].
  - eapply Forall_impl; [exact H1|]. intros c. apply Hsub.
  - apply Forall_app. split; [done|]. eapply Forall_impl; [exact Ha|]. cbn. intros c Hc En. by rewrite En in Hc.
Qed.

Lemma after_migration_current ca t : frames_current (after_migration ca t) = Ok true.
Proof.
  apply (frames_current_true _ (migrated_frames t)); [apply lookup_insert_eq|].
  change (column_names (migrated_frames t)) with (column_names (frames_v2_table [])). rewrite (proj2 frames_v2_names).
  split_and!; [by apply Forall_forall; set_solver|by apply (bool_decide_unpack _)|by apply (bool_decide_unpack _)|].
  apply Forall_forall. intros c Hc. cbn in Hc. repeat (apply elem_of_cons in Hc as [->|Hc]; [done|]). by apply elem_of_nil in Hc.
Qed.

Lemma identity_current dialect ca ca' b : catalog_ok ca -> migrate_frame_identity_schema dialect ca = (ca', Ok b) ->
  has_table "frames" ca' = true -> frames_current ca' = Ok true.
Proof.
  intros Hok. unfold migrate_frame_identity_schema, has_table, get_column_names. case_bool_decide as Ht; cbn [negb].
  2: { intros [= <- _] H. by bools in H. }
  destruct Ht as [t Ht]. destruct (frames_current ca) as [[|]|e] eqn:Ec; [by intros [= <- _]| |done].
  destruct (negb _); [done|]. rewrite Ht. cbn [from_option]. unfold migrated. pose proof (identity_block ca t Hok Ht) as Hb.
  destruct (begin_block _ ca) as [c [[]|e]]; [|done]. intros [= <- _] _. destruct Hb as [_ ->]. apply after_migration_current.
Qed.

(** *** The authorization scope *)

Lemma add_scope_columns_elem ca s : s ∈ add_scope_columns ca <-> exists name required c,
  (name, required) ∈ table_columns /\ has_table name ca = true /\ c ∈ missing_columns name required ca /\ s = AddColumn name c.
Proof.
  unfold add_scope_columns. rewrite list_elem_of_join. setoid_rewrite list_elem_of_fmap. split.
  - intros (l & Hs & [name required] & -> & Hin). destruct (has_table name ca) eqn:Ht; [|by apply elem_of_nil in Hs].
    apply list_elem_of_fmap in Hs as (c & -> & Hc). eauto 10.
  - intros (name & required & c & Hin & Ht & Hc & ->). eexists. split; [|exists (name, required); split; [done|done]]. cbn. rewrite Ht.
    apply list_elem_of_fmap. eauto.
Qed.

Lemma scope_adds ca : Forall (fun s => adds s = true) (add_scope_columns ca ++ scope_indexes ca).
Proof.
  apply Forall_app. split; apply Forall_forall; intros s Hs.
  - apply add_scope_columns_elem in Hs as (name & required & c & Hin & _ & _ & ->). cbn. apply bool_decide_true.
    cbn in Hin. set_solver.
  - unfold scope_indexes in Hs. apply elem_of_app in Hs as [Hs|Hs]; destruct (has_table _ ca); try (by apply elem_of_nil in Hs);
      by apply list_elem_of_fmap in Hs as (c & -> & _).
Qed.

Lemma scope_does ca ca' r : migrate_authorization_scope_schema ca = (ca', r) -> extends ca ca' /\ (is_ok r = true ->
  (forall name required c, (name, required) ∈ table_columns -> has_table name ca = true -> c ∈ required -> co_name c ∈ get_column_names name ca') /\
  (forall b name i, CreateIndex b name i ∈ scope_indexes ca -> is_Some (ca_indexes ca' !! name))).
Proof.
  unfold migrate_authorization_scope_schema. destruct (begin_block _ ca) as [c r'] eqn:E. intros [= <- <-].
  apply adds_block in E as [He Hr]; [|apply scope_adds]. split; [done|]. destruct r' as [[]|]; [|done]. intros _.
  destruct (execute_all_extends _ _ _ (scope_adds ca) (Hr eq_refl)) as (_ & Hc & Hi). split.
  - intros name required c1 Hin Ht. apply (columns_present name required ca); [done|done|]. intros c2 H2. apply Hc, elem_of_app. left.
    apply add_scope_columns_elem. eauto 10.
  - intros b name i H. eapply Hi, elem_of_app. by right.
Qed.

(** *** Open capture runs *)

Definition closed_rows (closed_at_ms : Z) (rows : list row) : list row :=
  (fun r => if matches is_open r then set_values (close_values closed_at_ms) r else r) <$> rows.

Lemma close_does closed_at_ms ca :
  match ca_tables ca !! "capture_runs" with
  | None => close_open_capture_runs_after_restart closed_at_ms ca = (ca, Ok 0)
  | Some t =>
      let t' := t <| tb_rows := closed_rows closed_at_ms (tb_rows t) |> in
      if forallb (fun c => bool_decide (c ∈ column_names t)) ["state"; "state"; "closed_at_ms"; "close_reason"] &&
         constraints_hold t' && indexes_hold "capture_runs" t' ca
      then close_open_capture_runs_after_restart closed_at_ms ca =
             (store_table "capture_runs" t' ca, Ok (Z.of_nat (length (filter (fun r => matches is_open r = true) (tb_rows t)))))
      else exists e, close_open_capture_runs_after_restart closed_at_ms ca = (ca, Raise e)
  end.
Proof.
  unfold close_open_capture_runs_after_restart. destruct (ca_tables ca !! "capture_runs") as [t|] eqn:Ht; [|done]. cbn [fst].
  unfold begin_block. cbn [exec_all]. unfold exec. cbn [cn_current connect cn_in_transaction begins orb cn_committed].
  cbn [execute]. unfold find_table. rewrite Ht. cbn [mbind result_bind]. unfold has_columns. cbn [fst is_open fmap list_fmap close_values].
  destruct (forallb _ _); cbn [raise_unless mbind result_bind andb]; [|by eexists].
  unfold write_rows. fold (closed_rows closed_at_ms (tb_rows t)). destruct (constraints_hold _ && _); [done|by eexists].
Qed.

Lemma close_value_get closed_at_ms r c :
  get c (set_values (close_values closed_at_ms) r) =
    (if bool_decide (c = "close_reason") then Text "PROCESS_RESTART" else
     if bool_decide (c = "closed_at_ms") then Integer closed_at_ms else
     if bool_decide (c = "state") then Text "CLOSED" else get c r).
Proof.
  unfold get, set_values, close_values. cbn. repeat case_bool_decide; subst;
    repeat (first [rewrite lookup_insert_eq|rewrite lookup_insert_ne by done]); try done.
Qed.

Lemma closed_rows_closed closed_at_ms rows : Forall (fun r => matches is_open r = false) (closed_rows closed_at_ms rows).
Proof.
  apply Forall_fmap, Forall_forall. intros r _. unfold compose. destruct (matches is_open r) eqn:E; [|done].
  change (bool_decide (get "state" (set_values (close_values closed_at_ms) r) = Text "OPEN") = false). rewrite close_value_get. apply bool_decide_false. done.
Qed.

Lemma closed_rows_id closed_at_ms rows : Forall (fun r => matches is_open r = false) rows -> closed_rows closed_at_ms rows = rows.
Proof. intros H. induction H as [|r rows Hr _ IH]; [done|]. unfold closed_rows in *. cbn. rewrite Hr. by f_equal. Qed.

(** ** The schema the program expects *)

Definition required_columns : list (string * list column) :=
  [("frame_set_manifests", manifest_archive_columns); ("relay_v2_client_state", relay_v2_client_state_columns)] ++ table_columns.

Record schema_current (ca : catalog) : Prop := {
  sc_frames : has_table "frames" ca = true -> frames_current ca = Ok true;
  sc_columns : forall name required c, (name, required) ∈ required_columns -> has_table name ca = true -> c ∈ required ->
    co_name c ∈ get_column_names name ca;
  sc_indexes : forall b name i, CreateIndex b name i ∈ scope_indexes ca -> is_Some (ca_indexes ca !! name);
  sc_runs : forall t, ca_tables ca !! "capture_runs" = Some t -> Forall (fun r => matches is_open r = false) (tb_rows t) /\
    forallb (fun c => bool_decide (c ∈ column_names t)) ["state"; "state"; "closed_at_ms"; "close_reason"] &&
    constraints_hold t && indexes_hold "capture_runs" t ca = true;
}.

Lemma current_identity dialect ca : schema_current ca -> migrate_frame_identity_schema dialect ca = (ca, Ok false).
Proof.
  intros [Hf _ _ _]. unfold migrate_frame_identity_schema. destruct (has_table "frames" ca); [|done]. cbn [negb]. by rewrite Hf.
Qed.

Lemma nothing_missing name required ca : (forall c, c ∈ required -> co_name c ∈ get_column_names name ca) -> missing_columns name required ca = [].
Proof.
  intros H. destruct (missing_columns name required ca) as [|c l] eqn:E; [done|]. exfalso.
  assert (c ∈ missing_columns name required ca) as [Hn Hc]%missing_columns_elem by (rewrite E; set_solver). by apply Hn, H.
Qed.

Lemma current_add_missing ca name required : schema_current ca -> (name, required) ∈ required_columns -> add_missing name required ca = (ca, Ok false).
Proof.
  intros Hs Hin. unfold add_missing. destruct (has_table name ca) eqn:Ht; [|done]. cbn [negb]. rewrite nothing_missing; [done|].
  intros c. by apply (sc_columns _ Hs _ required).
Qed.

Lemma indexes_there l ca : Forall (fun s => exists name i, s = CreateIndex true name i /\ is_Some (ca_indexes ca !! name)) l ->
  begin_block l ca = (ca, Ok tt).
Proof.
  intros H. unfold begin_block. enough (exec_all (connect ca) l = (connect ca, Ok tt)) as -> by done.
  induction H as [|s l (name & i & -> & [x Hx]) _ IH]; [done|]. cbn. unfold exec. cbn [cn_current connect execute]. rewrite Hx. exact IH.
Qed.

Lemma current_scope ca : schema_current ca -> migrate_authorization_scope_schema ca = (ca, Ok false).
Proof.
  intros Hs. unfold migrate_authorization_scope_schema. assert (add_scope_columns ca = []) as ->.
  { destruct (add_scope_columns ca) as [|s l] eqn:E; [done|]. exfalso.
    assert (s ∈ add_scope_columns ca) as (name & required & c & Hin & Ht & Hc & _)%add_scope_columns_elem by (rewrite E; set_solver).
    rewrite nothing_missing in Hc; [by apply elem_of_nil in Hc|]. intros c'. apply (sc_columns _ Hs _ required); [|done].
    unfold required_columns. apply elem_of_app. by right. }
  cbn [app]. rewrite indexes_there; [done|]. apply Forall_forall. intros s Hin. pose proof (sc_indexes _ Hs) as Hi.
  assert (exists t n, s = scope_index t n) as (t & n & ->).
  { unfold scope_indexes in Hin. apply elem_of_app in Hin as [Hin|Hin]; destruct (has_table _ ca); try (by apply elem_of_nil in Hin);
      apply list_elem_of_fmap in Hin as (n & -> & _); eauto. }
  unfold scope_index in *. eauto.
Qed.

Lemma current_close closed_at_ms ca : schema_current ca -> close_open_capture_runs_after_restart closed_at_ms ca = (ca, Ok 0).
Proof.
  intros Hs. pose proof (close_does closed_at_ms ca) as Hc. destruct (ca_tables ca !! "capture_runs") as [t|] eqn:Ht; [|done].
  destruct (sc_runs _ Hs _ Ht) as [Hr Hok]. rewrite closed_rows_id in Hc by done. cbn zeta in Hc.
  replace (t <| tb_rows := tb_rows t |>) with t in Hc by (by destruct t). rewrite Hok in Hc. rewrite Hc.
  unfold store_table. f_equal.
  - destruct ca as [tables indexes]. cbn in *. f_equal. by apply insert_id.
  - enough (filter (fun r => matches is_open r = true) (tb_rows t) = []) as -> by done. clear Hc. induction Hr as [|r l Hr _ IH]; [done|]. rewrite filter_cons, decide_False; [exact IH|]. by rewrite Hr.
Qed.

Lemma current_ensure dialect now_ms ca : schema_current ca -> ensure_database_schema dialect now_ms ca = (ca, Ok tt).
Proof.
  intros Hs. unfold ensure_database_schema, step_ at 5. rewrite current_identity by done. unfold step_ at 4, migrate_manifest_archive_schema.
  rewrite current_add_missing by (done || set_solver). unfold step_ at 3, migrate_relay_v2_client_state_schema.
  rewrite current_add_missing by (done || set_solver). unfold step_ at 2. rewrite current_scope by done. unfold step_.
  by rewrite current_close.
Qed.

(** ** Starting *)

Lemma step_inv {A} (f : catalog -> catalog * result sql_error A) x ca' r : step_ f x = (ca', r) ->
  exists ca0, x.1 = ca0 /\ (ca' = ca0 \/ exists r', f ca0 = (ca', r')).
Proof.
  destruct x as [ca0 [u|e]]; cbn.
  - destruct (f ca0) as [c r'] eqn:E. intros [= <- _]. eauto.
  - intros [= <- _]. eauto.
Qed.

Lemma step_Ok {A} (f : catalog -> catalog * result sql_error A) x ca' : step_ f x = (ca', Ok tt) ->
  exists ca0 a, x = (ca0, Ok tt) /\ f ca0 = (ca', Ok a).
Proof.
  destruct x as [ca0 [[]|e]]; cbn; [|done]. destruct (f ca0) as [c [a|e]] eqn:E; [|done]. intros [= <-]. eauto.
Qed.

(** The database after the schema migrations, before the runs are closed. *)
Lemma ensure_splits dialect now_ms ca ca' r : catalog_ok ca -> ensure_database_schema dialect now_ms ca = (ca', r) ->
  exists mid, kept ca mid /\ (ca' = mid \/ exists r', close_open_capture_runs_after_restart now_ms mid = (ca', r')).
Proof.
  intros Hok. unfold ensure_database_schema. intros (mid & Em & H)%step_inv. exists mid. split; [|exact H]. clear H.
  destruct (step_ migrate_authorization_scope_schema _) as [m r4] eqn:E4. cbn in Em. subst m. apply step_inv in E4 as (c3 & E3 & H4).
  destruct (step_ migrate_relay_v2_client_state_schema _) as [m r3] eqn:F3. cbn in E3. subst m. apply step_inv in F3 as (c2 & E2 & H3).
  destruct (step_ migrate_manifest_archive_schema _) as [m r2] eqn:F2. cbn in E2. subst m. apply step_inv in F2 as (c1 & E1 & H2).
  destruct (step_ (migrate_frame_identity_schema dialect) _) as [m r1] eqn:F1. cbn in E1. subst m. apply step_inv in F1 as (c0 & E0 & H1).
  cbn in E0. subst c0. transitivity c1; [|transitivity c2; [|transitivity c3]].
  - destruct H1 as [->|[r' H1]]; [done|by eapply identity_kept].
  - destruct H2 as [->|[r' H2]]; [done|]. eapply extends_kept, (add_missing_does _ _ _ _ r'); [|exact H2]. set_solver.
  - destruct H3 as [->|[r' H3]]; [done|]. eapply extends_kept, (add_missing_does _ _ _ _ r'); [|exact H3]. set_solver.
  - destruct H4 as [->|[r' H4]]; [done|]. by eapply extends_kept, scope_does.
Qed.

Lemma closed_rows_kept closed_at_ms rows :
  Forall2 (fun r r' => r' = r \/ matches is_open r = true /\ r' = set_values (close_values closed_at_ms) r) rows (closed_rows closed_at_ms rows).
Proof. induction rows as [|r rows IH]; [constructor|]. constructor; [|exact IH]. destruct (matches is_open r); auto. Qed.

Lemma close_changes closed_at_ms ca ca' r : close_open_capture_runs_after_restart closed_at_ms ca = (ca', r) ->
  ca' = ca \/ exists t, ca_tables ca !! "capture_runs" = Some t /\
    ca' = store_table "capture_runs" (t <| tb_rows := closed_rows closed_at_ms (tb_rows t) |>) ca.
Proof.
  intros E. pose proof (close_does closed_at_ms ca) as Hc. destruct (ca_tables ca !! "capture_runs") as [t|]; [|rewrite E in Hc; by simplify_eq; left].
  cbn zeta in Hc. destruct (_ && _) in Hc.
  - rewrite E in Hc. simplify_eq. eauto.
  - destruct Hc as [e Hc]. rewrite E in Hc. simplify_eq. by left.
Qed.

(** C32: A start loses no data, whether it returns or raises. Every table is
    still there; of a row of [frames] the columns the program knows have
    their values, but that a NULL identity mode or archive state is filled;
    of a capture run only the state and the closing columns may change, and
    only if it was open; the rows of every other table keep all their
    columns, and tables no migration names are the same. *)
Theorem ensure_keeps_data dialect now_ms ca ca' r : catalog_ok ca -> ensure_database_schema dialect now_ms ca = (ca', r) ->
  (forall name t, name <> "capture_runs" -> ca_tables ca !! name = Some t ->
     exists t', ca_tables ca' !! name = Some t' /\ table_kept name t t') /\
  (forall t, ca_tables ca !! "capture_runs" = Some t -> exists t', ca_tables ca' !! "capture_runs" = Some t' /\
     tb_columns t' = tb_columns t /\
     Forall2 (fun r r' => r' = r \/ matches is_open r = true /\ r' = set_values (close_values now_ms) r) (tb_rows t) (tb_rows t')) /\
  (forall name, name ∉ "capture_runs" :: "frames_v2_migration" :: altered_tables -> ca_tables ca' !! name = ca_tables ca !! name).
Proof.
  intros Hok E. destruct (ensure_splits _ _ _ _ _ Hok E) as (mid & [Ht He] & Hc).
  assert (Hr : forall t, ca_tables ca !! "capture_runs" = Some t -> ca_tables mid !! "capture_runs" = Some t) by (intros t; by rewrite He by set_solver).
  assert (Hsame : forall l, Forall2 (fun r r' => r' = r \/ matches is_open r = true /\ r' = set_values (close_values now_ms) r) l l)
    by (intros l; apply Forall_Forall2_diag, Forall_forall; auto).
  assert (ca' = mid \/ exists t, ca_tables mid !! "capture_runs" = Some t /\
    ca' = store_table "capture_runs" (t <| tb_rows := closed_rows now_ms (tb_rows t) |>) mid) as [->|(t0 & Ht0 & ->)]
    by (destruct Hc as [?|[r' H]]; [by left|by eapply close_changes]).
  - split_and!; [by auto|intros t H; exists t; auto|]. intros n Hn. apply He. set_solver.
  - unfold store_table. cbn [ca_tables update catalog_settable settable]. split_and!.
    + intros n t Hn H. rewrite lookup_insert_ne by done. by apply Ht.
    + intros t H%Hr. simplify_eq. eexists. rewrite lookup_insert_eq. split; [done|]. split; [done|]. apply closed_rows_kept.
    + intros n Hn. rewrite lookup_insert_ne by set_solver. apply He. set_solver.
Qed.

Lemma extends_has_table ca ca' name : extends ca ca' -> has_table name ca' = has_table name ca.
Proof.
  intros He. unfold has_table. apply bool_decide_ext. destruct (ca_tables ca !! name) as [t|] eqn:Ht.
  - destruct (ex_some _ _ He _ _ Ht) as (t' & -> & _). split; by eexists.
  - by rewrite (ex_none _ _ He _ Ht).
Qed.

(** What the schema says of the other tables does not depend on the runs. *)
Lemma schema_elsewhere ca ca' : (forall name, name <> "capture_runs" -> ca_tables ca' !! name = ca_tables ca !! name) ->
  frames_current ca' = frames_current ca /\ scope_indexes ca' = scope_indexes ca /\
  (forall name, name <> "capture_runs" -> has_table name ca' = has_table name ca /\ get_column_names name ca' = get_column_names name ca).
Proof.
  intros H. unfold frames_current, scope_indexes, has_table, get_column_names, unique_names, nullable. rewrite !H by done.
  split_and!; [done|done|]. intros name Hn. by rewrite H.
Qed.

Lemma extends_scope_indexes ca ca' : extends ca ca' -> scope_indexes ca' = scope_indexes ca.
Proof. intros He. unfold scope_indexes. by rewrite !(extends_has_table ca ca'). Qed.

(** A start that returns leaves the schema the program expects: the
    identity columns and constraints of frames, every added column, the
    indexes, and no capture run open; and starting again, with any clock,
    changes nothing. *)
Theorem ensure_reaches_schema dialect now_ms ca ca' : catalog_ok ca -> ensure_database_schema dialect now_ms ca = (ca', Ok tt) ->
  schema_current ca' /\ forall dialect' now_ms', ensure_database_schema dialect' now_ms' ca' = (ca', Ok tt).
Proof.
  intros Hok E. assert (Hs : schema_current ca'); [|split; [done|intros; by apply current_ensure]]. unfold ensure_database_schema in E.
  apply step_Ok in E as (c4 & rowcount & E & Hclose). apply step_Ok in E as (c3 & b4 & E & H4). apply step_Ok in E as (c2 & b3 & E & H3).
  apply step_Ok in E as (c1 & b2 & E & H2). apply step_Ok in E as (c0 & b1 & E & H1). simplify_eq.
  pose proof (identity_current _ _ _ _ Hok H1) as Hcur.
  apply add_missing_does in H2 as [X2 C2]; [|set_solver]. apply add_missing_does in H3 as [X3 C3]; [|set_solver].
  apply scope_does in H4 as [X4 [C4 I4]%(fun f => f eq_refl)]. specialize (C2 eq_refl). specialize (C3 eq_refl).
  assert (X14 : extends c1 c4) by (do 2 (etrans; [done|]); done). assert (X34 : extends c2 c4) by (by etrans).
  assert (Hmid : forall name required c, (name, required) ∈ required_columns -> has_table name c4 = true -> c ∈ required -> co_name c ∈ get_column_names name c4).
  { intros name required c Hin Ht Hc. unfold required_columns in Hin. cbn [app] in Hin.
    apply elem_of_cons in Hin as [[= -> ->]|Hin]; [|apply elem_of_cons in Hin as [[= -> ->]|Hin]].
    - apply (extends_columns c2 c4); [done|]. apply C2; [by rewrite <- (extends_has_table _ _ _ X14)|done].
    - apply (extends_columns c3 c4); [done|]. apply C3; [by rewrite <- (extends_has_table _ _ _ X34)|done].
    - apply (C4 _ required); [done|by rewrite <- (extends_has_table _ _ _ X4)|done]. }
  assert (Hf : has_table "frames" c4 = true -> frames_current c4 = Ok true)
    by (rewrite (extends_has_table _ _ _ X14); intros H; apply (frames_current_extends c1); auto).
  rewrite <- (extends_scope_indexes _ _ X4) in I4. clear - Hclose Hmid Hf I4.
  pose proof (close_does now_ms c4) as Hc. destruct (ca_tables c4 !! "capture_runs") as [t|] eqn:Ht.
  2: { rewrite Hclose in Hc. simplify_eq. split; [done|done|exact I4|by intros t; rewrite Ht]. }
  cbn zeta in Hc. destruct (_ && _) eqn:Eok in Hc; rewrite Hclose in Hc; [|by destruct Hc]. simplify_eq.
  set (t' := t <| tb_rows := closed_rows now_ms (tb_rows t) |>) in *.
  destruct (schema_elsewhere c4 (store_table "capture_runs" t' c4)) as (E1 & E2 & E3); [intros n Hn; by apply lookup_insert_ne|]. split.
  - by rewrite E1, (proj1 (E3 "frames" ltac:(done))).
  - intros name required c Hin. assert (name <> "capture_runs") as Hn by (intros ->; unfold required_columns in Hin; set_solver).
    rewrite (proj1 (E3 _ Hn)), (proj2 (E3 _ Hn)). by apply Hmid.
  - rewrite E2. exact I4.
  - intros t0. cbn. rewrite lookup_insert_eq. intros [= <-]. split; [apply closed_rows_closed|exact Eok].
Qed.

(** ** Concrete starts *)

Definition demo_row (id : Z) (device_id : string) (timestamp : Z) : row :=
  list_to_map [("id", Integer id); ("device_id", Text device_id); ("timestamp", Integer timestamp); ("file_path", Text "a.jpg")].

(** A database of the first version: its frames cannot be without a file. *)
Definition demo_frames (rows : list row) : table := mkTable
  [mkColumn "id" "INTEGER" true NULL; mkColumn "device_id" "VARCHAR" true NULL; mkColumn "timestamp" "BIGINT" true NULL;
   mkColumn "file_path" "VARCHAR" true NULL] ["id"] [("uq_frame_device_timestamp", ["device_id"; "timestamp"])] rows.

Definition demo_runs : table := mkTable
  [mkColumn "id" "VARCHAR" true NULL; mkColumn "state" "VARCHAR" true NULL; bigint_column "closed_at_ms"; text_column "close_reason"]
  ["id"] [] [list_to_map [("id", Text "run-1"); ("state", Text "OPEN")]; list_to_map [("id", Text "run-0"); ("state", Text "CLOSED")]].

Definition demo_catalog : catalog := mkCatalog
  (list_to_map [("frames", demo_frames [demo_row 1 "a" 10; demo_row 2 "a" 20]); ("capture_runs", demo_runs)])
  (list_to_map [("ix_frames_device_id", mkIndex "frames" ["device_id"] false None)]).

Lemma demo_catalog_ok : catalog_ok demo_catalog.
Proof. apply (bool_decide_unpack _). vm_compute. exact I. Qed.

Lemma frame_migration_atomic_witness : let '(ca', r) := migrate_frame_identity_schema "sqlite" demo_catalog in
  r = Ok true /\ ca' = after_migration demo_catalog (demo_frames [demo_row 1 "a" 10; demo_row 2 "a" 20]).
Proof.
  destruct (frame_migration_atomic "sqlite" demo_catalog _ demo_catalog_ok eq_refl) as (Ht & _ & Ha & _).
  assert (E : (migrate_frame_identity_schema "sqlite" demo_catalog).2 = Ok true) by (vm_compute; reflexivity).
  specialize (Ha E). destruct (migrate_frame_identity_schema "sqlite" demo_catalog) as [ca' r]. split; [exact E|exact Ha].
Defined.

Lemma ensure_keeps_data_witness : exists ca' t', ensure_database_schema "sqlite" 99 demo_catalog = (ca', Ok tt) /\
  ca_tables ca' !! "capture_runs" = Some t' /\
  ((fun r => (get "id" r, get "state" r, get "close_reason" r)) <$> tb_rows t') =
    [(Text "run-1", Text "CLOSED", Text "PROCESS_RESTART"); (Text "run-0", Text "CLOSED", NULL)].
Proof.
  destruct (ensure_database_schema "sqlite" 99 demo_catalog) as [ca' r] eqn:E.
  assert (Er : r = Ok tt) by (apply (f_equal snd) in E; vm_compute in E; symmetry; exact E). subst r.
  destruct (ensure_keeps_data "sqlite" 99 demo_catalog ca' (Ok tt) demo_catalog_ok E) as (_ & H & _).
  destruct (H demo_runs eq_refl) as (t' & Ht & _ & _). exists ca', t'. split; [reflexivity|]. split; [exact Ht|].
  assert (Hrows : (tb_rows <$> ca_tables ca' !! "capture_runs") = Some (closed_rows 99 (tb_rows demo_runs)))
    by (rewrite <- (f_equal fst E : (ensure_database_schema "sqlite" 99 demo_catalog).1 = ca'); vm_compute; reflexivity).
  rewrite Ht in Hrows. injection Hrows as ->. vm_compute. reflexivity.
Defined.

Lemma ensure_reaches_schema_witness : exists ca', ensure_database_schema "sqlite" 99 demo_catalog = (ca', Ok tt) /\
  schema_current ca' /\ ensure_database_schema "postgresql" 100 ca' = (ca', Ok tt).
Proof.
  destruct (ensure_database_schema "sqlite" 99 demo_catalog) as [ca' r] eqn:E.
  assert (Er : r = Ok tt) by (apply (f_equal snd) in E; vm_compute in E; symmetry; exact E). subst r. exists ca'. split; [reflexivity|].
  destruct (ensure_reaches_schema "sqlite" 99 demo_catalog ca' demo_catalog_ok E) as [Hs Hn]. split; [exact Hs|apply Hn].
Defined.

(** A process that dies between the first statement and the commit leaves a
    database no later start can open. *)
Example interrupted_migration_blocks :
  let ca := after_create demo_catalog in
  existsb (fun c => bool_decide (is_Some (ca_tables c !! "frames_v2_migration")))
    (committed_during (connect demo_catalog) (frame_identity_statements ["id"; "device_id"; "timestamp"; "file_path"])) = true /\
  (ensure_database_schema "sqlite" 100 ca).2 = Raise (OperationalError "table already exists: frames_v2_migration").
Proof. split; vm_compute; reflexivity. Qed.
