(* ===== verification/ManifestStore.v ===== *)
(** * Durable frame-set manifests

    src/app/services/sync/manifest_store.py: an emitted V2 frame-set is made
    durable as a manifest, its members and a delivery projection, in one
    transaction that also closes the capture sessions and runs it succeeds
    and supersedes older sets that were not offered yet. A transaction reads
    one state of the database and commits into another, later one: what
    other sessions committed in between is the difference. *)

From S2P Require Import Prelude Json Digest Identity SyncModels FrameBuffer Database.

(** [ManifestIntegrityError], which is a [ValueError], the [ValueError] of
    [min] on no members, and the [IntegrityError] of a commit. *)
Inductive manifest_error :=
| ManifestIntegrityError (message : string)
| ManifestValueError (message : string)
| ManifestCommitError.

(** ** Validation *)

Definition required_fields (frame_set : SynchronizedFrameSet) : list (string * option string) := [
  ("capture_session_id", fs_capture_session_id frame_set);
  ("capture_run_id", fs_capture_run_id frame_set);
  ("frame_set_uid", fs_frame_set_uid frame_set);
  ("manifest_digest", fs_manifest_digest frame_set);
  ("manifest_json", fs_manifest_json frame_set)].

Definition missing_fields (frame_set : SynchronizedFrameSet) : list string :=
  (filter (fun kv => truthy_opt kv.2 = false) (required_fields frame_set)).*1.

Definition member_complete (frame : StoredSyncFrame) : bool :=
  truthy_opt (sf_source_frame_uid frame) && truthy_opt (sf_source_session_id frame) &&
  truthy_opt (sf_camera_stream_id frame) && negb (bool_decide (sf_sequence frame = None)) &&
  truthy_opt (sf_content_digest frame) &&
  bool_decide (sf_archive_state frame = ARCHIVE_DURABLE) && truthy_opt (sf_file_path frame).

Definition group_values (frame_set : SynchronizedFrameSet) : list (option string) :=
  [fs_tenant_id frame_set; fs_site_id frame_set; fs_processing_job_id frame_set;
   fs_profile_digest frame_set].

Definition member_in_scope (frame_set : SynchronizedFrameSet) (frame : StoredSyncFrame) : bool :=
  bool_decide (sf_tenant_id frame = fs_tenant_id frame_set) &&
  bool_decide (sf_site_id frame = fs_site_id frame_set) &&
  bool_decide (sf_capture_session_id frame = fs_capture_session_id frame_set) &&
  bool_decide (sf_processing_job_id frame = fs_processing_job_id frame_set) &&
  bool_decide (sf_profile_digest frame = fs_profile_digest frame_set) &&
  truthy_opt (sf_authorized_subject frame) && truthy_opt (sf_session_token_jti frame) &&
  truthy_opt (sf_authorized_camera_id frame).

Definition member_of_participant (frame_set : SynchronizedFrameSet) (frame : StoredSyncFrame) : bool :=
  bool_decide (fs_authorized_subject frame_set = None) ||
  bool_decide (sf_authorized_subject frame = fs_authorized_subject frame_set) &&
  bool_decide (sf_session_token_jti frame = fs_session_token_jti frame_set).

Definition check_member_scope (frame_set : SynchronizedFrameSet) (frame : StoredSyncFrame)
    : result manifest_error unit :=
  if negb (member_in_scope frame_set frame)
  then Raise (ManifestIntegrityError "manifest member authorization scope does not match frame set")
  else if negb (member_of_participant frame_set frame)
  then Raise (ManifestIntegrityError "manifest member participant does not match frame set")
  else Ok tt.

Fixpoint check_each {A} (check : A -> result manifest_error unit) (l : list A)
    : result manifest_error unit :=
  match l with
  | [] => Ok tt
  | x :: l => _ ← check x; check_each check l
  end.

Definition member_values (frame_set : SynchronizedFrameSet) : list StoredSyncFrame :=
  (fs_frames frame_set).*2.

Definition _validate_v2_frame_set (frame_set : SynchronizedFrameSet) : result manifest_error unit :=
  let missing := missing_fields frame_set in
  _ ← raise_unless (bool_decide (missing = []))
        (ManifestIntegrityError ("v2 frame set is missing " +:+ join ", " (sort_by String.leb missing)));
  _ ← check_each (fun frame => raise_unless (member_complete frame)
        (ManifestIntegrityError "v2 manifest member is not identity-complete and archive-durable"))
        (member_values frame_set);
  if existsb truthy_opt (group_values frame_set) then
    _ ← raise_unless (forallb truthy_opt (group_values frame_set))
          (ManifestIntegrityError "authorized v2 frame set has an incomplete session scope");
    _ ← raise_unless (bool_decide (fs_authorized_subject frame_set = None <->
                                   fs_session_token_jti frame_set = None))
          (ManifestIntegrityError "frame-set participant identity must be complete or member-scoped");
    check_each (check_member_scope frame_set) (member_values frame_set)
  else Ok tt.

Definition _verify_existing_manifest (existing : FrameSetManifest) (frame_set : SynchronizedFrameSet)
    : result manifest_error unit :=
  raise_unless
    (bool_decide (fs_manifest_digest frame_set = Some (mf_manifest_digest existing)) &&
     bool_decide (fs_manifest_json frame_set = Some (mf_manifest_json existing)) &&
     bool_decide (mf_tenant_id existing = fs_tenant_id frame_set) &&
     bool_decide (mf_site_id existing = fs_site_id frame_set) &&
     bool_decide (mf_processing_job_id existing = fs_processing_job_id frame_set) &&
     bool_decide (mf_profile_digest existing = fs_profile_digest frame_set) &&
     bool_decide (mf_authorized_subject existing = fs_authorized_subject frame_set) &&
     bool_decide (mf_session_token_jti existing = fs_session_token_jti frame_set))
    (ManifestIntegrityError "frame_set_uid was reused with different manifest content").

(** ** New rows *)

(** The order of members: their [camera_stream_id], which validation made text. *)
Definition camera_leb (x y : StoredSyncFrame) : bool :=
  String.leb (default "" (sf_camera_stream_id x)) (default "" (sf_camera_stream_id y)).

Definition ordered_members (frame_set : SynchronizedFrameSet) : list StoredSyncFrame :=
  sort_by camera_leb (member_values frame_set).

Definition _source_sessions_json (frame_set : SynchronizedFrameSet) : string :=
  dumps_ascii (JList ((fun frame => JObj [
    ("camera_stream_id", json_opt_str (sf_camera_stream_id frame));
    ("source_session_id", json_opt_str (sf_source_session_id frame))]) <$> ordered_members frame_set)).

Definition _new_delivery_projection (frame_set_uid : string) (updated_at_ms : Z)
    (live_state : string) (reason : option string) : FrameSetDeliveryProjection :=
  mkFrameSetDeliveryProjection frame_set_uid "ARCHIVE_DURABLE" live_state "NOT_ENQUEUED" reason
    updated_at_ms.

Definition new_capture_session (frame_set : SynchronizedFrameSet) (timestamp_ms : Z)
    : option CaptureSession :=
  id ← fs_capture_session_id frame_set;
  Some (mkCaptureSession id "OPEN" (_source_sessions_json frame_set) timestamp_ms None None).

Definition new_capture_run (frame_set : SynchronizedFrameSet) (timestamp_ms : Z) : option CaptureRun :=
  id ← fs_capture_run_id frame_set;
  session ← fs_capture_session_id frame_set;
  Some (mkCaptureRun id session (fs_identity_mode frame_set) "OPEN" timestamp_ms None None).

(** [span_ms or max_delta_ms]. *)
Definition synchronization_span (frame_set : SynchronizedFrameSet) : Z :=
  match fs_span_ms frame_set with
  | Some span => if span =? 0 then fs_max_delta_ms frame_set else span
  | None => fs_max_delta_ms frame_set
  end.

Definition new_manifest (frame_set : SynchronizedFrameSet) (freshness_origin_ms timestamp_ms : Z)
    : option FrameSetManifest :=
  uid ← fs_frame_set_uid frame_set;
  session ← fs_capture_session_id frame_set;
  run ← fs_capture_run_id frame_set;
  digest ← fs_manifest_digest frame_set;
  payload ← fs_manifest_json frame_set;
  Some (mkFrameSetManifest uid session run (fs_frame_set_id frame_set)
    (fs_anchor_timestamp_ms frame_set) freshness_origin_ms (synchronization_span frame_set)
    digest payload timestamp_ms "ARCHIVE_DURABLE" None (fs_sync_window_ms frame_set)
    (fs_synchronized_at_ms frame_set) (fs_member_count frame_set) (fs_tenant_id frame_set)
    (fs_site_id frame_set) (fs_processing_job_id frame_set) (fs_profile_digest frame_set)
    (fs_authorized_subject frame_set) (fs_session_token_jti frame_set)).

Definition new_member (frame_set_uid : option string) (frame : StoredSyncFrame) : option FrameSetMember :=
  uid ← frame_set_uid;
  source ← sf_source_frame_uid frame;
  session ← sf_source_session_id frame;
  camera ← sf_camera_stream_id frame;
  sequence ← sf_sequence frame;
  digest ← sf_content_digest frame;
  path ← sf_file_path frame;
  Some (mkFrameSetMember uid (sf_frame_id frame) source session camera sequence
    (sf_timestamp_ms frame) (sf_content_type frame) (sf_image_size frame) digest path
    (sf_authorized_camera_id frame) (sf_camera_claim_id frame) (sf_authorized_subject frame)
    (sf_session_token_jti frame)).

(** ** The transaction of a new manifest *)

Definition close_session (timestamp_ms : Z) (session : CaptureSession) : CaptureSession :=
  session <| cs_state := "CLOSED" |> <| cs_closed_at_ms := Some timestamp_ms |>
          <| cs_close_reason := Some "SOURCE_SESSION_SET_CHANGED" |>.

Definition close_run (timestamp_ms : Z) (run : CaptureRun) : CaptureRun :=
  run <| cr_state := "CLOSED" |> <| cr_closed_at_ms := Some timestamp_ms |>
      <| cr_close_reason := Some "CAPTURE_RUN_ROTATED" |>.

Definition supersede (timestamp_ms : Z) (projection : FrameSetDeliveryProjection)
    : FrameSetDeliveryProjection :=
  projection <| pj_live_state := "SUPERSEDED_BEFORE_OFFER" |>
             <| pj_last_reason := Some "NEWER_FRAME_SET_AVAILABLE" |>
             <| pj_updated_at_ms := timestamp_ms |>.

Definition open_sessions (db : database) (but : option string) : list CaptureSession :=
  filter (fun s => cs_state s = "OPEN" /\ Some (cs_id s) <> but) (rows (db_sessions db)).

Definition open_runs (db : database) (but : option string) : list CaptureRun :=
  filter (fun r => cr_state r = "OPEN" /\ Some (cr_id r) <> but) (rows (db_runs db)).

(** The join of projections and manifests, restricted to a live state. *)
Definition eligible_rows (db : database) : list (FrameSetDeliveryProjection * FrameSetManifest) :=
  omap (fun projection =>
          manifest ← db_manifests db !! pj_frame_set_uid projection;
          if bool_decide (pj_live_state projection = "ELIGIBLE") then Some (projection, manifest) else None)
       (rows (db_projections db)).

Definition lookup_opt {A} (t : gmap string A) (key : option string) : option A := key ≫= (t !!.).

Definition newer_eligible_exists (db : database) (frame_set : SynchronizedFrameSet) : bool :=
  existsb (fun '(_, m) => fs_synchronized_at_ms frame_set <? mf_synchronized_at_ms m) (eligible_rows db).

(** The pending objects of a new manifest, from the state [db] it read. *)
Definition manifest_writes (db : database) (frame_set : SynchronizedFrameSet) (timestamp_ms : Z)
    : result manifest_error (list statement) :=
  let close_sessions :=
    (fun s => update_session (cs_id s) (close_session timestamp_ms))
      <$> open_sessions db (fs_capture_session_id frame_set) in
  let add_session :=
    match lookup_opt (db_sessions db) (fs_capture_session_id frame_set) with
    | None => [insert_row insert_session (new_capture_session frame_set timestamp_ms)]
    | Some _ => []
    end in
  let close_runs :=
    (fun r => update_run (cr_id r) (close_run timestamp_ms))
      <$> open_runs db (fs_capture_run_id frame_set) in
  add_run ←
    match lookup_opt (db_runs db) (fs_capture_run_id frame_set) with
    | None => Ok [insert_row insert_run (new_capture_run frame_set timestamp_ms)]
    | Some run =>
        if bool_decide (Some (cr_capture_session_id run) = fs_capture_session_id frame_set) then Ok []
        else Raise (ManifestIntegrityError
                      "capture_run_id was reused with a different capture_session_id")
    end;
  let newer := newer_eligible_exists db frame_set in
  let supersede_older :=
    if newer then []
    else (fun row => update_projection (pj_frame_set_uid row.1) (supersede timestamp_ms))
           <$> eligible_rows db in
  match min_list (sf_timestamp_ms <$> member_values frame_set) with
  | None => Raise (ManifestValueError "min() iterable argument is empty")
  | Some freshness_origin_ms =>
      Ok (close_sessions ++ add_session ++ close_runs ++ add_run ++ supersede_older ++
          [insert_row insert_manifest (new_manifest frame_set freshness_origin_ms timestamp_ms);
           insert_row insert_projection
             ((fun uid => _new_delivery_projection uid timestamp_ms
                 (if newer then "SUPERSEDED_BEFORE_OFFER" else "ELIGIBLE")
                 (if newer then Some "NEWER_FRAME_SET_AVAILABLE" else None))
                <$> fs_frame_set_uid frame_set)] ++
          ((fun frame => insert_row insert_member (new_member (fs_frame_set_uid frame_set) frame))
             <$> ordered_members frame_set))
  end.

(** [persist_frame_set_manifest] reads [db] and commits into [current]; the
    rollback of its caller leaves [current] on every exception. *)
Definition persist_frame_set_manifest (db current : database) (frame_set : SynchronizedFrameSet)
    (created_at_ms : option Z) (now_ms : Z) : database * result manifest_error bool :=
  if negb (bool_decide (fs_identity_mode frame_set = IDENTITY_MODE_V2)) then (current, Ok false)
  else match _validate_v2_frame_set frame_set with
  | Raise e => (current, Raise e)
  | Ok _ =>
      match lookup_opt (db_manifests db) (fs_frame_set_uid frame_set) with
      | Some existing =>
          match _verify_existing_manifest existing frame_set with
          | Raise e => (current, Raise e)
          | Ok _ =>
              match lookup_opt (db_projections db) (fs_frame_set_uid frame_set) with
              | Some _ => (current, Ok false)
              | None =>
                  match commit [insert_row insert_projection
                                  ((fun uid => _new_delivery_projection uid now_ms "ELIGIBLE" None)
                                     <$> fs_frame_set_uid frame_set)] current with
                  | Some db' => (db', Ok false)
                  | None => (current, Raise ManifestCommitError)
                  end
              end
          end
      | None =>
          let timestamp_ms := default now_ms created_at_ms in
          match manifest_writes db frame_set timestamp_ms with
          | Raise e => (current, Raise e)
          | Ok writes =>
              match commit writes current with
              | Some db' => (db', Ok true)
              | None =>
                  match lookup_opt (db_manifests current) (fs_frame_set_uid frame_set) with
                  | Some existing =>
                      match _verify_existing_manifest existing frame_set with
                      | Raise e => (current, Raise e)
                      | Ok _ => (current, Ok false)
                      end
                  | None => (current, Raise (ManifestIntegrityError
                                "manifest identity conflicts with existing durable data"))
                  end
              end
          end
      end
  end.

(** ** The delivery projection of a manifest *)

Definition set_opt {A} (v : option A) (old : A) : A := default old v.

(** A column of an UPDATE: written when it differs from what was read. *)
Definition flushed {A} `{!EqDecision A} (read new now : A) : A := if bool_decide (new = read) then now else new.

Definition flush_projection (read new now : FrameSetDeliveryProjection) : FrameSetDeliveryProjection :=
  mkFrameSetDeliveryProjection (pj_frame_set_uid now)
    (flushed (pj_archive_state read) (pj_archive_state new) (pj_archive_state now))
    (flushed (pj_live_state read) (pj_live_state new) (pj_live_state now))
    (flushed (pj_legacy_relay_state read) (pj_legacy_relay_state new) (pj_legacy_relay_state now))
    (flushed (pj_last_reason read) (pj_last_reason new) (pj_last_reason now))
    (flushed (pj_updated_at_ms read) (pj_updated_at_ms new) (pj_updated_at_ms now)).

(** Like [persist_frame_set_manifest] it reads [db] and commits into
    [current]. *)
Definition update_delivery_projection (db current : database) (frame_set_uid : string)
    (archive_state live_state legacy_relay_state reason : option string)
    (updated_at_ms : option Z) (now_ms : Z) : database * result manifest_error bool :=
  let change p :=
    p <| pj_archive_state ::= set_opt archive_state |> <| pj_live_state ::= set_opt live_state |>
      <| pj_legacy_relay_state ::= set_opt legacy_relay_state |>
      <| pj_last_reason ::= fun old => match reason with Some r => Some r | None => old end |>
      <| pj_updated_at_ms := default now_ms updated_at_ms |> in
  match db_projections db !! frame_set_uid with
  | Some projection =>
      match commit [update_projection frame_set_uid (flush_projection projection (change projection))] current with
      | Some db' => (db', Ok true)
      | None => (current, Raise ManifestCommitError)
      end
  | None =>
      match db_manifests db !! frame_set_uid with
      | None => (current, Ok false)
      | Some _ =>
          match commit [insert_projection (change (_new_delivery_projection frame_set_uid now_ms "ELIGIBLE" None))] current with
          | Some db' => (db', Ok true)
          | None => (current, Raise ManifestCommitError)
          end
      end
  end.

(** [ORDER BY synchronized_at_ms, created_at_ms, frame_set_uid]. *)
Definition manifest_leb (x y : FrameSetManifest) : bool :=
  lex_leb (fun x y => mf_synchronized_at_ms x <? mf_synchronized_at_ms y)
          (fun x y => mf_synchronized_at_ms x =? mf_synchronized_at_ms y)
    (lex_leb (fun x y => mf_created_at_ms x <? mf_created_at_ms y)
             (fun x y => mf_created_at_ms x =? mf_created_at_ms y)
             (fun x y => String.leb (mf_frame_set_uid x) (mf_frame_set_uid y))) x y.

(** The first row in descending order. *)
Definition first_desc (l : list FrameSetManifest) : option FrameSetManifest :=
  last (sort_by manifest_leb l).

Definition deliverable (db : database) (m : FrameSetManifest) : bool :=
  match db_projections db !! mf_frame_set_uid m with
  | Some p => bool_decide (pj_archive_state p = "ARCHIVE_DURABLE") &&
              bool_decide (pj_live_state p = "ELIGIBLE")
  | None => false
  end.

Definition get_newest_eligible_manifest (db : database) : option FrameSetManifest :=
  first_desc (filter (fun m => deliverable db m = true) (rows (db_manifests db))).

(** ** What a committed transaction wrote *)

Definition closed_sessions (db : database) (frame_set : SynchronizedFrameSet) (timestamp_ms : Z)
    (t : gmap string CaptureSession) : gmap string CaptureSession :=
  alter_all (close_session timestamp_ms) (cs_id <$> open_sessions db (fs_capture_session_id frame_set)) t.

Definition closed_runs (db : database) (frame_set : SynchronizedFrameSet) (timestamp_ms : Z)
    (t : gmap string CaptureRun) : gmap string CaptureRun :=
  alter_all (close_run timestamp_ms) (cr_id <$> open_runs db (fs_capture_run_id frame_set)) t.

Definition superseded (db : database) (frame_set : SynchronizedFrameSet) (timestamp_ms : Z)
    (t : gmap string FrameSetDeliveryProjection) : gmap string FrameSetDeliveryProjection :=
  if newer_eligible_exists db frame_set then t
  else alter_all (supersede timestamp_ms) ((fun row => pj_frame_set_uid row.1) <$> eligible_rows db) t.

(** The projection the new manifest gets. *)
Definition first_projection (db : database) (frame_set : SynchronizedFrameSet) (timestamp_ms : Z)
    (uid : string) : FrameSetDeliveryProjection :=
  if newer_eligible_exists db frame_set
  then _new_delivery_projection uid timestamp_ms "SUPERSEDED_BEFORE_OFFER" (Some "NEWER_FRAME_SET_AVAILABLE")
  else _new_delivery_projection uid timestamp_ms "ELIGIBLE" None.

(** [t'] is [t] with [row] under [key], unless [key] was read as present. *)
Definition added {A} (was : option A) (key : string) (row : A) (t t' : gmap string A) : Prop :=
  match was with
  | Some _ => t' = t
  | None => t !! key = None /\ t' = <[key := row]> t
  end.

Record new_manifest_committed (db current : database) (fs : SynchronizedFrameSet) (ts : Z)
    (db' : database) (m : FrameSetManifest) (ms : list FrameSetMember)
    (session : CaptureSession) (run : CaptureRun) : Prop := {
  nm_manifest : exists fresh, min_list (sf_timestamp_ms <$> member_values fs) = Some fresh /\
    new_manifest fs fresh ts = Some m;
  nm_members : new_member (fs_frame_set_uid fs) <$> ordered_members fs = Some <$> ms;
  nm_session : new_capture_session fs ts = Some session;
  nm_run : new_capture_run fs ts = Some run;
  nm_run_session : forall r, db_runs db !! cr_id run = Some r ->
    cr_capture_session_id r = cs_id session;
  nm_fresh : db_manifests current !! mf_frame_set_uid m = None;
  nm_unique : forall k m', db_manifests current !! k = Some m' ->
    (mf_capture_run_id m', mf_frame_set_id m') <> (mf_capture_run_id m, mf_frame_set_id m) /\
    mf_manifest_digest m' <> mf_manifest_digest m;
  nm_db_manifests : db_manifests db' = <[mf_frame_set_uid m := m]> (db_manifests current);
  nm_db_members : db_members db' = db_members current ++ ms;
  nm_sources : NoDup (mb_source_frame_uid <$> db_members current) ->
    NoDup (mb_source_frame_uid <$> db_members db');
  nm_db_sessions : added (db_sessions db !! cs_id session) (cs_id session) session
    (closed_sessions db fs ts (db_sessions current)) (db_sessions db');
  nm_db_runs : added (db_runs db !! cr_id run) (cr_id run) run
    (closed_runs db fs ts (db_runs current)) (db_runs db');
  nm_projection_fresh : superseded db fs ts (db_projections current) !! mf_frame_set_uid m = None;
  nm_db_projections : db_projections db' =
    <[mf_frame_set_uid m := first_projection db fs ts (mf_frame_set_uid m)]>
      (superseded db fs ts (db_projections current));
  nm_rest : db_frames db' = db_frames current /\ db_issues db' = db_issues current /\
    db_client_state db' = db_client_state current;
}.

Lemma option_bind_Some {A B} (x : option A) (f : A -> option B) b :
  (x ≫= f) = Some b <-> exists a, x = Some a /\ f a = Some b.
Proof. destruct x; cbn; naive_solver. Qed.

Lemma new_manifest_Some fs fresh ts m : new_manifest fs fresh ts = Some m ->
  fs_frame_set_uid fs = Some (mf_frame_set_uid m) /\
  fs_capture_session_id fs = Some (mf_capture_session_id m) /\
  fs_capture_run_id fs = Some (mf_capture_run_id m) /\
  fs_manifest_digest fs = Some (mf_manifest_digest m) /\
  fs_manifest_json fs = Some (mf_manifest_json m) /\
  mf_frame_set_id m = fs_frame_set_id fs /\ mf_synchronized_at_ms m = fs_synchronized_at_ms fs /\
  mf_created_at_ms m = ts /\ mf_freshness_origin_ms m = fresh.
Proof.
  unfold new_manifest. rewrite option_bind_Some. intros (u & -> & H).
  repeat (apply option_bind_Some in H as (? & -> & H)). by injection H as <-.
Qed.

Lemma new_capture_session_Some fs ts s : new_capture_session fs ts = Some s ->
  fs_capture_session_id fs = Some (cs_id s) /\ cs_state s = "OPEN".
Proof. unfold new_capture_session. rewrite option_bind_Some. by intros (u & -> & [= <-]). Qed.

Lemma new_capture_run_Some fs ts r : new_capture_run fs ts = Some r ->
  fs_capture_run_id fs = Some (cr_id r) /\
  fs_capture_session_id fs = Some (cr_capture_session_id r) /\ cr_state r = "OPEN".
Proof.
  unfold new_capture_run. rewrite option_bind_Some. intros (u & -> & H).
  apply option_bind_Some in H as (v & -> & [= <-]). done.
Qed.

Lemma truthy_opt_is_Some x : truthy_opt x = true -> exists v, x = Some v /\ v <> "".
Proof. intros H%truthy_opt_true. naive_solver. Qed.

(** Validation makes every [nullable=False] value present. *)
Lemma validate_required fs u :
  _validate_v2_frame_set fs = Ok u ->
  Forall (fun kv => truthy_opt kv.2 = true) (required_fields fs) /\
  Forall (fun f => member_complete f = true) (member_values fs).
Proof.
  unfold _validate_v2_frame_set. rewrite result_bind_Ok. intros ([] & H1 & H).
  apply result_bind_Ok in H as ([] & H2 & _). apply raise_unless_Ok, bool_decide_eq_true in H1.
  split.
  - apply Forall_forall. intros kv Hkv. apply not_false_is_true. intros E.
    unfold missing_fields in H1. apply fmap_nil_inv in H1.
    assert (kv ∈ filter (fun kv => truthy_opt kv.2 = false) (required_fields fs)) as Hin
      by (by apply list_elem_of_filter). rewrite H1 in Hin. by apply elem_of_nil in Hin.
  - revert H2. induction (member_values fs) as [|f l IH]; intros H2; constructor; cbn in H2;
      apply result_bind_Ok in H2 as ([] & H2 & H3); [by apply raise_unless_Ok in H2|by apply IH].
Qed.

Lemma commit_app_Some ws ws' db db' :
  commit (ws ++ ws') db = Some db' <-> exists db1, commit ws db = Some db1 /\ commit ws' db1 = Some db'.
Proof. rewrite commit_app. apply option_bind_Some. Qed.

Lemma commit_cons_Some w ws db db' :
  commit (w :: ws) db = Some db' <-> exists db1, w db = Some db1 /\ commit ws db1 = Some db'.
Proof. rewrite commit_cons. apply option_bind_Some. Qed.

Lemma commit_close_sessions f (l : list CaptureSession) db :
  commit ((fun s => update_session (cs_id s) f) <$> l) db =
  Some (db <| db_sessions ::= alter_all f (cs_id <$> l) |>).
Proof. rewrite (list_fmap_compose cs_id (fun k => update_session k f)). apply commit_update_sessions. Qed.

Lemma commit_close_runs f (l : list CaptureRun) db :
  commit ((fun r => update_run (cr_id r) f) <$> l) db =
  Some (db <| db_runs ::= alter_all f (cr_id <$> l) |>).
Proof. rewrite (list_fmap_compose cr_id (fun k => update_run k f)). apply commit_update_runs. Qed.

Lemma commit_supersede f (l : list (FrameSetDeliveryProjection * FrameSetManifest)) db :
  commit ((fun row => update_projection (pj_frame_set_uid row.1) f) <$> l) db =
  Some (db <| db_projections ::= alter_all f ((fun row => pj_frame_set_uid row.1) <$> l) |>).
Proof. rewrite <- commit_update_projections. by rewrite <- list_fmap_compose. Qed.

(** An INSERT that is made only when the row was not read. *)
Lemma commit_insert_new {A} (w : statement) (was : option A) db db' :
  commit (match was with None => [w] | Some _ => [] end) db = Some db' ->
  match was with Some _ => db' = db | None => w db = Some db' end.
Proof. destruct was; [by intros [= <-]|]. by rewrite commit_one. Qed.

Lemma manifest_writes_committed db current fs ts writes db' :
  manifest_writes db fs ts = Ok writes -> commit writes current = Some db' ->
  exists m ms session run, new_manifest_committed db current fs ts db' m ms session run.
Proof.
  unfold manifest_writes. rewrite result_bind_Ok. intros (add_run & Hadd & Hw) Hc.
  destruct (min_list _) as [fresh|] eqn:Hmin; [|done]. injection Hw as <-.
  apply commit_app_Some in Hc as (d1 & H1 & Hc). apply commit_app_Some in Hc as (d2 & H2 & Hc).
  apply commit_app_Some in Hc as (d3 & H3 & Hc). apply commit_app_Some in Hc as (d4 & H4 & Hc).
  apply commit_app_Some in Hc as (d5 & H5 & Hc). apply commit_cons_Some in Hc as (d6 & Hm & Hc).
  apply commit_cons_Some in Hc as (d7 & Hp & H7).
  rewrite commit_close_sessions in H1. injection H1 as <-.
  rewrite commit_close_runs in H3. apply (inj Some) in H3.
  apply insert_row_Some in Hm as (m & Em & Hm). apply insert_row_Some in Hp as (p & Ep & Hp).
  apply insert_manifest_Some in Hm as (Hm1 & Hm2 & ->). apply insert_projection_Some in Hp as (Hp1 & ->).
  apply new_manifest_Some in Em as Hsome. destruct Hsome as (Eu & Es & Er & _).
  rewrite (list_fmap_compose (new_member (fs_frame_set_uid fs)) (insert_row insert_member)) in H7.
  apply commit_members in H7 as (ms & Hms & -> & Hnd).
  destruct (new_capture_session fs ts) as [session|] eqn:Esession;
    [|unfold new_capture_session in Esession; by rewrite Es in Esession].
  destruct (new_capture_run fs ts) as [run|] eqn:Erun;
    [|unfold new_capture_run in Erun; by rewrite Es, Er in Erun].
  destruct (new_capture_session_Some _ _ _ Esession) as (Es' & _).
  destruct (new_capture_run_Some _ _ _ Erun) as (Er' & Ers' & _).
  rewrite Es' in H2. cbn in H2. rewrite Er' in Hadd. cbn in Hadd.
  apply commit_insert_new in H2.
  exists m, ms, session, run. rewrite Er' in H3.
  assert (Hruns : added (db_runs db !! cr_id run) (cr_id run) run (db_runs d3) (db_runs d4) /\
    (forall r, db_runs db !! cr_id run = Some r -> cr_capture_session_id r = cs_id session) /\
    d4 = d3 <| db_runs := db_runs d4 |>).
  { destruct (db_runs db !! cr_id run) as [r|]; cbn in Hadd |- *.
    - case_bool_decide as Hsame; [|done]. injection Hadd as <-. injection H4 as <-.
      rewrite Es' in Hsame. split_and!; [done|naive_solver congruence|by destruct d3].
    - injection Hadd as <-. rewrite commit_one in H4. apply insert_run_Some in H4 as [H4 ->].
      split_and!; [done..|by destruct d3]. }
  assert (Hsess : added (db_sessions db !! cs_id session) (cs_id session) session
      (closed_sessions db fs ts (db_sessions current)) (db_sessions d2) /\
    d2 = current <| db_sessions := db_sessions d2 |>).
  { unfold closed_sessions. destruct (db_sessions db !! cs_id session) as [x|]; cbn.
    - subst d2. rewrite Es'. by destruct current.
    - apply insert_session_Some in H2 as [H2 ->]. rewrite Es'. by destruct current. }
  assert (E5 : d5 = d4 <| db_projections ::= superseded db fs ts |>).
  { unfold superseded. destruct (newer_eligible_exists db fs).
    - injection H5 as <-. by destruct d4.
    - rewrite commit_supersede in H5. by injection H5 as <-. }
  destruct Hruns as (Hr1 & Hr2 & Hr3), Hsess as [Hs1 Hs2].
  assert (db_manifests d4 = db_manifests current /\ db_members d4 = db_members current /\
    db_projections d4 = db_projections current /\ db_sessions d4 = db_sessions d2 /\
    db_frames d4 = db_frames current /\ db_issues d4 = db_issues current /\
    db_client_state d4 = db_client_state current) as (F1 & F2 & F3 & F4 & F5)
    by (rewrite Hr3, <- H3, Hs2; done).
  assert (db_runs d3 = closed_runs db fs ts (db_runs current)) as F6
    by (rewrite <- H3, Hs2; unfold closed_runs; by rewrite Er').
  rewrite E5 in *. cbn in *. rewrite F1, F2, F3, F4, ?F5, F6 in *.
  assert (p = first_projection db fs ts (mf_frame_set_uid m)) as ->.
  { rewrite Eu in Ep. cbn in Ep. injection Ep as <-. unfold first_projection. by destruct (newer_eligible_exists db fs). }
  assert (pj_frame_set_uid (first_projection db fs ts (mf_frame_set_uid m)) = mf_frame_set_uid m) as Eq
    by (unfold first_projection; by case_match).
  rewrite Eq in *. split; cbn; eauto.
Qed.

(** ** The outcomes of [persist_frame_set_manifest] *)

Definition content_matches (existing : FrameSetManifest) (frame_set : SynchronizedFrameSet) : Prop :=
  fs_manifest_digest frame_set = Some (mf_manifest_digest existing) /\
  fs_manifest_json frame_set = Some (mf_manifest_json existing) /\
  mf_tenant_id existing = fs_tenant_id frame_set /\ mf_site_id existing = fs_site_id frame_set /\
  mf_processing_job_id existing = fs_processing_job_id frame_set /\
  mf_profile_digest existing = fs_profile_digest frame_set /\
  mf_authorized_subject existing = fs_authorized_subject frame_set /\
  mf_session_token_jti existing = fs_session_token_jti frame_set.

Lemma verify_existing_Ok m fs u : _verify_existing_manifest m fs = Ok u <-> content_matches m fs.
Proof.
  unfold _verify_existing_manifest, content_matches.
  bools. naive_solver.
Qed.

Lemma verify_existing_Raise m fs e : _verify_existing_manifest m fs = Raise e ->
  e = ManifestIntegrityError "frame_set_uid was reused with different manifest content".
Proof. unfold _verify_existing_manifest, raise_unless. case_match; congruence. Qed.

Lemma new_manifest_matches fs fresh ts m : new_manifest fs fresh ts = Some m -> content_matches m fs.
Proof.
  unfold new_manifest, content_matches. intros H.
  repeat (apply option_bind_Some in H as (? & ? & H)). by injection H as <-.
Qed.

(** What a call can do to the database it commits into. *)
Inductive persist_effect (db current : database) (fs : SynchronizedFrameSet) (ts now : Z)
    : database -> result manifest_error bool -> Prop :=
| effect_none r : r <> Ok true -> persist_effect db current fs ts now current r
| effect_projection uid m :
    fs_frame_set_uid fs = Some uid -> db_manifests db !! uid = Some m ->
    db_projections db !! uid = None -> db_projections current !! uid = None ->
    persist_effect db current fs ts now
      (current <| db_projections ::= <[uid := _new_delivery_projection uid now "ELIGIBLE" None]> |>)
      (Ok false)
| effect_manifest db' m ms session run :
    new_manifest_committed db current fs ts db' m ms session run ->
    persist_effect db current fs ts now db' (Ok true).

Lemma persist_has_effect db current fs created now db' r :
  persist_frame_set_manifest db current fs created now = (db', r) ->
  persist_effect db current fs (default now created) now db' r.
Proof.
  unfold persist_frame_set_manifest. intros H.
  case_match eqn:Em; [injection H as <- <-; by constructor|].
  destruct (_validate_v2_frame_set fs) as [u|e]; [|injection H as <- <-; by constructor].
  destruct (lookup_opt (db_manifests db) _) as [m|] eqn:El.
  - destruct (_verify_existing_manifest m fs) as [u'|e]; [|injection H as <- <-; by constructor].
    unfold lookup_opt in *. destruct (fs_frame_set_uid fs) as [uid|] eqn:Eu; [|done]. cbn in *.
    destruct (db_projections db !! uid) eqn:Ep; [injection H as <- <-; by constructor|].
    rewrite commit_one in H. unfold insert_projection in H. cbn in H.
    destruct (db_projections current !! uid) eqn:Ec; injection H as <- <-; [by constructor|].
    by eapply effect_projection.
  - destruct (manifest_writes _ _ _) as [writes|e] eqn:Ew; [|injection H as <- <-; by constructor].
    destruct (commit writes current) as [d|] eqn:Ec.
    + injection H as <- <-.
      destruct (manifest_writes_committed _ _ _ _ _ _ Ew Ec) as (m & ms & s & r & Hn).
      by eapply effect_manifest.
    + case_match; [|injection H as <- <-; by constructor].
      case_match; injection H as <- <-; by constructor.
Qed.

Lemma persist_true_valid db current fs created now db' :
  persist_frame_set_manifest db current fs created now = (db', Ok true) ->
  fs_identity_mode fs = IDENTITY_MODE_V2 /\ _validate_v2_frame_set fs = Ok tt /\
  lookup_opt (db_manifests db) (fs_frame_set_uid fs) = None.
Proof.
  unfold persist_frame_set_manifest. intros H.
  case_match eqn:Em; [done|]. apply negb_false_iff, bool_decide_eq_true in Em.
  destruct (_validate_v2_frame_set fs) as [[]|e]; [|done].
  destruct (lookup_opt _ _) eqn:El; [|done]. exfalso.
  repeat case_match; simplify_eq.
Qed.

(** ** The rows of the closed, superseded and new *)

Lemma close_session_idem ts s : close_session ts (close_session ts s) = close_session ts s.
Proof. by destruct s. Qed.
Lemma close_run_idem ts s : close_run ts (close_run ts s) = close_run ts s.
Proof. by destruct s. Qed.
Lemma supersede_idem ts s : supersede ts (supersede ts s) = supersede ts s.
Proof. by destruct s. Qed.

Lemma closed_sessions_lookup db fs ts t k :
  closed_sessions db fs ts t !! k =
  (if bool_decide (k ∈ cs_id <$> open_sessions db (fs_capture_session_id fs))
   then close_session ts <$> t !! k else t !! k).
Proof. apply alter_all_lookup, close_session_idem. Qed.

Lemma closed_runs_lookup db fs ts t k :
  closed_runs db fs ts t !! k =
  (if bool_decide (k ∈ cr_id <$> open_runs db (fs_capture_run_id fs))
   then close_run ts <$> t !! k else t !! k).
Proof. apply alter_all_lookup, close_run_idem. Qed.

Lemma superseded_lookup db fs ts t k :
  superseded db fs ts t !! k =
  (if newer_eligible_exists db fs then t !! k
   else if bool_decide (k ∈ (fun row => pj_frame_set_uid row.1) <$> eligible_rows db)
        then supersede ts <$> t !! k else t !! k).
Proof.
  unfold superseded. destruct (newer_eligible_exists db fs); [done|].
  apply alter_all_lookup, supersede_idem.
Qed.

Lemma superseded_is_Some db fs ts t k : is_Some (superseded db fs ts t !! k) <-> is_Some (t !! k).
Proof. rewrite superseded_lookup. repeat case_match; [done| |done]. by rewrite fmap_is_Some. Qed.

Lemma elem_of_open_sessions db but k : schema_ok db ->
  k ∈ cs_id <$> open_sessions db but <->
  exists s, db_sessions db !! k = Some s /\ cs_state s = "OPEN" /\ Some k <> but.
Proof.
  intros Hok. unfold open_sessions. rewrite list_elem_of_fmap. split.
  - intros (s & -> & [[Ho Hne] [j Hj]%elem_of_rows]%list_elem_of_filter).
    rewrite (so_session _ Hok _ _ Hj) in *. eauto.
  - intros (s & Hs & Ho & Hne). exists s. pose proof (so_session _ Hok _ _ Hs) as <-.
    split; [done|]. apply list_elem_of_filter. split; [done|]. apply elem_of_rows. eauto.
Qed.

Lemma elem_of_open_runs db but k : schema_ok db ->
  k ∈ cr_id <$> open_runs db but <->
  exists s, db_runs db !! k = Some s /\ cr_state s = "OPEN" /\ Some k <> but.
Proof.
  intros Hok. unfold open_runs. rewrite list_elem_of_fmap. split.
  - intros (s & -> & [[Ho Hne] [j Hj]%elem_of_rows]%list_elem_of_filter).
    destruct (so_run _ Hok _ _ Hj) as [<- _]. eauto.
  - intros (s & Hs & Ho & Hne). exists s. destruct (so_run _ Hok _ _ Hs) as [<- _].
    split; [done|]. apply list_elem_of_filter. split; [done|]. apply elem_of_rows. eauto.
Qed.

Lemma elem_of_eligible db k : schema_ok db ->
  k ∈ (fun row => pj_frame_set_uid row.1) <$> eligible_rows db <->
  exists p, db_projections db !! k = Some p /\ pj_live_state p = "ELIGIBLE".
Proof.
  intros Hok. unfold eligible_rows. rewrite list_elem_of_fmap. split.
  - intros ([p m] & -> & (q & [j Hj]%elem_of_rows & Hq)%list_elem_of_omap).
    apply option_bind_Some in Hq as (m' & Hm & Hq). case_bool_decide as He; [|done]. simplify_eq.
    exists p. destruct (so_projection _ Hok _ _ Hj) as [E _]. cbn. by rewrite E.
  - intros (p & Hp & He). destruct (so_projection _ Hok _ _ Hp) as [<- [m Hm]].
    exists (p, m). split; [done|]. apply list_elem_of_omap. exists p. split; [apply elem_of_rows; eauto|].
    rewrite Hm. cbn. by rewrite bool_decide_eq_true_2.
Qed.

(** ** Preservation *)

Lemma added_lookup {A} (was : option A) key row (t t' : gmap string A) k :
  added was key row t t' -> (is_Some was -> is_Some (t !! key)) ->
  (forall x, t !! k = Some x -> t' !! k = Some x) /\ is_Some (t' !! key) /\
  (forall x, t' !! k = Some x -> t !! k = Some x \/ (k = key /\ x = row)).
Proof.
  destruct was as [w|]; cbn; [intros -> Hk; split_and!; eauto|]. intros [Hn ->] _. split_and!.
  - intros x Hx. rewrite lookup_insert_ne; congruence.
  - rewrite lookup_insert_eq. eauto.
  - intros x. destruct (decide (key = k)) as [->|Hne];
      [rewrite lookup_insert_eq|rewrite lookup_insert_ne by done]; naive_solver.
Qed.

Lemma closed_sessions_is_Some db fs ts t k :
  is_Some (closed_sessions db fs ts t !! k) <-> is_Some (t !! k).
Proof. rewrite closed_sessions_lookup. case_match; [|done]. by rewrite fmap_is_Some. Qed.

Lemma closed_sessions_id db fs ts t k s :
  closed_sessions db fs ts t !! k = Some s -> exists s', t !! k = Some s' /\ cs_id s = cs_id s'.
Proof.
  rewrite closed_sessions_lookup. case_match; [|eauto].
  intros (s' & Hs & ->)%fmap_Some. eauto.
Qed.

Lemma closed_runs_id db fs ts t k r :
  closed_runs db fs ts t !! k = Some r ->
  exists r', t !! k = Some r' /\ cr_id r = cr_id r' /\ cr_capture_session_id r = cr_capture_session_id r'.
Proof.
  rewrite closed_runs_lookup. case_match; [|eauto].
  intros (s' & Hs & ->)%fmap_Some. eauto.
Qed.

Lemma closed_runs_keep db fs ts t k r :
  t !! k = Some r -> exists r', closed_runs db fs ts t !! k = Some r' /\ run_kept r r'.
Proof.
  rewrite closed_runs_lookup. intros ->. case_match; cbn; eexists; (split; [done|]); [right; by do 2 eexists|by left].
Qed.

Lemma closed_sessions_keep db fs ts t k s :
  t !! k = Some s -> exists s', closed_sessions db fs ts t !! k = Some s' /\ session_kept s s'.
Proof.
  rewrite closed_sessions_lookup. intros ->. case_match; cbn; eexists; (split; [done|]); [right; by do 2 eexists|by left].
Qed.

Lemma superseded_id db fs ts t k p :
  superseded db fs ts t !! k = Some p -> exists p', t !! k = Some p' /\ pj_frame_set_uid p = pj_frame_set_uid p'.
Proof.
  rewrite superseded_lookup. repeat case_match; [eauto| |eauto].
  intros (s' & Hs & ->)%fmap_Some. eauto.
Qed.

Section Committed.
Context db current fs ts db' m ms session run
  (Hc : new_manifest_committed db current fs ts db' m ms session run)
  (Hl : later db current).

Lemma committed_ids :
  fs_frame_set_uid fs = Some (mf_frame_set_uid m) /\ cs_id session = mf_capture_session_id m /\
  cr_id run = mf_capture_run_id m /\ cr_capture_session_id run = cs_id session.
Proof.
  destruct (nm_manifest _ _ _ _ _ _ _ _ _ Hc) as (fresh & _ & Hm%new_manifest_Some).
  pose proof (new_capture_session_Some _ _ _ (nm_session _ _ _ _ _ _ _ _ _ Hc)) as [Hs _].
  pose proof (new_capture_run_Some _ _ _ (nm_run _ _ _ _ _ _ _ _ _ Hc)) as (Hr & Hrs & _).
  naive_solver congruence.
Qed.

Lemma committed_sessions k :
  (forall s, db_sessions current !! k = Some s -> exists s', db_sessions db' !! k = Some s' /\ session_kept s s') /\
  is_Some (db_sessions db' !! cs_id session) /\
  (forall s, db_sessions db' !! k = Some s ->
     closed_sessions db fs ts (db_sessions current) !! k = Some s \/ (k = cs_id session /\ s = session)).
Proof.
  destruct (added_lookup _ _ _ _ _ k (nm_db_sessions _ _ _ _ _ _ _ _ _ Hc)) as (H1 & H2 & H3).
  { intros [s Hs]. apply closed_sessions_is_Some. destruct (later_sessions _ _ Hl _ _ Hs) as (s' & ? & _). eauto. }
  split_and!; [|done..]. intros s (s' & Hs & Hk)%(closed_sessions_keep db fs ts). eauto.
Qed.

Lemma committed_runs k :
  (forall r, db_runs current !! k = Some r -> exists r', db_runs db' !! k = Some r' /\ run_kept r r') /\
  (exists r, db_runs db' !! cr_id run = Some r /\ cr_capture_session_id r = cs_id session) /\
  (forall r, db_runs db' !! k = Some r ->
     closed_runs db fs ts (db_runs current) !! k = Some r \/ (k = cr_id run /\ r = run)).
Proof.
  pose proof (nm_db_runs _ _ _ _ _ _ _ _ _ Hc) as Ha.
  assert (is_Some (db_runs db !! cr_id run) -> is_Some (closed_runs db fs ts (db_runs current) !! cr_id run)) as Hs.
  { intros [r Hr]. destruct (later_runs _ _ Hl _ _ Hr) as (r1 & H1 & _).
    destruct (closed_runs_keep db fs ts _ _ _ H1) as (r2 & H2 & _). eauto. }
  destruct (added_lookup _ _ _ _ _ k Ha Hs) as (H1 & _ & H3). split_and!.
  - intros r Hr. destruct (closed_runs_keep db fs ts _ _ _ Hr) as (r' & Hr' & E). eauto.
  - destruct (db_runs db !! cr_id run) as [r|] eqn:Er; cbn in Ha.
    + destruct (later_runs _ _ Hl _ _ Er) as (r1 & E1 & F1).
      destruct (closed_runs_keep db fs ts _ _ _ E1) as (r2 & E2 & F2). rewrite Ha. exists r2.
      split; [done|]. rewrite (run_kept_session _ _ F2), (run_kept_session _ _ F1). by apply (nm_run_session _ _ _ _ _ _ _ _ _ Hc).
    + destruct Ha as [_ ->]. exists run. rewrite lookup_insert_eq. split; [done|]. apply committed_ids.
  - done.
Qed.

Lemma committed_manifests k x : db_manifests db' !! k = Some x <->
  db_manifests current !! k = Some x \/ (k = mf_frame_set_uid m /\ x = m).
Proof.
  rewrite (nm_db_manifests _ _ _ _ _ _ _ _ _ Hc). pose proof (nm_fresh _ _ _ _ _ _ _ _ _ Hc) as Hf.
  destruct (decide (mf_frame_set_uid m = k)) as [<-|Hne];
    [rewrite lookup_insert_eq|rewrite lookup_insert_ne by done]; naive_solver congruence.
Qed.

Lemma committed_projections k p : db_projections db' !! k = Some p <->
  (k <> mf_frame_set_uid m /\ superseded db fs ts (db_projections current) !! k = Some p) \/
  (k = mf_frame_set_uid m /\ p = first_projection db fs ts k).
Proof.
  rewrite (nm_db_projections _ _ _ _ _ _ _ _ _ Hc).
  destruct (decide (mf_frame_set_uid m = k)) as [<-|Hne];
    [rewrite lookup_insert_eq|rewrite lookup_insert_ne by done]; naive_solver congruence.
Qed.

Lemma committed_members x : x ∈ db_members db' ->
  x ∈ db_members current \/ mb_frame_set_uid x = mf_frame_set_uid m.
Proof.
  rewrite (nm_db_members _ _ _ _ _ _ _ _ _ Hc). intros [H|H]%elem_of_app; [by left|right].
  assert (Some x ∈ Some <$> ms) as Hx by (apply list_elem_of_fmap; eauto).
  rewrite <- (nm_members _ _ _ _ _ _ _ _ _ Hc) in Hx.
  apply list_elem_of_fmap in Hx as (f & Hf & _). symmetry in Hf. unfold new_member in Hf.
  destruct committed_ids as (Eu & _). rewrite Eu in Hf. cbn in Hf.
  repeat (apply option_bind_Some in Hf as (? & ? & Hf)). by injection Hf as <-.
Qed.

Lemma committed_later : later current db'.
Proof.
  split.
  - intros k. apply committed_sessions.
  - intros k. apply committed_runs.
  - apply map_subseteq_spec. intros k x Hx. apply committed_manifests. by left.
  - rewrite (nm_db_members _ _ _ _ _ _ _ _ _ Hc). by exists ms.
  - intros k Hk. destruct (decide (k = mf_frame_set_uid m)) as [->|Hne].
    + eexists. apply committed_projections. right. eauto.
    + destruct (proj2 (superseded_is_Some db fs ts _ k) Hk) as [p Hp]. exists p.
      apply committed_projections. by left.
Qed.

Lemma committed_schema : schema_ok current -> schema_ok db'.
Proof.
  intros Hok. destruct committed_ids as (Eu & Es & Er & Ers). split.
  - intros k s Hs. destruct (committed_sessions k) as (_ & _ & H).
    destruct (H _ Hs) as [(s' & Hs' & ->)%closed_sessions_id|[-> ->]]; [|done]. by eapply so_session.
  - intros k r Hr. destruct (committed_runs k) as (_ & _ & H).
    destruct (H _ Hr) as [(r' & Hr' & -> & ->)%closed_runs_id|[-> ->]].
    + destruct (so_run _ Hok _ _ Hr') as [? [s Hs]]. split; [done|].
      destruct (proj1 (committed_sessions _) s Hs) as (s' & ? & _). eauto.
    + split; [done|]. rewrite Ers. apply (committed_sessions (cs_id session)).
  - intros k x [Hx|[-> ->]]%committed_manifests.
    + destruct (so_manifest _ Hok _ _ Hx) as (? & r & Hr & <-). split; [done|].
      destruct (proj1 (committed_runs _) r Hr) as (r' & ? & Hk). exists r'. split; [done|by apply run_kept_session].
    + split; [done|]. rewrite <- Er, <- Es. apply (committed_runs (cr_id run)).
  - intros k p [[Hne (p' & Hp & ->)%superseded_id]|[-> ->]]%committed_projections.
    + destruct (so_projection _ Hok _ _ Hp) as [? [x Hx]]. split; [done|]. exists x.
      apply committed_manifests. by left.
    + split; [unfold first_projection; by case_match|]. exists m. apply committed_manifests. by right.
  - intros x [H|H]%committed_members.
    + destruct (so_member _ Hok _ H) as [y Hy]. exists y. apply committed_manifests. by left.
    + rewrite H. exists m. apply committed_manifests. by right.
  - apply (nm_sources _ _ _ _ _ _ _ _ _ Hc), Hok.
  - intros k k' x x' [Hx|[-> ->]]%committed_manifests [Hx'|[-> ->]]%committed_manifests E; [| | |done].
    + by eapply so_sequence.
    + by destruct (nm_unique _ _ _ _ _ _ _ _ _ Hc _ _ Hx) as [[] _].
    + destruct (nm_unique _ _ _ _ _ _ _ _ _ Hc _ _ Hx') as [Hn _]. by rewrite E in Hn.
Qed.
End Committed.

(** Two databases with the same tables but the projections. *)
Lemma set_projections_ok db t :
  schema_ok db ->
  (forall k p, t !! k = Some p -> pj_frame_set_uid p = k /\ is_Some (db_manifests db !! k)) ->
  (forall k, is_Some (db_projections db !! k) -> is_Some (t !! k)) ->
  schema_ok (db <| db_projections := t |>) /\ later db (db <| db_projections := t |>).
Proof.
  intros [H1 H2 H3 H4 H5 H6 H7] Hp Hs. split; [split; cbn; eauto|].
  split; cbn; [| |done..]; intros k x Hx; exists x; (split; [done|reflexivity]).
Qed.

Lemma persist_effect_ok db current fs ts now db' r :
  persist_effect db current fs ts now db' r -> schema_ok current -> later db current ->
  schema_ok db' /\ later current db'.
Proof.
  intros [r' _|uid m Hu Hm Hp Hn|db'' m ms session run Hc] Hok Hl.
  - done.
  - apply set_projections_ok; [done|..].
    + intros k p. destruct (decide (uid = k)) as [<-|Hne];
        [rewrite lookup_insert_eq|rewrite lookup_insert_ne by done].
      * intros [= <-]. split; [done|]. exists m. by eapply lookup_weaken; [|apply Hl].
      * apply (so_projection _ Hok).
    + intros k Hk. destruct (decide (uid = k)) as [<-|Hne];
        [rewrite lookup_insert_eq; eauto|by rewrite lookup_insert_ne].
  - split; [by eapply committed_schema|by eapply committed_later].
Qed.

(** What an update leaves: the latest state; that with one projection altered
    in place; or that with a new projection of a stored manifest. *)
Inductive projection_update (db current : database) (uid : string) (a l g rs : option string) (up : option Z) (now : Z)
    : database * result manifest_error bool -> Prop :=
| update_none r : r <> Ok true -> (r = Ok false <-> db_projections db !! uid = None /\ db_manifests db !! uid = None) ->
    projection_update db current uid a l g rs up now (current, r)
| update_changed p : db_projections db !! uid = Some p ->
    projection_update db current uid a l g rs up now
      (current <| db_projections ::= alter (flush_projection p (mkFrameSetDeliveryProjection (pj_frame_set_uid p)
         (default (pj_archive_state p) a) (default (pj_live_state p) l) (default (pj_legacy_relay_state p) g)
         (match rs with Some r => Some r | None => pj_last_reason p end) (default now up))) uid |>, Ok true)
| update_inserted : db_projections db !! uid = None -> is_Some (db_manifests db !! uid) -> db_projections current !! uid = None ->
    projection_update db current uid a l g rs up now
      (current <| db_projections ::= <[uid := mkFrameSetDeliveryProjection uid (default "ARCHIVE_DURABLE" a)
         (default "ELIGIBLE" l) (default "NOT_ENQUEUED" g) rs (default now up)]> |>, Ok true).

Lemma update_projection_cases db current uid a l g rs up now :
  projection_update db current uid a l g rs up now (update_delivery_projection db current uid a l g rs up now).
Proof.
  unfold update_delivery_projection. destruct (db_projections db !! uid) as [p|] eqn:Ep.
  - rewrite commit_one. cbn [update_projection]. unfold update_projection. destruct p. by apply (update_changed _ _ _ _ _ _ _ _ _ _ Ep).
  - destruct (db_manifests db !! uid) as [m|] eqn:Em; [|by apply update_none].
    rewrite commit_one. unfold insert_projection. cbn [pj_frame_set_uid _new_delivery_projection].
    match goal with |- context [db_projections current !! ?k] => change k with uid end.
    destruct (db_projections current !! uid) eqn:Ec; [apply update_none; [done|naive_solver]|].
    replace rs with (match rs with Some r => Some r | None => None end) at 1 by (by destruct rs). apply update_inserted; eauto.
Qed.

Lemma update_projection_ok db current uid a l g rs up now :
  schema_ok current -> later db current ->
  schema_ok (update_delivery_projection db current uid a l g rs up now).1 /\
  later current (update_delivery_projection db current uid a l g rs up now).1.
Proof.
  intros Hok Hl. destruct (update_projection_cases db current uid a l g rs up now) as [r _ _|p Hp|Hp Hm Hc]; cbn [fst].
  - by split.
  - apply set_projections_ok; [done| |]; intros k; destruct (decide (uid = k)) as [<-|Hne].
    + intros q. rewrite lookup_alter, decide_True by done. intros (x & Hx & ->)%fmap_Some. exact (so_projection _ Hok _ _ Hx).
    + rewrite lookup_alter_ne by done. apply (so_projection _ Hok).
    + rewrite lookup_alter, decide_True by done. by rewrite fmap_is_Some.
    + by rewrite lookup_alter_ne.
  - apply set_projections_ok; [done| |]; intros k; destruct (decide (uid = k)) as [<-|Hne].
    + intros q. rewrite lookup_insert_eq. intros [= <-]. split; [done|]. destruct Hm as [m Hm]. exists m. by eapply lookup_weaken; [|apply Hl].
    + rewrite lookup_insert_ne by done. apply (so_projection _ Hok).
    + rewrite lookup_insert_eq. eauto.
    + by rewrite lookup_insert_ne.
Qed.

(** ** Properties *)

(** Databases in the order they were committed, the latest first. Every
    transaction read some committed state, not necessarily the latest. *)
Inductive manifest_history (start : database) : list database -> Prop :=
| history_start : manifest_history start [start]
| history_persist read now h fs created clock now' r :
    manifest_history start (now :: h) -> read ∈ now :: h ->
    persist_frame_set_manifest read now fs created clock = (now', r) ->
    manifest_history start (now' :: now :: h)
| history_update read now h uid archive live legacy reason updated clock :
    manifest_history start (now :: h) -> read ∈ now :: h ->
    manifest_history start
      ((update_delivery_projection read now uid archive live legacy reason updated clock).1 :: now :: h).

Lemma history_later start h :
  manifest_history start h -> schema_ok start ->
  exists now past, h = now :: past /\ schema_ok now /\ Forall (fun old => later old now) h.
Proof.
  intros Hh Hok. induction Hh as [|read now h fs created clock now' r Hh IH Hin Hp
                                  |read now h uid a l g rs up clock Hh IH Hin].
  - exists start, []. split; [done|]. split; [done|]. apply Forall_singleton. reflexivity.
  - destruct IH as (? & ? & [= <- <-] & Hn & Hl). exists now', (now :: h).
    pose proof (proj1 (Forall_forall _ _) Hl _ Hin) as Hrl.
    destruct (persist_effect_ok _ _ _ _ _ _ _ (persist_has_effect _ _ _ _ _ _ _ Hp) Hn Hrl) as [H1 H2].
    split; [done|]. split; [done|]. constructor; [reflexivity|].
    eapply Forall_impl; [done|]. intros old Ho. by transitivity now.
  - destruct IH as (? & ? & [= <- <-] & Hn & Hl). eexists _, (now :: h). split; [done|].
    pose proof (proj1 (Forall_forall _ _) Hl _ Hin) as Hrl.
    destruct (update_projection_ok read now uid a l g rs up clock Hn Hrl) as [H1 H2].
    split; [done|]. constructor; [reflexivity|]. eapply Forall_impl; [done|]. intros old Ho. by transitivity now.
Qed.

(** C7: From consistent tables on, however transactions interleave — each persists a frame-set or
    changes a delivery projection, on any committed state it may have read —
    the archive stays referentially whole (every run belongs to a stored
    session, every manifest to a run of its own capture session, every
    projection and member to a manifest; no source frame is a member twice;
    no run numbers two sets alike), no manifest or member that was
    ever committed is changed or lost, and a capture session or run that was
    is still there, as it was or closed. *)
Theorem manifest_history_sound start now h :
  manifest_history start (now :: h) -> schema_ok start ->
  schema_ok now /\ Forall (fun old => later old now) h.
Proof.
  intros Hh Hok. destruct (history_later _ _ Hh Hok) as (? & ? & [= <- <-] & Hn & Hl).
  split; [done|]. by apply Forall_cons in Hl as [_ Hl].
Qed.

Lemma members_of_new db current fs ts db' m ms session run :
  new_manifest_committed db current fs ts db' m ms session run -> schema_ok current ->
  filter (fun x => mb_frame_set_uid x = mf_frame_set_uid m) (db_members db') = ms.
Proof.
  intros Hc Hok. rewrite (nm_db_members _ _ _ _ _ _ _ _ _ Hc), filter_app.
  rewrite filter_none.
  - rewrite app_nil_l. apply filter_all, Forall_forall. intros x Hx.
    assert (Some x ∈ Some <$> ms) as Hin by (apply list_elem_of_fmap; eauto).
    rewrite <- (nm_members _ _ _ _ _ _ _ _ _ Hc) in Hin.
    apply list_elem_of_fmap in Hin as (f & Hf & _). symmetry in Hf. unfold new_member in Hf.
    destruct (committed_ids _ _ _ _ _ _ _ _ _ Hc) as (Eu & _). rewrite Eu in Hf. cbn in Hf.
    repeat (apply option_bind_Some in Hf as (? & ? & Hf)). by injection Hf as <-.
  - intros x Hx E. destruct (so_member _ Hok _ Hx) as [y Hy]. rewrite E in Hy.
    pose proof (nm_fresh _ _ _ _ _ _ _ _ _ Hc). congruence.
Qed.

(** When a frame-set is newly persisted, one transaction has stored its
    manifest with exactly its content and the earliest member's capture time
    as freshness origin, its members in camera order with their identities,
    digests and paths, and a delivery projection; every capture session and
    run the transaction saw open is closed unless it is the set's own, and
    frames, issues and the relay's state are untouched. *)
Theorem persisted_manifest_complete db current fs created now db' :
  persist_frame_set_manifest db current fs created now = (db', Ok true) ->
  schema_ok db -> schema_ok current -> later db current ->
  exists uid m, fs_frame_set_uid fs = Some uid /\ db_manifests db' = <[uid := m]> (db_manifests current) /\
    db_manifests current !! uid = None /\ content_matches m fs /\
    mf_frame_set_id m = fs_frame_set_id fs /\
    (forall t, mf_freshness_origin_ms m = t <->
       t ∈ sf_timestamp_ms <$> member_values fs /\ forall t', t' ∈ sf_timestamp_ms <$> member_values fs -> t <= t') /\
    Some <$> filter (fun x => mb_frame_set_uid x = uid) (db_members db') =
      new_member (Some uid) <$> ordered_members fs /\
    db_projections db' !! uid = Some (first_projection db fs (default now created) uid) /\
    (forall k s, db_sessions db !! k = Some s -> cs_state s = "OPEN" ->
       fs_capture_session_id fs <> Some k -> exists s', db_sessions db' !! k = Some s' /\ cs_state s' = "CLOSED") /\
    (forall k r, db_runs db !! k = Some r -> cr_state r = "OPEN" ->
       fs_capture_run_id fs <> Some k -> exists r', db_runs db' !! k = Some r' /\ cr_state r' = "CLOSED") /\
    db_frames db' = db_frames current /\ db_issues db' = db_issues current /\
    db_client_state db' = db_client_state current.
Proof.
  intros Hp Hdb Hok Hl. apply persist_has_effect in Hp.
  inversion Hp as [r Hr| |? m ms session run Hc]; [done|]; subst.
  destruct (committed_ids _ _ _ _ _ _ _ _ _ Hc) as (Eu & Es & Er & _).
  destruct (nm_manifest _ _ _ _ _ _ _ _ _ Hc) as (fresh & Hmin & Hm).
  pose proof (new_manifest_Some _ _ _ _ Hm) as (_ & _ & _ & _ & _ & Eid & _ & _ & Ef).
  pose proof (nm_db_sessions _ _ _ _ _ _ _ _ _ Hc) as Hsess.
  pose proof (nm_db_runs _ _ _ _ _ _ _ _ _ Hc) as Hrun.
  exists (mf_frame_set_uid m), m. split_and!; [done|apply Hc|apply Hc|by eapply new_manifest_matches|done| | | | | |apply Hc..].
  - intros t. rewrite Ef, <- min_list_Some, Hmin. naive_solver.
  - rewrite (members_of_new _ _ _ _ _ _ _ _ _ Hc Hok), <- Eu. symmetry. apply Hc.
  - apply (committed_projections _ _ _ _ _ _ _ _ _ Hc). by right.
  - intros k s Hs Ho Hne. destruct (later_sessions _ _ Hl k s Hs) as (x & Hx & _).
    exists (close_session (default now created) x). split; [|done].
    assert (k <> cs_id session) as Hk.
    { intros ->. apply Hne. by apply (new_capture_session_Some _ _ _ (nm_session _ _ _ _ _ _ _ _ _ Hc)). }
    assert (closed_sessions db fs (default now created) (db_sessions current) !! k
            = Some (close_session (default now created) x)) as Hcl.
    { rewrite closed_sessions_lookup, bool_decide_eq_true_2, Hx; [done|].
      apply elem_of_open_sessions; [done|]. eauto. }
    destruct (db_sessions db !! cs_id session); cbn in Hsess; [by rewrite Hsess|].
    destruct Hsess as [_ ->]. by rewrite lookup_insert_ne.
  - intros k s Hs Ho Hne. destruct (later_runs _ _ Hl k _ Hs) as (x & Hx & _).
    exists (close_run (default now created) x). split; [|done].
    assert (k <> cr_id run) as Hk.
    { intros ->. apply Hne. by apply (new_capture_run_Some _ _ _ (nm_run _ _ _ _ _ _ _ _ _ Hc)). }
    assert (closed_runs db fs (default now created) (db_runs current) !! k
            = Some (close_run (default now created) x)) as Hcl.
    { rewrite closed_runs_lookup, bool_decide_eq_true_2, Hx; [done|].
      apply elem_of_open_runs; [done|]. eauto. }
    destruct (db_runs db !! cr_id run); cbn in Hrun; [by rewrite Hrun|].
    destruct Hrun as [_ ->]. by rewrite lookup_insert_ne.
Qed.

Lemma manifest_writes_any_time db fs ts ts' ws :
  manifest_writes db fs ts = Ok ws -> exists ws', manifest_writes db fs ts' = Ok ws'.
Proof.
  unfold manifest_writes. rewrite result_bind_Ok. intros (adds & Ha & Hw).
  destruct (min_list _) as [fresh|]; [|done].
  destruct (lookup_opt (db_runs db) _) as [r|]; cbn; [|by eauto]. case_bool_decide; [by eauto|done].
Qed.

(** Persisting is once-only. After a frame-set was newly persisted, the
    same call again — from the state it read then, or from any state after
    the commit, whatever other sessions have committed meanwhile — changes
    nothing and reports no new manifest. *)
Theorem persist_once db current fs created now db1 read later_now created' now' :
  persist_frame_set_manifest db current fs created now = (db1, Ok true) ->
  later db1 later_now -> read = db \/ later db1 read ->
  persist_frame_set_manifest read later_now fs created' now' = (later_now, Ok false).
Proof.
  intros Hp Hl Hread. destruct (persist_true_valid _ _ _ _ _ _ Hp) as (Hmode & Hvalid & Hnone).
  pose proof (persist_has_effect _ _ _ _ _ _ _ Hp) as He.
  inversion He as [r Hr| |? m ms session run Hc]; [done|]; subst db'.
  destruct (committed_ids _ _ _ _ _ _ _ _ _ Hc) as (Eu & _).
  destruct (nm_manifest _ _ _ _ _ _ _ _ _ Hc) as (fresh & _ & Hm).
  assert (_verify_existing_manifest m fs = Ok tt) as Hv
    by (apply verify_existing_Ok; by eapply new_manifest_matches).
  assert (forall d, later db1 d -> db_manifests d !! mf_frame_set_uid m = Some m) as Hin.
  { intros d Hd. eapply lookup_weaken; [|apply Hd].
    apply (committed_manifests _ _ _ _ _ _ _ _ _ Hc). by right. }
  assert (forall d, later db1 d -> is_Some (db_projections d !! mf_frame_set_uid m)) as Hpr.
  { intros d Hd. apply Hd. eexists. apply (committed_projections _ _ _ _ _ _ _ _ _ Hc). by right. }
  unfold persist_frame_set_manifest in Hp |- *. rewrite bool_decide_eq_true_2 in Hp |- * by done.
  cbn [negb] in Hp |- *. rewrite Hvalid in Hp |- *. rewrite Eu in Hp, Hnone |- *.
  cbn [lookup_opt mbind option_bind] in Hp, Hnone |- *. unfold lookup_opt in *. cbn [mbind option_bind] in *.
  destruct Hread as [->|Hr].
  - rewrite Hnone in Hp |- *. destruct (manifest_writes db fs (default now created)) as [ws|] eqn:Ew; [|done].
    destruct (manifest_writes_any_time _ _ _ (default now' created') _ Ew) as [ws' Ew']. rewrite Ew'.
    destruct (commit ws' later_now) as [d|] eqn:Ecommit.
    + exfalso. destruct (manifest_writes_committed _ _ _ _ _ _ Ew' Ecommit) as (m' & ms' & s' & r' & Hc').
      pose proof (nm_fresh _ _ _ _ _ _ _ _ _ Hc') as Hf.
      destruct (committed_ids _ _ _ _ _ _ _ _ _ Hc') as (Eu' & _).
      rewrite Eu in Eu'. injection Eu' as E. rewrite <- E, Hin in Hf by done. done.
    + by rewrite Hin, Hv by done.
  - rewrite (Hin _ Hr), Hv. by destruct (Hpr _ Hr) as [p ->].
Qed.

(** A frame-set whose identifier names a stored manifest with different
    content — digest, payload, or authorization scope — is refused with
    [ManifestIntegrityError], and the database stays as it is. *)
Theorem reused_uid_refused db current fs created now uid m :
  fs_identity_mode fs = IDENTITY_MODE_V2 -> _validate_v2_frame_set fs = Ok tt ->
  fs_frame_set_uid fs = Some uid -> db_manifests db !! uid = Some m -> ~ content_matches m fs ->
  persist_frame_set_manifest db current fs created now =
    (current, Raise (ManifestIntegrityError "frame_set_uid was reused with different manifest content")).
Proof.
  intros Hmode Hvalid Hu Hm Hne. unfold persist_frame_set_manifest, lookup_opt.
  rewrite bool_decide_eq_true_2 by done. cbn [negb]. rewrite Hvalid, Hu. cbn [mbind option_bind].
  rewrite Hm. destruct (_verify_existing_manifest m fs) as [u|e] eqn:Ev.
  - by apply verify_existing_Ok in Ev.
  - by rewrite (verify_existing_Raise _ _ _ Ev).
Qed.

(** ** Latest only *)

Definition eligible_in (db : database) (uid : string) : Prop :=
  exists p, db_projections db !! uid = Some p /\ pj_live_state p = "ELIGIBLE".

Definition single_eligible (db : database) : Prop :=
  forall k k', eligible_in db k -> eligible_in db k' -> k = k'.

(** Every manifest has its projection. *)
Definition all_projected (db : database) : Prop :=
  forall k, is_Some (db_manifests db !! k) -> is_Some (db_projections db !! k).

Lemma newer_eligible_exists_true db fs : schema_ok db ->
  newer_eligible_exists db fs = true <->
  exists k m, eligible_in db k /\ db_manifests db !! k = Some m /\
              fs_synchronized_at_ms fs < mf_synchronized_at_ms m.
Proof.
  intros Hok. unfold newer_eligible_exists. rewrite existsb_exists. split.
  - intros ([p m] & Hin & Hlt%Z.ltb_lt). apply list_elem_of_In in Hin. unfold eligible_rows in Hin.
    apply list_elem_of_omap in Hin as (q & [j Hj]%elem_of_rows & Hq).
    apply option_bind_Some in Hq as (m' & Hm & Hq). case_bool_decide as He; [|done]. simplify_eq.
    destruct (so_projection _ Hok _ _ Hj) as [E _]. rewrite E in Hm. exists j, m. split; [by exists p|done].
  - intros (k & m & (p & Hp & He) & Hm & Hlt). exists (p, m). split; [|by apply Z.ltb_lt].
    apply list_elem_of_In, list_elem_of_omap. exists p. split; [apply elem_of_rows; eauto|].
    destruct (so_projection _ Hok _ _ Hp) as [-> _]. rewrite Hm. cbn. by rewrite bool_decide_eq_true_2.
Qed.

(** What is eligible after a new manifest was committed: that manifest, or
    one that was and that the transaction did not see, or left for a newer
    one. *)
Lemma persisted_eligible db current fs ts db' m ms session run k :
  schema_ok db -> new_manifest_committed db current fs ts db' m ms session run -> eligible_in db' k ->
  (newer_eligible_exists db fs = false /\ k = mf_frame_set_uid m) \/
  (k <> mf_frame_set_uid m /\ eligible_in current k /\ (newer_eligible_exists db fs = true \/ ~ eligible_in db k)).
Proof.
  intros Hok Hc (p & Hp & He).
  apply (committed_projections _ _ _ _ _ _ _ _ _ Hc) in Hp as [[Hne Hp]|[-> ->]].
  - right. split; [done|]. rewrite superseded_lookup in Hp. destruct (newer_eligible_exists db fs).
    + split; [by exists p|by left].
    + case_bool_decide as Hin; [by apply fmap_Some in Hp as (q & _ & ->)|]. split; [by exists p|].
      right. intros (q & Hq & Heq). apply Hin, elem_of_eligible; eauto.
  - left. split; [|done]. unfold first_projection in He. by destruct (newer_eligible_exists db fs).
Qed.

(** C8: The live queue holds one frame-set. A frame-set is persisted by a
    transaction that reads [db], where at most one manifest is eligible for
    live delivery, and commits into [current], where every manifest has its
    projection. If no manifest became eligible in between, then afterwards
    every manifest has its projection, at most one is eligible, and whatever
    is was synchronised no earlier than whatever was eligible before and, if
    it was newly stored, than the new frame-set. (When another transaction
    persisted in between, two can be: [stale_persist_two_eligible].) *)
Theorem one_eligible_newest db current fs created now db' r :
  persist_frame_set_manifest db current fs created now = (db', r) ->
  schema_ok db -> schema_ok current -> later db current -> all_projected current -> single_eligible db ->
  (forall k, eligible_in current k -> eligible_in db k) ->
  all_projected db' /\ single_eligible db' /\
  forall k' m', eligible_in db' k' -> db_manifests db' !! k' = Some m' ->
    (r = Ok true -> fs_synchronized_at_ms fs <= mf_synchronized_at_ms m') /\
    (forall k m, eligible_in current k -> db_manifests current !! k = Some m ->
       mf_synchronized_at_ms m <= mf_synchronized_at_ms m').
Proof.
  intros Hp Hok Hokc Hl Hall Hone Hsame. apply persist_has_effect in Hp.
  assert (single_eligible current) as Honec by (intros k k' ?%Hsame ?%Hsame; by apply Hone).
  destruct Hp as [r Hr|uid m Hu Hm Hp Hn|db'' m ms session run Hc].
  - split; [done|]. split; [done|]. intros k' m' He Hm'. split; [done|].
    intros k m He1 Hm1. rewrite (Honec _ _ He1 He) in Hm1. by simplify_eq.
  - destruct (Hall uid); [|congruence]. exists m. by eapply lookup_weaken; [|apply Hl].
  - destruct (nm_manifest _ _ _ _ _ _ _ _ _ Hc) as (fresh & _ & Hm%new_manifest_Some).
    pose proof (fun k => persisted_eligible _ _ _ _ _ _ _ _ _ k Hok Hc) as Hcases.
    split_and!.
    + intros k [x Hx]. destruct (decide (k = mf_frame_set_uid m)) as [->|Hne].
      * eexists. apply (committed_projections _ _ _ _ _ _ _ _ _ Hc). by right.
      * apply (committed_manifests _ _ _ _ _ _ _ _ _ Hc) in Hx as [Hx|[? _]]; [|done].
        apply (later_projections current); [by eapply committed_later|apply Hall; eauto].
    + intros k k' H1%Hcases H2%Hcases.
      destruct H1 as [[E1 ->]|(N1 & H1 & [E1|G1])], H2 as [[E2 ->]|(N2 & H2 & [E2|G2])]; try congruence; try done;
        try (by destruct G1; apply Hsame); try (by destruct G2; apply Hsame). by apply Honec.
    + intros k' m' He Hm'. destruct Hm as (_ & _ & _ & _ & _ & _ & Hs & _).
      destruct (Hcases _ He) as [[E1 ->]|(N1 & H1 & [E1|[]])]; [| |by apply Hsame].
      * apply (committed_manifests _ _ _ _ _ _ _ _ _ Hc) in Hm' as [Hm'|[_ ->]].
        { pose proof (nm_fresh _ _ _ _ _ _ _ _ _ Hc). congruence. }
        split; [lia|]. intros k m1 He1 Hm1. rewrite Hs. apply Z.nlt_ge. intros Hlt.
        apply not_true_iff_false in E1. apply E1, newer_eligible_exists_true; [done|]. exists k, m1.
        split; [by apply Hsame|]. split; [|done]. apply Hsame in He1 as (q & Hq & _).
        destruct (so_projection _ Hok _ _ Hq) as [_ [m2 Hm2]]. rewrite Hm2. rewrite <- Hm1. symmetry. by eapply lookup_weaken; [|apply Hl].
      * apply newer_eligible_exists_true in E1 as (k2 & m2 & He2 & Hm2 & Hlt); [|done].
        rewrite (Hone _ _ He2 (Hsame _ H1)) in Hm2. apply (lookup_weaken _ (db_manifests current)) in Hm2; [|apply Hl].
        apply (committed_manifests _ _ _ _ _ _ _ _ _ Hc) in Hm' as [Hm'|[? _]]; [|done].
        simplify_eq. split; [lia|]. intros k m1 He1 Hm1. rewrite (Honec _ _ He1 H1) in Hm1. by simplify_eq.
Qed.

Lemma manifest_leb_order :
  (forall x y, manifest_leb x y = true \/ manifest_leb y x = true) /\
  (forall x y z, manifest_leb x y = true -> manifest_leb y z = true -> manifest_leb x z = true).
Proof.
  assert (forall x y : Z, (x <? y) = true \/ x = y \/ (y <? x) = true) as Hz by lia.
  assert (forall x y z : Z, (x <? y) = true -> (y <? z) = true -> (x <? z) = true) as Hz' by lia.
  split.
  - apply (lex_total mf_synchronized_at_ms Z.ltb Z.eqb); [done|apply Z.eqb_eq|].
    apply (lex_total mf_created_at_ms Z.ltb Z.eqb); [done|apply Z.eqb_eq|].
    intros. apply string_leb_total.
  - apply (lex_trans mf_synchronized_at_ms Z.ltb Z.eqb); [done|apply Z.eqb_eq|].
    apply (lex_trans mf_created_at_ms Z.ltb Z.eqb); [done|apply Z.eqb_eq|].
    intros *. apply string_leb_trans.
Qed.

Lemma manifest_leb_antisym x y :
  manifest_leb x y = true -> manifest_leb y x = true -> mf_frame_set_uid x = mf_frame_set_uid y.
Proof.
  unfold manifest_leb, lex_leb. cbn beta. rewrite !orb_true_iff, !andb_true_iff, !orb_true_iff,
    !andb_true_iff, !Z.ltb_lt, !Z.eqb_eq.
  intros [?|[? [?|[? H1]]]] [?|[? [?|[? H2]]]]; try lia. by apply string_leb_antisym.
Qed.

(** The first row in descending order is the greatest. *)
Lemma first_desc_Some (P : FrameSetManifest -> Prop) `{forall m, Decision (P m)} db m : schema_ok db ->
  first_desc (filter P (rows (db_manifests db))) = Some m <->
  db_manifests db !! mf_frame_set_uid m = Some m /\ P m /\
  forall k m', db_manifests db !! k = Some m' -> P m' -> manifest_leb m' m = true.
Proof.
  intros Hok. destruct manifest_leb_order as [Ht Htr].
  assert (forall x, x ∈ filter P (rows (db_manifests db)) <->
            P x /\ db_manifests db !! mf_frame_set_uid x = Some x) as Hin.
  { intros x. rewrite list_elem_of_filter, elem_of_rows. split; intros [HP Hx]; split; eauto.
    destruct Hx as [k Hk]. by destruct (so_manifest _ Hok _ _ Hk) as [-> _]. }
  unfold first_desc. split.
  - intros Hl. apply last_sort_by in Hl as [[HP Hm]%Hin Hmax]; [|done..].
    split_and!; [done..|]. intros k m' Hm' HP'. apply Hmax, Hin.
    by destruct (so_manifest _ Hok _ _ Hm') as [-> _].
  - intros (Hm & HP & Hmax).
    destruct (last (sort_by manifest_leb (filter P (rows (db_manifests db))))) as [x|] eqn:E.
    + apply last_sort_by in E as [Hx Hall]; [|done..]. apply Hin in Hx as [HPx Hx].
      assert (manifest_leb m x = true) as H1 by (apply Hall, Hin; done).
      pose proof (Hmax _ _ Hx HPx) as H2. rewrite (manifest_leb_antisym _ _ H2 H1) in Hx. congruence.
    + apply last_None, sort_by_nil_inv in E.
      assert (m ∈ filter P (rows (db_manifests db))) as Hn by (by apply Hin).
      rewrite E in Hn. by apply not_elem_of_nil in Hn.
Qed.

Lemma deliverable_spec db m : deliverable db m = true <->
  exists p, db_projections db !! mf_frame_set_uid m = Some p /\
            pj_archive_state p = "ARCHIVE_DURABLE" /\ pj_live_state p = "ELIGIBLE".
Proof.
  unfold deliverable. destruct (db_projections db !! _) as [p|]; [|naive_solver].
  bools. naive_solver.
Qed.

(** [get_newest_eligible_manifest] returns a manifest exactly when it is
    archive-durable and eligible and no other such manifest is newer by
    synchronisation time, then creation time, then identifier. *)
Theorem newest_eligible_spec db m : schema_ok db ->
  get_newest_eligible_manifest db = Some m <->
  db_manifests db !! mf_frame_set_uid m = Some m /\ deliverable db m = true /\
  forall k m', db_manifests db !! k = Some m' -> deliverable db m' = true -> manifest_leb m' m = true.
Proof. intros Hok. exact (first_desc_Some (fun m => deliverable db m = true) db m Hok). Qed.

(** [update_delivery_projection] changes the projection of a stored
    manifest, first making one if it has none, in exactly the fields it is
    given; for an unknown identifier it does nothing. *)
Theorem update_projection_effect db uid archive live legacy reason updated now db' found :
  update_delivery_projection db db uid archive live legacy reason updated now = (db', Ok found) ->
  schema_ok db ->
  (found = false <-> db_manifests db !! uid = None) /\
  (found = false -> db' = db) /\
  (found = true -> exists p,
     default (_new_delivery_projection uid now "ELIGIBLE" None) (db_projections db !! uid) = p /\
     db' = db <| db_projections ::= <[uid := mkFrameSetDeliveryProjection (pj_frame_set_uid p)
       (default (pj_archive_state p) archive) (default (pj_live_state p) live)
       (default (pj_legacy_relay_state p) legacy)
       (match reason with Some r => Some r | None => pj_last_reason p end)
       (default now updated)]> |>).
Proof.
  intros H Hok. pose proof (update_projection_cases db db uid archive live legacy reason updated now) as Hc. rewrite H in Hc.
  remember (db', Ok found) as out eqn:Eo. destruct Hc as [r Hr Hf|p Hp|Hp [m Hm] _]; injection Eo as E1 E2; subst.
  - assert (found = false) as -> by (by destruct found). destruct (proj1 Hf eq_refl) as [_ Hm]. by split_and!.
  - destruct (so_projection _ Hok _ _ Hp) as [_ [m Hm]]. split_and!; [by rewrite Hm|done|]. intros _. exists p. split; [by rewrite Hp|].
    assert (forall t t', t = t' -> db <| db_projections := t |> = db <| db_projections := t' |>) as Ht by by intros ? ? ->.
    apply Ht, map_eq. intros k. destruct (decide (uid = k)) as [<-|Hne]; [|by rewrite lookup_alter_ne, lookup_insert_ne].
    rewrite lookup_alter, decide_True, Hp, lookup_insert_eq by done. cbn. unfold flush_projection, flushed. cbn.
    do 5 f_equal; by case_bool_decide.
  - split_and!; [by rewrite Hm|done|]. intros _. eexists. rewrite Hp. split; [done|]. by destruct reason.
Qed.

(** ** Witnesses *)

Definition demo_member (camera session : string) (sequence timestamp_ms : Z) : StoredSyncFrame :=
  store_frame (H := transparent_hashing)
    ((input_frame camera timestamp_ms (Some sequence) "jpeg") <| in_identity_mode := "V2" |>
       <| in_source_session_id := Some session |> <| in_camera_stream_id := Some camera |>
       <| in_source_frame_uid := Some (camera +:+ ":" +:+ pretty sequence) |>
       <| in_content_digest := Some "digest" |> <| in_archive_state := ARCHIVE_DURABLE |>
       <| in_file_path := Some (camera +:+ ".jpg") |>).

Definition demo_set (uid session run : string) (n at_ms : Z) : SynchronizedFrameSet :=
  mkSynchronizedFrameSet n at_ms 10
    [("b", demo_member "b" "s2" n (at_ms + 10)); ("a", demo_member "a" "s1" n at_ms)] (Some 10)
    (Some session) (Some run) (Some uid) (Some ("digest-" +:+ uid)) (Some ("{" +:+ uid +:+ "}")) "V2"
    ARCHIVE_PENDING None 50 (at_ms + 100) 2 None None None None None None.

Definition demo_set1 := demo_set "u1" "c1" "r1" 1 100.
Definition demo_set2 := demo_set "u2" "c2" "r2" 2 200.

Definition demo_db1 : database :=
  (persist_frame_set_manifest empty_database empty_database demo_set1 (Some 300) 0).1.
Definition demo_db2 : database :=
  (persist_frame_set_manifest demo_db1 demo_db1 demo_set2 (Some 400) 0).1.

Example demo_persisted :
  (persist_frame_set_manifest demo_db1 demo_db1 demo_set2 (Some 400) 0).2 = Ok true /\
  mf_frame_set_uid <$> get_newest_eligible_manifest demo_db2 = Some "u2" /\
  mb_camera_stream_id <$> db_members demo_db2 = ["a"; "b"; "a"; "b"] /\
  cs_state <$> db_sessions demo_db2 !! "c1" = Some "CLOSED" /\
  pj_live_state <$> db_projections demo_db2 !! "u1" = Some "SUPERSEDED_BEFORE_OFFER".
Proof. by vm_compute. Qed.

Lemma demo_history : manifest_history empty_database [demo_db2; demo_db1; empty_database].
Proof.
  apply (history_persist _ demo_db1 demo_db1 [empty_database] demo_set2 (Some 400) 0 demo_db2 (Ok true));
    [|set_solver|by vm_compute].
  apply (history_persist _ empty_database empty_database [] demo_set1 (Some 300) 0 demo_db1 (Ok true));
    [constructor|set_solver|by vm_compute].
Qed.

Lemma demo_db1_persisted :
  persist_frame_set_manifest empty_database empty_database demo_set1 (Some 300) 0 = (demo_db1, Ok true).
Proof. by vm_compute. Qed.

Lemma demo_db1_ok : schema_ok demo_db1.
Proof.
  apply (persist_effect_ok _ _ _ _ _ _ _ (persist_has_effect empty_database empty_database demo_set1
    (Some 300) 0 demo_db1 (Ok true) demo_db1_persisted) empty_database_ok). reflexivity.
Qed.

Lemma manifest_history_sound_witness :
  schema_ok demo_db2 /\ Forall (fun old => later old demo_db2) [demo_db1; empty_database].
Proof. apply (manifest_history_sound empty_database); [apply demo_history|apply empty_database_ok]. Defined.

Lemma persisted_manifest_complete_witness : exists uid m,
  fs_frame_set_uid demo_set1 = Some uid /\ content_matches m demo_set1.
Proof.
  destruct (persisted_manifest_complete empty_database empty_database demo_set1 (Some 300) 0 demo_db1
    demo_db1_persisted empty_database_ok empty_database_ok (reflexivity _))
    as (uid & m & Hu & _ & _ & Hm & _).
  by exists uid, m.
Defined.

Lemma persist_once_witness :
  persist_frame_set_manifest empty_database demo_db1 demo_set1 None 500 = (demo_db1, Ok false).
Proof.
  apply (persist_once empty_database empty_database demo_set1 (Some 300) 0 demo_db1);
    [by vm_compute|reflexivity|by left].
Defined.

Definition forged_set1 := demo_set1 <| fs_manifest_json := Some "{}" |>.

Lemma demo_manifest1 : exists m, db_manifests demo_db1 !! "u1" = Some m /\ mf_manifest_json m = "{u1}".
Proof. vm_compute. by eexists. Qed.

Lemma reused_uid_refused_witness :
  (persist_frame_set_manifest demo_db1 demo_db1 forged_set1 None 500).1 = demo_db1.
Proof.
  destruct demo_manifest1 as (m & Hm & Hj).
  rewrite (reused_uid_refused demo_db1 demo_db1 forged_set1 None 500 "u1" m);
    [reflexivity|reflexivity|by vm_compute|reflexivity|exact Hm|].
  intros (_ & H & _). rewrite Hj in H. discriminate H.
Defined.

Lemma no_eligible : single_eligible empty_database.
Proof. by intros k k' (p & Hp & _). Qed.

(** The projection of the first set changes between the read and the commit
    of the second. *)
Definition demo_enqueued : database :=
  (update_delivery_projection demo_db1 demo_db1 "u1" None None (Some "RAW_ENQUEUED") None None 500).1.

Lemma demo_enqueued_ok : (schema_ok demo_enqueued /\ later demo_db1 demo_enqueued) /\ db_manifests demo_enqueued = db_manifests demo_db1.
Proof. split; [|by vm_compute]. unfold demo_enqueued. apply update_projection_ok; [apply demo_db1_ok|reflexivity]. Qed.

Lemma one_eligible_newest_witness :
  let '(db', r) := persist_frame_set_manifest demo_db1 demo_enqueued demo_set2 (Some 400) 0 in
  r = Ok true /\ single_eligible db' /\ pj_legacy_relay_state <$> db_projections db' !! "u1" = Some "RAW_ENQUEUED" /\
  mf_frame_set_uid <$> get_newest_eligible_manifest db' = Some "u2".
Proof.
  destruct (one_eligible_newest empty_database empty_database demo_set1 (Some 300) 0 demo_db1 (Ok true)
    demo_db1_persisted empty_database_ok empty_database_ok) as (H1 & H2 & _); [done|by intros k [m Hm]|apply no_eligible|done|].
  destruct demo_enqueued_ok as [[H3 H4] Em].
  destruct (persist_frame_set_manifest demo_db1 demo_enqueued demo_set2 (Some 400) 0) as [db' r] eqn:E.
  assert (forall (P : database * result manifest_error bool -> Prop), P (persist_frame_set_manifest demo_db1 demo_enqueued demo_set2 (Some 400) 0) -> P (db', r))
    as HP by (intros P HP; by rewrite <- E).
  split; [apply (HP (fun x => x.2 = Ok true)); by vm_compute|]. split.
  - apply (one_eligible_newest demo_db1 demo_enqueued demo_set2 (Some 400) 0 db' r E); [apply demo_db1_ok|exact H3|exact H4| |exact H2|].
    + intros k [m Hm]. rewrite Em in Hm. apply (later_projections _ _ H4), H1. exists m. exact Hm.
    + assert (map_Forall (fun k p => pj_live_state p = "ELIGIBLE" -> k = "u1") (db_projections demo_enqueued)) as Hf
        by (apply (bool_decide_unpack _); vm_compute; exact I).
      intros k (p & Hp & He). rewrite (Hf k p Hp He). eexists. split; [vm_compute; reflexivity|reflexivity].
  - split; [apply (HP (fun x => pj_legacy_relay_state <$> db_projections x.1 !! "u1" = Some "RAW_ENQUEUED")); by vm_compute|].
    apply (HP (fun x => mf_frame_set_uid <$> get_newest_eligible_manifest x.1 = Some "u2")). by vm_compute.
Defined.

(** Two transactions that both read the empty database: the second does not
    supersede what the first stored, and both sets stay eligible. *)
Example stale_persist_two_eligible :
  let '(db', r) := persist_frame_set_manifest empty_database demo_db1 demo_set2 (Some 400) 0 in
  r = Ok true /\ pj_live_state <$> db_projections db' !! "u1" = Some "ELIGIBLE" /\
  pj_live_state <$> db_projections db' !! "u2" = Some "ELIGIBLE".
Proof. by vm_compute. Qed.

Lemma newest_eligible_spec_witness : exists m,
  db_manifests demo_db1 !! mf_frame_set_uid m = Some m /\ deliverable demo_db1 m = true.
Proof.
  assert (exists m, get_newest_eligible_manifest demo_db1 = Some m) as [m Hm]
    by (vm_compute; by eexists).
  exists m. apply (newest_eligible_spec demo_db1 m demo_db1_ok) in Hm as (H1 & H2 & _). by split.
Defined.

Lemma update_projection_effect_witness :
  db_manifests demo_db1 !! "unknown" = None.
Proof.
  apply (update_projection_effect demo_db1 "unknown" None None (Some "RAW_ENQUEUED") None None 500
    demo_db1 false ltac:(by vm_compute) demo_db1_ok). reflexivity.
Defined.
