(* ===== verification/LatestLive.v ===== *)
(** * Latest-only live scheduling

    src/app/services/relay_v2/latest_live.py: [LatestLiveStore] keeps in the
    database which frame-set is in flight to the processor, the watermark of
    what was offered, and the job bound to a capture run. Each method is one
    transaction. [claim_latest] decides on the state it reads and then
    updates under conditions that are evaluated on the state it commits
    into; the two are separate arguments. *)

From S2P Require Import Prelude SyncModels Database ManifestStore.

(** [RuntimeError], [ValueError], and the [AttributeError] of an attribute
    of [None]. *)
Inductive live_error :=
| LiveRuntimeError (message : string)
| LiveValueError (message : string)
| LiveAttributeError.

Record FrameSetKey := mkFrameSetKey {
  key_capture_run_id : string;
  key_frame_set_id : Z;
  key_frame_set_uid : string;
}.

#[export] Instance FrameSetKey_settable : Settable FrameSetKey := fun x => mkFrameSetKey
  (key_capture_run_id x) (key_frame_set_id x) (key_frame_set_uid x).

#[export] Instance FrameSetKey_eq_dec : EqDecision FrameSetKey.
Proof. solve_decision. Defined.

Record CreditIdentity := mkCreditIdentity {
  credit_processor_instance_id : string;
  credit_stream_epoch : string;
  credit_credit_id : string;
}.

#[export] Instance CreditIdentity_settable : Settable CreditIdentity := fun x => mkCreditIdentity
  (credit_processor_instance_id x) (credit_stream_epoch x) (credit_credit_id x).

#[export] Instance CreditIdentity_eq_dec : EqDecision CreditIdentity.
Proof. solve_decision. Defined.

Record LiveFrameMember := mkLiveFrameMember {
  lm_source_frame_uid : string;
  lm_source_session_id : string;
  lm_camera_stream_id : string;
  lm_frame_sequence : Z;
  lm_capture_timestamp_ms : Z;
  lm_content_type : string;
  lm_image_size : Z;
  lm_content_digest : string;
  lm_file_path : string;
  lm_authorized_camera_id : option string;
  lm_camera_claim_id : option string;
  lm_authorized_subject : option string;
  lm_session_token_jti : option string;
}.

#[export] Instance LiveFrameMember_settable : Settable LiveFrameMember := fun x => mkLiveFrameMember
  (lm_source_frame_uid x) (lm_source_session_id x) (lm_camera_stream_id x) (lm_frame_sequence x)
  (lm_capture_timestamp_ms x) (lm_content_type x) (lm_image_size x) (lm_content_digest x)
  (lm_file_path x) (lm_authorized_camera_id x) (lm_camera_claim_id x) (lm_authorized_subject x)
  (lm_session_token_jti x).

#[export] Instance LiveFrameMember_eq_dec : EqDecision LiveFrameMember.
Proof. solve_decision. Defined.

Record ClaimedFrameSet := mkClaimedFrameSet {
  cl_key : FrameSetKey;
  cl_credit : CreditIdentity;
  cl_capture_session_id : string;
  cl_anchor_timestamp_ms : Z;
  cl_freshness_origin_ms : Z;
  cl_synchronization_span_ms : Z;
  cl_synchronized_at_ms : Z;
  cl_manifest_digest : string;
  cl_manifest_json : string;
  cl_offered_at_ms : Z;
  cl_members : list LiveFrameMember;
  cl_tenant_id : option string;
  cl_site_id : option string;
  cl_processing_job_id : option string;
  cl_profile_digest : option string;
  cl_authorized_subject : option string;
  cl_session_token_jti : option string;
}.

#[export] Instance ClaimedFrameSet_settable : Settable ClaimedFrameSet := fun x => mkClaimedFrameSet
  (cl_key x) (cl_credit x) (cl_capture_session_id x) (cl_anchor_timestamp_ms x)
  (cl_freshness_origin_ms x) (cl_synchronization_span_ms x) (cl_synchronized_at_ms x)
  (cl_manifest_digest x) (cl_manifest_json x) (cl_offered_at_ms x) (cl_members x)
  (cl_tenant_id x) (cl_site_id x) (cl_processing_job_id x) (cl_profile_digest x)
  (cl_authorized_subject x) (cl_session_token_jti x).

#[export] Instance ClaimedFrameSet_eq_dec : EqDecision ClaimedFrameSet.
Proof. solve_decision. Defined.

Definition authorized_camera_ids (c : ClaimedFrameSet) : list string :=
  sort_by String.leb (omap (fun m => if truthy_opt (lm_authorized_camera_id m)
                                     then lm_authorized_camera_id m else None) (cl_members c)).

Definition _key (manifest : FrameSetManifest) : FrameSetKey :=
  mkFrameSetKey (mf_capture_run_id manifest) (mf_frame_set_id manifest) (mf_frame_set_uid manifest).

Definition live_member (m : FrameSetMember) : LiveFrameMember :=
  mkLiveFrameMember (mb_source_frame_uid m) (mb_source_session_id m) (mb_camera_stream_id m)
    (mb_frame_sequence m) (mb_capture_timestamp_ms m) (mb_content_type m) (mb_image_size m)
    (mb_content_digest m) (mb_file_path m) (mb_authorized_camera_id m) (mb_camera_claim_id m)
    (mb_authorized_subject m) (mb_session_token_jti m).

Definition member_camera_leb (x y : FrameSetMember) : bool :=
  String.leb (mb_camera_stream_id x) (mb_camera_stream_id y).

Definition _snapshot (db : database) (manifest : FrameSetManifest) (credit : CreditIdentity)
    (offered_at_ms : Z) : ClaimedFrameSet :=
  mkClaimedFrameSet (_key manifest) credit (mf_capture_session_id manifest)
    (mf_anchor_timestamp_ms manifest) (mf_freshness_origin_ms manifest)
    (mf_synchronization_span_ms manifest) (mf_synchronized_at_ms manifest)
    (mf_manifest_digest manifest) (mf_manifest_json manifest) offered_at_ms
    (live_member <$> sort_by member_camera_leb
       (filter (fun m => mb_frame_set_uid m = mf_frame_set_uid manifest) (db_members db)))
    (mf_tenant_id manifest) (mf_site_id manifest) (mf_processing_job_id manifest)
    (mf_profile_digest manifest) (mf_authorized_subject manifest) (mf_session_token_jti manifest).

(** [a or b] for an optional integer. *)
Definition or_int (a : option Z) (b : Z) : Z :=
  match a with Some z => if z =? 0 then b else z | None => b end.

Definition fresh_state (updated_at_ms : Z) : RelayV2ClientState :=
  mkRelayV2ClientState None None None None None None None None None None None updated_at_ms.

Definition _ensure_state_row (db : database) (timestamp_ms : Z) : database :=
  match db_client_state db with
  | Some _ => db
  | None => db <| db_client_state := Some (fresh_state timestamp_ms) |>
  end.

(** The comparison of [(synchronized_at_ms, created_at_ms, frame_set_uid)]. *)
Definition manifest_gt (x y : FrameSetManifest) : bool := negb (manifest_leb x y).

Definition eligible_head (db : database) : option FrameSetManifest :=
  first_desc (filter (fun m => deliverable db m = true) (rows (db_manifests db))).

Definition newer_manifest (candidate current : FrameSetManifest) : bool :=
  if bool_decide (mf_capture_run_id candidate = mf_capture_run_id current)
  then mf_frame_set_id current <? mf_frame_set_id candidate
  else manifest_gt candidate current.

Definition _newest_eligible (db : database) (state : RelayV2ClientState)
    : result live_error (option FrameSetManifest) :=
  match eligible_head db, rc_watermark_frame_set_uid state with
  | None, _ => Ok None
  | Some candidate, None => Ok (Some candidate)
  | Some candidate, Some watermark_uid =>
      if bool_decide (rc_reoffer_frame_set_uid state = Some (mf_frame_set_uid candidate))
      then Ok (Some candidate)
      else match db_manifests db !! watermark_uid with
           | None => Raise (LiveRuntimeError "relay v2 offered watermark manifest is missing")
           | Some watermark => Ok (if newer_manifest candidate watermark then Some candidate else None)
           end
  end.

(** ** [claim_latest] *)

Definition take_flight (candidate : FrameSetManifest) (credit : CreditIdentity) (timestamp_ms : Z)
    (state : RelayV2ClientState) : RelayV2ClientState :=
  state <| rc_in_flight_frame_set_uid := Some (mf_frame_set_uid candidate) |>
        <| rc_in_flight_credit_id := Some (credit_credit_id credit) |>
        <| rc_in_flight_processor_instance_id := Some (credit_processor_instance_id credit) |>
        <| rc_in_flight_stream_epoch := Some (credit_stream_epoch credit) |>
        <| rc_in_flight_offered_at_ms := Some timestamp_ms |>
        <| rc_watermark_capture_run_id := Some (mf_capture_run_id candidate) |>
        <| rc_watermark_frame_set_id := Some (mf_frame_set_id candidate) |>
        <| rc_watermark_frame_set_uid := Some (mf_frame_set_uid candidate) |>
        <| rc_reoffer_frame_set_uid := None |> <| rc_updated_at_ms := timestamp_ms |>.

Definition offer (timestamp_ms : Z) (p : FrameSetDeliveryProjection) : FrameSetDeliveryProjection :=
  p <| pj_live_state := "OFFERED" |> <| pj_last_reason := None |> <| pj_updated_at_ms := timestamp_ms |>.

(** [UPDATE ... WHERE in_flight_frame_set_uid IS NULL], then
    [UPDATE ... WHERE archive_state = ... AND live_state = 'ELIGIBLE']; a
    count other than one rolls the transaction back. *)
Definition guarded_claim (now : database) (candidate : FrameSetManifest) (credit : CreditIdentity)
    (timestamp_ms : Z) : option database :=
  state ← db_client_state now;
  if negb (bool_decide (rc_in_flight_frame_set_uid state = None)) then None
  else
    p ← db_projections now !! mf_frame_set_uid candidate;
    if bool_decide (pj_archive_state p = "ARCHIVE_DURABLE") && bool_decide (pj_live_state p = "ELIGIBLE")
    then Some (now <| db_client_state := Some (take_flight candidate credit timestamp_ms state) |>
                   <| db_projections ::= <[mf_frame_set_uid candidate := offer timestamp_ms p]> |>)
    else None.

Definition claim_latest (read now : database) (credit : CreditIdentity) (offered_at_ms : option Z)
    (clock_ms : Z) : database * result live_error (option ClaimedFrameSet) :=
  let timestamp_ms := default clock_ms offered_at_ms in
  let ensured := _ensure_state_row now timestamp_ms in
  let state := default (fresh_state timestamp_ms) (db_client_state read) in
  match rc_in_flight_frame_set_uid state with
  | Some _ => (ensured, Ok None)
  | None =>
      match _newest_eligible read state with
      | Raise e => (now, Raise e)
      | Ok None => (ensured, Ok None)
      | Ok (Some candidate) =>
          match guarded_claim ensured candidate credit timestamp_ms with
          | None => (now, Ok None)
          | Some db' => (db', Ok (Some (_snapshot db' candidate credit timestamp_ms)))
          end
      end
  end.

(** ** Queries *)

Definition current_in_flight (db : database) : result live_error (option FrameSetKey) :=
  match db_client_state db ≫= rc_in_flight_frame_set_uid with
  | None => Ok None
  | Some uid =>
      match db_manifests db !! uid with
      | None => Raise (LiveRuntimeError "relay v2 in-flight manifest is missing")
      | Some manifest => Ok (Some (_key manifest))
      end
  end.

Definition unresolved_keys (db : database) : result live_error (list FrameSetKey) :=
  current ← current_in_flight db; Ok (option_list current).

Definition processing_job_for (db : database) (capture_run_id : string) : option string :=
  state ← db_client_state db;
  if bool_decide (rc_processing_job_capture_run_id state = Some capture_run_id)
  then rc_processing_job_id state else None.

(** The nullable watermark columns, as the key's attributes carry them. *)
Definition offered_watermark (db : database) : option (option string * option Z * string) :=
  state ← db_client_state db;
  uid ← rc_watermark_frame_set_uid state;
  Some (rc_watermark_capture_run_id state, rc_watermark_frame_set_id state, uid).

Definition snapshot_for_hello (db : database) : result live_error (option ClaimedFrameSet) :=
  let state := default (fresh_state 0) (db_client_state db) in
  match rc_in_flight_frame_set_uid state with
  | Some uid =>
      match db_manifests db !! uid with
      | None => Raise (LiveRuntimeError "relay v2 in-flight manifest is missing")
      | Some manifest =>
          let credit := mkCreditIdentity (or_str (rc_in_flight_processor_instance_id state) "")
                          (or_str (rc_in_flight_stream_epoch state) "")
                          (or_str (rc_in_flight_credit_id state) "") in
          Ok (Some (_snapshot db manifest credit (or_int (rc_in_flight_offered_at_ms state) 0)))
      end
  | None =>
      match _newest_eligible db state with
      | Raise e => Raise e
      | Ok candidate => Ok (option_map (fun m => _snapshot db m (mkCreditIdentity "" "" "") 0) candidate)
      end
  end.

Definition has_newer_eligible (db : database) (key : FrameSetKey) : bool :=
  match db_manifests db !! key_frame_set_uid key with
  | None => false
  | Some current =>
      if negb (bool_decide (_key current = key)) then false
      else match eligible_head db with
           | None => false
           | Some candidate => newer_manifest candidate current
           end
  end.

(** ** Transitions *)

Definition bind_processing_job (db : database) (capture_run_id processing_job_id : string)
    (updated_at_ms : option Z) (clock_ms : Z) : database * result live_error unit :=
  if negb (truthy capture_run_id && truthy processing_job_id)
  then (db, Raise (LiveValueError "capture run and processing job IDs are required"))
  else
    let timestamp_ms := or_int updated_at_ms clock_ms in
    let state := default (fresh_state timestamp_ms) (db_client_state db) in
    if bool_decide (rc_processing_job_capture_run_id state = Some capture_run_id) &&
       negb (bool_decide (rc_processing_job_id state = None)) &&
       negb (bool_decide (rc_processing_job_id state = Some processing_job_id))
    then (db, Raise (LiveRuntimeError "processing job changed within one capture run"))
    else (db <| db_client_state := Some (state
            <| rc_processing_job_capture_run_id := Some capture_run_id |>
            <| rc_processing_job_id := Some processing_job_id |>
            <| rc_updated_at_ms := timestamp_ms |>) |>, Ok tt).

Definition _matches_current (db : database) (key : FrameSetKey) : bool :=
  match db_client_state db with
  | None => false
  | Some state =>
      bool_decide (rc_in_flight_frame_set_uid state = Some (key_frame_set_uid key)) &&
      match db_manifests db !! key_frame_set_uid key with
      | None => false
      | Some manifest => bool_decide (_key manifest = key)
      end
  end.

Definition release_flight (state : RelayV2ClientState) : RelayV2ClientState :=
  state <| rc_in_flight_frame_set_uid := None |> <| rc_in_flight_credit_id := None |>
        <| rc_in_flight_processor_instance_id := None |> <| rc_in_flight_stream_epoch := None |>
        <| rc_in_flight_offered_at_ms := None |>.

Definition set_live (live_state : string) (reason : option string) (timestamp_ms : Z)
    (p : FrameSetDeliveryProjection) : FrameSetDeliveryProjection :=
  p <| pj_live_state := live_state |> <| pj_last_reason := reason |> <| pj_updated_at_ms := timestamp_ms |>.

(** The projection of [key] gets a live state, the client state changes. *)
Definition write_transition (db : database) (key : FrameSetKey) (live_state : string)
    (reason : option string) (timestamp_ms : Z) (f : RelayV2ClientState -> RelayV2ClientState)
    : database * result live_error bool :=
  if negb (_matches_current db key) then (db, Ok false)
  else match db_projections db !! key_frame_set_uid key with
       | None => (db, Raise LiveAttributeError)
       | Some p =>
           (db <| db_projections ::= <[key_frame_set_uid key := set_live live_state reason timestamp_ms p]> |>
               <| db_client_state ::= fmap (fun s => (f s) <| rc_updated_at_ms := timestamp_ms |>) |>,
            Ok true)
       end.

Definition _transition_current (db : database) (key : FrameSetKey) (live_state : string)
    (reason : option string) (release : bool) (updated_at_ms : option Z) (clock_ms : Z)
    : database * result live_error bool :=
  write_transition db key live_state reason (or_int updated_at_ms clock_ms)
    (if release then release_flight else id).

Definition mark_unresolved (db : database) (key : FrameSetKey) (reason : string)
    (updated_at_ms : option Z) (clock_ms : Z) : database * result live_error bool :=
  _transition_current db key "UNRESOLVED" (Some reason) false updated_at_ms clock_ms.

Definition remote_states : list string :=
  ["ACCEPTED"; "STARTED"; "REJECTED"; "COMPLETED"; "FAILED"; "RECOVERY_REQUIRED"].
Definition releasing_states : list string := ["REJECTED"; "COMPLETED"; "FAILED"; "RECOVERY_REQUIRED"].

Definition apply_remote_status (db : database) (key : FrameSetKey) (state : string)
    (reason : option string) (updated_at_ms : option Z) (clock_ms : Z)
    : database * result live_error bool :=
  let normalized := upper (strip state) in
  if negb (bool_decide (normalized ∈ remote_states))
  then (db, Raise (LiveValueError ("unsupported relay v2 status: " +:+ state)))
  else _transition_current db key normalized reason (bool_decide (normalized ∈ releasing_states))
         updated_at_ms clock_ms.

Definition presend_states : list string := ["EXPIRED_BEFORE_OFFER"; "REJECTED"].

Definition release_before_send (db : database) (key : FrameSetKey) (state reason : string)
    (updated_at_ms : option Z) (clock_ms : Z) : database * result live_error bool :=
  let normalized := upper (strip state) in
  if negb (bool_decide (normalized ∈ presend_states))
  then (db, Raise (LiveValueError ("unsupported pre-send state: " +:+ state)))
  else _transition_current db key normalized (Some reason) true updated_at_ms clock_ms.

Definition retire_eligible (db : database) (key : FrameSetKey) (state reason : string)
    (updated_at_ms : option Z) (clock_ms : Z) : database * bool :=
  match db_manifests db !! key_frame_set_uid key with
  | None => (db, false)
  | Some manifest =>
      if negb (bool_decide (_key manifest = key)) then (db, false)
      else match db_projections db !! key_frame_set_uid key with
           | None => (db, false)
           | Some p =>
               if negb (bool_decide (pj_live_state p = "ELIGIBLE")) then (db, false)
               else (db <| db_projections ::= <[key_frame_set_uid key :=
                       set_live state (Some reason) (or_int updated_at_ms clock_ms) p]> |>, true)
           end
  end.

Definition reconcile_not_found (db : database) (key : FrameSetKey) (retry_allowed : bool)
    (updated_at_ms : option Z) (clock_ms : Z) : database * result live_error bool :=
  write_transition db key
    (if retry_allowed then "ELIGIBLE" else "SUPERSEDED_BEFORE_OFFER")
    (Some (if retry_allowed then "RECONCILED_NOT_FOUND_RETRY" else "RECONCILED_NOT_FOUND_NEWER_AVAILABLE"))
    (or_int updated_at_ms clock_ms)
    (fun s => (release_flight s)
       <| rc_reoffer_frame_set_uid := if retry_allowed then Some (key_frame_set_uid key) else None |>).

(** ** States of a delivery projection *)

(** Offered and not yet resolved. *)
Definition flight_states : list string := ["OFFERED"; "UNRESOLVED"; "ACCEPTED"; "STARTED"].

Definition in_flight (db : database) : option string := db_client_state db ≫= rc_in_flight_frame_set_uid.

Definition live_state_of (db : database) (uid : string) : option string :=
  pj_live_state <$> db_projections db !! uid.

(** The client state of a database, whether or not the row was made. *)
Definition client_state (db : database) : RelayV2ClientState :=
  default (fresh_state 0) (db_client_state db).

(** The states the projection of the frame-set in flight may be in: when a
    persist supersedes what has been offered meanwhile, its projection says
    superseded while it still is in flight. [exact] excludes that. *)
Definition shown (exact : bool) : list string :=
  if exact then flight_states else "SUPERSEDED_BEFORE_OFFER" :: flight_states.

Record live_ok (exact : bool) (db : database) : Prop := {
  lo_schema : schema_ok db;
  lo_flight : forall uid, in_flight db = Some uid ->
    exists s, live_state_of db uid = Some s /\ s ∈ shown exact;
  lo_unique : forall uid s, live_state_of db uid = Some s -> s ∈ flight_states -> in_flight db = Some uid;
  lo_credit : let s := client_state db in
    (rc_in_flight_frame_set_uid s = None <-> rc_in_flight_credit_id s = None) /\
    (rc_in_flight_frame_set_uid s = None <-> rc_in_flight_processor_instance_id s = None) /\
    (rc_in_flight_frame_set_uid s = None <-> rc_in_flight_stream_epoch s = None) /\
    (rc_in_flight_frame_set_uid s = None <-> rc_in_flight_offered_at_ms s = None);
  lo_watermark_flight : forall uid, in_flight db = Some uid ->
    rc_watermark_frame_set_uid (client_state db) = Some uid;
  lo_watermark : let s := client_state db in forall uid, rc_watermark_frame_set_uid s = Some uid ->
    exists m, db_manifests db !! uid = Some m /\ rc_watermark_capture_run_id s = Some (mf_capture_run_id m) /\
              rc_watermark_frame_set_id s = Some (mf_frame_set_id m);
}.

Lemma in_flight_client db : in_flight db = rc_in_flight_frame_set_uid (client_state db).
Proof. unfold in_flight, client_state. by destruct (db_client_state db). Qed.

Lemma eligible_in_state db uid : eligible_in db uid <-> live_state_of db uid = Some "ELIGIBLE".
Proof.
  unfold eligible_in, live_state_of. rewrite fmap_Some. split; intros (p & Hp & He); by exists p.
Qed.

Lemma eligible_not_flight : "ELIGIBLE" ∉ flight_states.
Proof. apply (bool_decide_unpack _). vm_compute. exact I. Qed.

Lemma eligible_not_shown exact : "ELIGIBLE" ∉ shown exact.
Proof. destruct exact; apply (bool_decide_unpack _); vm_compute; exact I. Qed.

Lemma flight_shown exact s : s ∈ flight_states -> s ∈ shown exact.
Proof. destruct exact; [done|]. intros H. by constructor. Qed.

(** ** A general update

    Every method changes the projections and the client state only. *)

Lemma live_update_ok {exact} db t s :
  live_ok exact db ->
  let db' := db <| db_projections := t |> <| db_client_state := s |> in
  (forall k p, t !! k = Some p -> pj_frame_set_uid p = k /\ is_Some (db_manifests db !! k)) ->
  (forall k, is_Some (db_projections db !! k) -> is_Some (t !! k)) ->
  (forall uid, in_flight db' = Some uid -> exists x, live_state_of db' uid = Some x /\ x ∈ shown exact) ->
  (forall uid x, live_state_of db' uid = Some x -> x ∈ flight_states -> in_flight db' = Some uid) ->
  (let s := client_state db' in
    (rc_in_flight_frame_set_uid s = None <-> rc_in_flight_credit_id s = None) /\
    (rc_in_flight_frame_set_uid s = None <-> rc_in_flight_processor_instance_id s = None) /\
    (rc_in_flight_frame_set_uid s = None <-> rc_in_flight_stream_epoch s = None) /\
    (rc_in_flight_frame_set_uid s = None <-> rc_in_flight_offered_at_ms s = None)) ->
  (forall uid, in_flight db' = Some uid -> rc_watermark_frame_set_uid (client_state db') = Some uid) ->
  (let s := client_state db' in forall uid, rc_watermark_frame_set_uid s = Some uid ->
    exists m, db_manifests db !! uid = Some m /\ rc_watermark_capture_run_id s = Some (mf_capture_run_id m) /\
              rc_watermark_frame_set_id s = Some (mf_frame_set_id m)) ->
  live_ok exact db' /\ later db db'.
Proof.
  intros Hok db' H1 H2 H3 H4 H5 H6 H7.
  destruct (set_projections_ok db t (lo_schema _ _ Hok) H1 H2) as [[A1 A2 A3 A4 A5 A6 A7] [B1 B2 B3 B4 B5]].
  split; [|by split]. split; [by split|done..].
Qed.

Lemma insert_projection_table (db : database) uid p q :
  schema_ok db -> db_projections db !! uid = Some p -> pj_frame_set_uid q = pj_frame_set_uid p ->
  (forall k x, <[uid := q]> (db_projections db) !! k = Some x ->
     pj_frame_set_uid x = k /\ is_Some (db_manifests db !! k)) /\
  (forall k, is_Some (db_projections db !! k) -> is_Some (<[uid := q]> (db_projections db) !! k)).
Proof.
  intros Hok Hp Hq. split; intros k; destruct (decide (uid = k)) as [<-|Hne];
    rewrite ?lookup_insert_eq, ?lookup_insert_ne by done.
  - intros x [= <-]. rewrite Hq. by apply (so_projection _ Hok).
  - apply (so_projection _ Hok).
  - by eauto.
  - done.
Qed.

(** ** Claims *)

Lemma guarded_claim_Some now m credit ts db' :
  guarded_claim now m credit ts = Some db' <->
  exists s p, db_client_state now = Some s /\ rc_in_flight_frame_set_uid s = None /\
    db_projections now !! mf_frame_set_uid m = Some p /\
    pj_archive_state p = "ARCHIVE_DURABLE" /\ pj_live_state p = "ELIGIBLE" /\
    db' = now <| db_client_state := Some (take_flight m credit ts s) |>
              <| db_projections ::= <[mf_frame_set_uid m := offer ts p]> |>.
Proof.
  unfold guarded_claim. rewrite option_bind_Some. split.
  - intros (s & Hs & H). destruct (bool_decide (rc_in_flight_frame_set_uid s = None)) eqn:E1; [|done].
    apply bool_decide_eq_true in E1. cbn [negb] in H.
    apply option_bind_Some in H as (p & Hp & H). destruct (_ && _) eqn:E2; [|done]. injection H as <-.
    bools in E2. destruct E2 as [E2 E3]. eauto 10.
  - intros (s & p & Hs & Hf & Hp & Ha & He & ->). exists s. split; [done|]. rewrite Hf. cbn.
    rewrite Hp. cbn. by rewrite Ha, He.
Qed.

Lemma ensure_client_state now ts :
  exists s, db_client_state (_ensure_state_row now ts) = Some s /\
    db_projections (_ensure_state_row now ts) = db_projections now /\
    (db_client_state now = Some s \/ db_client_state now = None /\ s = fresh_state ts).
Proof.
  unfold _ensure_state_row. destruct (db_client_state now) eqn:E; cbn; [rewrite E; eauto|]. eauto 10.
Qed.

Lemma ensure_ok {exact} now ts : live_ok exact now -> live_ok exact (_ensure_state_row now ts) /\ later now (_ensure_state_row now ts).
Proof.
  intros Hok. unfold _ensure_state_row. destruct (db_client_state now) as [s|] eqn:E; [by split|].
  change (now <| db_client_state := Some (fresh_state ts) |>) with
    (now <| db_projections := db_projections now |> <| db_client_state := Some (fresh_state ts) |>).
  destruct Hok as [Hs H1 H2 H3 H4 H5]. apply live_update_ok.
  - by split.
  - apply (so_projection _ Hs).
  - done.
  - done.
  - intros uid x Hl Hx. specialize (H2 uid x Hl Hx). unfold in_flight in H2. by rewrite E in H2.
  - done.
  - done.
  - done.
Qed.

Lemma newest_eligible_Some db s m : schema_ok db -> _newest_eligible db s = Ok (Some m) ->
  eligible_head db = Some m /\ db_manifests db !! mf_frame_set_uid m = Some m /\
  (forall uid w, rc_watermark_frame_set_uid s = Some uid -> db_manifests db !! uid = Some w ->
     rc_reoffer_frame_set_uid s = Some (mf_frame_set_uid m) \/ newer_manifest m w = true).
Proof.
  intros Hok H. unfold _newest_eligible in H.
  assert (forall x, eligible_head db = Some x -> db_manifests db !! mf_frame_set_uid x = Some x) as Hx.
  { intros x Hx. by apply (first_desc_Some (fun m => deliverable db m = true)) in Hx as (Hx & _). }
  destruct (eligible_head db) as [c|] eqn:Eh; [|done].
  destruct (rc_watermark_frame_set_uid s) as [w|] eqn:Ew; [|injection H as <-; split_and!; [done|by apply Hx|done]].
  case_bool_decide as Er; [injection H as <-; split_and!; [done|by apply Hx|by left]|].
  destruct (db_manifests db !! w) as [wm|] eqn:Em; [|done]. destruct (newer_manifest c wm) eqn:En; [|done].
  injection H as <-. split_and!; [done|by apply Hx|]. intros uid w' E1 Hw. right. congruence.
Qed.

(** ** The effect of each method *)

Lemma claim_cases read now credit off clock db' r :
  claim_latest read now credit off clock = (db', r) ->
  let ts := default clock off in
  ((db' = now \/ db' = _ensure_state_row now ts) /\ forall c, r <> Ok (Some c)) \/
  exists m, r = Ok (Some (_snapshot db' m credit ts)) /\
    guarded_claim (_ensure_state_row now ts) m credit ts = Some db' /\
    _newest_eligible read (default (fresh_state ts) (db_client_state read)) = Ok (Some m) /\
    in_flight read = None.
Proof.
  intros H ts. unfold claim_latest in H. fold ts in H.
  destruct (rc_in_flight_frame_set_uid _) eqn:Ef; [injection H as <- <-; left; auto|].
  destruct (_newest_eligible _ _) as [[m|]|e] eqn:En; try (injection H as <- <-; left; auto; fail).
  destruct (guarded_claim _ _ _ _) as [d|] eqn:Eg; injection H as <- <-; [|left; auto].
  right. exists m. split_and!; [done..|]. unfold in_flight. by destruct (db_client_state read).
Qed.

Lemma guarded_claim_ok {exact} now m credit ts db' :
  live_ok exact now -> db_manifests now !! mf_frame_set_uid m = Some m ->
  guarded_claim now m credit ts = Some db' -> live_ok exact db' /\ later now db'.
Proof.
  intros Hok Hm (s & p & Hs & Hf & Hp & Ha & He & ->)%guarded_claim_Some.
  destruct (insert_projection_table now (mf_frame_set_uid m) p (offer ts p) (lo_schema _ _ Hok) Hp eq_refl) as [T1 T2].
  assert (in_flight now = None) as Hn by (unfold in_flight; by rewrite Hs).
  apply (live_update_ok now (<[mf_frame_set_uid m := offer ts p]> (db_projections now))
           (Some (take_flight m credit ts s)) Hok T1 T2); unfold in_flight, client_state; cbn.
  - intros uid [= <-]. exists "OFFERED". split; [|apply flight_shown; set_solver].
    unfold live_state_of. cbn. by rewrite lookup_insert_eq.
  - intros uid x Hx Hin.
    unfold live_state_of in Hx. cbn in Hx. destruct (decide (mf_frame_set_uid m = uid)) as [->|Hne]; [done|].
    rewrite lookup_insert_ne in Hx by done. pose proof (lo_unique _ _ Hok uid x Hx Hin). congruence.
  - split_and!; done.
  - by intros uid [= <-].
  - intros uid [= <-]. by exists m.
Qed.

Lemma claim_ok {exact} read now credit off clock :
  live_ok exact now -> schema_ok read -> later read now ->
  live_ok exact (claim_latest read now credit off clock).1 /\
  later now (claim_latest read now credit off clock).1.
Proof.
  intros Hok Hread Hl. destruct (claim_latest read now credit off clock) as [db' r] eqn:E. cbn [fst].
  destruct (ensure_ok now (default clock off) Hok) as [He Hle].
  destruct (claim_cases _ _ _ _ _ _ _ E) as [[[->| ->] _]|(m & _ & Hg & Hnew & _)]; [done|done|].
  destruct (newest_eligible_Some _ _ _ Hread Hnew) as (_ & Hm & _).
  assert (db_manifests (_ensure_state_row now (default clock off)) !! mf_frame_set_uid m = Some m) as Hm'.
  { eapply lookup_weaken; [|apply Hle]. eapply lookup_weaken; [done|apply Hl]. }
  destruct (guarded_claim_ok _ m _ _ _ He Hm' Hg) as [H1 H2].
  split; [done|by transitivity (_ensure_state_row now (default clock off))].
Qed.

(** [f] keeps the flight, or ends it; the watermark stays. *)
Definition keeps_flight (f : RelayV2ClientState -> RelayV2ClientState) : Prop := forall s, f s = s.
Definition ends_flight (f : RelayV2ClientState -> RelayV2ClientState) : Prop := forall s,
  rc_in_flight_frame_set_uid (f s) = None /\ rc_in_flight_credit_id (f s) = None /\
  rc_in_flight_processor_instance_id (f s) = None /\ rc_in_flight_stream_epoch (f s) = None /\
  rc_in_flight_offered_at_ms (f s) = None /\
  rc_watermark_frame_set_uid (f s) = rc_watermark_frame_set_uid s /\
  rc_watermark_capture_run_id (f s) = rc_watermark_capture_run_id s /\
  rc_watermark_frame_set_id (f s) = rc_watermark_frame_set_id s.

Lemma matches_current_true db key : _matches_current db key = true <->
  in_flight db = Some (key_frame_set_uid key) /\
  exists m, db_manifests db !! key_frame_set_uid key = Some m /\ _key m = key.
Proof.
  unfold _matches_current, in_flight. destruct (db_client_state db) as [s|]; cbn; [|naive_solver].
  bools. destruct (db_manifests db !! _) as [m|]; [bools|]; naive_solver.
Qed.

Lemma write_transition_Ok db key st reason ts f db' b :
  write_transition db key st reason ts f = (db', Ok b) ->
  (b = true <-> _matches_current db key = true) /\ (b = false -> db' = db) /\
  (b = true -> exists p s, db_projections db !! key_frame_set_uid key = Some p /\ db_client_state db = Some s /\
    db' = db <| db_projections := <[key_frame_set_uid key := set_live st reason ts p]> (db_projections db) |>
             <| db_client_state := Some ((f s) <| rc_updated_at_ms := ts |>) |>).
Proof.
  unfold write_transition. destruct (_matches_current db key) eqn:Em; cbn; [|by intros [= <- <-]].
  destruct (db_projections db !! _) as [p|]; [|done]. intros [= <- <-]. split_and!; [done..|].
  intros _. unfold _matches_current in Em. destruct (db_client_state db) as [s|] eqn:Es; [|done].
  exists p, s. rewrite <- Es. split_and!; [done..|]. cbn. by rewrite Es.
Qed.

(** With the invariant no transition raises. *)
Lemma write_transition_total {exact} db key st reason ts f :
  live_ok exact db -> exists db' b, write_transition db key st reason ts f = (db', Ok b).
Proof.
  intros Hok. unfold write_transition. destruct (_matches_current db key) eqn:Em; cbn; [|eauto].
  apply matches_current_true in Em as [Hf _].
  destruct (lo_flight _ _ Hok _ Hf) as (s & Hs & _). unfold live_state_of in Hs.
  destruct (db_projections db !! _); [eauto|done].
Qed.

Lemma write_transition_ok {exact} db key st reason ts f :
  live_ok exact db ->
  (keeps_flight f /\ st ∈ flight_states) \/ (ends_flight f /\ st ∉ flight_states) ->
  live_ok exact (write_transition db key st reason ts f).1 /\ later db (write_transition db key st reason ts f).1.
Proof.
  intros Hok Hf. destruct (write_transition_total db key st reason ts f Hok) as (db' & b & E).
  rewrite E. cbn [fst]. destruct (write_transition_Ok _ _ _ _ _ _ _ _ E) as (Hb & Hfalse & Htrue).
  destruct b; [|by rewrite Hfalse].
  destruct (Htrue eq_refl) as (p & s & Hp & Hs & ->). clear Htrue Hfalse E.
  destruct (proj1 (matches_current_true db key) (proj1 Hb eq_refl)) as [Hin _].
  destruct (insert_projection_table db _ p (set_live st reason ts p) (lo_schema _ _ Hok) Hp eq_refl) as [T1 T2].
  assert (client_state db = s) as Ec by (unfold client_state; by rewrite Hs).
  pose proof (lo_credit _ _ Hok) as Hcr. pose proof (lo_watermark_flight _ _ Hok) as Hwf.
  pose proof (lo_watermark _ _ Hok) as Hw. rewrite Ec in Hcr, Hw.
  assert (forall uid x, live_state_of (db <| db_projections :=
      <[key_frame_set_uid key := set_live st reason ts p]> (db_projections db) |>) uid = Some x ->
    x ∈ flight_states -> uid = key_frame_set_uid key /\ x = st) as Hone.
  { intros uid x Hx Hxin. unfold live_state_of in Hx. cbn in Hx.
    destruct (decide (key_frame_set_uid key = uid)) as [<-|Hne].
    - rewrite lookup_insert_eq in Hx. by injection Hx as <-.
    - rewrite lookup_insert_ne in Hx by done. pose proof (lo_unique _ _ Hok uid x Hx Hxin). congruence. }
  apply (live_update_ok db _ _ Hok T1 T2); unfold in_flight, client_state; cbn.
  - intros uid Hu. destruct Hf as [[Hf Hst]|[Hf _]]; [|by rewrite (proj1 (Hf s)) in Hu].
    rewrite Hf in Hu. unfold in_flight in Hin. rewrite Hs in Hin. cbn in Hin.
    assert (uid = key_frame_set_uid key) as -> by congruence.
    exists st. split; [|by apply flight_shown]. unfold live_state_of. cbn. by rewrite lookup_insert_eq.
  - intros uid x Hx Hxin. destruct (Hone uid x Hx Hxin) as [-> ->].
    destruct Hf as [[Hf Hst]|[_ Hf]]; [|done]. rewrite Hf. unfold in_flight in Hin. by rewrite Hs in Hin.
  - destruct Hf as [[Hf _]|[Hf _]]; [by rewrite Hf|].
    destruct (Hf s) as (-> & -> & -> & -> & -> & _). done.
  - intros uid Hu. destruct Hf as [[Hf Hst]|[Hf _]]; [|by rewrite (proj1 (Hf s)) in Hu].
    rewrite Hf in *. rewrite <- Ec. apply Hwf. unfold in_flight. by rewrite Hs.
  - destruct Hf as [[Hf _]|[Hf _]]; [by rewrite Hf|].
    destruct (Hf s) as (_ & _ & _ & _ & _ & -> & -> & ->). done.
Qed.

Lemma superseded_not_flight : "SUPERSEDED_BEFORE_OFFER" ∉ flight_states.
Proof. apply (bool_decide_unpack _). vm_compute. exact I. Qed.

Lemma session_inactive_not_flight : "SESSION_INACTIVE" ∉ flight_states.
Proof. apply (bool_decide_unpack _). vm_compute. exact I. Qed.

(** How a live state may change without the frame-set being offered: the last
    case is that of a persist that supersedes what it read as eligible. *)
Definition waiting_change (exact : bool) (before after : option string) : Prop :=
  after = before \/
  (before = None /\ (after = Some "ELIGIBLE" \/ after = Some "SUPERSEDED_BEFORE_OFFER")) \/
  (before = Some "ELIGIBLE" /\ exists s, after = Some s /\ s ∉ flight_states) \/
  (exact = false /\ is_Some before /\ after = Some "SUPERSEDED_BEFORE_OFFER").

Lemma waiting_change_flight {exact} before after s :
  waiting_change exact before after -> s ∈ flight_states -> after = Some s -> before = Some s.
Proof.
  pose proof eligible_not_flight. pose proof superseded_not_flight.
  intros [->|[[-> [->| ->]]|[[-> (s' & -> & Hs')]|(_ & _ & ->)]]] Hs; naive_solver.
Qed.

Lemma waiting_change_shown {exact} before after s :
  waiting_change exact before after -> s ∈ shown exact -> before = Some s ->
  exists s', after = Some s' /\ s' ∈ shown exact.
Proof.
  intros Hw Hs ->. destruct Hw as [->|[[[=] _]|[[[= ->] _]|(-> & _ & ->)]]]; [by eauto| |].
  - by apply eligible_not_shown in Hs.
  - eexists. split; [done|]. constructor.
Qed.

(** Persisting supersedes by primary key what it read as eligible; the persist
    is overtaken when one of these is no longer eligible. *)
Definition overtaken (read now : database) : Prop := exists uid, eligible_in read uid /\ ~ eligible_in now uid.

Lemma persist_waiting {exact} read db fs created clock uid :
  schema_ok read -> later read db -> (exact = true -> ~ overtaken read db) ->
  waiting_change exact (live_state_of db uid)
    (live_state_of (persist_frame_set_manifest read db fs created clock).1 uid).
Proof.
  intros Hok Hl Hel. destruct (persist_frame_set_manifest read db fs created clock) as [db' r] eqn:E. cbn [fst].
  apply persist_has_effect in E. destruct E as [r Hr|u m Hu Hm Hp Hn|db'' m ms session run Hc].
  - by left.
  - unfold live_state_of. cbn. destruct (decide (u = uid)) as [->|Hne].
    + rewrite Hn, lookup_insert_eq. right. left. auto.
    + rewrite lookup_insert_ne by done. by left.
  - unfold live_state_of at 2. destruct (db_projections db'' !! uid) as [p|] eqn:Ep; cbn.
    + apply (committed_projections _ _ _ _ _ _ _ _ _ Hc) in Ep as [[Hne Hp]|[-> ->]].
      * rewrite superseded_lookup in Hp. destruct (newer_eligible_exists read fs).
        { left. unfold live_state_of. by rewrite Hp. }
        case_bool_decide as Hin; [|left; unfold live_state_of; by rewrite Hp].
        apply elem_of_eligible in Hin; [|done].
        destruct (db_projections db !! uid) as [q|] eqn:Hq; [injection Hp as <-|done].
        right. right. unfold live_state_of. rewrite Hq. cbn. destruct exact; [left|right; by eauto].
        destruct (decide (pj_live_state q = "ELIGIBLE")) as [->|Hn'].
        { split; [done|]. eexists. split; [done|]. apply superseded_not_flight. }
        destruct (Hel eq_refl). exists uid. split; [done|]. intros (q' & Hq' & He). congruence.
      * right. left. unfold live_state_of.
        assert (db_projections db !! mf_frame_set_uid m = None) as ->.
        { apply eq_None_not_Some. intros H. apply (superseded_is_Some read fs (default clock created)) in H.
          rewrite (nm_projection_fresh _ _ _ _ _ _ _ _ _ Hc) in H. by destruct H. }
        split; [done|]. unfold first_projection. destruct (newer_eligible_exists read fs); auto.
    + left. unfold live_state_of. destruct (db_projections db !! uid) as [p|] eqn:Ep'; [|done].
      destruct (later_projections _ _ (committed_later _ _ _ _ _ _ _ _ _ Hc Hl) uid) as [q Hq];
        [eauto|congruence].
Qed.

Lemma waiting_ok {exact} db db' :
  live_ok exact db -> schema_ok db' -> later db db' -> db_client_state db' = db_client_state db ->
  (forall uid, waiting_change exact (live_state_of db uid) (live_state_of db' uid)) -> live_ok exact db'.
Proof.
  intros [H0 H1 H2 H3 H4 H5] Hs Hl Hc Hw.
  assert (in_flight db' = in_flight db) as Hf by (unfold in_flight; by rewrite Hc).
  assert (client_state db' = client_state db) as Hcs by (unfold client_state; by rewrite Hc).
  split; rewrite ?Hf, ?Hcs; [done| | |done|done|].
  - intros uid (s & Hst & Hin)%H1. by apply (waiting_change_shown _ _ s (Hw uid)).
  - intros uid s Hst Hin. eapply H2; [|done]. by apply (waiting_change_flight _ _ _ (Hw uid)).
  - intros s uid (m & Hm & Hr)%H5. exists m. split; [|done]. by eapply lookup_weaken; [|apply Hl].
Qed.

Lemma persist_client_state read db fs created clock :
  db_client_state (persist_frame_set_manifest read db fs created clock).1 = db_client_state db.
Proof.
  destruct (persist_frame_set_manifest read db fs created clock) as [db' r] eqn:E. cbn [fst].
  apply persist_has_effect in E. destruct E as [r Hr|u m Hu Hm Hp Hn|db'' m ms session run Hc]; [done..|].
  apply Hc.
Qed.

Lemma persist_live_ok {exact} read db fs created clock :
  live_ok exact db -> schema_ok read -> later read db -> (exact = true -> ~ overtaken read db) ->
  live_ok exact (persist_frame_set_manifest read db fs created clock).1 /\
  later db (persist_frame_set_manifest read db fs created clock).1.
Proof.
  intros Hok Hr Hl Hno. destruct (persist_effect_ok read db fs (default clock created) clock
    (persist_frame_set_manifest read db fs created clock).1
    (persist_frame_set_manifest read db fs created clock).2) as [H1 H2].
  - apply persist_has_effect. by destruct (persist_frame_set_manifest read db fs created clock).
  - apply Hok.
  - done.
  - split; [|done]. apply (waiting_ok db); [done..|apply persist_client_state|].
    intros uid. by apply persist_waiting.
Qed.

(** The pipeline never sets [live_state] itself. *)
Lemma projection_waiting {exact} read db u archive legacy reason updated clock uid :
  waiting_change exact (live_state_of db uid)
    (live_state_of (update_delivery_projection read db u archive None legacy reason updated clock).1 uid).
Proof.
  destruct (update_projection_cases read db u archive None legacy reason updated clock) as [r _ _|p Hp|Hp Hm Hc]; cbn [fst]; [by left| |];
    unfold live_state_of; cbn; (destruct (decide (u = uid)) as [->|Hne]).
  - left. rewrite lookup_alter, decide_True by done. destruct (db_projections db !! uid); [|done]. cbn. unfold flushed.
    by rewrite bool_decide_true.
  - left. by rewrite lookup_alter_ne.
  - rewrite Hc, lookup_insert_eq. right. left. auto.
  - left. by rewrite lookup_insert_ne.
Qed.

Lemma projection_client_state read db u archive live legacy reason updated clock :
  db_client_state (update_delivery_projection read db u archive live legacy reason updated clock).1 = db_client_state db.
Proof. by destruct (update_projection_cases read db u archive live legacy reason updated clock). Qed.

Lemma projection_live_ok {exact} read db u archive legacy reason updated clock :
  live_ok exact db -> later read db -> live_ok exact (update_delivery_projection read db u archive None legacy reason updated clock).1 /\
                later db (update_delivery_projection read db u archive None legacy reason updated clock).1.
Proof.
  intros Hok Hl. destruct (update_projection_ok read db u archive None legacy reason updated clock (lo_schema _ _ Hok) Hl) as [H1 H2].
  split; [|done]. apply (waiting_ok db); [done..|apply projection_client_state|intros uid; apply projection_waiting].
Qed.

Lemma retire_effect db key st reason updated clock db' b :
  retire_eligible db key st reason updated clock = (db', b) ->
  (b = false -> db' = db) /\
  (b = true -> exists p, db_projections db !! key_frame_set_uid key = Some p /\ pj_live_state p = "ELIGIBLE" /\
     db' = db <| db_projections ::= <[key_frame_set_uid key :=
             set_live st (Some reason) (or_int updated clock) p]> |>).
Proof.
  unfold retire_eligible. destruct (db_manifests db !! _); [|naive_solver].
  destruct (bool_decide (_key f = key)); cbn [negb]; [|naive_solver].
  destruct (db_projections db !! _) as [p|]; [|naive_solver].
  destruct (bool_decide (pj_live_state p = "ELIGIBLE")) eqn:E; cbn [negb]; [|naive_solver].
  apply bool_decide_eq_true in E. intros [= <- <-]. split; [done|]. eauto.
Qed.

Lemma retire_waiting {exact} db key st reason updated clock uid :
  st ∉ flight_states ->
  waiting_change exact (live_state_of db uid) (live_state_of (retire_eligible db key st reason updated clock).1 uid).
Proof.
  intros Hst. destruct (retire_eligible db key st reason updated clock) as [db' b] eqn:E. cbn [fst].
  destruct (retire_effect _ _ _ _ _ _ _ _ E) as [H1 H2]. destruct b; [|rewrite H1 by done; by left].
  destruct (H2 eq_refl) as (p & Hp & He & ->). unfold live_state_of. cbn.
  destruct (decide (key_frame_set_uid key = uid)) as [<-|Hne]; [|rewrite lookup_insert_ne by done; by left].
  rewrite Hp, lookup_insert_eq. right. right. left. cbn. rewrite He. eauto.
Qed.

Lemma retire_live_ok {exact} db key st reason updated clock :
  live_ok exact db -> st ∉ flight_states ->
  live_ok exact (retire_eligible db key st reason updated clock).1 /\
  later db (retire_eligible db key st reason updated clock).1.
Proof.
  intros Hok Hst. assert (schema_ok (retire_eligible db key st reason updated clock).1 /\
    later db (retire_eligible db key st reason updated clock).1 /\
    db_client_state (retire_eligible db key st reason updated clock).1 = db_client_state db) as (H1 & H2 & H3).
  { destruct (retire_eligible db key st reason updated clock) as [db' b] eqn:E. cbn [fst].
    destruct (retire_effect _ _ _ _ _ _ _ _ E) as [H1 H2].
    destruct b; [|rewrite H1 by done; split; [apply Hok|done]].
    destruct (H2 eq_refl) as (p & Hp & He & ->).
    destruct (insert_projection_table db _ p (set_live st (Some reason) (or_int updated clock) p)
                (lo_schema _ _ Hok) Hp eq_refl) as [T1 T2].
    destruct (set_projections_ok db _ (lo_schema _ _ Hok) T1 T2). by split_and!. }
  split; [|done]. apply (waiting_ok db); [done..|]. intros uid. by apply retire_waiting.
Qed.

Lemma bind_live_ok {exact} db run job updated clock :
  live_ok exact db -> live_ok exact (bind_processing_job db run job updated clock).1 /\
                later db (bind_processing_job db run job updated clock).1.
Proof.
  intros Hok. unfold bind_processing_job.
  destruct (negb _); [by split|]. destruct (_ && _); [by split|]. cbn [fst].
  set (s := default _ _).
  assert (client_state db = s \/ client_state db = fresh_state 0 /\ s = fresh_state (or_int updated clock)) as Hs.
  { unfold client_state, s. destruct (db_client_state db); auto. }
  pose proof (in_flight_client db) as Hf. destruct Hok as [H0 H1 H2 H3 H4 H5].
  assert (rc_in_flight_frame_set_uid s = in_flight db) as E1
    by (rewrite Hf; destruct Hs as [<-|[-> ->]]; done).
  set (s' := s <| rc_processing_job_capture_run_id := _ |> <| rc_processing_job_id := _ |> <| rc_updated_at_ms := _ |>).
  apply (live_update_ok db (db_projections db) (Some s')).
  - by split.
  - apply (so_projection _ H0).
  - done.
  - intros uid. change (in_flight _) with (rc_in_flight_frame_set_uid s). rewrite E1. apply H1.
  - intros uid x Hx Hin. change (in_flight _) with (rc_in_flight_frame_set_uid s). rewrite E1. by eapply H2.
  - destruct Hs as [E|[_ E]]; [rewrite E in H3; exact H3|]. unfold client_state. cbn. rewrite E. done.
  - intros uid. change (in_flight _) with (rc_in_flight_frame_set_uid s). rewrite E1. intros Hu.
    specialize (H4 uid Hu). destruct Hs as [E|[E _]]; [rewrite E in H4; exact H4|by rewrite E in H4].
  - destruct Hs as [E|[_ E]]; [rewrite E in H5; exact H5|]. unfold client_state. cbn. rewrite E. done.
Qed.

(** ** Histories

    What the ingest pipeline and the relay client do to the database. *)
Inductive live_event :=
| LePersist (frame_set : SynchronizedFrameSet) (created_at_ms : option Z) (clock_ms : Z)
| LeProjection (uid : string) (archive legacy reason : option string) (updated : option Z) (clock_ms : Z)
| LeClaim (credit : CreditIdentity) (offered_at_ms : option Z) (clock_ms : Z)
| LeBind (capture_run_id processing_job_id : string) (updated : option Z) (clock_ms : Z)
| LeUnresolved (key : FrameSetKey) (reason : string) (updated : option Z) (clock_ms : Z)
| LeRemote (key : FrameSetKey) (state : string) (reason : option string) (updated : option Z) (clock_ms : Z)
| LeBeforeSend (key : FrameSetKey) (state reason : string) (updated : option Z) (clock_ms : Z)
| LeRetire (key : FrameSetKey) (reason : string) (updated : option Z) (clock_ms : Z)
| LeNotFound (key : FrameSetKey) (retry_allowed : bool) (updated : option Z) (clock_ms : Z).

Definition claimed (r : result live_error (option ClaimedFrameSet)) : list ClaimedFrameSet :=
  match r with Ok (Some c) => [c] | _ => [] end.

(** The database after an event and the frame-set it claimed. A claim, and
    what the pipeline writes, has read the state [read]. *)
Definition event_step (read now : database) (ev : live_event) : database * list ClaimedFrameSet :=
  match ev with
  | LePersist fs created clock => ((persist_frame_set_manifest read now fs created clock).1, [])
  | LeProjection uid archive legacy reason updated clock =>
      ((update_delivery_projection read now uid archive None legacy reason updated clock).1, [])
  | LeClaim credit offered clock =>
      let '(db', r) := claim_latest read now credit offered clock in (db', claimed r)
  | LeBind run job updated clock => ((bind_processing_job now run job updated clock).1, [])
  | LeUnresolved key reason updated clock => ((mark_unresolved now key reason updated clock).1, [])
  | LeRemote key state reason updated clock => ((apply_remote_status now key state reason updated clock).1, [])
  | LeBeforeSend key state reason updated clock =>
      ((release_before_send now key state reason updated clock).1, [])
  | LeRetire key reason updated clock =>
      ((retire_eligible now key "SESSION_INACTIVE" reason updated clock).1, [])
  | LeNotFound key retry updated clock => ((reconcile_not_found now key retry updated clock).1, [])
  end.

(** An [exact] history has no overtaken persist. *)
Definition admitted (exact : bool) (read now : database) (ev : live_event) : Prop :=
  match ev with LePersist _ _ _ => exact = true -> ~ overtaken read now | _ => True end.

Lemma admitted_serial exact now ev : admitted exact now now ev.
Proof. destruct ev; [|done..]. by intros _ (uid & H1 & H2). Qed.

(** Databases, events and claims, the latest first. *)
Inductive live_history (exact : bool) (start : database)
    : list database -> list live_event -> list ClaimedFrameSet -> Prop :=
| live_start : live_history exact start [start] [] []
| live_step read now past evs claims ev :
    live_history exact start (now :: past) evs claims -> read ∈ now :: past -> admitted exact read now ev ->
    live_history exact start ((event_step read now ev).1 :: now :: past) (ev :: evs)
                 ((event_step read now ev).2 ++ claims).

(** The states the transitions write, and whether they end the flight. *)
Lemma remote_release s : s ∈ remote_states ->
  (s ∈ releasing_states /\ (s ∉ flight_states)) \/ ((s ∉ releasing_states) /\ s ∈ flight_states).
Proof.
  intros Hs. assert (Forall (fun s => (s ∈ releasing_states /\ (s ∉ flight_states)) \/
    ((s ∉ releasing_states) /\ s ∈ flight_states)) remote_states) as Hall
    by (apply (bool_decide_unpack _); vm_compute; exact I).
  rewrite Forall_forall in Hall. by apply Hall.
Qed.

Lemma presend_release s : s ∈ presend_states -> (s ∉ flight_states).
Proof.
  intros Hs. assert (Forall (fun s => (s ∉ flight_states)) presend_states) as Hall
    by (apply (bool_decide_unpack _); vm_compute; exact I).
  rewrite Forall_forall in Hall. by apply Hall.
Qed.

Lemma id_keeps : keeps_flight id.
Proof. done. Qed.
Lemma release_ends : ends_flight release_flight.
Proof. by intros []. Qed.

(** Every event but those that write waiting projections is a guarded
    transition of the frame-set in flight. *)
Inductive transition_event (now : database) : live_event -> FrameSetKey -> string ->
    (RelayV2ClientState -> RelayV2ClientState) -> database -> Prop :=
| transition_of ev key st reason ts f :
    (keeps_flight f /\ st ∈ flight_states) \/
    (ends_flight f /\ (st ∉ flight_states) /\
     (st = "ELIGIBLE" -> exists updated clock, ev = LeNotFound key true updated clock)) ->
    (forall s, rc_reoffer_frame_set_uid (f s) = rc_reoffer_frame_set_uid s \/
               rc_reoffer_frame_set_uid (f s) = None \/
               exists updated clock, ev = LeNotFound key true updated clock) ->
    transition_event now ev key st f (write_transition now key st reason ts f).1.

Lemma event_cases read now ev :
  (exists fs created clock, ev = LePersist fs created clock) \/
  (exists uid a l r u c, ev = LeProjection uid a l r u c) \/
  (exists credit offered clock, ev = LeClaim credit offered clock) \/
  (exists run job u c, ev = LeBind run job u c) \/
  (exists key r u c, ev = LeRetire key r u c) \/
  (event_step read now ev = (now, [])) \/
  ((event_step read now ev).2 = [] /\
   exists key st f, transition_event now ev key st f (event_step read now ev).1).
Proof.
  destruct ev as [| | | |key reason u c|key st reason u c|key st reason u c| |key retry u c];
    [by eauto 10|by eauto 10|by eauto 10|by eauto 10|do 6 right|do 5 right|do 5 right|by eauto 10|do 6 right];
    cbn [event_step fst snd].
  - split; [done|]. do 3 eexists. unfold mark_unresolved, _transition_current. apply transition_of; [|by left].
    left. split; [apply id_keeps|set_solver].
  - unfold apply_remote_status. case_bool_decide as Hin; cbn [negb fst]; [right|by left].
    split; [done|]. do 3 eexists. unfold _transition_current. apply transition_of; [|intros s; case_bool_decide; by left].
    destruct (remote_release _ Hin) as [[H1 H2]|[H1 H2]].
    + rewrite bool_decide_eq_true_2 by done. right. split_and!; [apply release_ends|done|].
      intros E. rewrite E in H1. exfalso. revert H1. apply (bool_decide_unpack _). vm_compute. exact I.
    + rewrite bool_decide_eq_false_2 by done. left. split; [apply id_keeps|done].
  - unfold release_before_send. case_bool_decide as Hin; cbn [negb fst]; [right|by left].
    split; [done|]. do 3 eexists. unfold _transition_current. apply transition_of; [|by left].
    right. split_and!; [apply release_ends|by apply presend_release|].
    intros E. rewrite E in Hin. exfalso. revert Hin. apply (bool_decide_unpack _). vm_compute. exact I.
  - split; [done|]. do 3 eexists. unfold reconcile_not_found.
    apply transition_of; [|intros s; cbn; destruct retry; eauto]. right. split_and!; [by intros []|by destruct retry; [apply eligible_not_flight|apply superseded_not_flight]|].
    destruct retry; [by eauto|done].
Qed.

Lemma transition_event_ok {exact} now ev key st f db' :
  transition_event now ev key st f db' -> live_ok exact now -> live_ok exact db' /\ later now db'.
Proof. intros [ev' key' st' reason ts f' Hf _] Hok. apply write_transition_ok; [done|]. naive_solver. Qed.

Lemma event_ok {exact} read now ev :
  live_ok exact now -> schema_ok read -> later read now -> admitted exact read now ev ->
  live_ok exact (event_step read now ev).1 /\ later now (event_step read now ev).1.
Proof.
  intros Hok Hr Hl Hno.
  destruct (event_cases read now ev) as [(fs & created & clock & ->)|[(uid & a & l & r & u & c & ->)|
    [(credit & off & clock & ->)|[(run & job & u & c & ->)|[(key & r & u & c & ->)|[->|(_ & key & st & f & Ht)]]]]]].
  - by apply persist_live_ok.
  - by apply projection_live_ok.
  - cbn [event_step]. pose proof (claim_ok read now credit off clock Hok Hr Hl).
    by destruct (claim_latest read now credit off clock).
  - by apply bind_live_ok.
  - apply retire_live_ok; [done|apply session_inactive_not_flight].
  - by split.
  - by apply (transition_event_ok _ _ _ _ _ _ Ht).
Qed.

Lemma live_history_ok {exact} start h evs claims :
  live_history exact start h evs claims -> live_ok exact start ->
  exists now past, h = now :: past /\ live_ok exact now /\ Forall (fun old => schema_ok old /\ later old now) h.
Proof.
  intros Hh Hok. induction Hh as [|read now past evs claims ev Hh IH Hin Hno].
  - exists start, []. split; [done|]. split; [done|]. apply Forall_singleton. split; [apply Hok|reflexivity].
  - destruct IH as (? & ? & [= <- <-] & Hn & Hall).
    destruct (proj1 (Forall_forall _ _) Hall _ Hin) as [Hr1 Hr2].
    destruct (event_ok read now ev Hn Hr1 Hr2 Hno) as [H1 H2].
    eexists _, (now :: past). split; [done|]. split; [done|]. constructor; [split; [apply H1|reflexivity]|].
    eapply Forall_impl; [done|]. intros old [Ho1 Ho2]. split; [done|by transitivity now].
Qed.

Definition credit_recorded (s : RelayV2ClientState) : Prop :=
  is_Some (rc_in_flight_credit_id s) /\ is_Some (rc_in_flight_processor_instance_id s) /\
  is_Some (rc_in_flight_stream_epoch s) /\ is_Some (rc_in_flight_offered_at_ms s).

Definition no_credit (s : RelayV2ClientState) : Prop :=
  rc_in_flight_credit_id s = None /\ rc_in_flight_processor_instance_id s = None /\
  rc_in_flight_stream_epoch s = None /\ rc_in_flight_offered_at_ms s = None.

Lemma flight_credit {exact} db : live_ok exact db ->
  (forall uid, in_flight db = Some uid -> credit_recorded (client_state db)) /\
  (in_flight db = None -> no_credit (client_state db)).
Proof.
  intros Hok. destruct (lo_credit _ _ Hok) as (C1 & C2 & C3 & C4). rewrite in_flight_client.
  split; [intros uid E; split_and!; apply not_eq_None_Some; naive_solver|intros E; split_and!; tauto].
Qed.

Lemma flight_watermark {exact} db uid : live_ok exact db -> in_flight db = Some uid ->
  exists m, db_manifests db !! uid = Some m /\ current_in_flight db = Ok (Some (_key m)) /\
    offered_watermark db = Some (Some (mf_capture_run_id m), Some (mf_frame_set_id m), uid).
Proof.
  intros Hok Hf. pose proof (lo_watermark_flight _ _ Hok _ Hf) as Hw.
  destruct (lo_watermark _ _ Hok _ Hw) as (m & Hm & Hrun & Hid). exists m. split; [done|].
  unfold current_in_flight. change (db_client_state db ≫= _) with (in_flight db). rewrite Hf, Hm.
  split; [done|]. unfold offered_watermark, in_flight, client_state in *.
  destruct (db_client_state db) as [s|]; [|done]. cbn in *. rewrite Hw. cbn. by rewrite Hrun, Hid.
Qed.

(** C9: From a consistent start on, over every history of the ingest pipeline and the relay client —
    claims, persists and projection updates may decide on any earlier state —
    at most one frame-set is in flight: a projection that says offered,
    unresolved, accepted or started is that of the frame-set the client state
    names. The projection of the frame-set named says one of these, or that
    it is superseded when a persist in the history was overtaken (the
    histories that are not [exact]); its credit, processor instance, stream
    epoch and offer time are recorded, and none is while nothing is in
    flight; the offered watermark is its key. Each transition finds the rows
    it needs: it raises only for an unsupported state argument. *)
Theorem live_single_flight exact start now past evs claims :
  live_history exact start (now :: past) evs claims -> live_ok exact start ->
  (forall uid s, live_state_of now uid = Some s -> s ∈ flight_states -> in_flight now = Some uid) /\
  (forall uid, in_flight now = Some uid ->
     (exists s, live_state_of now uid = Some s /\ s ∈ shown exact) /\
     credit_recorded (client_state now) /\
     exists m, db_manifests now !! uid = Some m /\ current_in_flight now = Ok (Some (_key m)) /\
       offered_watermark now = Some (Some (mf_capture_run_id m), Some (mf_frame_set_id m), uid)) /\
  (in_flight now = None -> current_in_flight now = Ok None /\ no_credit (client_state now)) /\
  (forall key reason updated clock, exists b, (mark_unresolved now key reason updated clock).2 = Ok b) /\
  (forall key retry updated clock, exists b, (reconcile_not_found now key retry updated clock).2 = Ok b) /\
  (forall key st reason updated clock, upper (strip st) ∈ remote_states <->
     exists b, (apply_remote_status now key st reason updated clock).2 = Ok b) /\
  (forall key st reason updated clock, upper (strip st) ∈ presend_states <->
     exists b, (release_before_send now key st reason updated clock).2 = Ok b).
Proof.
  intros Hh Hstart. destruct (live_history_ok _ _ _ _ Hh Hstart) as (? & ? & [= <- <-] & Hok & _).
  assert (forall key st reason ts f, exists b, (write_transition now key st reason ts f).2 = Ok b) as Ht.
  { intros. destruct (write_transition_total now key st reason ts f Hok) as (db' & b & ->). by exists b. }
  destruct (flight_credit now Hok) as [Hc1 Hc2]. split_and!.
  - apply (lo_unique _ _ Hok).
  - intros uid Hf. split; [by apply (lo_flight _ _ Hok)|]. split; [by eapply Hc1|by apply (flight_watermark (exact := exact))].
  - intros Hf. split; [|auto]. unfold current_in_flight.
    change (db_client_state now ≫= _) with (in_flight now). by rewrite Hf.
  - intros. apply Ht.
  - intros. apply Ht.
  - intros. unfold apply_remote_status. case_bool_decide; cbn [negb snd]; [split; [intros; apply Ht|done]|].
    split; [done|by intros [b ?]].
  - intros. unfold release_before_send. case_bool_decide; cbn [negb snd]; [split; [intros; apply Ht|done]|].
    split; [done|by intros [b ?]].
Qed.

(** ** Offered once *)

Definition claims_of (uid : string) (claims : list ClaimedFrameSet) : nat :=
  length (filter (fun c => key_frame_set_uid (cl_key c) = uid) claims).

(** The processor did not know the frame-set and it may be offered again. *)
Definition retries (uid : string) (ev : live_event) : Prop :=
  match ev with LeNotFound key true _ _ => key_frame_set_uid key = uid | _ => False end.

#[export] Instance retries_dec uid ev : Decision (retries uid ev).
Proof. destruct ev as [| | | | | | | |key [] u c]; cbn; apply _. Defined.

(** Whether a frame-set can no longer be claimed as it stands. *)
Definition taken (db : database) (uid : string) : nat :=
  match live_state_of db uid with
  | Some s => if bool_decide (s = "ELIGIBLE") then 0%nat else 1%nat
  | None => 0%nat
  end.

Lemma waiting_taken {exact} before after uid db db' :
  live_state_of db uid = before -> live_state_of db' uid = after ->
  waiting_change exact before after -> (taken db uid <= taken db' uid)%nat.
Proof.
  unfold taken. intros -> -> [->|[[-> _]|[[-> (s & -> & _)]|(_ & (s & ->) & ->)]]]; [done|lia|..].
  - rewrite bool_decide_eq_true_2 by done. lia.
  - rewrite (bool_decide_eq_false_2 ("SUPERSEDED_BEFORE_OFFER" = _)) by done. case_match; lia.
Qed.

Lemma transition_taken now key st reason ts f uid :
  (st = "ELIGIBLE" -> key_frame_set_uid key <> uid) ->
  (taken now uid <= taken (write_transition now key st reason ts f).1 uid)%nat.
Proof.
  intros Hst. unfold write_transition. destruct (negb _); [done|].
  destruct (db_projections now !! _) as [p|] eqn:Ep; [|done]. cbn [fst]. unfold taken, live_state_of. cbn.
  destruct (decide (key_frame_set_uid key = uid)) as [E|Hne].
  - rewrite E, lookup_insert_eq. cbn. rewrite (bool_decide_eq_false_2 (st = "ELIGIBLE")) by naive_solver.
    by repeat case_match; lia.
  - rewrite lookup_insert_ne by done. lia.
Qed.

Lemma taken_le_one db uid : (taken db uid <= 1)%nat.
Proof. unfold taken. repeat case_match; lia. Qed.

Lemma claim_key read now credit off clock db' c : schema_ok read ->
  claim_latest read now credit off clock = (db', Ok (Some c)) ->
  live_state_of now (key_frame_set_uid (cl_key c)) = Some "ELIGIBLE" /\
  in_flight now = None /\ in_flight db' = Some (key_frame_set_uid (cl_key c)) /\
  live_state_of db' (key_frame_set_uid (cl_key c)) = Some "OFFERED" /\
  forall uid, uid <> key_frame_set_uid (cl_key c) -> live_state_of db' uid = live_state_of now uid.
Proof.
  intros Hr H. destruct (claim_cases _ _ _ _ _ _ _ H) as [[_ Hn]|(m & [= ->] & Hg & _)]; [by destruct (Hn c)|].
  apply guarded_claim_Some in Hg as (s & p & Hs & Hf & Hp & Ha & He & ->). cbn [cl_key key_frame_set_uid _snapshot _key].
  destruct (ensure_client_state now (default clock off)) as (s' & Hs' & Hpr & Hor).
  rewrite Hpr in *. unfold live_state_of, in_flight. cbn. rewrite Hp. cbn. rewrite lookup_insert_eq. cbn.
  split_and!; [by rewrite He| |done|done|].
  - rewrite Hs in Hs'. injection Hs' as <-. destruct Hor as [->|[-> _]]; done.
  - intros uid Hne. rewrite lookup_insert_ne by congruence. by rewrite ?Hpr.
Qed.

Lemma event_taken read now ev uid : schema_ok now -> schema_ok read -> later read now ->
  (taken now uid + claims_of uid (event_step read now ev).2 <=
   taken (event_step read now ev).1 uid + (if bool_decide (retries uid ev) then 1 else 0))%nat.
Proof.
  intros Hok Hr Hl.
  destruct (event_cases read now ev) as [(fs & created & clock & ->)|[(u & a & l & r & up & c & ->)|
    [(credit & off & clock & ->)|[(run & job & up & c & ->)|[(key & r & up & c & ->)|[->|(-> & key & st & f & Ht)]]]]]].
  - cbn. pose proof (waiting_taken _ _ uid _ _ eq_refl eq_refl (persist_waiting (exact := false) read now fs created clock uid Hr Hl ltac:(done))). lia.
  - cbn. pose proof (waiting_taken _ _ uid _ _ eq_refl eq_refl (projection_waiting (exact := false) read now u a l r up c uid)). lia.
  - cbn [event_step]. destruct (claim_latest read now credit off clock) as [db' res] eqn:E. cbn [fst snd].
    destruct (claim_cases _ _ _ _ _ _ _ E) as [[Hdb Hn]|(m & -> & _)].
    + assert (claimed res = []) as -> by (destruct res as [[x|]|e]; [by destruct (Hn x)|done..]).
      assert (live_state_of db' uid = live_state_of now uid) as Hls.
      { destruct Hdb as [->| ->]; [done|]. unfold live_state_of.
        by destruct (ensure_client_state now (default clock off)) as (s & _ & -> & _). }
      unfold taken, claims_of. rewrite Hls. cbn. lia.
    + destruct (claim_key _ _ _ _ _ _ _ Hr E) as (He & _ & _ & Ho & Hother). cbn [claimed].
      set (c := _snapshot _ _ _ _) in *. unfold claims_of. rewrite filter_cons.
      destruct (decide (key_frame_set_uid (cl_key c) = uid)) as [<-|Hne]; rewrite filter_nil; cbn [length].
      * unfold taken. rewrite He, Ho, bool_decide_eq_true_2, bool_decide_eq_false_2 by done. lia.
      * unfold taken. rewrite (Hother uid) by done. lia.
  - assert (taken (bind_processing_job now run job up c).1 uid = taken now uid) as E
      by (unfold bind_processing_job; by repeat case_match).
    cbn [event_step fst snd]. rewrite E. unfold claims_of. cbn. lia.
  - cbn. pose proof (waiting_taken _ _ uid _ _ eq_refl eq_refl
      (retire_waiting (exact := false) now key "SESSION_INACTIVE" r up c uid session_inactive_not_flight)). lia.
  - unfold claims_of. cbn. lia.
  - cbn [claims_of filter list_filter length].
    destruct Ht as [ev key st reason ts f Hf _]. case_bool_decide as Hre; cbn.
    + pose proof (taken_le_one now uid). unfold claims_of. cbn. lia.
    + assert (st = "ELIGIBLE" -> key_frame_set_uid key <> uid) as Hst.
      { intros ->. destruct Hf as [[_ Hin]|(_ & _ & H)]; [by destruct (eligible_not_flight)|].
        destruct (H eq_refl) as (up & c & ->). exact Hre. }
      pose proof (transition_taken now key st reason ts f uid Hst). unfold claims_of. cbn. lia.
Qed.

(** A frame-set is offered to the processor once. Over any history —
    with claims that decided on stale states — the number of times it is
    claimed exceeds by at most one the number of times the processor was
    found not to know it and a retry was allowed. *)
Theorem claimed_once_per_retry exact start now past evs claims uid :
  live_history exact start (now :: past) evs claims -> live_ok exact start ->
  (claims_of uid claims <= 1 + length (filter (retries uid) evs))%nat.
Proof.
  intros Hh Hok.
  assert (forall h, live_history exact start h evs claims -> exists now past, h = now :: past /\
    (claims_of uid claims <= taken now uid + length (filter (retries uid) evs))%nat) as Hinv.
  { clear Hh now past. intros h Hh. induction Hh as [|read now past evs claims ev Hh IH Hin].
    - exists start, []. split; [done|]. cbn. lia.
    - destruct IH as (? & ? & [= <- <-] & IH). eexists _, (now :: past). split; [done|].
      destruct (live_history_ok _ _ _ _ Hh Hok) as (? & ? & [= <- <-] & Hn & Hall).
      destruct (proj1 (Forall_forall _ _) Hall _ Hin) as [Hr Hl].
      pose proof (event_taken read now ev uid (lo_schema _ _ Hn) Hr Hl) as He.
      unfold claims_of in *. rewrite filter_app, length_app, filter_cons.
      destruct (decide (retries uid ev)) as [H'|H']; case_bool_decide; try done; cbn [length]; lia. }
  destruct (Hinv _ Hh) as (? & ? & [= <- <-] & Hle). pose proof (taken_le_one now uid). lia.
Qed.

(** ** Offers advance *)

(** Within a run, sets are synchronised in the order of their numbers; this
    is what the matcher guarantees for the sets it emits. *)
Definition run_ordered (db : database) : Prop := forall k k' m m',
  db_manifests db !! k = Some m -> db_manifests db !! k' = Some m' ->
  mf_capture_run_id m = mf_capture_run_id m' -> mf_frame_set_id m < mf_frame_set_id m' ->
  mf_synchronized_at_ms m < mf_synchronized_at_ms m'.

Definition later_offer (x y : ClaimedFrameSet) : Prop :=
  cl_synchronized_at_ms x <= cl_synchronized_at_ms y /\ cl_key x <> cl_key y /\
  (key_capture_run_id (cl_key x) = key_capture_run_id (cl_key y) ->
   key_frame_set_id (cl_key x) < key_frame_set_id (cl_key y)).

(** Events one after the other, each on the database the one before left. *)
Fixpoint serial_run (db : database) (evs : list live_event) : database * list ClaimedFrameSet :=
  match evs with
  | [] => (db, [])
  | ev :: evs =>
      let '(db1, c) := event_step db db ev in
      let '(db2, cs) := serial_run db1 evs in (db2, c ++ cs)
  end.

Definition is_retry (ev : live_event) : Prop := exists uid, retries uid ev.

Lemma manifest_gt_trans x y z : manifest_gt x y = true -> manifest_gt y z = true -> manifest_gt x z = true.
Proof.
  unfold manifest_gt. rewrite !negb_true_iff. intros H1 H2. apply not_true_iff_false. intros H3.
  apply not_true_iff_false in H1. apply H1. destruct manifest_leb_order as [Ht Htr].
  apply (Htr _ z); [done|]. destruct (Ht z y) as [?|H]; [done|]. congruence.
Qed.

Lemma manifest_gt_sync x y : manifest_gt x y = true -> mf_synchronized_at_ms y <= mf_synchronized_at_ms x.
Proof.
  unfold manifest_gt, manifest_leb, lex_leb. cbn beta. intros H%negb_true_iff.
  apply orb_false_iff in H as [H _]. lia.
Qed.

Lemma manifest_gt_irrefl x : manifest_gt x x = false.
Proof.
  unfold manifest_gt. apply negb_false_iff. destruct (proj1 manifest_leb_order x x); done.
Qed.

Lemma newer_manifest_gt db k k' m w :
  run_ordered db -> db_manifests db !! k = Some m -> db_manifests db !! k' = Some w ->
  newer_manifest m w = true -> manifest_gt m w = true.
Proof.
  intros Hr Hm Hw. unfold newer_manifest. case_bool_decide as E; [|done]. intros Hlt%Z.ltb_lt.
  pose proof (Hr _ _ _ _ Hw Hm (eq_sym E) Hlt) as Hs. unfold manifest_gt, manifest_leb, lex_leb. cbn beta.
  apply negb_true_iff, orb_false_iff. split; [lia|]. apply andb_false_iff. left. lia.
Qed.

(** The manifest a claim hands out. *)
Definition claims_manifest (db : database) (c : ClaimedFrameSet) (m : FrameSetManifest) : Prop :=
  db_manifests db !! mf_frame_set_uid m = Some m /\ cl_key c = _key m /\
  cl_synchronized_at_ms c = mf_synchronized_at_ms m.

Lemma manifests_later_offer db c c' m m' :
  schema_ok db -> run_ordered db -> claims_manifest db c m -> claims_manifest db c' m' ->
  manifest_gt m' m = true -> later_offer c c'.
Proof.
  intros Hok Hr (Hm & Hk & Hs) (Hm' & Hk' & Hs') Hgt. unfold later_offer. rewrite Hk, Hk', Hs, Hs'.
  assert (mf_frame_set_uid m <> mf_frame_set_uid m') as Hne.
  { intros E. rewrite E in Hm. assert (m = m') as -> by congruence. by rewrite manifest_gt_irrefl in Hgt. }
  pose proof (manifest_gt_sync _ _ Hgt). split_and!; [done|unfold _key; congruence|].
  cbn. intros Erun. destruct (Z.lt_total (mf_frame_set_id m) (mf_frame_set_id m')) as [?|[E|Hlt]]; [done|..].
  - exfalso. apply Hne. eapply so_sequence; [done..|]. by rewrite Erun, E.
  - pose proof (Hr _ _ _ _ Hm' Hm (eq_sym Erun) Hlt). lia.
Qed.

(** What an event without a retry does to the watermark. *)
Lemma event_watermark {exact} db ev :
  live_ok exact db -> ~ is_retry ev -> rc_reoffer_frame_set_uid (client_state db) = None ->
  rc_reoffer_frame_set_uid (client_state (event_step db db ev).1) = None /\
  (((event_step db db ev).2 = [] /\
    rc_watermark_frame_set_uid (client_state (event_step db db ev).1) =
    rc_watermark_frame_set_uid (client_state db)) \/
   exists c m, (event_step db db ev).2 = [c] /\ claims_manifest (event_step db db ev).1 c m /\
     rc_watermark_frame_set_uid (client_state (event_step db db ev).1) = Some (mf_frame_set_uid m) /\
     forall u w, rc_watermark_frame_set_uid (client_state db) = Some u -> db_manifests db !! u = Some w ->
       newer_manifest m w = true).
Proof.
  intros Hok Hre Hnone.
  destruct (event_cases db db ev) as [(fs & created & clock & ->)|[(u & a & l & r & up & c & ->)|
    [(credit & off & clock & ->)|[(run & job & up & c & ->)|[(key & r & up & c & ->)|[->|(Hc & key & st & f & Ht)]]]]]].
  - cbn [event_step fst snd]. unfold client_state. rewrite persist_client_state. auto.
  - cbn [event_step fst snd]. unfold client_state. rewrite projection_client_state. auto.
  - cbn [event_step] in *. destruct (claim_latest db db credit off clock) as [db' res] eqn:E. cbn [fst snd].
    destruct (claim_cases _ _ _ _ _ _ _ E) as [[Hdb Hn]|(m & -> & Hg & Hnew & _)].
    + assert (claimed res = []) as -> by (destruct res as [[x|]|e]; [by destruct (Hn x)|done..]).
      assert (client_state db' = client_state db \/
              client_state db' = fresh_state (default clock off) /\ client_state db = fresh_state 0) as Hcs.
      { destruct Hdb as [->| ->]; [by left|]. unfold client_state, _ensure_state_row.
        destruct (db_client_state db) as [s|] eqn:Es; cbn; [by rewrite Es; left|by right]. }
      destruct Hcs as [->|[-> ->]]; auto.
    + destruct (newest_eligible_Some _ _ _ (lo_schema _ _ Hok) Hnew) as (_ & Hm & Hw).
      assert (db_manifests db' = db_manifests db) as Hmf.
      { apply guarded_claim_Some in Hg as (s & p & _ & _ & _ & _ & _ & ->). cbn.
        unfold _ensure_state_row. by destruct (db_client_state db). }
      destruct (ensure_client_state db (default clock off)) as (s & Hs & _ & Hor).
      apply guarded_claim_Some in Hg as (s2 & p & Hs2 & _ & _ & _ & _ & Hdb').
      assert (client_state db' = take_flight m credit (default clock off) s2) as -> by (by rewrite Hdb').
      split; [done|]. right. eexists _, m. split; [done|]. split; [|split; [done|]].
      * split_and!; [by rewrite Hmf|done..].
      * intros u w Hu Hw'. assert (default (fresh_state (default clock off)) (db_client_state db) = client_state db
          \/ client_state db = fresh_state 0) as [Ecs|Ecs] by (unfold client_state; destruct (db_client_state db); auto).
        { rewrite Ecs in Hw. destruct (Hw u w Hu Hw') as [Hro|?]; [|done]. congruence. }
        by rewrite Ecs in Hu.
  - cbn [event_step fst snd]. unfold bind_processing_job. destruct (negb _); [by auto|].
    destruct (_ && _); [by auto|]. unfold client_state in *. cbn. destruct (db_client_state db); auto.
  - cbn [event_step fst snd].
    assert (client_state (retire_eligible db key "SESSION_INACTIVE" r up c).1 = client_state db) as ->; [|by auto].
    unfold retire_eligible. by repeat case_match.
  - auto.
  - rewrite Hc. destruct Ht as [ev key st reason ts f Hf Hro].
    destruct (write_transition_total db key st reason ts f Hok) as (db' & b & E). rewrite E. cbn [fst].
    destruct (write_transition_Ok _ _ _ _ _ _ _ _ E) as (_ & Hfalse & Htrue).
    destruct b; [|rewrite Hfalse by done; by auto].
    destruct (Htrue eq_refl) as (p & s & _ & Hs & ->). unfold client_state in *. rewrite Hs in *. cbn in *.
    split.
    + destruct (Hro s) as [->|[->|(u & c & ->)]]; [done..|]. destruct Hre. by exists (key_frame_set_uid key).
    + left. split; [done|]. destruct Hf as [[Hf _]|[Hf _]]; [by rewrite Hf|]. by destruct (Hf s) as (_ & _ & _ & _ & _ & -> & _).
Qed.

Lemma serial_run_advances {exact} evs : forall db,
  live_ok exact db -> rc_reoffer_frame_set_uid (client_state db) = None -> Forall (fun ev => ~ is_retry ev) evs ->
  run_ordered (serial_run db evs).1 ->
  live_ok exact (serial_run db evs).1 /\ later db (serial_run db evs).1 /\
  StronglySorted later_offer (serial_run db evs).2 /\
  forall c, c ∈ (serial_run db evs).2 -> exists m, claims_manifest (serial_run db evs).1 c m /\
    forall u w, rc_watermark_frame_set_uid (client_state db) = Some u -> db_manifests db !! u = Some w ->
      manifest_gt m w = true.
Proof.
  induction evs as [|ev evs IH]; intros db Hok Hre Hall; cbn [serial_run].
  { intros _. split; [done|]. split; [reflexivity|]. split; [constructor|]. intros c Hc. by apply not_elem_of_nil in Hc. }
  apply Forall_cons in Hall as [Hev Hall].
  destruct (event_ok db db ev Hok (lo_schema _ _ Hok) (reflexivity _) (admitted_serial _ _ _)) as [Hok1 Hl1].
  destruct (event_watermark db ev Hok Hev Hre) as [Hre1 Hcase].
  destruct (event_step db db ev) as [db1 c1] eqn:Es. cbn [fst snd] in *.
  specialize (IH db1 Hok1 Hre1 Hall). destruct (serial_run db1 evs) as [db2 cs] eqn:Er. cbn [fst snd] in *.
  intros Hro. destruct (IH Hro) as (Hok2 & Hl2 & Hsorted & Hcs). clear IH.
  split; [done|]. split; [by transitivity db1|].
  assert (forall k m, db_manifests db !! k = Some m -> db_manifests db1 !! k = Some m) as Hup1
    by (intros k m Hm; by eapply lookup_weaken; [|apply Hl1]).
  assert (forall k m, db_manifests db1 !! k = Some m -> db_manifests db2 !! k = Some m) as Hup2
    by (intros k m Hm; by eapply lookup_weaken; [|apply Hl2]).
  destruct Hcase as [[-> Hw]|(c & m & -> & (Hm & Hk & Hs) & Hw & Hnew)].
  - split; [done|]. intros x (mx & Hx & Hgt)%Hcs. exists mx. split; [done|].
    intros u w Hu Hw'. apply (Hgt u w); [by rewrite Hw|by apply Hup1].
  - assert (claims_manifest db2 c m) as Hcm by (split_and!; [by apply Hup2|done..]).
    split.
    + constructor; [done|]. apply Forall_forall. intros x (mx & Hx & Hgt)%Hcs.
      eapply manifests_later_offer; [apply Hok2|done..|]. by eapply Hgt.
    + intros x [->|Hx]%elem_of_cons.
      * exists m. split; [done|]. intros u w Hu Hw'. eapply (newer_manifest_gt db2); [done|by apply Hup2| |by eapply Hnew].
        by apply Hup2, Hup1.
      * destruct (Hcs x Hx) as (mx & Hmx & Hgt). exists mx. split; [done|]. intros u w Hu Hw'.
        apply (manifest_gt_trans _ m); [by eapply Hgt|].
        eapply (newer_manifest_gt db2); [done|by apply Hup2| |by eapply Hnew]. by apply Hup2, Hup1.
Qed.

(** Offers only advance. In a serial history without retries, if the
    stored sets of each run were synchronised in the order of their numbers,
    every claim hands out a frame-set synchronised no earlier than all the
    ones before, and within a run with a higher number: nothing older than
    the watermark is ever offered. *)
Theorem claims_advance exact start evs :
  live_ok exact start -> rc_reoffer_frame_set_uid (client_state start) = None ->
  Forall (fun ev => ~ is_retry ev) evs -> run_ordered (serial_run start evs).1 ->
  StronglySorted later_offer (serial_run start evs).2.
Proof. intros H1 H2 H3 H4. by apply (serial_run_advances evs start H1 H2 H3 H4). Qed.

(** What a claim hands out and writes. The frame-set was, in the state
    read, the greatest deliverable one and beyond the watermark or the one
    to re-offer; at commit nothing was in flight and it was still durable and
    eligible. The offer carries the manifest and all its members in camera
    order, and the database changes in the client state and that one
    projection only. *)
Theorem claim_effect read now credit off clock db' c :
  claim_latest read now credit off clock = (db', Ok (Some c)) ->
  schema_ok read -> later read now ->
  let ts := default clock off in
  exists m s p, db_manifests read !! mf_frame_set_uid m = Some m /\ deliverable read m = true /\
    (forall k m', db_manifests read !! k = Some m' -> deliverable read m' = true -> manifest_leb m' m = true) /\
    (forall u w, rc_watermark_frame_set_uid (client_state read) = Some u -> db_manifests read !! u = Some w ->
       rc_reoffer_frame_set_uid (client_state read) = Some (mf_frame_set_uid m) \/ newer_manifest m w = true) /\
    in_flight read = None /\ in_flight now = None /\
    db_projections now !! mf_frame_set_uid m = Some p /\
    pj_archive_state p = "ARCHIVE_DURABLE" /\ pj_live_state p = "ELIGIBLE" /\
    db' = now <| db_client_state := Some (take_flight m credit ts s) |>
              <| db_projections := <[mf_frame_set_uid m := offer ts p]> (db_projections now) |> /\
    cl_key c = _key m /\ cl_credit c = credit /\ cl_manifest_digest c = mf_manifest_digest m /\
    cl_manifest_json c = mf_manifest_json m /\ cl_offered_at_ms c = ts /\
    cl_members c = live_member <$> sort_by member_camera_leb
      (filter (fun x => mb_frame_set_uid x = mf_frame_set_uid m) (db_members now)).
Proof.
  intros H Hr Hl ts. destruct (claim_cases _ _ _ _ _ _ _ H) as [[_ Hn]|(m & [= ->] & Hg & Hnew & Hf)];
    [by destruct (Hn c)|].
  destruct (newest_eligible_Some _ _ _ Hr Hnew) as (Hh & Hm & Hw).
  apply (first_desc_Some (fun m => deliverable read m = true)) in Hh as (_ & Hd & Hmax); [|done].
  apply guarded_claim_Some in Hg as (s & p & Hs & Hfs & Hp & Ha & He & ->).
  destruct (ensure_client_state now (default clock off)) as (s' & Hs' & Hpr & Hor).
  rewrite Hs in Hs'. injection Hs' as <-. rewrite Hpr in Hp. exists m, s, p.
  split_and!; try done.
  - intros u w Hu Hw'. unfold client_state in *. destruct (db_client_state read); [by apply (Hw u w)|done].
  - unfold in_flight. destruct Hor as [->|[-> _]]; done.
  - unfold _ensure_state_row. destruct now as [x1 x2 x3 x4 x5 x6 x7 []]; done.
  - cbn. unfold _ensure_state_row. by destruct (db_client_state now).
Qed.

(** ** A lost offer

    [persist_frame_set_manifest] supersedes by primary key what it read as
    eligible. When a claim commits between that read and its commit, the
    projection of the frame-set in flight is overwritten, and no projection
    says any more that it was offered. *)
Definition demo_credit : CreditIdentity := mkCreditIdentity "p" "e" "k1".
Definition demo_claimed : database := (claim_latest demo_db1 demo_db1 demo_credit (Some 350) 0).1.

Lemma persist_race_overwrites_offer :
  let after := (persist_frame_set_manifest demo_db1 demo_claimed demo_set2 (Some 400) 0).1 in
  live_state_of demo_claimed "u1" = Some "OFFERED" /\ in_flight after = Some "u1" /\
  live_state_of after "u1" = Some "SUPERSEDED_BEFORE_OFFER".
Proof. by vm_compute. Qed.

(** ** Witnesses *)

Definition demo_key : FrameSetKey := mkFrameSetKey "r1" 1 "u1".

Definition demo_live_events : list live_event := [
  LePersist demo_set1 (Some 300) 0; LeClaim demo_credit (Some 350) 0;
  LeRemote demo_key " accepted " None None 360; LePersist demo_set2 (Some 400) 0;
  LeClaim demo_credit (Some 410) 0; LeRemote demo_key "COMPLETED" None None 420;
  LeClaim demo_credit (Some 430) 0].

Lemma empty_live_ok {exact} : live_ok exact empty_database.
Proof. split; [apply empty_database_ok|..]; cbn; try done; by intros. Qed.

Example demo_live_claims :
  (key_frame_set_uid ∘ cl_key) <$> (serial_run empty_database demo_live_events).2 = ["u1"; "u2"] /\
  (fun c => lm_camera_stream_id <$> cl_members c) <$> (serial_run empty_database demo_live_events).2
    = [["a"; "b"]; ["a"; "b"]] /\
  in_flight (serial_run empty_database demo_live_events).1 = Some "u2".
Proof. by vm_compute. Qed.

(** A serial run is a history. *)
Lemma serial_history {exact} start h evs claims now : live_history exact start (now :: h) evs claims ->
  forall evs', exists h' claims', claims' = rev (serial_run now evs').2 ++ claims /\
    live_history exact start ((serial_run now evs').1 :: h') (rev evs' ++ evs) claims'.
Proof.
  intros Hh evs'. revert now h evs claims Hh. induction evs' as [|ev evs' IH]; intros now h evs claims Hh.
  { cbn. by exists h, claims. }
  cbn [serial_run]. destruct (event_step now now ev) as [db1 c1] eqn:E1.
  assert (live_history exact start (db1 :: now :: h) (ev :: evs) (c1 ++ claims)) as Hh1.
  { pose proof (live_step exact start now now h evs claims ev Hh ltac:(set_solver) (admitted_serial _ _ _)) as Hs. by rewrite E1 in Hs. }
  destruct (IH db1 (now :: h) (ev :: evs) (c1 ++ claims) Hh1) as (h' & cl' & -> & Hh').
  destruct (serial_run db1 evs') as [db2 cs] eqn:E2. cbn [fst snd] in *.
  exists h', (rev cs ++ c1 ++ claims). split.
  - rewrite rev_app_distr, <- app_assoc. f_equal.
    assert (rev c1 = c1) as ->; [|done]. destruct ev; cbn in E1; try (by injection E1 as _ <-).
    destruct (claim_latest _ _ _ _ _) as [d [[x|]|e]]; by injection E1 as _ <-.
  - cbn. by rewrite <- app_assoc.
Qed.

Lemma demo_live_history exact : exists past claims,
  live_history exact empty_database ((serial_run empty_database demo_live_events).1 :: past)
    (rev demo_live_events) claims /\ length claims = 2%nat.
Proof.
  destruct (serial_history empty_database [] [] [] empty_database (live_start exact _) demo_live_events)
    as (h & cl & -> & Hh).
  exists h, (rev (serial_run empty_database demo_live_events).2 ++ []). rewrite app_nil_r in Hh.
  split; [exact Hh|]. by vm_compute.
Qed.

Lemma persist_step start read now past evs claims fs created clock :
  live_history false start (now :: past) evs claims -> read ∈ now :: past ->
  live_history false start ((persist_frame_set_manifest read now fs created clock).1 :: now :: past)
    (LePersist fs created clock :: evs) claims.
Proof. intros Hh Hin. by apply (live_step false start read now past evs claims (LePersist fs created clock)). Qed.

(** After an overtaken persist. *)
Lemma overtaken_history : exists past evs claims,
  live_history false empty_database
    ((persist_frame_set_manifest demo_db1 demo_claimed demo_set2 (Some 400) 0).1 :: past) evs claims.
Proof.
  assert (live_history false empty_database [empty_database] [] []) as H0 by apply live_start.
  pose proof (persist_step _ empty_database _ _ _ _ demo_set1 (Some 300) 0 H0 ltac:(left)) as H1.
  change (persist_frame_set_manifest empty_database empty_database demo_set1 (Some 300) 0).1 with demo_db1 in H1.
  pose proof (live_step false _ demo_db1 _ _ _ _ (LeClaim demo_credit (Some 350) 0) H1 ltac:(left) ltac:(done)) as H2.
  change (event_step demo_db1 demo_db1 (LeClaim demo_credit (Some 350) 0)) with
    (let '(db', r) := claim_latest demo_db1 demo_db1 demo_credit (Some 350) 0 in (db', claimed r)) in H2.
  destruct (claim_latest demo_db1 demo_db1 demo_credit (Some 350) 0) as [db' r] eqn:E.
  assert (demo_claimed = db') as Ec by (unfold demo_claimed; by rewrite E).
  cbn [fst] in H2. rewrite <- Ec in H2.
  do 3 eexists. eapply persist_step; [exact H2|right; left].
Qed.

Lemma live_single_flight_witness :
  (live_state_of (serial_run empty_database demo_live_events).1 "u2" = Some "OFFERED" /\
   in_flight (serial_run empty_database demo_live_events).1 = Some "u2") /\
  credit_recorded (client_state (persist_frame_set_manifest demo_db1 demo_claimed demo_set2 (Some 400) 0).1).
Proof.
  split.
  - destruct (demo_live_history true) as (past & claims & Hh & _).
    destruct (live_single_flight true _ _ _ _ _ Hh empty_live_ok) as (H & _).
    assert (live_state_of (serial_run empty_database demo_live_events).1 "u2" = Some "OFFERED") as E
      by (by vm_compute).
    split; [exact E|]. apply (H "u2" "OFFERED" E). apply (bool_decide_unpack _). vm_compute. exact I.
  - destruct overtaken_history as (past & evs & claims & Hh).
    destruct (live_single_flight false _ _ _ _ _ Hh empty_live_ok) as (_ & H & _).
    apply (H "u1"). apply persist_race_overwrites_offer.
Defined.

Lemma claimed_once_per_retry_witness : exists past claims,
  live_history false empty_database ((serial_run empty_database demo_live_events).1 :: past)
    (rev demo_live_events) claims /\ (claims_of "u1" claims <= 1)%nat.
Proof.
  destruct (demo_live_history false) as (past & claims & Hh & _). exists past, claims. split; [exact Hh|].
  exact (claimed_once_per_retry _ _ _ _ _ _ "u1" Hh empty_live_ok).
Defined.

Lemma claims_advance_witness :
  StronglySorted later_offer (serial_run empty_database demo_live_events).2.
Proof.
  apply (claims_advance true).
  - apply empty_live_ok.
  - reflexivity.
  - repeat constructor; by intros [].
  - intros k k' m m' Hm Hm'.
    assert (forall k m, db_manifests (serial_run empty_database demo_live_events).1 !! k = Some m ->
      (mf_capture_run_id m, mf_frame_set_id m, mf_synchronized_at_ms m) ∈ [("r1", 1, 200); ("r2", 2, 300)]) as Hall.
    { intros j x Hx. assert (map_Forall (fun _ x => (mf_capture_run_id x, mf_frame_set_id x, mf_synchronized_at_ms x)
        ∈ [("r1", 1, 200); ("r2", 2, 300)]) (db_manifests (serial_run empty_database demo_live_events).1)) as Hf
        by (apply (bool_decide_unpack _); vm_compute; exact I). by apply (Hf j). }
    apply Hall in Hm, Hm'. set_unfold in Hm. set_unfold in Hm'.
    destruct Hm as [[= E1 E2 E3]|[[= E1 E2 E3]|[]]], Hm' as [[= F1 F2 F3]|[[= F1 F2 F3]|[]]];
      rewrite E1, F1; intros; try discriminate; lia.
Defined.

Lemma claim_effect_witness : exists m,
  db_manifests demo_db1 !! mf_frame_set_uid m = Some m /\ in_flight demo_db1 = None.
Proof.
  destruct (claim_latest demo_db1 demo_db1 demo_credit (Some 350) 0) as [db' r] eqn:E.
  assert (r = (claim_latest demo_db1 demo_db1 demo_credit (Some 350) 0).2) as Hr by (by rewrite E).
  destruct r as [[c|]|e]; [|exfalso; by vm_compute in Hr|exfalso; by vm_compute in Hr].
  destruct (claim_effect _ _ _ _ _ _ _ E demo_db1_ok (reflexivity _)) as (m & s & p & H1 & _ & _ & _ & H2 & _).
  by exists m.
Defined.
