(* ===== verification/Frames.v ===== *)
(** * Frame metadata

    src/app/services/frames/service.py: the row of a received frame is made
    once; a second reception of the same source frame finds it, and may only
    recover the archive state. As in ManifestStore.v a call reads one state
    of the database and commits into another. *)

From S2P Require Import Prelude Digest Identity Database.

(** [FrameIntegrityError], the [ValueError] of an identity, and the
    [IntegrityError] of a commit. *)
Inductive frame_error :=
| FrameIntegrityError (message : string)
| FrameValueError (message : string)
| FrameCommitError.

Definition has_text (s : option string) : bool :=
  match s with Some s => truthy (strip s) | None => false end.

Definition has_natural_identity (source_session_id camera_stream_id : option string)
    (frame_sequence : option Z) : bool :=
  has_text source_session_id && has_text camera_stream_id && negb (bool_decide (frame_sequence = None)).

Definition resolve_frame_identity `{Hashing} (source_session_id camera_stream_id : option string)
    (frame_sequence : option Z) (content_digest : option string)
    : result frame_error (option string * string) :=
  let natural := has_natural_identity source_session_id camera_stream_id frame_sequence in
  uid ←
    if natural
    then match build_source_frame_uid (default "" source_session_id) (default "" camera_stream_id)
                 (default 0 frame_sequence) with
         | Ok uid => Ok (Some uid)
         | Raise (ValueError message) => Raise (FrameValueError message)
         end
    else Ok None;
  Ok (uid, if natural && has_text content_digest then IDENTITY_MODE_V2 else IDENTITY_MODE_LEGACY).

Definition same_frame (source_frame_uid : option string) (device_id : string) (timestamp : Z)
    (identity_mode : string) (row : Frame) : bool :=
  match source_frame_uid with
  | Some uid => bool_decide (fr_source_frame_uid row = Some uid)
  | None => bool_decide (fr_device_id row = device_id) && bool_decide (fr_timestamp row = timestamp) &&
            bool_decide (fr_identity_mode row = identity_mode)
  end.

Definition _find_existing_frame (db : database) (source_frame_uid : option string) (device_id : string)
    (timestamp : Z) (identity_mode : string) : option Frame :=
  find (same_frame source_frame_uid device_id timestamp identity_mode) (db_frames db).

Definition _verify_duplicate_digest (frame : Frame) (content_digest : option string)
    : result frame_error unit :=
  raise_unless
    (negb (negb (bool_decide (fr_source_frame_uid frame = None)) &&
           negb (bool_decide (fr_content_digest frame = None)) &&
           negb (bool_decide (content_digest = None)) &&
           negb (bool_decide (fr_content_digest frame = content_digest))))
    (FrameIntegrityError "source_frame_uid was reused with a different content digest").

(** The columns [_verify_duplicate_scope] compares. *)
Definition declared_scope (frame : Frame) : list (option string) :=
  [fr_tenant_id frame; fr_site_id frame; fr_capture_session_id frame; fr_processing_job_id frame;
   fr_profile_digest frame; fr_authorized_subject frame; fr_session_token_jti frame;
   fr_authorized_camera_id frame; fr_camera_claim_id frame].

Definition _verify_duplicate_scope (frame new : Frame) : result frame_error unit :=
  raise_unless (bool_decide (declared_scope frame = declared_scope new))
    (FrameIntegrityError "source_frame_uid was reused with a different authorization scope").

Definition recover (new : Frame) (row : Frame) : Frame :=
  row <| fr_file_path := fr_file_path new |> <| fr_archive_state := fr_archive_state new |>
      <| fr_archive_error := fr_archive_error new |> <| fr_file_size := fr_file_size new |>.

(** The row as read, or, after a recovery, as it is refreshed. *)
Definition _apply_archive_recovery (db : database) (frame new : Frame) : database * Frame :=
  if bool_decide (fr_archive_state new = "ARCHIVE_DURABLE") &&
     negb (bool_decide (fr_archive_state frame = "ARCHIVE_DURABLE"))
  then (db <| db_frames ::= map (fun r => if bool_decide (fr_id r = fr_id frame) then recover new r else r) |>,
        recover new frame)
  else (db, frame).

(** What becomes of a frame whose row exists. *)
Definition accept_existing (db : database) (existing new : Frame)
    : database * result frame_error Frame :=
  match _ ← _verify_duplicate_digest existing (fr_content_digest new);
        _verify_duplicate_scope existing new with
  | Raise e => (db, Raise e)
  | Ok _ => let '(db', frame) := _apply_archive_recovery db existing new in (db', Ok frame)
  end.

(** [new] carries the arguments of the call; its [id], [source_frame_uid]
    and [identity_mode] are resolved here. *)
Definition create_frame `{Hashing} (read now : database) (new : Frame)
    : database * result frame_error Frame :=
  match resolve_frame_identity (fr_source_session_id new) (fr_camera_stream_id new)
          (fr_frame_sequence new) (fr_content_digest new) with
  | Raise e => (now, Raise e)
  | Ok (uid, mode) =>
      match _find_existing_frame read uid (fr_device_id new) (fr_timestamp new) mode with
      | Some existing => accept_existing now existing new
      | None =>
          let row := new <| fr_source_frame_uid := uid |> <| fr_identity_mode := mode |> in
          match insert_frame row now with
          | Some db' => (db', Ok (row <| fr_id := next_frame_id now |>))
          | None =>
              match _find_existing_frame now uid (fr_device_id new) (fr_timestamp new) mode with
              | Some existing => accept_existing now existing new
              | None => (now, Raise FrameCommitError)
              end
          end
      end
  end.

Definition timestamp_desc (x y : Frame) : bool := fr_timestamp y <=? fr_timestamp x.
Definition timestamp_asc (x y : Frame) : bool := fr_timestamp x <=? fr_timestamp y.

(** SQLite reads a negative [LIMIT] as none. *)
Definition get_frames (db : database) (limit : Z) : list Frame :=
  let ordered := sort_by timestamp_desc (db_frames db) in
  if limit <? 0 then ordered else take (Z.to_nat limit) ordered.

(** The window is not used. *)
Definition get_recent_frames (db : database) (window_ms : Z) : list Frame :=
  sort_by timestamp_asc (db_frames db).

Section Frames.
Context `{Hashing}.

(** ** The frame table *)

Definition resolves (r : Frame) : Prop :=
  resolve_frame_identity (fr_source_session_id r) (fr_camera_stream_id r) (fr_frame_sequence r)
    (fr_content_digest r) = Ok (fr_source_frame_uid r, fr_identity_mode r).

Record frames_ok (db : database) : Prop := {
  fo_ids : forall i r, db_frames db !! i = Some r -> fr_id r = Z.of_nat i + 1;
  fo_uid : forall r r' u, r ∈ db_frames db -> r' ∈ db_frames db ->
    fr_source_frame_uid r = Some u -> fr_source_frame_uid r' = Some u -> r = r';
  fo_legacy : forall r r' k, r ∈ db_frames db -> r' ∈ db_frames db ->
    legacy_key r = Some k -> legacy_key r' = Some k -> r = r';
  fo_identity : forall r r' k, r ∈ db_frames db -> r' ∈ db_frames db ->
    source_identity r = Some k -> source_identity r' = Some k -> r = r';
  fo_resolved : forall r, r ∈ db_frames db -> resolves r;
}.

(** The ids are 1, 2, 3, ..., and the next one goes on. *)
Lemma greatest_id frames first : (forall i r, frames !! i = Some r -> fr_id r = first + Z.of_nat i + 1) -> 0 <= first ->
  foldr (fun r m => Z.max (fr_id r) m) first frames = first + Z.of_nat (length frames).
Proof.
  revert first. assert (forall first, (forall i r, frames !! i = Some r -> fr_id r = first + Z.of_nat i + 1) ->
    forall low, low <= first -> foldr (fun r m => Z.max (fr_id r) m) low frames =
      if bool_decide (frames = []) then low else first + Z.of_nat (length frames)) as Hg; cycle 1.
  { intros first Hf _. rewrite (Hg first Hf) by lia. case_bool_decide as E; [rewrite E; cbn; lia|done]. }
  induction frames as [|r frames IH]; intros first Hf low Hl; [done|]. cbn [foldr length].
  rewrite (IH (first + 1)) by (lia || (intros i x Hx; specialize (Hf (S i) x Hx); lia)).
  pose proof (Hf 0%nat r eq_refl). rewrite (bool_decide_eq_false_2 (r :: frames = [])) by done.
  case_bool_decide as E; [subst; cbn; lia|]. lia.
Qed.

Lemma next_frame_id_length db : frames_ok db -> next_frame_id db = Z.of_nat (length (db_frames db)) + 1.
Proof. intros Hok. unfold next_frame_id. rewrite (greatest_id _ 0); [lia| |done]. intros i r Hi. by rewrite (fo_ids _ Hok _ _ Hi). Qed.

(** Two rows that differ at most in what the archive knows. *)
Definition identity_part (r : Frame) : Frame :=
  r <| fr_file_path := None |> <| fr_archive_state := "" |> <| fr_archive_error := None |>
    <| fr_file_size := None |>.
Definition evolves (r r' : Frame) : Prop := identity_part r = identity_part r'.

#[export] Instance evolves_equivalence : Equivalence evolves.
Proof. unfold evolves. split; [done|by intros x y ->|by intros x y z -> ->]. Qed.

Lemma evolves_fields r r' : evolves r r' ->
  fr_id r' = fr_id r /\ fr_source_frame_uid r' = fr_source_frame_uid r /\
  legacy_key r' = legacy_key r /\ source_identity r' = source_identity r /\
  fr_content_digest r' = fr_content_digest r /\ declared_scope r' = declared_scope r /\
  (resolves r' <-> resolves r) /\
  (forall u d t m, same_frame u d t m r' = same_frame u d t m r).
Proof.
  unfold evolves. intros E.
  assert (forall A (f : Frame -> A), (forall x, f (identity_part x) = f x) -> f r' = f r) as Hf.
  { intros A f Hf. by rewrite <- (Hf r'), <- E, Hf. }
  split_and!; [by apply Hf..| |by intros; apply Hf].
  unfold resolves. by rewrite !(Hf _ fr_source_session_id), !(Hf _ fr_camera_stream_id),
    !(Hf _ fr_frame_sequence), !(Hf _ fr_content_digest), !(Hf _ fr_source_frame_uid), !(Hf _ fr_identity_mode).
Qed.

(** Rows are only added at the end and only evolve. *)
Definition frames_later (old new : list Frame) : Prop :=
  exists added, Forall2 evolves old (take (length old) new) /\ new = take (length old) new ++ added.

Lemma frames_later_lookup old new i r :
  frames_later old new -> old !! i = Some r -> exists r', new !! i = Some r' /\ evolves r r'.
Proof.
  intros (added & H2 & _) Hi. destruct (Forall2_lookup_l _ _ _ _ _ H2 Hi) as (r' & Hr' & He).
  exists r'. split; [|done]. rewrite lookup_take_Some in Hr'. by destruct Hr'.
Qed.

Lemma frames_later_refl l : frames_later l l.
Proof.
  exists []. rewrite firstn_all, app_nil_r. split; [|done]. by apply Reflexive_instance_0.
Qed.

Lemma find_same_Some u d t m l r :
  find (same_frame u d t m) l = Some r -> r ∈ l /\ same_frame u d t m r = true.
Proof. intros [Hin Hs]%find_some. by rewrite list_elem_of_In. Qed.

Lemma find_same_None u d t m l :
  find (same_frame u d t m) l = None -> forall r, r ∈ l -> same_frame u d t m r = false.
Proof. intros Hf r Hr. apply (find_none _ _ Hf). by apply list_elem_of_In. Qed.

(** ** Recovery and acceptance *)

Lemma recover_evolves new r : evolves r (recover new r).
Proof. done. Qed.

Lemma recover_rows_later (P : Frame -> bool) new l :
  frames_later l (map (fun r => if P r then recover new r else r) l).
Proof.
  exists []. rewrite app_nil_r. rewrite <- (length_map (fun r => if P r then recover new r else r) l) at 1 2.
  rewrite firstn_all. split; [|done]. induction l as [|r l IH]; constructor; [|done].
  destruct (P r); [apply recover_evolves|reflexivity].
Qed.

Lemma evolved_ok db l :
  frames_ok db -> Forall2 evolves (db_frames db) l -> frames_ok (db <| db_frames := l |>).
Proof.
  intros [H1 H2 H3 H4 H5] Hf.
  assert (forall r', r' ∈ l -> exists i r, db_frames db !! i = Some r /\ l !! i = Some r' /\ evolves r r') as Hback.
  { intros r' [i Hi]%list_elem_of_lookup. destruct (Forall2_lookup_r _ _ _ _ _ Hf Hi) as (r & Hr & He). eauto. }
  assert (forall (key : Frame -> Prop) r r', r ∈ l -> r' ∈ l ->
    (forall x y, evolves x y -> key y -> key x) -> key r -> key r' ->
    (forall x y, x ∈ db_frames db -> y ∈ db_frames db -> key x -> key y -> x = y) -> r = r') as Huniq.
  { intros key r r' Hr Hr' Hkey Kr Kr' Hu.
    destruct (Hback _ Hr) as (i & x & Hx & Hi & Ex). destruct (Hback _ Hr') as (j & y & Hy & Hj & Ey).
    assert (x = y) as <-.
    { apply Hu; [by eapply list_elem_of_lookup_2..|by eapply Hkey|by eapply Hkey]. }
    pose proof (H1 _ _ Hx). pose proof (H1 _ _ Hy). assert (i = j) as -> by lia. congruence. }
  split; cbn.
  - intros i r' Hi. destruct (Forall2_lookup_r _ _ _ _ _ Hf Hi) as (r & Hr & He).
    destruct (evolves_fields _ _ He) as (-> & _). by apply H1.
  - intros r r' u Hr Hr' Hk Hk'. apply (Huniq (fun x => fr_source_frame_uid x = Some u)); try done.
    + intros x y He. destruct (evolves_fields _ _ He) as (_ & -> & _). done.
    + intros x y Hx Hy. by apply H2.
  - intros r r' k Hr Hr' Hk Hk'. apply (Huniq (fun x => legacy_key x = Some k)); try done.
    + intros x y He. destruct (evolves_fields _ _ He) as (_ & _ & -> & _). done.
    + intros x y Hx Hy. by apply H3.
  - intros r r' k Hr Hr' Hk Hk'. apply (Huniq (fun x => source_identity x = Some k)); try done.
    + intros x y He. destruct (evolves_fields _ _ He) as (_ & _ & _ & -> & _). done.
    + intros x y Hx Hy. by apply H4.
  - intros r' (i & r & Hr & _ & He)%Hback. apply (evolves_fields _ _ He).
    apply H5. by eapply list_elem_of_lookup_2.
Qed.

Lemma accept_existing_cases db existing new db' r :
  accept_existing db existing new = (db', r) ->
  (exists e, r = Raise e /\ db' = db) \/
  (exists row, r = Ok row /\ evolves existing row /\
     (fr_source_frame_uid existing <> None -> fr_content_digest existing <> None ->
      fr_content_digest new <> None -> fr_content_digest existing = fr_content_digest new) /\
     declared_scope existing = declared_scope new /\
     Forall2 (fun x x' => x' = x \/ fr_id x = fr_id existing /\ fr_archive_state new = "ARCHIVE_DURABLE" /\
                          fr_archive_state existing <> "ARCHIVE_DURABLE" /\ x' = recover new x)
             (db_frames db) (db_frames db') /\
     db' = db <| db_frames := db_frames db' |>).
Proof.
  unfold accept_existing. destruct (_ ≫= _) as [u|e] eqn:Ev; [|intros [= <- <-]; left; eauto].
  apply result_bind_Ok in Ev as (u1 & Hd%raise_unless_Ok & Hs%raise_unless_Ok).
  unfold _apply_archive_recovery.
  assert (fr_source_frame_uid existing <> None -> fr_content_digest existing <> None ->
    fr_content_digest new <> None -> fr_content_digest existing = fr_content_digest new) as Hdig.
  { intros A B C. rewrite !negb_true_iff, !andb_false_iff, !negb_false_iff, !bool_decide_eq_true in Hd. naive_solver. }
  clear Hd.
  apply bool_decide_eq_true in Hs.
  destruct (bool_decide (fr_archive_state new = "ARCHIVE_DURABLE") &&
            negb (bool_decide (fr_archive_state existing = "ARCHIVE_DURABLE"))) eqn:Er;
    intros [= <- <-]; right.
  - apply andb_true_iff in Er as [E1 E2]. apply bool_decide_eq_true in E1.
    apply negb_true_iff, bool_decide_eq_false in E2.
    exists (recover new existing). split_and!; [done|apply recover_evolves|done..| |by destruct db].
    cbn [db_frames update]. induction (db_frames db) as [|x l IH]; cbn [map]; constructor; [|done].
    case_bool_decide; [right|by left]. by split_and!.
  - exists existing. split_and!; [done|reflexivity|done..| |by destruct db].
    induction (db_frames db) as [|x l IH]; constructor; auto.
Qed.

(** ** Insertion *)

Lemma insert_frame_Some row db db' : insert_frame row db = Some db' <->
  (forall r u, r ∈ db_frames db -> fr_source_frame_uid row = Some u -> fr_source_frame_uid r <> Some u) /\
  (forall r k, r ∈ db_frames db -> source_identity row = Some k -> source_identity r <> Some k) /\
  (forall r k, r ∈ db_frames db -> legacy_key row = Some k -> legacy_key r <> Some k) /\
  db' = db <| db_frames := db_frames db ++ [row <| fr_id := next_frame_id db |>] |>.
Proof.
  unfold insert_frame. destruct (_ && _ && _) eqn:E.
  - rewrite !andb_true_iff, !unique_in_spec in E. destruct E as [[E1 E2] E3]. split; [intros [= <-]|by intros (_ & _ & _ & ->)].
    split_and!; done.
  - split; [done|]. intros (E1 & E2 & E3 & _). apply not_true_iff_false in E. exfalso. apply E.
    rewrite !andb_true_iff, !unique_in_spec. done.
Qed.

Lemma inserted_ok row db db' :
  frames_ok db -> resolves row -> insert_frame row db = Some db' ->
  frames_ok db' /\ frames_later (db_frames db) (db_frames db').
Proof.
  intros Hok0. pose proof (next_frame_id_length db Hok0) as Hnext. destruct Hok0 as [H1 H2 H3 H4 H5]. intros Hr (E1 & E2 & E3 & ->)%insert_frame_Some. cbn [db_frames update].
  set (new := row <| fr_id := next_frame_id db |>).
  assert (forall B (key : Frame -> option B) r r' k,
    key new = key row ->
    (forall r k, r ∈ db_frames db -> key row = Some k -> key r <> Some k) ->
    (forall r r' k, r ∈ db_frames db -> r' ∈ db_frames db -> key r = Some k -> key r' = Some k -> r = r') ->
    r ∈ db_frames db ++ [new] -> r' ∈ db_frames db ++ [new] -> key r = Some k -> key r' = Some k -> r = r') as Hu.
  { intros B key r r' k Hk Hn Ho [Hr1|Hr1%list_elem_of_singleton]%elem_of_app
      [Hr2|Hr2%list_elem_of_singleton]%elem_of_app K1 K2; subst; [by eapply Ho| | |done].
    - rewrite Hk in K2. by destruct (Hn _ _ Hr1 K2).
    - rewrite Hk in K1. by destruct (Hn _ _ Hr2 K1). }
  split.
  - split; cbn [db_frames].
    + intros i r [Hi|[Hi Hx]]%lookup_app_Some; [by apply H1|].
      apply list_lookup_singleton_Some in Hx as [Hi0 <-]. cbn. rewrite Hnext. lia.
    + intros r r' u. by apply Hu.
    + intros r r' k. by apply Hu.
    + intros r r' k. by apply Hu.
    + intros r [Hr1|Hr1%list_elem_of_singleton]%elem_of_app; [by apply H5|subst]. exact Hr.
  - exists [new]. rewrite take_app_length. split; [|done]. reflexivity.
Qed.

Lemma same_frame_unique db u d t m r r' : frames_ok db -> (u = None -> m = IDENTITY_MODE_LEGACY) ->
  r ∈ db_frames db -> r' ∈ db_frames db ->
  same_frame u d t m r = true -> same_frame u d t m r' = true -> r = r'.
Proof.
  intros Hok Hm Hr Hr'. unfold same_frame. destruct u as [u|].
  - rewrite !bool_decide_eq_true. by apply (fo_uid _ Hok).
  - rewrite !andb_true_iff, !bool_decide_eq_true, (Hm eq_refl).
    intros [[D1 T1] M1] [[D2 T2] M2]. apply (fo_legacy _ Hok r r' (d, t)); [done..| |];
      unfold legacy_key; rewrite bool_decide_eq_true_2 by done; congruence.
Qed.

(** The identity a row gets without a natural identity is the legacy one. *)
Lemma resolve_cases s c n d uid mode :
  resolve_frame_identity s c n d = Ok (uid, mode) ->
  (has_natural_identity s c n = true /\ is_Some uid /\
   (has_text d = true -> mode = IDENTITY_MODE_V2)) \/
  (has_natural_identity s c n = false /\ uid = None /\ mode = IDENTITY_MODE_LEGACY).
Proof.
  unfold resolve_frame_identity. intros (u & Hu & [= <- <-])%result_bind_Ok.
  destruct (has_natural_identity s c n); [left|right].
  - destruct (build_source_frame_uid _ _ _) as [x|[e]]; [|done]. injection Hu as <-.
    split_and!; [done|by eexists|]. by intros ->.
  - by injection Hu as <-.
Qed.

Definition resolved_row (uid : option string) (mode : string) (new : Frame) : Frame :=
  new <| fr_source_frame_uid := uid |> <| fr_identity_mode := mode |>.

Lemma legacy_key_Some r d t : legacy_key r = Some (d, t) <->
  fr_identity_mode r = "LEGACY" /\ fr_device_id r = d /\ fr_timestamp r = t.
Proof.
  unfold legacy_key. destruct (decide (fr_identity_mode r = "LEGACY")).
  - rewrite bool_decide_eq_true_2 by done. naive_solver congruence.
  - rewrite bool_decide_eq_false_2 by done. naive_solver.
Qed.

(** Where a frame's identity is text and carries a digest, a failed insert
    means that the same frame has a row. *)
Lemma insert_conflict db uid mode new :
  frames_ok db ->
  resolve_frame_identity (fr_source_session_id new) (fr_camera_stream_id new) (fr_frame_sequence new)
    (fr_content_digest new) = Ok (uid, mode) ->
  insert_frame (resolved_row uid mode new) db = None ->
  (has_natural_identity (fr_source_session_id new) (fr_camera_stream_id new) (fr_frame_sequence new) = true ->
   has_text (fr_content_digest new) = true) ->
  (has_natural_identity (fr_source_session_id new) (fr_camera_stream_id new) (fr_frame_sequence new) = true \/
   source_identity new = None) ->
  exists r, r ∈ db_frames db /\ same_frame uid (fr_device_id new) (fr_timestamp new) mode r = true.
Proof.
  intros Hok Hres Hins Hdig Htext. unfold insert_frame in Hins.
  destruct (_ && _ && _) eqn:E; [done|]. clear Hins.
  assert (forall B `{EqDecision B} (key : Frame -> option B) row l, unique_in key row l = false ->
    exists r k, r ∈ l /\ key row = Some k /\ key r = Some k) as Hnu.
  { intros B HB key row l. unfold unique_in. destruct (key row) as [k|]; [|done].
    intros Hf. apply not_true_iff_false in Hf. destruct (existsb (fun r => bool_decide (key r = Some k)) l) eqn:Ex.
    - apply existsb_exists in Ex as (r & Hr & Hk%bool_decide_eq_true). exists r, k. by rewrite list_elem_of_In.
    - exfalso. apply Hf, forallb_forall. intros r Hr. apply negb_true_iff.
      destruct (bool_decide (key r = Some k)) eqn:Eb; [|done].
      apply not_true_iff_false in Ex. exfalso. apply Ex, existsb_exists. eauto. }
  apply andb_false_iff in E as [[E|E]%andb_false_iff|E]; apply Hnu in E as (r & k & Hr & K1 & K2).
  - exists r. split; [done|]. cbn in K1. rewrite K1. cbn. by rewrite bool_decide_eq_true_2.
  - change (source_identity new = Some k) in K1.
    destruct Htext as [Hnat|Hnone]; [|congruence]. exists r. split; [done|].
    destruct (resolve_cases _ _ _ _ _ _ Hres) as [(_ & [u ->] & _)|(Hf & _)]; [|congruence]. cbn.
    apply bool_decide_eq_true.
    assert (fr_source_session_id r = fr_source_session_id new /\ fr_camera_stream_id r = fr_camera_stream_id new /\
      fr_frame_sequence r = fr_frame_sequence new) as (A1 & A2 & A3).
    { unfold source_identity in K1, K2.
      destruct (fr_source_session_id r), (fr_camera_stream_id r), (fr_frame_sequence r),
        (fr_source_session_id new), (fr_camera_stream_id new), (fr_frame_sequence new); cbn in K1, K2; naive_solver congruence. }
    pose proof (fo_resolved _ Hok r Hr) as Hrr. unfold resolves in Hrr. rewrite A1, A2, A3 in Hrr.
    unfold resolve_frame_identity in Hres, Hrr. rewrite Hnat in Hres, Hrr.
    destruct (build_source_frame_uid _ _ _) as [x|[e]]; [|done]. cbn in Hres, Hrr. congruence.
  - destruct k as [d t]. apply legacy_key_Some in K1 as (M1 & D1 & T1), K2 as (M2 & D2 & T2). cbn in M1, D1, T1.
    destruct (resolve_cases _ _ _ _ _ _ Hres) as [(Hn & _ & Hv)|(_ & -> & ->)].
    + by rewrite (Hv (Hdig Hn)) in M1.
    + exists r. split; [done|]. cbn. rewrite !bool_decide_eq_true_2; [done|by rewrite M2|congruence..].
Qed.

Lemma find_existing_unique db u d t m r : frames_ok db -> (u = None -> m = IDENTITY_MODE_LEGACY) ->
  r ∈ db_frames db -> same_frame u d t m r = true -> _find_existing_frame db u d t m = Some r.
Proof.
  intros Hok Hm Hr Hs. unfold _find_existing_frame.
  destruct (find (same_frame u d t m) (db_frames db)) as [r'|] eqn:Ef.
  - apply find_same_Some in Ef as [Hr' Hs']. f_equal. by eapply same_frame_unique.
  - rewrite (find_same_None _ _ _ _ _ Ef r Hr) in Hs. done.
Qed.

Lemma resolve_mode s c n d uid mode :
  resolve_frame_identity s c n d = Ok (uid, mode) -> uid = None -> mode = IDENTITY_MODE_LEGACY.
Proof. intros [(_ & [u ->] & _)|(_ & _ & ->)]%resolve_cases; done. Qed.

(** The row of an earlier state, as it is now. *)
Lemma later_row old new r : frames_later old new -> r ∈ old -> exists r', r' ∈ new /\ evolves r r'.
Proof.
  intros Hl [i Hi]%list_elem_of_lookup. destruct (frames_later_lookup _ _ _ _ Hl Hi) as (r' & Hr' & He).
  exists r'. split; [by eapply list_elem_of_lookup_2|done].
Qed.

Lemma accepted_later db db' existing new :
  Forall2 (fun x x' => x' = x \/ fr_id x = fr_id existing /\ fr_archive_state new = "ARCHIVE_DURABLE" /\
                       fr_archive_state existing <> "ARCHIVE_DURABLE" /\ x' = recover new x)
          (db_frames db) (db_frames db') ->
  Forall2 evolves (db_frames db) (db_frames db') /\ frames_later (db_frames db) (db_frames db') /\
  length (db_frames db') = length (db_frames db).
Proof.
  intros H1. assert (Forall2 evolves (db_frames db) (db_frames db')) as He.
  { eapply Forall2_impl; [exact H1|]. intros x x' [->|(_ & _ & _ & ->)]; [reflexivity|apply recover_evolves]. }
  split; [done|]. pose proof (Forall2_length _ _ _ He) as Hlen.
  split; [|done]. exists []. rewrite app_nil_r, Hlen, firstn_all. done.
Qed.

(** What a call that returns a frame has done. *)
Definition stored_as (db : database) (new row : Frame) : Prop :=
  exists stored, stored ∈ db_frames db /\ fr_id stored = fr_id row /\ evolves row stored /\
    declared_scope stored = declared_scope new /\
    (fr_source_frame_uid stored <> None -> fr_content_digest stored <> None ->
     fr_content_digest new <> None -> fr_content_digest stored = fr_content_digest new).

Lemma accept_existing_ok read db existing new uid d t m db' r :
  frames_ok db -> frames_later (db_frames read) (db_frames db) -> existing ∈ db_frames read ->
  same_frame uid d t m existing = true ->
  accept_existing db existing new = (db', r) ->
  frames_ok db' /\ frames_later (db_frames db) (db_frames db') /\
  length (db_frames db') = length (db_frames db) /\
  match r with
  | Raise e => db' = db
  | Ok row => stored_as db' new row /\ same_frame uid d t m row = true
  end.
Proof.
  intros Hok Hl Hin Hs Ha. destruct (accept_existing_cases _ _ _ _ _ Ha)
    as [(e & -> & ->)|(row & -> & He & Hdig & Hscope & Hrows & Hdb)].
  - split; [done|]. split; [apply frames_later_refl|done].
  - destruct (accepted_later _ _ _ _ Hrows) as (Hev & Hlater & Hlen).
    rewrite Hdb. split; [by apply evolved_ok|]. rewrite <- Hdb. split; [done|]. split; [done|].
    destruct (later_row _ _ _ Hl Hin) as (x & Hx & Ex).
    destruct (later_row _ _ _ Hlater Hx) as (y & Hy & Ey).
    assert (evolves existing y) as Exy by (by transitivity x).
    destruct (evolves_fields _ _ Exy) as (I1 & I2 & _ & _ & I3 & I4 & _).
    destruct (evolves_fields _ _ He) as (J1 & _ & _ & _ & _ & _ & _ & J2). split.
    + exists y. split_and!; [done|congruence| |congruence|by rewrite I2, I3].
      transitivity existing; [by symmetry|done].
    + by rewrite J2.
Qed.

(** [create_frame] on every branch, from whatever state it read. The
    frame table stays consistent — ids are the insertion order, no two rows
    share a source frame or a legacy key, every row carries the identity its
    columns resolve to — and rows are never removed or changed but for their
    archive state. A call that raises changes nothing; one that returns
    either appended one row, when the frame had none, or found the frame's
    row, whose authorization scope and digest are those of the call. *)
Theorem create_frame_effect read now new db' r :
  create_frame read now new = (db', r) ->
  frames_ok read -> frames_ok now -> frames_later (db_frames read) (db_frames now) ->
  frames_ok db' /\ frames_later (db_frames now) (db_frames db') /\
  match r with
  | Raise e => db' = now
  | Ok row => exists uid mode,
      resolve_frame_identity (fr_source_session_id new) (fr_camera_stream_id new) (fr_frame_sequence new)
        (fr_content_digest new) = Ok (uid, mode) /\
      same_frame uid (fr_device_id new) (fr_timestamp new) mode row = true /\ stored_as db' new row /\
      (length (db_frames db') = length (db_frames now) \/
       db_frames db' = db_frames now ++ [row] /\
       forall x, x ∈ db_frames now -> same_frame uid (fr_device_id new) (fr_timestamp new) mode x = false)
  end.
Proof.
  intros Hc Hread Hok Hl. unfold create_frame in Hc.
  destruct (resolve_frame_identity _ _ _ _) as [[uid mode]|e] eqn:Er;
    [|injection Hc as <- <-; split; [done|]; split; [apply frames_later_refl|done]].
  pose proof (resolve_mode _ _ _ _ _ _ Er) as Hmode.
  destruct (_find_existing_frame read _ _ _ _) as [x|] eqn:Ef.
  - apply find_same_Some in Ef as [Hx Hs].
    destruct (accept_existing_ok _ _ _ _ _ _ _ _ _ _ Hok Hl Hx Hs Hc) as (H1 & H2 & H3 & H4).
    split; [done|]. split; [done|]. destruct r; [|done]. exists uid, mode. destruct H4. auto.
  - destruct (insert_frame _ now) as [d|] eqn:Ei.
    + injection Hc as <- <-. pose proof Ei as Ei'.
      assert (resolves (resolved_row uid mode new)) as Hres by exact Er.
      destruct (inserted_ok _ _ _ Hok Hres Ei) as [H1 H2].
      split; [done|]. split; [done|]. exists uid, mode.
      apply insert_frame_Some in Ei as (U1 & U2 & U3 & ->). cbn [db_frames update].
      change (new <| fr_source_frame_uid := uid |> <| fr_identity_mode := mode |>) with (resolved_row uid mode new) in *.
      set (row := resolved_row uid mode new <| fr_id := next_frame_id now |>) in *.
      assert (same_frame uid (fr_device_id new) (fr_timestamp new) mode row = true) as Hs.
      { unfold same_frame. destruct uid; [by apply bool_decide_eq_true|].
        rewrite !bool_decide_eq_true_2; done. }
      split; [done|]. split; [done|]. split.
      * exists row. split_and!; [apply elem_of_app; right; apply list_elem_of_singleton|..]; done.
      * right. split; [done|]. intros x Hx. apply not_true_iff_false. intros Hsx.
        unfold same_frame in Hsx. destruct uid as [u|].
        { apply bool_decide_eq_true in Hsx. by apply (U1 x u Hx eq_refl). }
        bools in Hsx. destruct Hsx as [[D T] M].
        rewrite (Hmode eq_refl) in *.
        apply (U3 x (fr_device_id new, fr_timestamp new) Hx); apply legacy_key_Some; done.
    + destruct (_find_existing_frame now _ _ _ _) as [x|] eqn:Ef2;
        [|injection Hc as <- <-; split; [done|]; split; [apply frames_later_refl|done]].
      apply find_same_Some in Ef2 as [Hx Hs].
      destruct (accept_existing_ok now _ _ _ _ _ _ _ _ _ Hok (frames_later_refl _) Hx Hs Hc) as (H1 & H2 & H3 & H4).
      split; [done|]. split; [done|]. destruct r; [|done]. exists uid, mode. destruct H4. auto.
Qed.

(** A frame is stored once. After a call that returned a row, a call for
    the same source frame with the same digest and scope — from any state it
    may have read — returns the row with the same id and adds none, so that
    redelivery and concurrent reception are safe. *)
Theorem frame_created_once read now new db1 row read2 now2 new2 :
  create_frame read now new = (db1, Ok row) ->
  frames_ok read -> frames_ok now -> frames_later (db_frames read) (db_frames now) ->
  frames_ok read2 -> frames_ok now2 -> frames_later (db_frames read2) (db_frames now2) ->
  frames_later (db_frames db1) (db_frames now2) ->
  fr_source_session_id new2 = fr_source_session_id new -> fr_camera_stream_id new2 = fr_camera_stream_id new ->
  fr_frame_sequence new2 = fr_frame_sequence new -> fr_content_digest new2 = fr_content_digest new ->
  fr_device_id new2 = fr_device_id new -> fr_timestamp new2 = fr_timestamp new ->
  declared_scope new2 = declared_scope new ->
  exists db2 row2, create_frame read2 now2 new2 = (db2, Ok row2) /\ fr_id row2 = fr_id row /\
    length (db_frames db2) = length (db_frames now2).
Proof.
  intros Hc Hread Hok Hl Hread2 Hok2 Hl2 Hl12 Es Ec En Ed Edev Et Escope.
  destruct (create_frame_effect _ _ _ _ _ Hc Hread Hok Hl) as (Hok1 & Hl1 & uid & mode & Er & Hs & (st & Hst & Hid & Hev & Hsc & Hdg) & _).
  pose proof (resolve_mode _ _ _ _ _ _ Er) as Hmode.
  destruct (later_row _ _ _ Hl12 Hst) as (y & Hy & Ey).
  assert (evolves row y) as Erow by (by transitivity st).
  destruct (evolves_fields _ _ Erow) as (I1 & _ & _ & _ & _ & _ & _ & I8).
  destruct (evolves_fields _ _ Ey) as (_ & J2 & _ & _ & J5 & J6 & _ & _).
  assert (forall d x, frames_later (db_frames d) (db_frames now2) -> frames_ok d ->
    _find_existing_frame d uid (fr_device_id new2) (fr_timestamp new2) mode = Some x ->
    fr_id x = fr_id row /\ exists db2 row2, accept_existing now2 x new2 = (db2, Ok row2) /\
      fr_id row2 = fr_id row /\ length (db_frames db2) = length (db_frames now2)) as Hacc.
  { intros d x Hld Hokd [Hx Hsx]%find_same_Some. destruct (later_row _ _ _ Hld Hx) as (z & Hz & Ez).
    destruct (evolves_fields _ _ Ez) as (K1 & K2 & _ & _ & K5 & K6 & _ & K8).
    assert (z = y) as ->.
    { apply (same_frame_unique now2 uid (fr_device_id new2) (fr_timestamp new2) mode); [done..| |].
      - by rewrite K8.
      - by rewrite I8, Edev, Et. }
    split; [congruence|].
    assert (_verify_duplicate_digest x (fr_content_digest new2) = Ok tt) as Hvd.
    { apply raise_unless_Ok. apply negb_true_iff, not_true_iff_false.
      bools. intros (((A & B) & C) & D). apply D.
      rewrite Ed. rewrite <- K5, J5. apply Hdg; congruence. }
    assert (_verify_duplicate_scope x new2 = Ok tt) as Hvs.
    { apply raise_unless_Ok, bool_decide_eq_true. congruence. }
    destruct (accept_existing now2 x new2) as [db2 r2] eqn:Ea.
    destruct (accept_existing_cases _ _ _ _ _ Ea) as [(e & -> & ->)|(row2 & -> & He & _ & _ & Hrows & _)].
    - unfold accept_existing in Ea. rewrite Hvd in Ea. cbn in Ea. rewrite Hvs in Ea.
      by destruct (_apply_archive_recovery now2 x new2).
    - exists db2, row2. split; [done|]. destruct (evolves_fields _ _ He) as (-> & _).
      split; [congruence|]. by destruct (accepted_later _ _ _ _ Hrows) as (_ & _ & ->). }
  unfold create_frame. rewrite Es, Ec, En, Ed, Er.
  destruct (_find_existing_frame read2 _ _ _ _) as [x|] eqn:Ef; [by apply (Hacc read2)|].
  assert (same_frame uid (fr_device_id new2) (fr_timestamp new2) mode y = true) as Hsy
    by (by rewrite I8, Edev, Et).
  destruct (insert_frame _ now2) as [d|] eqn:Ei.
  - exfalso. apply insert_frame_Some in Ei as (U1 & _ & U3 & _). unfold same_frame in Hsy.
    destruct uid as [u|].
    + apply bool_decide_eq_true in Hsy. by apply (U1 y u Hy eq_refl).
    + bools in Hsy. destruct Hsy as [[D T] M].
      rewrite (Hmode eq_refl) in *.
      apply (U3 y (fr_device_id new2, fr_timestamp new2) Hy); apply legacy_key_Some; done.
  - rewrite (find_existing_unique now2 uid _ _ mode y) by done.
    apply (Hacc now2 y); [apply frames_later_refl|done|by apply find_existing_unique].
Qed.

(** With a textual identity and a digest, or none of the identity
    columns in use, a commit never fails for good: a constraint violation
    means that the same frame has a row, which is then accepted or refused
    like any duplicate. *)
Theorem create_frame_no_commit_error read now new :
  frames_ok now ->
  (has_natural_identity (fr_source_session_id new) (fr_camera_stream_id new) (fr_frame_sequence new) = true ->
   has_text (fr_content_digest new) = true) ->
  (has_natural_identity (fr_source_session_id new) (fr_camera_stream_id new) (fr_frame_sequence new) = true \/
   source_identity new = None) ->
  (create_frame read now new).2 <> Raise FrameCommitError.
Proof.
  intros Hok Hd Ht. assert (forall db x, (accept_existing db x new).2 <> Raise FrameCommitError) as Ha.
  { intros db x. unfold accept_existing, _verify_duplicate_digest, _verify_duplicate_scope, raise_unless.
    destruct (negb _); [|done]. cbn. case_bool_decide; [|done].
    by destruct (_apply_archive_recovery db x new). }
  unfold create_frame. destruct (resolve_frame_identity _ _ _ _) as [[uid mode]|e] eqn:Er.
  - destruct (_find_existing_frame read _ _ _ _); [apply Ha|].
    destruct (insert_frame _ now) eqn:Ei; [done|].
    destruct (insert_conflict _ _ _ _ Hok Er Ei Hd Ht) as (r & Hr & Hs).
    rewrite (find_existing_unique now _ _ _ _ r Hok (resolve_mode _ _ _ _ _ _ Er) Hr Hs). apply Ha.
  - cbn. intros [= ->]. unfold resolve_frame_identity in Er.
    destruct (has_natural_identity _ _ _); [|done].
    by destruct (build_source_frame_uid _ _ _) as [x|[m]].
Qed.
End Frames.

(** ** Blank identities

    An identity of blank text counts as none, but its columns still take
    part in [uq_frame_source_identity]: two frames of blank session and
    camera with the same sequence number collide, and the second one's
    metadata is lost. *)
Definition demo_frame (session camera : option string) (sequence : option Z) (timestamp : Z) : Frame :=
  mkFrame 0 "dev" timestamp (Some "dev.jpg") session camera sequence None (Some "digest") "LEGACY"
    "ARCHIVE_DURABLE" None (Some 4) None None None None None None None None None None None None None.

Lemma blank_identity_collides :
  let first := create_frame (H := transparent_hashing) empty_database empty_database
                 (demo_frame (Some "") (Some "cam") (Some 5) 100) in
  (create_frame (H := transparent_hashing) first.1 first.1
     (demo_frame (Some "") (Some "cam") (Some 5) 200)).2 = Raise FrameCommitError.
Proof. by vm_compute. Qed.

(** ** Witnesses *)

Definition demo_new : Frame := demo_frame (Some "s") (Some "cam") (Some 5) 100.
Definition demo_frames : database :=
  (create_frame (H := transparent_hashing) empty_database empty_database demo_new).1.

Lemma empty_frames_ok : frames_ok (H := transparent_hashing) empty_database.
Proof. split; intros; cbn in *; set_solver. Qed.

Lemma demo_frames_row : exists row,
  create_frame (H := transparent_hashing) empty_database empty_database demo_new = (demo_frames, Ok row) /\
  fr_id row = 1.
Proof. eexists. split; [vm_compute; reflexivity|reflexivity]. Qed.

Lemma create_frame_effect_witness : frames_ok (H := transparent_hashing) demo_frames.
Proof.
  destruct demo_frames_row as (row & Hc & _).
  apply (create_frame_effect (H := transparent_hashing) _ _ _ _ _ Hc empty_frames_ok empty_frames_ok (frames_later_refl _)).
Defined.

Lemma frame_created_once_witness : exists db2 row2,
  create_frame (H := transparent_hashing) empty_database demo_frames demo_new = (db2, Ok row2) /\ fr_id row2 = 1.
Proof.
  destruct demo_frames_row as (row & Hc & Hid).
  assert (frames_ok (H := transparent_hashing) demo_frames) as Hok
    by apply (create_frame_effect (H := transparent_hashing) _ _ _ _ _ Hc empty_frames_ok empty_frames_ok (frames_later_refl _)).
  destruct (frame_created_once (H := transparent_hashing) empty_database empty_database demo_new demo_frames row
    empty_database demo_frames demo_new Hc empty_frames_ok empty_frames_ok (frames_later_refl _)
    empty_frames_ok Hok) as (db2 & row2 & H2 & Hid2 & _);
    [by exists (db_frames demo_frames)|apply frames_later_refl|reflexivity..|].
  exists db2, row2. split; [exact H2|congruence].
Defined.

Lemma create_frame_no_commit_error_witness :
  (create_frame (H := transparent_hashing) empty_database empty_database demo_new).2 <> Raise FrameCommitError.
Proof.
  apply create_frame_no_commit_error; [apply empty_frames_ok|by vm_compute|left; by vm_compute].
Defined.
