(* ===== verification/AlertReceiver.v ===== *)
(** * The alert receiver

    src/app/services/alerts/relay_v2_receiver.py: alerts of the processor
    reach the user at most once and in the order of a hazard's versions.
    [receive] is one [BEGIN IMMEDIATE] transaction, so calls are serial; a
    raise rolls it back. SQLite stores integers of 64 bits: binding a larger
    one raises. *)

From S2P Require Import Prelude Json Digest.

(** [ValueError], [sqlite3.IntegrityError] and [OverflowError]. *)
Inductive receiver_error :=
| ReceiverValueError (message : string)
| ReceiverIntegrityError
| ReceiverOverflowError.

Definition RECEIVER_CONTRACT_VERSION : Z := 1.
Definition VALID_STATES : list string := ["CLEAR"; "WARNING"; "DANGER"; "UNKNOWN"].
Definition EXPECTED_SEVERITY : list (string * string) :=
  [("CLEAR", "info"); ("WARNING", "warning"); ("DANGER", "danger"); ("UNKNOWN", "warning")].

(** [ev_alert_payload] is the dict's items, or [None] for a dict that is not
    JSON data (a NaN, an object [json.dumps] refuses). *)
Record RelayV2AlertEnvelope := mkRelayV2AlertEnvelope {
  ev_contract_version : Z;
  ev_idempotency_key : string;
  ev_payload_digest : string;
  ev_processing_job_id : string;
  ev_frame_set_uid : string;
  ev_transition_event_id : string;
  ev_hazard_key : string;
  ev_from_state : string;
  ev_to_state : string;
  ev_from_version : Z;
  ev_to_version : Z;
  ev_severity : string;
  ev_observation_event_utc_ms : Z;
  ev_delivery_deadline_utc_ms : Z;
  ev_alert_payload : option (list (string * json));
}.

#[export] Instance RelayV2AlertEnvelope_settable : Settable RelayV2AlertEnvelope := fun x => mkRelayV2AlertEnvelope
  (ev_contract_version x) (ev_idempotency_key x) (ev_payload_digest x) (ev_processing_job_id x)
  (ev_frame_set_uid x) (ev_transition_event_id x) (ev_hazard_key x) (ev_from_state x)
  (ev_to_state x) (ev_from_version x) (ev_to_version x) (ev_severity x)
  (ev_observation_event_utc_ms x) (ev_delivery_deadline_utc_ms x) (ev_alert_payload x).

Record RelayV2ReceiveResult := mkRelayV2ReceiveResult {
  rr_contract_version : Z;
  rr_idempotency_key : string;
  rr_payload_digest : string;
  rr_status : string;
  rr_receiver_hazard_version : Z;
  rr_user_visible_effect_applied : bool;
  rr_received_at_utc_ms : Z;
  rr_delivery_deadline_met : option bool;
}.

#[export] Instance RelayV2ReceiveResult_settable : Settable RelayV2ReceiveResult := fun x => mkRelayV2ReceiveResult
  (rr_contract_version x) (rr_idempotency_key x) (rr_payload_digest x) (rr_status x)
  (rr_receiver_hazard_version x) (rr_user_visible_effect_applied x) (rr_received_at_utc_ms x)
  (rr_delivery_deadline_met x).

#[export] Instance RelayV2ReceiveResult_eq_dec : EqDecision RelayV2ReceiveResult.
Proof. solve_decision. Defined.

(** [relay_v2_receiver_hazards], by [hazard_key]. *)
Record HazardRow := mkHazardRow {
  hz_state : string;
  hz_version : Z;
  hz_updated_at_ms : Z;
}.

#[export] Instance HazardRow_settable : Settable HazardRow := fun x => mkHazardRow (hz_state x)
  (hz_version x) (hz_updated_at_ms x).

#[export] Instance HazardRow_eq_dec : EqDecision HazardRow.
Proof. solve_decision. Defined.

(** [relay_v2_alert_receipts], by [idempotency_key]. *)
Record ReceiptRow := mkReceiptRow {
  rp_payload_digest : string;
  rp_hazard_key : string;
  rp_status : string;
  rp_receiver_hazard_version : Z;
  rp_received_at_ms : Z;
  rp_delivery_deadline_met : option bool;
}.

#[export] Instance ReceiptRow_settable : Settable ReceiptRow := fun x => mkReceiptRow
  (rp_payload_digest x) (rp_hazard_key x) (rp_status x) (rp_receiver_hazard_version x)
  (rp_received_at_ms x) (rp_delivery_deadline_met x).

#[export] Instance ReceiptRow_eq_dec : EqDecision ReceiptRow.
Proof. solve_decision. Defined.

(** [relay_v2_alert_effects], in insertion order. *)
Record EffectRow := mkEffectRow {
  ef_idempotency_key : string;
  ef_hazard_key : string;
  ef_hazard_version : Z;
  ef_payload_json : string;
  ef_created_at_ms : Z;
  ef_delivery_deadline_met : bool;
}.

#[export] Instance EffectRow_settable : Settable EffectRow := fun x => mkEffectRow
  (ef_idempotency_key x) (ef_hazard_key x) (ef_hazard_version x) (ef_payload_json x)
  (ef_created_at_ms x) (ef_delivery_deadline_met x).

#[export] Instance EffectRow_eq_dec : EqDecision EffectRow.
Proof. solve_decision. Defined.

(** [relay_v2_alert_conflicts], in insertion order. *)
Record ConflictRow := mkConflictRow {
  cf_idempotency_key : string;
  cf_claimed_payload_digest : string;
  cf_reason : string;
  cf_received_at_ms : Z;
}.

#[export] Instance ConflictRow_settable : Settable ConflictRow := fun x => mkConflictRow
  (cf_idempotency_key x) (cf_claimed_payload_digest x) (cf_reason x) (cf_received_at_ms x).

#[export] Instance ConflictRow_eq_dec : EqDecision ConflictRow.
Proof. solve_decision. Defined.

Record receiver := mkReceiver {
  rv_hazards : gmap string HazardRow;
  rv_receipts : gmap string ReceiptRow;
  rv_effects : list EffectRow;
  rv_conflicts : list ConflictRow;
}.

#[export] Instance receiver_settable : Settable receiver := fun x => mkReceiver (rv_hazards x)
  (rv_receipts x) (rv_effects x) (rv_conflicts x).

(** The tables [_initialize] makes. *)
Definition new_receiver : receiver := mkReceiver ∅ ∅ [] [].

Definition int64 (z : Z) : bool := (- 2 ^ 63 <=? z) && (z <? 2 ^ 63).
Definition bind_int (z : Z) : result receiver_error unit := raise_unless (int64 z) ReceiverOverflowError.

Definition _canonical_payload (payload : option (list (string * json))) : result receiver_error string :=
  match payload with
  | Some items => Ok (dumps (JObj items))
  | None => Raise (ReceiverValueError "alert payload must be canonical JSON data")
  end.

Definition _hazard_version (r : receiver) (hazard_key : string) : Z :=
  match rv_hazards r !! hazard_key with Some row => hz_version row | None => 0 end.

Definition _result (e : RelayV2AlertEnvelope) (status : string) (version received_at : Z)
    (deadline_met : option bool) (effect_applied : bool) : RelayV2ReceiveResult :=
  mkRelayV2ReceiveResult RECEIVER_CONTRACT_VERSION (ev_idempotency_key e) (ev_payload_digest e) status
    version effect_applied received_at deadline_met.

Definition _record_receipt (r : receiver) (e : RelayV2AlertEnvelope) (received_at : Z) (status : string)
    (receiver_hazard_version : Z) (deadline_met : option bool) : result receiver_error receiver :=
  _ ← bind_int receiver_hazard_version; _ ← bind_int received_at;
  match rv_receipts r !! ev_idempotency_key e with
  | Some _ => Raise ReceiverIntegrityError
  | None => Ok (r <| rv_receipts ::= <[ev_idempotency_key e :=
      mkReceiptRow (ev_payload_digest e) (ev_hazard_key e) status receiver_hazard_version received_at
        deadline_met]> |>)
  end.

Definition _record_rejection (r : receiver) (e : RelayV2AlertEnvelope) (received_at : Z)
    (status : string) (receiver_hazard_version : option Z) : result receiver_error receiver :=
  _record_receipt r e received_at status
    (default (_hazard_version r (ev_hazard_key e)) receiver_hazard_version) None.

Definition _record_conflict (r : receiver) (e : RelayV2AlertEnvelope) (received_at : Z) (reason : string)
    : result receiver_error receiver :=
  _ ← bind_int received_at;
  Ok (r <| rv_conflicts ::= fun l => l ++ [mkConflictRow (ev_idempotency_key e) (ev_payload_digest e)
                                              reason received_at] |>).

Definition required_values (e : RelayV2AlertEnvelope) : list string :=
  [ev_idempotency_key e; ev_payload_digest e; ev_processing_job_id e; ev_frame_set_uid e;
   ev_transition_event_id e; ev_hazard_key e].

(** [None], or the status of the refusal. *)
Definition _validate (e : RelayV2AlertEnvelope) (actual_digest : string) : option string :=
  if negb (ev_contract_version e =? RECEIVER_CONTRACT_VERSION) then Some "REJECTED"
  else if existsb (fun v => negb (truthy (strip v))) (required_values e) then Some "REJECTED"
  else if negb (bool_decide (actual_digest = ev_payload_digest e)) then Some "CONFLICT"
  else if negb (bool_decide (ev_from_state e ∈ VALID_STATES)) ||
          negb (bool_decide (ev_to_state e ∈ VALID_STATES)) then Some "REJECTED"
  else if negb (bool_decide (dict_get (ev_to_state e) EXPECTED_SEVERITY = Some (ev_severity e)))
  then Some "REJECTED"
  else if (ev_from_version e <? 0) || negb (ev_to_version e =? ev_from_version e + 1) then Some "REJECTED"
  else if (ev_observation_event_utc_ms e <=? 0) || (ev_delivery_deadline_utc_ms e <=? 0)
  then Some "REJECTED"
  else None.

(** [INSERT ... ON CONFLICT(hazard_key) DO UPDATE ... WHERE version = ? AND state = ?]. *)
Definition upsert_hazard (r : receiver) (e : RelayV2AlertEnvelope) (received_at : Z)
    : result receiver_error receiver :=
  _ ← bind_int (ev_to_version e); _ ← bind_int received_at; _ ← bind_int (ev_from_version e);
  let row := mkHazardRow (ev_to_state e) (ev_to_version e) received_at in
  match rv_hazards r !! ev_hazard_key e with
  | None => if ev_to_version e <? 0 then Raise ReceiverIntegrityError
            else Ok (r <| rv_hazards ::= <[ev_hazard_key e := row]> |>)
  | Some old =>
      if (hz_version old =? ev_from_version e) && bool_decide (hz_state old = ev_from_state e)
      then Ok (r <| rv_hazards ::= <[ev_hazard_key e := row]> |>) else Ok r
  end.

Definition insert_effect (r : receiver) (e : RelayV2AlertEnvelope) (payload : string) (received_at : Z)
    (deadline_met : bool) : result receiver_error receiver :=
  if existsb (fun x => bool_decide (ef_idempotency_key x = ev_idempotency_key e)) (rv_effects r)
  then Raise ReceiverIntegrityError
  else Ok (r <| rv_effects ::= fun l => l ++ [mkEffectRow (ev_idempotency_key e) (ev_hazard_key e)
                                (ev_to_version e) payload received_at deadline_met] |>).

(** A validated alert that continues its hazard's history. *)
Definition apply_alert (r : receiver) (e : RelayV2AlertEnvelope) (payload : string) (received_at : Z)
    : result receiver_error (receiver * RelayV2ReceiveResult) :=
  let deadline_met := received_at <? ev_delivery_deadline_utc_ms e in
  r ← upsert_hazard r e received_at;
  r ← insert_effect r e payload received_at deadline_met;
  r ← _record_receipt r e received_at "APPLIED" (ev_to_version e) (Some deadline_met);
  Ok (r, _result e "APPLIED" (ev_to_version e) received_at (Some deadline_met) true).

Definition replay (e : RelayV2AlertEnvelope) (previous : ReceiptRow) (received_at : Z) : RelayV2ReceiveResult :=
  _result e (if bool_decide (rp_status previous = "APPLIED") then "DUPLICATE" else rp_status previous)
    (rp_receiver_hazard_version previous) received_at (rp_delivery_deadline_met previous) false.

Section Receive.
Context `{Hashing}.

Definition _payload_digest (payload : option (list (string * json))) : result receiver_error string :=
  text ← _canonical_payload payload; Ok (sha256_hex text).

(** The transaction of [receive]. *)
Definition receive_transaction (r : receiver) (received_at : Z) (e : RelayV2AlertEnvelope)
    (payload_digest : string) : result receiver_error (receiver * RelayV2ReceiveResult) :=
  let hazard_version := _hazard_version r (ev_hazard_key e) in
  match rv_receipts r !! ev_idempotency_key e with
  | Some previous =>
      if negb (bool_decide (rp_payload_digest previous = ev_payload_digest e))
      then
        r ← _record_conflict r e received_at "IDEMPOTENCY_DIGEST_CONFLICT";
        Ok (r, _result e "CONFLICT" hazard_version received_at None false)
      else Ok (r, replay e previous received_at)
  | None =>
      match _validate e payload_digest with
      | Some rejection =>
          r ← _record_rejection r e received_at rejection None;
          Ok (r, _result e rejection hazard_version received_at None false)
      | None =>
          let hazard := rv_hazards r !! ev_hazard_key e in
          let current_version := match hazard with None => 0 | Some row => hz_version row end in
          let current_state := match hazard with None => ev_from_state e | Some row => hz_state row end in
          if negb (current_version =? ev_from_version e) ||
             negb (bool_decide (current_state = ev_from_state e))
          then
            r ← _record_rejection r e received_at "VERSION_GAP" (Some current_version);
            Ok (r, _result e "VERSION_GAP" current_version received_at None false)
          else
            payload ← _canonical_payload (ev_alert_payload e);
            apply_alert r e payload received_at
      end
  end.

Definition receive (r : receiver) (received_at : Z) (e : RelayV2AlertEnvelope)
    : receiver * result receiver_error RelayV2ReceiveResult :=
  if received_at <=? 0 then (r, Raise (ReceiverValueError "receiver time must be positive"))
  else match (digest ← _payload_digest (ev_alert_payload e); receive_transaction r received_at e digest) with
       | Ok (r', res) => (r', Ok res)
       | Raise err => (r, Raise err)
       end.
End Receive.

(** ** Invariant *)

Definition versions_of (h : string) (l : list EffectRow) : list Z :=
  ef_hazard_version <$> filter (fun x => ef_hazard_key x = h) l.

Record receiver_ok (r : receiver) : Prop := {
  ro_effects : forall x, x ∈ rv_effects r -> exists p, rv_receipts r !! ef_idempotency_key x = Some p /\
    rp_status p = "APPLIED" /\ rp_hazard_key p = ef_hazard_key x /\
    rp_receiver_hazard_version p = ef_hazard_version x /\
    rp_delivery_deadline_met p = Some (ef_delivery_deadline_met x);
  ro_keys : NoDup (ef_idempotency_key <$> rv_effects r);
  ro_versions : forall h, versions_of h (rv_effects r) = seqZ 1 (_hazard_version r h);
  ro_int64 : forall h, 0 <= _hazard_version r h < 2 ^ 63;
}.

Lemma new_receiver_ok : receiver_ok new_receiver.
Proof.
  split.
  - intros x Hx. by apply not_elem_of_nil in Hx.
  - constructor.
  - intros h. reflexivity.
  - intros h. change (_hazard_version new_receiver h) with 0. lia.
Qed.

Lemma int64_true z : int64 z = true <-> - 2 ^ 63 <= z < 2 ^ 63.
Proof. unfold int64. by bools. Qed.

Lemma bind_int_Ok z u : bind_int z = Ok u <-> int64 z = true.
Proof. apply raise_unless_Ok. Qed.

Lemma validate_None e d : _validate e d = None ->
  d = ev_payload_digest e /\ ev_from_state e ∈ VALID_STATES /\ ev_to_state e ∈ VALID_STATES /\
  0 <= ev_from_version e /\ ev_to_version e = ev_from_version e + 1 /\
  Forall (fun v => strip v <> "") (required_values e) /\
  dict_get (ev_to_state e) EXPECTED_SEVERITY = Some (ev_severity e).
Proof.
  unfold _validate. intros H.
  destruct (negb _) eqn:E1 in H; [done|]. destruct (existsb _ _) eqn:E2; [done|].
  destruct (negb (bool_decide (d = _))) eqn:E3; [done|]. destruct (_ || _) eqn:E4 in H; [done|].
  destruct (negb (bool_decide (dict_get _ _ = _))) eqn:E5; [done|].
  destruct (_ || _) eqn:E6 in H; [done|]. clear H.
  apply negb_false_iff, bool_decide_eq_true in E3, E5.
  apply orb_false_iff in E4 as [E4 E4'], E6 as [E6 E6'].
  apply negb_false_iff, bool_decide_eq_true in E4, E4'. apply negb_false_iff in E6'.
  split_and!; [done..|lia|lia| |done].
  apply Forall_forall. intros v Hv Hs. apply not_true_iff_false in E2. apply E2, existsb_exists.
  exists v. split; [by apply list_elem_of_In|]. by rewrite Hs.
Qed.

(** ** The cases of a transaction *)

Inductive transaction_case `{Hashing} (r : receiver) (now : Z) (e : RelayV2AlertEnvelope)
    : receiver -> RelayV2ReceiveResult -> Prop :=
| case_conflict p :
    rv_receipts r !! ev_idempotency_key e = Some p -> rp_payload_digest p <> ev_payload_digest e ->
    transaction_case r now e
      (r <| rv_conflicts := rv_conflicts r ++ [mkConflictRow (ev_idempotency_key e) (ev_payload_digest e)
              "IDEMPOTENCY_DIGEST_CONFLICT" now] |>)
      (_result e "CONFLICT" (_hazard_version r (ev_hazard_key e)) now None false)
| case_replay p :
    rv_receipts r !! ev_idempotency_key e = Some p -> rp_payload_digest p = ev_payload_digest e ->
    transaction_case r now e r (replay e p now)
| case_refused status version :
    rv_receipts r !! ev_idempotency_key e = None -> status <> "APPLIED" ->
    version = _hazard_version r (ev_hazard_key e) ->
    transaction_case r now e
      (r <| rv_receipts := <[ev_idempotency_key e := mkReceiptRow (ev_payload_digest e) (ev_hazard_key e)
              status version now None]> (rv_receipts r) |>)
      (_result e status version now None false)
| case_applied items :
    rv_receipts r !! ev_idempotency_key e = None -> ev_alert_payload e = Some items ->
    _validate e (sha256_hex (dumps (JObj items))) = None -> int64 (ev_to_version e) = true ->
    _hazard_version r (ev_hazard_key e) = ev_from_version e ->
    (forall row, rv_hazards r !! ev_hazard_key e = Some row -> hz_state row = ev_from_state e) ->
    let met := now <? ev_delivery_deadline_utc_ms e in
    transaction_case r now e
      (mkReceiver (<[ev_hazard_key e := mkHazardRow (ev_to_state e) (ev_to_version e) now]> (rv_hazards r))
         (<[ev_idempotency_key e := mkReceiptRow (ev_payload_digest e) (ev_hazard_key e) "APPLIED"
              (ev_to_version e) now (Some met)]> (rv_receipts r))
         (rv_effects r ++ [mkEffectRow (ev_idempotency_key e) (ev_hazard_key e) (ev_to_version e)
              (dumps (JObj items)) now met]) (rv_conflicts r))
      (_result e "APPLIED" (ev_to_version e) now (Some met) true).

Lemma record_receipt_Ok r e now status v met r' :
  _record_receipt r e now status v met = Ok r' <->
  int64 v = true /\ int64 now = true /\ rv_receipts r !! ev_idempotency_key e = None /\
  r' = r <| rv_receipts := <[ev_idempotency_key e :=
         mkReceiptRow (ev_payload_digest e) (ev_hazard_key e) status v now met]> (rv_receipts r) |>.
Proof.
  unfold _record_receipt. rewrite result_bind_Ok. setoid_rewrite result_bind_Ok. setoid_rewrite bind_int_Ok.
  split.
  - intros (_ & H1 & _ & H2 & H3). destruct (rv_receipts r !! _); [done|]. by injection H3 as <-.
  - intros (H1 & H2 & H3 & ->). exists tt. split; [done|]. exists tt. split; [done|]. by rewrite H3.
Qed.

Section Receive.
Context `{Hashing}.

Lemma apply_alert_Ok r now e items r' res :
  receiver_ok r -> rv_receipts r !! ev_idempotency_key e = None -> ev_alert_payload e = Some items ->
  _validate e (sha256_hex (dumps (JObj items))) = None ->
  _hazard_version r (ev_hazard_key e) = ev_from_version e ->
  (forall row, rv_hazards r !! ev_hazard_key e = Some row -> hz_state row = ev_from_state e) ->
  apply_alert r e (dumps (JObj items)) now = Ok (r', res) -> transaction_case r now e r' res.
Proof.
  intros Hok Hnone Hpay Hval Hver Hst. unfold apply_alert.
  intros (r1 & H1 & (r2 & H2 & (r3 & H3 & [= <- <-])%result_bind_Ok)%result_bind_Ok)%result_bind_Ok.
  destruct (validate_None _ _ Hval) as (_ & _ & _ & Hpos & Hto & _).
  unfold upsert_hazard in H1. apply result_bind_Ok in H1 as (u & Hi%bind_int_Ok & H1).
  apply result_bind_Ok in H1 as (u1 & _ & H1). apply result_bind_Ok in H1 as (u2 & _ & H1).
  assert (r1 = r <| rv_hazards := <[ev_hazard_key e := mkHazardRow (ev_to_state e) (ev_to_version e) now]> (rv_hazards r) |>) as ->.
  { unfold _hazard_version in Hver. destruct (rv_hazards r !! ev_hazard_key e) as [row|] eqn:Eh.
    - rewrite (proj2 (Z.eqb_eq _ _) Hver), bool_decide_eq_true_2 in H1 by (by apply Hst). by injection H1 as <-.
    - destruct (ev_to_version e <? 0); [done|]. by injection H1 as <-. }
  unfold insert_effect in H2. destruct (existsb _ _); [done|]. injection H2 as <-.
  apply record_receipt_Ok in H3 as (_ & _ & _ & ->). exact (case_applied r now e items Hnone Hpay Hval Hi Hver Hst).
Qed.

Lemma transaction_cases r now e d r' res :
  receiver_ok r -> _payload_digest (ev_alert_payload e) = Ok d ->
  receive_transaction r now e d = Ok (r', res) -> transaction_case r now e r' res.
Proof.
  intros Hok Hd. unfold receive_transaction. unfold _payload_digest, _canonical_payload in *.
  destruct (ev_alert_payload e) as [items|] eqn:Hpay; [|done]. injection Hd as <-.
  destruct (rv_receipts r !! ev_idempotency_key e) as [p|] eqn:Hp.
  - destruct (bool_decide (rp_payload_digest p = ev_payload_digest e)) eqn:Ed; cbn [negb].
    + intros [= <- <-]. apply bool_decide_eq_true in Ed. by apply case_replay.
    + intros (r1 & H1 & [= <- <-])%result_bind_Ok. unfold _record_conflict in H1.
      apply result_bind_Ok in H1 as (u & _ & [= <-]). apply bool_decide_eq_false in Ed. by eapply case_conflict.
  - destruct (_validate e _) as [status|] eqn:Hv.
    + intros (r1 & H1 & [= <- <-])%result_bind_Ok. unfold _record_rejection in H1.
      apply record_receipt_Ok in H1 as (_ & _ & _ & ->). apply case_refused; [done| |done].
      unfold _validate in Hv. repeat case_match; by simplify_eq.
    + fold (_hazard_version r (ev_hazard_key e)).
      destruct (negb (_hazard_version r (ev_hazard_key e) =? ev_from_version e) || _) eqn:Eg.
      * intros (r1 & H1 & [= <- <-])%result_bind_Ok. unfold _record_rejection in H1.
        apply record_receipt_Ok in H1 as (_ & _ & _ & ->). by apply case_refused.
      * apply orb_false_iff in Eg as [E1%negb_false_iff%Z.eqb_eq E2%negb_false_iff%bool_decide_eq_true].
        cbn [mbind result_bind]. apply apply_alert_Ok; try done.
        intros row Hrow. by rewrite Hrow in E2.
Qed.

Lemma receive_Ok r now e r' res :
  receiver_ok r -> receive r now e = (r', Ok res) -> 0 < now /\ transaction_case r now e r' res.
Proof.
  intros Hok. unfold receive. destruct (Z.leb_spec now 0); [done|].
  destruct (_payload_digest _) as [d|] eqn:Ed; [|done]. cbn [mbind result_bind].
  destruct (receive_transaction _ _ _ _) as [[r1 res1]|] eqn:Et; [|done]. intros [= <- <-].
  split; [done|]. by eapply transaction_cases.
Qed.

Lemma receive_Raise r now e r' err : receive r now e = (r', Raise err) -> r' = r.
Proof.
  unfold receive. destruct (now <=? 0); [by intros [= <-]|].
  destruct (_ ≫= _) as [[r1 res]|]; by intros [= <-].
Qed.

Lemma seqZ_succ n : 0 <= n -> seqZ 1 (n + 1) = seqZ 1 n ++ [n + 1].
Proof. intros Hn. rewrite seqZ_app by lia. cbn. do 2 f_equal. by rewrite Z.add_comm. Qed.

Lemma case_ok r now e r' res : receiver_ok r -> transaction_case r now e r' res -> receiver_ok r'.
Proof.
  intros Hok. destruct Hok as [H1 H2 H3 H4].
  intros [p Hp Hd|p Hp Hd|status version Hn Hs Hv|items Hn Hpay Hval Hi Hver Hst met].
  - by split.
  - by split.
  - split; [|done|done|done]. cbn. intros x Hx. destruct (H1 x Hx) as (p & Hp & Hrest).
    exists p. split; [|done]. rewrite lookup_insert_ne; [done|]. intros E. congruence.
  - destruct (validate_None _ _ Hval) as (_ & _ & _ & Hpos & Hto & _). apply int64_true in Hi. split; cbn.
    + intros x [Hx|Hx%list_elem_of_singleton]%elem_of_app.
      * destruct (H1 x Hx) as (p & Hp & Hrest). exists p. split; [|done].
        rewrite lookup_insert_ne; [done|]. intros E. congruence.
      * subst x. cbn. rewrite lookup_insert_eq. eexists. split; [done|]. done.
    + rewrite fmap_app. apply NoDup_app. split_and!; [done| |apply NoDup_singleton].
      intros k (x & -> & Hx)%list_elem_of_fmap Hk%list_elem_of_singleton. cbn in Hk.
      destruct (H1 x Hx) as (p & Hp & _). congruence.
    + intros h. unfold versions_of. rewrite filter_app, fmap_app. fold (versions_of h (rv_effects r)).
      rewrite H3. unfold _hazard_version at 2. cbn [rv_hazards]. destruct (decide (ev_hazard_key e = h)) as [<-|Hne].
      * rewrite lookup_insert_eq. cbn [hz_version]. rewrite filter_cons, decide_True by done.
        rewrite filter_nil. cbn [fmap list_fmap ef_hazard_version]. rewrite Hver, Hto. symmetry. by apply seqZ_succ.
      * rewrite lookup_insert_ne by done. rewrite filter_cons, decide_False by done.
        rewrite filter_nil. apply app_nil_r.
    + intros h. unfold _hazard_version. cbn. destruct (decide (ev_hazard_key e = h)) as [<-|Hne].
      * rewrite lookup_insert_eq. cbn. lia.
      * rewrite lookup_insert_ne by done. apply H4.
Qed.

Lemma receive_ok r now e : receiver_ok r -> receiver_ok (receive r now e).1.
Proof.
  intros Hok. destruct (receive r now e) as [r' [res|err]] eqn:E; cbn.
  - eapply case_ok; [done|]. by eapply receive_Ok.
  - by rewrite (receive_Raise _ _ _ _ _ E).
Qed.

(** ** Runs *)

Definition call : Type := Z * RelayV2AlertEnvelope.

(** The receiver after some calls, and the calls that returned. *)
Fixpoint receiver_run (r : receiver) (calls : list call)
    : receiver * list (call * RelayV2ReceiveResult) :=
  match calls with
  | [] => (r, [])
  | c :: calls =>
      let '(r1, res) := receive r c.1 c.2 in
      let '(r2, outs) := receiver_run r1 calls in
      (r2, match res with Ok res => (c, res) :: outs | Raise _ => outs end)
  end.

(** The calls whose alert took effect. *)
Definition applied (outs : list (call * RelayV2ReceiveResult)) : list (call * RelayV2ReceiveResult) :=
  filter (fun o => rr_user_visible_effect_applied o.2 = true) outs.

Definition effect_entry (x : EffectRow) : string * string * Z * Z * option bool :=
  (ef_idempotency_key x, ef_hazard_key x, ef_hazard_version x, ef_created_at_ms x,
   Some (ef_delivery_deadline_met x)).

Definition applied_entry (o : call * RelayV2ReceiveResult) : string * string * Z * Z * option bool :=
  (rr_idempotency_key o.2, ev_hazard_key o.1.2, rr_receiver_hazard_version o.2, rr_received_at_utc_ms o.2,
   rr_delivery_deadline_met o.2).

Lemma case_effects r now e r' res : transaction_case r now e r' res ->
  effect_entry <$> rv_effects r' = (effect_entry <$> rv_effects r) ++ (applied_entry <$> applied [((now, e), res)]).
Proof.
  intros [p Hp Hd|p Hp Hd|status version Hn Hs Hv|items Hn Hpay Hval Hi Hver Hst met];
    unfold applied; rewrite filter_cons; try (rewrite decide_False by done; by rewrite app_nil_r).
  rewrite decide_True by done. cbn [rv_effects]. by rewrite fmap_app.
Qed.

Lemma run_effects calls : forall r, receiver_ok r ->
  receiver_ok (receiver_run r calls).1 /\
  effect_entry <$> rv_effects (receiver_run r calls).1 =
    (effect_entry <$> rv_effects r) ++ (applied_entry <$> applied (receiver_run r calls).2).
Proof.
  induction calls as [|[now e] calls IH]; intros r Hok; cbn [receiver_run fst snd].
  { split; [done|]. by rewrite app_nil_r. }
  pose proof (receive_ok r now e Hok) as Hok1. destruct (receive r now e) as [r1 res] eqn:E. cbn [fst] in Hok1.
  destruct (IH r1 Hok1) as [H1 H2]. destruct (receiver_run r1 calls) as [r2 outs]. cbn [fst snd] in *.
  split; [done|]. rewrite H2. destruct res as [res|err].
  - destruct (receive_Ok _ _ _ _ _ Hok E) as [_ Hc]. rewrite (case_effects _ _ _ _ _ Hc).
    unfold applied. change (((now, e), res) :: outs) with ([((now, e), res)] ++ outs).
    by rewrite filter_app, fmap_app, app_assoc.
  - by rewrite (receive_Raise _ _ _ _ _ E).
Qed.

(** Alerts take effect exactly once and in order. After any sequence of
    calls on a new receiver the stored effects are the calls that reported
    one, in that order and with the version, time and deadline they
    reported; no idempotency key has two; and the effects of each hazard
    carry the versions 1, 2, 3, ... up to the hazard's current one. *)
Theorem alerts_take_effect_once calls r outs :
  receiver_run new_receiver calls = (r, outs) ->
  effect_entry <$> rv_effects r = applied_entry <$> applied outs /\
  NoDup ((fun o => rr_idempotency_key o.2) <$> applied outs) /\
  forall h, versions_of h (rv_effects r) = seqZ 1 (_hazard_version r h).
Proof.
  intros E. destruct (run_effects calls new_receiver new_receiver_ok) as [Hok He].
  rewrite E in Hok, He. cbn in Hok, He. split; [done|]. split; [|apply Hok].
  pose proof (ro_keys _ Hok) as Hnd.
  assert (ef_idempotency_key <$> rv_effects r = (fun t => t.1.1.1.1) <$> (effect_entry <$> rv_effects r)) as Ek
    by (by rewrite <- list_fmap_compose).
  rewrite Ek, He, <- list_fmap_compose in Hnd. exact Hnd.
Qed.

(** ** The hazard's history

    What the receiver promises of a hazard: its alerts continue one another
    from version to version and from state to state. *)
Inductive hazard_path : option (string * Z) -> list RelayV2AlertEnvelope -> option (string * Z) -> Prop :=
| path_end s : hazard_path s [] s
| path_first e l s :
    ev_from_version e = 0 -> hazard_path (Some (ev_to_state e, 1)) l s -> hazard_path None (e :: l) s
| path_next st v e l s :
    ev_from_state e = st -> ev_from_version e = v -> ev_to_version e = v + 1 ->
    hazard_path (Some (ev_to_state e, v + 1)) l s -> hazard_path (Some (st, v)) (e :: l) s.

Definition hazard_state (r : receiver) (h : string) : option (string * Z) :=
  (fun row => (hz_state row, hz_version row)) <$> rv_hazards r !! h.

Definition applied_to (h : string) (outs : list (call * RelayV2ReceiveResult)) : list RelayV2AlertEnvelope :=
  filter (fun e => ev_hazard_key e = h) ((fun o => o.1.2) <$> applied outs).

Lemma case_hazard r now e r' res h l s : transaction_case r now e r' res ->
  hazard_path (hazard_state r' h) l s ->
  hazard_path (hazard_state r h) (applied_to h [((now, e), res)] ++ l) s.
Proof.
  intros [p Hp Hd|p Hp Hd|status version Hn Hs Hv|items Hn Hpay Hval Hi Hver Hst met];
    unfold applied_to, applied; rewrite filter_cons, filter_nil;
    try (rewrite decide_False by done; done).
  rewrite decide_True by done. cbn [fmap list_fmap fst snd]. rewrite filter_cons, filter_nil.
  unfold hazard_state. cbn [rv_hazards]. destruct (decide (ev_hazard_key e = h)) as [<-|Hne];
    [|by rewrite lookup_insert_ne].
  rewrite lookup_insert_eq. cbn. destruct (validate_None _ _ Hval) as (_ & _ & _ & Hpos & Hto & _).
  unfold _hazard_version in Hver. destruct (rv_hazards r !! ev_hazard_key e) as [row|] eqn:Eh; cbn.
  - intros Hp. apply path_next; [by rewrite (Hst row eq_refl)|done|lia|]. by rewrite Hver, <- Hto.
  - intros Hp. apply path_first; [done|]. rewrite <- Hver in Hto. by rewrite Hto in Hp.
Qed.

(** C10: The receiver implements the hazard history: over any calls on a
    consistent receiver, the alerts of a hazard that took effect lead, each
    continuing the state and version the one before left, from the hazard's
    stored state before the calls to the one after them. *)
Theorem receiver_refines_hazard_path r calls h :
  receiver_ok r ->
  hazard_path (hazard_state r h) (applied_to h (receiver_run r calls).2)
              (hazard_state (receiver_run r calls).1 h).
Proof.
  revert r. induction calls as [|[now e] calls IH]; intros r Hok; cbn [receiver_run fst snd]; [constructor|].
  pose proof (receive_ok r now e Hok) as Hok1. destruct (receive r now e) as [r1 res] eqn:E. cbn [fst] in Hok1.
  specialize (IH r1 Hok1). destruct (receiver_run r1 calls) as [r2 outs]. cbn [fst snd] in *.
  destruct res as [res|err].
  - destruct (receive_Ok _ _ _ _ _ Hok E) as [_ Hc]. pose proof (case_hazard _ _ _ _ _ h _ _ Hc IH) as Hp.
    unfold applied_to, applied in *. change (((now, e), res) :: outs) with ([((now, e), res)] ++ outs).
    by rewrite filter_app, fmap_app, filter_app.
  - by rewrite <- (receive_Raise _ _ _ _ _ E).
Qed.

(** ** Receipts *)

Lemma case_receipts r now e r' res : transaction_case r now e r' res -> rv_receipts r ⊆ rv_receipts r'.
Proof. intros []; cbn; try done; by apply insert_subseteq. Qed.

Lemma run_receipts calls : forall r, receiver_ok r -> rv_receipts r ⊆ rv_receipts (receiver_run r calls).1.
Proof.
  induction calls as [|[now e] calls IH]; intros r Hok; cbn [receiver_run fst snd]; [done|].
  pose proof (receive_ok r now e Hok) as Hok1. destruct (receive r now e) as [r1 res] eqn:E. cbn [fst] in Hok1.
  specialize (IH r1 Hok1). destruct (receiver_run r1 calls) as [r2 outs]. cbn [fst] in *.
  etrans; [|exact IH]. destruct res as [res|err].
  - destruct (receive_Ok _ _ _ _ _ Hok E) as [_ Hc]. by eapply case_receipts.
  - by rewrite (receive_Raise _ _ _ _ _ E).
Qed.

Lemma replay_receive r now e p items :
  0 < now -> ev_alert_payload e = Some items ->
  rv_receipts r !! ev_idempotency_key e = Some p -> rp_payload_digest p = ev_payload_digest e ->
  receive r now e = (r, Ok (replay e p now)).
Proof.
  intros Hnow Hpay Hp Hd. unfold receive. destruct (Z.leb_spec now 0); [lia|].
  unfold _payload_digest, _canonical_payload. rewrite Hpay. cbn [mbind result_bind].
  unfold receive_transaction. rewrite Hp. by rewrite bool_decide_eq_true_2.
Qed.

(** The first answer to an alert is final. Once a new idempotency key
    was answered, redelivering the alert — after any other calls, at any
    later time — changes nothing and returns the same version and deadline
    verdict, with [DUPLICATE] in place of [APPLIED] and no effect. *)
Theorem receive_idempotent r now e r1 res calls now' :
  receiver_ok r -> rv_receipts r !! ev_idempotency_key e = None ->
  receive r now e = (r1, Ok res) -> 0 < now' ->
  let r2 := (receiver_run r1 calls).1 in
  receive r2 now' e =
    (r2, Ok (_result e (if bool_decide (rr_status res = "APPLIED") then "DUPLICATE" else rr_status res)
               (rr_receiver_hazard_version res) now' (rr_delivery_deadline_met res) false)).
Proof.
  intros Hok Hnone Hrec Hnow. cbn zeta.
  destruct (receive_Ok _ _ _ _ _ Hok Hrec) as [_ Hc].
  pose proof (receive_ok r now e Hok) as Hok1. rewrite Hrec in Hok1. cbn in Hok1.
  pose proof (run_receipts calls r1 Hok1) as Hsub.
  assert (exists items, ev_alert_payload e = Some items) as [items Hpay].
  { unfold receive in Hrec. destruct (now <=? 0); [done|]. unfold _payload_digest, _canonical_payload in Hrec.
    destruct (ev_alert_payload e); [eauto|done]. }
  assert (exists p, rv_receipts r1 !! ev_idempotency_key e = Some p /\ rp_payload_digest p = ev_payload_digest e /\
    rp_status p = rr_status res /\ rp_receiver_hazard_version p = rr_receiver_hazard_version res /\
    rp_delivery_deadline_met p = rr_delivery_deadline_met res) as (p & Hp & Hd & Hs & Hv & Hm).
  { destruct Hc as [p Hp Hd|p Hp Hd|status version Hn Hs Hv|items' Hn Hpay' Hval Hi Hver Hst met];
      [congruence|congruence|..]; cbn; rewrite lookup_insert_eq; eexists; split; done. }
  rewrite (replay_receive _ now' e p items Hnow Hpay); [|by eapply lookup_weaken|done].
  unfold replay. by rewrite Hs, Hv, Hm.
Qed.

(** The outcome of a call, up to which error values are excusable. *)
Definition excusable (now : Z) (e : RelayV2AlertEnvelope) (err : receiver_error) : Prop :=
  match err with
  | ReceiverValueError _ => now <= 0 \/ ev_alert_payload e = None
  | ReceiverOverflowError => int64 now = false \/ int64 (ev_to_version e) = false
  | ReceiverIntegrityError => False
  end.

Lemma record_receipt_total r e now status v met :
  int64 v = true -> rv_receipts r !! ev_idempotency_key e = None ->
  match _record_receipt r e now status v met with Ok _ => True | Raise err => excusable now e err end.
Proof.
  intros Hv Hn. unfold _record_receipt, bind_int. rewrite Hv, Hn. cbn.
  destruct (int64 now) eqn:E; cbn; auto.
Qed.

Lemma apply_alert_total r now e payload :
  receiver_ok r -> rv_receipts r !! ev_idempotency_key e = None -> 0 <= ev_from_version e ->
  ev_to_version e = ev_from_version e + 1 -> _hazard_version r (ev_hazard_key e) = ev_from_version e ->
  match apply_alert r e payload now with Ok _ => True | Raise err => excusable now e err end.
Proof.
  intros Hok Hn Hpos Hto Hver. pose proof (ro_int64 _ Hok (ev_hazard_key e)) as Hi. rewrite Hver in Hi.
  unfold apply_alert, upsert_hazard, bind_int.
  destruct (int64 (ev_to_version e)) eqn:Et; cbn [raise_unless mbind result_bind]; [|by right].
  destruct (int64 now) eqn:En; cbn [raise_unless mbind result_bind]; [|by left].
  rewrite (proj2 (int64_true (ev_from_version e))) by lia. cbn [raise_unless mbind result_bind].
  assert (exists r1, match rv_hazards r !! ev_hazard_key e with
    | None => if ev_to_version e <? 0 then Raise ReceiverIntegrityError
              else Ok (r <| rv_hazards ::= <[ev_hazard_key e := mkHazardRow (ev_to_state e) (ev_to_version e) now]> |>)
    | Some old =>
        if (hz_version old =? ev_from_version e) && bool_decide (hz_state old = ev_from_state e)
        then Ok (r <| rv_hazards ::= <[ev_hazard_key e := mkHazardRow (ev_to_state e) (ev_to_version e) now]> |>)
        else Ok r end = Ok r1 /\ rv_effects r1 = rv_effects r /\ rv_receipts r1 = rv_receipts r)
    as (r1 & -> & Hef & Hrc).
  { destruct (rv_hazards r !! _); [destruct (_ && _); by eexists|].
    destruct (Z.ltb_spec (ev_to_version e) 0); [lia|by eexists]. }
  cbn [mbind result_bind]. unfold insert_effect. rewrite Hef.
  destruct (existsb _ _) eqn:Ex.
  { apply existsb_exists in Ex as (x & Hx & Hk%bool_decide_eq_true). apply list_elem_of_In in Hx.
    destruct (ro_effects _ Hok x Hx) as (p & Hp & _). congruence. }
  cbn [mbind result_bind]. set (r2 := update _ _ _).
  pose proof (record_receipt_total r2 e now "APPLIED" (ev_to_version e)
    (Some (now <? ev_delivery_deadline_utc_ms e)) Et) as Ht.
  destruct (_record_receipt r2 _ _ _ _ _); [done|]. cbn. apply Ht. by rewrite <- Hn, <- Hrc.
Qed.

(** C11: On a consistent receiver [receive] never fails on a constraint. It
    raises only on a time that is not positive, on a payload that is not
    JSON, or where the time or the alert's next version does not fit
    SQLite's 64-bit integers; and then nothing changes. *)
Theorem receive_total r now e :
  receiver_ok r ->
  match receive r now e with
  | (r', Ok _) => receiver_ok r'
  | (r', Raise err) => r' = r /\ excusable now e err
  end.
Proof.
  intros Hok. pose proof (receive_ok r now e Hok) as Hok'.
  assert (forall h, int64 (_hazard_version r h) = true) as Hv
    by (intros h; apply int64_true; pose proof (ro_int64 _ Hok h); lia).
  destruct (receive r now e) as [r' [res|err]] eqn:E; [done|].
  split; [by eapply receive_Raise|]. clear Hok'. unfold receive in E.
  destruct (Z.leb_spec now 0); [injection E as _ <-; by left|].
  unfold _payload_digest, _canonical_payload in E.
  destruct (ev_alert_payload e) as [items|] eqn:Hpay; [|injection E as _ <-; by right].
  cbn [mbind result_bind] in E.
  destruct (receive_transaction r now e _) as [[r1 res]|err1] eqn:Et; [done|]. injection E as _ <-.
  unfold receive_transaction in Et. destruct (rv_receipts r !! ev_idempotency_key e) as [p|] eqn:Hp.
  - destruct (bool_decide _); [done|]. unfold _record_conflict, bind_int in Et.
    destruct (int64 now) eqn:En; [done|]. injection Et as <-. by left.
  - destruct (_validate e _) as [status|] eqn:Hval.
    + pose proof (record_receipt_total r e now status _ None (Hv (ev_hazard_key e)) Hp) as Ht.
      unfold _record_rejection in Et. cbn [default] in Et. destruct (_record_receipt _ _ _ _ _ _); [done|].
      by injection Et as <-.
    + fold (_hazard_version r (ev_hazard_key e)) in Et. destruct (_ || _) eqn:Eg in Et.
      * pose proof (record_receipt_total r e now "VERSION_GAP" _ None (Hv (ev_hazard_key e)) Hp) as Ht.
        unfold _record_rejection in Et. cbn [default] in Et. destruct (_record_receipt _ _ _ _ _ _); [done|].
        by injection Et as <-.
      * apply orb_false_iff in Eg as [E1%negb_false_iff%Z.eqb_eq _].
        destruct (validate_None _ _ Hval) as (_ & _ & _ & Hpos & Hto & _).
        rewrite Hpay in Et. cbn [_canonical_payload mbind result_bind] in Et.
        pose proof (apply_alert_total r now e (dumps (JObj items)) Hok Hp Hpos Hto E1) as Ht.
        by rewrite Et in Ht.
Qed.
End Receive.

(** ** Witnesses *)

Definition demo_payload : list (string * json) := [("level", JInt 2)].

Definition demo_alert (key from_state to_state severity : string) (version : Z) : RelayV2AlertEnvelope :=
  mkRelayV2AlertEnvelope 1 key (sha256_hex (Hashing := transparent_hashing) (dumps (JObj demo_payload))) "job" "set"
    "event" "hazard" from_state to_state version (version + 1) severity 50 200 (Some demo_payload).

Definition demo_calls : list call := [
  (100, demo_alert "k1" "CLEAR" "WARNING" "warning" 0);
  (110, demo_alert "k1" "CLEAR" "WARNING" "warning" 0);
  (120, demo_alert "k3" "DANGER" "CLEAR" "info" 2);
  (130, demo_alert "k2" "WARNING" "DANGER" "danger" 1);
  (210, demo_alert "k4" "DANGER" "CLEAR" "info" 2)].

Example demo_alert_statuses :
  (fun o => (rr_status o.2, rr_receiver_hazard_version o.2, rr_delivery_deadline_met o.2)) <$>
    (receiver_run (H := transparent_hashing) new_receiver demo_calls).2 =
  [("APPLIED", 1, Some true); ("DUPLICATE", 1, Some true); ("VERSION_GAP", 1, None);
   ("APPLIED", 2, Some true); ("APPLIED", 3, Some false)].
Proof. by vm_compute. Qed.

Lemma alerts_take_effect_once_witness :
  versions_of "hazard" (rv_effects (receiver_run (H := transparent_hashing) new_receiver demo_calls).1) = [1; 2; 3].
Proof.
  destruct (receiver_run (H := transparent_hashing) new_receiver demo_calls) as [r outs] eqn:E.
  destruct (alerts_take_effect_once _ _ _ E) as (_ & _ & Hv). cbn [fst]. rewrite Hv.
  assert (r = (receiver_run (H := transparent_hashing) new_receiver demo_calls).1) as -> by (by rewrite E).
  by vm_compute.
Defined.

Lemma receiver_refines_hazard_path_witness :
  hazard_path None (applied_to "hazard" (receiver_run (H := transparent_hashing) new_receiver demo_calls).2)
    (hazard_state (receiver_run (H := transparent_hashing) new_receiver demo_calls).1 "hazard").
Proof. apply (receiver_refines_hazard_path (H := transparent_hashing) new_receiver demo_calls "hazard" new_receiver_ok). Defined.

Definition demo_answered : receiver :=
  (receive (H := transparent_hashing) new_receiver 100 (demo_alert "k1" "CLEAR" "WARNING" "warning" 0)).1.

Lemma receive_idempotent_witness : exists res,
  receive (H := transparent_hashing) demo_answered 500 (demo_alert "k1" "CLEAR" "WARNING" "warning" 0) =
  (demo_answered, Ok res) /\ rr_status res = "DUPLICATE".
Proof.
  eexists. split; [|].
  - apply (receive_idempotent (H := transparent_hashing) new_receiver 100 (demo_alert "k1" "CLEAR" "WARNING" "warning" 0)
      demo_answered (_result (demo_alert "k1" "CLEAR" "WARNING" "warning" 0) "APPLIED" 1 100 (Some true) true) [] 500);
      [apply new_receiver_ok|reflexivity|by vm_compute|lia].
  - reflexivity.
Defined.

Lemma receive_total_witness : receiver_ok demo_answered.
Proof.
  pose proof (receive_total (H := transparent_hashing) new_receiver 100
    (demo_alert "k1" "CLEAR" "WARNING" "warning" 0) new_receiver_ok) as Ht.
  assert (receive (H := transparent_hashing) new_receiver 100 (demo_alert "k1" "CLEAR" "WARNING" "warning" 0) =
    (demo_answered, Ok (_result (demo_alert "k1" "CLEAR" "WARNING" "warning" 0) "APPLIED" 1 100 (Some true) true)))
    as E by (by vm_compute).
  rewrite E in Ht. exact Ht.
Defined.
