(* ===== verification/Alerts.v ===== *)
(** * Processing alerts and their delivery to phones

    src/app/services/alerts/processing_alerts.py keeps the recent alerts of
    the processor, each event once; src/app/services/alerts/phone_delivery.py
    hands them to the queues of the subscribed phones. The store's lock makes
    its methods single steps; a subscription's queue is not under the hub's
    lock, so [enqueue] is also given as the steps it consists of. Here
    [publish] runs alone; AlertRoutes.v interleaves the steps of several. *)

From S2P Require Import Prelude.

(** The fields of [ProcessingAlertEvent] (src/app/schemas/processing_alerts.py)
    that the services read; [al_camera_devices] is [source.camera_devices]. *)
Record ProcessingAlertEvent := mkProcessingAlertEvent {
  al_event_id : string;
  al_timestamp_ms : Z;
  al_ttl_ms : Z;
  al_severity : string;
  al_camera_devices : list string;
}.

#[export] Instance ProcessingAlertEvent_settable : Settable ProcessingAlertEvent := fun x => mkProcessingAlertEvent
  (al_event_id x) (al_timestamp_ms x) (al_ttl_ms x) (al_severity x) (al_camera_devices x).

#[export] Instance ProcessingAlertEvent_eq_dec : EqDecision ProcessingAlertEvent.
Proof. solve_decision. Defined.

Record AlertRouting := mkAlertRouting {
  ro_camera_devices : list string;
  ro_session_id : option string;
  ro_delivery_status : string;
}.

#[export] Instance AlertRouting_settable : Settable AlertRouting := fun x => mkAlertRouting
  (ro_camera_devices x) (ro_session_id x) (ro_delivery_status x).

#[export] Instance AlertRouting_eq_dec : EqDecision AlertRouting.
Proof. solve_decision. Defined.

Record ProcessingAlertRecord := mkProcessingAlertRecord {
  ar_alert : ProcessingAlertEvent;
  ar_received_at_ms : Z;
  ar_expires_at_ms : Z;
  ar_routing : AlertRouting;
}.

#[export] Instance ProcessingAlertRecord_settable : Settable ProcessingAlertRecord := fun x => mkProcessingAlertRecord
  (ar_alert x) (ar_received_at_ms x) (ar_expires_at_ms x) (ar_routing x).

#[export] Instance ProcessingAlertRecord_eq_dec : EqDecision ProcessingAlertRecord.
Proof. solve_decision. Defined.

Record ProcessingAlertStore := mkProcessingAlertStore {
  as_max_alerts : Z;
  as_records : list ProcessingAlertRecord;
  as_event_ids : gset string;
  as_received_count : Z;
  as_duplicate_count : Z;
  as_expired_count : Z;
}.

#[export] Instance ProcessingAlertStore_settable : Settable ProcessingAlertStore := fun x => mkProcessingAlertStore
  (as_max_alerts x) (as_records x) (as_event_ids x) (as_received_count x) (as_duplicate_count x)
  (as_expired_count x).

(** [deque(maxlen=...)] refuses a negative bound; [IndexError] is that of
    [self._records[0]]. *)
Inductive alert_error := AlertValueError (message : string) | AlertIndexError.

Definition new_ProcessingAlertStore (max_alerts : Z) : result alert_error ProcessingAlertStore :=
  if max_alerts <? 0 then Raise (AlertValueError "maxlen must be non-negative")
  else Ok (mkProcessingAlertStore max_alerts [] ∅ 0 0 0).

Definition is_expired (r : ProcessingAlertRecord) (now_ms : Z) : bool := ar_expires_at_ms r <? now_ms.

Definition build_alert_routing (alert : ProcessingAlertEvent) : AlertRouting :=
  mkAlertRouting (al_camera_devices alert) None "not_delivered".

Definition alert_record (alert : ProcessingAlertEvent) (received_at_ms : Z) : ProcessingAlertRecord :=
  mkProcessingAlertRecord alert received_at_ms (al_timestamp_ms alert + al_ttl_ms alert)
    (build_alert_routing alert).

(** [received_count] has been raised when [IndexError] is. *)
Definition add_alert (s : ProcessingAlertStore) (alert : ProcessingAlertEvent) (now_ms : option Z) (clock_ms : Z)
    : ProcessingAlertStore * result alert_error (ProcessingAlertRecord * string) :=
  let received_at_ms := default clock_ms now_ms in
  let record := alert_record alert received_at_ms in
  let s := s <| as_received_count ::= Z.succ |> in
  if bool_decide (al_event_id alert ∈ as_event_ids s)
  then (s <| as_duplicate_count ::= Z.succ |>, Ok (record, "duplicate"))
  else if is_expired record received_at_ms
  then (s <| as_expired_count ::= Z.succ |>, Ok (record, "expired"))
  else
    let add s := (s <| as_records ::= fun l => deque_append (as_max_alerts s) l record |>
                    <| as_event_ids ::= fun ids => {[al_event_id alert]} ∪ ids |>, Ok (record, "accepted")) in
    if Z.of_nat (length (as_records s)) =? as_max_alerts s
    then match as_records s with
         | [] => (s, Raise AlertIndexError)
         | oldest :: _ => add (s <| as_event_ids ::= fun ids => ids ∖ {[al_event_id (ar_alert oldest)]} |>)
         end
    else add s.

(** [l[-limit:]]. *)
Definition last_slice {A} (limit : Z) (l : list A) : list A :=
  if limit =? 0 then l
  else if limit <? 0 then drop (Z.to_nat (- limit)) l
  else drop (length l - Z.to_nat limit) l.

Definition active_records (s : ProcessingAlertStore) (now_ms : Z) : list ProcessingAlertRecord :=
  filter (fun r => is_expired r now_ms = false) (as_records s).

Definition recent (s : ProcessingAlertStore) (limit now_ms : Z) : list ProcessingAlertRecord :=
  reverse (last_slice limit (active_records s now_ms)).

Record AlertStoreStatus := mkAlertStoreStatus {
  st_received_count : Z;
  st_duplicate_count : Z;
  st_expired_count : Z;
  st_active_count : Z;
  st_retained_count : Z;
}.

#[export] Instance AlertStoreStatus_settable : Settable AlertStoreStatus := fun x => mkAlertStoreStatus
  (st_received_count x) (st_duplicate_count x) (st_expired_count x) (st_active_count x)
  (st_retained_count x).

#[export] Instance AlertStoreStatus_eq_dec : EqDecision AlertStoreStatus.
Proof. solve_decision. Defined.

Definition alert_store_status (s : ProcessingAlertStore) (now_ms : Z) : AlertStoreStatus :=
  mkAlertStoreStatus (as_received_count s) (as_duplicate_count s) (as_expired_count s)
    (Z.of_nat (length (recent s (as_max_alerts s) now_ms))) (Z.of_nat (length (as_records s))).

Definition alert_store_clear (s : ProcessingAlertStore) : ProcessingAlertStore :=
  mkProcessingAlertStore (as_max_alerts s) [] ∅ 0 0 0.

(** ** Subscriptions *)

(** The payloads of the queue are the dicts of [to_dict]; the records they
    are made of stand for them. *)
Record PhoneAlertSubscription := mkPhoneAlertSubscription {
  ps_subscription_id : string;
  ps_device_ids : list string;
  ps_camera_device_ids : list string;
  ps_session_id : option string;
  ps_connected_at_ms : Z;
  ps_queue : list ProcessingAlertRecord;
  ps_delivered_count : Z;
  ps_dropped_count : Z;
  ps_last_sent_event_id : option string;
}.

#[export] Instance PhoneAlertSubscription_settable : Settable PhoneAlertSubscription := fun x => mkPhoneAlertSubscription
  (ps_subscription_id x) (ps_device_ids x) (ps_camera_device_ids x) (ps_session_id x)
  (ps_connected_at_ms x) (ps_queue x) (ps_delivered_count x) (ps_dropped_count x)
  (ps_last_sent_event_id x).

#[export] Instance PhoneAlertSubscription_eq_dec : EqDecision PhoneAlertSubscription.
Proof. solve_decision. Defined.

Definition queue_maxsize : nat := 50.

(** The exception [queue.Full]. *)
Inductive delivery_error := QueueFull.

Definition queue_full (s : PhoneAlertSubscription) : bool := bool_decide (queue_maxsize <= length (ps_queue s))%nat.

(** [get_nowait]; [queue.Empty] is caught. *)
Definition drop_oldest (s : PhoneAlertSubscription) : PhoneAlertSubscription :=
  match ps_queue s with
  | [] => s
  | _ :: q => s <| ps_queue := q |> <| ps_dropped_count ::= Z.succ |>
  end.

(** [put_nowait] and the counters after it. *)
Definition put_payload (s : PhoneAlertSubscription) (payload : ProcessingAlertRecord)
    : result delivery_error PhoneAlertSubscription :=
  if queue_full s then Raise QueueFull
  else Ok (s <| ps_queue ::= fun q => q ++ [payload] |> <| ps_delivered_count ::= Z.succ |>
             <| ps_last_sent_event_id := Some (al_event_id (ar_alert payload)) |>).

Definition enqueue (s : PhoneAlertSubscription) (payload : ProcessingAlertRecord)
    : result delivery_error PhoneAlertSubscription :=
  put_payload (if queue_full s then drop_oldest s else s) payload.

(** [queue.get] with a timeout: [None] when nothing arrives in time. *)
Definition next_event (s : PhoneAlertSubscription) : PhoneAlertSubscription * option ProcessingAlertRecord :=
  match ps_queue s with
  | [] => (s, None)
  | p :: q => (s <| ps_queue := q |>, Some p)
  end.

Record SubscriptionStatus := mkSubscriptionStatus {
  ss_subscription_id : string;
  ss_device_ids : list string;
  ss_camera_device_ids : list string;
  ss_session_id : option string;
  ss_connected_at_ms : Z;
  ss_queue_size : Z;
  ss_delivered_count : Z;
  ss_dropped_count : Z;
  ss_last_sent_event_id : option string;
}.

#[export] Instance SubscriptionStatus_settable : Settable SubscriptionStatus := fun x => mkSubscriptionStatus
  (ss_subscription_id x) (ss_device_ids x) (ss_camera_device_ids x) (ss_session_id x)
  (ss_connected_at_ms x) (ss_queue_size x) (ss_delivered_count x) (ss_dropped_count x)
  (ss_last_sent_event_id x).

#[export] Instance SubscriptionStatus_eq_dec : EqDecision SubscriptionStatus.
Proof. solve_decision. Defined.

Definition subscription_status (s : PhoneAlertSubscription) : SubscriptionStatus :=
  mkSubscriptionStatus (ps_subscription_id s) (ps_device_ids s) (ps_camera_device_ids s) (ps_session_id s)
    (ps_connected_at_ms s) (Z.of_nat (length (ps_queue s))) (ps_delivered_count s) (ps_dropped_count s)
    (ps_last_sent_event_id s).

(** ** The hub *)

Record PhoneAlertDeliveryHub := mkPhoneAlertDeliveryHub {
  ph_subscriptions : list (string * PhoneAlertSubscription);
  ph_published_count : Z;
  ph_delivered_count : Z;
  ph_skipped_expired_count : Z;
  ph_skipped_unmatched_count : Z;
}.

#[export] Instance PhoneAlertDeliveryHub_settable : Settable PhoneAlertDeliveryHub := fun x => mkPhoneAlertDeliveryHub
  (ph_subscriptions x) (ph_published_count x) (ph_delivered_count x)
  (ph_skipped_expired_count x) (ph_skipped_unmatched_count x).

#[export] Instance PhoneAlertDeliveryHub_eq_dec : EqDecision PhoneAlertDeliveryHub.
Proof. solve_decision. Defined.

Definition new_PhoneAlertDeliveryHub : PhoneAlertDeliveryHub := mkPhoneAlertDeliveryHub [] 0 0 0 0.

(** [dict.fromkeys]: the first occurrence of each. *)
Fixpoint unique (seen l : list string) : list string :=
  match l with
  | [] => []
  | x :: l => if bool_decide (x ∈ seen) then unique seen l else x :: unique (x :: seen) l
  end.
Definition fromkeys (l : list string) : list string := unique [] l.

Definition subscribe (h : PhoneAlertDeliveryHub) (device_ids : list string)
    (camera_device_ids : option (list string)) (session_id : option string) (fresh_id : string) (clock_ms : Z)
    : PhoneAlertDeliveryHub * PhoneAlertSubscription :=
  let cameras := match camera_device_ids with Some (c :: l) => c :: l | _ => device_ids end in
  let s := mkPhoneAlertSubscription fresh_id (fromkeys device_ids) (fromkeys cameras) session_id clock_ms
             [] 0 0 None in
  (h <| ph_subscriptions ::= dict_set fresh_id s |>, s).

Definition unsubscribe (h : PhoneAlertDeliveryHub) (subscription_id : string) : PhoneAlertDeliveryHub :=
  h <| ph_subscriptions ::= dict_del subscription_id |>.

Definition matches (r : ProcessingAlertRecord) (s : PhoneAlertSubscription) : bool :=
  (truthy_opt (ps_session_id s) && bool_decide (ro_session_id (ar_routing r) = ps_session_id s)) ||
  existsb (fun d => bool_decide (d ∈ ps_camera_device_ids s)) (al_camera_devices (ar_alert r)).

(** Hand the record to each matching subscription, and count them. *)
Fixpoint deliver (r : ProcessingAlertRecord) (subs : list (string * PhoneAlertSubscription))
    : result delivery_error (list (string * PhoneAlertSubscription) * Z) :=
  match subs with
  | [] => Ok ([], 0)
  | (id, s) :: subs =>
      if matches r s
      then s' ← enqueue s r; rest ← deliver r subs; Ok ((id, s') :: rest.1, rest.2 + 1)
      else rest ← deliver r subs; Ok ((id, s) :: rest.1, rest.2)
  end.

(** [publish] with no other call between its steps. *)
Definition publish (h : PhoneAlertDeliveryHub) (r : ProcessingAlertRecord) (now_ms : Z)
    : PhoneAlertDeliveryHub * result delivery_error Z :=
  if is_expired r now_ms then (h <| ph_skipped_expired_count ::= Z.succ |>, Ok 0)
  else
    let h := h <| ph_published_count ::= Z.succ |> in
    match deliver r (ph_subscriptions h) with
    | Raise e => (h, Raise e)
    | Ok (subs, matched) =>
        let h := h <| ph_subscriptions := subs |> <| ph_delivered_count ::= Z.add matched |> in
        (if matched =? 0 then h <| ph_skipped_unmatched_count ::= Z.succ |> else h, Ok matched)
    end.

Record HubStatus := mkHubStatus {
  hs_subscriber_count : Z;
  hs_published_count : Z;
  hs_delivered_count : Z;
  hs_skipped_expired_count : Z;
  hs_skipped_unmatched_count : Z;
  hs_subscriptions : list SubscriptionStatus;
}.

#[export] Instance HubStatus_settable : Settable HubStatus := fun x => mkHubStatus
  (hs_subscriber_count x) (hs_published_count x) (hs_delivered_count x)
  (hs_skipped_expired_count x) (hs_skipped_unmatched_count x) (hs_subscriptions x).

#[export] Instance HubStatus_eq_dec : EqDecision HubStatus.
Proof. solve_decision. Defined.

Definition hub_status (h : PhoneAlertDeliveryHub) : HubStatus :=
  mkHubStatus (Z.of_nat (length (ph_subscriptions h))) (ph_published_count h) (ph_delivered_count h)
    (ph_skipped_expired_count h) (ph_skipped_unmatched_count h)
    (subscription_status <$> (ph_subscriptions h).*2).

Definition hub_clear (h : PhoneAlertDeliveryHub) : PhoneAlertDeliveryHub := new_PhoneAlertDeliveryHub.

(** [receive_processing_alert] of src/app/api/routes/internal.py. *)
Definition receive_processing_alert (s : ProcessingAlertStore) (h : PhoneAlertDeliveryHub)
    (alert : ProcessingAlertEvent) (clock_ms : Z)
    : ProcessingAlertStore * PhoneAlertDeliveryHub * option string :=
  match add_alert s alert None clock_ms with
  | (s, Raise _) => (s, h, None)
  | (s, Ok (record, outcome)) =>
      if bool_decide (outcome = "accepted")
      then let '(h, r) := publish h record clock_ms in
           (s, h, match r with Ok _ => Some outcome | Raise _ => None end)
      else (s, h, Some outcome)
  end.

(** ** [enqueue] step by step

    The queue's own lock makes [full], [get_nowait] and [put_nowait] atomic,
    not their sequence. *)
Inductive enqueue_pc := AtFull | AtGet | AtPut | EnqueueDone | EnqueueRaised.

Definition enqueue_step (s : PhoneAlertSubscription) (payload : ProcessingAlertRecord) (pc : enqueue_pc)
    : PhoneAlertSubscription * enqueue_pc :=
  match pc with
  | AtFull => (s, if queue_full s then AtGet else AtPut)
  | AtGet => (drop_oldest s, AtPut)
  | AtPut => match put_payload s payload with Ok s' => (s', EnqueueDone) | Raise _ => (s, EnqueueRaised) end
  | EnqueueDone | EnqueueRaised => (s, pc)
  end.

(** Two deliveries to one subscription, under a schedule of their steps. *)
Fixpoint enqueue_two (schedule : list bool) (s : PhoneAlertSubscription) (p1 p2 : ProcessingAlertRecord)
    (pc1 pc2 : enqueue_pc) : PhoneAlertSubscription * enqueue_pc * enqueue_pc :=
  match schedule with
  | [] => (s, pc1, pc2)
  | true :: schedule => let '(s, pc1) := enqueue_step s p1 pc1 in enqueue_two schedule s p1 p2 pc1 pc2
  | false :: schedule => let '(s, pc2) := enqueue_step s p2 pc2 in enqueue_two schedule s p1 p2 pc1 pc2
  end.

(** ** The store against its specification

    The specification keeps every alert accepted since the last clear; the
    store's records are the last [max_alerts] of them. *)
Inductive store_op := OpAdd (alert : ProcessingAlertEvent) (now_ms : option Z) (clock_ms : Z) | OpClear.

Definition store_step (s : ProcessingAlertStore) (op : store_op)
    : ProcessingAlertStore * option (result alert_error (ProcessingAlertRecord * string)) :=
  match op with
  | OpAdd alert now_ms clock_ms => let '(s, r) := add_alert s alert now_ms clock_ms in (s, Some r)
  | OpClear => (alert_store_clear s, None)
  end.

Fixpoint store_run (s : ProcessingAlertStore) (ops : list store_op)
    : ProcessingAlertStore * list (option (result alert_error (ProcessingAlertRecord * string))) :=
  match ops with
  | [] => (s, [])
  | op :: ops => let '(s1, r) := store_step s op in
                 let '(s2, rs) := store_run s1 ops in (s2, r :: rs)
  end.

Definition record_id (r : ProcessingAlertRecord) : string := al_event_id (ar_alert r).

(** [max_alerts], the accepted records, oldest first, and what one operation
    does to them and answers. *)
Definition spec_step (max_alerts : Z) (accepted : list ProcessingAlertRecord) (op : store_op)
    : list ProcessingAlertRecord * option (result alert_error (ProcessingAlertRecord * string)) :=
  match op with
  | OpClear => ([], None)
  | OpAdd alert now_ms clock_ms =>
      let record := alert_record alert (default clock_ms now_ms) in
      if bool_decide (al_event_id alert ∈ record_id <$> deque_trim max_alerts accepted)
      then (accepted, Some (Ok (record, "duplicate")))
      else if al_timestamp_ms alert + al_ttl_ms alert <? default clock_ms now_ms
      then (accepted, Some (Ok (record, "expired")))
      else (accepted ++ [record], Some (Ok (record, "accepted")))
  end.

Fixpoint spec_run (max_alerts : Z) (accepted : list ProcessingAlertRecord) (ops : list store_op)
    : list ProcessingAlertRecord * list (option (result alert_error (ProcessingAlertRecord * string))) :=
  match ops with
  | [] => (accepted, [])
  | op :: ops => let '(a1, r) := spec_step max_alerts accepted op in
                 let '(a2, rs) := spec_run max_alerts a1 ops in (a2, r :: rs)
  end.

Record store_refines (max_alerts : Z) (s : ProcessingAlertStore) (accepted : list ProcessingAlertRecord) : Prop := {
  sr_max : as_max_alerts s = max_alerts;
  sr_records : as_records s = deque_trim max_alerts accepted;
  sr_ids : forall id, id ∈ as_event_ids s <-> id ∈ record_id <$> as_records s;
  sr_NoDup : NoDup (record_id <$> as_records s);
}.

#[local] Arguments deque_append : simpl never.

(** One [add_alert] or [clear] on a store that retains at least one record. *)
Lemma store_step_refines max_alerts s accepted op :
  0 < max_alerts -> store_refines max_alerts s accepted ->
  store_refines max_alerts (store_step s op).1 (spec_step max_alerts accepted op).1 /\
  (store_step s op).2 = (spec_step max_alerts accepted op).2.
Proof.
  intros Hm [Hx Hr Hi Hn]. destruct op as [alert now clock|]; cbn.
  2:{ split; [|done]. split; cbn; [done..| |constructor]. set_solver. }
  unfold add_alert, is_expired. cbn.
  rewrite <- Hr, <- (bool_decide_ext _ _ (Hi (al_event_id alert))).
  destruct (bool_decide (al_event_id alert ∈ as_event_ids s)) eqn:Ed; [done|].
  apply bool_decide_eq_false in Ed. rewrite Hi in Ed.
  destruct (_ <? default clock now); [done|].
  destruct (Z.eqb_spec (Z.of_nat (length (as_records s))) (as_max_alerts s)) as [El|El].
  - destruct (as_records s) as [|o l] eqn:El0; [cbn in El; lia|]. cbn.
    split; [|done]. split; cbn; [done| | |].
    + rewrite <- deque_append_trim, <- Hr, <- Hx by done. done.
    + intros id. rewrite deque_append_full by (rewrite ?Hx; cbn in *; lia). cbn.
      rewrite fmap_app. specialize (Hi id). cbn in *.
      apply NoDup_cons in Hn as [Hno Hn].
      rewrite elem_of_union, elem_of_difference, elem_of_app, Hi, !elem_of_singleton, elem_of_cons, list_elem_of_singleton.
      fold (record_id o). split; [naive_solver|]. intros [Hin| ->]; [|by left].
      right. split; [by right|]. by intros ->.
    + rewrite deque_append_full by (rewrite ?Hx; cbn in *; lia). cbn. rewrite fmap_app.
      cbn in *. apply NoDup_cons in Hn as [Hno Hn].
      apply NoDup_app. split; [done|]. split; [|apply NoDup_singleton].
      intros x Hin ->%list_elem_of_singleton. apply Ed. by right.
  - assert (Z.of_nat (length (as_records s)) < as_max_alerts s) as Hlt.
    { assert (length (as_records s) <= Z.to_nat max_alerts)%nat by (rewrite Hr; apply deque_trim_length). lia. }
    split; [|done]. split; cbn; [done| | |]; rewrite ?deque_append_room by done.
    + rewrite <- (deque_append_room (as_max_alerts s)) by done. rewrite Hx, Hr. by apply deque_append_trim.
    + intros id. specialize (Hi id). rewrite fmap_app, elem_of_union, elem_of_app, Hi, elem_of_singleton.
      cbn. rewrite list_elem_of_singleton. naive_solver.
    + rewrite fmap_app. apply NoDup_app. split; [done|]. split; [|apply NoDup_singleton].
      by intros x Hin ->%list_elem_of_singleton.
Qed.

Lemma store_run_refines max_alerts ops s accepted :
  0 < max_alerts -> store_refines max_alerts s accepted ->
  store_refines max_alerts (store_run s ops).1 (spec_run max_alerts accepted ops).1 /\
  (store_run s ops).2 = (spec_run max_alerts accepted ops).2.
Proof.
  intros Hm. revert s accepted. induction ops as [|op ops IH]; intros s accepted Hr; [done|]. cbn.
  destruct (store_step_refines max_alerts s accepted op Hm Hr) as [H1 H2].
  destruct (store_step s op) as [s1 r1], (spec_step max_alerts accepted op) as [a1 r1']. cbn in *. subst r1'.
  specialize (IH s1 a1 H1) as [H3 H4].
  destruct (store_run s1 ops), (spec_run max_alerts a1 ops). cbn in *. by subst.
Qed.

Lemma new_store_refines max_alerts s :
  new_ProcessingAlertStore max_alerts = Ok s -> store_refines max_alerts s [].
Proof.
  unfold new_ProcessingAlertStore. destruct (_ <? 0); [done|]. intros [= <-].
  split; cbn; [done..| |constructor]. set_solver.
Qed.

(** C12: over any sequence of [add_alert] and [clear] calls on a new store of
    [max_alerts > 0], the answers are those of the specification that keeps
    every accepted alert (an alert is a duplicate when its event is among the
    last [max_alerts] accepted, expired when its lifetime ended before it
    arrived, accepted otherwise), no call raises, and the store retains
    exactly the last [max_alerts] accepted records, one for each event id. *)
Theorem alert_store_refines_log max_alerts s0 ops s answers :
  0 < max_alerts -> new_ProcessingAlertStore max_alerts = Ok s0 -> store_run s0 ops = (s, answers) ->
  answers = (spec_run max_alerts [] ops).2 /\
  as_records s = deque_trim max_alerts (spec_run max_alerts [] ops).1 /\
  NoDup (record_id <$> as_records s) /\
  (forall id, id ∈ as_event_ids s <-> id ∈ record_id <$> as_records s).
Proof.
  intros Hm Hn Hr.
  destruct (store_run_refines max_alerts ops s0 [] Hm (new_store_refines _ _ Hn)) as [[H1 H2 H3 H4] H5].
  by rewrite Hr in *.
Qed.

Definition ex_alert (id : string) (ts ttl : Z) : ProcessingAlertEvent :=
  mkProcessingAlertEvent id ts ttl "warning" ["cam-1"].

Lemma alert_store_refines_log_witness :
  exists s answers,
    store_run (mkProcessingAlertStore 2 [] ∅ 0 0 0)
      [OpAdd (ex_alert "a" 10 5) (Some 12) 0; OpAdd (ex_alert "a" 10 5) None 12; OpAdd (ex_alert "b" 1 5) None 12;
       OpAdd (ex_alert "c" 10 5) None 12; OpAdd (ex_alert "d" 10 5) None 12; OpAdd (ex_alert "a" 10 5) None 13]
      = (s, answers) /\ record_id <$> as_records s = ["d"; "a"] /\
    (forall id, id ∈ as_event_ids s <-> id ∈ ["d"; "a"]).
Proof.
  destruct (store_run _ _) as [s answers] eqn:E. exists s, answers. split; [done|].
  destruct (alert_store_refines_log 2 _ _ s answers ltac:(lia) eq_refl E) as (_ & _ & _ & H).
  assert (record_id <$> as_records s = ["d"; "a"]) as Hr
    by (apply (f_equal fst) in E; cbn [fst] in E; rewrite <- E; vm_compute; reflexivity).
  rewrite Hr in H. done.
Defined.

(** ** [recent] *)

(** For a positive limit, the last [limit] records that have not expired,
    newest first. *)
Lemma recent_spec s limit now_ms :
  0 < limit -> recent s limit now_ms = take (Z.to_nat limit) (reverse (active_records s now_ms)).
Proof.
  intros H. unfold recent, last_slice.
  destruct (Z.eqb_spec limit 0); [lia|]. destruct (Z.ltb_spec limit 0); [lia|].
  by rewrite take_reverse.
Qed.

(** [active[-0:]] is the whole list: a limit of zero is no limit. *)
Lemma recent_zero s now_ms : recent s 0 now_ms = reverse (active_records s now_ms).
Proof. done. Qed.

(** A store of size zero fails on the first alert it should accept. *)
Lemma add_alert_size_zero alert now_ms clock_ms :
  is_expired (alert_record alert (default clock_ms now_ms)) (default clock_ms now_ms) = false ->
  (add_alert (mkProcessingAlertStore 0 [] ∅ 0 0 0) alert now_ms clock_ms).2 = Raise AlertIndexError.
Proof. intros H. unfold add_alert. cbn. by rewrite H. Qed.

(** ** Deliveries *)

(** The hubs that calls without a concurrent [enqueue] produce: a stream
    reads its subscription with [next_event]. *)
Inductive hub_reachable : PhoneAlertDeliveryHub -> Prop :=
| hub_new : hub_reachable new_PhoneAlertDeliveryHub
| hub_subscribed h devices cameras session fresh clock :
    hub_reachable h -> fresh ∉ (ph_subscriptions h).*1 ->
    hub_reachable (subscribe h devices cameras session fresh clock).1
| hub_unsubscribed h id : hub_reachable h -> hub_reachable (unsubscribe h id)
| hub_published h r now_ms : hub_reachable h -> hub_reachable (publish h r now_ms).1
| hub_read h id s :
    hub_reachable h -> dict_get id (ph_subscriptions h) = Some s ->
    hub_reachable (h <| ph_subscriptions ::= dict_set id (next_event s).1 |>)
| hub_cleared h : hub_reachable h -> hub_reachable (hub_clear h).

Definition queue_bounded (s : PhoneAlertSubscription) : Prop := (length (ps_queue s) <= queue_maxsize)%nat.

(** What one delivery does to a subscription whose queue respects its bound. *)
Definition delivered (s : PhoneAlertSubscription) (r : ProcessingAlertRecord) : PhoneAlertSubscription :=
  s <| ps_queue := deque_trim 50 (ps_queue s ++ [r]) |>
    <| ps_dropped_count ::= Z.add (if queue_full s then 1 else 0) |>
    <| ps_delivered_count ::= Z.succ |>
    <| ps_last_sent_event_id := Some (record_id r) |>.

Lemma enqueue_bounded s r : queue_bounded s -> enqueue s r = Ok (delivered s r) /\ queue_bounded (delivered s r).
Proof.
  intros Hq. split; [|apply (deque_trim_length 50)].
  unfold queue_bounded, enqueue, put_payload, delivered, queue_full in *.
  destruct s as [sid dev cam ses at_ q dc dr last]. cbn [ps_queue] in *.
  destruct (decide (queue_maxsize <= length q)%nat) as [H|H].
  - rewrite (bool_decide_eq_true_2 _ H). destruct q as [|o q]; [cbn in H; unfold queue_maxsize in H; lia|].
    cbn [length] in *. unfold drop_oldest. cbn.
    rewrite bool_decide_eq_false_2 by (unfold queue_maxsize in *; lia). cbn. f_equal. f_equal; [|lia].
    unfold deque_trim. cbn. rewrite length_app. cbn. unfold queue_maxsize in *.
    by replace (S (length q + 1) - Z.to_nat 50)%nat with 1%nat by lia.
  - rewrite (bool_decide_eq_false_2 _ H). cbn. rewrite (bool_decide_eq_false_2 _ H). cbn.
    rewrite deque_trim_id by (rewrite length_app; cbn; unfold queue_maxsize in H; lia). do 2 f_equal; lia.
Qed.

Definition deliver_all (r : ProcessingAlertRecord) (subs : list (string * PhoneAlertSubscription))
    : list (string * PhoneAlertSubscription) :=
  (fun p => (p.1, if matches r p.2 then delivered p.2 r else p.2)) <$> subs.

Lemma deliver_bounded r subs :
  Forall (fun p => queue_bounded p.2) subs ->
  deliver r subs = Ok (deliver_all r subs, Z.of_nat (length (filter (fun p => matches r p.2 = true) subs))) /\
  Forall (fun p => queue_bounded p.2) (deliver_all r subs).
Proof.
  induction 1 as [|[id s] subs Hs _ [IH1 IH2]]; [done|]. cbn [deliver deliver_all fmap list_fmap fst snd].
  cbn [snd] in Hs. destruct (enqueue_bounded s r Hs) as [He Hb].
  unfold deliver_all in IH1, IH2. rewrite filter_cons. cbn [snd].
  destruct (matches r s) eqn:Em; rewrite ?He, IH1; cbn [mbind result_bind fst snd];
    (split; [|by constructor]); [|by rewrite decide_False].
  rewrite decide_True by done. cbn [length]. by rewrite Nat2Z.inj_succ, Z.add_1_r.
Qed.

Lemma hub_reachable_inv h :
  hub_reachable h -> NoDup (ph_subscriptions h).*1 /\ Forall (fun p => queue_bounded p.2) (ph_subscriptions h).
Proof.
  induction 1 as [|h dev cam ses fresh clock _ [IHn IHf]|h id _ [IHn IHf]|h r now _ [IHn IHf]|h id s _ [IHn IHf] Hg|h _ _].
  - split; constructor.
  - split; cbn; [by auto with gc|]. apply Forall_forall. intros p Hp.
    apply dict_set_elem in Hp as [->|Hp]; [unfold queue_bounded; cbn; lia|].
    by eapply Forall_forall in IHf.
  - split; cbn; [by auto with gc|]. apply Forall_forall. intros p Hp.
    apply dict_del_subseteq in Hp. by eapply Forall_forall in IHf.
  - unfold publish. destruct (is_expired r now); [done|].
    destruct (deliver_bounded r (ph_subscriptions h) IHf) as [He Hb]. cbn. rewrite He. cbn.
    assert ((deliver_all r (ph_subscriptions h)).*1 = (ph_subscriptions h).*1) as Hk
      by (unfold deliver_all; rewrite <- list_fmap_compose; done).
    destruct (_ =? 0); cbn; rewrite Hk; done.
  - split; cbn; [by auto with gc|]. apply Forall_forall. intros p Hp.
    apply dict_set_elem in Hp as [->|Hp]; [|by eapply Forall_forall in IHf].
    apply dict_get_elem in Hg. eapply Forall_forall in IHf as Hs; [|exact Hg].
    unfold queue_bounded, next_event in *. cbn in *. destruct (ps_queue s) eqn:E; cbn in *; rewrite ?E; cbn; lia.
  - split; constructor.
Qed.

(** on every hub that calls without a concurrent [enqueue] produce,
    [publish] never fails; an expired record is only counted, any other is
    appended to the queue of exactly the subscriptions it matches, which
    drop their oldest event when they already hold 50, and the number
    returned is the number of those subscriptions. *)
Theorem publish_exact h r now_ms :
  hub_reachable h ->
  if is_expired r now_ms
  then publish h r now_ms = (h <| ph_skipped_expired_count ::= Z.succ |>, Ok 0)
  else exists n, n = Z.of_nat (length (filter (fun p => matches r p.2 = true) (ph_subscriptions h))) /\
    (publish h r now_ms).2 = Ok n /\
    (publish h r now_ms).1 =
      h <| ph_subscriptions := deliver_all r (ph_subscriptions h) |> <| ph_published_count ::= Z.succ |>
        <| ph_delivered_count ::= Z.add n |>
        <| ph_skipped_unmatched_count ::= Z.add (if n =? 0 then 1 else 0) |>.
Proof.
  intros [_ Hf]%hub_reachable_inv. unfold publish. destruct (is_expired r now_ms); [done|].
  destruct (deliver_bounded r (ph_subscriptions h) Hf) as [He _]. cbn. rewrite He. cbn.
  eexists. split; [done|]. destruct h, (_ =? 0); cbn in *; split; try done; f_equal; lia.
Qed.

Definition ex_hub : PhoneAlertDeliveryHub :=
  (subscribe (subscribe new_PhoneAlertDeliveryHub ["cam-1"] None None "s1" 0).1 ["cam-2"] None None "s2" 0).1.

Lemma publish_exact_witness :
  exists h n, publish ex_hub (alert_record (ex_alert "a" 10 5) 12) 12 = (h, Ok n) /\ n = 1 /\
    (fun p => record_id <$> ps_queue p.2) <$> ph_subscriptions h = [["a"]; []].
Proof.
  assert (hub_reachable ex_hub) as Hr.
  { apply (hub_subscribed (subscribe new_PhoneAlertDeliveryHub ["cam-1"] None None "s1" 0).1);
      [apply (hub_subscribed new_PhoneAlertDeliveryHub); [constructor|]|];
      apply (bool_decide_unpack _); vm_compute; exact I. }
  pose proof (publish_exact ex_hub (alert_record (ex_alert "a" 10 5) 12) 12 Hr) as H.
  change (is_expired _ _) with false in H. cbv iota in H. destruct H as (n & Hn & H2 & H1).
  exists (publish ex_hub (alert_record (ex_alert "a" 10 5) 12) 12).1, n.
  rewrite <- H2. split; [by destruct (publish _ _ _)|]. split; [rewrite Hn; vm_compute; reflexivity|].
  rewrite H1. vm_compute. reflexivity.
Defined.

(** ** The queue without a lock around [enqueue] *)

Lemma enqueue_steps_alone s r :
  queue_bounded s ->
  exists n, enqueue_two (repeat true n) s r r AtFull AtPut = (delivered s r, EnqueueDone, AtPut).
Proof.
  intros Hb. destruct (enqueue_bounded s r Hb) as [He _]. unfold enqueue in He.
  destruct (queue_full s) eqn:Ef; [exists 3%nat|exists 2%nat]; cbn; rewrite Ef; cbn;
    rewrite He; done.
Qed.

(** Two deliveries to a subscription of 49 events: both find the queue not
    full, and the second to put its payload raises [queue.Full], which
    nothing catches. *)
Lemma concurrent_enqueue_raises s p1 p2 :
  length (ps_queue s) = 49%nat ->
  (enqueue_two [true; false; true; false] s p1 p2 AtFull AtFull).2 = EnqueueRaised /\
  (enqueue_two [true; false; true; false] s p1 p2 AtFull AtFull).1.2 = EnqueueDone.
Proof.
  intros H.
  assert (queue_full s = false) as Hf by (apply bool_decide_eq_false_2; unfold queue_maxsize; lia).
  destruct (put_payload s p1) as [s1|] eqn:E1; [|by unfold put_payload in E1; rewrite Hf in E1].
  assert (queue_full s1 = true) as Hf1.
  { unfold put_payload in E1. rewrite Hf in E1. injection E1 as <-. apply bool_decide_eq_true_2.
    cbn [update ps_queue]. rewrite length_app, H. done. }
  unfold enqueue_two, enqueue_step. rewrite Hf. cbn -[queue_full put_payload]. rewrite ?Hf, E1. cbn -[queue_full put_payload].
  unfold put_payload. rewrite Hf1. done.
Qed.
