(* ===== verification/FileSystem.v ===== *)
(** * Files

    What the archive uses of pathlib and os, on a file system without
    symbolic links: names are [resolve]d to absolute component lists, every
    operation may fail with the [OSError] a fault oracle gives it, and a
    crash keeps, of what was not synchronised, any part: a directory entry
    is any of those it has had since its directory was last synchronised,
    and a file whose data was not synchronised holds anything. Directories
    are an exception: one that [mkdir] made is taken to survive a crash, while
    the code synchronises the immediate parent of a file only, not the
    directories above it. *)

From Stdlib Require Import Ascii.
From S2P Require Import Prelude.

(** ** Paths *)

Definition path := list string.

Fixpoint normalise (done parts : list string) : path :=
  match parts with
  | [] => reverse done
  | part :: parts =>
      if bool_decide (part = "") || bool_decide (part = ".") then normalise done parts
      else if bool_decide (part = "..") then normalise (tail done) parts
      else normalise (part :: done) parts
  end.

(** [Path(s).resolve()] in the working directory [cwd]. *)
Definition resolve (cwd : path) (s : string) : path :=
  normalise (if starts_with "/" s then [] else reverse cwd) (split_char "/"%char s).

Definition parent (p : path) : path := removelast p.
Definition name (p : path) : string := List.last p "".

(** [path.is_relative_to(root)]. *)
Definition is_relative_to (p root : path) : bool := bool_decide (take (length root) p = root).

(** [str(path)]. *)
Definition path_text (p : path) : string :=
  match p with [] => "/" | _ => foldr (fun c s => "/" +:+ c +:+ s) "" p end.

(** What follows the last dot of [s], with the dot. *)
Fixpoint last_dot (s : string) : option string :=
  match s with
  | EmptyString => None
  | String c s' =>
      match last_dot s' with
      | Some t => Some t
      | None => if ascii_dec c "."%char then Some s else None
      end
  end.

(** [path.suffix]: empty when the name's last dot is its first or last character. *)
Definition suffix (p : path) : string :=
  match last_dot (name p) with
  | Some t => if String.eqb t (name p) || String.eqb t "." then "" else t
  | None => ""
  end.

(** ** The file system *)

Record inode := mkInode { in_data : string; in_synced : bool }.

(** A name maps to the inodes (or absences) it has stood for since its
    directory was synchronised, the current one first. *)
Record file_system := mkFileSystem {
  sys_inodes : list inode;
  sys_names : gmap path (list (option nat));
  sys_dirs : gset path;
}.

#[export] Instance inode_settable : Settable inode := fun x => mkInode (in_data x) (in_synced x).
#[export] Instance file_system_settable : Settable file_system := fun x =>
  mkFileSystem (sys_inodes x) (sys_names x) (sys_dirs x).

Definition entries (sys : file_system) (p : path) : list (option nat) := default [] (sys_names sys !! p).

Definition inode_of (sys : file_system) (p : path) : option nat := mjoin (head (entries sys p)).

(** The bytes a reader of [p] finds. *)
Definition content (sys : file_system) (p : path) : option string :=
  i ← inode_of sys p; in_data <$> sys_inodes sys !! i.

(** What a reader may find after a crash. *)
Definition crash_entry (sys : file_system) (e : option nat) (c : option string) : Prop :=
  match e with
  | None => c = None
  | Some i => exists n d, sys_inodes sys !! i = Some n /\ c = Some d /\ (in_synced n = true -> d = in_data n)
  end.

Definition after_crash (sys : file_system) (p : path) (c : option string) : Prop :=
  match entries sys p with
  | [] => c = None
  | l => exists e, e ∈ l /\ crash_entry sys e c
  end.

(** A name whose directory and data are synchronised. *)
Definition settled (sys : file_system) (p : path) : Prop :=
  match entries sys p with
  | [] | [None] => True
  | [Some i] => exists n, sys_inodes sys !! i = Some n /\ in_synced n = true
  | _ => False
  end.

(** ** Effects

    [OSError] and the other subclasses of [Exception], with the text of
    [f"{type(exc).__name__}: {exc}"]. A computation returns the states it
    went through after each system call, so that a crash may stop it there. *)
Inductive os_exception := OSError (text : string) | OtherError (text : string).

Definition exception_text (e : os_exception) : string :=
  match e with OSError t | OtherError t => t end.

Definition io (A : Type) : Type := file_system -> list file_system * file_system * result os_exception A.

#[export] Instance io_ret : MRet io := fun A a sys => ([], sys, Ok a).
#[export] Instance io_bind : MBind io := fun A B f m sys =>
  let '(tr, sys1, r) := m sys in
  match r with
  | Raise e => (tr, sys1, Raise e)
  | Ok a => let '(tr2, sys2, r2) := f a sys1 in (tr ++ tr2, sys2, r2)
  end.

Definition io_raise {A} (e : os_exception) : io A := fun sys => ([], sys, Raise e).

(** [try: m except Exception as exc: handler(exc)]. *)
Definition io_except {A} (m : io A) (handler : os_exception -> io A) : io A := fun sys =>
  let '(tr, sys1, r) := m sys in
  match r with
  | Ok a => (tr, sys1, Ok a)
  | Raise e => let '(tr2, sys2, r2) := handler e sys1 in (tr ++ tr2, sys2, r2)
  end.

(** [try: m finally: cleanup]. *)
Definition io_finally {A} (m : io A) (cleanup : io unit) : io A := fun sys =>
  let '(tr, sys1, r) := m sys in
  let '(tr2, sys2, r2) := cleanup sys1 in
  (tr ++ tr2, sys2, match r2 with Ok _ => r | Raise e => Raise e end).

(** One system call: its change, or its failure. *)
Definition syscall (fault : option os_exception) (f : file_system -> result os_exception file_system) : io unit :=
  fun sys =>
    match fault with
    | Some e => ([], sys, Raise e)
    | None => match f sys with Ok sys' => ([sys'], sys', Ok tt) | Raise e => ([], sys, Raise e) end
    end.

Fixpoint ancestors (p : list string) : list path :=
  match p with [] => [[]] | c :: p => [] :: ((cons c) <$> ancestors p) end.

(** [path.mkdir(parents=True, exist_ok=True)]; new directories survive crashes
    here. *)
Definition mkdir_parents (p : path) (sys : file_system) : result os_exception file_system :=
  if existsb (fun q => negb (bool_decide (content sys q = None))) (ancestors p)
  then Raise (OSError "FileExistsError")
  else Ok (sys <| sys_dirs ::= fun d => list_to_set (ancestors p) ∪ d |>).

(** [path.open("xb")]. *)
Definition create_exclusive (p : path) (sys : file_system) : result os_exception file_system :=
  if negb (bool_decide (content sys p = None)) || bool_decide (p ∈ sys_dirs sys)
  then Raise (OSError "FileExistsError")
  else if negb (bool_decide (parent p ∈ sys_dirs sys)) then Raise (OSError "FileNotFoundError")
  else Ok (sys <| sys_inodes ::= fun l => l ++ [mkInode "" false] |>
               <| sys_names ::= <[p := Some (length (sys_inodes sys)) :: entries sys p]> |>).

Definition alter_inode (p : path) (f : inode -> inode) (sys : file_system) : file_system :=
  match inode_of sys p with
  | Some i => sys <| sys_inodes ::= alter f i |>
  | None => sys
  end.

(** The open file's data reaches the kernel, and [os.fsync] the disk. *)
Definition write_data (p : path) (data : string) (sys : file_system) : file_system :=
  alter_inode p (fun n => mkInode (in_data n +:+ data) false) sys.

Definition sync_data (p : path) (sys : file_system) : file_system :=
  alter_inode p (fun n => n <| in_synced := true |>) sys.

(** [os.replace(source, target)]. *)
Definition replace_file (source target : path) (sys : file_system) : result os_exception file_system :=
  match inode_of sys source with
  | None => Raise (OSError "FileNotFoundError")
  | Some i =>
      if bool_decide (target ∈ sys_dirs sys) then Raise (OSError "IsADirectoryError")
      else Ok (sys <| sys_names ::= fun t => <[target := Some i :: entries sys target]>
                                              (<[source := None :: entries sys source]> t) |>)
  end.

(** [path.unlink(missing_ok=True)]. *)
Definition unlink_missing_ok (p : path) (sys : file_system) : result os_exception file_system :=
  match inode_of sys p with
  | None => Ok sys
  | Some _ => Ok (sys <| sys_names ::= <[p := None :: entries sys p]> |>)
  end.

(** [open("w")]: an existing file is emptied, another one made. *)
Definition open_truncated (p : path) (sys : file_system) : result os_exception file_system :=
  if bool_decide (p ∈ sys_dirs sys) then Raise (OSError "IsADirectoryError")
  else match inode_of sys p with
       | Some _ => Ok (alter_inode p (fun _ => mkInode "" false) sys)
       | None => create_exclusive p sys
       end.

(** [with open(target, "w") as file: file.write(data)]: [open] may fail, and
    the copy after some bytes have reached the file. *)
Definition write_whole (open_fault : option os_exception) (write_fault : option (os_exception * nat)) (target : path) (data : string)
    : io unit :=
  _ ← syscall open_fault (open_truncated target);
  match write_fault with
  | None => syscall None (fun sys => Ok (write_data target data sys))
  | Some (e, written) =>
      _ ← syscall None (fun sys => Ok (write_data target (String.substring 0 written data) sys)); io_raise e
  end.

(** [os.fsync] of a directory: its entries are what they stand for now. *)
Definition sync_directory (d : path) (sys : file_system) : file_system :=
  sys <| sys_names ::= map_imap (fun p l => Some (if bool_decide (parent p = d) then take 1 l else l)) |>.

(** ** Rules for computations

    [wp I m Q E sys]: from [sys], every state [m] goes through satisfies [I],
    and the state it ends in satisfies [Q] of its value or [E] of its
    exception. *)
Definition wp {A} (I : file_system -> Prop) (m : io A) (Q : A -> file_system -> Prop)
    (E : os_exception -> file_system -> Prop) (sys : file_system) : Prop :=
  let '(tr, sys', r) := m sys in
  Forall I tr /\ match r with Ok a => Q a sys' | Raise e => E e sys' end.

Section Rules.
Context (I : file_system -> Prop).

Lemma wp_mono {A} (m : io A) (Q Q' : A -> file_system -> Prop) (E E' : os_exception -> file_system -> Prop) sys :
  wp I m Q E sys -> (forall a s, Q a s -> Q' a s) -> (forall e s, E e s -> E' e s) -> wp I m Q' E' sys.
Proof. unfold wp. destruct (m sys) as [[tr sys'] [a|e]]; naive_solver. Qed.

Lemma wp_ret {A} (a : A) (Q : A -> file_system -> Prop) E sys : Q a sys -> wp I (mret a) Q E sys.
Proof. intros H. split; [constructor|done]. Qed.

Lemma wp_raise {A} e (Q : A -> file_system -> Prop) (E : os_exception -> file_system -> Prop) sys :
  E e sys -> wp I (io_raise e) Q E sys.
Proof. intros H. split; [constructor|done]. Qed.

Lemma wp_bind {A B} (m : io A) (f : A -> io B) Q E sys :
  wp I m (fun a => wp I (f a) Q E) E sys -> wp I (m ≫= f) Q E sys.
Proof.
  unfold wp, mbind, io_bind. destruct (m sys) as [[tr sys1] [a|e]]; [|done].
  destruct (f a sys1) as [[tr2 sys2] r2]. intros (H1 & H2 & H3). split; [by apply Forall_app|done].
Qed.

Lemma wp_except {A} (m : io A) (h : os_exception -> io A) Q E sys :
  wp I m Q (fun e => wp I (h e) Q E) sys -> wp I (io_except m h) Q E sys.
Proof.
  unfold wp, io_except. destruct (m sys) as [[tr sys1] [a|e]]; [done|].
  destruct (h e sys1) as [[tr2 sys2] r2]. intros (H1 & H2 & H3). split; [by apply Forall_app|done].
Qed.

Lemma wp_finally {A} (m : io A) (c : io unit) Q E sys :
  wp I m (fun a => wp I c (fun _ => Q a) E) (fun e => wp I c (fun _ => E e) E) sys ->
  wp I (io_finally m c) Q E sys.
Proof.
  unfold wp, io_finally. destruct (m sys) as [[tr sys1] [a|e]];
    destruct (c sys1) as [[tr2 sys2] [[]|e2]]; intros (H1 & H2 & H3); (split; [by apply Forall_app|done]).
Qed.

Lemma wp_syscall fault f (Q : unit -> file_system -> Prop) (E : os_exception -> file_system -> Prop) sys :
  (forall sys', fault = None -> f sys = Ok sys' -> I sys' /\ Q tt sys') ->
  (forall e, (fault = None -> f sys = Raise e) -> E e sys) ->
  wp I (syscall fault f) Q E sys.
Proof.
  intros Hq He. unfold wp, syscall. destruct fault as [e|]; [split; [constructor|by apply He]|].
  destruct (f sys) as [sys'|e] eqn:E1; [|split; [constructor|by apply He]].
  destruct (Hq sys') as [H1 H2]; [done..|]. split; [by constructor|done].
Qed.
End Rules.

(** ** Names and inodes *)

Definition sys_ok (sys : file_system) : Prop :=
  forall p i, Some i ∈ entries sys p -> (i < length (sys_inodes sys))%nat.

Lemma entries_insert sys t p q l :
  sys_names sys = <[p := l]> t ->
  entries sys q = if decide (q = p) then l else default [] (t !! q).
Proof.
  unfold entries. intros ->. destruct (decide (q = p)) as [->|Hne].
  - by rewrite lookup_insert_eq.
  - by rewrite lookup_insert_ne by done.
Qed.

Lemma entries_sync d sys q :
  entries (sync_directory d sys) q =
  if bool_decide (parent q = d) then take 1 (entries sys q) else entries sys q.
Proof.
  unfold entries, sync_directory. cbn. rewrite map_lookup_imap.
  destruct (sys_names sys !! q); cbn; [done|]. by destruct (bool_decide _).
Qed.

(** The inodes of a name are still there when others are appended. *)
Lemma content_same sys sys' extra q :
  sys_ok sys -> sys_inodes sys' = sys_inodes sys ++ extra ->
  entries sys' q = entries sys q \/ entries sys' q = take 1 (entries sys q) ->
  content sys' q = content sys q /\ (forall c, after_crash sys' q c -> after_crash sys q c).
Proof.
  intros Hok Hn He.
  assert (forall i, Some i ∈ entries sys q -> sys_inodes sys' !! i = sys_inodes sys !! i) as Hi.
  { intros i Hi%Hok. rewrite Hn. by apply lookup_app_l. }
  assert (forall e c, e ∈ entries sys q -> crash_entry sys' e c -> crash_entry sys e c) as Hc.
  { intros [i|] c Hin; [|done]. cbn. by rewrite (Hi i Hin). }
  split.
  - unfold content, inode_of.
    replace (head (entries sys' q)) with (head (entries sys q)).
    2:{ destruct He as [->| ->]; [done|]. by destruct (entries sys q). }
    destruct (entries sys q) as [|[i|] l] eqn:E; cbn; [done| |done].
    rewrite Hi; [done|]. left.
  - intros c. unfold after_crash. destruct (entries sys q) as [|e l] eqn:E.
    { destruct He as [->| ->]; done. }
    destruct He as [->| ->].
    + intros (e' & Hin & Hce). exists e'. split; [done|]. by apply Hc.
    + cbn [take]. rewrite take_0. intros (e' & ->%list_elem_of_singleton & Hce). exists e. split; [left|].
      apply Hc; [left|done].
Qed.
