(* ===== verification/Archive.v ===== *)
(** * The frame archive

    src/app/services/ingest/archive.py: the bytes of a frame are written to
    a temporary file that replaces the target ([durable_write_bytes]), then
    its row is created, and whatever fails is turned into the outcome
    ([persist_frame_archive] never raises). *)

From S2P Require Import Prelude Digest Identity SyncModels Database Frames FileSystem.

(** ** [durable_write_bytes]

    The failure of each system call on this run; [wf_written] bytes of the
    payload leave the buffer in [write], the rest in [flush]. *)
Record write_faults := mkWriteFaults {
  wf_mkdir : option os_exception;
  wf_open : option os_exception;
  wf_write : option os_exception;
  wf_written : nat;
  wf_flush : option os_exception;
  wf_fsync : option os_exception;
  wf_close : option os_exception;
  wf_replace : option os_exception;
  wf_open_directory : option os_exception;
  wf_fsync_directory : option os_exception;
  wf_close_directory : option os_exception;
  wf_unlink : option os_exception;
}.

Definition no_faults : write_faults :=
  mkWriteFaults None None None 0 None None None None None None None None.

Definition is_os_error (e : os_exception) : bool :=
  match e with OSError _ => true | OtherError _ => false end.

(** [except OSError: return value]. *)
Definition on_os_error {A} (value : A) (e : os_exception) : io A :=
  if is_os_error e then mret value else io_raise e.

Definition _fsync_directory (f : write_faults) (d : path) : io unit :=
  io_except (syscall (wf_open_directory f) (fun sys => Ok sys) ≫= fun _ => mret true) (on_os_error false)
    ≫= fun opened =>
  if opened : bool
  then io_finally
         (io_except (syscall (wf_fsync_directory f) (fun sys => Ok (sync_directory d sys))) (on_os_error tt))
         (syscall (wf_close_directory f) (fun sys => Ok sys))
  else mret tt.

Definition write_payload (f : write_faults) (temporary : path) (payload : string) : io unit :=
  let n := wf_written f in
  syscall (wf_write f) (fun sys => Ok (write_data temporary (String.substring 0 n payload) sys)) ≫= fun _ =>
  syscall (wf_flush f) (fun sys => Ok (write_data temporary (String.substring n (String.length payload) payload) sys)) ≫= fun _ =>
  syscall (wf_fsync f) (fun sys => Ok (sync_data temporary sys)).

Definition temporary_of (p : path) (uuid : string) : path :=
  parent p ++ ["." +:+ name p +:+ "." +:+ uuid +:+ ".tmp"].

Definition durable_write_bytes (f : write_faults) (uuid : string) (p : path) (payload : string) : io unit :=
  syscall (wf_mkdir f) (mkdir_parents (parent p)) ≫= fun _ =>
  let temporary := temporary_of p uuid in
  io_except
    (syscall (wf_open f) (create_exclusive temporary) ≫= fun _ =>
     io_finally (write_payload f temporary payload) (syscall (wf_close f) (fun sys => Ok sys)) ≫= fun _ =>
     syscall (wf_replace f) (replace_file temporary p) ≫= fun _ =>
     _fsync_directory f (parent p))
    (fun e => io_except (syscall (wf_unlink f) (unlink_missing_ok temporary)) (on_os_error tt) ≫= fun _ =>
              io_raise e).

(** ** [persist_frame_archive] *)

Record FrameArchiveOutcome := mkFrameArchiveOutcome {
  oc_frame : option Frame;
  oc_state : string;
  oc_file_path : option string;
  oc_error : option string;
}.

(** The text of an [IntegrityError] is the driver's. *)
Definition frame_exception_text (integrity_text : string) (e : frame_error) : string :=
  match e with
  | FrameIntegrityError m => "FrameIntegrityError: " +:+ m
  | FrameValueError m => "ValueError: " +:+ m
  | FrameCommitError => integrity_text
  end.

Definition joined_errors (errors : list string) : option string :=
  let text := join "; " errors in if truthy text then Some text else None.

(** The writer gets the path the operating system resolves. *)
Definition ArchiveWriter := path -> string -> io unit.

(** The file part: whether the file is durable, and the errors so far. *)
Definition archive_file (cwd : path) (writer : ArchiveWriter) (sys : file_system) (image_bytes : string)
    (save_path initial_error : option string) : file_system * bool * list string :=
  let errors := match initial_error with Some e => if truthy e then [e] else [] | None => [] end in
  match save_path, errors with
  | Some p, [] =>
      let '(_, sys, r) := writer (resolve cwd p) image_bytes sys in
      match r with
      | Ok _ => (sys, true, errors)
      | Raise e => (sys, false, errors ++ ["file archive failed: " +:+ exception_text e])
      end
  | _, _ => (sys, false, errors)
  end.

(** The row the call asks for; [new] carries its other arguments. *)
Definition archive_row (new : Frame) (file_durable : bool) (image_bytes : string) (save_path : option string)
    (errors : list string) : Frame :=
  new <| fr_file_path := if file_durable then save_path else None |>
      <| fr_archive_state := if file_durable then ARCHIVE_DURABLE else ARCHIVE_DEGRADED_LIVE_ONLY |>
      <| fr_archive_error := joined_errors errors |>
      <| fr_file_size := if file_durable then Some (Z.of_nat (String.length image_bytes)) else None |>.

Definition outcome_of (frame : Frame) : FrameArchiveOutcome :=
  mkFrameArchiveOutcome (Some frame) (fr_archive_state frame)
    (if bool_decide (fr_archive_state frame = ARCHIVE_DURABLE) then fr_file_path frame else None)
    (fr_archive_error frame).

(** [db_error] is an exception of the database engine other than a failed
    constraint, which leaves the tables as they are. *)
Definition persist_frame_archive `{Hashing} (cwd : path) (writer : ArchiveWriter)
    (db_error : option string) (integrity_text : string) (sys : file_system) (read now : database)
    (new : Frame) (image_bytes : string) (save_path initial_error : option string)
    : file_system * database * FrameArchiveOutcome :=
  let '(sys, file_durable, errors) := archive_file cwd writer sys image_bytes save_path initial_error in
  let failed text :=
    mkFrameArchiveOutcome None ARCHIVE_DEGRADED_LIVE_ONLY None
      (Some (join "; " (errors ++ ["metadata archive failed: " +:+ text]))) in
  match db_error with
  | Some text => (sys, now, failed text)
  | None =>
      match create_frame read now (archive_row new file_durable image_bytes save_path errors) with
      | (db, Raise e) => (sys, db, failed (frame_exception_text integrity_text e))
      | (db, Ok frame) => (sys, db, outcome_of frame)
      end
  end.

(** ** The write is atomic *)

Section Write.
Context (p : path) (uuid : string) (payload : string) (sys0 : file_system).
Hypothesis (ok0 : sys_ok sys0) (fresh : entries sys0 (temporary_of p uuid) = []).

Abbreviation t := (temporary_of p uuid).
Abbreviation old := (entries sys0 p).
Abbreviation new := (length (sys_inodes sys0)).

Lemma temporary_parent : parent t = parent p.
Proof. unfold parent at 1, temporary_of. apply removelast_last. Qed.

Lemma temporary_name : name t = "." +:+ name p +:+ "." +:+ uuid +:+ ".tmp".
Proof. unfold name at 1, temporary_of. apply last_last. Qed.

Lemma temporary_ne : t <> p.
Proof.
  intros E. apply (f_equal name) in E. rewrite temporary_name in E.
  apply (f_equal String.length) in E. rewrite !length_string_app in E. cbn in E. lia.
Qed.

(** What the target, the temporary name and the other names stand for, and
    the inode of the temporary file. *)
Record progress (target temporary : list (option nat)) (trimmed : bool) (n : option inode)
    (sys : file_system) : Prop := {
  pr_target : entries sys p = target;
  pr_temporary : entries sys t = temporary;
  pr_others : forall q, q <> p -> q <> t -> entries sys q = entries sys0 q \/ entries sys q = take 1 (entries sys0 q);
  pr_inodes : sys_inodes sys = sys_inodes sys0 ++ option_list n;
}.

(** The target is as it was or holds the payload, now and after a crash,
    and no other file is touched. *)
Definition target_old_or_new (sys : file_system) : Prop :=
  (content sys p = content sys0 p \/ content sys p = Some payload) /\
  (forall c, after_crash sys p c -> after_crash sys0 p c \/ c = Some payload) /\
  (forall q, q <> p -> q <> t ->
     content sys q = content sys0 q /\ forall c, after_crash sys q c -> after_crash sys0 q c).

Lemma progress_others target temporary trimmed n sys :
  progress target temporary trimmed n sys -> forall q, q <> p -> q <> t ->
  content sys q = content sys0 q /\ forall c, after_crash sys q c -> after_crash sys0 q c.
Proof. intros [_ _ Ho Hn] q Hp Ht. eapply content_same; [done|exact Hn|by apply Ho]. Qed.

Lemma progress_before temporary n sys : progress old temporary false n sys ->
  content sys p = content sys0 p /\ target_old_or_new sys.
Proof.
  intros Hp. destruct (content_same sys0 sys (option_list n) p ok0 (pr_inodes _ _ _ _ _ Hp)
    (or_introl (pr_target _ _ _ _ _ Hp))) as [Hc Ha].
  split; [done|]. split; [by left|]. split; [by auto|]. by eapply progress_others.
Qed.

Abbreviation written := (Some (mkInode payload true)).

Lemma new_inode target temporary trimmed n sys :
  progress target temporary trimmed (Some n) sys -> sys_inodes sys !! new = Some n.
Proof.
  intros Hp. rewrite (pr_inodes _ _ _ _ _ Hp). cbn. by rewrite lookup_app_r, Nat.sub_diag by lia.
Qed.

Lemma progress_after rest temporary trimmed sys :
  progress (Some new :: rest) temporary trimmed written sys -> (rest = old \/ rest = []) ->
  content sys p = Some payload /\ target_old_or_new sys /\
  (rest = [] -> forall c, after_crash sys p c -> c = Some payload).
Proof.
  intros Hp Hr. pose proof (new_inode _ _ _ _ _ Hp) as Hi.
  assert (content sys p = Some payload) as Hc.
  { unfold content, inode_of. rewrite (pr_target _ _ _ _ _ Hp). cbn. by rewrite Hi. }
  assert (forall c, crash_entry sys (Some new) c -> c = Some payload) as Hn.
  { intros c (n & d & Hn & -> & Hd). rewrite Hi in Hn. injection Hn as <-. by rewrite Hd. }
  split; [done|]. split.
  - split; [by right|]. split; [|by eapply progress_others].
    intros c. unfold after_crash at 1. rewrite (pr_target _ _ _ _ _ Hp).
    intros (e & [->|Hin]%elem_of_cons & He); [right; by apply Hn|].
    destruct Hr as [->| ->]; [|by apply not_elem_of_nil in Hin]. left. unfold after_crash.
    destruct old as [|e0 l] eqn:Eo; [by apply not_elem_of_nil in Hin|]. exists e. split; [done|].
    destruct e as [i|]; [|done]. cbn in *. rewrite (pr_inodes _ _ _ _ _ Hp) in He.
    rewrite lookup_app_l in He; [done|]. apply (ok0 p). by rewrite Eo.
  - intros -> c. unfold after_crash. rewrite (pr_target _ _ _ _ _ Hp).
    intros (e & ->%list_elem_of_singleton & He). by apply Hn.
Qed.

(** *** The system calls *)

Lemma progress_start : progress old [] false None sys0.
Proof. split; [done|done|by left|by rewrite app_nil_r]. Qed.

Lemma progress_mkdir sys sys' : progress old [] false None sys ->
  mkdir_parents (parent p) sys = Ok sys' -> progress old [] false None sys'.
Proof. intros [H1 H2 H3 H4]. unfold mkdir_parents. destruct (existsb _ _); [done|]. by intros [= <-]. Qed.

Lemma progress_open sys sys' : progress old [] false None sys ->
  create_exclusive t sys = Ok sys' -> progress old [Some new] false (Some (mkInode "" false)) sys'.
Proof.
  intros [H1 H2 H3 H4]. unfold create_exclusive.
  destruct (_ || _); [done|]. destruct (negb _); [done|]. intros [= <-].
  assert (forall q, entries (sys <| sys_inodes ::= fun l => l ++ [mkInode "" false] |>
      <| sys_names ::= <[t := Some (length (sys_inodes sys)) :: entries sys t]> |>) q =
      if decide (q = t) then Some new :: entries sys t else entries sys q) as He.
  { intros q. erewrite (entries_insert _ (sys_names sys)) by done. cbn. rewrite H4, app_nil_r. done. }
  cbn [option_list] in H4. rewrite app_nil_r in H4.
  split; intros; rewrite ?He.
  - rewrite decide_False by (apply not_eq_sym, temporary_ne). done.
  - by rewrite decide_True, H2 by done.
  - rewrite decide_False by done. by apply H3.
  - cbn. by rewrite H4.
Qed.

Lemma progress_alter target f n sys : progress target [Some new] false (Some n) sys ->
  progress target [Some new] false (Some (f n)) (alter_inode t f sys).
Proof.
  intros Hp. pose proof Hp as [H1 H2 H3 H4]. unfold alter_inode, inode_of. rewrite H2. cbn.
  split; [done..|]. cbn. rewrite H4, alter_app_r_alt, Nat.sub_diag by lia. done.
Qed.

Lemma progress_replace n sys sys' : progress old [Some new] false (Some n) sys ->
  replace_file t p sys = Ok sys' -> progress (Some new :: old) [None; Some new] false (Some n) sys'.
Proof.
  intros [H1 H2 H3 H4]. unfold replace_file, inode_of. rewrite H2. cbn.
  destruct (bool_decide _); [done|]. intros [= <-].
  assert (forall q, entries (sys <| sys_names ::= fun t' => <[p := Some new :: entries sys p]>
        (<[t := None :: entries sys t]> t') |>) q =
      if decide (q = p) then Some new :: old else if decide (q = t) then [None; Some new] else entries sys q) as He.
  { intros q. erewrite (entries_insert _ _ p) by reflexivity. rewrite H1.
    destruct (decide (q = p)); [done|].
    destruct (decide (q = t)) as [->|Hne]; [by rewrite lookup_insert_eq, H2|by rewrite lookup_insert_ne]. }
  cbn [update] in He. rewrite H2 in He.
  split; intros; rewrite ?He; [by rewrite decide_True| | |done].
  - rewrite decide_False by apply temporary_ne. by rewrite decide_True.
  - rewrite decide_False, decide_False by done. by apply H3.
Qed.

Lemma progress_sync sys : progress (Some new :: old) [None; Some new] false written sys ->
  progress [Some new] [None] true written (sync_directory (parent p) sys).
Proof.
  intros [H1 H2 H3 H4]. split; intros; rewrite ?entries_sync.
  - rewrite bool_decide_eq_true_2 by done. by rewrite H1.
  - rewrite bool_decide_eq_true_2 by apply temporary_parent. by rewrite H2.
  - destruct (bool_decide _); [|by apply H3]. destruct (H3 q) as [->| ->]; [done..|by right|right].
    by rewrite take_take.
  - done.
Qed.

Lemma progress_unlink target temporary trimmed n sys sys' : progress target temporary trimmed n sys ->
  unlink_missing_ok t sys = Ok sys' -> exists temporary', progress target temporary' trimmed n sys'.
Proof.
  intros Hp. pose proof Hp as [H1 H2 H3 H4]. unfold unlink_missing_ok.
  destruct (inode_of sys t); intros [= <-]; [|by exists temporary].
  exists (None :: temporary).
  assert (forall q, entries (sys <| sys_names ::= <[t := None :: entries sys t]> |>) q =
      if decide (q = t) then None :: temporary else entries sys q) as He.
  { intros q. erewrite (entries_insert _ (sys_names sys)) by done. by rewrite H2. }
  split; intros; rewrite ?He; [|by rewrite decide_True| |done].
  - rewrite decide_False by (apply not_eq_sym, temporary_ne). done.
  - rewrite decide_False by done. by apply H3.
Qed.


(** *** The whole write *)

Abbreviation safe := target_old_or_new.

(** Before the replacement the target is untouched. *)
Definition untouched (sys : file_system) : Prop := exists temporary n, progress old temporary false n sys.

(** After it the target is the payload. *)
Definition replaced (sys : file_system) : Prop :=
  (exists temporary, progress (Some new :: old) temporary false written sys) \/
  (exists temporary, progress [Some new] temporary true written sys).

Lemma untouched_safe sys : untouched sys -> safe sys.
Proof. intros (temporary & n & H). by apply (progress_before temporary n). Qed.

Lemma replaced_safe sys : replaced sys -> safe sys.
Proof. intros [(temporary & H)|(temporary & H)]; apply (progress_after _ temporary _ _ H); auto. Qed.

Lemma write_payload_wp f sys :
  progress old [Some new] false (Some (mkInode "" false)) sys ->
  wp safe (write_payload f t payload)
    (fun _ s => progress old [Some new] false written s)
    (fun _ s => untouched s) sys.
Proof.
  intros Hp. unfold write_payload.
  apply wp_bind, wp_syscall; [intros s1 _ [= <-]|intros e _; by eexists _, _].
  apply (progress_alter _ (fun n => mkInode (in_data n +:+ String.substring 0 (wf_written f) payload) false)) in Hp.
  split; [by eapply progress_before|].
  apply wp_bind, wp_syscall; [intros s2 _ [= <-]|intros e _; by eexists _, _].
  eapply (progress_alter _ (fun n => mkInode (in_data n +:+ _) false)) in Hp.
  split; [by eapply progress_before|].
  apply wp_syscall; [intros s3 _ [= <-]|intros e _; by eexists _, _].
  eapply (progress_alter _ (fun n => n <| in_synced := true |>)) in Hp.
  assert (("" +:+ String.substring 0 (wf_written f) payload) +:+
    String.substring (wf_written f) (String.length payload) payload = payload) as E
    by (apply substring_halves; lia).
  cbn [in_data update] in Hp. rewrite E in Hp.
  split; [by eapply progress_before|exact Hp].
Qed.

Lemma syscall_id_wp fault (Q : unit -> file_system -> Prop) (E : os_exception -> file_system -> Prop) sys :
  safe sys -> Q tt sys -> (forall e, fault <> None -> E e sys) -> wp safe (syscall fault (fun sys => Ok sys)) Q E sys.
Proof.
  intros Hs Hq He. apply wp_syscall; [by intros s' _ [= <-]|]. intros e Hf. apply He. intros ->. by specialize (Hf eq_refl).
Qed.

Lemma fsync_directory_wp f sys :
  progress (Some new :: old) [None; Some new] false written sys ->
  wp safe (_fsync_directory f (parent p))
    (fun _ s => replaced s /\
       (wf_open_directory f = None -> wf_fsync_directory f = None ->
        exists temporary, progress [Some new] temporary true written s))
    (fun _ s => replaced s) sys.
Proof.
  intros Hp. assert (replaced sys) as Hr by (left; by eexists). pose proof (replaced_safe _ Hr) as Hs.
  unfold _fsync_directory. apply wp_bind, wp_except, wp_bind.
  apply syscall_id_wp; [done| |].
  - apply wp_ret, wp_finally, wp_except.
    apply wp_syscall; [intros s1 _ [= <-]|intros e He].
    + assert (progress [Some new] [None] true written (sync_directory (parent p) sys)) as Hp1 by by apply progress_sync.
      assert (replaced (sync_directory (parent p) sys)) as Hr1 by (right; by eexists).
      pose proof (replaced_safe _ Hr1). split; [done|]. apply syscall_id_wp; [done| |done].
      split; [done|]. intros _ _. by eexists.
    + unfold on_os_error. destruct (is_os_error e); [apply wp_ret|apply wp_raise];
        (apply syscall_id_wp; [done| |done]); [|done].
      split; [done|]. intros _ Hf. specialize (He Hf). done.
  - intros e He. unfold on_os_error. destruct (is_os_error e); [|by apply wp_raise].
    apply wp_ret, wp_ret. done.
Qed.

Lemma durable_write_wp f :
  wp safe (durable_write_bytes f uuid p payload)
    (fun _ s => replaced s /\
       (wf_open_directory f = None -> wf_fsync_directory f = None ->
        exists temporary, progress [Some new] temporary true written s))
    (fun _ s => untouched s \/ replaced s) sys0.
Proof.
  pose proof progress_start as Hp. unfold durable_write_bytes.
  assert (forall s, untouched s \/ replaced s -> safe s) as Hsafe by (intros s [?|?]; auto using untouched_safe, replaced_safe).
  assert (forall e s, untouched s \/ replaced s ->
    wp safe (io_except (syscall (wf_unlink f) (unlink_missing_ok t)) (on_os_error tt) ≫= fun _ => io_raise (A := unit) e)
      (fun _ s => replaced s /\
       (wf_open_directory f = None -> wf_fsync_directory f = None ->
        exists temporary, progress [Some new] temporary true written s))
      (fun _ s => untouched s \/ replaced s) s) as Hcleanup.
  { intros e s Hs. apply wp_bind, wp_except, wp_syscall.
    - intros s' _ Hu. assert (untouched s' \/ replaced s') as Hs'.
      { destruct Hs as [(tm & n & H)|[(tm & H)|(tm & H)]];
          destruct (progress_unlink _ _ _ _ _ _ H Hu) as [tm' H']; [left; by eexists _, _|right; left; by eexists|right; right; by eexists]. }
      split; [by apply Hsafe|]. by apply wp_raise.
    - intros e' _. unfold on_os_error. destruct (is_os_error e'); [apply wp_ret|]; by apply wp_raise. }
  apply wp_bind, wp_syscall; [intros s1 _ H1|intros e _; left; by eexists _, _].
  pose proof (progress_mkdir _ _ Hp H1) as Hp1.
  split; [by eapply progress_before|]. apply wp_except, wp_bind, wp_syscall.
  2:{ intros e _. apply Hcleanup. left. by eexists _, _. }
  intros s2 _ H2. pose proof (progress_open _ _ Hp1 H2) as Hp2. split; [by eapply progress_before|].
  apply wp_bind, wp_finally. eapply wp_mono; [by apply write_payload_wp| |].
  - intros u3 s3 Hp3. cbv beta in Hp3. assert (untouched s3) as Hu3 by by eexists _, _.
    apply syscall_id_wp; [by apply untouched_safe| |intros e _; apply Hcleanup; by left].
    apply wp_bind, wp_syscall; [intros s4 _ H4|intros e _; apply Hcleanup; by left].
    pose proof (progress_replace _ _ _ Hp3 H4) as Hp4.
    split; [by eapply (progress_after old); [|left]|].
    eapply wp_mono; [by apply fsync_directory_wp|done|]. intros e s5 H5. apply Hcleanup. by right.
  - intros e s3 Hu3. apply syscall_id_wp; [by apply untouched_safe|apply Hcleanup; by left|].
    intros e' _. apply Hcleanup. by left.
Qed.
End Write.

Lemma durable_write_end f uuid p payload sys0 states sys r :
  durable_write_bytes f uuid p payload sys0 = (states, sys, r) ->
  sys_ok sys0 -> entries sys0 (temporary_of p uuid) = [] ->
  target_old_or_new p uuid payload sys0 sys /\ (r = Ok tt -> content sys p = Some payload).
Proof.
  intros E Hok Hf. pose proof (durable_write_wp p uuid payload sys0 Hok Hf f) as H.
  unfold wp in H. rewrite E in H. destruct H as [_ H].
  destruct r as [[]|e].
  - destruct H as [H _]. split; [by apply replaced_safe|]. intros _.
    destruct H as [(tm & H)|(tm & H)]; destruct (progress_after p uuid payload sys0 Hok _ _ _ _ H) as [Hc _]; auto.
  - split; [|done]. destruct H; [by apply untouched_safe|by apply replaced_safe].
Qed.

(** C13: [durable_write_bytes] is atomic for crashes and failures alike. With
    a temporary name that was never used, in every state it goes through —
    a crash may stop it in any — the target holds its old content or the
    whole payload, also for a reader after the crash, and no other file
    changes. When it returns the target is the payload, and stays so after
    a crash if the directory could be synchronised. *)
Theorem durable_write_atomic f uuid p payload sys0 states sys r :
  durable_write_bytes f uuid p payload sys0 = (states, sys, r) ->
  sys_ok sys0 -> entries sys0 (temporary_of p uuid) = [] ->
  Forall (target_old_or_new p uuid payload sys0) (states ++ [sys]) /\
  (r = Ok tt ->
   content sys p = Some payload /\
   (wf_open_directory f = None -> wf_fsync_directory f = None ->
    forall c, after_crash sys p c -> c = Some payload)).
Proof.
  intros E Hok Hf. destruct (durable_write_end _ _ _ _ _ _ _ _ E Hok Hf) as [Hsys Hc].
  pose proof (durable_write_wp p uuid payload sys0 Hok Hf f) as H.
  unfold wp in H. rewrite E in H. destruct H as [Hs H].
  split; [apply Forall_app; split; [done|by constructor]|]. intros ->. split; [by apply Hc|].
  intros H1 H2. destruct H as [_ H]. destruct (H H1 H2) as [tm H'].
  apply (progress_after p uuid payload sys0 Hok _ _ _ _ H'); [by right|done].
Qed.

Definition demo_sys : file_system :=
  mkFileSystem [mkInode "old" true] {[ ["srv"; "a.jpg"] := [Some 0%nat] ]} {[ []; ["srv"] ]}.

Lemma demo_sys_ok : sys_ok demo_sys.
Proof.
  intros p i. unfold entries. cbn [demo_sys sys_names sys_inodes length].
  destruct (decide (p = ["srv"; "a.jpg"])) as [->|Hne].
  - rewrite lookup_singleton_eq. cbn. intros [= ->]%list_elem_of_singleton. lia.
  - rewrite lookup_singleton_ne by done. cbn. intros []%not_elem_of_nil.
Qed.

Lemma durable_write_atomic_witness :
  exists states sys, durable_write_bytes no_faults "u" ["srv"; "a.jpg"] "new" demo_sys = (states, sys, Ok tt) /\
    length states = 10%nat /\ content sys ["srv"; "a.jpg"] = Some "new".
Proof.
  destruct (durable_write_bytes no_faults "u" ["srv"; "a.jpg"] "new" demo_sys) as [[states sys] r] eqn:E.
  assert (r = Ok tt) as -> by (change r with (states, sys, r).2; rewrite <- E; vm_compute; reflexivity).
  assert (length states = 10%nat) as Hl
    by (change states with (states, sys, Ok (E := os_exception) tt).1.1; rewrite <- E; vm_compute; reflexivity).
  destruct (durable_write_atomic _ _ _ _ _ _ _ _ E demo_sys_ok) as [_ H]; [vm_compute; reflexivity|].
  exists states, sys. split; [exact eq_refl|]. split; [exact Hl|]. destruct (H eq_refl) as [Hc _]. exact Hc.
Defined.

(** ** The archive stays sound *)

Section Sound.
Context `{Hashing} (cwd : path).

(** A row that says the file is durable has a file of its size and digest. *)
Definition row_sound (sys : file_system) (r : Frame) : Prop :=
  fr_archive_state r = ARCHIVE_DURABLE ->
  exists p d, fr_file_path r = Some p /\ content sys (resolve cwd p) = Some d /\
    (forall n, fr_file_size r = Some n -> n = Z.of_nat (String.length d)) /\
    (forall x, fr_content_digest r = Some x -> x = sha256_bytes d).

Definition archive_sound (sys : file_system) (db : database) : Prop :=
  forall r, r ∈ db_frames db -> row_sound sys r.

(** A durable row whose file has the name chosen for the image, and other
    bytes. *)
Definition reused (sys : file_system) (db : database) (save_path : option string) (image : string) (r : Frame) : Prop :=
  r ∈ db_frames db /\ fr_archive_state r = ARCHIVE_DURABLE /\
  exists p q d, save_path = Some p /\ fr_file_path r = Some q /\ resolve cwd q = resolve cwd p /\
    content sys (resolve cwd p) = Some d /\ d <> image.

(** Sound but for the rows of [lost]. *)
Definition sound_but (lost : Frame -> Prop) (sys : file_system) (r : Frame) : Prop := row_sound sys r \/ lost r.

Definition archive_sound_but (lost : Frame -> Prop) (sys : file_system) (db : database) : Prop :=
  forall r, r ∈ db_frames db -> sound_but lost sys r.

Lemma archive_file_sound f uuid sys image save_path initial_error sys' durable errors :
  archive_file cwd (durable_write_bytes f uuid) sys image save_path initial_error = (sys', durable, errors) ->
  sys_ok sys -> (forall p, save_path = Some p -> entries sys (temporary_of (resolve cwd p) uuid) = []) ->
  (forall db, archive_sound sys db -> archive_sound_but (reused sys db save_path image) sys' db) /\
  (durable = true -> exists p, save_path = Some p /\ content sys' (resolve cwd p) = Some image).
Proof.
  unfold archive_file. intros E Hok Hf.
  assert ((sys, false, match initial_error with Some e => if truthy e then [e] else [] | None => [] end) = (sys', durable, errors) ->
    (forall db, archive_sound sys db -> archive_sound_but (reused sys db save_path image) sys' db) /\
    (durable = true -> exists p, save_path = Some p /\ content sys' (resolve cwd p) = Some image)) as Hskip
    by (intros [= <- <- _]; split; [intros db Hs r Hr; left; by apply Hs|done]).
  destruct save_path as [p|]; [|by apply Hskip].
  destruct (match initial_error with Some e => _ | None => _ end) as [|e0 es]; [|by apply Hskip]. clear Hskip.
  destruct (durable_write_bytes f uuid (resolve cwd p) image sys) as [[states sys1] r] eqn:Ew.
  destruct (durable_write_end _ _ _ _ _ _ _ _ Ew Hok (Hf p eq_refl)) as [(Ht & _ & Ho) Hc].
  assert (sys1 = sys' /\ (durable = true -> r = Ok tt)) as [-> Hd]
    by (destruct r as [[]|e]; injection E as <- <- _; done).
  split; [|intros Hdur; exists p; split; [done|]; by apply Hc, Hd].
  intros db Hs row Hr. destruct (decide (fr_archive_state row = ARCHIVE_DURABLE)) as [Hdur|Hnd]; [|by left; intros ?].
  destruct (Hs row Hr Hdur) as (q & d & Hq & Hqd & Hsz & Hdg).
  destruct (decide (resolve cwd q = resolve cwd p /\ d <> image)) as [[Eq Hdi]|Hsame].
  { right. split; [done|]. split; [done|]. exists p, q, d. split_and!; try done. by rewrite <- Eq. }
  left. intros _. exists q, d. split; [done|]. split; [|done].
  destruct (decide (resolve cwd q = resolve cwd p)) as [Eq|Hne].
  - destruct (decide (d = image)) as [->|Hdi]; [|by destruct Hsame]. rewrite Eq in *. destruct Ht as [->|Ht]; done.
  - destruct (decide (resolve cwd q = temporary_of (resolve cwd p) uuid)) as [Eq|Hnt].
    + unfold content, inode_of in Hqd. rewrite Eq, (Hf p eq_refl) in Hqd. done.
    + destruct (Ho _ Hne Hnt) as [-> _]. done.
Qed.

Lemma row_by_id db r r' : frames_ok db -> r ∈ db_frames db -> r' ∈ db_frames db -> fr_id r = fr_id r' -> r = r'.
Proof.
  intros Hok [i Hi]%list_elem_of_lookup [j Hj]%list_elem_of_lookup E.
  pose proof (fo_ids _ Hok _ _ Hi). pose proof (fo_ids _ Hok _ _ Hj). assert (i = j) as -> by lia. congruence.
Qed.

(** The row the call asks for, when its digest is that of the bytes. *)
Lemma archive_row_sound sys new durable image save_path errors row :
  (durable = true -> exists p, save_path = Some p /\ content sys (resolve cwd p) = Some image) ->
  (forall x, fr_content_digest row = Some x -> x = sha256_bytes image) ->
  fr_file_path row = fr_file_path (archive_row new durable image save_path errors) ->
  fr_archive_state row = fr_archive_state (archive_row new durable image save_path errors) ->
  fr_file_size row = fr_file_size (archive_row new durable image save_path errors) ->
  row_sound sys row.
Proof.
  intros Hd Hx Hp Hs Hz Hdur. rewrite Hs in Hdur. cbn in Hp, Hdur, Hz. destruct durable; [|done].
  destruct (Hd eq_refl) as (p & -> & Hc). exists p, image. split; [done|]. split; [done|]. split; [|done].
  intros n Hn. rewrite Hz in Hn. by injection Hn as <-.
Qed.

(** A frame that is already known keeps the archive sound, its row included. *)
Lemma accept_existing_sound lost sys read now existing new db' frame :
  frames_ok now -> frames_later (db_frames read) (db_frames now) -> existing ∈ db_frames read ->
  fr_source_frame_uid existing <> None -> fr_content_digest new <> None ->
  archive_sound_but lost sys now -> sound_but lost sys existing ->
  (forall row, fr_content_digest row = None \/ fr_content_digest row = fr_content_digest new ->
     sound_but lost sys (recover new row)) ->
  accept_existing now existing new = (db', Ok frame) ->
  archive_sound_but lost sys db' /\ sound_but lost sys frame.
Proof.
  intros Hok Hl Hin Hu Hn Hs He Hrec Ha. unfold accept_existing in Ha.
  destruct (_ ≫= _) as [[]|e] eqn:Ev; [|done].
  apply result_bind_Ok in Ev as ([] & Hd%raise_unless_Ok & _).
  assert (fr_content_digest existing = None \/ fr_content_digest existing = fr_content_digest new) as Hdig.
  { rewrite !negb_true_iff, !andb_false_iff, !negb_false_iff, !bool_decide_eq_true in Hd.
    destruct (decide (fr_content_digest existing = None)); naive_solver. }
  clear Hd. unfold _apply_archive_recovery in Ha. destruct (_ && _); injection Ha as <- <-; [|done].
  split; [|by apply Hrec]. intros r (x & <- & Hx)%list_elem_of_In%in_map_iff. apply list_elem_of_In in Hx.
  case_bool_decide as Eid; [|by apply Hs].
  destruct (later_row _ _ _ Hl Hin) as (x' & Hx' & Ex). destruct (evolves_fields _ _ Ex) as (I1 & _ & _ & _ & I2 & _).
  rewrite (row_by_id now x x') by (done || congruence). apply Hrec. by rewrite I2.
Qed.

Lemma create_frame_sound lost sys read now new image save_path durable errors db' r :
  create_frame read now (archive_row new durable image save_path errors) = (db', r) ->
  frames_ok read -> frames_ok now -> frames_later (db_frames read) (db_frames now) ->
  has_natural_identity (fr_source_session_id new) (fr_camera_stream_id new) (fr_frame_sequence new) = true ->
  fr_content_digest new = Some (sha256_bytes image) ->
  (durable = true -> exists p, save_path = Some p /\ content sys (resolve cwd p) = Some image) ->
  archive_sound_but lost sys read -> archive_sound_but lost sys now ->
  archive_sound_but lost sys db' /\ (forall frame, r = Ok frame -> sound_but lost sys frame).
Proof.
  intros Hc Hr Hn Hl Hnat Hdig Hdur Hsr Hsn.
  set (asked := archive_row new durable image save_path errors) in *.
  assert (forall row, fr_content_digest row = None \/ fr_content_digest row = fr_content_digest asked ->
    sound_but lost sys (recover asked row)) as Hrec.
  { intros row Hrow. left. apply (archive_row_sound sys new durable image save_path errors); [exact Hdur| |done..].
    intros x Hx. cbn in Hx, Hrow. rewrite Hdig in Hrow. destruct Hrow; congruence. }
  unfold create_frame in Hc. destruct (resolve_frame_identity _ _ _ _) as [[uid mode]|e] eqn:Er.
  2:{ injection Hc as <- <-. done. }
  assert (is_Some uid) as [u ->].
  { destruct (resolve_cases _ _ _ _ _ _ Er) as [(_ & Hu & _)|(Hf & _)]; [done|].
    cbn in Hf. rewrite Hnat in Hf. done. }
  assert (forall db existing, archive_sound_but lost sys db -> frames_later (db_frames db) (db_frames now) ->
    _find_existing_frame db (Some u) (fr_device_id asked) (fr_timestamp asked) mode = Some existing ->
    accept_existing now existing asked = (db', r) ->
    archive_sound_but lost sys db' /\ (forall frame, r = Ok frame -> sound_but lost sys frame)) as Hacc.
  { intros db existing Hs Hlater [Hin Hsame]%find_same_Some Ha. cbn in Hsame. apply bool_decide_eq_true in Hsame.
    destruct r as [frame|e].
    - destruct (accept_existing_sound lost sys db now existing asked db' frame) as [H1 H2]; try done.
      + by rewrite Hsame.
      + cbn. by rewrite Hdig.
      + by apply Hs.
      + split; [done|]. by intros ? [= <-].
    - destruct (accept_existing_cases _ _ _ _ _ Ha) as [(e' & _ & ->)|(? & ? & _)]; done. }
  destruct (_find_existing_frame read _ _ _ _) as [existing|] eqn:Ef.
  { by apply (Hacc read existing). }
  destruct (insert_frame _ now) as [db1|] eqn:Ei.
  - injection Hc as <- <-. apply insert_frame_Some in Ei as (_ & _ & _ & ->).
    assert (forall id, sound_but lost sys (asked <| fr_source_frame_uid := Some u |> <| fr_identity_mode := mode |> <| fr_id := id |>)) as Hrow.
    { intros id. left. apply (archive_row_sound sys new durable image save_path errors); [exact Hdur| |done..].
      intros x Hx. cbn in Hx. rewrite Hdig in Hx. by injection Hx. }
    split; [|intros frame [= <-]; apply Hrow]. intros row [Hin|Hin%list_elem_of_singleton]%elem_of_app; [by apply Hsn|].
    rewrite Hin. apply Hrow.
  - destruct (_find_existing_frame now _ _ _ _) as [existing|] eqn:Ef2; [|by injection Hc as <- <-].
    apply (Hacc now existing); try done. apply frames_later_refl.
Qed.

(** C14: on consistent tables, archiving a frame that has a natural identity
    and the digest of its bytes, with a fresh name for the temporary file,
    keeps every row sound —
    one that says its file is durable has a file of its size and SHA-256 —
    whatever fails on the way, but for the durable rows whose file already
    had the chosen name with other bytes: these bytes may be replaced,
    [reused_frame_overwrites_durable_file]. The call never raises: it answers
    DURABLE only with a row that is sound, or one of these, and with that
    row's path, and without a path otherwise. *)
Theorem archive_stays_sound f uuid db_error integrity_text sys read now new image save_path initial_error sys' db' o :
  persist_frame_archive cwd (durable_write_bytes f uuid) db_error integrity_text sys read now new image
    save_path initial_error = (sys', db', o) ->
  sys_ok sys -> (forall p, save_path = Some p -> entries sys (temporary_of (resolve cwd p) uuid) = []) ->
  frames_ok read -> frames_ok now -> frames_later (db_frames read) (db_frames now) ->
  has_natural_identity (fr_source_session_id new) (fr_camera_stream_id new) (fr_frame_sequence new) = true ->
  fr_content_digest new = Some (sha256_bytes image) ->
  archive_sound sys read -> archive_sound sys now ->
  let lost r := reused sys read save_path image r \/ reused sys now save_path image r in
  archive_sound_but lost sys' db' /\
  (oc_state o = ARCHIVE_DURABLE ->
   exists frame, oc_frame o = Some frame /\ sound_but lost sys' frame /\ oc_file_path o = fr_file_path frame /\
     is_Some (oc_file_path o)) /\
  (oc_state o <> ARCHIVE_DURABLE -> oc_file_path o = None).
Proof.
  intros Ep Hok Hf Hr Hn Hl Hnat Hdig Hsr Hsn lost. unfold persist_frame_archive in Ep.
  destruct (archive_file _ _ _ _ _ _) as [[sys1 durable] errors] eqn:Ea.
  destruct (archive_file_sound _ _ _ _ _ _ _ _ _ Ea Hok Hf) as [Hkeep Hdur].
  assert (archive_sound_but lost sys1 read) as Hsr1
    by (intros row Hrow; destruct (Hkeep read Hsr row Hrow); [by left|by right; left]).
  assert (archive_sound_but lost sys1 now) as Hsn1
    by (intros row Hrow; destruct (Hkeep now Hsn row Hrow); [by left|by right; right]).
  destruct db_error as [text|]; [by injection Ep as <- <- <-|].
  destruct (create_frame read now _) as [db1 r] eqn:Ec.
  destruct (create_frame_sound lost _ _ _ _ _ _ _ _ _ _ Ec Hr Hn Hl Hnat Hdig Hdur Hsr1 Hsn1) as [Hs Hframe].
  destruct r as [frame|e]; injection Ep as <- <- <-; [|done].
  split; [done|]. unfold outcome_of. cbn. split; intros Hst.
  - rewrite bool_decide_eq_true_2 by done. exists frame. split; [done|]. split; [by apply Hframe|]. split; [done|].
    destruct (Hframe frame eq_refl) as [Hrow|[(_ & _ & p & q & d & _ & Hq & _)|(_ & _ & p & q & d & _ & Hq & _)]]; [|by eexists..].
    destruct (Hrow Hst) as (p & d & Hp & _). by eexists.
  - by rewrite bool_decide_eq_false_2.
Qed.
End Sound.

(** ** Witnesses, and the names that are not free *)

Definition demo_new_sys : file_system := mkFileSystem [] ∅ {[ [] ]}.

Definition demo_archive_frame (timestamp : Z) (session : option string) (image : string) : Frame :=
  (demo_frame session (Some "cam") (Some 5) timestamp)
    <| fr_content_digest := Some (sha256_bytes (H := transparent_hashing) image) |>.

Definition demo_persist (sys : file_system) (db : database) (session : option string) (uuid image : string) :=
  persist_frame_archive (H := transparent_hashing) [] (durable_write_bytes no_faults uuid) None "IntegrityError"
    sys db db (demo_archive_frame 100 session image) image (Some "/srv/a.jpg") None.

Lemma demo_new_sys_ok : sys_ok demo_new_sys.
Proof. intros p i. unfold entries. cbn. rewrite lookup_empty. intros []%not_elem_of_nil. Qed.

Lemma archive_stays_sound_witness :
  exists sys db o, demo_persist demo_new_sys empty_database (Some "s") "u" "pixels" = (sys, db, o) /\
    oc_state o = ARCHIVE_DURABLE /\
    (forall r, r ∈ db_frames db -> sound_but (H := transparent_hashing) [] (fun _ => False) sys r) /\
    length (db_frames db) = 1%nat.
Proof.
  destruct (demo_persist demo_new_sys empty_database (Some "s") "u" "pixels") as [[sys db] o] eqn:E.
  exists sys, db, o. split; [exact eq_refl|].
  destruct (archive_stays_sound (H := transparent_hashing) _ _ _ _ _ _ _ _ _ _ _ _ _ _ _ E demo_new_sys_ok) as (H1 & _).
  - intros p _. unfold entries. cbn. by rewrite lookup_empty.
  - apply empty_frames_ok.
  - apply empty_frames_ok.
  - apply frames_later_refl.
  - vm_compute. reflexivity.
  - reflexivity.
  - intros r Hr. by apply not_elem_of_nil in Hr.
  - intros r Hr. by apply not_elem_of_nil in Hr.
  - split; [|split; [|]].
    + change o with (sys, db, o).2. rewrite <- E. vm_compute. reflexivity.
    + intros r Hr. destruct (H1 r Hr) as [Hs|[(Hin & _)|(Hin & _)]]; [left; exact Hs|..]; by apply not_elem_of_nil in Hin.
    + change db with (sys, db, o).1.2. rewrite <- E. vm_compute. reflexivity.
Defined.

(** The file is written before the row is looked up: the same source frame
    with other bytes under the same name is refused as an integrity error,
    but its bytes have replaced those of the durable row. *)
Lemma reused_frame_overwrites_durable_file :
  exists sys1 db1 o1 sys2 db2 o2,
    demo_persist demo_new_sys empty_database (Some "s") "u" "pixels" = (sys1, db1, o1) /\
    oc_state o1 = ARCHIVE_DURABLE /\
    demo_persist sys1 db1 (Some "s") "v" "others" = (sys2, db2, o2) /\
    oc_state o2 = ARCHIVE_DEGRADED_LIVE_ONLY /\ db2 = db1 /\
    content sys2 ["srv"; "a.jpg"] = Some "others" /\
    ~ archive_sound (H := transparent_hashing) [] sys2 db2.
Proof.
  destruct (demo_persist demo_new_sys empty_database (Some "s") "u" "pixels") as [[sys1 db1] o1] eqn:E1.
  destruct (demo_persist sys1 db1 (Some "s") "v" "others") as [[sys2 db2] o2] eqn:E2.
  exists sys1, db1, o1, sys2, db2, o2. split; [exact eq_refl|].
  vm_compute in E1. injection E1 as <- <- <-. vm_compute in E2. injection E2 as <- <- <-.
  split; [reflexivity|]. split; [reflexivity|]. split; [reflexivity|]. split; [reflexivity|]. split; [vm_compute; reflexivity|].
  intros Hs. edestruct Hs as (p & d & Hp & Hc & _ & Hd); [left|reflexivity|].
  injection Hp as <-. vm_compute in Hc. injection Hc as <-. specialize (Hd _ eq_refl). vm_compute in Hd. discriminate.
Qed.

(** Without a natural identity the digest is not even compared: the second
    frame is answered as durable, under the digest of the first. *)
Lemma legacy_frame_overwrites_durable_file :
  exists sys1 db1 o1 sys2 db2 o2,
    demo_persist demo_new_sys empty_database None "u" "pixels" = (sys1, db1, o1) /\
    demo_persist sys1 db1 None "v" "others" = (sys2, db2, o2) /\
    oc_state o2 = ARCHIVE_DURABLE /\ db2 = db1 /\
    ~ archive_sound (H := transparent_hashing) [] sys2 db2.
Proof.
  destruct (demo_persist demo_new_sys empty_database None "u" "pixels") as [[sys1 db1] o1] eqn:E1.
  destruct (demo_persist sys1 db1 None "v" "others") as [[sys2 db2] o2] eqn:E2.
  exists sys1, db1, o1, sys2, db2, o2. split; [exact eq_refl|].
  vm_compute in E1. injection E1 as <- <- <-. vm_compute in E2. injection E2 as <- <- <-.
  split; [reflexivity|]. split; [reflexivity|]. split; [reflexivity|].
  intros Hs. edestruct Hs as (p & d & Hp & Hc & _ & Hd); [left|reflexivity|].
  injection Hp as <-. vm_compute in Hc. injection Hc as <-. specialize (Hd _ eq_refl). vm_compute in Hd. discriminate.
Qed.
