(* ===== verification/Reconciliation.v ===== *)
(** * Reconciliation of the archive

    src/app/services/ingest/reconciliation.py, which startup runs before the
    server takes frames: every row that says its file is durable is checked
    against the file; a row that fails is degraded, with the delivery
    projections of its frame-sets; files that no row refers to are recorded.
    One session does all of it, in one transaction. *)

From S2P Require Import Prelude Digest Identity SyncModels Database FileSystem Archive.

Definition PAYLOAD_SUFFIXES : gset string := {[ ".jpg"; ".jpeg"; ".png"; ".webp"; ".bin" ]}.

Record ArchiveReconciliationReport := mkArchiveReconciliationReport {
  rp_run_id : string;
  rp_checked_frames : Z;
  rp_healthy_frames : Z;
  rp_degraded_frames : Z;
  rp_orphan_files : Z;
  rp_partial_files : Z;
}.

#[export] Instance ArchiveReconciliationReport_eq_dec : EqDecision ArchiveReconciliationReport.
Proof. solve_decision. Defined.

Definition is_file (sys : file_system) (p : path) : bool := negb (bool_decide (content sys p = None)).

Section Reconcile.
Context `{Hashing}.
(** The working directory, the files, and the text of the [OSError] that
    reading a file raises, if it does. *)
Context (cwd : path) (sys : file_system) (read_error : path -> option string).

Definition _sha256_file (data : string) : string := sha256_bytes data.

(** The row as the call leaves it, and the issue. *)
Definition _validate_frame_file (frame : Frame) (root : path) : Frame * option (string * string) :=
  match fr_file_path frame with
  | None | Some "" => (frame, Some ("MISSING_FILE", "durable frame has no file path"))
  | Some file_path =>
      let p := resolve cwd file_path in
      if negb (is_relative_to p root)
      then (frame, Some ("PATH_OUTSIDE_ARCHIVE_ROOT", "path is outside archive root: " +:+ path_text p))
      else match content sys p with
      | None => (frame, Some ("MISSING_FILE", "archive payload is missing: " +:+ path_text p))
      | Some data =>
          match read_error p with
          | Some text => (frame, Some ("FILE_READ_ERROR", "archive payload cannot be read: " +:+ text))
          | None =>
              let size := Z.of_nat (String.length data) in
              let digest := _sha256_file data in
              if negb (bool_decide (fr_file_size frame = None)) && negb (bool_decide (fr_file_size frame = Some size))
              then (frame, Some ("SIZE_MISMATCH",
                     "expected " +:+ pretty (default 0 (fr_file_size frame)) +:+ " bytes but found " +:+
                     pretty size +:+ ": " +:+ path_text p))
              else if negb (bool_decide (fr_content_digest frame = None)) &&
                      negb (bool_decide (fr_content_digest frame = Some digest))
              then (frame, Some ("DIGEST_MISMATCH", "content SHA-256 mismatch: " +:+ path_text p))
              else (frame <| fr_file_size := Some (default size (fr_file_size frame)) |>
                          <| fr_content_digest := Some (default digest (fr_content_digest frame)) |>, None)
          end
      end
  end.

Definition degraded_row (issue_type : string) (r : Frame) : Frame :=
  r <| fr_archive_state := ARCHIVE_DEGRADED_LIVE_ONLY |> <| fr_archive_error := Some issue_type |>.

Definition degraded_projection (issue_type : string) (detected_at_ms : Z) (p : FrameSetDeliveryProjection)
    : FrameSetDeliveryProjection :=
  p <| pj_archive_state := ARCHIVE_DEGRADED_LIVE_ONLY |> <| pj_last_reason := Some issue_type |>
    <| pj_updated_at_ms := detected_at_ms |>.

(** The frame-sets the frame is a member of. *)
Definition frame_set_uids (db : database) (frame_id : Z) : list string :=
  mb_frame_set_uid <$> filter (fun m => mb_frame_id m = Some frame_id) (db_members db).

(** [db.get] does not see a projection that is only pending. *)
Definition _degrade_frame_and_projections (db : database) (frame : Frame) (issue_type : string)
    (detected_at_ms : Z) : list statement :=
  update_frame_row (fr_id frame) (degraded_row issue_type) ::
  flat_map (fun uid =>
      match db_projections db !! uid, db_manifests db !! uid with
      | Some _, _ => [update_projection uid (degraded_projection issue_type detected_at_ms)]
      | None, Some _ =>
          [insert_projection (degraded_projection issue_type detected_at_ms
             (mkFrameSetDeliveryProjection uid ARCHIVE_DURABLE "ELIGIBLE" "NOT_ENQUEUED" None detected_at_ms))]
      | None, None => []
      end) (frame_set_uids db (fr_id frame)).

Definition frame_issue (run_id : string) (frame : Frame) (issue : string * string) (detected_at_ms : Z)
    : ArchiveReconciliationIssue :=
  mkArchiveReconciliationIssue run_id issue.1 (Some (fr_id frame)) (fr_file_path frame) issue.2 detected_at_ms.

(** One turn of the loop over the rows: its writes, and whether the row was
    checked and found healthy. *)
Definition reconcile_frame (db : database) (root : path) (run_id : string) (timestamp_ms : Z) (frame : Frame)
    : list statement * option bool :=
  if negb (bool_decide (fr_archive_state frame = ARCHIVE_DURABLE)) then ([], None)
  else match _validate_frame_file frame root with
  | (healed, None) =>
      ([update_frame_row (fr_id frame)
          (fun r => r <| fr_file_size := fr_file_size healed |> <| fr_content_digest := fr_content_digest healed |>)],
       Some true)
  | (_, Some issue) =>
      (_degrade_frame_and_projections db frame issue.1 timestamp_ms ++
       [insert_issue (frame_issue run_id frame issue timestamp_ms)], Some false)
  end.

Definition _is_partial_path (p : path) : bool := starts_with "." (name p) && ends_with ".tmp" (name p).

(** The paths rows refer to. *)
Definition referenced_paths (frames : list Frame) : list path :=
  omap (fun r => if truthy_opt (fr_file_path r) then resolve cwd <$> fr_file_path r else None) frames.

(** The files below the root, in the order of the directory listing. *)
Definition files_below (root : path) : list path :=
  filter (fun p => is_file sys p = true /\ is_relative_to p root = true /\ p <> root)
    ((map_to_list (sys_names sys)).*1).

Definition archive_files (root : path) : list path :=
  if bool_decide (root ∈ sys_dirs sys) then files_below root else [].

Definition is_orphan (referenced : list path) (p : path) : bool :=
  negb (_is_partial_path p) && bool_decide (lower (suffix p) ∈ PAYLOAD_SUFFIXES) &&
  negb (bool_decide (p ∈ referenced)).

Definition file_issue (run_id : string) (referenced : list path) (timestamp_ms : Z) (p : path)
    : list statement :=
  if _is_partial_path p
  then [insert_issue (mkArchiveReconciliationIssue run_id "PARTIAL_TEMP_FILE" None (Some (path_text p))
          "temporary archive file remained after restart" timestamp_ms)]
  else if is_orphan referenced p
  then [insert_issue (mkArchiveReconciliationIssue run_id "ORPHAN_FILE" None (Some (path_text p))
          "payload file has no frame metadata row" timestamp_ms)]
  else [].

Definition count_if {A} (p : A -> bool) (l : list A) : Z := Z.of_nat (length (filter (fun x => p x = true) l)).

(** [None]: the commit raised [IntegrityError]. *)
Definition reconcile_archive (db : database) (archive_root run_id : string) (detected_at_ms : option Z)
    (clock_ms : Z) : option (database * ArchiveReconciliationReport) :=
  let root := resolve cwd archive_root in
  let timestamp_ms := match detected_at_ms with Some t => if t =? 0 then clock_ms else t | None => clock_ms end in
  let turns := reconcile_frame db root run_id timestamp_ms <$> db_frames db in
  let files := archive_files root in
  let referenced := referenced_paths (db_frames db) in
  db' ← commit (concat turns.*1 ++ flat_map (file_issue run_id referenced timestamp_ms) files) db;
  Some (db', mkArchiveReconciliationReport run_id
    (count_if (fun t => negb (bool_decide (t = None))) turns.*2)
    (count_if (fun t => bool_decide (t = Some true)) turns.*2)
    (count_if (fun t => bool_decide (t = Some false)) turns.*2)
    (count_if (is_orphan referenced) files)
    (count_if _is_partial_path files)).
End Reconcile.

Section ReconcileProofs.
Context `{Hashing} (cwd : path) (sys : file_system) (read_error : path -> option string).

Abbreviation validate := (_validate_frame_file cwd sys read_error).

(** ** The check of one row *)

(** The file under the archive root has the row's size and digest. *)
Definition file_matches (root : path) (r : Frame) (p : string) (d : string) : Prop :=
  fr_file_path r = Some p /\ p <> "" /\ is_relative_to (resolve cwd p) root = true /\
  content sys (resolve cwd p) = Some d /\ read_error (resolve cwd p) = None /\
  fr_file_size r = Some (Z.of_nat (String.length d)) /\ fr_content_digest r = Some (sha256_bytes d).

Definition heal (h r : Frame) : Frame :=
  r <| fr_file_size := fr_file_size h |> <| fr_content_digest := fr_content_digest h |>.

Lemma validate_healthy root r h : validate r root = (h, None) ->
  h = heal h r /\ exists p d, file_matches root h p d.
Proof.
  unfold _validate_frame_file, file_matches. destruct (fr_file_path r) as [[|c s]|] eqn:Ep; [done| |done].
  set (p := String c s) in *. destruct (is_relative_to _ _) eqn:Er; cbn [negb]; [|done].
  destruct (content sys (resolve cwd p)) as [d|] eqn:Ec; [|done].
  destruct (read_error (resolve cwd p)) eqn:Ee; [done|].
  destruct (negb _ && negb _) eqn:Es; [done|].
  destruct (negb (bool_decide (fr_content_digest r = None)) && _) eqn:Ed; [done|].
  intros [= <-]. split; [by destruct r|]. exists p, d.
  rewrite andb_false_iff, !negb_false_iff, !bool_decide_eq_true in Es, Ed.
  split_and!; try done; cbn.
  - destruct Es as [->| ->]; done.
  - destruct Ed as [->| ->]; done.
Qed.

Lemma file_matches_validate root r p d : file_matches root r p d -> validate r root = (r, None).
Proof.
  intros (Hp & Hne & Hr & Hc & He & Hs & Hd). unfold _validate_frame_file, _sha256_file.
  rewrite Hp. destruct p as [|c s]; [done|]. rewrite Hr, Hc, He, Hs, Hd. cbn -[bool_decide].
  rewrite (bool_decide_eq_true_2 (Some (Z.of_nat (String.length d)) = Some _)), (bool_decide_eq_true_2 (Some (sha256_bytes d) = Some _)) by done.
  rewrite !andb_false_r. by destruct r; cbn in *; subst.
Qed.

(** The row the reconciliation leaves. *)
Definition reconciled (root : path) (r : Frame) : Frame :=
  if bool_decide (fr_archive_state r = ARCHIVE_DURABLE)
  then match validate r root with
       | (h, None) => h
       | (_, Some issue) => degraded_row issue.1 r
       end
  else r.

Definition broken (root : path) (r : Frame) : bool :=
  bool_decide (fr_archive_state r = ARCHIVE_DURABLE) && negb (bool_decide ((validate r root).2 = None)).

Lemma reconciled_matches root r : fr_archive_state (reconciled root r) = ARCHIVE_DURABLE ->
  exists p d, file_matches root (reconciled root r) p d.
Proof.
  unfold reconciled. case_bool_decide as Hd; [|done].
  destruct (validate r root) as [h [issue|]] eqn:Ev; [done|]. intros _. by apply validate_healthy in Ev as [_ ?].
Qed.

Lemma reconciled_id root r : fr_id (reconciled root r) = fr_id r.
Proof.
  unfold reconciled. case_bool_decide; [|done].
  destruct (validate r root) as [h [issue|]] eqn:Ev; [done|]. apply validate_healthy in Ev as [-> _]. done.
Qed.

Lemma reconciled_path root r : fr_file_path (reconciled root r) = fr_file_path r.
Proof.
  unfold reconciled. case_bool_decide; [|done].
  destruct (validate r root) as [h [issue|]] eqn:Ev; [done|]. apply validate_healthy in Ev as [-> _]. done.
Qed.

(** A reconciled row is a fixed point, and healthy. *)
Lemma reconciled_again root r :
  reconciled root (reconciled root r) = reconciled root r /\ broken root (reconciled root r) = false.
Proof.
  destruct (decide (fr_archive_state (reconciled root r) = ARCHIVE_DURABLE)) as [Hd|Hn].
  - destruct (reconciled_matches root r Hd) as (p & d & Hm). apply file_matches_validate in Hm.
    unfold reconciled at 1, broken. rewrite bool_decide_eq_true_2, Hm by done. done.
  - unfold reconciled at 1, broken. rewrite bool_decide_eq_false_2 by done. done.
Qed.

(** ** The writes of one turn *)

Section Turns.
Context (db0 : database) (root : path) (run_id : string) (now_ms : Z).

(** Each manifest has its projection, as [persist_frame_set_manifest] leaves them. *)
Definition projections_complete : Prop :=
  forall uid, is_Some (db_manifests db0 !! uid) -> is_Some (db_projections db0 !! uid).

Hypothesis complete : projections_complete.

Definition same_keys (db : database) : Prop :=
  forall uid, db_projections db0 !! uid = None -> db_projections db !! uid = None.

Lemma alter_all_None {A} (f : A -> A) ks t k : t !! k = None -> alter_all f ks t !! k = None.
Proof.
  unfold alter_all. revert t. induction ks as [|j ks IH]; intros t Ht; cbn; [done|]. apply IH.
  destruct (decide (j = k)) as [->|]; [by rewrite lookup_alter_eq, Ht|by rewrite lookup_alter_ne].
Qed.

Lemma commit_projections issue uids db : same_keys db ->
  commit (flat_map (fun uid =>
      match db_projections db0 !! uid, db_manifests db0 !! uid with
      | Some _, _ => [update_projection uid (degraded_projection issue now_ms)]
      | None, Some _ =>
          [insert_projection (degraded_projection issue now_ms
             (mkFrameSetDeliveryProjection uid ARCHIVE_DURABLE "ELIGIBLE" "NOT_ENQUEUED" None now_ms))]
      | None, None => []
      end) uids) db
  = Some (db <| db_projections ::= alter_all (degraded_projection issue now_ms) uids |>).
Proof.
  revert db. induction uids as [|uid uids IH]; intros db Hk; [by destruct db|]. cbn [flat_map].
  assert (db_projections db0 !! uid = None -> alter (degraded_projection issue now_ms) uid (db_projections db) = db_projections db) as Hnoop.
  { intros Hn%Hk. apply map_eq. intros k. destruct (decide (uid = k)) as [->|];
      [by rewrite lookup_alter_eq, Hn|by rewrite lookup_alter_ne]. }
  destruct (db_projections db0 !! uid) as [pj|] eqn:Ep.
  - cbn [app]. rewrite commit_cons. cbn. rewrite IH; [by destruct db|].
    intros k Hn. cbn. apply (alter_all_None _ [uid]). by apply Hk.
  - destruct (db_manifests db0 !! uid) eqn:Em.
    { destruct (complete uid) as [x Hx]; [by eexists|]. congruence. }
    cbn [app]. rewrite IH by done. unfold alter_all. cbn [foldl].
    destruct db as [a b c d e t g i]. cbn in *. by rewrite Hnoop.
Qed.

(** The frames of a set whose file is broken. *)
Definition broken_uids (r : Frame) : list string :=
  if broken root r then frame_set_uids db0 (fr_id r) else [].

Definition turn_issue (r : Frame) : list ArchiveReconciliationIssue :=
  if bool_decide (fr_archive_state r = ARCHIVE_DURABLE)
  then match validate r root with
       | (_, Some issue) => [frame_issue run_id r issue now_ms]
       | _ => []
       end
  else [].

Definition turn_reason (r : Frame) : string :=
  match validate r root with (_, Some issue) => issue.1 | _ => "" end.

Definition turn_projections (r : Frame) (t : gmap string FrameSetDeliveryProjection) :=
  alter_all (degraded_projection (turn_reason r) now_ms) (broken_uids r) t.

Definition turn_rows (r : Frame) (l : list Frame) : list Frame :=
  map (fun x => if bool_decide (fr_id x = fr_id r /\ x = r) then reconciled root r else x) l.

Lemma commit_turn r db : same_keys db ->
  (forall x, x ∈ db_frames db -> fr_id x = fr_id r -> x = r) ->
  commit (reconcile_frame cwd sys read_error db0 root run_id now_ms r).1 db =
  Some (db <| db_frames ::= turn_rows r |> <| db_projections ::= turn_projections r |>
           <| db_issues ::= fun l => l ++ turn_issue r |>).
Proof.
  intros Hk Hu. unfold reconcile_frame, turn_projections, turn_issue, turn_reason, broken_uids, broken, turn_rows, reconciled.
  assert (forall f : Frame -> Frame, map (fun x => if bool_decide (fr_id x = fr_id r) then f x else x) (db_frames db) =
    map (fun x => if bool_decide (fr_id x = fr_id r /\ x = r) then f r else x) (db_frames db)) as Hm.
  { intros f. apply map_ext_in. intros x Hx%list_elem_of_In. specialize (Hu x Hx).
    destruct (decide (fr_id x = fr_id r)) as [E|E].
    - rewrite (Hu E). by rewrite !bool_decide_eq_true_2.
    - rewrite !bool_decide_eq_false_2 by naive_solver. done. }
  case_bool_decide as Hd; cbn [negb andb].
  2:{ rewrite commit_nil. cbn. f_equal. unfold alter_all. cbn.
      rewrite app_nil_r, <- (Hm (fun x => x)).
      rewrite (map_ext _ (fun x => x)), map_id by (intros x; by destruct (bool_decide _)). by destruct db. }
  destruct (validate r root) as [h [issue|]] eqn:Ev; cbn [fst snd negb].
  - rewrite bool_decide_eq_false_2 by done. cbn [negb].
    unfold _degrade_frame_and_projections. rewrite commit_app, commit_cons. unfold update_frame_row at 1.
    cbn [mbind option_bind]. rewrite commit_projections by done. cbn [mbind option_bind].
    rewrite commit_one. unfold insert_issue. f_equal. destruct db. cbn in *. f_equal. apply (Hm (degraded_row issue.1)).
  - rewrite bool_decide_eq_true_2 by done. cbn [negb]. rewrite commit_one. unfold update_frame_row.
    f_equal. destruct db. cbn in *. unfold alter_all. cbn. rewrite app_nil_r. f_equal.
    apply validate_healthy in Ev as [Eh _]. etransitivity; [apply (Hm (heal h))|]. by rewrite <- Eh.
Qed.

(** ** All the turns *)

Lemma turn_rows_next before r after :
  NoDup (fr_id <$> (before ++ r :: after)) ->
  turn_rows r ((reconciled root <$> before) ++ r :: after) = (reconciled root <$> (before ++ [r])) ++ after.
Proof.
  rewrite fmap_app, fmap_cons, NoDup_app, NoDup_cons. intros (_ & Hb & Hr & _).
  unfold turn_rows. rewrite map_app, fmap_app, <- app_assoc. cbn [map app fmap list_fmap].
  rewrite (bool_decide_eq_true_2 (fr_id r = fr_id r /\ r = r)) by done.
  f_equal; [|f_equal].
  - apply list_eq_Forall2, Forall2_same_length_lookup_2; [by rewrite length_map|].
    intros i x y Hx Hy. rewrite list_lookup_fmap in Hx. change (map ?f ?l) with (f <$> l) in Hx.
    rewrite Hy in Hx. cbn in Hx. injection Hx as <-.
    rewrite bool_decide_eq_false_2; [done|]. intros [E _].
    apply list_lookup_fmap_Some in Hy as (z & -> & Hz). rewrite reconciled_id in E.
    apply (Hb (fr_id z)); [apply list_elem_of_fmap_2; by eapply list_elem_of_lookup_2|rewrite E; left].
  - rewrite <- (map_id after) at 2. apply map_ext_in. intros x Hx%list_elem_of_In.
    rewrite bool_decide_eq_false_2; [done|]. intros [E _]. apply Hr. rewrite <- E. by apply list_elem_of_fmap_2.
Qed.

Definition turns_projections (l : list Frame) (t : gmap string FrameSetDeliveryProjection) :=
  foldl (fun t r => turn_projections r t) t l.

Lemma commit_turns before after db :
  NoDup (fr_id <$> (before ++ after)) -> same_keys db ->
  db_frames db = (reconciled root <$> before) ++ after ->
  commit (concat (reconcile_frame cwd sys read_error db0 root run_id now_ms <$> after).*1) db =
  Some (db <| db_frames := reconciled root <$> (before ++ after) |>
           <| db_projections ::= turns_projections after |>
           <| db_issues ::= fun l => l ++ concat (turn_issue <$> after) |>).
Proof.
  revert before db. induction after as [|r after IH]; intros before db Hnd Hk Hdb.
  { rewrite app_nil_r in *. rewrite commit_nil. cbn. rewrite <- Hdb, app_nil_r. by destruct db. }
  cbn [fmap list_fmap concat]. rewrite commit_app, commit_turn; [|done|].
  2:{ intros x Hx E. rewrite Hdb in Hx. rewrite fmap_app, fmap_cons, NoDup_app, NoDup_cons in Hnd.
      destruct Hnd as (_ & Hb & Hr & _).
      apply elem_of_app in Hx as [(y & -> & Hy)%list_elem_of_fmap|[->|Hx]%elem_of_cons]; [|done|].
      - rewrite reconciled_id in E. exfalso.
        apply (Hb (fr_id y)); [by apply list_elem_of_fmap_2|rewrite E; left].
      - exfalso. apply Hr. rewrite <- E. by apply list_elem_of_fmap_2. }
  cbn [mbind option_bind]. replace (before ++ r :: after) with ((before ++ [r]) ++ after) in * by by rewrite <- app_assoc.
  rewrite (IH (before ++ [r])); [|done| |].
  - f_equal. destruct db. cbn in *. f_equal. symmetry. apply app_assoc.
  - intros k Hn. cbn. apply alter_all_None. by apply Hk.
  - cbn. rewrite Hdb. rewrite <- turn_rows_next; [done|]. by rewrite <- app_assoc in Hnd.
Qed.

(** A projection is degraded when a frame of its set is broken, and
    otherwise it is as it was. *)
Lemma turns_projections_lookup l t uid pj : t !! uid = Some pj ->
  exists pj', turns_projections l t !! uid = Some pj' /\
  ((exists r, r ∈ l /\ uid ∈ broken_uids r) /\ pj_archive_state pj' = ARCHIVE_DEGRADED_LIVE_ONLY \/
   (forall r, r ∈ l -> uid ∉ broken_uids r) /\ pj' = pj).
Proof.
  revert t pj. induction l as [|r l IH]; intros t pj Ht.
  { exists pj. split; [done|]. right. split; [|done]. intros r []%not_elem_of_nil. }
  cbn [turns_projections foldl]. unfold turn_projections at 2.
  set (t1 := alter_all _ _ t).
  assert (t1 !! uid = if bool_decide (uid ∈ broken_uids r)
    then Some (degraded_projection (turn_reason r) now_ms pj) else Some pj) as Ht1.
  { unfold t1. rewrite alter_all_lookup by done. rewrite Ht. done. }
  case_bool_decide as Hin.
  - destruct (IH _ _ Ht1) as (pj' & Hl & Hc). exists pj'. split; [done|]. left. split; [exists r; split; [left|done]|].
    destruct Hc as [[_ ?]|[_ ->]]; done.
  - destruct (IH _ _ Ht1) as (pj' & Hl & [[(r' & Hr' & Hu) Hs]|[Hn ->]]).
    + exists pj'. split; [done|]. left. split; [exists r'; split; [by right|done]|done].
    + exists pj. split; [done|]. right. split; [|done]. intros r' [->|Hr']%elem_of_cons; [done|by apply Hn].
Qed.

Lemma turns_projections_None l t uid : t !! uid = None -> turns_projections l t !! uid = None.
Proof.
  revert t. induction l as [|r l IH]; intros t Ht; [done|]. cbn. apply IH. by apply alter_all_None.
Qed.

(** ** The files without a row *)

Definition file_issue_rows (referenced : list path) (p : path) : list ArchiveReconciliationIssue :=
  if _is_partial_path p
  then [mkArchiveReconciliationIssue run_id "PARTIAL_TEMP_FILE" None (Some (path_text p))
          "temporary archive file remained after restart" now_ms]
  else if is_orphan referenced p
  then [mkArchiveReconciliationIssue run_id "ORPHAN_FILE" None (Some (path_text p))
          "payload file has no frame metadata row" now_ms]
  else [].

Definition file_issues (referenced : list path) (files : list path) : list ArchiveReconciliationIssue :=
  flat_map (file_issue_rows referenced) files.

Lemma commit_file referenced p db :
  commit (file_issue run_id referenced now_ms p) db =
  Some (db <| db_issues ::= fun l => l ++ file_issue_rows referenced p |>).
Proof.
  unfold file_issue, file_issue_rows. destruct (_is_partial_path p); [by rewrite commit_one|].
  destruct (is_orphan referenced p); [by rewrite commit_one|].
  rewrite commit_nil. cbn. rewrite app_nil_r. by destruct db.
Qed.

Lemma commit_files referenced files db :
  commit (flat_map (file_issue run_id referenced now_ms) files) db =
  Some (db <| db_issues ::= fun l => l ++ file_issues referenced files |>).
Proof.
  revert db. induction files as [|p files IH]; intros db.
  { rewrite commit_nil. cbn. rewrite app_nil_r. by destruct db. }
  cbn [flat_map]. rewrite commit_app, commit_file. cbn [mbind option_bind]. rewrite IH.
  f_equal. destruct db. cbn. by rewrite <- app_assoc.
Qed.

Lemma count_if_cons {A} (q : A -> bool) x l : count_if q (x :: l) = (if q x then 1 else 0) + count_if q l.
Proof.
  unfold count_if. rewrite filter_cons. destruct (q x); [rewrite decide_True by done|by rewrite decide_False].
  cbn [length]. lia.
Qed.

Lemma file_issues_length referenced files :
  Z.of_nat (length (file_issues referenced files)) =
  count_if (is_orphan referenced) files + count_if _is_partial_path files.
Proof.
  induction files as [|p files IH]; [done|]. unfold file_issues in *. cbn [flat_map].
  rewrite !count_if_cons, length_app, Nat2Z.inj_add, IH. unfold file_issue_rows.
  destruct (_is_partial_path p) eqn:Ep.
  - assert (is_orphan referenced p = false) as -> by (unfold is_orphan; by rewrite Ep). cbn [length]. lia.
  - destruct (is_orphan referenced p); cbn [length]; lia.
Qed.

(** ** The report *)

Lemma turn_outcome r :
  (reconcile_frame cwd sys read_error db0 root run_id now_ms r).2 =
  if bool_decide (fr_archive_state r = ARCHIVE_DURABLE) then Some (negb (broken root r)) else None.
Proof.
  unfold reconcile_frame, broken. case_bool_decide; [|done]. cbn.
  by destruct (validate r root) as [h [issue|]].
Qed.

Lemma turn_issue_length r : Z.of_nat (length (turn_issue r)) = if broken root r then 1 else 0.
Proof.
  unfold turn_issue, broken. case_bool_decide; [|done]. by destruct (validate r root) as [h [issue|]].
Qed.

Lemma broken_durable r : broken root r = true -> fr_archive_state r = ARCHIVE_DURABLE.
Proof. unfold broken. by intros [?%bool_decide_eq_true _]%andb_true_iff. Qed.

Lemma report_counts l :
  let turns := (reconcile_frame cwd sys read_error db0 root run_id now_ms <$> l).*2 in
  count_if (fun t => negb (bool_decide (t = None))) turns =
    count_if (fun r => bool_decide (fr_archive_state r = ARCHIVE_DURABLE)) l /\
  count_if (fun t => bool_decide (t = Some true)) turns =
    count_if (fun r => bool_decide (fr_archive_state r = ARCHIVE_DURABLE)) l - count_if (broken root) l /\
  count_if (fun t => bool_decide (t = Some false)) turns = count_if (broken root) l /\
  Z.of_nat (length (concat (turn_issue <$> l))) = count_if (broken root) l.
Proof.
  cbv zeta. induction l as [|r l (IH1 & IH2 & IH3 & IH4)]; [done|].
  rewrite !fmap_cons, !count_if_cons, turn_outcome. cbn [concat].
  rewrite length_app, Nat2Z.inj_add, turn_issue_length, IH1, IH2, IH3, IH4.
  pose proof (broken_durable r) as Hb.
  destruct (decide (fr_archive_state r = ARCHIVE_DURABLE)) as [Hd|Hd].
  - rewrite (bool_decide_eq_true_2 (fr_archive_state r = _)) by done.
    destruct (broken root r); cbn -[Z.add Z.sub]; split_and!; repeat case_bool_decide; try done; lia.
  - rewrite (bool_decide_eq_false_2 (fr_archive_state r = _)) by done.
    destruct (broken root r); [by destruct (Hd (Hb eq_refl))|].
    cbn -[Z.add Z.sub]. split_and!; repeat case_bool_decide; try done; lia.
Qed.
End Turns.
End ReconcileProofs.

Section ReconcileTheorems.
Context `{Hashing} (cwd : path) (sys : file_system) (read_error : path -> option string).

(** What a reconciliation at [root] makes of the database and reports. *)
Lemma reconcile_archive_eq db archive_root run_id detected clock :
  projections_complete db -> NoDup (fr_id <$> db_frames db) ->
  exists now_ms, let root := resolve cwd archive_root in
    reconcile_archive cwd sys read_error db archive_root run_id detected clock =
    Some (db <| db_frames := reconciled cwd sys read_error root <$> db_frames db |>
             <| db_projections := turns_projections cwd sys read_error db root now_ms (db_frames db) (db_projections db) |>
             <| db_issues := db_issues db ++
                  (concat (turn_issue cwd sys read_error root run_id now_ms <$> db_frames db) ++
                   file_issues run_id now_ms (referenced_paths cwd (db_frames db)) (archive_files sys root)) |>,
          mkArchiveReconciliationReport run_id
            (count_if (fun r => bool_decide (fr_archive_state r = ARCHIVE_DURABLE)) (db_frames db))
            (count_if (fun r => bool_decide (fr_archive_state r = ARCHIVE_DURABLE)) (db_frames db) -
             count_if (broken cwd sys read_error root) (db_frames db))
            (count_if (broken cwd sys read_error root) (db_frames db))
            (count_if (is_orphan (referenced_paths cwd (db_frames db))) (archive_files sys root))
            (count_if _is_partial_path (archive_files sys root))).
Proof.
  intros Hc Hn. unfold reconcile_archive.
  set (now_ms := match detected with Some t => _ | None => _ end). exists now_ms. cbv zeta.
  rewrite commit_app.
  rewrite (commit_turns cwd sys read_error db (resolve cwd archive_root) run_id now_ms Hc [] (db_frames db) db Hn (fun uid H => H) eq_refl).
  cbn [mbind option_bind]. rewrite commit_files. cbn [mbind option_bind].
  destruct (report_counts cwd sys read_error db (resolve cwd archive_root) run_id now_ms (db_frames db)) as (-> & -> & -> & _).
  f_equal. f_equal. destruct db. cbn. by rewrite <- app_assoc.
Qed.

Lemma reconciled_ids root (l : list Frame) : fr_id <$> (reconciled cwd sys read_error root <$> l) = fr_id <$> l.
Proof.
  rewrite <- list_fmap_compose. apply list_fmap_ext. intros i r _. cbn. apply reconciled_id.
Qed.

Lemma reconciled_references root (l : list Frame) :
  referenced_paths cwd (reconciled cwd sys read_error root <$> l) = referenced_paths cwd l.
Proof.
  unfold referenced_paths. induction l as [|r l IH]; [done|].
  cbn. rewrite reconciled_path.
  destruct (if truthy_opt (fr_file_path r) then _ else None); [f_equal|]; exact IH.
Qed.

Lemma elem_of_broken_uids db root uid r : uid ∈ broken_uids cwd sys read_error db root r <->
  broken cwd sys read_error root r = true /\
  exists m, m ∈ db_members db /\ mb_frame_set_uid m = uid /\ mb_frame_id m = Some (fr_id r).
Proof.
  unfold broken_uids, frame_set_uids. destruct (broken cwd sys read_error root r); [|split; [intros []%not_elem_of_nil|by intros []]].
  rewrite list_elem_of_fmap. setoid_rewrite list_elem_of_filter. naive_solver.
Qed.

(** C15: on a database whose frames have distinct ids and whose manifests
    have their projections, a reconciliation commits. After it every row
    that says its file is durable has, below the archive root, a readable
    file of the recorded size and SHA-256; no other row changed but by
    losing that claim. A frame-set with a broken frame has a degraded
    projection, every other projection is untouched, and the other tables
    are. The report adds up: the checked frames are the healthy and the
    degraded, and each degraded frame, orphan and partial file has one
    recorded issue. *)
Theorem reconcile_archive_sound db archive_root run_id detected clock :
  projections_complete db -> NoDup (fr_id <$> db_frames db) ->
  exists db' rep, reconcile_archive cwd sys read_error db archive_root run_id detected clock = Some (db', rep) /\
  let root := resolve cwd archive_root in
  db_frames db' = reconciled cwd sys read_error root <$> db_frames db /\
  (forall r, r ∈ db_frames db' -> fr_archive_state r = ARCHIVE_DURABLE ->
     exists p d, file_matches cwd sys read_error root r p d) /\
  (forall uid pj, db_projections db !! uid = Some pj ->
     exists pj', db_projections db' !! uid = Some pj' /\
     ((exists r m, r ∈ db_frames db /\ broken cwd sys read_error root r = true /\ m ∈ db_members db /\
         mb_frame_set_uid m = uid /\ mb_frame_id m = Some (fr_id r)) /\
      pj_archive_state pj' = ARCHIVE_DEGRADED_LIVE_ONLY \/
      (forall r m, r ∈ db_frames db -> broken cwd sys read_error root r = true -> m ∈ db_members db ->
         mb_frame_set_uid m = uid -> mb_frame_id m <> Some (fr_id r)) /\ pj' = pj)) /\
  db' = db <| db_frames := db_frames db' |> <| db_projections := db_projections db' |>
           <| db_issues := db_issues db' |> /\
  rp_checked_frames rep = rp_healthy_frames rep + rp_degraded_frames rep /\
  exists issues, db_issues db' = db_issues db ++ issues /\
    Z.of_nat (length issues) = rp_degraded_frames rep + rp_orphan_files rep + rp_partial_files rep.
Proof.
  intros Hc Hn. destruct (reconcile_archive_eq db archive_root run_id detected clock Hc Hn) as (now_ms & E).
  cbv zeta in E. eexists _, _. split; [exact E|]. cbv zeta. set (root := resolve cwd archive_root) in *.
  split; [done|]. split; [|split; [|split; [|split]]].
  - cbn. intros r (r0 & -> & _)%list_elem_of_fmap. apply reconciled_matches.
  - intros uid pj Hpj. cbn.
    destruct (turns_projections_lookup cwd sys read_error db root now_ms (db_frames db) _ _ _ Hpj)
      as (pj' & Hl & [[(r & Hr & Hu) Hs]|[Hno ->]]).
    + exists pj'. split; [done|]. left. split; [|done].
      apply elem_of_broken_uids in Hu as (Hb & m & Hm & Hmu & Hmf). by exists r, m.
    + exists pj. split; [done|]. right. split; [|done]. intros r m Hr Hb Hm Hmu Hmf.
      apply (Hno r Hr). apply elem_of_broken_uids. split; [done|]. by exists m.
  - done.
  - cbn. lia.
  - eexists. split; [done|]. rewrite length_app, Nat2Z.inj_add, file_issues_length. cbn.
    destruct (report_counts cwd sys read_error db root run_id now_ms (db_frames db)) as (_ & _ & _ & ->). lia.
Qed.

(** reconciling again, with the files as they are, changes no frame and
    no projection and degrades nothing: the frames the first run found
    healthy are the ones the second checks. *)
Theorem reconcile_archive_idempotent db archive_root run_id detected clock db1 rep1 run_id2 detected2 clock2 :
  projections_complete db -> NoDup (fr_id <$> db_frames db) ->
  reconcile_archive cwd sys read_error db archive_root run_id detected clock = Some (db1, rep1) ->
  exists db2 rep2, reconcile_archive cwd sys read_error db1 archive_root run_id2 detected2 clock2 = Some (db2, rep2) /\
    db_frames db2 = db_frames db1 /\ db_projections db2 = db_projections db1 /\
    rp_degraded_frames rep2 = 0 /\ rp_checked_frames rep2 = rp_healthy_frames rep1 /\
    rp_healthy_frames rep2 = rp_healthy_frames rep1 /\
    rp_orphan_files rep2 = rp_orphan_files rep1 /\ rp_partial_files rep2 = rp_partial_files rep1.
Proof.
  intros Hc Hn E1. destruct (reconcile_archive_eq db archive_root run_id detected clock Hc Hn) as (now_ms & E).
  cbv zeta in E. rewrite E in E1. injection E1 as <- <-. clear E.
  set (root := resolve cwd archive_root).
  match goal with |- context [reconcile_archive _ _ _ ?d archive_root run_id2 _ _] => set (db1 := d) end.
  assert (projections_complete db1) as Hc1.
  { intros uid Hm. destruct (Hc uid Hm) as [pj Hpj]. cbn.
    destruct (turns_projections_lookup cwd sys read_error db root now_ms (db_frames db) _ _ _ Hpj) as (pj' & Hl & _).
    by exists pj'. }
  assert (NoDup (fr_id <$> db_frames db1)) as Hn1 by (cbn; by rewrite reconciled_ids).
  destruct (reconcile_archive_eq db1 archive_root run_id2 detected2 clock2 Hc1 Hn1) as (now2 & E2).
  cbv zeta in E2. eexists _, _. split; [exact E2|]. fold root.
  assert (forall r, r ∈ db_frames db1 -> reconciled cwd sys read_error root r = r /\ broken cwd sys read_error root r = false) as Hfix.
  { cbn. intros r (r0 & -> & _)%list_elem_of_fmap. apply reconciled_again. }
  assert (reconciled cwd sys read_error root <$> db_frames db1 = db_frames db1) as Hf1.
  { rewrite <- (list_fmap_id (db_frames db1)) at 2. apply list_fmap_ext. intros i r Hr.
    apply Hfix. by eapply list_elem_of_lookup_2. }
  assert (turns_projections cwd sys read_error db1 root now2 (db_frames db1) (db_projections db1) = db_projections db1) as Hp1.
  { apply map_eq. intros uid. destruct (db_projections db1 !! uid) as [pj|] eqn:Hpj.
    - destruct (turns_projections_lookup cwd sys read_error db1 root now2 (db_frames db1) _ _ _ Hpj)
        as (pj' & -> & [[(r & Hr & [Hb _]%elem_of_broken_uids) _]|[_ ->]]); [|done].
      destruct (Hfix r Hr) as [_ Hb']. congruence.
    - by apply turns_projections_None. }
  assert (count_if (broken cwd sys read_error root) (db_frames db1) = 0) as Hb.
  { unfold count_if. rewrite filter_none; [done|]. intros r Hr. destruct (Hfix r Hr) as [_ ->]. done. }
  assert (count_if (fun r => bool_decide (fr_archive_state r = ARCHIVE_DURABLE)) (db_frames db1) =
    count_if (fun r => bool_decide (fr_archive_state r = ARCHIVE_DURABLE)) (db_frames db) -
    count_if (broken cwd sys read_error root) (db_frames db)) as Hk.
  { cbn. clear. induction (db_frames db) as [|r l IH]; [done|].
    rewrite fmap_cons, !count_if_cons, IH. unfold reconciled, broken.
    destruct (decide (fr_archive_state r = ARCHIVE_DURABLE)) as [Hd|Hd].
    - rewrite (bool_decide_eq_true_2 (fr_archive_state r = _)) by done.
      destruct (_validate_frame_file cwd sys read_error r root) as [h [issue|]] eqn:Ev; cbn [negb andb fst snd].
      + rewrite (bool_decide_eq_false_2 (fr_archive_state _ = _)), (bool_decide_eq_false_2 (Some _ = None)) by done.
        cbn [negb]. lia.
      + apply validate_healthy in Ev as [-> _]. rewrite (bool_decide_eq_true_2 (fr_archive_state _ = _)) by done.
        rewrite bool_decide_eq_true_2 by done. cbn [negb]. lia.
    - rewrite !(bool_decide_eq_false_2 (fr_archive_state r = _)) by done. cbn [negb andb]. lia. }
  assert (referenced_paths cwd (db_frames db1) = referenced_paths cwd (db_frames db)) as Hr by apply reconciled_references.
  cbn [fst snd db_frames db_projections update rp_degraded_frames rp_checked_frames rp_healthy_frames rp_orphan_files rp_partial_files].
  rewrite Hb, Hk, Hr, Hf1, Hp1. split_and!; try done; lia.
Qed.
End ReconcileTheorems.

(** ** Witnesses, and a projection that is missing *)

Definition demo_row (id : Z) (file : string) : Frame :=
  (demo_archive_frame id (Some "s") "pixels")
    <| fr_id := id |> <| fr_file_path := Some file |> <| fr_archive_state := ARCHIVE_DURABLE |>
    <| fr_file_size := None |>.

Definition demo_files : file_system :=
  mkFileSystem [mkInode "pixels" true]
    {[ ["srv"; "a.jpg"] := [Some 0%nat]; ["srv"; "b.jpg"] := [Some 0%nat] ]} {[ []; ["srv"] ]}.

Definition demo_member (frame_id : Z) : FrameSetMember :=
  mkFrameSetMember "set" (Some frame_id) (pretty frame_id) "s" (pretty frame_id) 5 100 "image/jpeg" 6
    "" "" None None None None.

(** Two frames of one set, the second and third without their files. *)
Definition demo_archive_db (with_projection : bool) : database :=
  mkDatabase [demo_row 1 "/srv/a.jpg"; demo_row 2 "/srv/c.jpg"; demo_row 3 "/srv/d.jpg"] ∅ ∅
    {[ "set" := mkFrameSetManifest "set" "cs" "run" 1 100 100 0 "digest" "{}" 100 ARCHIVE_DURABLE None 50 100 2
                  None None None None None None ]}
    [demo_member 2; demo_member 3]
    (if with_projection
     then {[ "set" := mkFrameSetDeliveryProjection "set" ARCHIVE_DURABLE "ELIGIBLE" "NOT_ENQUEUED" None 100 ]}
     else ∅)
    [] None.

Definition demo_reconcile (with_projection : bool) :=
  reconcile_archive (H := transparent_hashing) [] demo_files (fun _ => None)
    (demo_archive_db with_projection) "/srv" "run-1" (Some 7) 0.

Lemma demo_complete : projections_complete (demo_archive_db true).
Proof.
  intros uid [m Hm]. cbn in *. apply lookup_singleton_Some in Hm as [<- _].
  rewrite lookup_singleton_eq. by eexists.
Qed.

Lemma demo_ids : NoDup (fr_id <$> db_frames (demo_archive_db true)).
Proof. apply (bool_decide_unpack _). vm_compute. exact I. Qed.

Lemma reconcile_archive_sound_witness :
  exists db' rep, demo_reconcile true = Some (db', rep) /\
    rep = mkArchiveReconciliationReport "run-1" 3 1 2 1 0 /\
    pj_archive_state <$> db_projections db' !! "set" = Some ARCHIVE_DEGRADED_LIVE_ONLY.
Proof.
  destruct (reconcile_archive_sound (H := transparent_hashing) [] demo_files (fun _ => None)
    (demo_archive_db true) "/srv" "run-1" (Some 7) 0 demo_complete demo_ids) as (db' & rep & E & _ & _ & Hp & _).
  exists db', rep. split; [exact E|]. split.
  - change rep with (default rep (snd <$> Some (db', rep))). rewrite <- E. vm_compute. reflexivity.
  - destruct (Hp "set" _ eq_refl) as (pj & Hpj & [[_ Hs]|[Hno _]]).
    + rewrite Hpj. cbn. by rewrite Hs.
    + exfalso. apply (Hno (demo_row 2 "/srv/c.jpg") (demo_member 2)); [right; left|vm_compute; reflexivity|left|reflexivity..].
Defined.

Lemma reconcile_archive_idempotent_witness :
  exists db1 rep1 db2 rep2, demo_reconcile true = Some (db1, rep1) /\
    reconcile_archive (H := transparent_hashing) [] demo_files (fun _ => None) db1 "/srv" "run-2" None 9 =
      Some (db2, rep2) /\
    db_frames db2 = db_frames db1 /\ rp_degraded_frames rep2 = 0.
Proof.
  assert (exists x, demo_reconcile true = Some x) as [[db1 rep1] E] by (vm_compute; by eexists).
  destruct (reconcile_archive_idempotent (H := transparent_hashing) [] demo_files (fun _ => None)
    (demo_archive_db true) "/srv" "run-1" (Some 7) 0 db1 rep1 "run-2" None 9 demo_complete demo_ids E)
    as (db2 & rep2 & E2 & Hf & _ & Hd & _).
  exists db1, rep1, db2, rep2. split; [exact E|]. split; [exact E2|]. split; [exact Hf|exact Hd].
Defined.

(** Of a set without a projection, the second broken frame adds it again:
    the commit fails, and so does the startup that waits for it. *)
Lemma missing_projection_fails : demo_reconcile false = None.
Proof. vm_compute. reflexivity. Qed.
