(* ===== verification/SessionIdentity.v ===== *)
(** * Session credentials

    src/app/services/session_identity.py: the claims of a token become an
    authorized scope, after PyJWT has verified it against the key of the
    Main server's JWKS and the Main server has said that the session (and
    the camera's credential) is active. The credentials in use are kept in
    two stores. A lock makes every method of a store or cache one step.

    Wall-clock readings are whole seconds ([int(now())]); monotonic readings
    and cache lifetimes are integers of one unit. PyJWT and the HTTP fetches
    are parameters: [None] stands for an exception of theirs. *)

From Stdlib Require Import Ascii.
From S2P Require Import Prelude Json.

(** [SessionTokenError], and the [ValueError] of a constructor. *)
Inductive session_error := SessionTokenError (message : string) | SessionValueError (message : string).

Abbreviation claims := (list (string * json)).

(** [claims.get(key)]; a missing claim reads as [None]. *)
Definition claim (key : string) (c : claims) : json := default JNull (dict_get key c).

(** [isinstance(value, int)]: booleans are integers. *)
Definition int_of (value : json) : option Z :=
  match value with JInt z => Some z | JBool b => Some (Z.b2z b) | _ => None end.

(** [value == text] and [value is True]. *)
Definition is_text (value : json) (text : string) : bool :=
  match value with JStr s => bool_decide (s = text) | _ => false end.
Definition is_true (value : json) : bool := match value with JBool b => b | _ => false end.

(** ** [uuid.UUID]

    The constructor drops the prefixes, the braces at the ends and the
    hyphens, and reads 32 characters with [int(hex, 16)]. *)

Definition hex_value (c : ascii) : option Z :=
  let n := Z.of_N (N_of_ascii c) in
  if (48 <=? n) && (n <=? 57) then Some (n - 48)
  else if (97 <=? n) && (n <=? 102) then Some (n - 87)
  else if (65 <=? n) && (n <=? 70) then Some (n - 55)
  else None.

(** Digits, with single underscores between them; [after] says whether an
    underscore may come next. *)
Fixpoint read_hex (after : bool) (acc : Z) (s : string) : option Z :=
  match s with
  | EmptyString => if after then Some acc else None
  | String c s =>
      match hex_value c with
      | Some d => read_hex true (16 * acc + d) s
      | None => if after && bool_decide (c = "_"%char) then read_hex false acc s else None
      end
  end.

Definition drop_prefix_0x (s : string) : string * bool :=
  match s with
  | String "0" (String c rest) =>
      if bool_decide (c = "x"%char) || bool_decide (c = "X"%char) then (rest, true) else (s, false)
  | _ => (s, false)
  end.

Definition int_base16 (s : string) : option Z :=
  let s := strip s in
  let '(negative, s) :=
    match s with
    | String "-" s => (true, s)
    | String "+" s => (false, s)
    | _ => (false, s)
    end in
  let '(s, prefixed) := drop_prefix_0x s in
  (* after the prefix one underscore may precede the digits *)
  let s := match prefixed, s with true, String "_" s => s | _, _ => s end in
  z ← read_hex false 0 s; Some (if negative then - z else z).

(** [s.replace(old, "")], leftmost occurrences first. *)
Fixpoint remove_all (fuel : nat) (old s : string) : string :=
  match fuel, s with
  | S fuel, String c s' =>
      if starts_with old s then remove_all fuel old (String.substring (String.length old) (String.length s) s)
      else String c (remove_all fuel old s')
  | _, _ => s
  end.

Definition without (old s : string) : string := remove_all (String.length s) old s.

Definition is_brace (c : ascii) : bool := bool_decide (c = "{"%char) || bool_decide (c = "}"%char).

Fixpoint lstrip_braces (s : string) : string :=
  match s with String c s' => if is_brace c then lstrip_braces s' else s | EmptyString => s end.

Fixpoint rstrip_braces (s : string) : string :=
  match s with
  | EmptyString => EmptyString
  | String c s =>
      match rstrip_braces s with
      | EmptyString => if is_brace c then EmptyString else String c EmptyString
      | t => String c t
      end
  end.

Definition parse_uuid (value : string) : option Z :=
  let hex := without "-" (rstrip_braces (lstrip_braces (without "uuid:" (without "urn:" value)))) in
  if negb (bool_decide (String.length hex = 32%nat)) then None
  else z ← int_base16 hex; if (0 <=? z) && (z <? 2 ^ 128) then Some z else None.

Definition hex_digit (d : Z) : ascii :=
  ascii_of_N (Z.to_N (if d <? 10 then 48 + d else 87 + d)).

(** The lowest [n] hexadecimal digits of [z]. *)
Fixpoint hex_digits (n : nat) (z : Z) : string :=
  match n with
  | O => ""
  | S n => hex_digits n (z / 16) +:+ String (hex_digit (z mod 16)) ""
  end.

(** [str(uuid)]: groups of 8, 4, 4, 4 and 12 digits. *)
Definition uuid_text (z : Z) : string :=
  let hex := hex_digits 32 z in
  String.substring 0 8 hex +:+ "-" +:+ String.substring 8 4 hex +:+ "-" +:+ String.substring 12 4 hex +:+
  "-" +:+ String.substring 16 4 hex +:+ "-" +:+ String.substring 20 12 hex.

(** ** Claims *)

Definition _canonical_uuid (value : json) (claim_name : string) : result session_error string :=
  match value with
  | JStr text =>
      match parse_uuid text with
      | None => Raise (SessionTokenError (claim_name +:+ " must be a UUID string"))
      | Some z =>
          let normalized := uuid_text z in
          if bool_decide (normalized = lower text) then Ok normalized
          else Raise (SessionTokenError (claim_name +:+ " must use canonical UUID form"))
      end
  | _ => Raise (SessionTokenError (claim_name +:+ " must be a UUID string"))
  end.

Definition _required_text_claim (value : json) (claim_name : string) : result session_error string :=
  match value with
  | JStr text =>
      if negb (truthy (strip text)) then Raise (SessionTokenError (claim_name +:+ " must be non-empty"))
      else if negb (bool_decide (text = strip text))
      then Raise (SessionTokenError (claim_name +:+ " must not contain outer whitespace"))
      else Ok text
  | _ => Raise (SessionTokenError (claim_name +:+ " must be non-empty"))
  end.

Fixpoint all_char (p : ascii -> bool) (s : string) : bool :=
  match s with EmptyString => true | String c s => p c && all_char p s end.

Definition is_lower_hex (c : ascii) : bool :=
  let n := N_of_ascii c in ((48 <=? n) && (n <=? 57) || (97 <=? n) && (n <=? 102))%N.

(** [PROFILE_DIGEST_PATTERN.fullmatch]. *)
Definition is_profile_digest (s : string) : bool :=
  bool_decide (String.length s = 64%nat) && all_char is_lower_hex s.

Definition profile_digest_claim (c : claims) : result session_error string :=
  match claim "profile_digest" c with
  | JStr digest =>
      if is_profile_digest digest then Ok digest
      else Raise (SessionTokenError "profile_digest must be a lowercase SHA-256 digest")
  | _ => Raise (SessionTokenError "profile_digest must be a lowercase SHA-256 digest")
  end.

Definition int_claim (name : string) (c : claims) : result session_error Z :=
  match int_of (claim name c) with
  | Some z => Ok z
  | None => Raise (SessionTokenError (name +:+ " must be an integer timestamp"))
  end.

Fixpoint canonical_uuids (l : list json) (claim_name : string) : result session_error (list string) :=
  match l with
  | [] => Ok []
  | v :: l => u ← _canonical_uuid v claim_name; us ← canonical_uuids l claim_name; Ok (u :: us)
  end.

Record AuthorizedSessionScope := mkAuthorizedSessionScope {
  su_tenant_id : string;
  su_site_id : string;
  su_capture_session_id : string;
  su_processing_job_id : string;
  su_camera_ids : gset string;
  su_profile_digest : string;
  su_authorized_subject : string;
  su_token_jti : string;
  su_expires_at : Z;
}.

#[export] Instance AuthorizedSessionScope_settable : Settable AuthorizedSessionScope := fun x => mkAuthorizedSessionScope
  (su_tenant_id x) (su_site_id x) (su_capture_session_id x) (su_processing_job_id x)
  (su_camera_ids x) (su_profile_digest x) (su_authorized_subject x) (su_token_jti x)
  (su_expires_at x).

#[export] Instance AuthorizedSessionScope_eq_dec : EqDecision AuthorizedSessionScope.
Proof. solve_decision. Defined.


Record AuthorizedCameraIngestScope := mkAuthorizedCameraIngestScope {
  ac_tenant_id : string;
  ac_site_id : string;
  ac_capture_session_id : string;
  ac_processing_job_id : string;
  ac_profile_digest : string;
  ac_camera_claim_id : string;
  ac_camera_id : string;
  ac_device_id : string;
  ac_authorized_subject : string;
  ac_token_jti : string;
  ac_issued_at : Z;
  ac_expires_at : Z;
}.

#[export] Instance AuthorizedCameraIngestScope_settable : Settable AuthorizedCameraIngestScope := fun x => mkAuthorizedCameraIngestScope
  (ac_tenant_id x) (ac_site_id x) (ac_capture_session_id x) (ac_processing_job_id x)
  (ac_profile_digest x) (ac_camera_claim_id x) (ac_camera_id x) (ac_device_id x)
  (ac_authorized_subject x) (ac_token_jti x) (ac_issued_at x) (ac_expires_at x).

#[export] Instance AuthorizedCameraIngestScope_eq_dec : EqDecision AuthorizedCameraIngestScope.
Proof. solve_decision. Defined.


(** The scope a frame declares: the fields of the gRPC message. *)
Record DeclaredScope := mkDeclaredScope {
  de_tenant_id : string;
  de_site_id : string;
  de_capture_session_id : string;
  de_processing_job_id : string;
  de_profile_digest : string;
}.

#[export] Instance DeclaredScope_settable : Settable DeclaredScope := fun x => mkDeclaredScope
  (de_tenant_id x) (de_site_id x) (de_capture_session_id x) (de_processing_job_id x)
  (de_profile_digest x).

#[export] Instance DeclaredScope_eq_dec : EqDecision DeclaredScope.
Proof. solve_decision. Defined.


Definition camera_ids_claim (c : claims) : result session_error (gset string) :=
  match claim "camera_ids" c with
  | JList (v :: l) =>
      ids ← canonical_uuids (v :: l) "camera_ids";
      if negb (bool_decide (size (list_to_set ids : gset string) = length (v :: l)))
      then Raise (SessionTokenError "camera_ids must not contain duplicates")
      else Ok (list_to_set ids)
  | _ => Raise (SessionTokenError "camera_ids must be a non-empty list")
  end.

Definition subject_claim (c : claims) : result session_error string :=
  match claim "sub" c with
  | JStr subject => if truthy (strip subject) then Ok subject else Raise (SessionTokenError "sub must be non-empty")
  | _ => Raise (SessionTokenError "sub must be non-empty")
  end.

Definition _scope_from_claims (c : claims) : result session_error AuthorizedSessionScope :=
  cameras ← camera_ids_claim c;
  profile_digest ← profile_digest_claim c;
  subject ← subject_claim c;
  processing_job_id ← _canonical_uuid (claim "processing_job_id" c) "processing_job_id";
  token_jti ← _canonical_uuid (claim "jti" c) "jti";
  _ ← raise_unless (bool_decide (token_jti = processing_job_id))
        (SessionTokenError "jti must equal processing_job_id");
  _ ← raise_unless (is_text (claim "mode" c) "LIVE") (SessionTokenError "session token mode must be LIVE");
  expires_at ← int_claim "exp" c;
  tenant_id ← _canonical_uuid (claim "tenant_id" c) "tenant_id";
  site_id ← _canonical_uuid (claim "site_id" c) "site_id";
  capture_session_id ← _canonical_uuid (claim "capture_session_id" c) "capture_session_id";
  Ok (mkAuthorizedSessionScope tenant_id site_id capture_session_id processing_job_id cameras profile_digest
        (strip subject) token_jti expires_at).

Definition _camera_ingest_scope_from_claims (c : claims) : result session_error AuthorizedCameraIngestScope :=
  _ ← raise_unless (is_text (claim "credential_kind" c) "CAMERA_INGEST")
        (SessionTokenError "credential_kind must be CAMERA_INGEST");
  profile_digest ← profile_digest_claim c;
  subject ← _required_text_claim (claim "sub" c) "sub";
  device_id ← _required_text_claim (claim "device_id" c) "device_id";
  issued_at ← int_claim "iat" c;
  expires_at ← int_claim "exp" c;
  tenant_id ← _canonical_uuid (claim "tenant_id" c) "tenant_id";
  site_id ← _canonical_uuid (claim "site_id" c) "site_id";
  capture_session_id ← _canonical_uuid (claim "capture_session_id" c) "capture_session_id";
  processing_job_id ← _canonical_uuid (claim "processing_job_id" c) "processing_job_id";
  camera_claim_id ← _canonical_uuid (claim "camera_claim_id" c) "camera_claim_id";
  camera_id ← _canonical_uuid (claim "camera_id" c) "camera_id";
  token_jti ← _canonical_uuid (claim "jti" c) "jti";
  Ok (mkAuthorizedCameraIngestScope tenant_id site_id capture_session_id processing_job_id profile_digest
        camera_claim_id camera_id device_id subject token_jti issued_at expires_at).

Definition session_matches_declared_scope (s : AuthorizedSessionScope) (declared : DeclaredScope)
    (camera_id : string) : bool :=
  bool_decide (de_tenant_id declared = su_tenant_id s) && bool_decide (de_site_id declared = su_site_id s) &&
  bool_decide (de_capture_session_id declared = su_capture_session_id s) &&
  bool_decide (de_processing_job_id declared = su_processing_job_id s) &&
  bool_decide (de_profile_digest declared = su_profile_digest s) && bool_decide (camera_id ∈ su_camera_ids s).

Definition camera_matches_declared_scope (s : AuthorizedCameraIngestScope) (declared : DeclaredScope)
    (camera_id : string) (device_id : option string) : bool :=
  bool_decide (de_tenant_id declared = ac_tenant_id s) && bool_decide (de_site_id declared = ac_site_id s) &&
  bool_decide (de_capture_session_id declared = ac_capture_session_id s) &&
  bool_decide (de_processing_job_id declared = ac_processing_job_id s) &&
  bool_decide (de_profile_digest declared = ac_profile_digest s) && bool_decide (camera_id = ac_camera_id s) &&
  bool_decide (device_id = Some (ac_device_id s)).

(** ** The stores of credentials in use *)

Record credential (S : Type) := mkCredential { cd_token : string; cd_scope : S }.
Arguments mkCredential {S}.
Arguments cd_token {S}.
Arguments cd_scope {S}.

Definition ActiveSessionCredentialStore := gmap string (credential AuthorizedSessionScope).

Definition session_register (st : ActiveSessionCredentialStore) (token : string) (scope : AuthorizedSessionScope)
    (now_s : Z) : ActiveSessionCredentialStore * result session_error (credential AuthorizedSessionScope) :=
  if negb (truthy token) then (st, Raise (SessionTokenError "session token is required"))
  else if su_expires_at scope <=? now_s then (st, Raise (SessionTokenError "session token is expired"))
  else
    let new := mkCredential token scope in
    let put := (<[su_processing_job_id scope := new]> st, Ok new) in
    match st !! su_processing_job_id scope with
    | Some existing =>
        if bool_decide (cd_scope existing = scope) then put
        else (st, Raise (SessionTokenError "processing job credential scope cannot be replaced"))
    | None => put
    end.

(** The columns of a claimed frame-set that [resolve_for_claim] compares. *)
Record ClaimScope := mkClaimScope {
  cl_tenant_id : option string;
  cl_site_id : option string;
  cl_capture_session_id : option string;
  cl_processing_job_id : option string;
  cl_profile_digest : option string;
  cl_authorized_subject : option string;
  cl_session_token_jti : option string;
  cl_authorized_camera_ids : list string;
}.

Definition claim_matches (s : AuthorizedSessionScope) (cl : ClaimScope) : bool :=
  bool_decide (Some (su_tenant_id s) = cl_tenant_id cl) && bool_decide (Some (su_site_id s) = cl_site_id cl) &&
  bool_decide (Some (su_capture_session_id s) = cl_capture_session_id cl) &&
  bool_decide (Some (su_processing_job_id s) = cl_processing_job_id cl) &&
  bool_decide (Some (su_profile_digest s) = cl_profile_digest cl) &&
  bool_decide (Some (su_authorized_subject s) = cl_authorized_subject cl) &&
  bool_decide (Some (su_token_jti s) = cl_session_token_jti cl) &&
  bool_decide (su_camera_ids s = list_to_set (cl_authorized_camera_ids cl)).

Definition resolve_for_claim (st : ActiveSessionCredentialStore) (cl : ClaimScope) (now_s : Z)
    : ActiveSessionCredentialStore * result session_error (credential AuthorizedSessionScope) :=
  if negb (truthy_opt (cl_processing_job_id cl))
  then (st, Raise (SessionTokenError "authorized manifest is missing processing_job_id"))
  else
    let processing_job_id := default "" (cl_processing_job_id cl) in
    match st !! processing_job_id with
    | None => (st, Raise (SessionTokenError "active session credential is unavailable"))
    | Some c =>
        if su_expires_at (cd_scope c) <=? now_s
        then (delete processing_job_id st, Raise (SessionTokenError "active session credential is expired"))
        else if negb (claim_matches (cd_scope c) cl)
        then (st, Raise (SessionTokenError "active credential does not match authorized manifest"))
        else (st, Ok c)
    end.

Definition session_revoke (st : ActiveSessionCredentialStore) (processing_job_id : string)
    : ActiveSessionCredentialStore * bool :=
  (delete processing_job_id st, bool_decide (is_Some (st !! processing_job_id))).

Definition session_clear (st : ActiveSessionCredentialStore) : ActiveSessionCredentialStore := ∅.

Definition ActiveCameraIngestCredentialStore := gmap (string * string) (credential AuthorizedCameraIngestScope).

Definition camera_key (scope : AuthorizedCameraIngestScope) : string * string :=
  (ac_processing_job_id scope, ac_camera_id scope).

Definition camera_register (st : ActiveCameraIngestCredentialStore) (token : string)
    (scope : AuthorizedCameraIngestScope) (now_s : Z)
    : ActiveCameraIngestCredentialStore * result session_error (credential AuthorizedCameraIngestScope) :=
  if negb (truthy token) then (st, Raise (SessionTokenError "camera ingest credential is required"))
  else if ac_expires_at scope <=? now_s then (st, Raise (SessionTokenError "camera ingest credential is expired"))
  else
    let new := mkCredential token scope in
    let put := (<[camera_key scope := new]> st, Ok new) in
    match st !! camera_key scope with
    | Some existing =>
        if negb (bool_decide (ac_camera_claim_id (cd_scope existing) = ac_camera_claim_id scope))
        then (st, Raise (SessionTokenError "active camera claim cannot be replaced"))
        else if ac_issued_at scope <? ac_issued_at (cd_scope existing)
        then (st, Raise (SessionTokenError "older camera ingest credential cannot replace a newer one"))
        else put
    | None => put
    end.

Definition camera_resolve (st : ActiveCameraIngestCredentialStore) (processing_job_id camera_id : string) (now_s : Z)
    : ActiveCameraIngestCredentialStore * result session_error (credential AuthorizedCameraIngestScope) :=
  match st !! (processing_job_id, camera_id) with
  | None => (st, Raise (SessionTokenError "active camera ingest credential is unavailable"))
  | Some c =>
      if ac_expires_at (cd_scope c) <=? now_s
      then (delete (processing_job_id, camera_id) st,
            Raise (SessionTokenError "active camera ingest credential is expired"))
      else (st, Ok c)
  end.

Definition assert_current (st : ActiveCameraIngestCredentialStore) (scope : AuthorizedCameraIngestScope) (now_s : Z)
    : ActiveCameraIngestCredentialStore * result session_error unit :=
  let '(st, r) := camera_resolve st (ac_processing_job_id scope) (ac_camera_id scope) now_s in
  (st, c ← r; raise_unless (bool_decide (cd_scope c = scope))
                (SessionTokenError "camera ingest credential has been replaced")).

Definition camera_revoke (st : ActiveCameraIngestCredentialStore) (processing_job_id camera_id : string)
    : ActiveCameraIngestCredentialStore * bool :=
  (delete (processing_job_id, camera_id) st, bool_decide (is_Some (st !! (processing_job_id, camera_id)))).

Definition camera_clear (st : ActiveCameraIngestCredentialStore) : ActiveCameraIngestCredentialStore := ∅.

(** ** The status caches *)

Record SessionStatusCache := mkSessionStatusCache {
  sq_cache_ttl : Z;
  sq_active_until : gmap string Z;
}.

#[export] Instance SessionStatusCache_settable : Settable SessionStatusCache := fun x =>
  mkSessionStatusCache (sq_cache_ttl x) (sq_active_until x).

(** [needle in s]. *)
Fixpoint contains (needle s : string) : bool :=
  starts_with needle s || match s with EmptyString => false | String _ s => contains needle s end.

Definition new_SessionStatusCache (url_template : string) (cache_ttl timeout : Z)
    : result session_error SessionStatusCache :=
  if negb (contains "{processing_job_id}" url_template)
  then Raise (SessionValueError "session status URL must contain {processing_job_id}")
  else if (cache_ttl <=? 0) || (timeout <=? 0)
  then Raise (SessionValueError "session status cache and timeout must be positive")
  else Ok (mkSessionStatusCache cache_ttl ∅).

(** The answer of the Main server, [None] when the fetch raised. *)
Definition says_session_active (processing_job_id : string) (payload : json) : bool :=
  match payload with
  | JObj c => is_text (claim "processingJobId" c) processing_job_id &&
              is_true (claim "known" c) && is_true (claim "active" c)
  | _ => false
  end.

Definition session_assert_active (q : SessionStatusCache) (processing_job_id : string) (now : Z)
    (fetched : option json) : SessionStatusCache * result session_error unit :=
  if match sq_active_until q !! processing_job_id with Some until => now <? until | None => false end
  then (q, Ok tt)
  else match fetched with
  | None => (q, Raise (SessionTokenError "could not verify Main session status"))
  | Some payload =>
      if negb (says_session_active processing_job_id payload)
      then (q <| sq_active_until ::= delete processing_job_id |>,
            Raise (SessionTokenError "Main session is inactive or unknown"))
      else (q <| sq_active_until ::= <[processing_job_id := now + sq_cache_ttl q]> |>, Ok tt)
  end.

(** The answers are a dict in insertion order: the oldest is dropped when
    1,024 are kept. *)
Record CameraCredentialStatusCache := mkCameraCredentialStatusCache {
  cq_cache_ttl : Z;
  cq_active_until : list ((string * string) * Z);
}.

#[export] Instance CameraCredentialStatusCache_settable : Settable CameraCredentialStatusCache := fun x =>
  mkCameraCredentialStatusCache (cq_cache_ttl x) (cq_active_until x).

Definition new_CameraCredentialStatusCache (url_template : string) (cache_ttl timeout : Z)
    : result session_error CameraCredentialStatusCache :=
  if negb (contains "{credential_id}" url_template)
  then Raise (SessionValueError "credential status URL must contain {credential_id}")
  else if (cache_ttl <=? 0) || (timeout <=? 0)
  then Raise (SessionValueError "credential status cache and timeout must be positive")
  else Ok (mkCameraCredentialStatusCache cache_ttl []).

Definition says_credential_active (credential_id processing_job_id : string) (payload : json) : bool :=
  match payload with
  | JObj c => is_text (claim "credentialId" c) credential_id &&
              is_text (claim "processingJobId" c) processing_job_id &&
              is_text (claim "credentialKind" c) "CAMERA_INGEST" &&
              is_true (claim "known" c) && is_true (claim "active" c)
  | _ => false
  end.

Definition credential_assert_active (q : CameraCredentialStatusCache) (credential_id processing_job_id : string)
    (now : Z) (fetched : option json) : CameraCredentialStatusCache * result session_error unit :=
  let key := (credential_id, processing_job_id) in
  if match dict_get key (cq_active_until q) with Some until => now <? until | None => false end
  then (q, Ok tt)
  else
    let q := q <| cq_active_until ::= dict_del key |> in
    match fetched with
    | None => (q, Raise (SessionTokenError "could not verify Main camera credential status"))
    | Some payload =>
        if negb (says_credential_active credential_id processing_job_id payload)
        then (q, Raise (SessionTokenError "Main camera credential is inactive or unknown"))
        else
          let kept := if 1024 <=? Z.of_nat (length (cq_active_until q)) then tail (cq_active_until q)
                      else cq_active_until q in
          (q <| cq_active_until := dict_set key (now + cq_cache_ttl q) kept |>, Ok tt)
    end.

Definition LEGACY_REQUIRED_CLAIMS : list string :=
  ["iss"; "aud"; "sub"; "tenant_id"; "site_id"; "capture_session_id"; "processing_job_id"; "camera_ids";
   "profile_digest"; "mode"; "iat"; "nbf"; "exp"; "jti"].

Definition CAMERA_INGEST_REQUIRED_CLAIMS : list string :=
  ["iss"; "aud"; "sub"; "credential_kind"; "tenant_id"; "site_id"; "capture_session_id"; "processing_job_id";
   "profile_digest"; "camera_claim_id"; "camera_id"; "device_id"; "iat"; "nbf"; "exp"; "jti"].

(** PyJWT: a key and its constructor from a JWK, the header of a token (its
    [alg] and [kid]; PyJWT refuses a [kid] that is not a string), the
    verified decoding — signature, algorithm RS256, issuer, audience,
    times at [now_s] with a leeway, required claims — and the one without
    any check. [None] is an exception: [PyJWTError] of a decoding. *)
Class PyJWT := {
  PyJWK : Type;
  from_dict : claims -> option PyJWK;
  get_unverified_header : string -> option (json * option string);
  jwt_decode : string -> PyJWK -> string -> string -> Z -> list string -> Z -> option claims;
  jwt_decode_unverified : string -> option claims;
}.

Section Verifiers.
Context `{PyJWT}.

(** ** The keys of the Main server *)

(** [None] is [float("-inf")]. *)
Record JwksKeyCache := mkJwksKeyCache {
  jk_cache_ttl : Z;
  jk_keys : list (string * PyJWK);
  jk_loaded_at : option Z;
}.

Definition new_JwksKeyCache (jwks_url : string) (cache_ttl timeout : Z) : result session_error JwksKeyCache :=
  if negb (truthy jwks_url) then Raise (SessionValueError "jwks_url is required")
  else if cache_ttl <=? 0 then Raise (SessionValueError "cache_ttl_sec must be positive")
  else if timeout <=? 0 then Raise (SessionValueError "timeout_sec must be positive")
  else Ok (mkJwksKeyCache cache_ttl [] None).

Fixpoint parse_keys (raw_keys : list json) (parsed : list (string * PyJWK)) : option (list (string * PyJWK)) :=
  match raw_keys with
  | [] => Some parsed
  | JObj raw_key :: raw_keys =>
      match claim "kid" raw_key with
      | JStr kid =>
          if negb (truthy kid) || bool_decide (kid ∈ parsed.*1) then None
          else if negb (is_text (claim "kty" raw_key) "RSA") || negb (is_text (claim "alg" raw_key) "RS256")
          then parse_keys raw_keys parsed
          else key ← from_dict raw_key; parse_keys raw_keys (dict_set kid key parsed)
      | _ => None
      end
  | _ :: _ => None
  end.

Definition parse_jwks (payload : json) : option (list (string * PyJWK)) :=
  match payload with
  | JObj c =>
      match claim "keys" c with
      | JList (k :: ks) => parsed ← parse_keys (k :: ks) []; match parsed with [] => None | _ => Some parsed end
      | _ => None
      end
  | _ => None
  end.

Definition _refresh (k : JwksKeyCache) (loaded_at : Z) (fetched : option json)
    : JwksKeyCache * result session_error unit :=
  match fetched ≫= parse_jwks with
  | Some parsed => (mkJwksKeyCache (jk_cache_ttl k) parsed (Some loaded_at), Ok tt)
  | None => (k, Raise (SessionTokenError "could not refresh Main JWKS"))
  end.

(** The clock and the answers of the Main server that one call meets: the
    two times and fetches of the key cache, and those of the status caches. *)
Record environment := mkEnvironment {
  en_now_s : Z;
  en_keys_at : Z;
  en_keys : option json;
  en_keys_again_at : Z;
  en_keys_again : option json;
  en_session_at : Z;
  en_session : string -> option json;
  en_credential_at : Z;
  en_credential : string -> option json;
}.

Definition stale_keys (k : JwksKeyCache) (now : Z) : bool :=
  match jk_keys k, jk_loaded_at k with
  | _ :: _, Some loaded_at => jk_cache_ttl k <=? now - loaded_at
  | _, _ => true
  end.

Definition known_key (k : JwksKeyCache) (kid : string) : result session_error PyJWK :=
  match dict_get kid (jk_keys k) with
  | Some key => Ok key
  | None => Raise (SessionTokenError "token kid is not present in Main JWKS")
  end.

Definition resolve_key (k : JwksKeyCache) (kid : string) (env : environment)
    : JwksKeyCache * result session_error PyJWK :=
  if negb (truthy kid) then (k, Raise (SessionTokenError "token header is missing kid"))
  else
    let '(k, fresh) := if stale_keys k (en_keys_at env) then _refresh k (en_keys_at env) (en_keys env) else (k, Ok tt) in
    match fresh with
    | Raise e => (k, Raise e)
    | Ok _ =>
        match dict_get kid (jk_keys k) with
        | Some key => (k, Ok key)
        | None =>
            let '(k, again) := _refresh k (en_keys_again_at env) (en_keys_again env) in
            (k, _ ← again; known_key k kid)
        end
    end.

(** ** The verifiers *)

(** The caches of the verifiers, which startup makes once for both. *)
Record caches := mkCaches {
  ca_keys : JwksKeyCache;
  ca_session : option SessionStatusCache;
  ca_credential : option CameraCredentialStatusCache;
}.

Record verifier_config := mkVerifierConfig {
  vc_issuer : string;
  vc_audience : string;
  vc_leeway_sec : Z;
}.

Definition new_verifier (issuer audience : string) (leeway_sec : Z) : result session_error verifier_config :=
  if negb (truthy issuer) || negb (truthy audience)
  then Raise (SessionValueError "issuer and audience are required")
  else if leeway_sec <? 0 then Raise (SessionValueError "leeway_sec must be nonnegative")
  else Ok (mkVerifierConfig issuer audience leeway_sec).

Definition check_session (c : caches) (processing_job_id : string) (env : environment)
    : caches * result session_error unit :=
  match ca_session c with
  | None => (c, Ok tt)
  | Some q =>
      let '(q, r) := session_assert_active q processing_job_id (en_session_at env)
                       (en_session env processing_job_id) in
      (mkCaches (ca_keys c) (Some q) (ca_credential c), r)
  end.

Definition check_credential (c : caches) (token_jti processing_job_id : string) (env : environment)
    : caches * result session_error unit :=
  match ca_credential c with
  | None => (c, Ok tt)
  | Some q =>
      let '(q, r) := credential_assert_active q token_jti processing_job_id (en_credential_at env)
                       (en_credential env token_jti) in
      (mkCaches (ca_keys c) (ca_session c) (Some q), r)
  end.

(** [SessionTokenVerifier.assert_active]. *)
Definition session_scope_active (c : caches) (scope : AuthorizedSessionScope) (env : environment)
    : caches * result session_error unit :=
  if su_expires_at scope <=? en_now_s env then (c, Raise (SessionTokenError "session token is expired"))
  else check_session c (su_processing_job_id scope) env.

(** [CameraIngestCredentialVerifier.assert_active]. *)
Definition camera_scope_active (c : caches) (scope : AuthorizedCameraIngestScope) (env : environment)
    : caches * result session_error unit :=
  if ac_expires_at scope <=? en_now_s env then (c, Raise (SessionTokenError "camera ingest credential is expired"))
  else
    let '(c, r) := check_session c (ac_processing_job_id scope) env in
    match r with
    | Raise e => (c, Raise e)
    | Ok _ => check_credential c (ac_token_jti scope) (ac_processing_job_id scope) env
    end.

(** The common shape of the two [verify]: the header, the key, the decoding,
    the scope, its activity. *)
Definition verify_with {S} (what : string) (required : list string) (scope_of : claims -> result session_error S)
    (active : caches -> S -> environment -> caches * result session_error unit)
    (v : verifier_config) (c : caches) (token : string) (env : environment) : caches * result session_error S :=
  if negb (truthy token) then (c, Raise (SessionTokenError (what +:+ " is required")))
  else match get_unverified_header token with
  | None => (c, Raise (SessionTokenError (what +:+ " validation failed")))
  | Some (alg, kid) =>
      if negb (is_text alg "RS256") then (c, Raise (SessionTokenError (what +:+ " algorithm must be RS256")))
      else
        let '(keys, key) := resolve_key (ca_keys c) (default "" kid) env in
        let c := mkCaches keys (ca_session c) (ca_credential c) in
        match key with
        | Raise e => (c, Raise e)
        | Ok key =>
            match jwt_decode token key (vc_issuer v) (vc_audience v) (vc_leeway_sec v) required (en_now_s env) with
            | None => (c, Raise (SessionTokenError (what +:+ " validation failed")))
            | Some decoded =>
                match scope_of decoded with
                | Raise e => (c, Raise e)
                | Ok scope => let '(c, r) := active c scope env in (c, _ ← r; Ok scope)
                end
            end
        end
  end.

(** [SessionTokenVerifier.verify] and [CameraIngestCredentialVerifier.verify]. *)
Definition session_verify := verify_with "session token" LEGACY_REQUIRED_CLAIMS _scope_from_claims session_scope_active.
Definition camera_verify :=
  verify_with "camera ingest credential" CAMERA_INGEST_REQUIRED_CLAIMS _camera_ingest_scope_from_claims
    camera_scope_active.

Inductive ingest_scope := SessionScope (s : AuthorizedSessionScope) | CameraScope (s : AuthorizedCameraIngestScope).

(** [VersionedIngestCredentialVerifier], with the verifiers it was given. *)
Record versioned_verifier := mkVersionedVerifier {
  vv_legacy : option verifier_config;
  vv_camera_ingest : option verifier_config;
}.

Definition new_VersionedIngestCredentialVerifier (legacy camera_ingest : option verifier_config)
    : result session_error versioned_verifier :=
  match legacy, camera_ingest with
  | None, None => Raise (SessionValueError "at least one ingest credential verifier is required")
  | _, _ => Ok (mkVersionedVerifier legacy camera_ingest)
  end.

(** The legacy verifier has no credential status cache. *)
Definition versioned_verify (v : versioned_verifier) (c : caches) (token : string) (env : environment)
    : caches * result session_error ingest_scope :=
  match jwt_decode_unverified token with
  | None => (c, Raise (SessionTokenError "ingest credential is malformed"))
  | Some unverified =>
      match claim "credential_kind" unverified with
      | JNull =>
          match vv_legacy v with
          | None => (c, Raise (SessionTokenError "legacy session credential is disabled"))
          | Some l => let '(c, r) := session_verify l c token env in (c, s ← r; Ok (SessionScope s))
          end
      | kind =>
          match vv_camera_ingest v with
          | Some k =>
              if is_text kind "CAMERA_INGEST"
              then let '(c, r) := camera_verify k c token env in (c, s ← r; Ok (CameraScope s))
              else (c, Raise (SessionTokenError "unsupported ingest credential kind"))
          | None => (c, Raise (SessionTokenError "unsupported ingest credential kind"))
          end
      end
  end.

Definition versioned_assert_active (v : versioned_verifier) (c : caches) (scope : ingest_scope) (env : environment)
    : caches * result session_error unit :=
  match scope with
  | CameraScope s =>
      match vv_camera_ingest v with
      | None => (c, Raise (SessionTokenError "camera ingest credential is disabled"))
      | Some _ => camera_scope_active c s env
      end
  | SessionScope s =>
      match vv_legacy v with
      | None => (c, Raise (SessionTokenError "legacy session credential is disabled"))
      | Some _ => session_scope_active c s env
      end
  end.
End Verifiers.

(** ** The authorization metadata of a call *)

(** [s.partition(" ")]: what precedes the first space, whether there is one,
    and what follows. *)
Fixpoint partition_space (s : string) : string * bool * string :=
  match s with
  | EmptyString => ("", false, "")
  | String c s =>
      if bool_decide (c = " "%char) then ("", true, s)
      else let '(head, found, rest) := partition_space s in (String c head, found, rest)
  end.

(** [None] is a context without invocation metadata. *)
Definition extract_bearer_token (metadata : option (list (string * string))) : result session_error string :=
  match metadata with
  | None => Raise (SessionTokenError "authorization metadata is required")
  | Some items =>
      match snd <$> filter (fun item => lower item.1 = "authorization") items with
      | [value] =>
          let '(scheme, separator, token) := partition_space value in
          if negb separator || negb (bool_decide (lower scheme = "bearer")) || negb (truthy (strip token))
          then Raise (SessionTokenError "authorization must use Bearer credentials")
          else Ok (strip token)
      | _ => Raise (SessionTokenError "exactly one authorization value is required")
      end
  end.

(** ** UUIDs read back *)

Lemma all_char_app p a b : all_char p (a +:+ b) = all_char p a && all_char p b.
Proof.
  induction a as [|c a IH]; [done|]. change (String c a +:+ b) with (String c (a +:+ b)). cbn.
  by rewrite IH, andb_assoc.
Qed.

Lemma all_char_weaken (p q : ascii -> bool) s :
  (forall c, p c = true -> q c = true) -> all_char p s = true -> all_char q s = true.
Proof.
  intros H. induction s as [|c s IH]; [done|]. cbn. intros [Hc Hs]%andb_true_iff. by rewrite H, IH.
Qed.

Lemma all_char_any p s : all_char (fun c => negb (p c)) s = true -> any_char p s = false.
Proof.
  induction s as [|c s IH]; [done|]. cbn. intros [Hc Hs]%andb_true_iff. apply negb_true_iff in Hc.
  by rewrite Hc, IH.
Qed.

(** A decidable fact about every character is checked on all 256. *)
Lemma ascii_all (P : ascii -> bool) : forallb (fun n => P (ascii_of_nat n)) (seq 0 256) = true -> forall c, P c = true.
Proof.
  intros H c. rewrite forallb_forall in H. specialize (H (nat_of_ascii c)).
  rewrite ascii_nat_embedding in H. apply H. apply in_seq. split; [lia|].
  pose proof (nat_ascii_bounded c). lia.
Qed.

Lemma ascii_implies (P Q : ascii -> bool) :
  forallb (fun n => implb (P (ascii_of_nat n)) (Q (ascii_of_nat n))) (seq 0 256) = true ->
  forall c, P c = true -> Q c = true.
Proof.
  intros H c Hp. pose proof (ascii_all (fun c => implb (P c) (Q c)) H c) as Hi. cbn in Hi.
  rewrite Hp in Hi. done.
Qed.

Lemma lower_hex_other x : is_lower_hex x = false ->
  forall c, is_lower_hex c = true -> negb (bool_decide (c = x)) = true.
Proof. intros Hx c Hc. apply negb_true_iff, bool_decide_eq_false. intros ->. congruence. Qed.

(** Removing a substring that cannot start is the identity. *)
Lemma remove_all_id fuel c old s :
  all_char (fun x => negb (bool_decide (x = c))) s = true -> remove_all fuel (String c old) s = s.
Proof.
  revert s. induction fuel as [|fuel IH]; intros [|x s]; cbn; try done.
  intros [Hx Hs]%andb_true_iff. apply negb_true_iff, bool_decide_eq_false in Hx.
  unfold starts_with. cbn. destruct (ascii_dec c x); [congruence|]. f_equal. by apply IH.
Qed.

Fixpoint drop_char (c : ascii) (s : string) : string :=
  match s with
  | EmptyString => EmptyString
  | String x s => if bool_decide (x = c) then drop_char c s else String x (drop_char c s)
  end.

Lemma remove_char fuel c s : (String.length s <= fuel)%nat -> remove_all fuel (String c "") s = drop_char c s.
Proof.
  revert s. induction fuel as [|fuel IH]; intros [|x s] Hf; cbn in *; try done; [lia|].
  unfold starts_with. cbn. destruct (ascii_dec c x) as [->|Hne].
  - rewrite bool_decide_eq_true_2 by done.
    replace (String.prefix "" s) with true by by destruct s.
    rewrite (substring_all (S (String.length s)) s) by lia. apply IH. lia.
  - rewrite bool_decide_eq_false_2 by congruence. f_equal. apply IH. lia.
Qed.

Lemma drop_char_app c a b : drop_char c (a +:+ b) = drop_char c a +:+ drop_char c b.
Proof.
  induction a as [|x a IH]; [done|]. change (String x a +:+ b) with (String x (a +:+ b)). cbn.
  rewrite IH. by destruct (bool_decide _).
Qed.

Lemma drop_char_id c s : all_char (fun x => negb (bool_decide (x = c))) s = true -> drop_char c s = s.
Proof.
  induction s as [|x s IH]; [done|]. cbn. intros [Hx Hs]%andb_true_iff. apply negb_true_iff in Hx.
  rewrite Hx. by rewrite IH.
Qed.

(** ** Hexadecimal digits *)

Lemma hex_digit_ok d : 0 <= d < 16 -> is_lower_hex (hex_digit d) = true /\ hex_value (hex_digit d) = Some d.
Proof.
  intros Hd. assert (d ∈ [0;1;2;3;4;5;6;7;8;9;10;11;12;13;14;15]) as Hin.
  { rewrite !elem_of_cons, elem_of_nil. lia. }
  revert d Hin Hd. apply (Forall_forall (fun d => 0 <= d < 16 -> _)). repeat constructor.
Qed.

Lemma hex_digits_ok n z : all_char is_lower_hex (hex_digits n z) = true /\ String.length (hex_digits n z) = n.
Proof.
  revert z. induction n as [|n IH]; intros z; [done|]. cbn [hex_digits].
  destruct (IH (z / 16)) as [H1 H2]. rewrite all_char_app, H1, length_string_app, H2. cbn.
  destruct (hex_digit_ok (z mod 16)) as [-> _]; [apply Z.mod_pos_bound; lia|]. split; [done|lia].
Qed.

Lemma read_hex_app after acc s d x : 0 <= d < 16 -> read_hex after acc s = Some x \/ (s = "" /\ x = acc) ->
  read_hex after acc (s +:+ String (hex_digit d) "") = Some (16 * x + d).
Proof.
  intros Hd. destruct (hex_digit_ok d Hd) as [_ Hv].
  revert after acc. induction s as [|c s IH]; intros after acc Hs.
  - assert (x = acc) as -> by (cbn in Hs; destruct after; naive_solver). change (read_hex after acc (String (hex_digit d) "") = Some (16 * acc + d)).
    cbn [read_hex]. by rewrite Hv.
  - change (String c s +:+ ?t) with (String c (s +:+ t)). destruct Hs as [Hs|[? _]]; [|done]. cbn in *.
    destruct (hex_value c); [apply IH; by left|]. destruct (after && _); [|done].
    apply IH. by left.
Qed.

Lemma read_hex_digits n z : 0 <= z < 16 ^ Z.of_nat (S n) -> read_hex false 0 (hex_digits (S n) z) = Some z.
Proof.
  revert z. induction n as [|n IH]; intros z Hz; cbn [hex_digits].
  - rewrite (read_hex_app _ _ _ _ 0); [|apply Z.mod_pos_bound; lia|by right].
    f_equal. change (16 ^ Z.of_nat 1) with 16 in Hz. rewrite Z.mod_small; lia.
  - rewrite (read_hex_app _ _ _ _ (z / 16)); [|apply Z.mod_pos_bound; lia|left].
    + f_equal. pose proof (Z_div_mod_eq_full z 16). lia.
    + apply IH. rewrite Nat2Z.inj_succ, Z.pow_succ_r in Hz by lia.
      split; [apply Z.div_pos; lia|]. apply Z.div_lt_upper_bound; lia.
Qed.

(** *** Either case *)

Definition is_hex (c : ascii) : bool := is_lower_hex (ascii_lower c).
Definition is_hex_or_dash (c : ascii) : bool := is_hex c || bool_decide (c = "-"%char).

Lemma all_char_lower p s : all_char p (lower s) = all_char (fun c => p (ascii_lower c)) s.
Proof. induction s as [|c s IH]; [done|]. cbn. by rewrite <- IH. Qed.

Lemma read_hex_lower after acc s : read_hex after acc (lower s) = read_hex after acc s.
Proof.
  revert after acc. induction s as [|c s IH]; intros after acc; [done|].
  change (lower (String c s)) with (String (ascii_lower c) (lower s)). cbn [read_hex].
  assert (hex_value (ascii_lower c) = hex_value c) as ->.
  { pose proof (ascii_all (fun c => bool_decide (hex_value (ascii_lower c) = hex_value c))) as Ha.
    specialize (Ha ltac:(vm_compute; reflexivity) c). by apply bool_decide_eq_true in Ha. }
  assert (bool_decide (ascii_lower c = "_"%char) = bool_decide (c = "_"%char)) as ->.
  { pose proof (ascii_all (fun c => eqb (bool_decide (ascii_lower c = "_"%char)) (bool_decide (c = "_"%char)))) as Ha.
    specialize (Ha ltac:(vm_compute; reflexivity) c). by apply eqb_prop in Ha. }
  destruct (hex_value c); [apply IH|]. destruct (after && _); [apply IH|done].
Qed.

Lemma length_lower s : String.length (lower s) = String.length s.
Proof. induction s as [|c s IH]; [done|]. cbn. by rewrite <- IH. Qed.

Lemma drop_dash_lower s : lower (drop_char "-" s) = drop_char "-" (lower s).
Proof.
  induction s as [|c s IH]; [done|]. cbn. change (map_string ascii_lower ?x) with (lower x).
  assert (bool_decide (ascii_lower c = "-"%char) = bool_decide (c = "-"%char)) as ->.
  { pose proof (ascii_all (fun c => eqb (bool_decide (ascii_lower c = "-"%char)) (bool_decide (c = "-"%char)))) as Ha.
    specialize (Ha ltac:(vm_compute; reflexivity) c). by apply eqb_prop in Ha. }
  destruct (bool_decide _); [done|]. cbn. by rewrite <- IH.
Qed.

Lemma int_base16_hex s : all_char is_hex s = true -> (2 <= String.length s)%nat ->
  int_base16 s = read_hex false 0 s.
Proof.
  intros Hh Hl. unfold int_base16. rewrite strip_id.
  2:{ apply all_char_any. revert Hh. apply all_char_weaken.
      apply (ascii_implies is_hex (fun c => negb (is_py_space c))). vm_compute. reflexivity. }
  destruct s as [|a [|b s]]; cbn in Hl; [lia..|].
  cbn in Hh. apply andb_true_iff in Hh as [Ha [Hb _]%andb_true_iff].
  assert (forall r, (match String a (String b s) with String "-" s => (true, s) | String "+" s => (false, s) | _ => (false, String a (String b s)) end) = r ->
    r = (false, String a (String b s))) as Hsign.
  { intros r <-. destruct a as [[] [] [] [] [] [] [] []]; try done; vm_compute in Ha; discriminate. }
  rewrite (Hsign _ eq_refl).
  assert (drop_prefix_0x (String a (String b s)) = (String a (String b s), false)) as ->.
  { unfold drop_prefix_0x. destruct a as [[] [] [] [] [] [] [] []]; try done.
    rewrite !bool_decide_eq_false_2; [done|intros ->; vm_compute in Hb; discriminate..]. }
  destruct (read_hex false 0 _); done.
Qed.

(** ** The text of a UUID *)

Lemma all_char_substring p n m s : all_char p s = true -> all_char p (String.substring n m s) = true.
Proof.
  revert n m. induction s as [|c s IH]; intros [|n] [|m]; cbn; try done.
  - intros [-> Hs]%andb_true_iff. by apply IH.
  - intros [_ Hs]%andb_true_iff. by apply IH.
  - intros [_ Hs]%andb_true_iff. by apply IH.
Qed.

Lemma uuid_text_dashes z : drop_char "-" (uuid_text z) = hex_digits 32 z.
Proof.
  unfold uuid_text. set (h := hex_digits 32 z).
  destruct (hex_digits_ok 32 z) as [Hh Hl]. fold h in Hh, Hl.
  assert (forall n m, drop_char "-" (String.substring n m h) = String.substring n m h) as Hd.
  { intros n m. apply drop_char_id, all_char_substring. revert Hh. apply all_char_weaken.
    by apply lower_hex_other. }
  rewrite !drop_char_app, !Hd. change (drop_char "-" "-") with "".
  repeat match goal with |- context ["" +:+ ?t] => change ("" +:+ t) with t end.
  pose proof (substring_add 16 4 12 h) as E1. pose proof (substring_add 12 4 16 h) as E2.
  pose proof (substring_add 8 4 20 h) as E3. pose proof (substring_add 0 8 24 h) as E4.
  cbn [Nat.add] in E1, E2, E3, E4. rewrite E1, E2, E3, E4. apply substring_all. by rewrite Hl.
Qed.

Lemma uuid_text_chars z : all_char (fun c => is_lower_hex c || bool_decide (c = "-"%char)) (uuid_text z) = true.
Proof.
  unfold uuid_text. destruct (hex_digits_ok 32 z) as [Hh _].
  assert (forall n m, all_char (fun c => is_lower_hex c || bool_decide (c = "-"%char))
    (String.substring n m (hex_digits 32 z)) = true) as Hs.
  { intros n m. apply all_char_substring. revert Hh. apply all_char_weaken. by intros c ->. }
  by rewrite !all_char_app, !Hs.
Qed.

Lemma lstrip_braces_id s : all_char (fun c => negb (is_brace c)) s = true -> lstrip_braces s = s.
Proof. destruct s as [|c s]; [done|]. cbn. intros [Hc _]%andb_true_iff. apply negb_true_iff in Hc. by rewrite Hc. Qed.

Lemma rstrip_braces_id s : all_char (fun c => negb (is_brace c)) s = true -> rstrip_braces s = s.
Proof.
  induction s as [|c s IH]; [done|]. cbn. intros [Hc Hs]%andb_true_iff. apply negb_true_iff in Hc.
  rewrite IH by done. destruct s; by rewrite ?Hc.
Qed.

Lemma parse_uuid_text t z : 0 <= z < 2 ^ 128 -> lower t = uuid_text z -> parse_uuid t = Some z.
Proof.
  intros Hz Ht.
  assert (all_char is_hex_or_dash t = true) as Hc.
  { pose proof (uuid_text_chars z) as Hu. rewrite <- Ht, all_char_lower in Hu. revert Hu. apply all_char_weaken.
    apply (ascii_implies (fun c => is_lower_hex (ascii_lower c) || bool_decide (ascii_lower c = "-"%char)) is_hex_or_dash).
    vm_compute. reflexivity. }
  assert (forall q, forallb (fun n => implb (is_hex_or_dash (ascii_of_nat n)) (q (ascii_of_nat n))) (seq 0 256) = true ->
    all_char q t = true) as Hq.
  { intros q H. revert Hc. apply all_char_weaken. by apply (ascii_implies is_hex_or_dash q). }
  unfold parse_uuid, without.
  rewrite (remove_all_id _ "u" "rn:"), (remove_all_id _ "u" "uid:") by (apply Hq; vm_compute; reflexivity).
  rewrite lstrip_braces_id, rstrip_braces_id by (apply Hq; vm_compute; reflexivity).
  rewrite (remove_char _ "-") by done.
  assert (lower (drop_char "-" t) = hex_digits 32 z) as Hd by (by rewrite drop_dash_lower, Ht, uuid_text_dashes).
  destruct (hex_digits_ok 32 z) as [Hh Hl].
  assert (String.length (drop_char "-" t) = 32%nat) as Hlen by (by rewrite <- length_lower, Hd).
  rewrite bool_decide_eq_true_2 by done. cbn [negb].
  rewrite int_base16_hex; [| |lia].
  - rewrite <- read_hex_lower, Hd, read_hex_digits by (change (16 ^ Z.of_nat 32) with (2 ^ 128); lia).
    cbn [mbind option_bind]. destruct (Z.leb_spec 0 z), (Z.ltb_spec z (2 ^ 128)); try lia. done.
  - rewrite <- Hd, all_char_lower in Hh. exact Hh.
Qed.

Lemma uuid_text_lower z : lower (uuid_text z) = uuid_text z.
Proof.
  pose proof (uuid_text_chars z) as Hc. induction (uuid_text z) as [|c s IH]; [done|].
  cbn in Hc. apply andb_true_iff in Hc as [Hc Hs].
  change (lower (String c s)) with (String (ascii_lower c) (lower s)). rewrite IH by done. f_equal.
  pose proof (ascii_implies (fun c => is_lower_hex c || bool_decide (c = "-"%char))
    (fun c => bool_decide (ascii_lower c = c))) as Ha.
  specialize (Ha ltac:(vm_compute; reflexivity) c Hc). by apply bool_decide_eq_true in Ha.
Qed.

(** a claim is accepted as a UUID exactly when it is, up to the case of
    its digits, the 36-character text of a number below 2^128, and the
    accepted value is that text in lower case: printing a UUID and reading
    it back, in either case, is the identity. *)
Theorem canonical_uuid_roundtrip value claim_name s :
  _canonical_uuid value claim_name = Ok s <->
  exists t z, value = JStr t /\ 0 <= z < 2 ^ 128 /\ lower t = uuid_text z /\ s = uuid_text z.
Proof.
  split.
  - destruct value as [| | | |t| |]; cbn; try done.
    destruct (parse_uuid t) as [z|] eqn:Ep; [|done]. case_bool_decide as Et; [|done]. intros [= <-].
    exists t, z. split; [done|]. split; [|by rewrite Et].
    unfold parse_uuid in Ep. destruct (negb _); [done|].
    apply bind_Some in Ep as (z' & _ & Ep).
    destruct (Z.leb_spec 0 z'), (Z.ltb_spec z' (2 ^ 128)); try done. injection Ep as <-. lia.
  - intros (t & z & -> & Hz & Ht & ->). cbn. rewrite (parse_uuid_text t z) by done.
    by rewrite bool_decide_eq_true_2.
Qed.

Lemma canonical_uuid_roundtrip_witness :
  _canonical_uuid (JStr "C0FFEE00-0000-4000-8000-00000000000A") "jti" = Ok "c0ffee00-0000-4000-8000-00000000000a" /\
  exists t z, JStr "C0FFEE00-0000-4000-8000-00000000000A" = JStr t /\ 0 <= z < 2 ^ 128 /\ lower t = uuid_text z /\
    "c0ffee00-0000-4000-8000-00000000000a" = uuid_text z.
Proof.
  assert (_canonical_uuid (JStr "C0FFEE00-0000-4000-8000-00000000000A") "jti" = Ok "c0ffee00-0000-4000-8000-00000000000a") as E
    by (vm_compute; reflexivity).
  split; [exact E|]. by apply canonical_uuid_roundtrip in E.
Defined.

(** ** What a verified token has been checked for *)

Section VerifierProofs.
Context `{PyJWT}.

Lemma refresh_cases k at_ fetched k' r : _refresh k at_ fetched = (k', r) ->
  (exists e, r = Raise e /\ k' = k) \/
  (r = Ok tt /\ jk_loaded_at k' = Some at_ /\ jk_cache_ttl k' = jk_cache_ttl k /\
   exists payload, fetched = Some payload /\ parse_jwks payload = Some (jk_keys k')).
Proof.
  unfold _refresh. destruct (fetched ≫= parse_jwks) as [parsed|] eqn:E; intros [= <- <-]; [right|left; eauto].
  apply bind_Some in E as (payload & -> & Hp). split_and!; try done. by exists payload.
Qed.

(** The keys were fetched by this call or are within their lifetime. *)
Definition keys_fresh (k : JwksKeyCache) (env : environment) : Prop :=
  exists at_, jk_loaded_at k = Some at_ /\
    (at_ = en_keys_at env \/ at_ = en_keys_again_at env \/ en_keys_at env - at_ < jk_cache_ttl k).

Lemma resolve_key_Ok k kid env k' key : resolve_key k kid env = (k', Ok key) ->
  kid <> "" /\ dict_get kid (jk_keys k') = Some key /\ keys_fresh k' env.
Proof.
  unfold resolve_key. destruct (truthy kid) eqn:Et; cbn [negb]; [|done].
  assert (kid <> "") as Hne by (unfold truthy in Et; by apply negb_true_iff, bool_decide_eq_false in Et).
  destruct (if stale_keys k (en_keys_at env) then _ else _) as [k1 fresh] eqn:Es.
  assert (fresh = Ok tt -> keys_fresh k1 env) as Hfresh.
  { destruct (stale_keys k (en_keys_at env)) eqn:Est.
    - destruct (refresh_cases _ _ _ _ _ Es) as [(e & -> & _)|(-> & Hl & _)]; [done|]. intros _. eexists. split; [exact Hl|]. by left.
    - injection Es as <- <-. intros _. unfold stale_keys in Est.
      destruct (jk_keys k); [done|]. destruct (jk_loaded_at k) as [at_|] eqn:El; [|done].
      exists at_. split; [done|]. right. right. lia. }
  destruct fresh as [[]|e]; [|done]. specialize (Hfresh eq_refl).
  destruct (dict_get kid (jk_keys k1)) as [key1|] eqn:Eg.
  { intros [= <- <-]. done. }
  destruct (_refresh k1 _ _) as [k2 again] eqn:Er. intros [= <- Hk].
  apply result_bind_Ok in Hk as ([] & -> & Hk). unfold known_key in Hk.
  destruct (dict_get kid (jk_keys k2)) as [key2|] eqn:Eg2; [|done]. injection Hk as <-.
  split; [done|]. split; [done|].
  destruct (refresh_cases _ _ _ _ _ Er) as [(e & ? & _)|(_ & Hl & _)]; [done|].
  eexists. split; [exact Hl|]. right. by left.
Qed.

(** The Main server said so within the lifetime of the cache, or now. *)
Definition session_known_active (c : caches) (processing_job_id : string) (env : environment) : Prop :=
  match ca_session c with
  | None => True
  | Some q =>
      (exists until, sq_active_until q !! processing_job_id = Some until /\ en_session_at env < until) \/
      (exists payload, en_session env processing_job_id = Some payload /\
         says_session_active processing_job_id payload = true)
  end.

Definition credential_known_active (c : caches) (token_jti processing_job_id : string) (env : environment) : Prop :=
  match ca_credential c with
  | None => True
  | Some q =>
      (exists until, dict_get (token_jti, processing_job_id) (cq_active_until q) = Some until /\
         en_credential_at env < until) \/
      (exists payload, en_credential env token_jti = Some payload /\
         says_credential_active token_jti processing_job_id payload = true)
  end.

Lemma check_session_Ok c job env c' : check_session c job env = (c', Ok tt) ->
  session_known_active c job env /\ ca_keys c' = ca_keys c /\ ca_credential c' = ca_credential c.
Proof.
  unfold check_session, session_known_active. destruct (ca_session c) as [q|]; [|by intros [= <-]].
  unfold session_assert_active.
  destruct (sq_active_until q !! job) as [until|] eqn:Eu.
  - destruct (Z.ltb_spec (en_session_at env) until).
    { intros [= <-]. split; [|done]. left. eauto. }
    destruct (en_session env job) as [payload|]; [|done]. destruct (says_session_active job payload) eqn:Ea; [|done].
    intros [= <-]. split; [|done]. right. eauto.
  - destruct (en_session env job) as [payload|]; [|done]. destruct (says_session_active job payload) eqn:Ea; [|done].
    intros [= <-]. split; [|done]. right. eauto.
Qed.

Lemma credential_assert_active_Ok q jti job now fetched q' :
  credential_assert_active q jti job now fetched = (q', Ok tt) ->
  (exists until, dict_get (jti, job) (cq_active_until q) = Some until /\ now < until /\ q' = q) \/
  (exists payload, fetched = Some payload /\ says_credential_active jti job payload = true).
Proof.
  unfold credential_assert_active.
  destruct (match dict_get (jti, job) (cq_active_until q) with Some until => now <? until | None => false end) eqn:Eu.
  - intros [= <-]. left. destruct (dict_get (jti, job) _) as [until|]; [|done]. exists until. split; [done|].
    split; [lia|done].
  - destruct fetched as [payload|]; [|done]. destruct (says_credential_active jti job payload) eqn:Ea; [|done].
    intros _. right. eauto.
Qed.

Lemma check_credential_Ok c jti job env c' : check_credential c jti job env = (c', Ok tt) ->
  credential_known_active c jti job env /\ ca_keys c' = ca_keys c.
Proof.
  unfold check_credential, credential_known_active. destruct (ca_credential c) as [q|]; [|by intros [= <-]].
  destruct (credential_assert_active q jti job _ _) as [q' [[]|e]] eqn:E; [|done]. intros [= <-]. split; [|done].
  apply credential_assert_active_Ok in E as [(until & ? & ? & _)|?]; [left; eauto|by right].
Qed.

(** What the two [verify] have in common. *)
Lemma verify_with_Ok {S} what required (scope_of : claims -> result session_error S) active v c token env c' scope :
  verify_with what required scope_of active v c token env = (c', Ok scope) ->
  exists alg kid keys key decoded,
    get_unverified_header token = Some (alg, Some kid) /\ is_text alg "RS256" = true /\
    dict_get kid (jk_keys keys) = Some key /\ keys_fresh keys env /\
    jwt_decode token key (vc_issuer v) (vc_audience v) (vc_leeway_sec v) required (en_now_s env) = Some decoded /\
    scope_of decoded = Ok scope /\
    active (mkCaches keys (ca_session c) (ca_credential c)) scope env = (c', Ok tt).
Proof.
  unfold verify_with. destruct (truthy token); cbn [negb]; [|done].
  destruct (get_unverified_header token) as [[alg kid]|]; [|done].
  destruct (is_text alg "RS256") eqn:Ea; cbn [negb]; [|done].
  destruct (resolve_key (ca_keys c) (default "" kid) env) as [keys [key|e]] eqn:Ek; [|done].
  apply resolve_key_Ok in Ek as (Hne & Hg & Hf).
  destruct kid as [kid|]; [|done]. cbn in Hg.
  destruct (jwt_decode _ _ _ _ _ _ _) as [decoded|] eqn:Ed; [|done].
  destruct (scope_of decoded) as [s|e] eqn:Es; [|done].
  destruct (active _ s env) as [c1 r] eqn:Eact. intros [= <- Hr].
  apply result_bind_Ok in Hr as ([] & -> & [= ->]).
  exists alg, kid, keys, key, decoded. done.
Qed.

(** C16: a token that the ingest verifier accepts has all of this: its header
    names RS256 and a key of the Main server's JWKS that was fetched within
    the lifetime of the key cache; PyJWT verified it against that key, the
    configured issuer and audience and all required claims; the scope
    returned is that of the verified claims, of the credential kind the
    token declares, and has not expired — the leeway PyJWT was given does
    not extend it; and the Main server has said, now or within the lifetime
    of the caches, that the session (and a camera's credential) is active. *)
Theorem versioned_verify_sound v c token env c' scope :
  versioned_verify v c token env = (c', Ok scope) ->
  exists unverified cfg alg kid key decoded,
    jwt_decode_unverified token = Some unverified /\
    get_unverified_header token = Some (alg, Some kid) /\ is_text alg "RS256" = true /\
    dict_get kid (jk_keys (ca_keys c')) = Some key /\ keys_fresh (ca_keys c') env /\
    match scope with
    | SessionScope s =>
        claim "credential_kind" unverified = JNull /\ vv_legacy v = Some cfg /\
        jwt_decode token key (vc_issuer cfg) (vc_audience cfg) (vc_leeway_sec cfg) LEGACY_REQUIRED_CLAIMS
          (en_now_s env) = Some decoded /\
        _scope_from_claims decoded = Ok s /\ en_now_s env < su_expires_at s /\
        session_known_active c (su_processing_job_id s) env
    | CameraScope s =>
        is_text (claim "credential_kind" unverified) "CAMERA_INGEST" = true /\ vv_camera_ingest v = Some cfg /\
        jwt_decode token key (vc_issuer cfg) (vc_audience cfg) (vc_leeway_sec cfg) CAMERA_INGEST_REQUIRED_CLAIMS
          (en_now_s env) = Some decoded /\
        _camera_ingest_scope_from_claims decoded = Ok s /\ en_now_s env < ac_expires_at s /\
        session_known_active c (ac_processing_job_id s) env /\
        credential_known_active c (ac_token_jti s) (ac_processing_job_id s) env
    end.
Proof.
  unfold versioned_verify. destruct (jwt_decode_unverified token) as [unverified|]; [|done].
  assert (forall cfg, is_text (claim "credential_kind" unverified) "CAMERA_INGEST" = true -> vv_camera_ingest v = Some cfg ->
    (let '(c1, r) := camera_verify cfg c token env in (c1, s ← r; Ok (CameraScope s))) = (c', Ok scope) ->
    exists s alg kid key decoded, scope = CameraScope s /\
      get_unverified_header token = Some (alg, Some kid) /\ is_text alg "RS256" = true /\
      dict_get kid (jk_keys (ca_keys c')) = Some key /\ keys_fresh (ca_keys c') env /\
      jwt_decode token key (vc_issuer cfg) (vc_audience cfg) (vc_leeway_sec cfg) CAMERA_INGEST_REQUIRED_CLAIMS
          (en_now_s env) = Some decoded /\
      _camera_ingest_scope_from_claims decoded = Ok s /\ en_now_s env < ac_expires_at s /\
      session_known_active c (ac_processing_job_id s) env /\
      credential_known_active c (ac_token_jti s) (ac_processing_job_id s) env) as Hcam.
  { intros cfg _ _ E. destruct (camera_verify cfg c token env) as [c1 r] eqn:Ev. injection E as <- Er.
    apply result_bind_Ok in Er as (s & -> & [= <-]).
    apply verify_with_Ok in Ev as (alg & kid & keys & key & decoded & Hh & Ha & Hg & Hf & Hd & Hs & Hact).
    unfold camera_scope_active in Hact. destruct (Z.leb_spec (ac_expires_at s) (en_now_s env)); [done|].
    destruct (check_session _ _ env) as [c2 [[]|e]] eqn:E2; [|done].
    apply check_session_Ok in E2 as (Hsess & K2 & Q2). apply check_credential_Ok in Hact as (Hcred & K1).
    unfold credential_known_active in Hcred. rewrite Q2 in Hcred. rewrite K2 in K1. cbn in *.
    exists s, alg, kid, key, decoded. rewrite K1. by split_and!. }
  destruct (claim "credential_kind" unverified) as [| | | |kind| |] eqn:Ek; try (by destruct (vv_camera_ingest v)).
  - destruct (vv_legacy v) as [l|] eqn:El; [|done].
    destruct (session_verify l c token env) as [c1 r] eqn:Ev. intros [= <- Er].
    apply result_bind_Ok in Er as (s & -> & [= <-]).
    apply verify_with_Ok in Ev as (alg & kid & keys & key & decoded & Hh & Ha & Hg & Hf & Hd & Hs & Hact).
    unfold session_scope_active in Hact. destruct (Z.leb_spec (su_expires_at s) (en_now_s env)); [done|].
    apply check_session_Ok in Hact as (Hsess & K1 & _). cbn in *.
    exists unverified, l, alg, kid, key, decoded. rewrite K1. by split_and!.
  - destruct (vv_camera_ingest v) as [cfg|] eqn:Ec; [|done]. destruct (is_text (JStr kind) "CAMERA_INGEST") eqn:Et; [|done].
    intros E. destruct (Hcam cfg eq_refl eq_refl E) as (s & alg & kid & key & decoded & -> & ?).
    exists unverified, cfg, alg, kid, key, decoded. rewrite Ek. naive_solver.
Qed.
End VerifierProofs.

(** ** The credential status cache over a history *)

Record status_call := mkStatusCall {
  sl_credential_id : string;
  sl_processing_job_id : string;
  sl_now : Z;
  sl_fetched : option json;
}.

Definition credential_call (q : CameraCredentialStatusCache) (cl : status_call) :=
  credential_assert_active q (sl_credential_id cl) (sl_processing_job_id cl) (sl_now cl) (sl_fetched cl).

Fixpoint credential_run (q : CameraCredentialStatusCache) (calls : list status_call)
    : CameraCredentialStatusCache * list (result session_error unit) :=
  match calls with
  | [] => (q, [])
  | cl :: calls => let '(q, r) := credential_call q cl in
                   let '(q, rs) := credential_run q calls in (q, r :: rs)
  end.

(** The Main server answered this call that the credential is active. *)
Definition confirms (cl : status_call) : Prop :=
  exists payload, sl_fetched cl = Some payload /\
    says_credential_active (sl_credential_id cl) (sl_processing_job_id cl) payload = true.

(** Every kept answer stems from a call among [past] that confirmed it. *)
Record credential_cache_ok (ttl : Z) (q : CameraCredentialStatusCache) (past : list status_call) : Prop := {
  cc_ttl : cq_cache_ttl q = ttl;
  cc_bound : Z.of_nat (length (cq_active_until q)) <= 1024;
  cc_NoDup : NoDup (cq_active_until q).*1;
  cc_confirmed : forall key until, dict_get key (cq_active_until q) = Some until ->
    exists cl, cl ∈ past /\ confirms cl /\ (sl_credential_id cl, sl_processing_job_id cl) = key /\
      until = sl_now cl + ttl;
}.

Lemma dict_get_tail {K V} `{EqDecision K} (d : list (K * V)) k v :
  NoDup d.*1 -> dict_get k (tail d) = Some v -> dict_get k d = Some v.
Proof.
  destruct d as [|[k0 v0] d]; [done|]. cbn. intros [Hk _]%NoDup_cons Hg.
  case_decide; [|done]. subst. exfalso. apply Hk. apply dict_get_elem in Hg.
  by apply (list_elem_of_fmap_2 fst) in Hg.
Qed.

Lemma credential_call_ok ttl q past cl q' r :
  credential_cache_ok ttl q past -> credential_call q cl = (q', r) ->
  credential_cache_ok ttl q' (past ++ [cl]) /\
  (r = Ok tt -> confirms cl \/
     exists cl0, cl0 ∈ past /\ confirms cl0 /\ sl_credential_id cl0 = sl_credential_id cl /\
       sl_processing_job_id cl0 = sl_processing_job_id cl /\ sl_now cl < sl_now cl0 + ttl).
Proof.
  intros [Ht Hb Hn Hc]. unfold credential_call, credential_assert_active.
  set (key := (sl_credential_id cl, sl_processing_job_id cl)).
  assert (forall q1, cq_cache_ttl q1 = ttl -> Z.of_nat (length (cq_active_until q1)) <= 1024 ->
    NoDup (cq_active_until q1).*1 ->
    (forall k until, dict_get k (cq_active_until q1) = Some until -> dict_get k (cq_active_until q) = Some until) ->
    credential_cache_ok ttl q1 (past ++ [cl])) as Hsub.
  { intros q1 H1 H2 H3 H4. split; [done..|]. intros k until Hk%H4. destruct (Hc _ _ Hk) as (c0 & Hin & ?).
    exists c0. split; [apply elem_of_app; by left|done]. }
  destruct (match dict_get key (cq_active_until q) with Some until => sl_now cl <? until | None => false end) eqn:Eu.
  { intros [= <- <-]. split; [by apply Hsub|]. intros _. right.
    destruct (dict_get key (cq_active_until q)) as [until|] eqn:Eg; [|done].
    destruct (Hc _ _ Eg) as (c0 & Hin & Hcf & Hkey & ->). injection Hkey as H1 H2. exists c0. split_and!; try done. lia. }
  assert (forall k until, dict_get k (dict_del key (cq_active_until q)) = Some until ->
    dict_get k (cq_active_until q) = Some until) as Hdel.
  { intros k until Hk. destruct (decide (key = k)) as [<-|Hne].
    - by rewrite dict_get_del in Hk.
    - by rewrite dict_get_del_ne in Hk. }
  pose proof (dict_del_NoDup key _ Hn) as Hnd. pose proof (dict_del_length key (cq_active_until q)) as Hlen.
  destruct (sl_fetched cl) as [payload|] eqn:Ef.
  2:{ intros [= <- <-]. split; [|done]. apply Hsub; cbn; [done|lia|done|done]. }
  destruct (says_credential_active _ _ payload) eqn:Ea; cbn [negb].
  2:{ intros [= <- <-]. split; [|done]. apply Hsub; cbn; [done|lia|done|done]. }
  assert (confirms cl) as Hcf by (exists payload; done).
  cbn [cq_active_until update cq_cache_ttl]. intros [= <- <-]. split; [|by left].
  set (d := dict_del key (cq_active_until q)) in *.
  set (kept := if 1024 <=? Z.of_nat (length d) then tail d else d).
  assert (NoDup kept.*1 /\ Z.of_nat (length kept) <= 1023 /\
    (forall k until, dict_get k kept = Some until -> dict_get k d = Some until)) as (Hk1 & Hk2 & Hk3).
  { unfold kept. destruct (Z.leb_spec 1024 (Z.of_nat (length d))); [|split_and!; [done|lia|done]].
    split_and!; [|rewrite length_tl; lia|intros k until; by apply dict_get_tail].
    destruct d as [|[k0 v0] d0]; [done|]. cbn in *. by apply NoDup_cons in Hnd as [_ ?]. }
  split; cbn.
  - done.
  - rewrite dict_set_length. case_decide; lia.
  - by auto with gc.
  - intros k until. destruct (decide (key = k)) as [<-|Hne].
    + rewrite dict_get_set. intros [= <-]. exists cl. split; [apply elem_of_app; right; by apply list_elem_of_singleton|].
      split_and!; try done. by rewrite Ht.
    + rewrite dict_get_set_ne by done. intros Hk%Hk3%Hdel. destruct (Hc _ _ Hk) as (c0 & Hin & ?).
      exists c0. split; [apply elem_of_app; by left|done].
Qed.

Lemma credential_run_ok ttl q past calls q' rs :
  credential_cache_ok ttl q past -> credential_run q calls = (q', rs) ->
  credential_cache_ok ttl q' (past ++ calls) /\
  forall i cl, calls !! i = Some cl -> rs !! i = Some (Ok tt) ->
    confirms cl \/
    exists cl0, cl0 ∈ past ++ take i calls /\ confirms cl0 /\ sl_credential_id cl0 = sl_credential_id cl /\
      sl_processing_job_id cl0 = sl_processing_job_id cl /\ sl_now cl < sl_now cl0 + ttl.
Proof.
  revert q past rs. induction calls as [|cl calls IH]; intros q past rs Hok; cbn.
  { intros [= <- <-]. rewrite app_nil_r. done. }
  destruct (credential_call q cl) as [q1 r] eqn:E1. destruct (credential_run q1 calls) as [q2 rs2] eqn:E2.
  intros [= <- <-]. destruct (credential_call_ok _ _ _ _ _ _ Hok E1) as [Hok1 H1].
  destruct (IH _ _ _ Hok1 E2) as [Hok2 H2]. split; [by rewrite <- app_assoc in Hok2|].
  intros [|i] x Hx Hr; cbn in *.
  - injection Hx as <-. injection Hr as ->. rewrite app_nil_r. by apply H1.
  - destruct (H2 i x Hx Hr) as [?|(c0 & Hin & ?)]; [by left|right]. exists c0.
    by rewrite <- app_assoc in Hin.
Qed.

(** over any sequence of checks, each with its own clock reading and
    answer, the credential cache keeps at most 1,024 answers, and every check
    that passes was confirmed by the Main server: by its own fetch, or by an
    earlier check of the same credential and job less than the cache
    lifetime before. A revoked credential is refused from then on. *)
Theorem credential_checks_confirmed url ttl timeout q0 calls q answers :
  new_CameraCredentialStatusCache url ttl timeout = Ok q0 -> credential_run q0 calls = (q, answers) ->
  Z.of_nat (length (cq_active_until q)) <= 1024 /\
  forall i cl, calls !! i = Some cl -> answers !! i = Some (Ok tt) ->
    confirms cl \/
    exists j cl0, (j < i)%nat /\ calls !! j = Some cl0 /\ confirms cl0 /\
      sl_credential_id cl0 = sl_credential_id cl /\ sl_processing_job_id cl0 = sl_processing_job_id cl /\
      sl_now cl < sl_now cl0 + ttl.
Proof.
  unfold new_CameraCredentialStatusCache. destruct (negb _); [done|]. destruct (_ || _); [done|].
  intros [= <-] Hr.
  destruct (credential_run_ok ttl _ [] _ _ _ (Build_credential_cache_ok ttl (mkCameraCredentialStatusCache ttl []) []
    eq_refl ltac:(cbn; lia) (NoDup_nil_2) ltac:(done)) Hr) as [[_ Hb _ _] H].
  split; [done|]. intros i cl Hi Ha. destruct (H i cl Hi Ha) as [?|(c0 & Hin & Hrest)]; [by left|right].
  cbn in Hin. apply list_elem_of_lookup in Hin as [j Hj]. apply lookup_take_Some in Hj as [Hj Hlt].
  exists j, c0. done.
Qed.

Definition demo_answer (active : bool) : json :=
  JObj [("credentialId", JStr "c"); ("processingJobId", JStr "j"); ("credentialKind", JStr "CAMERA_INGEST");
        ("known", JBool true); ("active", JBool active)].

Lemma credential_checks_confirmed_witness :
  exists q, credential_run (mkCameraCredentialStatusCache 10 [])
      [mkStatusCall "c" "j" 0 (Some (demo_answer true)); mkStatusCall "c" "j" 5 None;
       mkStatusCall "c" "j" 10 (Some (demo_answer false)); mkStatusCall "c" "j" 11 None]
    = (q, [Ok tt; Ok tt; Raise (SessionTokenError "Main camera credential is inactive or unknown");
           Raise (SessionTokenError "could not verify Main camera credential status")]) /\
    (confirms (mkStatusCall "c" "j" 5 None) \/
     exists j cl0, (j < 1)%nat /\
       [mkStatusCall "c" "j" 0 (Some (demo_answer true)); mkStatusCall "c" "j" 5 None;
        mkStatusCall "c" "j" 10 (Some (demo_answer false)); mkStatusCall "c" "j" 11 None] !! j = Some cl0 /\
       confirms cl0 /\ sl_credential_id cl0 = "c" /\ sl_processing_job_id cl0 = "j" /\ 5 < sl_now cl0 + 10).
Proof.
  eexists. split; [vm_compute; reflexivity|].
  destruct (credential_checks_confirmed "http://main/{credential_id}" 10 1 (mkCameraCredentialStatusCache 10 [])
    [mkStatusCall "c" "j" 0 (Some (demo_answer true)); mkStatusCall "c" "j" 5 None;
     mkStatusCall "c" "j" 10 (Some (demo_answer false)); mkStatusCall "c" "j" 11 None] _ _ eq_refl
    ltac:(vm_compute; reflexivity)) as [_ H].
  apply (H 1%nat (mkStatusCall "c" "j" 5 None)); vm_compute; reflexivity.
Defined.

(** ** The camera store *)

Inductive camera_op :=
| CameraRegister (token : string) (scope : AuthorizedCameraIngestScope) (now_s : Z)
| CameraResolve (processing_job_id camera_id : string) (now_s : Z)
| CameraAssertCurrent (scope : AuthorizedCameraIngestScope) (now_s : Z)
| CameraRevoke (processing_job_id camera_id : string)
| CameraClear.

Definition camera_step (st : ActiveCameraIngestCredentialStore) (op : camera_op) : ActiveCameraIngestCredentialStore :=
  match op with
  | CameraRegister token scope now_s => (camera_register st token scope now_s).1
  | CameraResolve job camera now_s => (camera_resolve st job camera now_s).1
  | CameraAssertCurrent scope now_s => (assert_current st scope now_s).1
  | CameraRevoke job camera => (camera_revoke st job camera).1
  | CameraClear => camera_clear st
  end.

Definition camera_store_ok (st : ActiveCameraIngestCredentialStore) : Prop :=
  forall key c, st !! key = Some c -> camera_key (cd_scope c) = key /\ cd_token c <> "".

Lemma camera_resolve_store st job camera now_s :
  (camera_resolve st job camera now_s).1 = st \/
  (camera_resolve st job camera now_s).1 = delete (job, camera) st.
Proof. unfold camera_resolve. destruct (st !! _); [destruct (_ <=? _); auto|by left]. Qed.

(** An operation keeps a key's camera claim and does not go back in time. *)
Lemma camera_step_advances st op :
  camera_store_ok st -> camera_store_ok (camera_step st op) /\
  forall key c c', st !! key = Some c -> camera_step st op !! key = Some c' ->
    ac_camera_claim_id (cd_scope c') = ac_camera_claim_id (cd_scope c) /\
    ac_issued_at (cd_scope c) <= ac_issued_at (cd_scope c').
Proof.
  intros Hok.
  assert (forall k, camera_store_ok (delete k st) /\
    forall key c c', st !! key = Some c -> delete k st !! key = Some c' ->
      ac_camera_claim_id (cd_scope c') = ac_camera_claim_id (cd_scope c) /\
      ac_issued_at (cd_scope c) <= ac_issued_at (cd_scope c')) as Hdel.
  { intros k. split.
    - intros key c [_ Hk]%lookup_delete_Some. by apply Hok.
    - intros key c c' Hc [_ Hc']%lookup_delete_Some. pose proof (eq_trans (eq_sym Hc) Hc') as [= <-]. split; [done|lia]. }
  assert (camera_store_ok st /\ forall key c c', st !! key = Some c -> st !! key = Some c' ->
      ac_camera_claim_id (cd_scope c') = ac_camera_claim_id (cd_scope c) /\
      ac_issued_at (cd_scope c) <= ac_issued_at (cd_scope c')) as Hsame.
  { split; [done|]. intros key c c' -> [= <-]. split; [done|lia]. }
  destruct op as [token scope now_s|job camera now_s|scope now_s|job camera|]; cbn.
  - unfold camera_register. destruct (truthy token) eqn:Et; cbn [negb]; [|exact Hsame].
    destruct (ac_expires_at scope <=? now_s); [exact Hsame|].
    assert (token <> "") as Hne by (unfold truthy in Et; by apply negb_true_iff, bool_decide_eq_false in Et).
    assert (forall ok : Prop, (forall c, st !! camera_key scope = Some c ->
        ac_camera_claim_id scope = ac_camera_claim_id (cd_scope c) /\ ac_issued_at (cd_scope c) <= ac_issued_at scope) ->
      camera_store_ok (<[camera_key scope := mkCredential token scope]> st) /\
      forall key c c', st !! key = Some c -> <[camera_key scope := mkCredential token scope]> st !! key = Some c' ->
        ac_camera_claim_id (cd_scope c') = ac_camera_claim_id (cd_scope c) /\
        ac_issued_at (cd_scope c) <= ac_issued_at (cd_scope c')) as Hput.
    { intros _ Hprev. split.
      - intros key c [[<- <-]|[_ Hk]]%lookup_insert_Some; [done|by apply Hok].
      - intros key c c' Hc [[<- <-]|[_ Hk]]%lookup_insert_Some; [by apply Hprev|].
        pose proof (eq_trans (eq_sym Hc) Hk) as [= <-]. split; [done|lia]. }
    destruct (st !! camera_key scope) as [c|] eqn:Eg; [|by apply (Hput True)].
    case_bool_decide as Ecl; cbn [negb]; [|exact Hsame].
    destruct (Z.ltb_spec (ac_issued_at scope) (ac_issued_at (cd_scope c))); [exact Hsame|].
    apply (Hput True). by intros ? [= <-].
  - destruct (camera_resolve_store st job camera now_s) as [->| ->]; [exact Hsame|apply Hdel].
  - unfold assert_current.
    pose proof (camera_resolve_store st (ac_processing_job_id scope) (ac_camera_id scope) now_s) as Hr.
    destruct (camera_resolve st _ _ now_s) as [st1 r]. cbn in *.
    destruct Hr as [->| ->]; [exact Hsame|apply Hdel].
  - apply Hdel.
  - assert (forall key (c : credential AuthorizedCameraIngestScope), camera_clear st !! key = Some c -> False) as Hemp
      by (intros key c Hk; by pose proof (eq_trans (eq_sym (lookup_empty (M := gmap (string * string)) key)) Hk)).
    split; [intros key c Hk|intros key c c' _ Hk]; by destruct (Hemp key _ Hk).
Qed.

(** [assert_current] passes exactly the scope the store holds, unexpired. *)
Lemma assert_current_iff st scope now_s :
  (assert_current st scope now_s).2 = Ok tt <->
  exists token, st !! camera_key scope = Some (mkCredential token scope) /\ now_s < ac_expires_at scope.
Proof.
  unfold assert_current, camera_resolve, camera_key.
  destruct (st !! (ac_processing_job_id scope, ac_camera_id scope)) as [[token s]|]; cbn.
  2:{ split; [done|]. by intros (? & ? & _). }
  destruct (Z.leb_spec (ac_expires_at s) now_s); cbn.
  { split; [done|]. intros (? & [= _ ->] & ?). lia. }
  unfold raise_unless. case_bool_decide as Es; cbn.
  - subst. split; [|done]. intros _. by exists token.
  - split; [done|]. intros (? & [= _ ->] & _). done.
Qed.

(** ** A concrete PyJWT *)

Definition demo_uuid : string := "c0ffee00-0000-4000-8000-00000000000a".

Definition demo_claims : claims :=
  [("credential_kind", JStr "CAMERA_INGEST"); ("sub", JStr "operator"); ("tenant_id", JStr demo_uuid);
   ("site_id", JStr demo_uuid); ("capture_session_id", JStr demo_uuid); ("processing_job_id", JStr demo_uuid);
   ("profile_digest", JStr "0123456789abcdef0123456789abcdef0123456789abcdef0123456789abcdef");
   ("camera_claim_id", JStr demo_uuid); ("camera_id", JStr demo_uuid); ("device_id", JStr "cam-1");
   ("iat", JInt 100); ("exp", JInt 200); ("jti", JStr demo_uuid)].

(** One token, signed with the key "k1". *)
Definition demo_jwt : PyJWT := {|
  PyJWK := string;
  from_dict c := match claim "kid" c with JStr s => Some s | _ => None end;
  get_unverified_header t := if String.eqb t "token" then Some (JStr "RS256", Some "k1") else None;
  jwt_decode t key issuer audience leeway required now_s :=
    if String.eqb t "token" && String.eqb key "k1" && String.eqb issuer "main" && String.eqb audience "stream" &&
       (now_s <? 200 + leeway) then Some demo_claims else None;
  jwt_decode_unverified t := if String.eqb t "token" then Some demo_claims else None;
|}.

Definition demo_jwks : json :=
  JObj [("keys", JList [JObj [("kid", JStr "k1"); ("kty", JStr "RSA"); ("alg", JStr "RS256")]])].

Definition demo_environment (now_s : Z) : environment :=
  mkEnvironment now_s 0 (Some demo_jwks) 0 None 0
    (fun job => Some (JObj [("processingJobId", JStr job); ("known", JBool true); ("active", JBool true)])) 0
    (fun jti => Some (JObj [("credentialId", JStr jti); ("processingJobId", JStr demo_uuid);
       ("credentialKind", JStr "CAMERA_INGEST"); ("known", JBool true); ("active", JBool true)])).

Definition demo_verifier : versioned_verifier := mkVersionedVerifier None (Some (mkVerifierConfig "main" "stream" 5)).

Definition demo_caches : caches (H := demo_jwt) :=
  mkCaches (H := demo_jwt) (mkJwksKeyCache (H := demo_jwt) 300 [] None) (Some (mkSessionStatusCache 1 ∅))
    (Some (mkCameraCredentialStatusCache 1 [])).

Lemma versioned_verify_sound_witness :
  exists c' s, versioned_verify (H := demo_jwt) demo_verifier demo_caches "token" (demo_environment 150)
      = (c', Ok (CameraScope s)) /\ ac_device_id s = "cam-1" /\ 150 < ac_expires_at s /\
    credential_known_active (H := demo_jwt) demo_caches (ac_token_jti s) (ac_processing_job_id s) (demo_environment 150).
Proof.
  assert (exists c' s, versioned_verify (H := demo_jwt) demo_verifier demo_caches "token" (demo_environment 150)
      = (c', Ok (CameraScope s)) /\ ac_device_id s = "cam-1") as (c' & s & E & Hd)
    by (vm_compute; eexists _, _; split; reflexivity).
  destruct (versioned_verify_sound (H := demo_jwt) _ _ _ _ _ _ E)
    as (unverified & cfg & alg & kid & key & decoded & _ & _ & _ & _ & _ & _ & _ & _ & _ & He & _ & Hc).
  exists c', s. split; [exact E|]. split; [exact Hd|]. split; [exact He|exact Hc].
Defined.

(** The leeway does not keep an expired credential alive. *)
Example leeway_ignored :
  (versioned_verify (H := demo_jwt) demo_verifier demo_caches "token" (demo_environment 202)).2 =
  Raise (SessionTokenError "camera ingest credential is expired").
Proof. vm_compute. reflexivity. Qed.

(** An expired session credential that nothing has resolved since still
    refuses its renewal: [register] compares with it before any expiry. *)
Lemma expired_credential_blocks_renewal st token old new now_s :
  st !! su_processing_job_id new = Some old -> cd_scope old <> new ->
  su_expires_at (cd_scope old) <= now_s < su_expires_at new -> token <> "" ->
  session_register st token new now_s =
    (st, Raise (SessionTokenError "processing job credential scope cannot be replaced")).
Proof.
  intros Hold Hne Hexp Ht. unfold session_register, truthy.
  rewrite (bool_decide_eq_false_2 (token = "")) by done. cbn [negb].
  destruct (Z.leb_spec (su_expires_at new) now_s); [lia|]. rewrite Hold.
  by rewrite bool_decide_eq_false_2.
Qed.
