(* ===== verification/Config.v ===== *)
(** * Configuration values

    The readers of environment variables in src/app/core/env.py, the relay
    mode of src/app/core/relay.py and the phone subscriptions of
    src/app/core/phone_alerts.py. The environment is a map; [RuntimeError] is
    the error the readers raise. *)

From Stdlib Require Import Ascii.
From S2P Require Import Prelude Float64.

Inductive config_error := ConfigRuntimeError (message : string).

Abbreviation environ := (gmap string string).

(** The value, when it is set and not blank. *)
Definition set_value (env : environ) (name : string) : option string :=
  match env !! name with
  | Some raw => if truthy (strip raw) then Some raw else None
  | None => None
  end.

Definition get_required_env (env : environ) (name : string) : result config_error string :=
  match set_value env name with
  | Some raw => Ok raw
  | None => Raise (ConfigRuntimeError ("Missing required environment variable: " +:+ name))
  end.

Definition get_optional_str_env (env : environ) (name default : string) : string :=
  match set_value env name with Some raw => strip raw | None => default end.

(** [int(text)]: blanks around, a sign, digits with single underscores. *)
Fixpoint read_digits (after : bool) (acc : Z) (s : string) : option Z :=
  match s with
  | EmptyString => if after then Some acc else None
  | String c s =>
      match decimal_digit c with
      | Some d => read_digits true (10 * acc + d) s
      | None => if after && bool_decide (c = "_"%char) then read_digits false acc s else None
      end
  end.

Definition py_int (text : string) : option Z :=
  match strip text with
  | String "-" s => Z.opp <$> read_digits false 0 s
  | String "+" s => read_digits false 0 s
  | s => read_digits false 0 s
  end.

Definition get_optional_int_env (env : environ) (name : string) (default : Z) : result config_error Z :=
  match set_value env name with
  | None => Ok default
  | Some raw =>
      match py_int raw with
      | Some z => Ok z
      | None => Raise (ConfigRuntimeError ("Invalid int value for " +:+ name +:+ ": " +:+ raw))
      end
  end.

Definition invalid_float (name raw : string) : config_error :=
  ConfigRuntimeError ("Invalid float value for " +:+ name +:+ ": " +:+ raw).

Definition get_float_env (env : environ) (name : string) : result config_error float64 :=
  raw ← get_required_env env name;
  match py_float raw with Some x => Ok x | None => Raise (invalid_float name raw) end.

Definition get_optional_float_env (env : environ) (name : string) (default : float64) : result config_error float64 :=
  match set_value env name with
  | None => Ok default
  | Some raw => match py_float raw with Some x => Ok x | None => Raise (invalid_float name raw) end
  end.

Definition get_optional_bool_env (env : environ) (name : string) (default : bool) : result config_error bool :=
  match set_value env name with
  | None => Ok default
  | Some raw =>
      let normalized := lower (strip raw) in
      if bool_decide (normalized ∈ ["1"; "true"; "yes"; "on"]) then Ok true
      else if bool_decide (normalized ∈ ["0"; "false"; "no"; "off"]) then Ok false
      else Raise (ConfigRuntimeError ("Invalid bool value for " +:+ name +:+ ": " +:+ raw))
  end.

(** [[item.strip() for item in s.split(c) if item.strip()]]. *)
Definition split_items (c : ascii) (s : string) : list string :=
  filter (fun item => truthy item = true) (strip <$> split_char c s).

Definition get_optional_csv_env (env : environ) (name : string) (default : option (list string)) : list string :=
  match set_value env name with
  | None => match default with Some l => l | None => [] end
  | Some raw => split_items "," raw
  end.

(** ** The relay mode *)

Definition STREAM_RELAY_MODE_OFF : string := "off".
Definition STREAM_RELAY_MODE_RAW : string := "raw".
Definition STREAM_RELAY_MODE_FRAME_SET : string := "frame_set".

Definition VALID_STREAM_RELAY_MODES : list string :=
  [STREAM_RELAY_MODE_OFF; STREAM_RELAY_MODE_RAW; STREAM_RELAY_MODE_FRAME_SET].

Definition normalize_stream_relay_mode (mode : string) : result config_error string :=
  let normalized := lower (strip mode) in
  if negb (bool_decide (normalized ∈ VALID_STREAM_RELAY_MODES))
  then Raise (ConfigRuntimeError "STREAM_RELAY_MODE must be one of: off, raw, frame_set")
  else Ok normalized.

Definition resolve_stream_relay_mode (configured_mode : string) (raw_relay_enabled frame_set_relay_enabled : bool)
    : result config_error string :=
  if truthy (strip configured_mode) then normalize_stream_relay_mode configured_mode
  else if frame_set_relay_enabled then Ok STREAM_RELAY_MODE_FRAME_SET
  else if raw_relay_enabled then Ok STREAM_RELAY_MODE_RAW
  else Ok STREAM_RELAY_MODE_OFF.

(** ** Phone subscriptions *)

Fixpoint unique_items (seen l : list string) : list string :=
  match l with
  | [] => []
  | x :: l => if bool_decide (x ∈ seen) then unique_items seen l else x :: unique_items (x :: seen) l
  end.

(** [s.split(c, 1)] when [c] occurs. *)
Fixpoint split_once (c : ascii) (s : string) : option (string * string) :=
  match s with
  | EmptyString => None
  | String x s =>
      if ascii_dec x c then Some ("", s)
      else '(head, rest) ← split_once c s; Some (String x head, rest)
  end.

Definition parse_phone_entry (entry : string) : result config_error (string * list string) :=
  let parts := match split_once "=" entry with Some p => Some p | None => split_once ":" entry end in
  match parts with
  | None => Raise (ConfigRuntimeError "PHONE_ALERT_SUBSCRIPTIONS entries must use phone_id=camera1,camera2")
  | Some (phone_id, camera_list) =>
      let phone_id := strip phone_id in
      let camera_ids := unique_items [] (split_items "," camera_list) in
      if negb (truthy phone_id) || bool_decide (camera_ids = [])
      then Raise (ConfigRuntimeError
             "PHONE_ALERT_SUBSCRIPTIONS entries require a phone id and at least one camera id")
      else Ok (phone_id, camera_ids)
  end.

Fixpoint parse_phone_entries (entries : list string) (subscriptions : list (string * list string))
    : result config_error (list (string * list string)) :=
  match entries with
  | [] => Ok subscriptions
  | entry :: entries =>
      '(phone_id, camera_ids) ← parse_phone_entry entry;
      parse_phone_entries entries (dict_set phone_id camera_ids subscriptions)
  end.

Definition parse_phone_alert_subscriptions (raw_value : option string)
    : result config_error (list (string * list string)) :=
  match raw_value with
  | Some raw => if truthy (strip raw) then parse_phone_entries (split_items ";" raw) [] else Ok []
  | None => Ok []
  end.

Definition append_new (l : list string) (x : string) : list string :=
  if bool_decide (x ∈ l) then l else l ++ [x].

Definition resolve_phone_alert_camera_device_ids (phone_device_ids : list string)
    (explicit_camera_device_ids : option (list string)) (subscription_mapping : option (list (string * list string)))
    : list string :=
  let camera_ids := foldl (fun l x => if truthy x then append_new l x else l) []
                      (default [] explicit_camera_device_ids) in
  let mapping := default [] subscription_mapping in
  let camera_ids := foldl (fun l phone_id => foldl append_new l (default [] (dict_get phone_id mapping)))
                      camera_ids phone_device_ids in
  if negb (bool_decide (camera_ids = [])) then camera_ids else unique_items [] phone_device_ids.

(** ** What the readers return *)

(** A mode is one of the three, whatever the environment says. *)
Lemma resolve_mode_valid configured raw frame_set mode :
  resolve_stream_relay_mode configured raw frame_set = Ok mode -> mode ∈ VALID_STREAM_RELAY_MODES.
Proof.
  unfold resolve_stream_relay_mode, normalize_stream_relay_mode.
  destruct (truthy _); [case_bool_decide; [|done]; by intros [= <-]|].
  destruct frame_set, raw; intros [= <-]; unfold VALID_STREAM_RELAY_MODES; set_solver.
Qed.

Lemma elem_of_unique_items seen l x : x ∈ unique_items seen l <-> x ∈ l /\ x ∉ seen.
Proof.
  revert seen. induction l as [|y l IH]; intros seen; cbn; [set_solver|].
  case_bool_decide as Hy; [rewrite IH|rewrite elem_of_cons, IH]; [set_solver|].
  destruct (decide (x = y)) as [->|]; set_solver.
Qed.

Lemma unique_items_NoDup seen l : NoDup (unique_items seen l).
Proof.
  revert seen. induction l as [|y l IH]; intros seen; cbn; [constructor|].
  case_bool_decide; [done|]. constructor; [|done]. rewrite elem_of_unique_items. set_solver.
Qed.

Lemma append_new_spec l x : (forall y, y ∈ append_new l x <-> y ∈ l \/ y = x) /\ (NoDup l -> NoDup (append_new l x)).
Proof.
  unfold append_new. case_bool_decide as Hx; (split; [set_solver|]); [done|].
  intros Hl. apply NoDup_app. split; [done|]. split; [set_solver|apply NoDup_singleton].
Qed.

(** The cameras of a phone never repeat, and there are some whenever the
    phone names a device. *)
Lemma resolve_cameras_nonempty phones explicit mapping :
  NoDup (resolve_phone_alert_camera_device_ids phones explicit mapping) /\
  (phones <> [] -> resolve_phone_alert_camera_device_ids phones explicit mapping <> []).
Proof.
  unfold resolve_phone_alert_camera_device_ids.
  set (l1 := foldl (fun l x => if truthy x then append_new l x else l) [] _).
  set (l2 := foldl _ l1 phones).
  assert (NoDup l1) as H1.
  { unfold l1. generalize (default [] explicit) as l. assert (NoDup (@nil string)) as Hn by constructor.
    revert Hn. generalize (@nil string) as acc. intros acc Hn l. revert acc Hn.
    induction l as [|x l IH]; intros acc Hn; cbn; [done|]. apply IH. destruct (truthy x); [|done]. by apply append_new_spec. }
  assert (forall cs acc, NoDup acc -> NoDup (foldl append_new acc cs)) as H2.
  { induction cs as [|x cs IH]; intros acc Hn; cbn; [done|]. apply IH. by apply append_new_spec. }
  assert (NoDup l2) as H3.
  { unfold l2. revert H1. generalize l1 as acc. clear l2. induction phones as [|p ps IH]; intros acc Hn; cbn; [done|].
    apply IH. by apply H2. }
  case_bool_decide as He; cbn [negb]; split; try done; [apply unique_items_NoDup|].
  intros Hne. destruct phones as [|p ps]; [done|]. cbn. rewrite bool_decide_eq_false_2 by set_solver. done.
Qed.
