(* ===== verification/StreamState.v ===== *)
(** * Stream state

    src/app/services/stream/state.py: the latest frame and the counters of
    each camera, for the monitoring routes. The deques keep 300 entries; a
    copy of a camera is the record itself. *)

From S2P Require Import Prelude.

Record StreamFrameState := mkStreamFrameState {
  lf_frame_id : option Z;
  lf_device_id : string;
  lf_timestamp : Z;
  lf_sequence : option Z;
  lf_file_path : option string;
  lf_content_type : string;
  lf_image_bytes_size : Z;
  lf_received_at_ms : Z;
  lf_archive_state : string;
  lf_archive_error : option string;
}.

#[export] Instance StreamFrameState_settable : Settable StreamFrameState := fun x => mkStreamFrameState
  (lf_frame_id x) (lf_device_id x) (lf_timestamp x) (lf_sequence x) (lf_file_path x)
  (lf_content_type x) (lf_image_bytes_size x) (lf_received_at_ms x) (lf_archive_state x)
  (lf_archive_error x).

#[export] Instance StreamFrameState_eq_dec : EqDecision StreamFrameState.
Proof. solve_decision. Defined.


Record CameraStreamState := mkCameraStreamState {
  cam_device_id : string;
  cam_latest_frame : option StreamFrameState;
  cam_frame_count : Z;
  cam_sequence_gap_count : Z;
  cam_last_sequence : option Z;
  cam_recent_timestamps_ms : list Z;
  cam_recent_received_at_ms : list Z;
}.

#[export] Instance CameraStreamState_settable : Settable CameraStreamState := fun x => mkCameraStreamState
  (cam_device_id x) (cam_latest_frame x) (cam_frame_count x) (cam_sequence_gap_count x)
  (cam_last_sequence x) (cam_recent_timestamps_ms x) (cam_recent_received_at_ms x).

#[export] Instance CameraStreamState_eq_dec : EqDecision CameraStreamState.
Proof. solve_decision. Defined.


(** The cameras in the order their first frames came. *)
Definition StreamState := list (string * CameraStreamState).

Definition recent_maxlen : Z := 300.

Definition new_CameraStreamState (device_id : string) : CameraStreamState :=
  mkCameraStreamState device_id None 0 0 None [] [].

(** The gap to the last sequence number, before it is replaced. *)
Definition sequence_gap (last_sequence sequence : option Z) : Z :=
  match sequence, last_sequence with
  | Some n, Some last => if last + 1 <? n then n - last - 1 else 0
  | _, _ => 0
  end.

Definition update_camera (camera : CameraStreamState) (latest : StreamFrameState) : CameraStreamState :=
  camera <| cam_sequence_gap_count ::= Z.add (sequence_gap (cam_last_sequence camera) (lf_sequence latest)) |>
         <| cam_last_sequence ::= fun last => match lf_sequence latest with Some n => Some n | None => last end |>
         <| cam_frame_count ::= Z.succ |>
         <| cam_recent_timestamps_ms ::= fun l => deque_append recent_maxlen l (lf_timestamp latest) |>
         <| cam_recent_received_at_ms ::= fun l => deque_append recent_maxlen l (lf_received_at_ms latest) |>
         <| cam_latest_frame := Some latest |>.

Definition update_frame (s : StreamState) (frame_id : option Z) (device_id : string) (timestamp : Z)
    (sequence : option Z) (file_path : option string) (content_type : string) (image_bytes_size : Z)
    (received_at_ms : option Z) (archive_state : string) (archive_error : option string) (clock_ms : Z)
    : StreamState * CameraStreamState :=
  let now_ms := default clock_ms received_at_ms in
  let camera := default (new_CameraStreamState device_id) (dict_get device_id s) in
  let latest := mkStreamFrameState frame_id device_id timestamp sequence file_path content_type image_bytes_size
                  now_ms archive_state archive_error in
  let camera := update_camera camera latest in
  (dict_set device_id camera s, camera).

Definition get_camera (s : StreamState) (device_id : string) : option CameraStreamState := dict_get device_id s.
Definition list_cameras (s : StreamState) : list CameraStreamState := s.*2.
Definition stream_state_clear (s : StreamState) : StreamState := [].

(** ** What a camera's record says *)

(** The frames of one camera, oldest first. *)
Fixpoint feed (camera : CameraStreamState) (frames : list StreamFrameState) : CameraStreamState :=
  match frames with [] => camera | f :: frames => feed (update_camera camera f) frames end.

(** The record counts the frames, keeps the last one and the last 300
    timestamps, whatever the frames are. *)
Lemma feed_spec device_id frames :
  let camera := feed (new_CameraStreamState device_id) frames in
  cam_frame_count camera = Z.of_nat (length frames) /\
  cam_latest_frame camera = last frames /\
  cam_recent_timestamps_ms camera = deque_trim recent_maxlen (lf_timestamp <$> frames) /\
  cam_recent_received_at_ms camera = deque_trim recent_maxlen (lf_received_at_ms <$> frames) /\
  cam_last_sequence camera = last (omap lf_sequence frames).
Proof.
  cbv zeta.
  assert (forall past camera,
    cam_frame_count camera = Z.of_nat (length past) /\ cam_latest_frame camera = last past /\
    cam_recent_timestamps_ms camera = deque_trim recent_maxlen (lf_timestamp <$> past) /\
    cam_recent_received_at_ms camera = deque_trim recent_maxlen (lf_received_at_ms <$> past) /\
    cam_last_sequence camera = last (omap lf_sequence past) ->
    let camera := feed camera frames in
    cam_frame_count camera = Z.of_nat (length (past ++ frames)) /\ cam_latest_frame camera = last (past ++ frames) /\
    cam_recent_timestamps_ms camera = deque_trim recent_maxlen (lf_timestamp <$> (past ++ frames)) /\
    cam_recent_received_at_ms camera = deque_trim recent_maxlen (lf_received_at_ms <$> (past ++ frames)) /\
    cam_last_sequence camera = last (omap lf_sequence (past ++ frames))) as H.
  { induction frames as [|f frames IH]; intros past camera Hc; cbn [feed]; [by rewrite app_nil_r|].
    replace (past ++ f :: frames) with ((past ++ [f]) ++ frames) by by rewrite <- app_assoc.
    apply IH. destruct Hc as (H1 & H2 & H3 & H4 & H5).
    rewrite last_snoc, !fmap_app, length_app. unfold update_camera.
    cbn [update cam_frame_count cam_latest_frame cam_recent_timestamps_ms cam_recent_received_at_ms cam_last_sequence].
    rewrite H1, H3, H4, H5, !deque_append_trim by (unfold recent_maxlen; lia).
    split_and!; try done; [cbn; lia|].
    rewrite omap_app. cbn. destruct (lf_sequence f) as [n|]; [by rewrite last_snoc|by rewrite app_nil_r]. }
  apply (H [] (new_CameraStreamState device_id)). by split_and!.
Qed.

(** The gap counter never decreases. *)
Lemma sequence_gap_nonneg last n : 0 <= sequence_gap last n.
Proof. unfold sequence_gap. destruct n, last; try lia. destruct (Z.ltb_spec (z0 + 1) z); lia. Qed.
