(* ===== verification/RelayClient.v ===== *)
(** * Relays to the processing server

    src/app/infrastructure/grpc/processing_relay_client.py: two services of
    the same shape, one for frames and one for frame-sets. [enqueue] puts a
    message on an unbounded queue; a worker thread streams the queue over
    one RPC after another until it is stopped. The worker is a state machine
    whose steps are the events of the thread and of the RPC it runs. *)

From S2P Require Import Prelude SyncModels.

(** The messages of src/proto/processing_relay.proto; [frame_id] is only in those of a frame-set. *)
Record RelayFrame := mkRelayFrame {
  rf_device_id : string;
  rf_timestamp_ms : Z;
  rf_sequence : Z;
  rf_content_type : string;
  rf_image_bytes : string;
  rf_file_path : option string;
}.

#[export] Instance RelayFrame_settable : Settable RelayFrame := fun x => mkRelayFrame
  (rf_device_id x) (rf_timestamp_ms x) (rf_sequence x) (rf_content_type x) (rf_image_bytes x)
  (rf_file_path x).

#[export] Instance RelayFrame_eq_dec : EqDecision RelayFrame.
Proof. solve_decision. Defined.


Record RelayFrameSetFrame := mkRelayFrameSetFrame {
  rm_frame : RelayFrame;
  rm_frame_id : option Z;
}.

#[export] Instance RelayFrameSetFrame_settable : Settable RelayFrameSetFrame := fun x => mkRelayFrameSetFrame
  (rm_frame x) (rm_frame_id x).

#[export] Instance RelayFrameSetFrame_eq_dec : EqDecision RelayFrameSetFrame.
Proof. solve_decision. Defined.


Record RelayFrameSet := mkRelayFrameSet {
  rt_frame_set_id : Z;
  rt_anchor_timestamp_ms : Z;
  rt_max_delta_ms : Z;
  rt_frames : list RelayFrameSetFrame;
}.

#[export] Instance RelayFrameSet_settable : Settable RelayFrameSet := fun x => mkRelayFrameSet
  (rt_frame_set_id x) (rt_anchor_timestamp_ms x) (rt_max_delta_ms x) (rt_frames x).

#[export] Instance RelayFrameSet_eq_dec : EqDecision RelayFrameSet.
Proof. solve_decision. Defined.


(** ** Messages

    A protobuf constructor raises [ValueError] for an integer outside the
    width of its field. *)
Inductive relay_error := ValueOutOfRange (value : Z) | RelayRuntimeError (message : string).

Definition int64 (z : Z) : result relay_error Z :=
  if (- 2 ^ 63 <=? z) && (z <? 2 ^ 63) then Ok z else Raise (ValueOutOfRange z).
Definition uint64 (z : Z) : result relay_error Z :=
  if (0 <=? z) && (z <? 2 ^ 64) then Ok z else Raise (ValueOutOfRange z).

Definition relay_frame (device_id : string) (timestamp_ms : Z) (sequence : option Z)
    (content_type image_bytes : string) (file_path : option string) : result relay_error RelayFrame :=
  timestamp_ms ← int64 timestamp_ms;
  sequence ← uint64 (default 0 sequence);
  Ok (mkRelayFrame device_id timestamp_ms sequence content_type image_bytes file_path).

Definition _build_relay_frame_set_frame (frame : StoredSyncFrame) : result relay_error RelayFrameSetFrame :=
  f ← relay_frame (sf_device_id frame) (sf_timestamp_ms frame) (sf_sequence frame) (sf_content_type frame)
        (sf_image_bytes frame) (sf_file_path frame);
  frame_id ← match sf_frame_id frame with Some id => id ← uint64 id; Ok (Some id) | None => Ok None end;
  Ok (mkRelayFrameSetFrame f frame_id).

Fixpoint result_list {E A B} (f : A -> result E B) (l : list A) : result E (list B) :=
  match l with
  | [] => Ok []
  | x :: l => y ← f x; ys ← result_list f l; Ok (y :: ys)
  end.

Definition device_leb (x y : string * StoredSyncFrame) : bool := String.leb x.1 y.1.

Definition build_relay_frame_set (frame_set : SynchronizedFrameSet) : result relay_error RelayFrameSet :=
  frames ← result_list _build_relay_frame_set_frame (sort_by device_leb (fs_frames frame_set)).*2;
  frame_set_id ← uint64 (fs_frame_set_id frame_set);
  anchor_timestamp_ms ← int64 (fs_anchor_timestamp_ms frame_set);
  max_delta_ms ← int64 (fs_max_delta_ms frame_set);
  Ok (mkRelayFrameSet frame_set_id anchor_timestamp_ms max_delta_ms frames).

(** ** What a message says of its frame-set *)

Definition fits_int64 (z : Z) : Prop := - 2 ^ 63 <= z < 2 ^ 63.
Definition fits_uint64 (z : Z) : Prop := 0 <= z < 2 ^ 64.

Definition member_encodable (f : StoredSyncFrame) : Prop :=
  fits_int64 (sf_timestamp_ms f) /\ fits_uint64 (default 0 (sf_sequence f)) /\
  forall id, sf_frame_id f = Some id -> fits_uint64 id.

Definition encodable (fs : SynchronizedFrameSet) : Prop :=
  (forall p, p ∈ fs_frames fs -> member_encodable p.2) /\ fits_uint64 (fs_frame_set_id fs) /\
  fits_int64 (fs_anchor_timestamp_ms fs) /\ fits_int64 (fs_max_delta_ms fs).

(** The message of a member: its fields unchanged, a missing sequence as 0. *)
Definition member_message (f : StoredSyncFrame) : RelayFrameSetFrame :=
  mkRelayFrameSetFrame
    (mkRelayFrame (sf_device_id f) (sf_timestamp_ms f) (default 0 (sf_sequence f)) (sf_content_type f)
       (sf_image_bytes f) (sf_file_path f)) (sf_frame_id f).

Definition returns_if {E A} (P : Prop) (a : A) (r : result E A) : Prop :=
  match r with Ok b => P /\ b = a | Raise _ => ~ P end.

Lemma returns_if_bind {E A B} P Q a (b : B) (r : result E A) f :
  returns_if P a r -> returns_if Q b (f a) -> returns_if (P /\ Q) b (r ≫= f).
Proof. unfold returns_if. destruct r as [x|e]; cbn; [intros [Hp ->]; destruct (f a)|]; naive_solver. Qed.

Lemma returns_if_iff {E A} P Q a (r : result E A) : (P <-> Q) -> returns_if P a r -> returns_if Q a r.
Proof. unfold returns_if. destruct r; naive_solver. Qed.

Lemma returns_if_map {E A B} P a (g : A -> B) (r : result E A) :
  returns_if P a r -> returns_if P (g a) (x ← r; Ok (g x)).
Proof. unfold returns_if. destruct r; naive_solver. Qed.

Lemma int64_spec z : returns_if (fits_int64 z) z (int64 z).
Proof.
  unfold int64, fits_int64, returns_if. destruct ((- 2 ^ 63 <=? z) && (z <? 2 ^ 63)) eqn:E.
  - split; [|done]. apply andb_true_iff in E. lia.
  - apply andb_false_iff in E. lia.
Qed.

Lemma uint64_spec z : returns_if (fits_uint64 z) z (uint64 z).
Proof.
  unfold uint64, fits_uint64, returns_if. destruct ((0 <=? z) && (z <? 2 ^ 64)) eqn:E.
  - split; [|done]. apply andb_true_iff in E. lia.
  - apply andb_false_iff in E. lia.
Qed.

Lemma result_list_spec {E A B} (P : A -> Prop) (g : A -> B) (f : A -> result E B) l :
  (forall x, returns_if (P x) (g x) (f x)) -> returns_if (Forall P l) (g <$> l) (result_list f l).
Proof.
  intros Hf. induction l as [|x l IH]; [by constructor|]. cbn [result_list fmap list_fmap].
  eapply returns_if_iff; [symmetry; apply Forall_cons|].
  apply (returns_if_bind _ _ (g x)); [apply Hf|].
  by apply (returns_if_map _ _ (cons (g x))).
Qed.

Lemma member_message_spec f : returns_if (member_encodable f) (member_message f) (_build_relay_frame_set_frame f).
Proof.
  unfold _build_relay_frame_set_frame, relay_frame.
  assert (forall P Q R : Prop, (P /\ Q) /\ R <-> P /\ Q /\ R) as Hassoc by naive_solver.
  eapply returns_if_iff; [apply Hassoc|]. eapply (returns_if_bind _ _ (rm_frame (member_message f))).
  - apply (returns_if_bind _ _ (sf_timestamp_ms f)); [apply int64_spec|].
    apply (returns_if_map _ _ (fun n => mkRelayFrame _ _ n _ _ _)), uint64_spec.
  - apply (returns_if_map _ _ (mkRelayFrameSetFrame _)). destruct (sf_frame_id f) as [id|].
    + eapply returns_if_iff; [|apply (returns_if_map _ _ Some), uint64_spec]. naive_solver.
    + by split.
Qed.

Lemma Forall_sorted_members (P : StoredSyncFrame -> Prop) frames :
  Forall P (sort_by device_leb frames).*2 <-> forall p, p ∈ frames -> P p.2.
Proof.
  rewrite Forall_fmap, Forall_forall. split; intros H p Hp; apply H; by rewrite sort_by_perm in *.
Qed.

Definition frame_set_message (fs : SynchronizedFrameSet) : RelayFrameSet :=
  mkRelayFrameSet (fs_frame_set_id fs) (fs_anchor_timestamp_ms fs) (fs_max_delta_ms fs)
    (member_message <$> (sort_by device_leb (fs_frames fs)).*2).

Lemma build_relay_frame_set_spec fs : returns_if (encodable fs) (frame_set_message fs) (build_relay_frame_set fs).
Proof.
  unfold build_relay_frame_set.
  apply (returns_if_iff (Forall member_encodable (sort_by device_leb (fs_frames fs)).*2 /\
    fits_uint64 (fs_frame_set_id fs) /\ fits_int64 (fs_anchor_timestamp_ms fs) /\ fits_int64 (fs_max_delta_ms fs))).
  { unfold encodable. by rewrite Forall_sorted_members. }
  apply (returns_if_bind _ _ (member_message <$> (sort_by device_leb (fs_frames fs)).*2));
    [apply result_list_spec, member_message_spec|].
  apply (returns_if_bind _ _ (fs_frame_set_id fs)); [apply uint64_spec|].
  apply (returns_if_bind _ _ (fs_anchor_timestamp_ms fs)); [apply int64_spec|].
  apply (returns_if_map _ _ (fun d => mkRelayFrameSet _ _ d _)), int64_spec.
Qed.

(** Every integer of a message fits its field. *)
Definition wire_typed (m : RelayFrameSet) : Prop :=
  fits_uint64 (rt_frame_set_id m) /\ fits_int64 (rt_anchor_timestamp_ms m) /\ fits_int64 (rt_max_delta_ms m) /\
  forall r, r ∈ rt_frames m -> fits_int64 (rf_timestamp_ms (rm_frame r)) /\ fits_uint64 (rf_sequence (rm_frame r)) /\
    forall id, rm_frame_id r = Some id -> fits_uint64 id.

Lemma encodable_typed fs : encodable fs -> wire_typed (frame_set_message fs).
Proof.
  intros (Hm & Hi & Ha & Hd). split_and!; [done..|]. intros r Hr.
  apply list_elem_of_fmap in Hr as (f & -> & Hf). apply list_elem_of_fmap in Hf as (p & -> & Hp).
  rewrite sort_by_perm in Hp. exact (Hm p Hp).
Qed.

(** ** The service *)

(** Where a worker is: at the loop's condition, in the RPC, in the RPC with
    its iterator at its end, or waiting to reconnect. A worker that returned
    is [Finished]. *)
Inductive worker_pc := AtLoop | Streaming | Exhausted | Reconnecting | Finished.

(** [rs_workers] are the threads started so far, each with its stop event;
    [rs_runtime] says which of them [runtime] is. [rs_sent] is what the
    iterators have yielded, in order; the code keeps its length,
    [sent_count]. *)
Record relay_service (A : Type) := mkRelayService {
  rs_queue : list A;
  rs_workers : list (worker_pc * bool);
  rs_runtime : option nat;
  rs_target : option string;
  rs_enabled : bool;
  rs_enqueued_count : Z;
  rs_sent : list A;
  rs_ack_received_count : Z;
  rs_error_count : Z;
  rs_last_error : option string;
  rs_last_ack_success : option bool;
  rs_last_ack_received_count : option Z;
}.
Arguments mkRelayService {A}.
Arguments rs_queue {A}.
Arguments rs_workers {A}.
Arguments rs_runtime {A}.
Arguments rs_target {A}.
Arguments rs_enabled {A}.
Arguments rs_enqueued_count {A}.
Arguments rs_sent {A}.
Arguments rs_ack_received_count {A}.
Arguments rs_error_count {A}.
Arguments rs_last_error {A}.
Arguments rs_last_ack_success {A}.
Arguments rs_last_ack_received_count {A}.

#[export] Instance relay_service_settable {A} : Settable (relay_service A) := fun x => mkRelayService
  (rs_queue x) (rs_workers x) (rs_runtime x) (rs_target x) (rs_enabled x) (rs_enqueued_count x) (rs_sent x)
  (rs_ack_received_count x) (rs_error_count x) (rs_last_error x) (rs_last_ack_success x)
  (rs_last_ack_received_count x).

Definition RELAY_TARGET_REQUIRED : string := "stream relay target is required".
Definition FRAME_SET_RELAY_TARGET_REQUIRED : string := "stream frame-set relay target is required".

Section Service.
Context {A : Type}.
Implicit Types (s : relay_service A) (x : A) (i : nat).

Definition new_relay_service : relay_service A :=
  mkRelayService [] [] None None false 0 [] 0 0 None None None.

Definition configure_relay s (target : string) (enabled : bool) : relay_service A :=
  s <| rs_target := Some target |> <| rs_enabled := enabled |>.

Definition relay_enqueue s x : relay_service A * bool :=
  if negb (rs_enabled s) then (s, false)
  else (s <| rs_queue ::= fun q => q ++ [x] |> <| rs_enqueued_count ::= Z.succ |>, true).

Definition is_alive s i : bool :=
  match rs_workers s !! i with Some (Finished, _) | None => false | Some _ => true end.

(** [runtime is not None and runtime.worker.is_alive()]. *)
Definition running s : bool := match rs_runtime s with Some i => is_alive s i | None => false end.

(** [required] is what the service says of a missing target. *)
Definition relay_start s (required : string) : relay_service A * result relay_error unit :=
  if negb (rs_enabled s) then (s, Ok tt)
  else if negb (truthy_opt (rs_target s)) then (s, Raise (RelayRuntimeError required))
  else if running s then (s, Ok tt)
  else (s <| rs_last_error := None |> <| rs_workers ::= fun ws => ws ++ [(AtLoop, false)] |>
          <| rs_runtime := Some (length (rs_workers s)) |>, Ok tt).

(** [stop] in two steps: [stop_event.set()]; and, once the join has returned,
    since the worker has ended or since its time is over, the runtime is
    forgotten. *)
Definition relay_signal_stop s : relay_service A :=
  match rs_runtime s with
  | Some i => s <| rs_workers ::= alter (fun w => (w.1, true)) i |>
  | None => s
  end.
Definition relay_forget s : relay_service A := s <| rs_runtime := None |>.

(** [clear] after its [stop]; threads that outlived it stay. *)
Definition relay_clear s : relay_service A := new_relay_service <| rs_workers := rs_workers s |>.

(** The events of a worker's thread: the loop's condition; the stub's
    construction fails; the RPC asks for the next message, which is there or
    not; the RPC's answer; its failure; the end of the wait. *)
Inductive worker_event :=
| WorkerLoop
| WorkerStubError (text : string)
| WorkerNext
| WorkerAck (success : bool) (received_count : Z) (message : string)
| WorkerError (text : string)
| WorkerWaited.

Definition set_worker s i (pc : worker_pc) (stopping : bool) : relay_service A :=
  s <| rs_workers ::= <[i := (pc, stopping)]> |>.

Definition note_error s (text : string) : relay_service A :=
  s <| rs_last_error := Some text |> <| rs_last_ack_success := Some false |> <| rs_error_count ::= Z.succ |>.

Definition note_ack s (success : bool) (received_count : Z) (message : string) : relay_service A :=
  let s := s <| rs_last_ack_success := Some success |> <| rs_last_ack_received_count := Some received_count |>
             <| rs_ack_received_count ::= Z.add received_count |> in
  if success then s <| rs_last_error := None |>
  else s <| rs_last_error := Some message |> <| rs_error_count ::= Z.succ |>.

(** [while not stop_event.is_set() or not self.queue.empty()]. *)
Definition goes_on s (stopping : bool) : bool := negb stopping || negb (bool_decide (length (rs_queue s) = 0%nat)).

(** One turn of the iterator; without a message it waits and looks again. *)
Definition next_message s i (stopping : bool) : relay_service A :=
  if goes_on s stopping
  then match rs_queue s with
       | [] => s
       | x :: q => s <| rs_queue := q |> <| rs_sent ::= fun l => l ++ [x] |>
       end
  else set_worker s i Exhausted stopping.

(** An event that is not the worker's next step changes nothing. *)
Definition worker_step s i (ev : worker_event) : relay_service A :=
  match rs_workers s !! i with
  | None => s
  | Some (pc, stopping) =>
      match pc, ev with
      | AtLoop, WorkerLoop => set_worker s i (if goes_on s stopping then Streaming else Finished) stopping
      | Streaming, WorkerNext => next_message s i stopping
      | Streaming, WorkerStubError text
      | Streaming, WorkerError text | Exhausted, WorkerError text => set_worker (note_error s text) i Reconnecting stopping
      | Streaming, WorkerAck success received_count message
      | Exhausted, WorkerAck success received_count message =>
          set_worker (note_ack s success received_count message) i Finished stopping
      | Reconnecting, WorkerWaited => set_worker s i (if stopping then Finished else AtLoop) stopping
      | _, _ => s
      end
  end.

Record RelayStatus := mkRelayStatus {
  ry_enabled : bool;
  ry_target : option string;
  ry_queue_size : Z;
  ry_running : bool;
  ry_last_error : option string;
  ry_last_ack_success : option bool;
  ry_last_ack_received_count : option Z;
  ry_enqueued_count : Z;
  ry_sent_count : Z;
  ry_ack_received_count : Z;
  ry_error_count : Z;
}.

Definition relay_status s : RelayStatus :=
  mkRelayStatus (rs_enabled s) (rs_target s) (Z.of_nat (length (rs_queue s))) (running s) (rs_last_error s)
    (rs_last_ack_success s) (rs_last_ack_received_count s) (rs_enqueued_count s)
    (Z.of_nat (length (rs_sent s))) (rs_ack_received_count s) (rs_error_count s).

(** ** Runs *)

Inductive relay_event :=
| REnqueue (x : A)
| RConfigure (target : string) (enabled : bool)
| RStart
| RStop
| RForget
| RWorker (i : nat) (ev : worker_event).

Definition relay_step s (ev : relay_event) : relay_service A :=
  match ev with
  | REnqueue x => (relay_enqueue s x).1
  | RConfigure target enabled => configure_relay s target enabled
  | RStart => (relay_start s RELAY_TARGET_REQUIRED).1
  | RStop => relay_signal_stop s
  | RForget => relay_forget s
  | RWorker i ev => worker_step s i ev
  end.

Definition relay_run s (evs : list relay_event) : relay_service A := foldl relay_step s evs.

(** The messages whose [enqueue] answered [True], in order. *)
Fixpoint accepted s (evs : list relay_event) : list A :=
  match evs with
  | [] => []
  | ev :: evs =>
      match ev with REnqueue x => if rs_enabled s then [x] else [] | _ => [] end ++ accepted (relay_step s ev) evs
  end.

(** What a step can do to the messages: nothing, one more at the end of the
    queue, or the head of the queue streamed. *)
Inductive message_step s : relay_event -> relay_service A -> Prop :=
| step_none ev s' : rs_queue s' = rs_queue s -> rs_sent s' = rs_sent s -> rs_enqueued_count s' = rs_enqueued_count s ->
    (forall x, ev = REnqueue x -> rs_enabled s = false) -> message_step s ev s'
| step_accept x s' : rs_queue s' = rs_queue s ++ [x] -> rs_sent s' = rs_sent s ->
    rs_enqueued_count s' = rs_enqueued_count s + 1 -> rs_enabled s = true -> message_step s (REnqueue x) s'
| step_stream i x q s' : rs_queue s = x :: q -> rs_queue s' = q -> rs_sent s' = rs_sent s ++ [x] ->
    rs_enqueued_count s' = rs_enqueued_count s -> message_step s (RWorker i WorkerNext) s'.

Lemma relay_message_step s ev : message_step s ev (relay_step s ev).
Proof.
  destruct ev as [x|target enabled| | | |i ev]; cbn [relay_step].
  - unfold relay_enqueue. destruct (rs_enabled s) eqn:E; [by apply step_accept|].
    apply step_none; try done; by intros ? [= <-].
  - by apply step_none.
  - unfold relay_start. destruct (negb (rs_enabled s)); [by apply step_none|].
    destruct (negb _); [by apply step_none|]. by destruct (running s); apply step_none.
  - unfold relay_signal_stop. by destruct (rs_runtime s); apply step_none.
  - by apply step_none.
  - unfold worker_step. destruct (rs_workers s !! i) as [[pc stopping]|]; [|by apply step_none].
    destruct pc, ev; try by apply step_none.
    + unfold next_message. destruct (goes_on s stopping); [|by apply step_none].
      destruct (rs_queue s) as [|x q] eqn:E; [by apply step_none|]. by eapply step_stream.
    + unfold note_ack. by destruct success; apply step_none.
    + unfold note_ack. by destruct success; apply step_none.
Qed.

(** Every accepted message is in exactly one place, in order: streamed
    already, or still queued. *)
Lemma relay_run_conserves s evs :
  rs_sent (relay_run s evs) ++ rs_queue (relay_run s evs) = rs_sent s ++ rs_queue s ++ accepted s evs /\
  rs_enqueued_count (relay_run s evs) = rs_enqueued_count s + Z.of_nat (length (accepted s evs)).
Proof.
  revert s. induction evs as [|ev evs IH]; intros s; [cbn; rewrite app_nil_r; split; [done|lia]|].
  change (relay_run s (ev :: evs)) with (relay_run (relay_step s ev) evs).
  destruct (IH (relay_step s ev)) as [-> ->]. cbn [accepted]. rewrite length_app.
  destruct (relay_message_step s ev) as [ev s' Hq Hs Hc He|x s' Hq Hs Hc He|i x q s' Hq' Hq Hs Hc].
  - rewrite Hq, Hs, Hc. replace (match ev with REnqueue x => _ | _ => [] end) with (@nil A).
    + cbn. split; [done|lia].
    + destruct ev as [y| | | | |]; try done. by rewrite (He y eq_refl).
  - rewrite Hq, Hs, Hc, He. cbn. rewrite <- !app_assoc. split; [done|lia].
  - rewrite Hq, Hs, Hc, Hq'. cbn. rewrite <- !app_assoc. split; [done|lia].
Qed.

(** At most once, in order: what is streamed is a prefix of what was
    accepted; nothing is streamed twice, also across failed RPCs. *)
Lemma relay_at_most_once evs :
  rs_sent (relay_run new_relay_service evs) `prefix_of` accepted new_relay_service evs.
Proof.
  destruct (relay_run_conserves new_relay_service evs) as [H _]. cbn in H.
  exists (rs_queue (relay_run new_relay_service evs)). done.
Qed.

Lemma sent_grows s evs : rs_sent s `prefix_of` rs_sent (relay_run s evs).
Proof.
  revert s. induction evs as [|ev evs IH]; intros s; [done|].
  etrans; [|apply (IH (relay_step s ev))].
  destruct (relay_message_step s ev) as [ev s' _ -> _ _|x s' _ -> _ _|i x q s' _ _ -> _]; [done|done|].
  by apply prefix_app_r.
Qed.

Definition streaming s i : Prop := exists stopping, rs_workers s !! i = Some (Streaming, stopping).

(** The end of the RPC of worker [i]. *)
Definition interrupts i (ev : relay_event) : bool :=
  match ev with
  | RWorker j (WorkerStubError _ | WorkerError _ | WorkerAck _ _ _) => bool_decide (i = j)
  | _ => false
  end.

Definition asks i (ev : relay_event) : bool :=
  match ev with RWorker j WorkerNext => bool_decide (i = j) | _ => false end.

Lemma worker_step_other s i j ev : i <> j -> rs_workers (worker_step s j ev) !! i = rs_workers s !! i.
Proof.
  intros Hne. unfold worker_step. destruct (rs_workers s !! j) as [[pc stopping]|]; [|done].
  unfold next_message, note_ack, note_error.
  destruct pc, ev; try done; cbn; try (by rewrite list_lookup_insert_ne).
  - destruct (goes_on s stopping); [by destruct (rs_queue s)|]. cbn. by rewrite list_lookup_insert_ne.
  - destruct success; cbn; by rewrite list_lookup_insert_ne.
  - destruct success; cbn; by rewrite list_lookup_insert_ne.
Qed.

Lemma streaming_step s i ev : streaming s i -> interrupts i ev = false -> rs_queue s <> [] ->
  streaming (relay_step s ev) i.
Proof.
  intros [b Hb] Hi Hq. unfold streaming.
  destruct ev as [x|target enabled| | | |j ev]; cbn [relay_step].
  - unfold relay_enqueue. destruct (negb _); eauto.
  - eauto.
  - unfold relay_start. destruct (negb (rs_enabled s)); [eauto|]. destruct (negb _); [eauto|].
    destruct (running s); [eauto|]. exists b. cbn. rewrite lookup_app_l; [done|]. by eapply lookup_lt_Some.
  - unfold relay_signal_stop. destruct (rs_runtime s) as [j|]; [|eauto]. cbn.
    destruct (decide (i = j)) as [->|Hne]; [|rewrite list_lookup_alter_ne by done; eauto].
    rewrite list_lookup_alter, decide_True, Hb by done. cbn. eauto.
  - eauto.
  - destruct (decide (i = j)) as [->|Hne]; [|rewrite worker_step_other by done; eauto].
    unfold worker_step. rewrite Hb. cbn in Hi. rewrite bool_decide_eq_true_2 in Hi by done.
    destruct ev; try done; try by exists b.
    unfold next_message, goes_on. destruct (rs_queue s) as [|x q]; [done|]. cbn. rewrite orb_true_r. by exists b.
Qed.

Lemma asked_streams s i x q : streaming s i -> rs_queue s = x :: q ->
  rs_queue (worker_step s i WorkerNext) = q /\ rs_sent (worker_step s i WorkerNext) = rs_sent s ++ [x].
Proof.
  intros [b Hb] Hq. unfold worker_step, next_message, goes_on. rewrite Hb, Hq. cbn. by rewrite orb_true_r.
Qed.

Lemma queued_streams s evs i k x : streaming s i -> rs_queue s !! k = Some x ->
  (forall ev, ev ∈ evs -> interrupts i ev = false) ->
  (k < length (filter (fun ev => asks i ev = true) evs))%nat ->
  rs_sent (relay_run s evs) !! (length (rs_sent s) + k)%nat = Some x.
Proof.
  revert s k. induction evs as [|ev evs IH]; intros s k Hs Hk Hi Hn; [cbn in Hn; lia|].
  assert (rs_queue s <> []) as Hne by (intros E; by rewrite E in Hk).
  pose proof (streaming_step s i ev Hs (Hi ev ltac:(left)) Hne) as Hs'.
  change (relay_run s (ev :: evs)) with (relay_run (relay_step s ev) evs).
  assert (forall ev, ev ∈ evs -> interrupts i ev = false) as Hi' by (intros e He; apply Hi; by right).
  assert (rs_sent (relay_step s ev) = rs_sent s -> (exists l, rs_queue (relay_step s ev) = rs_queue s ++ l) ->
    asks i ev = false -> rs_sent (relay_run (relay_step s ev) evs) !! (length (rs_sent s) + k)%nat = Some x) as Hstay.
  { intros E [l El] Ha. rewrite <- E. apply IH; [done| |done|].
    - rewrite El, lookup_app_l; [done|]. by eapply lookup_lt_Some.
    - rewrite filter_cons_False in Hn; [done|by rewrite Ha]. }
  assert (forall y q, rs_queue s = y :: q -> rs_queue (relay_step s ev) = q -> rs_sent (relay_step s ev) = rs_sent s ++ [y] ->
    rs_sent (relay_run (relay_step s ev) evs) !! (length (rs_sent s) + k)%nat = Some x) as Htake.
  { intros y q Eq Eq' Es. rewrite Eq in Hk. destruct k as [|k]; cbn in Hk.
    - simplify_eq. eapply prefix_lookup_Some; [|apply sent_grows]. by rewrite Es, Nat.add_0_r, list_lookup_middle.
    - replace (length (rs_sent s) + S k)%nat with (length (rs_sent (relay_step s ev)) + k)%nat
        by (rewrite Es, length_app; cbn; lia).
      apply IH; [done|by rewrite Eq'|done|].
      destruct (decide (asks i ev = true)).
      + rewrite filter_cons_True in Hn by done. cbn in Hn. lia.
      + rewrite filter_cons_False in Hn by done. lia. }
  pose proof (relay_message_step s ev) as Hm. destruct (asks i ev) eqn:Ha.
  - destruct ev as [y| | | | |j []]; try done. apply bool_decide_eq_true in Ha as <-.
    destruct (rs_queue s) as [|y q] eqn:Eq; [done|]. destruct (asked_streams s i y q Hs Eq). by apply (Htake y q).
  - inversion Hm as [e s' Hq Hsent _ _|y s' Hq Hsent _ _|j y q s' Hq Hq' Hsent _]; subst.
    + apply Hstay; [done| |done]. exists []. by rewrite app_nil_r.
    + apply Hstay; [done| |done]. by exists [y].
    + by apply (Htake y (rs_queue (relay_step s (RWorker j WorkerNext)))).
Qed.

(** What a failed RPC had taken is not offered again. *)
Lemma failed_rpc_loses s i x q text : rs_workers s !! i = Some (Streaming, false) -> rs_queue s = x :: q ->
  rs_queue (relay_run s [RWorker i WorkerNext; RWorker i (WorkerError text); RWorker i WorkerWaited; RWorker i WorkerLoop]) = q.
Proof.
  intros Hw Hq. cbn [relay_run foldl relay_step].
  destruct (asked_streams s i x q (ex_intro _ _ Hw) Hq) as [E _].
  assert (forall s ev, ev <> WorkerNext -> rs_queue (worker_step s i ev) = rs_queue s) as H.
  { intros t ev Hne. pose proof (relay_message_step t (RWorker i ev)) as Hm. by inversion Hm; subst. }
  by rewrite 3!H.
Qed.

(** After the server has ended the RPC with an answer the worker is gone,
    but [enqueue] still accepts: nothing is streamed until the next
    [start]. *)
Definition only_queues (ev : relay_event) : Prop :=
  match ev with REnqueue _ | RWorker _ _ => True | _ => False end.

Lemma answered_relay_only_queues s success n message evs :
  rs_workers s = [(Streaming, false)] -> rs_runtime s = Some 0%nat -> rs_enabled s = true -> Forall only_queues evs ->
  let s' := relay_run (worker_step s 0 (WorkerAck success n message)) evs in
  rs_sent s' = rs_sent s /\ running s' = false /\ rs_enabled s' = true.
Proof.
  intros Hw Hr He Hevs. cbv zeta. set (s1 := worker_step s 0 _).
  assert (rs_sent s1 = rs_sent s /\ rs_workers s1 = [(Finished, false)] /\ rs_runtime s1 = Some 0%nat /\
    rs_enabled s1 = true) as H1.
  { unfold s1, worker_step. rewrite Hw. unfold set_worker, note_ack. by destruct success; cbn; rewrite Hw. }
  clearbody s1. clear Hw He Hr. revert s1 H1. induction Hevs as [|ev evs Hev _ IH]; intros s1 (H1 & H2 & H3 & H4).
  { unfold running, is_alive. cbn. by rewrite H3, H2. }
  change (relay_run s1 (ev :: evs)) with (relay_run (relay_step s1 ev) evs).
  apply IH. destruct ev as [x| | | | |j ev]; try done.
  - cbn. unfold relay_enqueue. rewrite H4. done.
  - cbn. unfold worker_step. rewrite H2. destruct j as [|j]; [by destruct ev|]. done.
Qed.
End Service.

(** ** The service for frame-sets

    The same queue and worker over messages of frame-sets; it also remembers
    the identifier of the last one it accepted. *)
Record frame_set_relay := mkFrameSetRelay {
  fr_service : relay_service RelayFrameSet;
  fr_last_frame_set_id : option Z;
}.

Definition new_frame_set_relay : frame_set_relay := mkFrameSetRelay new_relay_service None.

Definition with_service (s : frame_set_relay) (service : relay_service RelayFrameSet) : frame_set_relay :=
  mkFrameSetRelay service (fr_last_frame_set_id s).

Definition configure_frame_set_relay (s : frame_set_relay) (target : string) (enabled : bool) : frame_set_relay :=
  with_service s (configure_relay (fr_service s) target enabled).

Definition enqueue_frame_set (s : frame_set_relay) (m : RelayFrameSet) : frame_set_relay * bool :=
  let '(service, taken) := relay_enqueue (fr_service s) m in
  (mkFrameSetRelay service (if taken then Some (rt_frame_set_id m) else fr_last_frame_set_id s), taken).

Definition enqueue_synchronized_frame_set (s : frame_set_relay) (frame_set : SynchronizedFrameSet)
    : frame_set_relay * result relay_error bool :=
  match build_relay_frame_set frame_set with
  | Ok m => let '(s, taken) := enqueue_frame_set s m in (s, Ok taken)
  | Raise e => (s, Raise e)
  end.

Definition start_frame_set_relay (s : frame_set_relay) : frame_set_relay * result relay_error unit :=
  let '(service, r) := relay_start (fr_service s) FRAME_SET_RELAY_TARGET_REQUIRED in (with_service s service, r).

Definition signal_frame_set_stop (s : frame_set_relay) : frame_set_relay := with_service s (relay_signal_stop (fr_service s)).
Definition forget_frame_set_relay (s : frame_set_relay) : frame_set_relay := with_service s (relay_forget (fr_service s)).

(** [clear] after its [stop]. *)
Definition clear_frame_set_relay (s : frame_set_relay) : frame_set_relay := mkFrameSetRelay (relay_clear (fr_service s)) None.

Definition frame_set_worker_step (s : frame_set_relay) (i : nat) (ev : worker_event) : frame_set_relay :=
  with_service s (worker_step (fr_service s) i ev).

Definition frame_set_relay_status (s : frame_set_relay) : RelayStatus * option Z :=
  (relay_status (fr_service s), fr_last_frame_set_id s).

(** The identifier it remembers is that of the last accepted message. *)
Lemma enqueue_frame_set_last s m :
  let '(s', taken) := enqueue_frame_set s m in
  taken = rs_enabled (fr_service s) /\
  fr_last_frame_set_id s' = (if taken then Some (rt_frame_set_id m) else fr_last_frame_set_id s) /\
  rs_queue (fr_service s') = rs_queue (fr_service s) ++ (if taken then [m] else []).
Proof.
  unfold enqueue_frame_set, relay_enqueue. destruct (rs_enabled (fr_service s)); cbn; split_and!; try done. by rewrite app_nil_r.
Qed.

(** ** Properties *)

(** C19: The message of a frame-set: it is built exactly when every integer
    fits the field it goes to, and otherwise nothing is; it then is well
    typed, and its frames are the messages of the members, each once, by
    camera. *)
Theorem relay_message_typed fs :
  match build_relay_frame_set fs with
  | Ok m => encodable fs /\ wire_typed m /\ rt_frames m ≡ₚ member_message <$> (fs_frames fs).*2 /\
      exists sorted, StronglySorted (fun x y => device_leb x y = true) sorted /\ sorted ≡ₚ fs_frames fs /\
        rt_frames m = member_message <$> sorted.*2
  | Raise _ => ~ encodable fs
  end.
Proof.
  pose proof (build_relay_frame_set_spec fs) as H. unfold returns_if in H.
  destruct (build_relay_frame_set fs) as [m|e]; [|done]. destruct H as [He ->].
  split; [done|]. split; [by apply encodable_typed|]. cbn.
  split; [by rewrite sort_by_perm|]. exists (sort_by device_leb (fs_frames fs)).
  split; [|split; [apply sort_by_perm|done]].
  apply sort_by_sorted; eauto with gc.
Qed.

(** C18: Queued messages are streamed: while the RPC of a worker lasts,
    whatever else happens - other messages, [stop], a reconfiguration, other
    workers - the message in place [k] of the queue is streamed, in its turn,
    once the RPC has asked for more than [k] messages. *)
Theorem queued_message_streams {A} (s : relay_service A) evs i k x :
  streaming s i -> rs_queue s !! k = Some x -> (forall ev, ev ∈ evs -> interrupts i ev = false) ->
  (k < length (filter (fun ev => asks i ev = true) evs))%nat ->
  rs_sent (relay_run s evs) !! (length (rs_sent s) + k)%nat = Some x /\
  rs_sent (relay_run s evs) ++ rs_queue (relay_run s evs) = rs_sent s ++ rs_queue s ++ accepted s evs.
Proof. intros. split; [by apply (queued_streams s evs i)|apply relay_run_conserves]. Qed.

Definition demo_relay : relay_service Z :=
  relay_run (configure_relay new_relay_service "proc:1" true)
    [RStart; RWorker 0 WorkerLoop; REnqueue 10; REnqueue 20].

Definition demo_relay_events : list relay_event :=
  [RWorker 0 WorkerNext; REnqueue 30; RStop; RWorker 0 WorkerNext; RForget; RWorker 0 WorkerNext].

Lemma queued_message_streams_witness :
  rs_sent (relay_run demo_relay demo_relay_events) !! 1%nat = Some 20 /\
  rs_sent (relay_run demo_relay demo_relay_events) = [10; 20; 30].
Proof.
  split; [|vm_compute; reflexivity].
  refine (proj1 (queued_message_streams demo_relay demo_relay_events 0 1 20 _ _ _ _)).
  - exists false. reflexivity.
  - reflexivity.
  - apply Forall_forall. repeat constructor.
  - vm_compute. lia.
Defined.
