(* ===== verification/Ingest.v ===== *)
(** * Ingest

    [ingest_frame] of src/app/services/ingest/ingest_pipeline.py, the path of
    every received frame: synchronisation and the live relay first, then the
    archive, whose outcome goes back into the synchronizer, the stream state,
    the manifest and its delivery projection. [build_frame_path], whose
    module is not in the repository, is a parameter; the experiment recorder
    is left out. *)

From S2P Require Import Prelude Json Digest Identity SyncModels FrameBuffer Matcher SyncService.
From S2P Require Import Database ManifestStore Frames FileSystem Archive.
From S2P Require Import SessionIdentity Config StreamState RelayClient.

(** The arguments of [ingest_frame]. *)
Record IngestCall := mkIngestCall {
  ic_device_id : string;
  ic_timestamp_ms : Z;
  ic_image_bytes : string;
  ic_sequence : option Z;
  ic_content_type : string;
  ic_filename : option string;
  ic_session_id : option string;
  ic_camera_stream_id : option string;
  ic_relay_mode : option string;
  ic_received_at_ms : option Z;
  ic_capture_metadata : option (list (string * json));
  ic_authorization_scope : option ingest_scope;
}.

#[export] Instance IngestCall_settable : Settable IngestCall := fun x => mkIngestCall
  (ic_device_id x) (ic_timestamp_ms x) (ic_image_bytes x) (ic_sequence x) (ic_content_type x)
  (ic_filename x) (ic_session_id x) (ic_camera_stream_id x) (ic_relay_mode x)
  (ic_received_at_ms x) (ic_capture_metadata x) (ic_authorization_scope x).


(** What the services share. *)
Record IngestState := mkIngestState {
  ig_sync : StreamSyncService;
  ig_files : file_system;
  ig_db : database;
  ig_streams : StreamState;
  ig_relay : relay_service RelayFrame;
  ig_frame_set_relay : frame_set_relay;
}.

#[export] Instance IngestState_settable : Settable IngestState := fun x => mkIngestState
  (ig_sync x) (ig_files x) (ig_db x) (ig_streams x) (ig_relay x) (ig_frame_set_relay x).


(** The dict [ingest_frame] returns. *)
Record IngestResult := mkIngestResult {
  ir_frame : option Frame;
  ir_camera_state : CameraStreamState;
  ir_archive_state : string;
  ir_archive_error : option string;
  ir_relay_enqueued : bool;
  ir_relay_mode : string;
  ir_synchronized_frame_set : option SynchronizedFrameSet;
  ir_manifest_persisted : bool;
  ir_frame_set_relay_enqueued : bool;
}.

#[export] Instance IngestResult_settable : Settable IngestResult := fun x => mkIngestResult
  (ir_frame x) (ir_camera_state x) (ir_archive_state x) (ir_archive_error x)
  (ir_relay_enqueued x) (ir_relay_mode x) (ir_synchronized_frame_set x)
  (ir_manifest_persisted x) (ir_frame_set_relay_enqueued x).


Inductive ingest_error :=
| IngestConfigError (e : config_error)
| IngestIdentityError (e : identity_error)
| IngestFrameError (e : frame_error)
| IngestSyncError (e : sync_error)
| IngestRelayError (e : relay_error).

(** The clocks, fresh identifiers and failures one call meets. *)
Record ingest_environment := mkIngestEnvironment {
  ie_clock_ms : Z;
  ie_sync_now_ms : Z;
  ie_fresh_run_id : string;
  ie_stream_now_ms : Z;
  ie_cwd : path;
  ie_build_frame_path : string -> Z -> string -> option string -> result string string;
  ie_writer : ArchiveWriter;
  ie_db_error : option string;
  ie_integrity_text : string;
  ie_manifest_error : option string;
  ie_manifest_now_ms : Z;
  ie_projection_fails : bool;
  ie_projection_now_ms : Z;
}.

(** [raise] of another module's error type. *)
Definition lift {E A} (wrap : E -> ingest_error) (r : result E A) : result ingest_error A :=
  match r with Ok a => Ok a | Raise e => Raise (wrap e) end.

Section Ingest.
Context `{Hashing}.

Definition resolve_ingest_relay_mode (relay_mode : option string) (relay_enabled frame_set_relay_enabled : bool)
    : result config_error string :=
  match relay_mode with
  | Some mode => normalize_stream_relay_mode mode
  | None => Ok (if frame_set_relay_enabled then STREAM_RELAY_MODE_FRAME_SET
                else if relay_enabled then STREAM_RELAY_MODE_RAW else STREAM_RELAY_MODE_OFF)
  end.

(** [_authorization_scope_fields], put into a frame. *)
Definition with_scope_fields (scope : option ingest_scope) (authorized_camera_id : option string)
    (f : SyncInputFrame) : SyncInputFrame :=
  let put tenant site session job profile subject jti claim :=
    f <| in_tenant_id := Some tenant |> <| in_site_id := Some site |> <| in_capture_session_id := Some session |>
      <| in_processing_job_id := Some job |> <| in_profile_digest := Some profile |>
      <| in_authorized_subject := Some subject |> <| in_session_token_jti := Some jti |>
      <| in_authorized_camera_id := authorized_camera_id |> <| in_camera_claim_id := claim |> in
  match scope with
  | None => f
  | Some (SessionScope s) =>
      put (su_tenant_id s) (su_site_id s) (su_capture_session_id s) (su_processing_job_id s) (su_profile_digest s)
          (su_authorized_subject s) (su_token_jti s) None
  | Some (CameraScope s) =>
      put (ac_tenant_id s) (ac_site_id s) (ac_capture_session_id s) (ac_processing_job_id s) (ac_profile_digest s)
          (ac_authorized_subject s) (ac_token_jti s) (Some (ac_camera_claim_id s))
  end.

(** The frame as the synchronizer first gets it. *)
Definition memory_frame (env : ingest_environment) (call : IngestCall) : result ingest_error SyncInputFrame :=
  let metadata := default [] (ic_capture_metadata call) in
  camera_stream_id ←
    if truthy_opt (ic_session_id call) && negb (bool_decide (ic_sequence call = None))
    then c ← lift IngestIdentityError
               (canonical_camera_stream_id (ic_device_id call) (ic_camera_stream_id call)); Ok (Some c)
    else Ok (ic_camera_stream_id call);
  let content_digest := sha256_bytes (ic_image_bytes call) in
  identity ← lift IngestFrameError
    (resolve_frame_identity (ic_session_id call) camera_stream_id (ic_sequence call) (Some content_digest));
  Ok (with_scope_fields (ic_authorization_scope call) (ic_camera_stream_id call)
    ((input_frame (ic_device_id call) (ic_timestamp_ms call) (ic_sequence call) (ic_image_bytes call))
       <| in_content_type := ic_content_type call |>
       <| in_source_session_id := ic_session_id call |>
       <| in_camera_stream_id := camera_stream_id |>
       <| in_source_frame_uid := fst identity |>
       <| in_content_digest := Some content_digest |>
       <| in_identity_mode := snd identity |>
       <| in_archive_state := ARCHIVE_PENDING |>
       <| in_received_at_ms := Some (default (ie_clock_ms env) (ic_received_at_ms call)) |>
       <| in_capture_config_digest := Some (build_capture_config_digest (ic_capture_metadata call)) |>
       <| in_capture_metadata_json := Some (canonical_json (JObj metadata)) |>)).

(** The row [persist_frame_archive] asks for. *)
Definition frame_row (f : SyncInputFrame) : Frame :=
  mkFrame 0 (in_device_id f) (in_timestamp_ms f) None (in_source_session_id f) (in_camera_stream_id f)
    (in_sequence f) None (in_content_digest f) "" "" None None (Some (in_content_type f)) (in_received_at_ms f)
    (in_capture_config_digest f) (in_capture_metadata_json f) (in_tenant_id f) (in_site_id f)
    (in_capture_session_id f) (in_processing_job_id f) (in_profile_digest f) (in_authorized_subject f)
    (in_session_token_jti f) (in_authorized_camera_id f) (in_camera_claim_id f).

(** What precedes the archive: the frame, the relay mode, and the frame-set
    the frame completed, handed to the relay at once. *)
Record live_part := mkLivePart {
  lp_frame : SyncInputFrame;
  lp_mode : string;
  lp_frame_set : option SynchronizedFrameSet;
  lp_enqueued : bool;
}.

Definition live_phase (env : ingest_environment) (st : IngestState) (call : IngestCall)
    : IngestState * result ingest_error live_part :=
  match memory_frame env call with
  | Raise e => (st, Raise e)
  | Ok frame =>
      match resolve_ingest_relay_mode (ic_relay_mode call) (rs_enabled (ig_relay st))
              (rs_enabled (fr_service (ig_frame_set_relay st))) with
      | Raise e => (st, Raise (IngestConfigError e))
      | Ok mode =>
          let '(sync, r) := handle_frame (ig_sync st) frame (ie_sync_now_ms env) (ie_fresh_run_id env) in
          let st := st <| ig_sync := sync |> in
          match r with
          | Raise e => (st, Raise (IngestSyncError e))
          | Ok None => (st, Ok (mkLivePart frame mode None false))
          | Ok (Some frame_set) =>
              if bool_decide (mode = STREAM_RELAY_MODE_FRAME_SET)
              then
                let '(relay, taken) := enqueue_synchronized_frame_set (ig_frame_set_relay st) frame_set in
                let st := st <| ig_frame_set_relay := relay |> in
                (st, taken ← lift IngestRelayError taken; Ok (mkLivePart frame mode (Some frame_set) taken))
              else (st, Ok (mkLivePart frame mode (Some frame_set) false))
          end
      end
  end.

Definition manifest_exception_text (integrity_text : string) (e : manifest_error) : string :=
  match e with
  | ManifestIntegrityError m => "ManifestIntegrityError: " +:+ m
  | ManifestValueError m => "ValueError: " +:+ m
  | ManifestCommitError => integrity_text
  end.

(** [save_path] and [path_error]. *)
Definition frame_path (env : ingest_environment) (call : IngestCall) : option string * option string :=
  let filename := or_str (ic_filename call)
                    (ic_device_id call +:+ "_" +:+ pretty (ic_timestamp_ms call) +:+ ".jpg") in
  match ie_build_frame_path env (ic_device_id call) (ic_timestamp_ms call) filename (ic_session_id call) with
  | Ok p => (Some p, None)
  | Raise text => (None, Some ("archive path failed: " +:+ text))
  end.

(** The manifest of the set, and the state and error of its archive. *)
Definition manifest_step (env : ingest_environment) (db : database) (frame_set : SynchronizedFrameSet)
    : database * bool * string * option string :=
  if bool_decide (fs_identity_mode frame_set = IDENTITY_MODE_V2) &&
     bool_decide (fs_archive_state frame_set = ARCHIVE_PENDING)
  then
    let degraded db text := (db, false, ARCHIVE_DEGRADED_LIVE_ONLY, Some ("manifest archive failed: " +:+ text)) in
    match ie_manifest_error env with
    | Some text => degraded db text
    | None =>
        match persist_frame_set_manifest db db frame_set None (ie_manifest_now_ms env) with
        | (db, Ok persisted) => (db, persisted, ARCHIVE_DURABLE, None)
        | (db, Raise e) => degraded db (manifest_exception_text (ie_integrity_text env) e)
        end
    end
  else if bool_decide (fs_archive_state frame_set = ARCHIVE_PENDING)
  then (db, false, ARCHIVE_DURABLE, fs_archive_error frame_set)
  else (db, false, fs_archive_state frame_set, fs_archive_error frame_set).

(** [legacy_relay_state] and the projection's reason. *)
Definition projection_change (mode : string) (frame_set_enqueued relay_enqueued : bool) : string * option string :=
  if bool_decide (mode = STREAM_RELAY_MODE_FRAME_SET) && frame_set_enqueued then ("FRAME_SET_ENQUEUED", None)
  else if bool_decide (mode = STREAM_RELAY_MODE_RAW) && relay_enqueued then ("RAW_ENQUEUED", None)
  else if bool_decide (mode = STREAM_RELAY_MODE_FRAME_SET) then ("NOT_ENQUEUED", Some "FRAME_SET_RELAY_NOT_ENQUEUED")
  else if bool_decide (mode = STREAM_RELAY_MODE_RAW) then ("NOT_ENQUEUED", Some "LEGACY_RAW_RELAY_NOT_ENQUEUED")
  else ("NOT_ENQUEUED", None).

Definition projection_step (env : ingest_environment) (db : database) (frame_set : SynchronizedFrameSet)
    (state mode : string) (frame_set_enqueued relay_enqueued : bool) : database :=
  if truthy_opt (fs_frame_set_uid frame_set) && bool_decide (state = ARCHIVE_DURABLE) && negb (ie_projection_fails env)
  then
    let '(legacy_relay_state, reason) := projection_change mode frame_set_enqueued relay_enqueued in
    (update_delivery_projection db db (default "" (fs_frame_set_uid frame_set)) (Some state) None
       (Some legacy_relay_state) reason None (ie_projection_now_ms env)).1
  else db.

Definition _build_raw_relay_frame (f : SyncInputFrame) : result relay_error RelayFrame :=
  relay_frame (in_device_id f) (in_timestamp_ms f) (in_sequence f) (in_content_type f) (in_image_bytes f)
    (in_file_path f).

(** The archive of the frame, and its outcome in the synchronizer and in the
    stream state. *)
Definition archive_step (env : ingest_environment) (st : IngestState) (call : IngestCall) (live : live_part)
    : IngestState * FrameArchiveOutcome * CameraStreamState * option SynchronizedFrameSet :=
  let frame := lp_frame live in
  let '(save_path, path_error) := frame_path env call in
  let '(files, db, archive) :=
    persist_frame_archive (ie_cwd env) (ie_writer env) (ie_db_error env) (ie_integrity_text env) (ig_files st)
      (ig_db st) (ig_db st) (frame_row frame) (ic_image_bytes call) save_path path_error in
  let frame_id := fr_id <$> oc_frame archive in
  let '(sync, frame_set) :=
    finalize_frame_archive (ig_sync st) frame (lp_frame_set live) frame_id (oc_file_path archive)
      (oc_state archive) (oc_error archive) in
  let '(streams, camera_state) :=
    update_frame (ig_streams st) frame_id (ic_device_id call) (ic_timestamp_ms call) (ic_sequence call)
      (oc_file_path archive) (ic_content_type call) (Z.of_nat (String.length (ic_image_bytes call)))
      (ic_received_at_ms call) (oc_state archive) (oc_error archive) (ie_stream_now_ms env) in
  (mkIngestState sync files db streams (ig_relay st) (ig_frame_set_relay st), archive, camera_state, frame_set).

Definition raw_relay_step (st : IngestState) (live : live_part) (file_path : option string)
    : IngestState * result ingest_error bool :=
  if bool_decide (lp_mode live = STREAM_RELAY_MODE_RAW)
  then match _build_raw_relay_frame ((lp_frame live) <| in_file_path := file_path |>) with
       | Ok message => let '(relay, taken) := relay_enqueue (ig_relay st) message in
                       (st <| ig_relay := relay |>, Ok taken)
       | Raise e => (st, Raise (IngestRelayError e))
       end
  else (st, Ok false).

(** The manifest, the final archive state and the delivery projection of the
    frame-set. *)
Definition settle_step (env : ingest_environment) (st : IngestState) (live : live_part) (relay_enqueued : bool)
    (frame_set : SynchronizedFrameSet) : IngestState * SynchronizedFrameSet * bool :=
  let '(db, persisted, state, error) := manifest_step env (ig_db st) frame_set in
  let '(sync, frame_set) := service_finalize_archive_state (ig_sync st) frame_set state error in
  let db := projection_step env db frame_set state (lp_mode live) (lp_enqueued live) relay_enqueued in
  (st <| ig_sync := sync |> <| ig_db := db |>, frame_set, persisted).

Definition archive_phase (env : ingest_environment) (st : IngestState) (call : IngestCall) (live : live_part)
    : IngestState * result ingest_error IngestResult :=
  let '(st, archive, camera_state, frame_set) := archive_step env st call live in
  match raw_relay_step st live (oc_file_path archive) with
  | (st, Raise e) => (st, Raise e)
  | (st, Ok relay_enqueued) =>
      let answer archive_state archive_error frame_set persisted :=
        mkIngestResult (oc_frame archive) camera_state archive_state archive_error relay_enqueued (lp_mode live)
          frame_set persisted (lp_enqueued live) in
      match frame_set with
      | None => (st, Ok (answer (oc_state archive) (oc_error archive) None false))
      | Some frame_set =>
          let '(st, frame_set, persisted) := settle_step env st live relay_enqueued frame_set in
          (st, Ok (answer (fs_archive_state frame_set) (fs_archive_error frame_set) (Some frame_set) persisted))
      end
  end.

Definition ingest_frame (env : ingest_environment) (st : IngestState) (call : IngestCall)
    : IngestState * result ingest_error IngestResult :=
  match live_phase env st call with
  | (st, Raise e) => (st, Raise e)
  | (st, Ok live) => archive_phase env st call live
  end.
End Ingest.

(** ** The archive does not reach the live path *)

Section Separation.
Context `{Hashing}.

(** What of a member, and of a frame-set, is not about its archive. *)
Definition live_frame (f : StoredSyncFrame) : StoredSyncFrame := archived f None None "" None.
Definition live_set (fs : SynchronizedFrameSet) :=
  (fs_capture_run_id fs, fs_frame_set_id fs, fs_frame_set_uid fs, fs_span_ms fs, prod_map id live_frame <$> fs_frames fs).
Definition without_path (m : RelayFrame) : RelayFrame := m <| rf_file_path := None |>.

Lemma live_frame_archived f i p st e : live_frame (archived f i p st e) = live_frame f.
Proof. done. Qed.

Lemma live_frame_key f g : live_frame f = live_frame g -> sf_buffer_key f = sf_buffer_key g.
Proof. intros E. exact (f_equal sf_buffer_key E). Qed.

Lemma replace_member_live sel f g : live_frame f = live_frame g ->
  prod_map id live_frame <$> replace_member sel f = prod_map id live_frame <$> replace_member sel g.
Proof.
  intros E. induction sel as [|[d x] sel IH]; [done|]. cbn. rewrite (live_frame_key f g E).
  case_bool_decide; cbn; f_equal; [|exact IH]. unfold prod_map. cbn. by rewrite E.
Qed.

Lemma with_member_live fs f g : live_frame f = live_frame g -> live_set (with_member fs f) = live_set (with_member fs g).
Proof. intros E. unfold live_set. cbn. f_equal. by apply replace_member_live. Qed.

Lemma replace_recent_live m f g : live_frame f = live_frame g ->
  live_set <$> (replace_recent_frame_member m f).2 = live_set <$> (replace_recent_frame_member m g).2.
Proof.
  intros E. unfold replace_recent_frame_member.
  assert (forall l, find (has_member f) l = find (has_member g) l) as ->.
  { induction l as [|x l IH]; [done|]. cbn. rewrite IH. unfold has_member. by rewrite (live_frame_key f g E). }
  destruct (find _ _) as [fs|]; [|done]. cbn. f_equal. by apply with_member_live.
Qed.

Definition same_live (r r' : StreamSyncService * option SynchronizedFrameSet) : Prop :=
  live_set <$> r.2 = live_set <$> r'.2 /\ (is_Some (ss_matcher r.1) <-> is_Some (ss_matcher r'.1)) /\
  (is_Some r.2 -> is_Some (ss_matcher r.1)).

Lemma replace_archived_live s s' m fs f g : live_frame f = live_frame g ->
  same_live (replace_archived s m fs f) (replace_archived s' m fs g).
Proof.
  intros E. pose proof (replace_recent_live m f g E) as Hr. unfold same_live, replace_archived.
  destruct (replace_recent_frame_member m f) as [m1 u1], (replace_recent_frame_member m g) as [m2 u2].
  cbn [snd] in Hr. destruct u1 as [u1|], u2 as [u2|]; try discriminate Hr.
  - cbn [fst snd]. split_and!; [exact Hr|done|by cbn; eauto].
  - destruct fs as [fs|]; cbn; split_and!; try done. f_equal. by apply with_member_live.
Qed.

Lemma finalize_archive_live mgr key i p st e i' p' st' e' :
  live_frame <$> (finalize_archive mgr key i p st e).2 = live_frame <$> (finalize_archive mgr key i' p' st' e').2.
Proof. unfold finalize_archive. destruct (_ !! key) as [f|]; [|done]. by destruct (_ !! sf_device_id f). Qed.

Lemma finalize_frame_live s frame fs i p st e i' p' st' e' : (is_Some fs -> is_Some (ss_matcher s)) ->
  same_live (finalize_frame_archive s frame fs i p st e) (finalize_frame_archive s frame fs i' p' st' e').
Proof.
  intros Hm. unfold finalize_frame_archive.
  pose proof (finalize_archive_live (ss_buffer_manager s) (build_buffer_key frame) i p st e i' p' st' e') as E.
  destruct (finalize_archive _ _ i p st e) as [m1 f], (finalize_archive _ _ i' p' st' e') as [m2 g].
  cbn [snd] in E. change (ss_matcher (s <| ss_buffer_manager := m1 |>)) with (ss_matcher s).
  change (ss_matcher (s <| ss_buffer_manager := m2 |>)) with (ss_matcher s).
  destruct (ss_matcher s) as [m|] eqn:Es; [|by unfold same_live; cbn; rewrite Es].
  destruct f as [f|], g as [g|]; try discriminate E; [apply (inj Some) in E; by apply replace_archived_live|].
  destruct (find_member _ _); [by apply replace_archived_live|].
  unfold same_live. cbn. rewrite Es. split_and!; [done|done|eauto].
Qed.

(** The clock and the identifier the live part reads. *)
Definition same_live_inputs (env env' : ingest_environment) : Prop :=
  ie_clock_ms env = ie_clock_ms env' /\ ie_sync_now_ms env = ie_sync_now_ms env' /\
  ie_fresh_run_id env = ie_fresh_run_id env'.

Definition same_live_state (st st' : IngestState) : Prop :=
  ig_sync st = ig_sync st' /\ ig_relay st = ig_relay st' /\ ig_frame_set_relay st = ig_frame_set_relay st'.

(** A queue of frames, but for the paths in them. *)
Definition same_relay (s s' : relay_service RelayFrame) : Prop :=
  rs_enabled s = rs_enabled s' /\ rs_enqueued_count s = rs_enqueued_count s' /\
  without_path <$> rs_queue s = without_path <$> rs_queue s'.

Lemma live_phase_same env env' st st' call : same_live_inputs env env' -> same_live_state st st' ->
  let '(s, r) := live_phase env st call in let '(s', r') := live_phase env' st' call in
  same_live_state s s' /\ r = r' /\
  forall live, r = Ok live -> is_Some (lp_frame_set live) -> is_Some (ss_matcher (ig_sync s)).
Proof.
  intros (Ec & En & Er) (Es & Ey & Ef). unfold live_phase.
  assert (memory_frame env call = memory_frame env' call) as -> by (unfold memory_frame; by rewrite Ec).
  rewrite En, Er, Es, Ey, Ef.
  destruct (memory_frame env' call) as [frame|e]; [|done].
  destruct (resolve_ingest_relay_mode _ _ _) as [mode|e]; [|done].
  destruct (handle_frame _ _ _ _) as [sync r] eqn:E.
  assert (forall fs, r = Ok (Some fs) -> is_Some (ss_matcher sync)) as Hm.
  { intros fs ->. unfold handle_frame in E. destruct (ss_matcher (ig_sync st')) as [m|]; [|done].
    destruct (negb _); [done|]. destruct (add_frame _ _) as [mgr [stored|]]; [|done].
    destruct (try_match _ _ _ _ _) as [[m' mgr'] r']. simplify_eq. by cbn. }
  destruct r as [[fs|]|e]; [|by split_and!; [..|intros ? [= <-] [? ?]]|done].
  pose proof (Hm fs eq_refl) as Hs.
  destruct (bool_decide _); [|by split_and!].
  change (ig_frame_set_relay (st <| ig_sync := sync |>)) with (ig_frame_set_relay st).
  change (ig_frame_set_relay (st' <| ig_sync := sync |>)) with (ig_frame_set_relay st'). rewrite Ef.
  destruct (enqueue_synchronized_frame_set _ _) as [relay taken]. by destruct taken; split_and!.
Qed.

Lemma relay_frame_path d t n c b p p' : match relay_frame d t n c b p, relay_frame d t n c b p' with
  | Ok m, Ok m' => without_path m = without_path m'
  | Raise e, Raise e' => e = e'
  | _, _ => False
  end.
Proof. unfold relay_frame. destruct (int64 t), (uint64 (default 0 n)); reflexivity. Qed.

Lemma relay_enqueue_same s s' m m' : same_relay s s' -> without_path m = without_path m' ->
  same_relay (relay_enqueue s m).1 (relay_enqueue s' m').1 /\ (relay_enqueue s m).2 = (relay_enqueue s' m').2.
Proof.
  intros (Ee & Ec & Eq) E. unfold relay_enqueue. rewrite Ee. destruct (rs_enabled s') eqn:E'; cbn; [|split; [split_and!; congruence|done]].
  split; [|done]. split_and!; cbn; [congruence|by rewrite Ec|]. rewrite !fmap_app, Eq. cbn. congruence.
Qed.

(** [finalize_archive_state] decides the set. *)
Lemma finalize_state_live s fs state error : is_Some (ss_matcher s) ->
  live_set (service_finalize_archive_state s fs state error).2 = live_set fs /\
  fs_archive_state (service_finalize_archive_state s fs state error).2 = state.
Proof. intros [m Hm]. unfold service_finalize_archive_state. rewrite Hm. done. Qed.

Lemma manifest_step_decided env db fs db' persisted state error :
  manifest_step env db fs = (db', persisted, state, error) -> state <> ARCHIVE_PENDING.
Proof.
  unfold manifest_step. cbv zeta. destruct (bool_decide (fs_archive_state fs = ARCHIVE_PENDING)) eqn:Ep.
  - rewrite andb_true_r. destruct (bool_decide (fs_identity_mode fs = _)).
    + destruct (ie_manifest_error env); [by intros [= <- <- <- <-]|].
      destruct (persist_frame_set_manifest _ _ _ _ _) as [d [b|e]]; by intros [= <- <- <- <-].
    + by intros [= <- <- <- <-].
  - rewrite andb_false_r. intros [= <- <- <- <-]. by apply bool_decide_eq_false in Ep.
Qed.

(** What of a result is not about the archive. *)
Definition live_result (r : IngestResult) :=
  (ir_relay_enqueued r, ir_relay_mode r, ir_frame_set_relay_enqueued r, live_set <$> ir_synchronized_frame_set r).

(** Two states after [archive_step]: the same relays, and synchronizers and
    frame-sets that differ in archive fields only. *)
Definition same_after (s s' : IngestState) (fs fs' : option SynchronizedFrameSet) : Prop :=
  same_live (ig_sync s, fs) (ig_sync s', fs') /\ same_relay (ig_relay s) (ig_relay s') /\
  ig_frame_set_relay s = ig_frame_set_relay s'.

Lemma archive_step_same env env' st st' call live : same_live_state st st' ->
  (is_Some (lp_frame_set live) -> is_Some (ss_matcher (ig_sync st))) ->
  let '(s, o, _, fs) := archive_step env st call live in let '(s', o', _, fs') := archive_step env' st' call live in
  same_after s s' fs fs'.
Proof.
  intros (Es & Ey & Ef) Hm. unfold archive_step. rewrite Es, Ey, Ef. rewrite Es in Hm.
  destruct (frame_path env call) as [p1 e1], (frame_path env' call) as [p2 e2].
  destruct (persist_frame_archive (ie_cwd env) _ _ _ _ _ _ _ _ _ _) as [[f1 d1] o1].
  destruct (persist_frame_archive (ie_cwd env') _ _ _ _ _ _ _ _ _ _) as [[f2 d2] o2].
  pose proof (finalize_frame_live (ig_sync st') (lp_frame live) (lp_frame_set live)
    (fr_id <$> oc_frame o1) (oc_file_path o1) (oc_state o1) (oc_error o1)
    (fr_id <$> oc_frame o2) (oc_file_path o2) (oc_state o2) (oc_error o2) Hm) as Hl.
  destruct (finalize_frame_archive _ _ _ _ (oc_file_path o1) _ _) as [y1 fs1].
  destruct (finalize_frame_archive _ _ _ _ (oc_file_path o2) _ _) as [y2 fs2].
  destruct (update_frame (ig_streams st) _ _ _ _ _ _ _ _ _ _ _), (update_frame (ig_streams st') _ _ _ _ _ _ _ _ _ _ _).
  by split_and!.
Qed.

Lemma raw_relay_step_same st st' live p p' fs fs' : same_after st st' fs fs' ->
  same_after (raw_relay_step st live p).1 (raw_relay_step st' live p').1 fs fs' /\
  (raw_relay_step st live p).2 = (raw_relay_step st' live p').2.
Proof.
  intros (Hs & Hr & Hf). unfold raw_relay_step. destruct (bool_decide _); [|by split_and!].
  pose proof (relay_frame_path (in_device_id (lp_frame live)) (in_timestamp_ms (lp_frame live))
    (in_sequence (lp_frame live)) (in_content_type (lp_frame live)) (in_image_bytes (lp_frame live)) p p') as Hm.
  unfold _build_raw_relay_frame. cbn in Hm |- *.
  destruct (relay_frame _ _ _ _ _ p) as [m|e], (relay_frame _ _ _ _ _ p') as [m'|e']; try done.
  - destruct (relay_enqueue_same _ _ m m' Hr Hm) as [Hq Ht].
    destruct (relay_enqueue (ig_relay st) m), (relay_enqueue (ig_relay st') m'). cbn in Hq, Ht |- *. by subst.
  - cbn. by subst.
Qed.

Lemma settle_step_live env st live raw fs : is_Some (ss_matcher (ig_sync st)) ->
  let '(s, fs', _) := settle_step env st live raw fs in
  ig_relay s = ig_relay st /\ ig_frame_set_relay s = ig_frame_set_relay st /\
  live_set fs' = live_set fs /\ fs_archive_state fs' <> ARCHIVE_PENDING.
Proof.
  intros Hm. unfold settle_step. destruct (manifest_step env (ig_db st) fs) as [[[db persisted] state] error] eqn:E.
  apply manifest_step_decided in E.
  destruct (finalize_state_live (ig_sync st) fs state error Hm) as [Hl Ha].
  destruct (service_finalize_archive_state _ _ _ _) as [sync fs']. cbn in Hl, Ha. by subst.
Qed.

Definition decided (a : IngestResult) : Prop :=
  forall fs, ir_synchronized_frame_set a = Some fs -> fs_archive_state fs <> ARCHIVE_PENDING.

(** The same answer as far as the live path goes. *)
Definition same_answer (r r' : result ingest_error IngestResult) : Prop :=
  match r, r' with
  | Ok a, Ok a' => live_result a = live_result a' /\ decided a
  | Raise e, Raise e' => e = e'
  | _, _ => False
  end.

Lemma archive_phase_same env env' st st' call live : same_live_state st st' ->
  (is_Some (lp_frame_set live) -> is_Some (ss_matcher (ig_sync st))) ->
  let '(s, r) := archive_phase env st call live in let '(s', r') := archive_phase env' st' call live in
  same_relay (ig_relay s) (ig_relay s') /\ ig_frame_set_relay s = ig_frame_set_relay s' /\ same_answer r r'.
Proof.
  intros Hst Hm. unfold archive_phase.
  pose proof (archive_step_same env env' st st' call live Hst Hm) as Ha.
  destruct (archive_step env st call live) as [[[s1 o1] c1] fs1], (archive_step env' st' call live) as [[[s2 o2] c2] fs2].
  destruct (raw_relay_step_same s1 s2 live (oc_file_path o1) (oc_file_path o2) fs1 fs2 Ha) as [Hb Er]. clear Ha.
  destruct (raw_relay_step s1 _ _) as [t1 r1], (raw_relay_step s2 _ _) as [t2 r2]. cbn [fst snd] in Hb, Er. subst r2.
  destruct Hb as ((Hl & Hi & Hs) & Hr & Hf). cbn [fst snd] in Hl, Hi, Hs.
  destruct r1 as [raw|e]; [|by split_and!].
  destruct fs1 as [fs1|], fs2 as [fs2|]; try discriminate Hl; [|by split_and!].
  apply (inj Some) in Hl. pose proof (Hs ltac:(eauto)) as Hs1. pose proof (proj1 Hi Hs1) as Hs2.
  pose proof (settle_step_live env t1 live raw fs1 Hs1) as H1.
  pose proof (settle_step_live env' t2 live raw fs2 Hs2) as H2.
  destruct (settle_step env t1 live raw fs1) as [[u1 g1] b1], (settle_step env' t2 live raw fs2) as [[u2 g2] b2].
  destruct H1 as (E1 & E2 & E3 & Hd), H2 as (E4 & E5 & E6 & _).
  rewrite E1, E4, E2, E5. split_and!; [apply Hr..|done|].
  split; [|by intros fs [= <-]]. unfold live_result. cbn. congruence.
Qed.

(** [manifest_persisted] is only said of a manifest that is in the tables. *)
Lemma persisted_is_stored env db fs db' state error : manifest_step env db fs = (db', true, state, error) ->
  exists uid, fs_frame_set_uid fs = Some uid /\ is_Some (db_manifests db' !! uid).
Proof.
  unfold manifest_step. cbv zeta. destruct (bool_decide (fs_identity_mode fs = _)), (bool_decide (fs_archive_state fs = _));
    cbn [andb]; try done. destruct (ie_manifest_error env); [done|].
  destruct (persist_frame_set_manifest _ _ _ _ _) as [d [b|e]] eqn:E; [|done]. intros [= <- -> _ _].
  apply persist_has_effect in E. inversion E as [? Hr|uid m|d' m ms session run Hn]; simplify_eq.
  destruct (nm_manifest _ _ _ _ _ _ _ _ _ Hn) as (fresh & _ & Hm). apply new_manifest_Some in Hm as [Hu _].
  exists (mf_frame_set_uid m). split; [exact Hu|]. rewrite (nm_db_manifests _ _ _ _ _ _ _ _ _ Hn), lookup_insert_eq. eauto.
Qed.
End Separation.

(** C17: The archive never holds up the live path. Take two calls with the
    same frame, synchronizer, relays and live clock, whose archives differ in
    anything: files on disk, rows of the database, failures of the disk, of
    the database, of the path, of the manifest. Both raise the same error or
    neither raises; they choose the same relay mode, complete the same
    frame-set with the same members and hand the relays the same messages
    (but for the path in a raw one); and the set in the answer is never left
    PENDING. *)
Theorem archive_never_blocks_live `{Hashing} env env' st st' call :
  same_live_inputs env env' -> same_live_state st st' ->
  let '(s, r) := ingest_frame env st call in let '(s', r') := ingest_frame env' st' call in
  same_relay (ig_relay s) (ig_relay s') /\ ig_frame_set_relay s = ig_frame_set_relay s' /\ same_answer r r'.
Proof.
  intros Henv Hst. unfold ingest_frame. pose proof (live_phase_same env env' st st' call Henv Hst) as Hl.
  destruct (live_phase env st call) as [s1 r1], (live_phase env' st' call) as [s2 r2].
  destruct Hl as (Hs & <- & Hm). destruct r1 as [live|e]; [by apply archive_phase_same; [|apply Hm]|].
  destruct Hs as (_ & Ey & Ef). by rewrite Ey.
Qed.

Definition demo_env (writer : ArchiveWriter) (db_error : option string) : ingest_environment :=
  mkIngestEnvironment 1000 1000 "r1" 1000 [] (fun d _ f _ => Ok ("/srv/" +:+ d +:+ "/" +:+ f)) writer db_error
    "IntegrityError" None 1001 false 1002.

Definition demo_state (files : file_system) : IngestState :=
  mkIngestState (configure new_StreamSyncService true ["a"] 50 4 4 "run-0").1 files empty_database []
    new_relay_service (mkFrameSetRelay (configure_relay new_relay_service "proc:1" true) None).

Definition demo_call : IngestCall :=
  mkIngestCall "a" 100 "pixels" (Some 1) "image/jpeg" None (Some "s") None None None None None.

Definition broken_disk : write_faults :=
  mkWriteFaults None (Some (OSError "disk full")) None 0 None None None None None None None None.

Abbreviation demo_good := (ingest_frame (H := transparent_hashing) (demo_env (durable_write_bytes no_faults "u") None)
  (demo_state demo_new_sys) demo_call).
Abbreviation demo_bad :=
  (ingest_frame (H := transparent_hashing) (demo_env (durable_write_bytes broken_disk "u") (Some "db down"))
     (demo_state demo_sys) demo_call).

Definition answered (state : string) (queued : nat) (r : IngestState * result ingest_error IngestResult) : bool :=
  match r with
  | (s, Ok a) => bool_decide (ir_archive_state a = state) &&
                 bool_decide (length (rs_queue (fr_service (ig_frame_set_relay s))) = queued)
  | (_, Raise _) => false
  end.

Lemma answered_inv state queued r : answered state queued r = true -> exists s a, r = (s, Ok a) /\
  ir_archive_state a = state /\ length (rs_queue (fr_service (ig_frame_set_relay s))) = queued.
Proof.
  destruct r as [s [a|e]]; [|discriminate]. cbn [answered]. bools.
  intros [Ha Hq]. eauto.
Qed.

Lemma archive_never_blocks_live_witness : exists s a s' a',
  demo_good = (s, Ok a) /\ demo_bad = (s', Ok a') /\ live_result a = live_result a' /\
  ir_archive_state a = ARCHIVE_DURABLE /\ ir_archive_state a' = ARCHIVE_DEGRADED_LIVE_ONLY /\
  length (rs_queue (fr_service (ig_frame_set_relay s'))) = 1%nat.
Proof.
  assert (answered ARCHIVE_DURABLE 1 demo_good = true) as (s & a & E & H1 & _)%answered_inv by (vm_compute; reflexivity).
  assert (answered ARCHIVE_DEGRADED_LIVE_ONLY 1 demo_bad = true) as (s' & a' & E' & H2 & H3)%answered_inv
    by (vm_compute; reflexivity).
  exists s, a, s', a'. split; [exact E|]. split; [exact E'|].
  pose proof (archive_never_blocks_live (H := transparent_hashing)
    (demo_env (durable_write_bytes no_faults "u") None) (demo_env (durable_write_bytes broken_disk "u") (Some "db down"))
    (demo_state demo_new_sys) (demo_state demo_sys) demo_call) as T.
  rewrite E, E' in T. destruct T as (_ & _ & T & _); [repeat (split; try reflexivity)..|].
  split; [exact T|]. split; [exact H1|]. split; [exact H2|exact H3].
Defined.

