(* ===== verification/Mjpeg.v ===== *)
(** * The frames of an MJPEG stream

    src/app/services/ingest/adapters/mjpeg_stream.py: [extract_mjpeg_frames]
    cuts a buffer at the markers of JPEG, and [iter_mjpeg_frames] feeds it
    with the chunks of an HTTP answer as they come. A buffer is the list of
    its bytes. *)

From Stdlib Require Import Ascii.
From S2P Require Import Prelude.

Abbreviation bytes := (list ascii).

Definition JPEG_SOI : ascii * ascii := (ascii_of_nat 255, ascii_of_nat 216).
Definition JPEG_EOI : ascii * ascii := (ascii_of_nat 255, ascii_of_nat 217).

(** [buffer.find(marker)]. *)
Fixpoint find (marker : ascii * ascii) (buffer : bytes) : option nat :=
  match buffer with
  | x :: ((y :: _) as rest) => if bool_decide ((x, y) = marker) then Some 0%nat else S <$> find marker rest
  | _ => None
  end.

(** [buffer.find(marker, start)]. *)
Definition find_from (start : nat) (marker : ascii * ascii) (buffer : bytes) : option nat :=
  Nat.add start <$> find marker (drop start buffer).

(** One turn of the loop: what stays in the buffer, or a frame before that. *)
Inductive turn := Stopped (rest : bytes) | Framed (frame rest : bytes).

Definition extract_turn (buffer : bytes) : turn :=
  match find JPEG_SOI buffer with
  | None => Stopped []
  | Some start_index =>
      match find_from (start_index + 2) JPEG_EOI buffer with
      | None => Stopped (drop start_index buffer)
      | Some end_index =>
          let frame_end := (end_index + 2)%nat in
          Framed (drop start_index (take frame_end buffer)) (drop frame_end buffer)
      end
  end.

Fixpoint extract_loop (fuel : nat) (buffer : bytes) : list bytes * bytes :=
  match fuel with
  | O => ([], buffer)
  | S fuel =>
      match extract_turn buffer with
      | Stopped rest => ([], rest)
      | Framed frame rest => prod_map (cons frame) id (extract_loop fuel rest)
      end
  end.

(** A frame takes four bytes, so a turn for every byte is enough. *)
Definition extract_mjpeg_frames (buffer : bytes) : list bytes * bytes := extract_loop (S (length buffer)) buffer.

(** The frames yielded over the chunks, with the buffer that is left. *)
Definition feed (st : list bytes * bytes) (chunk : bytes) : list bytes * bytes :=
  match chunk with
  | [] => st
  | _ => let '(frames, rest) := extract_mjpeg_frames (st.2 ++ chunk) in (st.1 ++ frames, rest)
  end.

Definition iter_mjpeg_frames (chunks : list bytes) : list bytes * bytes := foldl feed ([], []) chunks.

(** ** Finding a marker *)

Definition marker_bytes (marker : ascii * ascii) : bytes := [marker.1; marker.2].

Lemma find_cons marker x y rest :
  find marker (x :: y :: rest) = if bool_decide ((x, y) = marker) then Some 0%nat else S <$> find marker (y :: rest).
Proof. done. Qed.

Lemma find_Some marker buffer i : find marker buffer = Some i ->
  exists before after, buffer = before ++ marker_bytes marker ++ after /\ length before = i.
Proof.
  revert i. induction buffer as [|x [|y rest] IH]; intros i; try done. rewrite find_cons. case_bool_decide as Hm.
  - intros [= <-]. exists [], rest. by rewrite <- Hm.
  - intros (j & Ef & ->)%fmap_Some. destruct (IH j Ef) as (before & after & E & Hl). exists (x :: before), after.
    split; [by rewrite E|by cbn; rewrite Hl].
Qed.

(** The first occurrence stays the first when bytes follow. *)
Lemma find_app_Some marker buffer c i : find marker buffer = Some i -> find marker (buffer ++ c) = Some i.
Proof.
  revert i. induction buffer as [|x [|y rest] IH]; intros i; try done. cbn [app]. rewrite !find_cons. case_bool_decide; [done|].
  intros (j & Ef & ->)%fmap_Some. cbn [app] in IH. by rewrite (IH j Ef).
Qed.

(** A marker may lie across the end of [b] and the beginning of [c]. *)
Definition straddles (marker : ascii * ascii) (b c : bytes) : Prop := last b = Some marker.1 /\ head c = Some marker.2.

Lemma find_app_None marker b c : find marker b = None -> ~ straddles marker b c ->
  find marker (b ++ c) = Nat.add (length b) <$> find marker c.
Proof.
  intros Hb Hs. induction b as [|x [|y rest] IH].
  - cbn [app]. by destruct (find marker c).
  - destruct c as [|y c]; [done|]. cbn [app]. rewrite find_cons. case_bool_decide as Hm.
    + destruct Hs. by rewrite <- Hm.
    + by destruct (find marker (y :: c)).
  - rewrite find_cons in Hb. destruct (bool_decide ((x, y) = marker)) eqn:Hm; [done|]. apply fmap_None in Hb. bools in Hm.
    cbn [app] in *. rewrite find_cons, bool_decide_false by done. rewrite IH; [|done|done].
    by destruct (find marker c).
Qed.

(** ** The frames of a buffer *)

Lemma extract_turn_shorter buffer frame rest : extract_turn buffer = Framed frame rest ->
  exists k, rest = drop k buffer /\ (4 <= k <= length buffer)%nat.
Proof.
  unfold extract_turn, find_from. destruct (find JPEG_SOI buffer) as [i|] eqn:Ei; [|done].
  destruct (find JPEG_EOI (drop (i + 2) buffer)) as [j|] eqn:Ej; [|done]. intros [= _ <-]. cbn.
  exists (i + 2 + j + 2)%nat. split; [done|]. apply find_Some in Ej as (before & after & E & Hl).
  apply (f_equal length) in E. rewrite length_drop, !length_app in E. cbn in E. lia.
Qed.

Lemma extract_loop_fuel fuel buffer : (length buffer < fuel)%nat ->
  extract_loop fuel buffer =
    match extract_turn buffer with
    | Stopped rest => ([], rest)
    | Framed frame rest => prod_map (cons frame) id (extract_mjpeg_frames rest)
    end.
Proof.
  revert buffer. induction fuel as [fuel IH] using lt_wf_ind. intros buffer Hf. destruct fuel as [|fuel]; [lia|]. cbn [extract_loop].
  destruct (extract_turn buffer) as [rest|frame rest] eqn:Et; [done|].
  destruct (extract_turn_shorter _ _ _ Et) as (k & -> & Hk). f_equal. unfold extract_mjpeg_frames.
  rewrite (IH fuel), (IH (S (length (drop k buffer)))); [done|..]; rewrite ?length_drop; lia.
Qed.

(** The loop as an equation. *)
Lemma extract_equation buffer : extract_mjpeg_frames buffer =
  match extract_turn buffer with
  | Stopped rest => ([], rest)
  | Framed frame rest => prod_map (cons frame) id (extract_mjpeg_frames rest)
  end.
Proof. apply extract_loop_fuel. lia. Qed.

(** What precedes the first marker is skipped. *)
Lemma extract_turn_skip before r : find JPEG_SOI (before ++ r) = Some (length before) -> find JPEG_SOI r = Some 0%nat ->
  extract_turn (before ++ r) = extract_turn r.
Proof.
  intros Hb Hr. unfold extract_turn, find_from. rewrite Hb, Hr. rewrite <- drop_drop, drop_app_length. cbn [Nat.add drop].
  destruct (find JPEG_EOI (drop 2 r)) as [j|]; cbn [fmap option_fmap option_map]; [|done].
  rewrite <- !Nat.add_assoc, take_app_add, drop_app_add, drop_app_length. done.
Qed.

Lemma find_prefix marker r : find marker (marker_bytes marker ++ r) = Some 0%nat.
Proof. destruct marker. cbn. by rewrite bool_decide_true. Qed.

(** A turn, when more bytes follow. *)
Lemma extract_turn_app b c : match extract_turn b with
  | Framed frame rest => extract_turn (b ++ c) = Framed frame (rest ++ c)
  | Stopped [] => ~ straddles JPEG_SOI b c -> extract_mjpeg_frames (b ++ c) = extract_mjpeg_frames c
  | Stopped rest => extract_mjpeg_frames (b ++ c) = extract_mjpeg_frames (rest ++ c)
  end.
Proof.
  unfold extract_turn at 1, find_from. destruct (find JPEG_SOI b) as [i|] eqn:Ei.
  - destruct (find_Some _ _ _ Ei) as (before & after & Eb & Hl). subst i.
    destruct (find JPEG_EOI (drop (length before + 2) b)) as [j|] eqn:Ej; cbn [fmap option_fmap option_map].
    + destruct (find_Some _ _ _ Ej) as (body & after' & Eb' & Hl').
      apply (f_equal length) in Eb'. rewrite length_drop, !length_app in Eb'. cbn in Eb'.
      unfold extract_turn, find_from. rewrite (find_app_Some _ _ c _ Ei).
      rewrite drop_app_le by lia. rewrite (find_app_Some _ _ c _ Ej). cbn [fmap option_fmap option_map].
      rewrite take_app_le, drop_app_le by lia. done.
    + rewrite Eb, drop_app_length. cbn [marker_bytes app]. rewrite (extract_equation ((before ++ _) ++ c)), (extract_equation (_ :: _)).
      rewrite <- app_assoc, extract_turn_skip; [done|..].
      * rewrite app_assoc. apply find_app_Some. by rewrite Eb in Ei.
      * apply (find_prefix JPEG_SOI).
  - intros Hs. rewrite !extract_equation. unfold extract_turn, find_from. rewrite (find_app_None _ _ _ Ei Hs).
    destruct (find JPEG_SOI c) as [i|] eqn:Ec; cbn [fmap option_fmap option_map]; [|done].
    rewrite <- Nat.add_assoc, <- !drop_drop, drop_app_length.
    destruct (find JPEG_EOI (drop 2 (drop i c))) as [j|]; cbn [fmap option_fmap option_map]; [|done].
    rewrite <- !Nat.add_assoc, take_app_add, drop_app_add, <- drop_drop, drop_app_length. done.
Qed.

Lemma prod_map_app_nil {A B} (p : list A * B) : prod_map (app []) id p = p.
Proof. by destruct p. Qed.

(** Fed in two parts, a buffer gives the frames it gives in one, unless a
    marker across the border is lost with what came before it. *)
Lemma extract_app b c : let '(frames, rest) := extract_mjpeg_frames b in
  (rest <> [] \/ ~ straddles JPEG_SOI b c) ->
  extract_mjpeg_frames (b ++ c) = prod_map (app frames) id (extract_mjpeg_frames (rest ++ c)).
Proof.
  remember (length b) as n eqn:Hn. revert b Hn. induction n as [n IH] using lt_wf_ind. intros b ->.
  rewrite (extract_equation b). pose proof (extract_turn_app b c) as Ht.
  destruct (extract_turn b) as [rest|frame rest] eqn:Et.
  - intros Hs. destruct rest as [|x rest].
    + destruct Hs as [?|Hs]; [done|]. by rewrite (Ht Hs), prod_map_app_nil.
    + by rewrite Ht, prod_map_app_nil.
  - destruct (extract_turn_shorter _ _ _ Et) as (k & -> & Hk).
    specialize (IH (length (drop k b)) ltac:(rewrite length_drop; lia) (drop k b) eq_refl).
    destruct (extract_mjpeg_frames (drop k b)) as [frames rest]. cbn [prod_map fst snd id] in *. intros Hs.
    rewrite (extract_equation (b ++ c)), Ht, IH; [by destruct (extract_mjpeg_frames (rest ++ c))|].
    destruct Hs as [?|Hs]; [by left|]. destruct (decide (drop k b = [])) as [Ez|Ez].
    + right. rewrite Ez. intros []. done.
    + right. intros [H1 H2]. apply Hs. split; [|done]. rewrite <- (take_drop k b), last_app, H1. done.
Qed.

(** ** The stream in chunks *)

(** No start marker lies across the end of a chunk. *)
Definition markers_whole (chunks : list bytes) : Prop := forall before c after,
  chunks = before ++ c :: after -> ~ straddles JPEG_SOI (concat before) c.

(** Then the chunks do not matter. *)
Lemma iter_concat chunks : markers_whole chunks -> iter_mjpeg_frames chunks = extract_mjpeg_frames (concat chunks).
Proof.
  induction chunks as [|c chunks IH] using rev_ind; intros Hw; [done|]. unfold iter_mjpeg_frames in *.
  rewrite foldl_snoc, IH by (intros before c' after ->; apply (Hw before c' (after ++ [c])); by rewrite <- app_assoc).
  rewrite concat_app. cbn [concat]. rewrite app_nil_r. specialize (Hw chunks c [] eq_refl).
  pose proof (extract_app (concat chunks) c) as He. destruct (extract_mjpeg_frames (concat chunks)) as [frames rest] eqn:E.
  unfold feed. destruct c as [|x c]; [by rewrite app_nil_r, E|]. cbn [fst snd].
  rewrite (He (or_intror Hw)). by destruct (extract_mjpeg_frames (rest ++ x :: c)).
Qed.

(** *** What the frames are *)

Definition occurs_at (marker : ascii * ascii) (i : nat) (b : bytes) : Prop :=
  exists before after, b = before ++ marker_bytes marker ++ after /\ length before = i.

(** The frames of a byte string, and what may still become one: each begins
    at the first start marker after the one before, and ends with the first
    end marker inside it. *)
Inductive frames_in : bytes -> list bytes -> bytes -> Prop :=
| no_frame b : (forall i, ~ occurs_at JPEG_SOI i b) -> frames_in b [] []
| open_frame skipped body : (forall i, occurs_at JPEG_SOI i (skipped ++ marker_bytes JPEG_SOI ++ body) -> length skipped <= i)%nat ->
    (forall i, ~ occurs_at JPEG_EOI i body) ->
    frames_in (skipped ++ marker_bytes JPEG_SOI ++ body) [] (marker_bytes JPEG_SOI ++ body)
| next_frame skipped body b frames rest :
    (forall i, occurs_at JPEG_SOI i (skipped ++ marker_bytes JPEG_SOI ++ body ++ marker_bytes JPEG_EOI ++ b) -> length skipped <= i)%nat ->
    (forall i, occurs_at JPEG_EOI i (body ++ marker_bytes JPEG_EOI) -> length body <= i)%nat ->
    frames_in b frames rest ->
    frames_in (skipped ++ marker_bytes JPEG_SOI ++ body ++ marker_bytes JPEG_EOI ++ b)
      ((marker_bytes JPEG_SOI ++ body ++ marker_bytes JPEG_EOI) :: frames) rest.

Lemma occurs_find marker i b : occurs_at marker i b -> exists j, find marker b = Some j /\ (j <= i)%nat.
Proof.
  intros (before & after & -> & <-). induction before as [|x before IH]; [exists 0%nat; split; [apply find_prefix|done]|].
  destruct IH as (j & Hj & Hle). cbn [app]. destruct (before ++ marker_bytes marker ++ after) as [|y l] eqn:El; [by destruct before|].
  rewrite find_cons. case_bool_decide; [exists 0%nat; split; [done|lia]|]. exists (S j). rewrite Hj. split; [done|cbn; lia].
Qed.

Lemma find_first marker b i : find marker b = Some i <-> occurs_at marker i b /\ forall j, occurs_at marker j b -> (i <= j)%nat.
Proof.
  split.
  - intros Hi. split; [by apply find_Some|]. intros j (k & Hk & Hle)%occurs_find. rewrite Hi in Hk. by injection Hk as <-.
  - intros [(k & Hk & Hle)%occurs_find Hf]. rewrite Hk. f_equal. apply find_Some, Hf in Hk. lia.
Qed.

Lemma find_absent marker b : find marker b = None <-> forall i, ~ occurs_at marker i b.
Proof.
  split.
  - intros Hn i (j & Hj & _)%occurs_find. congruence.
  - intros Hn. destruct (find marker b) as [i|] eqn:E; [|done]. by destruct (Hn i (find_Some _ _ _ E)).
Qed.

(** The end marker that closes the first frame, found in it or in the rest. *)
Lemma find_end body b : find JPEG_EOI (body ++ marker_bytes JPEG_EOI) = Some (length body) ->
  find JPEG_EOI (body ++ marker_bytes JPEG_EOI ++ b) = Some (length body).
Proof. intros H. rewrite app_assoc. by apply find_app_Some. Qed.

Lemma find_end_inv body b : find JPEG_EOI (body ++ marker_bytes JPEG_EOI ++ b) = Some (length body) ->
  find JPEG_EOI (body ++ marker_bytes JPEG_EOI) = Some (length body).
Proof.
  rewrite !find_first. intros [_ Hf]. split; [by exists body, []|].
  intros j (before & after & E & <-). apply Hf. exists before, (after ++ b). by rewrite app_assoc, E, <- !app_assoc.
Qed.

(** A turn finds the first frame. *)
Lemma extract_turn_frame skipped body b :
  find JPEG_SOI (skipped ++ marker_bytes JPEG_SOI ++ body ++ marker_bytes JPEG_EOI ++ b) = Some (length skipped) ->
  find JPEG_EOI (body ++ marker_bytes JPEG_EOI) = Some (length body) ->
  extract_turn (skipped ++ marker_bytes JPEG_SOI ++ body ++ marker_bytes JPEG_EOI ++ b) =
    Framed (marker_bytes JPEG_SOI ++ body ++ marker_bytes JPEG_EOI) b.
Proof.
  intros Hs He. rewrite extract_turn_skip; [|done|apply find_prefix].
  unfold extract_turn, find_from. rewrite find_prefix. cbn [Nat.add].
  change (drop 2 (marker_bytes JPEG_SOI ++ ?l)) with l. rewrite (find_end _ _ He). cbn [fmap option_fmap option_map].
  replace (S (S (length body)) + 2)%nat with (length (marker_bytes JPEG_SOI ++ body ++ marker_bytes JPEG_EOI))
    by (rewrite !length_app; cbn; lia).
  assert (marker_bytes JPEG_SOI ++ body ++ marker_bytes JPEG_EOI ++ b = (marker_bytes JPEG_SOI ++ body ++ marker_bytes JPEG_EOI) ++ b) as ->
    by (by rewrite <- !app_assoc).
  by rewrite take_app_length, drop_app_length.
Qed.

Lemma extract_frames_in b : let '(frames, rest) := extract_mjpeg_frames b in frames_in b frames rest.
Proof.
  remember (length b) as n eqn:Hn. revert b Hn. induction n as [n IH] using lt_wf_ind. intros b ->.
  rewrite extract_equation. destruct (find JPEG_SOI b) as [i|] eqn:Ei.
  - destruct (find_Some _ _ _ Ei) as (skipped & body & -> & <-).
    destruct (find JPEG_EOI body) as [j|] eqn:Ej.
    + destruct (find_Some _ _ _ Ej) as (body' & b & -> & <-). apply find_end_inv in Ej.
      rewrite extract_turn_frame by done.
      specialize (IH (length b) ltac:(rewrite !length_app; cbn; lia) b eq_refl).
      destruct (extract_mjpeg_frames b) as [frames rest]. cbn. apply next_frame; [by apply find_first..|done].
    + rewrite extract_turn_skip; [|done|apply find_prefix]. unfold extract_turn, find_from. rewrite find_prefix. cbn [Nat.add].
      change (drop 2 (marker_bytes JPEG_SOI ++ body)) with body. rewrite Ej. cbn.
      apply (open_frame skipped body); [by apply find_first|by apply find_absent].
  - unfold extract_turn. rewrite Ei. apply no_frame. by apply find_absent.
Qed.

Lemma frames_in_extract b frames rest : frames_in b frames rest -> extract_mjpeg_frames b = (frames, rest).
Proof.
  induction 1 as [b Hn|skipped body Hs He|skipped body b frames rest Hs He Hr IH]; rewrite extract_equation.
  - unfold extract_turn. by rewrite (proj2 (find_absent JPEG_SOI b) Hn).
  - assert (find JPEG_SOI (skipped ++ marker_bytes JPEG_SOI ++ body) = Some (length skipped)) as Hf
      by (apply find_first; split; [by exists skipped, body|done]).
    rewrite extract_turn_skip; [|done|apply find_prefix]. unfold extract_turn, find_from. rewrite find_prefix. cbn [Nat.add].
    change (drop 2 (marker_bytes JPEG_SOI ++ body)) with body. by rewrite (proj2 (find_absent JPEG_EOI body) He).
  - rewrite extract_turn_frame, IH; [done|..]; apply find_first; (split; [|done]); [by eexists skipped, _|by exists body, []].
Qed.

(** C27: The frames of the stream. However the answer is cut into chunks, as
    long as no start marker is cut, the generator yields exactly the frames
    of the whole byte string, each from the first start marker after the one
    before to the first end marker inside it, and keeps what may still
    become one. *)
Theorem mjpeg_frames_exact chunks frames rest : markers_whole chunks ->
  iter_mjpeg_frames chunks = (frames, rest) <-> frames_in (concat chunks) frames rest.
Proof.
  intros Hw. rewrite iter_concat by done. split; [|apply frames_in_extract].
  intros E. pose proof (extract_frames_in (concat chunks)) as H. by rewrite E in H.
Qed.

Definition demo_frame : bytes := marker_bytes JPEG_SOI ++ [ascii_of_nat 7] ++ marker_bytes JPEG_EOI.

Lemma mjpeg_frames_exact_witness :
  let chunks := [[ascii_of_nat 1] ++ take 3 demo_frame; []; drop 3 demo_frame ++ take 2 demo_frame] in
  iter_mjpeg_frames chunks = ([demo_frame], take 2 demo_frame) /\
  frames_in (concat chunks) [demo_frame] (take 2 demo_frame).
Proof.
  intros chunks. assert (iter_mjpeg_frames chunks = ([demo_frame], take 2 demo_frame)) as E by (vm_compute; reflexivity).
  split; [exact E|]. refine (proj1 (mjpeg_frames_exact _ _ _ _) E).
  intros before c after Hc [H1 H2]. destruct before as [|c1 [|c2 [|c3 before]]]; cbn in Hc; [done|..].
  - injection Hc as <- <- <-. discriminate H2.
  - injection Hc as <- <- <- <-. discriminate H2.
  - by destruct before.
Defined.

(** A start marker cut in two is lost, with its frame. *)
Example cut_marker_loses_frame :
  iter_mjpeg_frames [take 1 demo_frame; drop 1 demo_frame] = ([], []) /\
  extract_mjpeg_frames (concat [take 1 demo_frame; drop 1 demo_frame]) = ([demo_frame], []).
Proof. vm_compute. by split. Qed.
