(* ===== verification/CameraSessions.v ===== *)
(** * Camera sessions

    The cameras the server fetches from: their configuration
    (src/app/core/cameras.py), the schedule of captures
    (src/app/services/ingest/capture_timing.py), the loops of the two kinds
    of session (mjpeg_ingest.py and snapshot_ingest.py of
    src/app/services/ingest/adapters) and the manager of their threads
    (src/app/services/ingest/camera_session_manager.py). The HTTP answers,
    the readings of the clocks and the stop flag as the loop meets them are
    inputs of a turn; the experiment recorder and the lines printed are left
    out. *)

From Stdlib Require Import Ascii.
From S2P Require Import Prelude Float64 Digest Config FileSystem Archive Ingest Mjpeg.

Record CameraInputConfig := mkCameraInputConfig {
  ci_device_id : string;
  ci_source_url : string;
  ci_collect_interval_sec : float64;
  ci_source_kind : string;
  ci_capture_timeout_sec : float64;
  ci_content_type : string;
}.

(** ** From the environment *)

Definition get_camera_env (env : environ) (prefix suffix : string) (required : bool) (default_value : option string)
    : result config_error string :=
  let name := prefix +:+ "_" +:+ suffix in
  match set_value env name with
  | Some value => Ok (strip value)
  | None => if required then Raise (ConfigRuntimeError ("Missing required environment variable: " +:+ name))
            else Ok (default "" default_value)
  end.

Definition parse_positive_float (name raw_value : string) : result config_error float64 :=
  match py_float raw_value with
  | None => Raise (ConfigRuntimeError ("Invalid float value for " +:+ name +:+ ": " +:+ raw_value))
  | Some value => if float_leb value float_zero then Raise (ConfigRuntimeError (name +:+ " must be greater than 0"))
                  else Ok value
  end.

Definition build_camera_session_config (env : environ) (camera_id : string) : result config_error CameraInputConfig :=
  let prefix := upper camera_id in
  kind ← get_camera_env env prefix "INPUT_TYPE" false (Some (lower (get_optional_str_env env "CAMERA_INPUT_TYPE" "mjpeg")));
  let source_kind := lower kind in
  source_url ←
    if bool_decide (source_kind = "mjpeg") then get_camera_env env prefix "STREAM_URL" true None
    else if bool_decide (source_kind = "snapshot") then get_camera_env env prefix "SNAPSHOT_URL" true None
    else if bool_decide (source_kind = "grpc") then Ok ""
    else Raise (ConfigRuntimeError ("Unsupported camera input type: " +:+ prefix +:+ "_INPUT_TYPE=" +:+ source_kind));
  interval_raw ← get_camera_env env prefix "COLLECT_INTERVAL_SEC" false (Some "1.0");
  timeout_raw ← get_camera_env env prefix "CAPTURE_TIMEOUT_SEC" false (Some "10.0");
  interval ← parse_positive_float (prefix +:+ "_COLLECT_INTERVAL_SEC") interval_raw;
  timeout ← parse_positive_float (prefix +:+ "_CAPTURE_TIMEOUT_SEC") timeout_raw;
  Ok (mkCameraInputConfig camera_id source_url interval source_kind timeout "image/jpeg").

Fixpoint build_configs (env : environ) (camera_ids : list string) : result config_error (list CameraInputConfig) :=
  match camera_ids with
  | [] => Ok []
  | camera_id :: camera_ids =>
      config ← build_camera_session_config env camera_id;
      configs ← build_configs env camera_ids;
      Ok (config :: configs)
  end.

Definition build_camera_session_configs_from_env (env : environ) : result config_error (list CameraInputConfig) :=
  build_configs env (get_optional_csv_env env "CAMERA_SESSIONS" (Some [])).

(** ** The schedule *)

Definition calculate_next_capture_at (scheduled_at interval_sec now : float64) : result float_error float64 :=
  let next_capture_at := float_add scheduled_at interval_sec in
  if float_ltb now next_capture_at then Ok next_capture_at
  else
    quotient ← float_floordiv (float_sub now next_capture_at) interval_sec;
    missed ← int_of_float quotient;
    missed_intervals ← float_of_int (missed + 1);
    Ok (float_add next_capture_at (float_mul missed_intervals interval_sec)).

Definition log_schedule_lag (scheduled_at interval_sec loop_finished_at : float64) : result float_error float64 :=
  adjusted ← calculate_next_capture_at scheduled_at interval_sec loop_finished_at;
  if float_ltb (float_add scheduled_at interval_sec) adjusted then
    lag ← float_div (float_sub adjusted (float_add scheduled_at interval_sec)) interval_sec;
    _ ← round_of_float lag;
    Ok adjusted
  else Ok adjusted.

(** ** The sessions *)

Inductive capture_error :=
| IntervalValueError (message : string)
| InputRaised
| SleepOverflow
| CaptureFailed (e : ingest_error)
| ScheduleRaised (e : float_error).

(** How the thread of a session ends. *)
Inductive session_end := StopRequested | StreamEnded | FrameLimit | SessionRaised (e : capture_error).

(** What a session changes, with the calls of [ingest_frame] it has made. *)
Record session := mkSession {
  ss_sequence : Z;
  ss_accepted_count : Z;
  ss_next_capture_at : float64;
  ss_pipeline : IngestState;
  ss_calls : list IngestCall;
}.

#[export] Instance session_settable : Settable session := fun x => mkSession
  (ss_sequence x) (ss_accepted_count x) (ss_next_capture_at x) (ss_pipeline x) (ss_calls x).

(** The next frame of the iterator, or the answer to a download. *)
Inductive input_frame := InputBytes (image_bytes : bytes) | InputEnded | InputFailed.

Record turn_input := mkTurnInput {
  ti_stop : bool;
  ti_sleep_until : float64;
  ti_input : input_frame;
  ti_ready_at : float64;
  ti_timestamp_ms : Z;
  ti_ingest : ingest_environment;
  ti_finished_at : float64;
  ti_restarted_at : float64;
}.

Section Sessions.
Context `{Hashing}.

Definition session_call (config : CameraInputConfig) (sequence timestamp_ms : Z) (image_bytes : bytes) : IngestCall :=
  mkIngestCall (ci_device_id config) timestamp_ms (String.string_of_list_ascii image_bytes) (Some sequence)
    (ci_content_type config) None None None None None None None.

Definition reached_limit (max_frames : option Z) (accepted_count : Z) : bool :=
  match max_frames with Some m => m <=? accepted_count | None => false end.

(** The frame is numbered and handed to the pipeline. *)
Definition capture (config : CameraInputConfig) (s : session) (i : turn_input) (image_bytes : bytes)
    : session * result capture_error unit :=
  let s := s <| ss_sequence ::= Z.succ |> <| ss_accepted_count ::= Z.succ |> in
  let call := session_call config (ss_sequence s) (ti_timestamp_ms i) image_bytes in
  let '(pipeline, r) := ingest_frame (ti_ingest i) (ss_pipeline s) call in
  (s <| ss_pipeline := pipeline |> <| ss_calls ::= fun calls => calls ++ [call] |>,
   match r with Ok _ => Ok tt | Raise e => Raise (CaptureFailed e) end).

(** The rest of a turn that captured. *)
Definition rescheduled (max_frames : option Z) (s : session) (next : result float_error float64)
    : session * option session_end :=
  match next with
  | Raise e => (s, Some (SessionRaised (ScheduleRaised e)))
  | Ok at_ =>
      (s <| ss_next_capture_at := at_ |>, if reached_limit max_frames (ss_accepted_count s) then Some FrameLimit else None)
  end.

(** *** MJPEG *)

Definition mjpeg_turn (config : CameraInputConfig) (max_frames : option Z) (s : session) (i : turn_input)
    : session * option session_end :=
  if ti_stop i then (s, Some StopRequested)
  else match ti_input i with
  | InputEnded => (s, Some StreamEnded)
  | InputFailed => (s, Some (SessionRaised InputRaised))
  | InputBytes image_bytes =>
      if float_ltb (ti_ready_at i) (ss_next_capture_at s) then (s, None)
      else
        let '(s', r) := capture config s i image_bytes in
        match r with
        | Raise e => (s', Some (SessionRaised e))
        | Ok _ =>
            rescheduled max_frames s'
              (if float_eqb (ci_collect_interval_sec config) float_zero then Ok (ti_restarted_at i)
               else log_schedule_lag (ss_next_capture_at s') (ci_collect_interval_sec config) (ti_finished_at i))
        end
  end.

(** *** Snapshots *)

(** [max(0.0, x)], and whether [time.sleep] takes it: the nanoseconds fit 63
    bits. *)
Definition max_zero (x : float64) : float64 := if float_ltb float_zero x then x else float_zero.
Definition sleepable (x : float64) : bool :=
  float_ltb (float_mul x (float_of 1000000000 0 false)) (float_of 1 63 false).

Definition snapshot_turn (config : CameraInputConfig) (max_frames : option Z) (s : session) (i : turn_input)
    : session * option session_end :=
  if ti_stop i then (s, Some StopRequested)
  else
    let sleep_sec := max_zero (float_sub (ss_next_capture_at s) (ti_sleep_until i)) in
    if float_ltb float_zero sleep_sec && negb (sleepable sleep_sec) then (s, Some (SessionRaised SleepOverflow))
    else
      let schedule s' := log_schedule_lag (ss_next_capture_at s) (ci_collect_interval_sec config) (ti_finished_at i) in
      match ti_input i with
      | InputBytes image_bytes =>
          let '(s', r) := capture config s i image_bytes in
          match r with
          | Raise e => (s', Some (SessionRaised e))
          | Ok _ => rescheduled max_frames s' (schedule s')
          end
      | _ =>
          match schedule s with
          | Raise e => (s, Some (SessionRaised (ScheduleRaised e)))
          | Ok at_ => (s <| ss_next_capture_at := at_ |>, None)
          end
      end.

(** The turns until one ends the session; [None] while it goes on. *)
Fixpoint run_turns (turn : session -> turn_input -> session * option session_end) (s : session) (l : list turn_input)
    : session * option session_end :=
  match l with
  | [] => (s, None)
  | i :: l => let '(s, e) := turn s i in match e with None => run_turns turn s l | Some e => (s, Some e) end
  end.

Definition new_session (started_at : float64) (pipeline : IngestState) : session := mkSession 0 0 started_at pipeline [].

Definition run_mjpeg_camera_session (config : CameraInputConfig) (max_frames : option Z) (started_at : float64)
    (pipeline : IngestState) (l : list turn_input) : session * option session_end :=
  let s := new_session started_at pipeline in
  if float_ltb (ci_collect_interval_sec config) float_zero
  then (s, Some (SessionRaised (IntervalValueError "collect_interval_sec must be greater than or equal to 0")))
  else run_turns (mjpeg_turn config max_frames) s l.

Definition run_snapshot_camera_session (config : CameraInputConfig) (max_frames : option Z) (started_at : float64)
    (pipeline : IngestState) (l : list turn_input) : session * option session_end :=
  let s := new_session started_at pipeline in
  if float_leb (ci_collect_interval_sec config) float_zero
  then (s, Some (SessionRaised (IntervalValueError "collect_interval_sec must be greater than 0")))
  else run_turns (snapshot_turn config max_frames) s l.
End Sessions.

(** ** The manager *)

(** The thread of a session, by its stop event. *)
Record CameraInputRuntime := mkCameraInputRuntime { rt_stop_event : bool }.

Record ManagedCameraSession := mkManagedCameraSession {
  mg_config : CameraInputConfig;
  mg_runtime : CameraInputRuntime;
}.

(** The dict of sessions, in the order they were started. *)
Definition CameraSessionManager := list (string * ManagedCameraSession).

Definition manager_start (m : CameraSessionManager) (config : CameraInputConfig)
    : CameraSessionManager * result config_error CameraInputRuntime :=
  if bool_decide (ci_device_id config ∈ m.*1)
  then (m, Raise (ConfigRuntimeError ("Camera session already running: " +:+ ci_device_id config)))
  else if bool_decide (ci_source_kind config ∈ ["mjpeg"; "snapshot"])
  then
    let runtime := mkCameraInputRuntime false in
    (dict_set (ci_device_id config) (mkManagedCameraSession config runtime) m, Ok runtime)
  else (m, Raise (ConfigRuntimeError ("Unsupported camera input type: " +:+ ci_source_kind config))).

Fixpoint start_all (m : CameraSessionManager) (configs : list CameraInputConfig)
    : CameraSessionManager * result config_error unit :=
  match configs with
  | [] => (m, Ok tt)
  | config :: configs =>
      let '(m, r) := manager_start m config in
      match r with Ok _ => start_all m configs | Raise e => (m, Raise e) end
  end.

Definition stop_camera_input (runtime : CameraInputRuntime) : CameraInputRuntime := mkCameraInputRuntime true.

(** What remains, and the session that was told to stop. *)
Definition manager_stop (m : CameraSessionManager) (device_id : string)
    : CameraSessionManager * option ManagedCameraSession :=
  match dict_get device_id m with
  | None => (m, None)
  | Some s => (dict_del device_id m, Some (mkManagedCameraSession (mg_config s) (stop_camera_input (mg_runtime s))))
  end.

Definition stop_all (m : CameraSessionManager) : CameraSessionManager * list ManagedCameraSession :=
  foldl (fun '(m, stopped) device_id => let '(m, s) := manager_stop m device_id in (m, stopped ++ option_list s)) (m, []) m.*1.

(** One dict of [list_sessions]; the threads that are alive are a parameter. *)
Record session_row := mkSessionRow {
  sr_device_id : string; sr_source_kind : string; sr_source_url : string;
  sr_collect_interval_sec : float64; sr_capture_timeout_sec : float64; sr_running : bool;
}.

Definition list_sessions (alive : string -> bool) (m : CameraSessionManager) : list session_row :=
  (fun '(device_id, s) => mkSessionRow (ci_device_id (mg_config s)) (ci_source_kind (mg_config s)) (ci_source_url (mg_config s))
     (ci_collect_interval_sec (mg_config s)) (ci_capture_timeout_sec (mg_config s)) (alive device_id)) <$> m.

(** ** The sessions' frames *)

Section SessionFrames.
Context `{Hashing} (config : CameraInputConfig) (max_frames : option Z).

(** The frames the turns were given, as [bytes]. *)
Definition input_images (l : list turn_input) : list string :=
  omap (fun i => match ti_input i with InputBytes b => Some (String.string_of_list_ascii b) | _ => None end) l.

(** Numbered from 1, of this device, as many as counted. *)
Record numbered (s : session) : Prop := {
  nb_sequence : ss_sequence s = Z.of_nat (length (ss_calls s));
  nb_accepted : ss_accepted_count s = ss_sequence s;
  nb_calls k call : ss_calls s !! k = Some call ->
    ic_sequence call = Some (Z.of_nat k + 1) /\ ic_device_id call = ci_device_id config /\ ic_session_id call = None;
}.

(** A turn that makes no call, or one more with the frame it was given. *)
Definition turn_calls (s : session) (i : turn_input) (s' : session) : Prop :=
  ss_calls s' = ss_calls s \/
  exists image call, ti_input i = InputBytes image /\ ic_image_bytes call = String.string_of_list_ascii image /\
    ss_calls s' = ss_calls s ++ [call].

Definition below_limit (s : session) : Prop := forall m, max_frames = Some m -> ss_accepted_count s < Z.max m 1.
Definition within_limit (s : session) : Prop := forall m, max_frames = Some m -> ss_accepted_count s <= Z.max m 1.

(** What a turn does of a session that has not ended. *)
Definition turn_sound (turn : session -> turn_input -> session * option session_end) : Prop :=
  forall s i s' e, turn s i = (s', e) -> numbered s -> below_limit s ->
    numbered s' /\ turn_calls s i s' /\ within_limit s' /\ (e = None -> below_limit s').

Lemma numbered_ext s s' : ss_sequence s' = ss_sequence s -> ss_accepted_count s' = ss_accepted_count s ->
  ss_calls s' = ss_calls s -> numbered s -> numbered s'.
Proof. intros E1 E2 E3 [H1 H2 H3]. split; rewrite ?E1, ?E2, ?E3; auto. Qed.

Lemma capture_sound s i image s' r : capture config s i image = (s', r) -> numbered s ->
  numbered s' /\ ss_accepted_count s' = ss_accepted_count s + 1 /\
  exists call, ic_image_bytes call = String.string_of_list_ascii image /\ ss_calls s' = ss_calls s ++ [call].
Proof.
  unfold capture. destruct (ingest_frame _ _ _) as [pipeline r']. intros [= <- <-] [H1 H2 H3]. cbn. split; [|split; [lia|]].
  - split; cbn; [rewrite length_app; cbn; lia|lia|]. intros k call [Hk|[Hle Hk]]%lookup_app_Some; [by apply H3|].
    apply list_lookup_singleton_Some in Hk as [Hk <-]. rewrite H1. split; [|done]. cbn. f_equal. lia.
  - by eexists (session_call config _ _ image).
Qed.

Lemma rescheduled_sound s next s' e : rescheduled max_frames s next = (s', e) ->
  ss_sequence s' = ss_sequence s /\ ss_accepted_count s' = ss_accepted_count s /\ ss_calls s' = ss_calls s /\
  (e = None -> below_limit s').
Proof.
  unfold rescheduled, below_limit. destruct next as [at_|f]; intros [= <- <-]; [|done]. split_and!; try done. cbn.
  unfold reached_limit. intros Hl m ->. destruct (Z.leb_spec m (ss_accepted_count s)); [done|lia].
Qed.

Lemma kept_sound s i s' e : ss_sequence s' = ss_sequence s -> ss_accepted_count s' = ss_accepted_count s ->
  ss_calls s' = ss_calls s -> numbered s -> below_limit s ->
  numbered s' /\ turn_calls s i s' /\ within_limit s' /\ (e = None :> option session_end -> below_limit s').
Proof.
  intros E1 E2 E3 Hn Hb. split; [by eapply numbered_ext|]. split; [by left|].
  unfold within_limit, below_limit in *. rewrite E2. split; [intros m Hm; specialize (Hb m Hm); lia|by intros _].
Qed.

Lemma captured_sound s i image s1 r s' e : ti_input i = InputBytes image -> numbered s -> below_limit s ->
  capture config s i image = (s1, r) ->
  ss_sequence s' = ss_sequence s1 -> ss_accepted_count s' = ss_accepted_count s1 -> ss_calls s' = ss_calls s1 ->
  (e = None -> below_limit s') ->
  numbered s' /\ turn_calls s i s' /\ within_limit s' /\ (e = None :> option session_end -> below_limit s').
Proof.
  intros Hi Hn Hb Hc E1 E2 E3 He. destruct (capture_sound _ _ _ _ _ Hc Hn) as (Hn' & Ha & call & Him & Hcall).
  split; [by eapply numbered_ext|]. split; [right; exists image, call; by rewrite E3|]. split; [|done].
  intros m Hm. specialize (Hb m Hm). lia.
Qed.

Lemma mjpeg_turn_sound : turn_sound (mjpeg_turn config max_frames).
Proof.
  intros s i s' e Et Hn Hb. unfold mjpeg_turn in Et. destruct (ti_stop i); [injection Et as <- <-; by apply kept_sound|].
  destruct (ti_input i) as [image| |] eqn:Ei; [|injection Et as <- <-; by apply kept_sound..].
  destruct (float_ltb (ti_ready_at i) (ss_next_capture_at s)); [injection Et as <- <-; by apply kept_sound|].
  destruct (capture config s i image) as [s1 [[]|f]] eqn:Ec; [|injection Et as <- <-; by eapply captured_sound].
  apply rescheduled_sound in Et as (E1 & E2 & E3 & He). by eapply captured_sound.
Qed.

Lemma snapshot_turn_sound : turn_sound (snapshot_turn config max_frames).
Proof.
  intros s i s' e Et Hn Hb. unfold snapshot_turn in Et. destruct (ti_stop i); [injection Et as <- <-; by apply kept_sound|].
  cbv zeta in Et. destruct (_ && _); [injection Et as <- <-; by apply kept_sound|].
  destruct (ti_input i) as [image| |] eqn:Ei.
  - destruct (capture config s i image) as [s1 [[]|f]] eqn:Ec; [|injection Et as <- <-; by eapply captured_sound].
    apply rescheduled_sound in Et as (E1 & E2 & E3 & He). by eapply captured_sound.
  - destruct (log_schedule_lag _ _ _); injection Et as <- <-; by apply kept_sound.
  - destruct (log_schedule_lag _ _ _); injection Et as <- <-; by apply kept_sound.
Qed.

Lemma run_turns_sound turn l s s' e : turn_sound turn -> run_turns turn s l = (s', e) -> numbered s -> below_limit s ->
  numbered s' /\ within_limit s' /\
  exists new, ss_calls s' = ss_calls s ++ new /\ (ic_image_bytes <$> new) `sublist_of` input_images l.
Proof.
  intros Ht. revert s. induction l as [|i l IH]; intros s; cbn [run_turns].
  - intros [= <- <-] Hn Hb. split; [done|]. split; [|by exists []; rewrite app_nil_r].
    intros m Hm. specialize (Hb m Hm). lia.
  - destruct (turn s i) as [s1 e1] eqn:Et. intros E Hn Hb. destruct (Ht _ _ _ _ Et Hn Hb) as (Hn1 & Hc1 & Hw1 & Hb1).
    assert (exists new, ss_calls s1 = ss_calls s ++ new /\ (ic_image_bytes <$> new) `sublist_of` input_images [i]) as (new1 & E1 & Hs1).
    { destruct Hc1 as [Hc1|(image & call & Hi & Him & Hc1)]; [exists []; rewrite app_nil_r; split; [done|apply sublist_nil_l]|].
      exists [call]. split; [done|]. unfold input_images. cbn. rewrite Hi, Him. done. }
    assert (input_images (i :: l) = input_images [i] ++ input_images l) as -> by (unfold input_images; cbn; by destruct (ti_input i)).
    destruct e1 as [e1|].
    + injection E as <- <-. split; [done|]. split; [done|]. exists new1. split; [done|]. by apply sublist_inserts_r.
    + destruct (IH _ E Hn1 (Hb1 eq_refl)) as (Hn' & Hw' & new & E' & Hs'). split; [done|]. split; [done|].
      exists (new1 ++ new). split; [by rewrite E', E1, app_assoc|]. rewrite fmap_app. by apply sublist_app.
Qed.
End SessionFrames.

Lemma new_session_numbered config started_at pipeline : numbered config (new_session started_at pipeline).
Proof. by split. Qed.

(** C28: What a camera session ingests. Whatever frames, clocks, failures and
    stop requests it meets, the frames it hands to the pipeline are frames
    it was given, in their order, under its device, numbered 1, 2, 3, ...,
    and with a limit at most [max_frames] of them, or one where the limit is
    below one: it is checked after a capture, [no_frames_still_one]. *)
Theorem session_frames_numbered `{Hashing} config max_frames started_at pipeline l s e :
  run_mjpeg_camera_session config max_frames started_at pipeline l = (s, e) \/
  run_snapshot_camera_session config max_frames started_at pipeline l = (s, e) ->
  (forall k call, ss_calls s !! k = Some call ->
     ic_sequence call = Some (Z.of_nat k + 1) /\ ic_device_id call = ci_device_id config) /\
  (ic_image_bytes <$> ss_calls s) `sublist_of` input_images l /\
  (forall m, max_frames = Some m -> Z.of_nat (length (ss_calls s)) <= Z.max m 1).
Proof.
  intros Hr.
  assert (exists turn, turn_sound config max_frames turn /\
    (run_turns turn (new_session started_at pipeline) l = (s, e) \/ s = new_session started_at pipeline)) as (turn & Ht & Hrun).
  { destruct Hr as [Hr|Hr]; [exists (mjpeg_turn config max_frames)|exists (snapshot_turn config max_frames)];
      (split; [by apply mjpeg_turn_sound || apply snapshot_turn_sound|]);
      unfold run_mjpeg_camera_session, run_snapshot_camera_session in Hr;
      [destruct (float_ltb _ _)|destruct (float_leb _ _)]; (by left) || (injection Hr as <- <-; by right). }
  destruct Hrun as [Hrun| ->].
  - destruct (run_turns_sound config max_frames turn l _ _ _ Ht Hrun (new_session_numbered _ _ _)) as ([H1 H2 H3] & Hw & new & E & Hs).
    { intros m _. cbn. lia. }
    cbn in E. subst new. split; [|split; [done|]].
    + intros k call Hk. by destruct (H3 k call Hk) as (? & ? & _).
    + intros m Hm. specialize (Hw m Hm). lia.
  - split; [done|]. split; [apply sublist_nil_l|]. cbn. lia.
Qed.

(** *** The schedule *)

(** An interval that is not a number, which [parse_positive_float] lets pass,
    ends the session: the next time of capture cannot be computed. *)
Lemma nan_interval_passes name : parse_positive_float name "nan" = Ok S754_nan.
Proof. done. Qed.

Lemma nan_schedule_raises scheduled_at now : log_schedule_lag scheduled_at S754_nan now = Raise FloatValueError.
Proof.
  unfold log_schedule_lag, calculate_next_capture_at. destruct (nan_add scheduled_at) as [_ ->].
  destruct (nan_incomparable now) as (_ & -> & _). destruct (nan_sub now) as [_ ->]. done.
Qed.

(** A time that is still to come is kept as it is. *)
Lemma schedule_on_time scheduled_at interval_sec now :
  float_ltb now (float_add scheduled_at interval_sec) = true ->
  calculate_next_capture_at scheduled_at interval_sec now = Ok (float_add scheduled_at interval_sec).
Proof. intros H. unfold calculate_next_capture_at. by rewrite H. Qed.

(** 10 s after the schedule, every 2 s: the next capture is at 12. *)
Example schedule_late :
  calculate_next_capture_at float_zero (float_of 2 0 false) (float_of 10 0 false) = Ok (float_of 12 0 false).
Proof. vm_compute. reflexivity. Qed.

(** *** The manager *)

Definition startable (m : CameraSessionManager) (configs : list CameraInputConfig) : Prop :=
  NoDup (ci_device_id <$> configs) /\ (forall c, c ∈ configs -> (ci_device_id c ∉ m.*1) /\ ci_source_kind c ∈ ["mjpeg"; "snapshot"]).

Definition started (configs : list CameraInputConfig) : CameraSessionManager :=
  (fun c => (ci_device_id c, mkManagedCameraSession c (mkCameraInputRuntime false))) <$> configs.

Lemma started_keys configs : (started configs).*1 = ci_device_id <$> configs.
Proof. unfold started. by rewrite <- list_fmap_compose. Qed.

Lemma manager_start_spec m c : (manager_start m c).1 =
  if bool_decide ((ci_device_id c ∉ m.*1) /\ ci_source_kind c ∈ ["mjpeg"; "snapshot"]) then m ++ started [c] else m.
Proof.
  unfold manager_start. case_bool_decide as H1; [by rewrite bool_decide_false by naive_solver|].
  case_bool_decide as H2; [|by rewrite bool_decide_false by naive_solver]. rewrite bool_decide_true by done.
  cbn. by apply dict_set_new.
Qed.

Lemma manager_start_ok m c : is_ok (manager_start m c).2 = bool_decide ((ci_device_id c ∉ m.*1) /\ ci_source_kind c ∈ ["mjpeg"; "snapshot"]).
Proof.
  unfold manager_start. case_bool_decide as H1; [by rewrite bool_decide_false by naive_solver|].
  case_bool_decide as H2; [by rewrite bool_decide_true by done|by rewrite bool_decide_false by naive_solver].
Qed.

Lemma start_all_spec m configs : exists good rest, configs = good ++ rest /\ startable m good /\
  (start_all m configs).1 = m ++ started good /\
  (is_ok (start_all m configs).2 = true <-> rest = []) /\
  forall c rest', rest = c :: rest' -> ~ startable m (good ++ [c]).
Proof.
  revert m. induction configs as [|c configs IH]; intros m.
  { exists [], []. cbn. rewrite app_nil_r. split; [done|]. split; [|done]. split; [constructor|set_solver]. }
  cbn [start_all]. pose proof (manager_start_spec m c) as H1. pose proof (manager_start_ok m c) as H2.
  destruct (manager_start m c) as [m' r]. cbn [fst snd] in *. subst m'.
  destruct (decide ((ci_device_id c ∉ m.*1) /\ ci_source_kind c ∈ ["mjpeg"; "snapshot"])) as [Hc|Hc].
  - rewrite bool_decide_true in H2 by done. destruct r as [u|e]; [|done]. rewrite bool_decide_true by done.
    destruct (IH (m ++ started [c])) as (good & rest & -> & [Hn Hall] & Hm & Hok & Hstop).
    rewrite fmap_app, started_keys in Hall. exists (c :: good), rest.
    split; [done|]. split; [|split; [by rewrite Hm, <- app_assoc|split; [done|]]].
    + split; [cbn; constructor; [|done]|set_solver]. intros (d & Ed & Hd)%list_elem_of_fmap. destruct (Hall d Hd) as [Hd' _]. set_solver.
    + intros c' rest' E. specialize (Hstop c' rest' E). intros [Hn' Hall']. apply Hstop. cbn in Hn'. apply NoDup_cons in Hn' as [Hc' Hn'].
      split; [done|]. intros d Hd. destruct (Hall' d) as [Hd1 Hd2]; [cbn; set_solver|]. split; [|done].
      rewrite fmap_app, started_keys. apply not_elem_of_app. split; [done|]. cbn. intros Ed%list_elem_of_singleton.
      apply Hc'. rewrite <- Ed. by apply list_elem_of_fmap_2.
  - rewrite bool_decide_false in H2 by done. destruct r as [u|e]; [done|]. rewrite bool_decide_false by done.
    exists [], (c :: configs). cbn. rewrite app_nil_r. split; [done|]. split; [split; [constructor|set_solver]|].
    split; [done|]. split; [done|]. intros c' rest' [= <- <-] [_ Hall]. apply Hc. apply Hall. set_solver.
Qed.

Lemma manager_stop_head k s m : manager_stop ((k, s) :: m) k =
  (m, Some (mkManagedCameraSession (mg_config s) (stop_camera_input (mg_runtime s)))).
Proof. unfold manager_stop. cbn. by rewrite !decide_True. Qed.

Lemma sessions_cleared m : NoDup (m.*1) -> (stop_all m).1 = [] /\
  mg_config <$> (stop_all m).2 = (fun p => mg_config p.2) <$> m /\
  Forall (fun s => rt_stop_event (mg_runtime s) = true) (stop_all m).2.
Proof.
  intros Hn.
  assert (forall stopped, let r := foldl (fun '(m, stopped) device_id => let '(m, s) := manager_stop m device_id in (m, stopped ++ option_list s))
      (m, stopped) m.*1 in
    r.1 = [] /\ mg_config <$> r.2 = (mg_config <$> stopped) ++ ((fun p => mg_config p.2) <$> m) /\
    (Forall (fun s => rt_stop_event (mg_runtime s) = true) stopped -> Forall (fun s => rt_stop_event (mg_runtime s) = true) r.2)) as Hr.
  { induction m as [|[k s] m IH]; intros stopped r; [by rewrite app_nil_r|].
    apply NoDup_cons in Hn as [Hk Hn]. subst r. cbn [fmap list_fmap fst foldl]. rewrite manager_stop_head. cbn [option_list].
    destruct (IH Hn (stopped ++ [mkManagedCameraSession (mg_config s) (stop_camera_input (mg_runtime s))]))
      as (H1 & H2 & H3). split; [exact H1|]. split; [rewrite fmap_app, <- app_assoc in H2; exact H2|].
    intros Hs. apply H3. apply Forall_app. split; [done|]. by repeat constructor. }
  destruct (Hr []) as (H1 & H2 & H3). split; [exact H1|]. split; [exact H2|]. apply H3. constructor.
Qed.

(** Starting and stopping the sessions. [start_all] starts the sessions
    of the longest prefix of the configurations with new, distinct devices
    and kinds it knows, and raises exactly when that is not all of them;
    [stop_all] then forgets every session and has told each of them, the
    ones of an interrupted [start_all] too, to stop. *)
Theorem sessions_started_and_stopped m configs : NoDup (m.*1) ->
  exists good rest, configs = good ++ rest /\ startable m good /\ (forall c rest', rest = c :: rest' -> ~ startable m (good ++ [c])) /\
    (start_all m configs).1 = m ++ started good /\ (is_ok (start_all m configs).2 = true <-> rest = []) /\
    (stop_all (start_all m configs).1).1 = [] /\
    mg_config <$> (stop_all (start_all m configs).1).2 = (fun p => mg_config p.2) <$> (m ++ started good) /\
    Forall (fun s => rt_stop_event (mg_runtime s) = true) (stop_all (start_all m configs).1).2.
Proof.
  intros Hn. destruct (start_all_spec m configs) as (good & rest & -> & [Hg Hall] & Hm & Hok & Hstop).
  exists good, rest. do 3 (split; [done|]). rewrite Hm. split; [done|]. split; [done|].
  assert (NoDup ((m ++ started good).*1)) as Hnd.
  { rewrite fmap_app, started_keys. apply NoDup_app. split; [done|]. split; [|done].
    intros d Hd (c & -> & Hc)%list_elem_of_fmap. by destruct (Hall c Hc) as [? _]. }
  by apply sessions_cleared.
Qed.

(** ** Witnesses *)

Definition demo_camera (device_id kind : string) : CameraInputConfig :=
  mkCameraInputConfig device_id "http://camera" float_one kind (float_of 10 0 false) "image/jpeg".

(** A frame that is ready at [ready] halves of a second. *)
Definition demo_turn (c : nat) (ready : Z) : turn_input :=
  mkTurnInput false float_zero (InputBytes [ascii_of_nat c]) (float_of ready (-1) false) (1000 + ready)
    (demo_env (durable_write_bytes no_faults "u") None) (float_of ready (-1) false) float_zero.

Definition demo_session := run_mjpeg_camera_session (H := transparent_hashing) (demo_camera "a" "mjpeg") None float_zero
  (demo_state demo_new_sys) [demo_turn 1 0; demo_turn 2 1; demo_turn 3 3].

(** The frame in between comes too early. *)
Example demo_session_calls : (fun c => (ic_sequence c, ic_timestamp_ms c)) <$> ss_calls demo_session.1 = [(Some 1, 1000); (Some 2, 1003)].
Proof. vm_compute. reflexivity. Qed.

(** With a limit of no frames one is ingested. *)
Example no_frames_still_one :
  let '(s, e) := run_mjpeg_camera_session (H := transparent_hashing) (demo_camera "a" "mjpeg") (Some 0) float_zero
    (demo_state demo_new_sys) [demo_turn 1 0; demo_turn 2 3] in
  length (ss_calls s) = 1%nat /\ e = Some FrameLimit.
Proof. vm_compute. by split. Qed.

Lemma session_frames_numbered_witness :
  (exists call, ss_calls demo_session.1 !! 1%nat = Some call /\ ic_sequence call = Some (Z.of_nat 1 + 1) /\ ic_device_id call = "a") /\
  length (ss_calls demo_session.1) = 2%nat.
Proof.
  assert (length (ss_calls demo_session.1) = 2%nat) as E by (vm_compute; reflexivity). split; [|exact E].
  destruct (session_frames_numbered (H := transparent_hashing) (demo_camera "a" "mjpeg") None float_zero (demo_state demo_new_sys)
    [demo_turn 1 0; demo_turn 2 1; demo_turn 3 3] demo_session.1 demo_session.2 (or_introl (surjective_pairing _))) as (Hn & _ & _).
  revert E Hn. generalize (ss_calls demo_session.1). intros l E Hn. destruct l as [|c0 [|c1 [|c2 l]]]; try discriminate E.
  exists c1. split; [reflexivity|]. exact (Hn 1%nat c1 eq_refl).
Defined.

Lemma sessions_started_and_stopped_witness :
  exists good rest, [demo_camera "a" "mjpeg"; demo_camera "b" "snapshot"; demo_camera "a" "mjpeg"] = good ++ rest /\
    (stop_all (start_all [] [demo_camera "a" "mjpeg"; demo_camera "b" "snapshot"; demo_camera "a" "mjpeg"]).1).1 = [] /\
    length (stop_all (start_all [] [demo_camera "a" "mjpeg"; demo_camera "b" "snapshot"; demo_camera "a" "mjpeg"]).1).2 = 2%nat.
Proof.
  destruct (sessions_started_and_stopped [] [demo_camera "a" "mjpeg"; demo_camera "b" "snapshot"; demo_camera "a" "mjpeg"] (NoDup_nil_2))
    as (good & rest & E & _ & _ & _ & _ & H & _).
  exists good, rest. split; [exact E|]. split; [exact H|]. vm_compute. reflexivity.
Defined.
