(* ===== verification/IngestGate.v ===== *)
(** * The ingest gate

    What src/app/infrastructure/grpc/grpc_ingest_server.py keeps under
    [gate_lock]: which capture session owns the collection, which devices
    stream, whether their frames pass. Every operation takes the lock once
    and is one step here; [IngestServer.v] runs the streams over it. *)

From S2P Require Import Prelude Identity.

(** What [gate_lock] guards in [GrpcIngestService], and what [configure] sets. *)
Record ingest_gate := mkIngestGate {
  gt_bind : string;
  gt_enabled : bool;
  gt_expected_device_count : option Z;
  gt_expected_device_ids : gset string;
  gt_gate_open : bool;
  gt_observed_device_ids : gset string;
  gt_active_device_ids : gset string;
  gt_active_device_stream_counts : gmap string Z;
  gt_stream_closed_at_ms : gmap string Z;
  gt_latest_device_timestamp_ms : gmap string Z;
  gt_gate_start_timestamp_ms : option Z;
  gt_first_accepted_timestamp_ms : option Z;
  gt_pre_gate_dropped_count : Z;
  gt_stale_after_gate_dropped_count : Z;
  gt_server_receive_sequence : Z;
  gt_collection_started : bool;
  gt_collection_stopped : bool;
  gt_collection_stop_reason : option string;
  gt_collection_capture_session_id : option string;
  gt_active_authorized_stream_count : Z;
}.

#[export] Instance ingest_gate_settable : Settable ingest_gate := fun x => mkIngestGate
  (gt_bind x) (gt_enabled x) (gt_expected_device_count x) (gt_expected_device_ids x)
  (gt_gate_open x) (gt_observed_device_ids x) (gt_active_device_ids x)
  (gt_active_device_stream_counts x) (gt_stream_closed_at_ms x)
  (gt_latest_device_timestamp_ms x) (gt_gate_start_timestamp_ms x)
  (gt_first_accepted_timestamp_ms x) (gt_pre_gate_dropped_count x)
  (gt_stale_after_gate_dropped_count x) (gt_server_receive_sequence x) (gt_collection_started x)
  (gt_collection_stopped x) (gt_collection_stop_reason x) (gt_collection_capture_session_id x)
  (gt_active_authorized_stream_count x).


(** The dict of [status]. *)
Record gate_status := mkGateStatus {
  gu_enabled : bool;
  gu_bind : string;
  gu_running : bool;
  gu_gate_enabled : bool;
  gu_gate_open : bool;
  gu_expected_device_count : option Z;
  gu_expected_device_ids : list string;
  gu_observed_device_ids : list string;
  gu_active_device_ids : list string;
  gu_stream_closed_at_ms : list (string * Z);
  gu_latest_device_timestamp_ms : list (string * Z);
  gu_missing_device_ids : list string;
  gu_unexpected_device_ids : list string;
  gu_gate_start_timestamp_ms : option Z;
  gu_first_accepted_timestamp_ms : option Z;
  gu_pre_gate_dropped_count : Z;
  gu_stale_after_gate_dropped_count : Z;
  gu_server_receive_sequence : Z;
  gu_collection_started : bool;
  gu_collection_stopped : bool;
  gu_collection_stop_reason : option string;
  gu_collection_capture_session_id : option string;
  gu_active_authorized_stream_count : Z;
}.

#[export] Instance gate_status_settable : Settable gate_status := fun x => mkGateStatus
  (gu_enabled x) (gu_bind x) (gu_running x) (gu_gate_enabled x) (gu_gate_open x)
  (gu_expected_device_count x) (gu_expected_device_ids x) (gu_observed_device_ids x)
  (gu_active_device_ids x) (gu_stream_closed_at_ms x) (gu_latest_device_timestamp_ms x)
  (gu_missing_device_ids x) (gu_unexpected_device_ids x) (gu_gate_start_timestamp_ms x)
  (gu_first_accepted_timestamp_ms x) (gu_pre_gate_dropped_count x)
  (gu_stale_after_gate_dropped_count x) (gu_server_receive_sequence x) (gu_collection_started x)
  (gu_collection_stopped x) (gu_collection_stop_reason x) (gu_collection_capture_session_id x)
  (gu_active_authorized_stream_count x).


(** ** [configure] *)

Definition _gate_enabled (g : ingest_gate) : bool := bool_decide (is_Some (gt_expected_device_count g)).

(** [n if n and n > 1 else None]. *)
Definition several (n : option Z) : option Z := m ← n; if 1 <? m then Some m else None.

(** A collection that has not begun, of these devices. *)
Definition fresh_collection (bind : string) (enabled : bool) (count : option Z) (ids : gset string)
    (capture_session_id : option string) (streams : Z) : ingest_gate :=
  let closed := bool_decide (is_Some count) in
  mkIngestGate bind enabled count ids (negb closed) ∅ ∅ ∅ ∅ ∅ None None 0 0 0 (negb closed) false None
    capture_session_id streams.

Definition configure (bind : string) (enabled : bool) (expected_device_count : option Z)
    (expected_device_ids : list (option string)) : ingest_gate :=
  let ids : gset string := list_to_set (filter (fun s => s <> "") (strip <$> omap id expected_device_ids)) in
  let count := if bool_decide (ids = ∅) then several expected_device_count else several (Some (Z.of_nat (size ids))) in
  fresh_collection bind enabled count ids None 0.

Definition _reset_collection_locked (g : ingest_gate) : ingest_gate :=
  fresh_collection (gt_bind g) (gt_enabled g) (gt_expected_device_count g) (gt_expected_device_ids g)
    (gt_collection_capture_session_id g) (gt_active_authorized_stream_count g).

(** ** The owner of the collection *)

Definition _acquire_authorized_collection (g : ingest_gate) (capture_session_id : string) : ingest_gate * bool :=
  let owned g := ((g <| gt_collection_capture_session_id := Some capture_session_id |>)
                    <| gt_active_authorized_stream_count ::= Z.succ |>, true) in
  match gt_collection_capture_session_id g with
  | None => owned g
  | Some owner =>
      if bool_decide (owner = capture_session_id) then (g <| gt_active_authorized_stream_count ::= Z.succ |>, true)
      else if 0 <? gt_active_authorized_stream_count g then (g, false)
      else owned (_reset_collection_locked g)
  end.

Definition _release_authorized_collection (g : ingest_gate) (capture_session_id : string) : ingest_gate :=
  if bool_decide (gt_collection_capture_session_id g = Some capture_session_id)
  then g <| gt_active_authorized_stream_count ::= fun n => Z.max 0 (n - 1) |>
  else g.

(** ** Devices *)

Definition _mark_device_active (g : ingest_gate) (device_id : string) : ingest_gate :=
  g <| gt_observed_device_ids ::= union {[ device_id ]} |>
    <| gt_active_device_stream_counts ::= <[device_id := default 0 (gt_active_device_stream_counts g !! device_id) + 1]> |>
    <| gt_active_device_ids ::= union {[ device_id ]} |>
    <| gt_stream_closed_at_ms ::= delete device_id |>.

Definition _record_device_timestamp (g : ingest_gate) (device_id : string) (timestamp_ms : Z) : ingest_gate :=
  match gt_latest_device_timestamp_ms g !! device_id with
  | Some previous => if previous <? timestamp_ms
                     then g <| gt_latest_device_timestamp_ms ::= <[device_id := timestamp_ms]> |> else g
  | None => g <| gt_latest_device_timestamp_ms ::= <[device_id := timestamp_ms]> |>
  end.

Definition _next_server_receive_sequence (g : ingest_gate) : ingest_gate * Z :=
  let g := g <| gt_server_receive_sequence ::= Z.succ |> in (g, gt_server_receive_sequence g).

Definition latest_timestamps (g : ingest_gate) (ids : gset string) : list Z :=
  omap (fun d => gt_latest_device_timestamp_ms g !! d) (elements ids).

Definition _open_gate_locked (g : ingest_gate) : ingest_gate :=
  let g := g <| gt_gate_open := true |> <| gt_collection_started := true |> in
  match gt_gate_start_timestamp_ms g with
  | Some _ => g
  | None =>
      let ids := if bool_decide (gt_expected_device_ids g = ∅) then gt_active_device_ids g else gt_expected_device_ids g in
      match max_list (latest_timestamps g ids) with
      | Some start => g <| gt_gate_start_timestamp_ms := Some start |>
      | None => g
      end
  end.

(** All that is expected streams. *)
Definition devices_present (g : ingest_gate) : bool :=
  if bool_decide (gt_expected_device_ids g = ∅)
  then default 0 (gt_expected_device_count g) <=? Z.of_nat (size (gt_active_device_ids g))
  else bool_decide (gt_expected_device_ids g ⊆ gt_active_device_ids g).

Definition _allow_ingest (g : ingest_gate) (device_id : string) (timestamp_ms : option Z) : ingest_gate * bool :=
  if gt_collection_stopped g then (g, false)
  else if negb (bool_decide (gt_expected_device_ids g = ∅)) && negb (bool_decide (device_id ∈ gt_expected_device_ids g))
  then (g, false)
  else if gt_gate_open g
  then
    let stale := match gt_gate_start_timestamp_ms g, timestamp_ms with
                 | Some start, Some t => _gate_enabled g && (t <? start) | _, _ => false end in
    if stale then (g <| gt_stale_after_gate_dropped_count ::= Z.succ |>, false)
    else (match gt_first_accepted_timestamp_ms g, timestamp_ms with
          | None, Some t => g <| gt_first_accepted_timestamp_ms := Some t |>
          | _, _ => g
          end, true)
  else
    let g := if devices_present g then _open_gate_locked g else g in
    (g <| gt_pre_gate_dropped_count ::= Z.succ |>, false).

(** One stream of [device_id] fewer. *)
Definition device_closed (closed_at_ms : Z) (device_id : string) (g : ingest_gate) : ingest_gate :=
  let stream_count := default 0 (gt_active_device_stream_counts g !! device_id) - 1 in
  if 0 <? stream_count then g <| gt_active_device_stream_counts ::= <[device_id := stream_count]> |>
  else g <| gt_active_device_stream_counts ::= delete device_id |>
         <| gt_active_device_ids ::= fun ids => ids ∖ {[ device_id ]} |>
         <| gt_stream_closed_at_ms ::= <[device_id := closed_at_ms]> |>.

Definition stop_collection (g : ingest_gate) (reason : string) : ingest_gate :=
  g <| gt_gate_open := false |> <| gt_collection_stopped := true |> <| gt_collection_stop_reason := Some reason |>.

Definition sorted_ids (ids : gset string) : list string := sort_by String.leb (elements ids).

(** The collection stops when a device is missing. *)
Definition stop_if_missing (g : ingest_gate) : ingest_gate :=
  if negb (gt_collection_started g) || gt_collection_stopped g || negb (_gate_enabled g) then g
  else if negb (bool_decide (gt_expected_device_ids g = ∅))
  then
    let missing := sorted_ids (gt_expected_device_ids g ∖ gt_active_device_ids g) in
    if bool_decide (missing = []) then g
    else stop_collection g ("expected device disconnected: " +:+ join "," missing)
  else if Z.of_nat (size (gt_active_device_ids g)) <? default 0 (gt_expected_device_count g)
  then stop_collection g "expected device count disconnected"
  else g.

Definition _mark_stream_closed (g : ingest_gate) (device_ids : gset string) (closed_at_ms : Z) : ingest_gate :=
  if bool_decide (device_ids = ∅) then g
  else stop_if_missing (foldr (device_closed closed_at_ms) g (elements device_ids)).

(** ** [status] *)

Definition sorted_items (m : gmap string Z) : list (string * Z) := sort_by (fun x y => String.leb x.1 y.1) (map_to_list m).

(** [runtime_bind]: of the running server. *)
Definition status (g : ingest_gate) (runtime_bind : option string) : gate_status :=
  let expected := gt_expected_device_ids g in
  mkGateStatus (gt_enabled g) (or_str runtime_bind (gt_bind g)) (bool_decide (is_Some runtime_bind)) (_gate_enabled g)
    (gt_gate_open g) (gt_expected_device_count g) (sorted_ids expected) (sorted_ids (gt_observed_device_ids g))
    (sorted_ids (gt_active_device_ids g)) (sorted_items (gt_stream_closed_at_ms g))
    (sorted_items (gt_latest_device_timestamp_ms g)) (sorted_ids (expected ∖ gt_active_device_ids g))
    (if bool_decide (expected = ∅) then [] else sorted_ids (gt_observed_device_ids g ∖ expected))
    (gt_gate_start_timestamp_ms g) (gt_first_accepted_timestamp_ms g) (gt_pre_gate_dropped_count g)
    (gt_stale_after_gate_dropped_count g) (gt_server_receive_sequence g) (gt_collection_started g)
    (gt_collection_stopped g) (gt_collection_stop_reason g) (gt_collection_capture_session_id g)
    (gt_active_authorized_stream_count g).

(** ** What passes

    The operations as events, run from a collection that has not begun. *)

Inductive gate_event :=
| Acquired (capture_session_id : string)
| Released (capture_session_id : string)
| Marked (device_id : string)
| Recorded (device_id : string) (timestamp_ms : Z)
| Asked (device_id : string) (timestamp_ms : option Z)
| Sequenced
| Closed (device_ids : gset string) (closed_at_ms : Z).

Definition gate_step (g : ingest_gate) (ev : gate_event) : ingest_gate :=
  match ev with
  | Acquired s => (_acquire_authorized_collection g s).1
  | Released s => _release_authorized_collection g s
  | Marked d => _mark_device_active g d
  | Recorded d t => _record_device_timestamp g d t
  | Asked d t => (_allow_ingest g d t).1
  | Sequenced => (_next_server_receive_sequence g).1
  | Closed ds ms => _mark_stream_closed g ds ms
  end.

Definition gate_run : ingest_gate -> list gate_event -> ingest_gate := foldl gate_step.

(** What decides whether frames pass, and for which devices. *)
Definition phase (g : ingest_gate) :=
  (gt_gate_open g, gt_collection_started g, gt_collection_stopped g, gt_gate_start_timestamp_ms g,
   gt_expected_device_ids g, gt_expected_device_count g).

Definition waiting (g : ingest_gate) : Prop :=
  gt_gate_open g = false /\ gt_collection_started g = false /\ gt_collection_stopped g = false /\
  gt_gate_start_timestamp_ms g = None.

Definition expected (g : ingest_gate) (device_id : string) : Prop :=
  gt_expected_device_ids g = ∅ \/ device_id ∈ gt_expected_device_ids g.

(** The devices whose timestamps the start is the greatest of. *)
Definition awaited (g : ingest_gate) : gset string :=
  if bool_decide (gt_expected_device_ids g = ∅) then gt_active_device_ids g else gt_expected_device_ids g.

(** The collection begins in [evs] after [pre], when the frame of an expected
    device first finds every expected device streaming. *)
Definition begins (g0 : ingest_gate) (evs pre : list gate_event) (d : string) (t : option Z) (post : list gate_event) : Prop :=
  evs = pre ++ Asked d t :: post /\ expected g0 d /\ devices_present (gate_run g0 pre) = true /\
  forall a d' t' b, pre = a ++ Asked d' t' :: b -> expected g0 d' -> devices_present (gate_run g0 a) = false.

(** A stream ends in [post], after [pre], and leaves a device missing. *)
Definition ends (g0 : ingest_gate) (pre post : list gate_event) : Prop :=
  exists a ds ms b, post = a ++ Closed ds ms :: b /\ ds <> ∅ /\
    devices_present (gate_run g0 (pre ++ a ++ [Closed ds ms])) = false.

Definition start_after (g0 : ingest_gate) (pre : list gate_event) : option Z :=
  let g := gate_run g0 pre in max_list (latest_timestamps g (awaited g)).

(** It began in [evs] with [start], and goes on. *)
Definition collecting (g0 : ingest_gate) (evs : list gate_event) (start : option Z) : Prop :=
  exists pre d t post, begins g0 evs pre d t post /\ start = start_after g0 pre /\ ~ ends g0 (pre ++ [Asked d t]) post.

Definition never_begun (g0 : ingest_gate) (evs : list gate_event) : Prop :=
  forall a d t b, evs = a ++ Asked d t :: b -> expected g0 d -> devices_present (gate_run g0 a) = false.

Lemma gate_run_snoc g evs ev : gate_run g (evs ++ [ev]) = gate_step (gate_run g evs) ev.
Proof. unfold gate_run. by rewrite foldl_app. Qed.

(** A list ending in [ev], split before its last element or at it. *)
Lemma snoc_split {A} (l a b : list A) ev x : l ++ [ev] = a ++ x :: b ->
  (exists b', b = b' ++ [ev] /\ l = a ++ x :: b') \/ (b = [] /\ l = a /\ ev = x).
Proof.
  intros E. destruct b as [|y b] using rev_ind; [right|left].
  - by apply app_inj_tail in E as [-> ->].
  - rewrite app_comm_cons, app_assoc in E. apply app_inj_tail in E as [-> ->]. by exists b.
Qed.

Lemma begins_unique g0 evs pre d t post pre' d' t' post' :
  begins g0 evs pre d t post -> begins g0 evs pre' d' t' post' -> pre = pre' /\ d = d' /\ t = t' /\ post = post'.
Proof.
  intros (-> & He & Hp & Hfirst) (E & He' & Hp' & Hfirst').
  apply app_eq_inv in E as [(k & -> & E)|(k & -> & E)]; destruct k as [|x k]; rewrite ?app_nil_r in *; cbn in E; simplify_eq/=; try done.
  - rewrite (Hfirst _ _ _ _ eq_refl He') in Hp'. done.
  - rewrite (Hfirst' _ _ _ _ eq_refl He) in Hp. done.
Qed.

Lemma begins_snoc g0 evs pre d t post ev : begins g0 evs pre d t post -> begins g0 (evs ++ [ev]) pre d t (post ++ [ev]).
Proof. intros (-> & H). split; [by rewrite <- app_assoc|done]. Qed.

(** The last event ends the collection, or it goes on. *)
Definition stays_present (g : ingest_gate) (ev : gate_event) : Prop :=
  match ev with Closed ds _ => ds <> ∅ -> devices_present g = true | _ => True end.

Lemma ends_snoc g0 pre post ev : ends g0 pre (post ++ [ev]) <->
  ends g0 pre post \/ ~ stays_present (gate_run g0 (pre ++ post ++ [ev])) ev.
Proof.
  split.
  - intros (a & ds & ms & b & E & Hne & Hp). apply snoc_split in E as [(b' & -> & ->)|(-> & -> & ->)]; [left|right].
    + by exists a, ds, ms, b'.
    + cbn. intros H. rewrite H in Hp; done.
  - intros [(a & ds & ms & b & -> & H)|H].
    + exists a, ds, ms, (b ++ [ev]). by rewrite <- app_assoc.
    + destruct ev; try (exfalso; by apply H). cbn in H. exists post, device_ids, closed_at_ms, []. split; [done|].
      destruct (decide (device_ids = ∅)) as [He|He]; [exfalso; apply H; intros; done|]. split; [done|].
      destruct (devices_present _) eqn:E in H |- *; [|done]. exfalso. by apply H.
Qed.

(** ** Each operation *)

(** Only questions and ends of streams change the phase. *)
Lemma gate_step_phase owner g ev :
  match ev with Asked _ _ | Closed _ _ => False | Acquired s => s = owner | _ => True end ->
  (gt_collection_capture_session_id g = None \/ gt_collection_capture_session_id g = Some owner) ->
  phase (gate_step g ev) = phase g.
Proof.
  intros Hev Ho. destruct ev; try done; cbn [gate_step].
  - subst. unfold _acquire_authorized_collection. destruct Ho as [-> | ->]; [done|]. by rewrite bool_decide_true.
  - unfold _release_authorized_collection. by case_bool_decide.
  - unfold _record_device_timestamp. destruct (_ !! _); [by destruct (_ <? _)|done].
Qed.

Lemma gate_step_owner owner g ev : match ev with Acquired s => s = owner | _ => True end ->
  (gt_collection_capture_session_id g = None \/ gt_collection_capture_session_id g = Some owner) ->
  gt_collection_capture_session_id (gate_step g ev) = None \/ gt_collection_capture_session_id (gate_step g ev) = Some owner.
Proof.
  intros Hev Ho. destruct ev; try done; cbn [gate_step].
  - subst. unfold _acquire_authorized_collection. destruct Ho as [E|E]; rewrite E; cbn; [by right|].
    rewrite bool_decide_true by done. cbn. by right.
  - unfold _release_authorized_collection. by case_bool_decide.
  - unfold _record_device_timestamp. destruct (_ !! _); [by destruct (_ <? _)|done].
  - unfold _allow_ingest, _open_gate_locked. by repeat case_match; simplify_eq/=.
  - unfold _mark_stream_closed, stop_if_missing, stop_collection. case_bool_decide; [done|].
    assert (forall l, gt_collection_capture_session_id (foldr (device_closed closed_at_ms) g l) = gt_collection_capture_session_id g) as Hl.
    { induction l as [|x l IH]; [done|]. cbn. unfold device_closed at 1. by case_match. }
    by repeat case_match; cbn; rewrite Hl.
Qed.

Definition passes (g : ingest_gate) (device_id : string) (timestamp_ms : Z) : Prop :=
  gt_collection_stopped g = false /\ expected g device_id /\ gt_gate_open g = true /\
  forall start, gt_gate_start_timestamp_ms g = Some start -> _gate_enabled g = true -> start <= timestamp_ms.

Lemma expected_spec g d : negb (bool_decide (gt_expected_device_ids g = ∅)) && negb (bool_decide (d ∈ gt_expected_device_ids g)) = false <->
  expected g d.
Proof. unfold expected. rewrite andb_false_iff. bools. done. Qed.

(** A question is answered, counted, or opens the gate. *)
Lemma allow_phase g d t g' b : _allow_ingest g d t = (g', b) ->
  (phase g' = phase g /\ (gt_collection_stopped g = false -> gt_gate_open g = false -> expected g d -> devices_present g = false)) \/
  (gt_collection_stopped g = false /\ gt_gate_open g = false /\ expected g d /\ devices_present g = true /\
   phase g' = (true, true, false,
     match gt_gate_start_timestamp_ms g with Some s => Some s | None => max_list (latest_timestamps g (awaited g)) end,
     gt_expected_device_ids g, gt_expected_device_count g)).
Proof.
  unfold _allow_ingest. destruct (gt_collection_stopped g) eqn:Es; [intros [= <- <-]; left; by split|].
  destruct (_ && _) eqn:Ee in |- *.
  { intros [= <- <-]. left. split; [done|]. intros _ _ He%expected_spec. congruence. }
  apply expected_spec in Ee. destruct (gt_gate_open g) eqn:Eo.
  - intros E. left. split; [|done]. destruct (match gt_gate_start_timestamp_ms g with Some _ => _ | None => _ end); [by injection E as <- <-|].
    injection E as <- <-. by destruct (gt_first_accepted_timestamp_ms g), t.
  - intros [= <- <-]. destruct (devices_present g) eqn:Ep; [right|by left].
    split_and!; [done..|]. unfold _open_gate_locked, awaited. cbn. unfold phase.
    change (gt_gate_start_timestamp_ms (g <| gt_gate_open := true |> <| gt_collection_started := true |>)) with (gt_gate_start_timestamp_ms g).
    destruct (gt_gate_start_timestamp_ms g); [by rewrite <- Es|]. unfold latest_timestamps. cbn.
    destruct (max_list _); by rewrite <- Es.
Qed.

Lemma allow_passes g d t : (_allow_ingest g d (Some t)).2 = true <-> passes g d t.
Proof.
  unfold _allow_ingest, passes. destruct (gt_collection_stopped g); [naive_solver|].
  destruct (_ && _) eqn:Ee in |- *.
  { split; [done|]. intros (_ & He%expected_spec & _). congruence. }
  apply expected_spec in Ee. destruct (gt_gate_open g); cbn; [|naive_solver].
  destruct (gt_gate_start_timestamp_ms g) as [s|]; cbn.
  - destruct (_gate_enabled g); cbn; [destruct (Z.ltb_spec t s); cbn|]; split; try done.
    + intros (_ & _ & _ & H'). specialize (H' s eq_refl eq_refl). lia.
    + intros _. split_and!; [done..|]. intros ? [= <-] _. lia.
  - by split.
Qed.

Lemma devices_closed_phase ms l g : phase (foldr (device_closed ms) g l) = phase g.
Proof. induction l as [|x l IH]; [done|]. cbn. rewrite <- IH. unfold device_closed. cbv zeta. by destruct (0 <? _). Qed.

Lemma devices_closed_same ms l g :
  gt_active_authorized_stream_count (foldr (device_closed ms) g l) = gt_active_authorized_stream_count g /\
  gt_collection_capture_session_id (foldr (device_closed ms) g l) = gt_collection_capture_session_id g.
Proof. induction l as [|x l [IH1 IH2]]; [done|]. cbn. rewrite <- IH1, <- IH2. unfold device_closed. cbv zeta. by destruct (0 <? _). Qed.

Lemma stop_if_missing_spec g : gt_collection_started g = true -> gt_collection_stopped g = false -> _gate_enabled g = true ->
  (devices_present g = true /\ stop_if_missing g = g) \/
  (devices_present g = false /\ exists reason, stop_if_missing g = stop_collection g reason).
Proof.
  intros H1 H2 H3. unfold stop_if_missing, devices_present. rewrite H1, H2, H3. cbn [negb orb].
  destruct (bool_decide (gt_expected_device_ids g = ∅)) eqn:Ee; cbn [negb].
  - destruct (Z.ltb_spec (Z.of_nat (size (gt_active_device_ids g))) (default 0 (gt_expected_device_count g))).
    + right. split; [bools; lia|by eexists].
    + left. split; [bools; lia|done].
  - assert (sorted_ids (gt_expected_device_ids g ∖ gt_active_device_ids g) = [] <-> gt_expected_device_ids g ⊆ gt_active_device_ids g) as Hm.
    { unfold sorted_ids. rewrite sort_by_nil_inv, elements_empty_iff.
      split; [apply empty_difference_subseteq|apply subseteq_empty_difference]. }
    destruct (bool_decide (sorted_ids _ = [])) eqn:Hb; bools in Hb; [left|right]; bools; rewrite <- Hm; by eauto.
Qed.

(** ** The phases of a collection *)

Section Collection.
Context (g0 : ingest_gate) (owner : string) (Hwait : waiting g0) (Henabled : _gate_enabled g0 = true).
Context (Howner : gt_collection_capture_session_id g0 = None \/ gt_collection_capture_session_id g0 = Some owner).

Definition owned (ev : gate_event) : Prop := match ev with Acquired s => s = owner | _ => True end.

Definition in_progress (g : ingest_gate) : Prop :=
  gt_gate_open g = true /\ gt_collection_started g = true /\ gt_collection_stopped g = false.
Definition stopped (g : ingest_gate) : Prop := gt_gate_open g = false /\ gt_collection_stopped g = true.

Definition began (evs : list gate_event) (start : option Z) (over : bool) : Prop :=
  exists pre d t post, begins g0 evs pre d t post /\ start = start_after g0 pre /\
    if over then ends g0 (pre ++ [Asked d t]) post else ~ ends g0 (pre ++ [Asked d t]) post.

Definition phases (evs : list gate_event) (g : ingest_gate) : Prop :=
  (waiting g /\ never_begun g0 evs) \/ (in_progress g /\ began evs (gt_gate_start_timestamp_ms g) false) \/
  (stopped g /\ exists start, began evs start true).

Definition same_expectation (g : ingest_gate) : Prop :=
  gt_expected_device_ids g = gt_expected_device_ids g0 /\ gt_expected_device_count g = gt_expected_device_count g0.

Lemma phase_expectation g g' : phase g = phase g' ->
  gt_expected_device_ids g = gt_expected_device_ids g' /\ gt_expected_device_count g = gt_expected_device_count g'.
Proof. intros H. exact (conj (f_equal (fun p => p.1.2) H) (f_equal snd H)). Qed.

Lemma never_begun_snoc evs ev : never_begun g0 evs ->
  (forall d t, ev = Asked d t -> expected g0 d -> devices_present (gate_run g0 evs) = false) -> never_begun g0 (evs ++ [ev]).
Proof. intros Hn Hev a d t b [(b' & _ & ->)|(_ & -> & Ea)]%snoc_split He; [by eapply Hn|by eapply Hev]. Qed.

Lemma began_snoc evs ev start over : began evs start over ->
  (over = false -> stays_present (gate_run g0 (evs ++ [ev])) ev) -> began (evs ++ [ev]) start over.
Proof.
  intros (pre & d & t & post & Hb & Hs & Ho) Hev. exists pre, d, t, (post ++ [ev]).
  split; [by apply begins_snoc|]. split; [done|]. destruct Hb as (-> & _). destruct over; rewrite ends_snoc; [by left|].
  intros [?|Hn]; [done|]. apply Hn. rewrite <- !app_assoc in *. by apply Hev.
Qed.

Lemma began_ends evs ev start : began evs start false -> ~ stays_present (gate_run g0 (evs ++ [ev])) ev ->
  began (evs ++ [ev]) start true.
Proof.
  intros (pre & d & t & post & Hb & Hs & Ho) Hev. exists pre, d, t, (post ++ [ev]).
  split; [by apply begins_snoc|]. split; [done|]. destruct Hb as (-> & _). apply ends_snoc. right.
  by rewrite <- !app_assoc in *.
Qed.

(** With the same phase, the collection stays where it is. *)
Lemma phases_kept evs g ev : phases evs g -> phase (gate_step g ev) = phase g -> gate_run g0 evs = g ->
  (waiting g -> forall d t, ev = Asked d t -> expected g0 d -> devices_present g = false) ->
  (in_progress g -> stays_present (gate_step g ev) ev) -> phases (evs ++ [ev]) (gate_step g ev).
Proof.
  intros Hp Hph Hg Hw Hs. unfold phase in Hph. injection Hph as E1 E2 E3 E4 E5 E6.
  unfold phases, waiting, in_progress, stopped. rewrite E1, E2, E3, E4.
  destruct Hp as [[H1 H2]|[[H1 H2]|[H1 [start H2]]]].
  - left. split; [done|]. apply never_begun_snoc; [done|]. rewrite Hg. by apply Hw.
  - right. left. split; [done|]. apply began_snoc; [done|]. intros _. rewrite gate_run_snoc, Hg. by apply Hs.
  - right. right. split; [done|]. exists start. by apply began_snoc.
Qed.

Lemma asked_phases evs g d t : phases evs g -> gate_run g0 evs = g -> same_expectation g ->
  phases (evs ++ [Asked d t]) (gate_step g (Asked d t)).
Proof.
  intros Hp Hg [Hids _]. cbn [gate_step]. destruct (_allow_ingest g d t) as [g' b] eqn:E.
  assert (expected g d <-> expected g0 d) as Hexp by (unfold expected; by rewrite Hids).
  destruct (allow_phase _ _ _ _ _ E) as [[Hph Hno]|(Hs & Ho & He & Hpres & Hph)].
  - replace g' with (gate_step g (Asked d t)) in * by (cbn; by rewrite E). apply phases_kept; try done.
    intros (? & ? & ? & _) ? ? [= <- <-] Hd. apply Hno; [done..|by apply Hexp].
  - destruct Hp as [[Hw Hn]|[[(Ho' & _) _]|[(_ & Hs') _]]]; [|congruence..].
    right. left. unfold phase in Hph. injection Hph as E1 E2 E3 E4 _ _. split; [done|].
    exists evs, d, t, []. split; [|split].
    + split_and!; [done|by apply Hexp|by rewrite Hg|exact Hn].
    + cbn. rewrite E4. destruct Hw as (_ & _ & _ & ->). by rewrite <- Hg.
    + intros (a & ds & ms & b' & Ha & _). by destruct a.
Qed.

Lemma closed_phases evs g ds ms : phases evs g -> gate_run g0 evs = g -> same_expectation g ->
  phases (evs ++ [Closed ds ms]) (gate_step g (Closed ds ms)) /\ same_expectation (gate_step g (Closed ds ms)).
Proof.
  intros Hp Hg Hsame. destruct (decide (ds = ∅)) as [Hds|Hds].
  { assert (gate_step g (Closed ds ms) = g) as Hst by (cbn; unfold _mark_stream_closed; by rewrite bool_decide_true).
    split; [|by rewrite Hst]. apply phases_kept; [done|by rewrite Hst|done|done|by intros ? ?]. }
  assert (gate_step g (Closed ds ms) = stop_if_missing (foldr (device_closed ms) g (elements ds))) as Hst
    by (cbn; unfold _mark_stream_closed; by rewrite bool_decide_false).
  pose proof (devices_closed_phase ms (elements ds) g) as Hph.
  set (g1 := foldr (device_closed ms) g (elements ds)) in *.
  assert (same_expectation g1) as Hsame1 by (unfold phase in Hph; injection Hph as _ _ _ _ E5 E6; unfold same_expectation; by rewrite E5, E6).
  assert (gt_collection_started g1 = gt_collection_started g /\ gt_collection_stopped g1 = gt_collection_stopped g) as [E1 E2]
    by (unfold phase in Hph; by injection Hph).
  assert (_gate_enabled g1 = true) as Hen by (unfold _gate_enabled; destruct Hsame1 as [_ ->]; exact Henabled).
  destruct (gt_collection_started g) eqn:Estart, (gt_collection_stopped g) eqn:Estop;
    try (assert (stop_if_missing g1 = g1) as Hk by (unfold stop_if_missing; by rewrite E1, E2);
         rewrite Hk in Hst; split; [|by rewrite Hst]; apply phases_kept; [done|by rewrite Hst|done|done|]; intros (_ & ? & ?); congruence).
  destruct (stop_if_missing_spec g1 E1 E2 Hen) as [[Hpres Hk]|[Hpres [reason Hk]]]; rewrite Hk in Hst.
  - split; [|by rewrite Hst]. apply phases_kept; [done|by rewrite Hst|done|done|]. intros _. cbn [stays_present]. by rewrite Hst.
  - split; [|by rewrite Hst]. destruct Hp as [[(_ & ? & _) _]|[[_ Hb]|[(_ & ?) _]]]; [congruence| |congruence].
    right. right. split; [by rewrite Hst|]. eexists. eapply began_ends; [exact Hb|].
    rewrite gate_run_snoc, Hg, Hst. cbn. intros Hx. specialize (Hx Hds).
    change (devices_present (stop_collection g1 reason)) with (devices_present g1) in Hx. congruence.
Qed.

Lemma collection_phases evs : Forall owned evs -> phases evs (gate_run g0 evs) /\ same_expectation (gate_run g0 evs) /\
  (gt_collection_capture_session_id (gate_run g0 evs) = None \/ gt_collection_capture_session_id (gate_run g0 evs) = Some owner).
Proof.
  induction evs as [|ev evs IH] using rev_ind; intros Hall.
  { split_and!; [left; split; [done|]; intros [] ? ? ? ?; done|done|done]. }
  apply Forall_app in Hall as [Hall [Hev _]%Forall_cons]. destruct (IH Hall) as (Hp & Hs & Ho).
  rewrite gate_run_snoc. split; [|split; [|by apply gate_step_owner]].
  - destruct ev; try (apply phases_kept; [done|by eapply gate_step_phase|done|done|done]);
      [by apply asked_phases|by apply closed_phases].
  - unfold same_expectation. destruct (decide (phase (gate_step (gate_run g0 evs) ev) = phase (gate_run g0 evs))) as [Hph|Hne].
    { by destruct (phase_expectation _ _ Hph) as [-> ->]. }
    destruct ev; try (by destruct Hne; eapply gate_step_phase).
    + cbn [gate_step]. destruct (_allow_ingest (gate_run g0 evs) device_id timestamp_ms) as [g' b] eqn:E. cbn [fst].
      destruct (allow_phase _ _ _ _ _ E) as [[Hph _]|(_ & _ & _ & _ & Hph)].
      * by destruct (phase_expectation _ _ Hph) as [-> ->].
      * unfold phase in Hph. injection Hph as _ _ _ _ E5 E6. cbn. by rewrite E5, E6.
    + by eapply closed_phases.
Qed.

(** The collection goes on exactly in the state that says so. *)
Lemma collecting_state evs start : Forall owned evs ->
  collecting g0 evs start <-> in_progress (gate_run g0 evs) /\ gt_gate_start_timestamp_ms (gate_run g0 evs) = start.
Proof.
  intros Hall. destruct (collection_phases evs Hall) as (Hp & _). split.
  - intros (pre & d & t & post & Hb & -> & He). destruct Hp as [[_ Hn]|[[Hi Hg]|[_ (start & Hg)]]].
    + destruct Hb as (E & Hd & Hpres & _). rewrite (Hn _ _ _ _ E Hd) in Hpres. done.
    + split; [done|]. destruct Hg as (pre' & d' & t' & post' & Hb' & -> & _).
      by destruct (begins_unique _ _ _ _ _ _ _ _ _ _ Hb Hb') as [-> _].
    + destruct Hg as (pre' & d' & t' & post' & Hb' & _ & He').
      by destruct (begins_unique _ _ _ _ _ _ _ _ _ _ Hb Hb') as (-> & -> & -> & ->).
  - intros [(H1 & H2 & H3) <-]. destruct Hp as [[(H4 & _) _]|[[_ Hg]|[(H4 & _) _]]]; [congruence| |congruence].
    destruct Hg as (pre & d & t & post & Hb & Hs & He). by exists pre, d, t, post.
Qed.
End Collection.

(** What the gate lets through. Over any operations by which one capture
    session owns the collection, a frame passes exactly when its device is
    expected, the collection has begun, it has not ended, and the frame is
    not older than its start. It begins with the first frame of an expected
    device that finds every expected device streaming; its start is the
    greatest of their latest timestamps at that moment; and it ends for good
    when a stream closes and leaves a device missing. *)
Theorem gate_passes g0 owner evs device_id timestamp_ms :
  waiting g0 -> _gate_enabled g0 = true ->
  (gt_collection_capture_session_id g0 = None \/ gt_collection_capture_session_id g0 = Some owner) ->
  Forall (owned owner) evs ->
  (_allow_ingest (gate_run g0 evs) device_id (Some timestamp_ms)).2 = true <->
  expected g0 device_id /\ exists start, collecting g0 evs start /\ forall s, start = Some s -> s <= timestamp_ms.
Proof.
  intros Hw He Ho Hall. destruct (collection_phases g0 owner Hw He Ho evs Hall) as (Hp & [Hids Hcount] & _).
  rewrite allow_passes. unfold passes.
  assert (expected (gate_run g0 evs) device_id <-> expected g0 device_id) as -> by (unfold expected; by rewrite Hids).
  assert (_gate_enabled (gate_run g0 evs) = true) as -> by (unfold _gate_enabled; by rewrite Hcount).
  setoid_rewrite (collecting_state g0 owner Hw He Ho evs); [|done..]. split.
  - intros (Hs & Hd & Hopen & Hstart). split; [done|]. eexists. split; [split; [|done]|by eauto].
    destruct Hp as [[(? & _) _]|[[Hi _]|[(? & _) _]]]; [congruence|done|congruence].
  - intros (Hd & start & [(H1 & H2 & H3) <-] & Hstart). by eauto.
Qed.

(** ** Witness *)

Definition demo_gate : ingest_gate := configure "127.0.0.1:50052" true None [Some "a"; Some " b "; None; Some ""].

Definition demo_gate_events : list gate_event := [
  Acquired "cs"; Marked "a"; Recorded "a" 100; Asked "a" (Some 100); Acquired "cs"; Marked "b"; Recorded "b" 250;
  Asked "b" (Some 250); Asked "a" (Some 240); Asked "x" (Some 300)].

Example demo_gate_run : let g := gate_run demo_gate demo_gate_events in
  gt_gate_start_timestamp_ms g = Some 250 /\ gt_pre_gate_dropped_count g = 2 /\ gt_stale_after_gate_dropped_count g = 1 /\
  (_allow_ingest g "a" (Some 260)).2 = true /\ (_allow_ingest g "x" (Some 300)).2 = false /\
  gt_collection_stop_reason (gate_step g (Closed {["a"]} 400)) = Some "expected device disconnected: a".
Proof. vm_compute. repeat split. Qed.

Lemma gate_passes_witness :
  (_allow_ingest (gate_run demo_gate demo_gate_events) "a" (Some 260)).2 = true /\
  exists start, collecting demo_gate demo_gate_events start /\ forall s, start = Some s -> s <= 260.
Proof.
  assert ((_allow_ingest (gate_run demo_gate demo_gate_events) "a" (Some 260)).2 = true) as E by (vm_compute; reflexivity).
  split; [exact E|].
  assert (waiting demo_gate) as H1 by (vm_compute; repeat split).
  assert (_gate_enabled demo_gate = true) as H2 by (vm_compute; reflexivity).
  assert (gt_collection_capture_session_id demo_gate = None) as H3 by (vm_compute; reflexivity).
  assert (Forall (owned "cs") demo_gate_events) as H4 by (repeat constructor).
  exact (proj2 (proj1 (gate_passes demo_gate "cs" demo_gate_events "a" 260 H1 H2 (or_introl H3) H4) E)).
Defined.
