(* ===== verification/IngestServer.v ===== *)
(** * The ingest server

    [GrpcIngestService._stream_frames] of
    src/app/infrastructure/grpc/grpc_ingest_server.py, one thread for every
    stream: each statement that reads or changes what the streams share (the
    gate, the verifier's caches, the credential stores, the ingest pipeline)
    is one step of its stream, and the streams' steps interleave in any
    order. The gRPC server that runs the threads, and the experiment
    recorder, are left out; [MessageToDict] is a parameter. *)

From Stdlib Require Import Ascii.
From S2P Require Import Prelude Json Digest Identity Database FileSystem Archive Frames SessionIdentity Ingest IngestGate.

(** ** Packets *)

(** A float is carried as its text. *)
Record FrameMetadata := mkFrameMetadata {
  fm_camera_id : string;
  fm_device_id : string;
  fm_frame_sequence : Z;
  fm_device_timestamp_ms : Z;
  fm_device_monotonic_ns : Z;
  fm_width : Z;
  fm_height : Z;
  fm_format : string;
  fm_fps_target : Z;
  fm_focus_mode : string;
  fm_focus_locked : bool;
  fm_exposure_locked : bool;
  fm_white_balance_locked : bool;
  fm_zoom_disabled : bool;
  fm_orientation_deg : Z;
  fm_sensor_timestamp_ns : Z;
  fm_focus_lock_requested : bool;
  fm_focus_lock_support : string;
  fm_focus_lock_applied : string;
  fm_exposure_lock_requested : bool;
  fm_exposure_lock_support : string;
  fm_exposure_lock_applied : string;
  fm_white_balance_lock_requested : bool;
  fm_white_balance_lock_support : string;
  fm_white_balance_lock_applied : string;
  fm_fps_target_support : string;
  fm_resolution_support : string;
  fm_manual_exposure_support : string;
  fm_manual_exposure_requested : bool;
  fm_manual_exposure_applied : string;
  fm_iso_requested : Z;
  fm_iso_applied : option Z;
  fm_exposure_time_ns_requested : Z;
  fm_exposure_time_ns_applied : option Z;
  fm_focal_length_mm : option string;
  fm_session_id : option string;
}.

#[export] Instance FrameMetadata_settable : Settable FrameMetadata := fun x => mkFrameMetadata
  (fm_camera_id x) (fm_device_id x) (fm_frame_sequence x) (fm_device_timestamp_ms x)
  (fm_device_monotonic_ns x) (fm_width x) (fm_height x) (fm_format x) (fm_fps_target x)
  (fm_focus_mode x) (fm_focus_locked x) (fm_exposure_locked x) (fm_white_balance_locked x)
  (fm_zoom_disabled x) (fm_orientation_deg x) (fm_sensor_timestamp_ns x)
  (fm_focus_lock_requested x) (fm_focus_lock_support x) (fm_focus_lock_applied x)
  (fm_exposure_lock_requested x) (fm_exposure_lock_support x) (fm_exposure_lock_applied x)
  (fm_white_balance_lock_requested x) (fm_white_balance_lock_support x)
  (fm_white_balance_lock_applied x) (fm_fps_target_support x) (fm_resolution_support x)
  (fm_manual_exposure_support x) (fm_manual_exposure_requested x) (fm_manual_exposure_applied x)
  (fm_iso_requested x) (fm_iso_applied x) (fm_exposure_time_ns_requested x)
  (fm_exposure_time_ns_applied x) (fm_focal_length_mm x) (fm_session_id x).


(** [None] for [session_scope]: [HasField] is false. *)
Record FramePacket := mkFramePacket {
  pk_metadata : FrameMetadata;
  pk_jpeg : string;
  pk_session_scope : option DeclaredScope;
}.

#[export] Instance FramePacket_settable : Settable FramePacket := fun x => mkFramePacket
  (pk_metadata x) (pk_jpeg x) (pk_session_scope x).


Definition resolve_content_type (image_format : string) : string :=
  let normalized := lower (strip image_format) in
  if any_char (fun c => bool_decide (c = "/"%char)) normalized then normalized
  else if bool_decide (normalized ∈ ["jpg"; "jpeg"]) then "image/jpeg"
  else if bool_decide (normalized = "png") then "image/png"
  else if bool_decide (normalized = "webp") then "image/webp"
  else "application/octet-stream".

Definition resolve_file_extension (image_format : string) : string :=
  let normalized := lower (strip image_format) in
  if bool_decide (normalized ∈ ["jpg"; "jpeg"; "image/jpeg"]) then "jpg"
  else if bool_decide (normalized ∈ ["png"; "image/png"]) then "png"
  else if bool_decide (normalized ∈ ["webp"; "image/webp"]) then "webp"
  else "bin".

(** *** The sidecar file *)

(** The faults of the two calls; of a write that fails, [written] bytes. *)
Record sidecar_faults := mkSidecarFaults {
  sf_open : option os_exception;
  sf_write : option (os_exception * nat);
}.

Definition write_ingest_metadata_sidecar (cwd : path) (frame_path : string) (metadata_payload : json)
    (faults : sidecar_faults) : io unit :=
  let target := resolve cwd (frame_path +:+ ".metadata.json") in
  let text := dumps_indented 0 metadata_payload in
  write_whole (sf_open faults) (sf_write faults) target text.

(** ** The verifier as the server sees it *)

Definition scope_session (scope : ingest_scope) : string :=
  match scope with SessionScope s => su_capture_session_id s | CameraScope s => ac_capture_session_id s end.
Definition scope_expires_at (scope : ingest_scope) : Z :=
  match scope with SessionScope s => su_expires_at s | CameraScope s => ac_expires_at s end.

Definition matches_declared_scope (scope : ingest_scope) (declared : DeclaredScope) (camera_id : string)
    (device_id : option string) : bool :=
  match scope with
  | SessionScope s => session_matches_declared_scope s declared camera_id
  | CameraScope s => camera_matches_declared_scope s declared camera_id device_id
  end.

(** What it promises: a scope it calls active has not expired. *)
Class IngestVerifier (V E : Type) := {
  verifier_verify : V -> string -> E -> V * result session_error ingest_scope;
  verifier_assert_active : V -> ingest_scope -> E -> V * result session_error unit;
  verifier_now : E -> Z;
  verifier_unexpired v scope env v' : verifier_assert_active v scope env = (v', Ok tt) ->
    verifier_now env < scope_expires_at scope;
}.

Lemma versioned_unexpired `{PyJWT} v c scope env c' :
  versioned_assert_active v c scope env = (c', Ok tt) -> en_now_s env < scope_expires_at scope.
Proof.
  unfold versioned_assert_active, session_scope_active, camera_scope_active.
  destruct scope as [s|s]; [destruct (vv_legacy v)|destruct (vv_camera_ingest v)]; try done; cbn [scope_expires_at];
    destruct (Z.leb_spec (su_expires_at s) (en_now_s env)) || destruct (Z.leb_spec (ac_expires_at s) (en_now_s env)); done.
Qed.

#[export, refine] Instance versioned_ingest_verifier `{PyJWT} : IngestVerifier (versioned_verifier * caches) environment := {
  verifier_verify v token env := let '(c, r) := versioned_verify v.1 v.2 token env in ((v.1, c), r);
  verifier_assert_active v scope env := let '(c, r) := versioned_assert_active v.1 v.2 scope env in ((v.1, c), r);
  verifier_now := en_now_s;
}.
Proof.
  intros v scope env v' E. destruct (versioned_assert_active v.1 v.2 scope env) as [c r] eqn:Ea.
  apply (versioned_unexpired v.1 v.2 scope env c). rewrite Ea. by simplify_eq.
Defined.

(** ** The server and its streams *)

Section Server.
Context `{Hashing} {V E : Type} `{!IngestVerifier V E}.
Context (message_to_dict : FrameMetadata -> list (string * json)).

(** What the streams share. *)
Record server := mkServer {
  sv_gate : ingest_gate;
  sv_verifier : option V;
  sv_sessions : ActiveSessionCredentialStore;
  sv_cameras : ActiveCameraIngestCredentialStore;
  sv_pipeline : IngestState;
}.

Inductive stream_error :=
| IngestRaised (e : ingest_error)
| SidecarRaised (e : os_exception)
| CredentialRaised (message : string)
| RequestRaised.

(** How a stream ends: an answer, [context.abort], or an exception. *)
Inductive stream_outcome :=
| Responded (received_frames : Z) (message : string)
| Aborted (status_name detail : string)
| Crashed (e : stream_error).

(** A packet whose fields were checked, with the values the loop gives it. *)
Record accepted_packet := mkAcceptedPacket {
  ap_packet : FramePacket;
  ap_device_id : string;
  ap_camera_id : string;
  ap_received_at_ms : Z;
  ap_received_monotonic_ns : Z;
  ap_sequence : Z;
}.

(** The statement a stream is at. *)
Inductive stream_pc :=
| Verifying
| Registering (token : string) (scope : ingest_scope)
| Acquiring (scope : ingest_scope)
| Reading
| Checking (p : FramePacket)
| Confirming (p : FramePacket)
| Numbering (p : FramePacket)
| Marking (a : accepted_packet)
| Timing (a : accepted_packet)
| Asking (a : accepted_packet)
| Ingesting (a : accepted_packet)
| Closing (o : stream_outcome)
| Releasing (o : stream_outcome)
| Finished (o : stream_outcome).

(** Its local variables. *)
Record stream := mkStream {
  sm_pc : stream_pc;
  sm_received_count : Z;
  sm_device_ids : gset string;
  sm_scope : option ingest_scope;
  sm_acquired : bool;
}.

Definition new_stream : stream := mkStream Verifying 0 ∅ None false.

Definition at_pc (pc : stream_pc) (st : stream) : stream :=
  mkStream pc (sm_received_count st) (sm_device_ids st) (sm_scope st) (sm_acquired st).

Inductive request := NextPacket (p : FramePacket) | EndOfStream | BrokenStream.

(** What the statement meets: the metadata of the call, the verifier's
    answers, the clocks, the next request, what [ingest_frame] and the
    sidecar meet. *)
Record stream_input := mkStreamInput {
  in_metadata : option (list (string * string));
  in_verifier : E;
  in_now_s : Z;
  in_request : request;
  in_clock_ms : Z;
  in_monotonic_ns : Z;
  in_ingest : ingest_environment;
  in_ingested_at_ms : Z;
  in_ingested_monotonic_ns : Z;
  in_sidecar : sidecar_faults;
}.

Definition with_gate (sv : server) (g : ingest_gate) : server :=
  mkServer g (sv_verifier sv) (sv_sessions sv) (sv_cameras sv) (sv_pipeline sv).
Definition with_verifier (sv : server) (v : V) : server :=
  mkServer (sv_gate sv) (Some v) (sv_sessions sv) (sv_cameras sv) (sv_pipeline sv).
Definition with_pipeline (sv : server) (p : IngestState) : server :=
  mkServer (sv_gate sv) (sv_verifier sv) (sv_sessions sv) (sv_cameras sv) p.

Definition unauthenticated : stream_outcome := Aborted "UNAUTHENTICATED" "valid Main session credentials are required".
Definition inactive : stream_outcome := Aborted "UNAUTHENTICATED" "Main session is no longer active".

(** [except SessionTokenError] gives [o]; another exception passes. *)
Definition refused (e : session_error) (o : stream_outcome) : stream_outcome :=
  match e with SessionTokenError _ => o | SessionValueError message => Crashed (CredentialRaised message) end.

(** *** Before the loop *)

Definition verify_step (sv : server) (st : stream) (i : stream_input) : server * stream :=
  match sv_verifier sv with
  | None => (sv, at_pc Reading st)
  | Some v =>
      match extract_bearer_token (in_metadata i) with
      | Raise e => (sv, at_pc (Finished (refused e unauthenticated)) st)
      | Ok token =>
          let '(v, r) := verifier_verify v token (in_verifier i) in
          (with_verifier sv v,
           match r with
           | Raise e => at_pc (Finished (refused e unauthenticated)) st
           | Ok scope => mkStream (Registering token scope) (sm_received_count st) (sm_device_ids st) (Some scope) (sm_acquired st)
           end)
      end
  end.

Definition register_step (sv : server) (st : stream) (token : string) (scope : ingest_scope) (i : stream_input)
    : server * stream :=
  let go {A} (r : result session_error A) :=
    match r with Ok _ => at_pc (Acquiring scope) st | Raise e => at_pc (Finished (refused e unauthenticated)) st end in
  match scope with
  | CameraScope s =>
      let '(cameras, r) := camera_register (sv_cameras sv) token s (in_now_s i) in
      (mkServer (sv_gate sv) (sv_verifier sv) (sv_sessions sv) cameras (sv_pipeline sv), go r)
  | SessionScope s =>
      let '(sessions, r) := session_register (sv_sessions sv) token s (in_now_s i) in
      (mkServer (sv_gate sv) (sv_verifier sv) sessions (sv_cameras sv) (sv_pipeline sv), go r)
  end.

Definition acquire_step (sv : server) (st : stream) (scope : ingest_scope) : server * stream :=
  let '(g, acquired) := _acquire_authorized_collection (sv_gate sv) (scope_session scope) in
  (with_gate sv g,
   if acquired then mkStream Reading (sm_received_count st) (sm_device_ids st) (sm_scope st) true
   else at_pc (Finished (Aborted "FAILED_PRECONDITION" "another capture session owns the ingest collection")) st).

(** *** A packet *)

Definition read_step (st : stream) (i : stream_input) : stream :=
  match in_request i with
  | NextPacket p => at_pc (if bool_decide (sm_scope st = None) then Numbering p else Checking p) st
  | EndOfStream => at_pc (Closing (Responded (sm_received_count st) "collector ingest stream completed")) st
  | BrokenStream => at_pc (Closing (Crashed RequestRaised)) st
  end.

Definition check_step (sv : server) (st : stream) (p : FramePacket) (i : stream_input) : server * stream :=
  match sv_verifier sv, sm_scope st with
  | Some v, Some scope =>
      let '(v, r) := verifier_assert_active v scope (in_verifier i) in
      (with_verifier sv v, match r with Ok _ => at_pc (Confirming p) st | Raise e => at_pc (Closing (refused e inactive)) st end)
  | _, _ => (sv, at_pc (Numbering p) st)
  end.

Definition confirm_step (sv : server) (st : stream) (p : FramePacket) (i : stream_input) : server * stream :=
  match sm_scope st with
  | Some (CameraScope s) =>
      let '(cameras, r) := assert_current (sv_cameras sv) s (in_now_s i) in
      (mkServer (sv_gate sv) (sv_verifier sv) (sv_sessions sv) cameras (sv_pipeline sv),
       match r with Ok _ => at_pc (Numbering p) st | Raise e => at_pc (Closing (refused e inactive)) st end)
  | _ => (sv, at_pc (Numbering p) st)
  end.

(** Whether the scope of the stream, if any, covers the packet. *)
Definition scope_covers (scope : option ingest_scope) (p : FramePacket) (camera_id : string) : bool :=
  match scope with
  | None => true
  | Some s =>
      match pk_session_scope p with
      | None => false
      | Some declared =>
          let device := fm_device_id (pk_metadata p) in
          matches_declared_scope s declared camera_id (if truthy device then Some device else None)
      end
  end.

Definition camera_of_packet (p : FramePacket) : string := or_str (Some (fm_camera_id (pk_metadata p))) "unknown".
Definition device_of_packet (p : FramePacket) : string :=
  or_str (Some (fm_device_id (pk_metadata p))) (fm_camera_id (pk_metadata p)).

(** The number of the packet, and the checks of its fields. *)
Definition number_step (sv : server) (st : stream) (p : FramePacket) (i : stream_input) : server * stream :=
  let '(g, sequence) := _next_server_receive_sequence (sv_gate sv) in
  let answer message := at_pc (Closing (Responded (sm_received_count st) message)) st in
  (with_gate sv g,
   if negb (truthy (device_of_packet p)) then answer "device_id or camera_id is required"
   else if fm_device_timestamp_ms (pk_metadata p) <=? 0 then answer "device_timestamp_ms must be greater than 0"
   else if negb (scope_covers (sm_scope st) p (camera_of_packet p))
   then at_pc (Closing (Aborted "PERMISSION_DENIED" "frame scope does not match Main session credentials")) st
   else at_pc (Marking (mkAcceptedPacket p (device_of_packet p) (camera_of_packet p) (in_clock_ms i)
                          (in_monotonic_ns i) sequence)) st).

Definition mark_step (sv : server) (st : stream) (a : accepted_packet) : server * stream :=
  if bool_decide (ap_device_id a ∈ sm_device_ids st) then (sv, at_pc (Timing a) st)
  else (with_gate sv (_mark_device_active (sv_gate sv) (ap_device_id a)),
        mkStream (Timing a) (sm_received_count st) ({[ ap_device_id a ]} ∪ sm_device_ids st) (sm_scope st) (sm_acquired st)).

Definition time_step (sv : server) (st : stream) (a : accepted_packet) : server * stream :=
  (with_gate sv (_record_device_timestamp (sv_gate sv) (ap_device_id a) (fm_device_timestamp_ms (pk_metadata (ap_packet a)))),
   at_pc (Asking a) st).

Definition ask_step (sv : server) (st : stream) (a : accepted_packet) : server * stream :=
  let '(g, allowed) := _allow_ingest (sv_gate sv) (ap_device_id a) (Some (fm_device_timestamp_ms (pk_metadata (ap_packet a)))) in
  (with_gate sv g, at_pc (if allowed then Ingesting a else Reading) st).

(** The call of [ingest_frame]. *)
Definition ingest_call (st : stream) (a : accepted_packet) : IngestCall :=
  let metadata := pk_metadata (ap_packet a) in
  let sequence := fm_frame_sequence metadata in
  mkIngestCall (ap_device_id a) (fm_device_timestamp_ms metadata) (pk_jpeg (ap_packet a))
    (if sequence =? 0 then None else Some sequence)
    (resolve_content_type (or_str (Some (fm_format metadata)) "jpeg"))
    (Some (ap_device_id a +:+ "_" +:+ ap_camera_id a +:+ "_" +:+ pretty sequence +:+ ".jpg"))
    (fm_session_id metadata) (Some (ap_camera_id a)) None (Some (ap_received_at_ms a))
    (Some (message_to_dict metadata)) (sm_scope st).

Definition sidecar_payload (g : ingest_gate) (a : accepted_packet) (i : stream_input) : json :=
  JObj [("service", JStr "gc.collector.v1.FrameIngestService");
        ("metadata", JObj (message_to_dict (pk_metadata (ap_packet a))));
        ("server", JObj [
          ("received_at_ms", JInt (ap_received_at_ms a));
          ("received_monotonic_ns", JInt (ap_received_monotonic_ns a));
          ("ingested_at_ms", JInt (in_ingested_at_ms i));
          ("ingested_monotonic_ns", JInt (in_ingested_monotonic_ns i));
          ("ingest_elapsed_ms", JInt (in_ingested_at_ms i - ap_received_at_ms a));
          ("server_receive_sequence", JInt (ap_sequence a));
          ("gate_start_timestamp_ms", json_opt_int (gt_gate_start_timestamp_ms g))])].

Definition sidecar_step (sv : server) (a : accepted_packet) (answer : IngestResult) (i : stream_input)
    : server * result os_exception unit :=
  match ir_frame answer ≫= fr_file_path with
  | Some frame_path =>
      if truthy frame_path
      then let '(_, files, r) := write_ingest_metadata_sidecar (ie_cwd (in_ingest i)) frame_path
                                   (sidecar_payload (sv_gate sv) a i) (in_sidecar i) (ig_files (sv_pipeline sv)) in
           (with_pipeline sv ((sv_pipeline sv) <| ig_files := files |>), r)
      else (sv, Ok tt)
  | None => (sv, Ok tt)
  end.

Definition ingest_step (sv : server) (st : stream) (a : accepted_packet) (i : stream_input) : server * stream :=
  let '(pipeline, r) := ingest_frame (in_ingest i) (sv_pipeline sv) (ingest_call st a) in
  let sv := with_pipeline sv pipeline in
  match r with
  | Raise e => (sv, at_pc (Closing (Crashed (IngestRaised e))) st)
  | Ok answer =>
      let '(sv, r) := sidecar_step sv a answer i in
      (sv, match r with
           | Raise e => at_pc (Closing (Crashed (SidecarRaised e))) st
           | Ok _ => mkStream Reading (sm_received_count st + 1) (sm_device_ids st) (sm_scope st) (sm_acquired st)
           end)
  end.

(** *** [finally] *)

Definition close_step (sv : server) (st : stream) (o : stream_outcome) (i : stream_input) : server * stream :=
  (with_gate sv (_mark_stream_closed (sv_gate sv) (sm_device_ids st) (in_clock_ms i)),
   at_pc (if sm_acquired st then Releasing o else Finished o) st).

Definition release_step (sv : server) (st : stream) (o : stream_outcome) : server * stream :=
  (match sm_scope st with
   | Some scope => with_gate sv (_release_authorized_collection (sv_gate sv) (scope_session scope))
   | None => sv
   end, at_pc (Finished o) st).

Definition stream_step (sv : server) (st : stream) (i : stream_input) : server * stream :=
  match sm_pc st with
  | Verifying => verify_step sv st i
  | Registering token scope => register_step sv st token scope i
  | Acquiring scope => acquire_step sv st scope
  | Reading => (sv, read_step st i)
  | Checking p => check_step sv st p i
  | Confirming p => confirm_step sv st p i
  | Numbering p => number_step sv st p i
  | Marking a => mark_step sv st a
  | Timing a => time_step sv st a
  | Asking a => ask_step sv st a
  | Ingesting a => ingest_step sv st a i
  | Closing o => close_step sv st o i
  | Releasing o => release_step sv st o
  | Finished _ => (sv, st)
  end.

(** *** The streams together

    A stream opens, a stream makes a step, or the rest of the application
    changes the credential stores, the caches or the pipeline. *)
Definition system : Type := server * gmap nat stream.

(** A step of stream [tk_stream], from these states. *)
Record stream_tick := mkTick { tk_stream : nat; tk_server : server; tk_state : stream; tk_input : stream_input }.

Inductive system_step : system -> list stream_tick -> system -> Prop :=
| step_open sv streams n : streams !! n = None -> system_step (sv, streams) [] (sv, <[n := new_stream]> streams)
| step_stream sv streams n st i sv' st' : streams !! n = Some st -> stream_step sv st i = (sv', st') ->
    system_step (sv, streams) [mkTick n sv st i] (sv', <[n := st']> streams)
| step_other sv streams v sessions cameras pipeline : is_Some v <-> is_Some (sv_verifier sv) ->
    system_step (sv, streams) [] (mkServer (sv_gate sv) v sessions cameras pipeline, streams).

(** From the server [configure] leaves, by these steps of the streams. *)
Inductive reached : list stream_tick -> system -> Prop :=
| reach_start bind enabled count ids v sessions cameras pipeline :
    reached [] (mkServer (configure bind enabled count ids) v sessions cameras pipeline, ∅)
| reach_step ticks sys new sys' : reached ticks sys -> system_step sys new sys' -> reached (ticks ++ new) sys'.
End Server.

(** ** Counting the streams *)

Definition count {A} (P : A -> bool) (m : gmap nat A) : nat := size (filter (fun kv => P kv.2 = true) m).
Definition one (b : bool) : nat := if b then 1%nat else 0%nat.

Section Count.
Context {A : Type} (P : A -> bool).

Lemma count_new m i x : m !! i = None -> count P (<[i := x]> m) = (one (P x) + count P m)%nat.
Proof.
  intros Hi. unfold count. destruct (P x) eqn:E; cbn [one].
  - rewrite map_filter_insert_True by done. rewrite map_size_insert_None; [done|]. by rewrite map_lookup_filter_None; left.
  - rewrite map_filter_insert_not'; [done|cbn; congruence|]. intros y Hy. congruence.
Qed.

Lemma count_update m i x y : m !! i = Some x -> (count P (<[i := y]> m) + one (P x) = count P m + one (P y))%nat.
Proof.
  intros Hi. rewrite <- (insert_delete_id m i x Hi) at 2. rewrite <- insert_delete_eq.
  rewrite !count_new by (by rewrite lookup_delete_eq). lia.
Qed.

Lemma count_zero m i x : count P m = 0%nat -> m !! i = Some x -> P x = false.
Proof.
  intros Hz%map_size_empty_inv Hi. destruct (P x) eqn:E; [|done].
  assert (filter (fun kv : nat * A => P kv.2 = true) m !! i = Some x) as Hf by (by rewrite map_lookup_filter_Some).
  by rewrite Hz, lookup_empty in Hf.
Qed.

Lemma count_positive m i x : m !! i = Some x -> P x = true -> (0 < count P m)%nat.
Proof. intros Hi Hx. destruct (count P m) eqn:E; [|lia]. rewrite (count_zero m i x E Hi) in Hx. done. Qed.

Lemma count_exists m : count P m <> 0%nat <-> exists i x, m !! i = Some x /\ P x = true.
Proof.
  split.
  - intros (i & x & [Hi Hx]%map_lookup_filter_Some)%map_size_non_empty_iff%map_choose. by exists i, x.
  - intros (i & x & Hi & Hx). pose proof (count_positive m i x Hi Hx). lia.
Qed.

Lemma count_empty : count P ∅ = 0%nat.
Proof. unfold count. by rewrite map_filter_empty, map_size_empty. Qed.
End Count.

(** ** What the gate knows of the streams *)

(** [n d] streams of device [d] are open. *)
Definition ledger (n : string -> nat) (g : ingest_gate) : Prop := forall d,
  gt_active_device_stream_counts g !! d = (if bool_decide (n d = 0%nat) then None else Some (Z.of_nat (n d))) /\
  (d ∈ gt_active_device_ids g <-> n d <> 0%nat).

Lemma ledger_ext n n' g : (forall d, n d = n' d) -> ledger n g -> ledger n' g.
Proof. intros He H d. rewrite <- He. apply H. Qed.

Lemma ledger_mark n g device : ledger n g ->
  ledger (fun d => (n d + one (bool_decide (d = device)))%nat) (_mark_device_active g device).
Proof.
  intros H d. destruct (H d) as [Hc Ha]. cbn. destruct (decide (d = device)) as [->|Hne].
  - rewrite lookup_insert_eq, Hc, (bool_decide_true (device = device)) by done. cbn [one].
    rewrite (bool_decide_false ((n device + 1)%nat = 0%nat)) by lia. split.
    + destruct (decide (n device = 0%nat)) as [E|E]; [rewrite E, bool_decide_true by done|rewrite bool_decide_false by done]; cbn; f_equal; lia.
    + split; [lia|]. intros _. set_solver.
  - rewrite lookup_insert_ne by done. rewrite (bool_decide_false (d = device)) by done. cbn [one].
    rewrite Nat.add_0_r. split; [done|]. set_solver.
Qed.

Lemma ledger_device_closed n g ms device : ledger n g -> n device <> 0%nat ->
  ledger (fun d => (n d - one (bool_decide (d = device)))%nat) (device_closed ms device g).
Proof.
  intros H Hd d. destruct (H device) as [Hc _]. destruct (H d) as [Hc' Ha']. unfold device_closed.
  rewrite Hc, bool_decide_false by done. cbv zeta. cbn [from_option id].
  destruct (Z.ltb_spec 0 (Z.of_nat (n device) - 1)); cbn; destruct (decide (d = device)) as [->|Hne].
  - rewrite lookup_insert_eq, (bool_decide_true (device = device)) by done. cbn [one].
    rewrite bool_decide_false by lia. split; [f_equal; lia|]. rewrite Ha'. lia.
  - rewrite lookup_insert_ne by done. rewrite (bool_decide_false (d = device)) by done. cbn [one].
    rewrite Nat.sub_0_r. by split.
  - rewrite lookup_delete_eq, (bool_decide_true (device = device)) by done. cbn [one].
    rewrite bool_decide_true by lia. split; [done|]. split; [set_solver|lia].
  - rewrite lookup_delete_ne by done. rewrite (bool_decide_false (d = device)) by done. cbn [one].
    rewrite Nat.sub_0_r. split; [done|]. set_solver.
Qed.

Lemma ledger_closed n g ms l : NoDup l -> ledger n g -> (forall d, d ∈ l -> n d <> 0%nat) ->
  ledger (fun d => (n d - one (bool_decide (d ∈ l)))%nat) (foldr (device_closed ms) g l).
Proof.
  intros Hl H Hd. induction Hl as [|x l Hx Hl IH]; cbn.
  - eapply ledger_ext; [|exact H]. intros d. rewrite bool_decide_false by apply not_elem_of_nil. cbn. lia.
  - eapply ledger_ext; [|apply ledger_device_closed; [apply IH; intros; apply Hd; by right|]].
    + intros d. cbn. destruct (decide (d = x)) as [->|Hne].
      * rewrite (bool_decide_true (x = x)), (bool_decide_false (x ∈ l)), (bool_decide_true (x ∈ x :: l)) by (done || by left). cbn. lia.
      * rewrite (bool_decide_false (d = x)) by done. cbn. rewrite Nat.sub_0_r. f_equal. f_equal.
        apply bool_decide_ext. rewrite elem_of_cons. naive_solver.
    + cbn. rewrite bool_decide_false by done. cbn. rewrite Nat.sub_0_r. apply Hd. by left.
Qed.

Lemma ledger_same n g g' : gt_active_device_stream_counts g' = gt_active_device_stream_counts g ->
  gt_active_device_ids g' = gt_active_device_ids g -> ledger n g -> ledger n g'.
Proof. intros E1 E2 H d. rewrite E1, E2. apply H. Qed.

Lemma stop_if_missing_same g : gt_active_device_stream_counts (stop_if_missing g) = gt_active_device_stream_counts g /\
  gt_active_device_ids (stop_if_missing g) = gt_active_device_ids g /\
  gt_active_authorized_stream_count (stop_if_missing g) = gt_active_authorized_stream_count g /\
  gt_collection_capture_session_id (stop_if_missing g) = gt_collection_capture_session_id g.
Proof. unfold stop_if_missing. by repeat case_match. Qed.

(** ** The invariant of the streams *)

Section Streams.
Context `{Hashing} {V E : Type} `{!IngestVerifier V E}.
Context (message_to_dict : FrameMetadata -> list (string * json)).
Abbreviation server := (server (V := V)).
Abbreviation stream_input := (stream_input (E := E)).
Abbreviation stream_tick := (stream_tick (V := V) (E := E)).

Definition opening (pc : stream_pc) : bool :=
  match pc with Verifying | Registering _ _ | Acquiring _ => true | _ => false end.

(** Between the acquisition and the release. *)
Definition in_loop (pc : stream_pc) : bool := match pc with Finished _ => false | _ => negb (opening pc) end.

(** It counts as a stream of the collection; and of these devices. *)
Definition holds (st : stream) : bool := sm_acquired st && in_loop (sm_pc st).
Definition live_devices (st : stream) : gset string :=
  match sm_pc st with Releasing _ | Finished _ => ∅ | _ => sm_device_ids st end.
Definition streams_device (d : string) (st : stream) : bool := bool_decide (d ∈ live_devices st).

(** The packet was checked, and the scope of the stream covers it. *)
Definition accepted (scope : option ingest_scope) (a : accepted_packet) : Prop :=
  ap_device_id a = device_of_packet (ap_packet a) /\ ap_camera_id a = camera_of_packet (ap_packet a) /\
  ap_device_id a <> "" /\ 0 < fm_device_timestamp_ms (pk_metadata (ap_packet a)) /\
  scope_covers scope (ap_packet a) (ap_camera_id a) = true.

Record stream_ok (auth : bool) (owner : option string) (st : stream) : Prop := {
  sk_opening : opening (sm_pc st) = true -> sm_device_ids st = ∅ /\ sm_acquired st = false;
  sk_auth : in_loop (sm_pc st) = true -> sm_acquired st = auth;
  sk_plain : auth = false -> sm_scope st = None;
  sk_pending : match sm_pc st with
               | Registering _ scope | Acquiring scope => sm_scope st = Some scope | _ => True end;
  sk_held : holds st = true -> exists scope, sm_scope st = Some scope /\ owner = Some (scope_session scope);
  sk_packet : match sm_pc st with
              | Marking a | Timing a | Asking a | Ingesting a => accepted (sm_scope st) a | _ => True end;
}.

Definition authenticated (sv : server) : bool := bool_decide (is_Some (sv_verifier sv)).
Definition owner_of (sv : server) : option string := gt_collection_capture_session_id (sv_gate sv).

Record system_ok (sys : server * gmap nat stream) : Prop := {
  ok_count : gt_active_authorized_stream_count (sv_gate sys.1) = Z.of_nat (count holds sys.2);
  ok_ledger : ledger (fun d => count (streams_device d) sys.2) (sv_gate sys.1);
  ok_streams : forall n st, sys.2 !! n = Some st -> stream_ok (authenticated sys.1) (owner_of sys.1) st;
}.

(** A statement that leaves alone what the invariant is about: it keeps what
    the gate counts, and the stream counts as before. *)
Record quiet_step (sv : server) (st : stream) (sv' : server) (st' : stream) : Prop := {
  qs_counts : gt_active_device_stream_counts (sv_gate sv') = gt_active_device_stream_counts (sv_gate sv);
  qs_active : gt_active_device_ids (sv_gate sv') = gt_active_device_ids (sv_gate sv);
  qs_held : gt_active_authorized_stream_count (sv_gate sv') = gt_active_authorized_stream_count (sv_gate sv);
  qs_owner : owner_of sv' = owner_of sv;
  qs_auth : authenticated sv' = authenticated sv;
  qs_holds : holds st' = holds st;
  qs_devices : live_devices st' = live_devices st;
}.

Lemma count_same {A} (P : A -> bool) m i x y : m !! i = Some x -> P y = P x -> count P (<[i := y]> m) = count P m.
Proof. intros Hi Hp. pose proof (count_update P m i x y Hi). rewrite Hp in *. lia. Qed.

Lemma quiet_ok sv streams n st sv' st' : system_ok (sv, streams) -> streams !! n = Some st ->
  quiet_step sv st sv' st' -> stream_ok (authenticated sv') (owner_of sv') st' -> system_ok (sv', <[n := st']> streams).
Proof.
  intros [Hc Hl Hs] Hn [Q1 Q2 Q3 Q4 Q5 Q6 Q7] Hok. cbn in *. split; cbn.
  - by rewrite Q3, Hc, (count_same holds streams n st st').
  - eapply ledger_same; [exact Q1|exact Q2|]. eapply ledger_ext; [|exact Hl]. intros d.
    rewrite (count_same (streams_device d) streams n st st'); [done|done|]. unfold streams_device. by rewrite Q7.
  - intros k x Hk. destruct (decide (n = k)) as [<-|Hne].
    + rewrite lookup_insert_eq in Hk. by injection Hk as <-.
    + rewrite lookup_insert_ne in Hk by done. rewrite Q4, Q5. by apply (Hs k).
Qed.

(** *** The statements *)

Definition same_gate (sv sv' : server) : Prop := sv_gate sv' = sv_gate sv /\ authenticated sv' = authenticated sv.

Lemma with_verifier_same sv v v' : sv_verifier sv = Some v -> same_gate sv (with_verifier sv v').
Proof. intros Hv. split; [done|]. unfold authenticated. by rewrite Hv. Qed.

Section Step.
Context (sv : server) (st : stream) (i : stream_input).
Context (Hok : stream_ok (authenticated sv) (owner_of sv) st).

Abbreviation keeps r := (quiet_step sv st r.1 r.2 /\ stream_ok (authenticated r.1) (owner_of r.1) r.2).

Lemma keeps_same_gate sv' st' : same_gate sv sv' -> holds st' = holds st -> live_devices st' = live_devices st ->
  stream_ok (authenticated sv) (owner_of sv) st' -> keeps (sv', st').
Proof. intros [Eg Ea] Hh Hd Ho. cbn. unfold owner_of in *. rewrite Eg, Ea. split; [|done]. by split; unfold owner_of; rewrite ?Eg. Qed.

(** From a statement before the loop: to another one, to the end, or, without
    a verifier, into the loop. *)
Lemma keeps_opening sv' pc scope : same_gate sv sv' -> opening (sm_pc st) = true ->
  match pc with Registering _ s | Acquiring s => scope = Some s | Finished _ => True | Reading => authenticated sv = false
           | _ => False end ->
  (authenticated sv = false -> scope = None) ->
  keeps (sv', mkStream pc (sm_received_count st) (sm_device_ids st) scope (sm_acquired st)).
Proof.
  intros Hg Ho Hp Hs. destruct (sk_opening _ _ _ Hok Ho) as [Hd Ha]. apply keeps_same_gate; [done|..].
  - unfold holds. cbn. by rewrite Ha.
  - unfold live_devices. cbn. rewrite Hd. by destruct pc; destruct (sm_pc st).
  - split; unfold holds; cbn; rewrite ?Ha; try done; destruct pc; done.
Qed.

(** Inside the loop, to another statement of the loop, with the same
    devices. *)
Definition inside (pc : stream_pc) : bool := match pc with Releasing _ => false | _ => in_loop pc end.

Lemma keeps_inside sv' pc received :
  (same_gate sv sv' \/ exists g, sv' = with_gate sv g /\
     gt_active_device_stream_counts g = gt_active_device_stream_counts (sv_gate sv) /\
     gt_active_device_ids g = gt_active_device_ids (sv_gate sv) /\
     gt_active_authorized_stream_count g = gt_active_authorized_stream_count (sv_gate sv) /\
     gt_collection_capture_session_id g = gt_collection_capture_session_id (sv_gate sv)) ->
  inside (sm_pc st) = true -> inside pc = true ->
  match pc with Marking a | Timing a | Asking a | Ingesting a => accepted (sm_scope st) a | _ => True end ->
  keeps (sv', mkStream pc received (sm_device_ids st) (sm_scope st) (sm_acquired st)).
Proof.
  intros Hg Hi Hi' Hp.
  assert (in_loop (sm_pc st) = true /\ in_loop pc = true) as [Hl Hl'] by (destruct (sm_pc st), pc; done).
  set (st' := mkStream _ _ _ _ _).
  assert (holds st' = holds st) as Hh by (unfold holds; cbn; by rewrite Hl, Hl').
  assert (live_devices st' = live_devices st) as Hd by (unfold live_devices; cbn; by destruct (sm_pc st), pc).
  assert (stream_ok (authenticated sv) (owner_of sv) st') as Ho.
  { destruct Hok as [H1 H2 H3 H4 H5 H6]. split; cbn; [by destruct pc|by rewrite <- H2|done|by destruct pc| |done].
    intros Hx. apply H5. by rewrite <- Hh. }
  destruct Hg as [Hg|(g & -> & E1 & E2 & E3 & E4)]; [by apply keeps_same_gate|].
  cbn. unfold owner_of in *. cbn. rewrite E4. split; [|done]. by split.
Qed.

Lemma read_keeps : sm_pc st = Reading -> keeps (sv, read_step st i).
Proof.
  intros Hpc. unfold read_step, at_pc. destruct (in_request i); [case_bool_decide|..];
    apply keeps_inside; rewrite ?Hpc; try done; by left.
Qed.

Lemma verify_keeps : sm_pc st = Verifying -> keeps (verify_step sv st i).
Proof.
  intros Hpc. assert (opening (sm_pc st) = true) as Ho by (by rewrite Hpc). unfold verify_step, at_pc.
  destruct (sv_verifier sv) as [v|] eqn:Hv.
  - assert (authenticated sv = true) as Ha by (unfold authenticated; by rewrite Hv).
    destruct (extract_bearer_token _) as [token|e];
      [|apply keeps_opening; [done|done|done|apply (sk_plain _ _ _ Hok)]].
    destruct (verifier_verify v token (in_verifier i)) as [v' r].
    destruct r; (apply keeps_opening; [by eapply with_verifier_same|done|done|by rewrite Ha]).
  - apply keeps_opening; [done|done| |apply (sk_plain _ _ _ Hok)]. unfold authenticated. by rewrite Hv.
Qed.

Lemma register_keeps token scope : sm_pc st = Registering token scope -> keeps (register_step sv st token scope i).
Proof.
  intros Hpc. assert (opening (sm_pc st) = true) as Ho by (by rewrite Hpc).
  pose proof (sk_pending _ _ _ Hok) as Hs. rewrite Hpc in Hs. unfold register_step, at_pc.
  destruct scope as [s|s]; [destruct (session_register _ _ _ _) as [x r]|destruct (camera_register _ _ _ _) as [x r]];
    destruct r; (apply keeps_opening; [done|done|done|apply (sk_plain _ _ _ Hok)]).
Qed.

Lemma check_keeps p : sm_pc st = Checking p -> keeps (check_step sv st p i).
Proof.
  intros Hpc. unfold check_step, at_pc. destruct (sv_verifier sv) as [v|] eqn:Hv; [destruct (sm_scope st) as [s|] eqn:Hs|].
  - destruct (verifier_assert_active v s (in_verifier i)) as [v' [u|e]]; rewrite <- Hs;
      (apply keeps_inside; [left; by eapply with_verifier_same|by rewrite Hpc|done|done]).
  - rewrite <- Hs. apply keeps_inside; [by left|by rewrite Hpc|done|done].
  - apply keeps_inside; [by left|by rewrite Hpc|done|done].
Qed.

Lemma confirm_keeps p : sm_pc st = Confirming p -> keeps (confirm_step sv st p i).
Proof.
  intros Hpc. unfold confirm_step, at_pc. destruct (sm_scope st) as [[s|s]|] eqn:Hs; rewrite <- Hs;
    try (apply keeps_inside; [by left|by rewrite Hpc|done|done]).
  destruct (assert_current _ _ _) as [x [u|e]]; (apply keeps_inside; [by left|by rewrite Hpc|done|done]).
Qed.

Lemma number_keeps p : sm_pc st = Numbering p -> keeps (number_step sv st p i).
Proof.
  intros Hpc. unfold number_step, at_pc. cbn zeta. destruct (_next_server_receive_sequence (sv_gate sv)) as [g k] eqn:Eg.
  injection Eg as <- <-.
  assert (forall pc, inside pc = true ->
    match pc with Marking a | Timing a | Asking a | Ingesting a => accepted (sm_scope st) a | _ => True end ->
    keeps (with_gate sv ((sv_gate sv) <| gt_server_receive_sequence ::= Z.succ |>),
           mkStream pc (sm_received_count st) (sm_device_ids st) (sm_scope st) (sm_acquired st))) as Hk.
  { intros pc Hi Hp. apply keeps_inside; [right; by eexists|by rewrite Hpc|done|done]. }
  destruct (truthy (device_of_packet p)) eqn:Ht; cbn [negb]; [|by apply Hk].
  destruct (Z.leb_spec (fm_device_timestamp_ms (pk_metadata p)) 0); [by apply Hk|].
  destruct (scope_covers (sm_scope st) p (camera_of_packet p)) eqn:Hc; cbn [negb]; [|by apply Hk].
  apply Hk; [done|]. unfold accepted. cbn [ap_device_id ap_camera_id ap_packet]. split_and!; try done.
  intros E0. by rewrite E0 in Ht.
Qed.

Lemma time_keeps a : sm_pc st = Timing a -> keeps (time_step sv st a).
Proof.
  intros Hpc. pose proof (sk_packet _ _ _ Hok) as Hp. rewrite Hpc in Hp.
  apply keeps_inside; [right|by rewrite Hpc|done|done]. eexists. split; [done|].
  unfold _record_device_timestamp. by repeat case_match.
Qed.

Lemma ask_keeps a : sm_pc st = Asking a -> keeps (ask_step sv st a).
Proof.
  intros Hpc. pose proof (sk_packet _ _ _ Hok) as Hp. rewrite Hpc in Hp. unfold ask_step, at_pc.
  destruct (_allow_ingest _ _ _) as [g b] eqn:Eg.
  assert (gt_active_device_stream_counts g = gt_active_device_stream_counts (sv_gate sv) /\
     gt_active_device_ids g = gt_active_device_ids (sv_gate sv) /\
     gt_active_authorized_stream_count g = gt_active_authorized_stream_count (sv_gate sv) /\
     gt_collection_capture_session_id g = gt_collection_capture_session_id (sv_gate sv)) as Hg.
  { revert Eg. unfold _allow_ingest, _open_gate_locked. repeat case_match; by intros [= <- <-]. }
  destruct b; (apply keeps_inside; [right; by exists g|by rewrite Hpc|done|done]).
Qed.

Lemma ingest_keeps a : sm_pc st = Ingesting a -> keeps (ingest_step message_to_dict sv st a i).
Proof.
  intros Hpc. unfold ingest_step, at_pc. destruct (ingest_frame _ _ _) as [pipeline [answer|e]].
  - unfold sidecar_step. destruct (ir_frame answer ≫= fr_file_path) as [path|]; [destruct (truthy path)|];
      try (apply keeps_inside; [by left|by rewrite Hpc|done|done]).
    destruct (write_ingest_metadata_sidecar _ _ _ _ _) as [[? files] [u|e]];
      (apply keeps_inside; [by left|by rewrite Hpc|done|done]).
  - apply keeps_inside; [by left|by rewrite Hpc|done|done].
Qed.
End Step.

(** *** The statements that change what the gate counts *)

(** A statement of stream [n] keeps the invariant when the gate counts its
    stream as it is afterwards, and the other streams stay as they should. *)
Lemma counted_ok (sv : server) streams n st (sv' : server) st' : system_ok (sv, streams) -> streams !! n = Some st ->
  gt_active_authorized_stream_count (sv_gate sv') + Z.of_nat (one (holds st)) =
    gt_active_authorized_stream_count (sv_gate sv) + Z.of_nat (one (holds st')) ->
  ledger (fun d => (count (streams_device d) streams + one (streams_device d st') - one (streams_device d st))%nat) (sv_gate sv') ->
  (forall k x, streams !! k = Some x -> stream_ok (authenticated sv) (owner_of sv) x -> stream_ok (authenticated sv') (owner_of sv') x) ->
  stream_ok (authenticated sv') (owner_of sv') st' -> system_ok (sv', <[n := st']> streams).
Proof.
  intros [Hc Hl Hs] Hn Hheld Hledger Hothers Hok. cbn in *. split; cbn.
  - pose proof (count_update holds streams n st st' Hn). lia.
  - eapply ledger_ext; [|exact Hledger]. intros d. cbn. pose proof (count_update (streams_device d) streams n st st' Hn). lia.
  - intros k x Hk. destruct (decide (n = k)) as [<-|Hne].
    + rewrite lookup_insert_eq in Hk. by injection Hk as <-.
    + rewrite lookup_insert_ne in Hk by done. apply (Hothers k); [done|]. by apply (Hs k).
Qed.

Lemma ledger_kept (sv : server) g streams st st' : ledger (fun d => count (streams_device d) streams) (sv_gate sv) ->
  gt_active_device_stream_counts g = gt_active_device_stream_counts (sv_gate sv) ->
  gt_active_device_ids g = gt_active_device_ids (sv_gate sv) -> live_devices st' = live_devices st ->
  ledger (fun d => (count (streams_device d) streams + one (streams_device d st') - one (streams_device d st))%nat) g.
Proof.
  intros Hl E1 E2 El. eapply ledger_same; [exact E1|exact E2|]. eapply ledger_ext; [|exact Hl].
  intros d. cbn. unfold streams_device. rewrite El. lia.
Qed.

(** When no stream holds the collection, no device streams. *)
Lemma idle_devices (sv : server) streams d : system_ok (sv, streams) -> authenticated sv = true -> count holds streams = 0%nat ->
  count (streams_device d) streams = 0%nat.
Proof.
  intros [_ _ Hs] Ha Hz. cbn in *. destruct (decide (count (streams_device d) streams = 0%nat)) as [|Hne]; [done|exfalso].
  apply count_exists in Hne as (n & st & Hn & Hd).
  destruct (Hs n st Hn) as [Ho Hauth _ _ _ _]. pose proof (count_zero holds streams n st Hz Hn) as Hh.
  unfold holds in Hh. unfold streams_device, live_devices in Hd. rewrite Ha in Hauth. bools in Hd.
  destruct (sm_pc st) eqn:Epc; cbn in *; (try by rewrite Hauth in Hh by done); try (destruct (Ho eq_refl) as [Ee _]; rewrite Ee in Hd); set_solver.
Qed.

Lemma acquire_ok (sv : server) streams n st scope : system_ok (sv, streams) -> streams !! n = Some st -> sm_pc st = Acquiring scope ->
  let '(sv', st') := acquire_step sv st scope in system_ok (sv', <[n := st']> streams).
Proof.
  intros Hsys Hn Hpc. destruct (ok_streams _ Hsys n st Hn) as [Ho _ Hplain Hpend _ _]. cbn [fst] in *.
  rewrite Hpc in Ho, Hpend. destruct (Ho eq_refl) as [Hd Ha].
  assert (authenticated sv = true) as Hauth by (destruct (authenticated sv) eqn:Ea; [done|]; rewrite Hplain in Hpend by done; done).
  assert (holds st = false) as Hh by (unfold holds; by rewrite Ha).
  assert (live_devices st = ∅) as Hlive by (unfold live_devices; by rewrite Hpc).
  unfold acquire_step. destruct (_acquire_authorized_collection (sv_gate sv) (scope_session scope)) as [g acquired] eqn:Eg.
  destruct acquired.
  - set (st' := mkStream Reading _ _ _ _).
    assert (live_devices st' = live_devices st) as Hlive' by (rewrite Hlive; exact Hd).
    assert (gt_active_authorized_stream_count g = gt_active_authorized_stream_count (sv_gate sv) + 1 /\
            gt_collection_capture_session_id g = Some (scope_session scope) /\
            ((owner_of sv = None \/ owner_of sv = Some (scope_session scope)) /\
             gt_active_device_stream_counts g = gt_active_device_stream_counts (sv_gate sv) /\
             gt_active_device_ids g = gt_active_device_ids (sv_gate sv) \/
             gt_active_authorized_stream_count (sv_gate sv) <= 0 /\
             gt_active_device_stream_counts g = ∅ /\ gt_active_device_ids g = ∅)) as (E1 & E2 & E3).
    { revert Eg. unfold _acquire_authorized_collection, owner_of. cbv zeta.
      destruct (gt_collection_capture_session_id (sv_gate sv)) as [o|] eqn:Eo; [case_bool_decide; [subst o|destruct (Z.ltb_spec 0 (gt_active_authorized_stream_count (sv_gate sv)))]|];
        intros [= <-]; cbn; rewrite ?Eo; split_and!; try done; auto. }
    pose proof (ok_count _ Hsys) as Hc. cbn in Hc.
    eapply counted_ok; [exact Hsys|exact Hn|..].
    + rewrite Hh. cbn. lia.
    + destruct E3 as [(_ & E3 & E4)|(Hz & E3 & E4)]; [by eapply (ledger_kept sv); try exact (ok_ledger _ Hsys)|].
      eapply (ledger_ext (fun _ => 0%nat)).
      * intros d. rewrite (idle_devices sv streams d Hsys Hauth) by lia. unfold streams_device. rewrite Hlive', Hlive.
        by rewrite bool_decide_false by apply not_elem_of_empty.
      * intros d. cbn. rewrite E3, E4, lookup_empty. split; [done|]. set_solver.
    + intros k x Hk [X1 X2 X3 X4 X5 X6]. split; [done..| |done]. cbn. unfold owner_of. cbn. rewrite E2. intros Hx.
      destruct (X5 Hx) as (s & Hs & Hown). exists s. split; [done|].
      destruct E3 as [([E3|E3] & _)|(Hz & _)]; [congruence|congruence|].
      pose proof (count_positive holds streams k x Hk Hx). lia.
    + change (authenticated (with_gate sv g)) with (authenticated sv). rewrite Hauth. split; cbn; try done. intros _. exists scope. by split.
  - replace g with (sv_gate sv) in *
      by (revert Eg; unfold _acquire_authorized_collection; cbv zeta; repeat case_match; intros [=]; done).
    replace (with_gate sv (sv_gate sv)) with sv by (by destruct sv).
    eapply quiet_ok; [exact Hsys|exact Hn| |].
    + split; try done. unfold holds. cbn. by rewrite Ha.
    + split; cbn; try done. unfold holds. cbn. by rewrite Ha.
Qed.

Lemma mark_ok (sv : server) streams n st a : system_ok (sv, streams) -> streams !! n = Some st -> sm_pc st = Marking a ->
  let '(sv', st') := mark_step sv st a in system_ok (sv', <[n := st']> streams).
Proof.
  intros Hsys Hn Hpc. pose proof (ok_streams _ Hsys n st Hn) as Hok. cbn [fst] in Hok.
  pose proof (sk_packet _ _ _ Hok) as Hp. rewrite Hpc in Hp. unfold mark_step. case_bool_decide as Hin.
  - destruct (keeps_inside sv st Hok sv (Timing a) (sm_received_count st)) as [Hq Ho];
      [by left|by rewrite Hpc|done|done|]. by eapply quiet_ok.
  - set (st' := mkStream (Timing a) _ _ _ _).
    assert (holds st' = holds st) as Hh by (unfold holds; cbn; by rewrite Hpc).
    eapply counted_ok; [exact Hsys|exact Hn|by rewrite Hh| |by intros|].
    + cbn. eapply ledger_ext; [|apply ledger_mark; exact (ok_ledger _ Hsys)]. intros d. cbn.
      assert (streams_device d st' = bool_decide (d = ap_device_id a) || streams_device d st) as ->.
      { unfold streams_device, live_devices. cbn. rewrite Hpc. rewrite <- bool_decide_or. apply bool_decide_ext. set_solver. }
      pose proof (count_positive (streams_device d) streams n st Hn) as Hpos.
      destruct (decide (d = ap_device_id a)) as [->|Hne].
      * replace (streams_device (ap_device_id a) st) with false; [rewrite bool_decide_true by done; cbn; lia|].
        unfold streams_device, live_devices. rewrite Hpc. by rewrite bool_decide_false.
      * rewrite bool_decide_false by done. cbn. destruct (streams_device d st); cbn; lia.
    + destruct Hok as [H1 H2 H3 H4 H5 H6]. rewrite Hpc in *. split; cbn; try done. intros Hx. apply H5. by rewrite <- Hh.
Qed.

Lemma close_ok (sv : server) streams n st o (i : stream_input) : system_ok (sv, streams) -> streams !! n = Some st -> sm_pc st = Closing o ->
  let '(sv', st') := close_step sv st o i in system_ok (sv', <[n := st']> streams).
Proof.
  intros Hsys Hn Hpc. pose proof (ok_streams _ Hsys n st Hn) as Hok. cbn [fst] in Hok. unfold close_step.
  set (st' := at_pc _ st).
  assert (holds st' = holds st) as Hh by (unfold holds; cbn; rewrite Hpc; by destruct (sm_acquired st)).
  assert (live_devices st' = ∅) as Hlive' by (unfold live_devices; cbn; by destruct (sm_acquired st)).
  assert (live_devices st = sm_device_ids st) as Hlive by (unfold live_devices; by rewrite Hpc).
  set (g := _mark_stream_closed _ _ _).
  assert (gt_active_authorized_stream_count g = gt_active_authorized_stream_count (sv_gate sv) /\
          gt_collection_capture_session_id g = gt_collection_capture_session_id (sv_gate sv)) as [E1 E2].
  { unfold g, _mark_stream_closed. case_bool_decide; [done|].
    destruct (stop_if_missing_same (foldr (device_closed (in_clock_ms i)) (sv_gate sv) (elements (sm_device_ids st)))) as (_ & _ & -> & ->).
    apply devices_closed_same. }
  eapply counted_ok; [exact Hsys|exact Hn|by rewrite Hh; cbn; rewrite E1| | |].
  - cbn. unfold g, _mark_stream_closed. case_bool_decide as Hd.
    { eapply (ledger_kept sv); [exact (ok_ledger _ Hsys)|done|done|by rewrite Hlive', Hlive]. }
    edestruct stop_if_missing_same as (F1 & F2 & _). eapply ledger_same; [exact F1|exact F2|].
    eapply ledger_ext; [|apply ledger_closed; [apply NoDup_elements|exact (ok_ledger _ Hsys)|]].
    + intros d. cbn. unfold streams_device at 3 4. rewrite Hlive', Hlive, (bool_decide_false (d ∈ ∅)) by set_solver. cbn.
      rewrite Nat.add_0_r. f_equal. f_equal. apply bool_decide_ext. apply elem_of_elements.
    + intros d Hd'%elem_of_elements. cbn. pose proof (count_positive (streams_device d) streams n st Hn) as Hpos.
      assert (0 < count (streams_device d) streams)%nat; [|lia]. apply Hpos. unfold streams_device. rewrite Hlive. by apply bool_decide_eq_true_2.
  - intros k x Hk Hx. unfold owner_of in *. cbn. by rewrite E2.
  - unfold owner_of in *. cbn. rewrite E2. destruct Hok as [H1 H2 H3 H4 H5 H6]. rewrite Hpc in *.
    split; cbn; try done.
    + by destruct (sm_acquired st).
    + intros _. by apply H2.
    + by destruct (sm_acquired st).
    + intros Hx. apply H5. by rewrite <- Hh.
    + by destruct (sm_acquired st).
Qed.

Lemma release_ok (sv : server) streams n st o : system_ok (sv, streams) -> streams !! n = Some st -> sm_pc st = Releasing o ->
  let '(sv', st') := release_step sv st o in system_ok (sv', <[n := st']> streams).
Proof.
  intros Hsys Hn Hpc. pose proof (ok_streams _ Hsys n st Hn) as Hok. cbn [fst] in Hok. unfold release_step.
  set (st' := at_pc _ st).
  assert (holds st' = false) as Hh' by (unfold holds; cbn; by rewrite andb_false_r).
  assert (live_devices st' = live_devices st) as Hlive by (unfold live_devices; cbn; by rewrite Hpc).
  pose proof (ok_count _ Hsys) as Hc. cbn in Hc.
  assert (forall owner, stream_ok (authenticated sv) owner st') as Hok'.
  { intros owner. destruct Hok as [H1 H2 H3 H4 H5 H6]. split; cbn; try done; by rewrite ?Hh'. }
  destruct (holds st) eqn:Hh.
  - destruct (sk_held _ _ _ Hok Hh) as (scope & Hs & Hown). rewrite Hs. unfold owner_of in *.
    pose proof (count_positive holds streams n st Hn Hh).
    unfold _release_authorized_collection. rewrite bool_decide_true by done.
    eapply counted_ok; [exact Hsys|exact Hn| |by eapply (ledger_kept sv); try exact (ok_ledger _ Hsys)|by intros|by apply Hok'].
    rewrite Hh, Hh'. cbn. lia.
  - assert (sm_scope st = None) as ->.
    { apply (sk_plain _ _ _ Hok). rewrite <- (sk_auth _ _ _ Hok) by (by rewrite Hpc). unfold holds in Hh. rewrite Hpc in Hh.
      by rewrite andb_true_r in Hh. }
    eapply quiet_ok; [exact Hsys|exact Hn| |apply Hok']. split; try done. by rewrite Hh, Hh'.
Qed.

Lemma finished_ok (sv : server) streams n st o : system_ok (sv, streams) -> streams !! n = Some st -> sm_pc st = Finished o ->
  system_ok (sv, <[n := st]> streams).
Proof. intros Hsys Hn _. by rewrite insert_id. Qed.

(** *** The system *)

Lemma stream_step_ok (sv : server) streams n st (i : stream_input) sv' st' : system_ok (sv, streams) -> streams !! n = Some st ->
  stream_step message_to_dict sv st i = (sv', st') -> system_ok (sv', <[n := st']> streams).
Proof.
  intros Hsys Hn Es. pose proof (ok_streams _ Hsys n st Hn) as Hok. cbn [fst] in Hok.
  assert (quiet_step sv st (stream_step message_to_dict sv st i).1 (stream_step message_to_dict sv st i).2 /\
          stream_ok (authenticated (stream_step message_to_dict sv st i).1) (owner_of (stream_step message_to_dict sv st i).1)
            (stream_step message_to_dict sv st i).2 -> system_ok (sv', <[n := st']> streams)) as Hquiet.
  { rewrite Es. intros [Hq Ho]. by eapply quiet_ok. }
  unfold stream_step in *. destruct (sm_pc st) eqn:Hpc;
    eauto using verify_keeps, register_keeps, read_keeps, check_keeps, confirm_keeps, number_keeps, time_keeps, ask_keeps, ingest_keeps.
  - pose proof (acquire_ok sv streams n st scope Hsys Hn Hpc) as H'. by rewrite Es in H'.
  - pose proof (mark_ok sv streams n st a Hsys Hn Hpc) as H'. by rewrite Es in H'.
  - pose proof (close_ok sv streams n st o i Hsys Hn Hpc) as H'. by rewrite Es in H'.
  - pose proof (release_ok sv streams n st o Hsys Hn Hpc) as H'. by rewrite Es in H'.
  - injection Es as <- <-. by eapply finished_ok.
Qed.

Lemma system_step_ok (sys sys' : server * gmap nat stream) new : system_ok sys -> system_step message_to_dict sys new sys' -> system_ok sys'.
Proof.
  intros Hsys Hstep. destruct Hstep as [sv streams n Hn|sv streams n st i sv' st' Hn Es|sv streams v sessions cameras pipeline Hv].
  - destruct Hsys as [Hc Hl Hs]. cbn in *. split; cbn.
    + rewrite count_new by done. exact Hc.
    + eapply ledger_ext; [|exact Hl]. intros d. cbn. rewrite count_new by done. unfold streams_device, live_devices. cbn.
      by rewrite bool_decide_false by set_solver.
    + intros k x Hk. destruct (decide (n = k)) as [<-|Hne].
      * rewrite lookup_insert_eq in Hk. injection Hk as <-. by split.
      * rewrite lookup_insert_ne in Hk by done. by apply (Hs k).
  - by eapply stream_step_ok.
  - destruct Hsys as [Hc Hl Hs]. cbn in *. split; cbn; try done.
    intros n st Hn. replace (authenticated _) with (authenticated sv); [by apply (Hs n)|].
    unfold authenticated. cbn. by apply bool_decide_ext.
Qed.

Lemma configured_ok bind enabled n ids (v : option V) sessions cameras pipeline :
  system_ok (mkServer (configure bind enabled n ids) v sessions cameras pipeline, ∅).
Proof. split; cbn; [by rewrite count_empty| |done]. intros d. by rewrite count_empty. Qed.

Lemma reached_ok ticks sys : reached message_to_dict ticks sys -> system_ok sys.
Proof. induction 1; [apply configured_ok|by eapply system_step_ok]. Qed.

(** *** What a stream went through *)

Definition packet_at (pc : stream_pc) : option FramePacket :=
  match pc with
  | Confirming p | Numbering p => Some p
  | Marking a | Timing a | Asking a | Ingesting a => Some (ap_packet a)
  | _ => None
  end.

(** Stream [n] had packet [p] checked: the verifier said its scope is active,
    and, once past [Confirming], the store that its camera credential is the
    current one. *)
Definition found_active (ticks : list stream_tick) (n : nat) (scope : ingest_scope) (p : FramePacket) : Prop :=
  exists t v, t ∈ ticks /\ tk_stream t = n /\ sm_pc (tk_state t) = Checking p /\ sv_verifier (tk_server t) = Some v /\
    (verifier_assert_active v scope (in_verifier (tk_input t))).2 = Ok tt.

Definition found_current (ticks : list stream_tick) (n : nat) (scope : ingest_scope) (p : FramePacket) : Prop :=
  match scope with
  | SessionScope _ => True
  | CameraScope s => exists t, t ∈ ticks /\ tk_stream t = n /\ sm_pc (tk_state t) = Confirming p /\
      (assert_current (sv_cameras (tk_server t)) s (in_now_s (tk_input t))).2 = Ok tt
  end.

Definition examined (ticks : list stream_tick) (n : nat) (st : stream) : Prop :=
  forall scope p, sm_scope st = Some scope -> packet_at (sm_pc st) = Some p ->
    found_active ticks n scope p /\ match sm_pc st with Confirming _ => True | _ => found_current ticks n scope p end.

Lemma found_more ticks new n scope p : found_active ticks n scope p /\ found_current ticks n scope p ->
  found_active (ticks ++ new) n scope p /\ found_current (ticks ++ new) n scope p.
Proof.
  intros [(t & v & Ht & Hr) Hc]. split; [exists t, v; split; [by apply elem_of_app; left|done]|].
  destruct scope; [done|]. destruct Hc as (t' & Ht' & Hr'). exists t'. split; [by apply elem_of_app; left|done].
Qed.

Lemma found_active_more ticks new n scope p : found_active ticks n scope p -> found_active (ticks ++ new) n scope p.
Proof. intros (t & v & Ht & Hr). exists t, v. split; [by apply elem_of_app; left|done]. Qed.

Lemma examined_more ticks new n st : examined ticks n st -> examined (ticks ++ new) n st.
Proof.
  intros H' scope p Hs Hp. specialize (H' scope p Hs Hp) as [Ha Hc]. split; [by apply found_active_more|].
  destruct (sm_pc st); try done; by apply found_more.
Qed.

(** A statement that reads no packet hands on the one it has. *)
Lemma examined_step ticks n sv st (i : stream_input) : stream_ok (authenticated sv) (owner_of sv) st -> examined ticks n st ->
  examined (ticks ++ [mkTick n sv st i]) n (stream_step message_to_dict sv st i).2.
Proof.
  intros Hok Hx. pose proof (examined_more ticks [mkTick n sv st i] n st Hx) as Hx'. intros scope p Hs Hp.
  assert (mkTick n sv st i ∈ ticks ++ [mkTick n sv st i]) as Hin by (apply elem_of_app; right; by apply list_elem_of_singleton).
  assert (sm_scope st = Some scope -> is_Some (sv_verifier sv)) as Hauth.
  { intros E0. destruct (sv_verifier sv) eqn:Ev; [done|]. rewrite (sk_plain _ _ _ Hok) in E0; [done|].
    unfold authenticated. by rewrite Ev. }
  unfold stream_step in *. destruct (sm_pc st) eqn:Hpc; cbn [snd] in *.
  - unfold verify_step in *. repeat case_match; done.
  - unfold register_step in *. repeat case_match; done.
  - unfold acquire_step in *. repeat case_match; done.
  - unfold read_step in *. destruct (in_request i); try done. case_bool_decide as Hn; [|done]. cbn in Hs. by rewrite Hn in Hs.
  - unfold check_step in *. destruct (sv_verifier sv) as [v|] eqn:Ev; [|cbn in Hs; by destruct (Hauth Hs)].
    destruct (sm_scope st) as [s|] eqn:Es; [|cbn in Hs; by rewrite Es in Hs].
    destruct (verifier_assert_active v s (in_verifier i)) as [v' [[]|e]] eqn:Ea; cbn in Hs, Hp; [|done].
    simplify_eq. cbn. split; [|done].
    exists (mkTick n sv st i), v. cbn. by rewrite Ea.
  - unfold confirm_step in *. destruct (sm_scope st) as [[s|s]|] eqn:Es; [| |cbn in Hs; by rewrite Es in Hs].
    + cbn in Hs, Hp. rewrite Es in Hs. simplify_eq. cbn. split; [|done]. eapply Hx'; [done|by rewrite Hpc].
    + destruct (assert_current (sv_cameras sv) s (in_now_s i)) as [cameras [[]|e]] eqn:Ea; cbn in Hs, Hp; [|done].
      rewrite Es in Hs. simplify_eq. cbn. split; [eapply Hx'; [done|by rewrite Hpc]|].
      exists (mkTick n sv st i). cbn. by rewrite Ea.
  - unfold number_step in *. destruct (_next_server_receive_sequence (sv_gate sv)) as [g k].
    assert (found_active (ticks ++ [mkTick n sv st i]) n scope p0 /\ found_current (ticks ++ [mkTick n sv st i]) n scope p0) as Hf.
    { specialize (Hx' scope p0). rewrite Hpc in Hx'. apply Hx'; [|done]. revert Hs. cbv zeta. by repeat case_match. }
    revert Hp. cbn [snd]. destruct (negb _); [done|]. destruct (_ <=? 0); [done|]. destruct (negb _); [done|]. by intros [= <-].
  - unfold mark_step in *. specialize (Hx' scope p). rewrite Hpc in Hx'. destruct (bool_decide (ap_device_id a ∈ sm_device_ids st)); by apply Hx'.
  - specialize (Hx' scope p). rewrite Hpc in Hx'. by apply Hx'.
  - unfold ask_step in *. specialize (Hx' scope p). rewrite Hpc in Hx'. destruct (_allow_ingest _ _ _) as [g []]; [by apply Hx'|done].
  - unfold ingest_step in *. repeat case_match; done.
  - cbn in *. by destruct (sm_acquired st).
  - done.
  - cbn in Hp. by rewrite Hpc in Hp.
Qed.

Lemma reached_examined ticks sys : reached message_to_dict ticks sys -> forall n st, sys.2 !! n = Some st -> examined ticks n st.
Proof.
  induction 1 as [|ticks sys new sys' Hreach IH Hstep]; [done|]. pose proof (reached_ok _ _ Hreach) as Hsys.
  destruct Hstep as [sv streams k Hk|sv streams k st i sv' st' Hk Es|]; intros n x Hn; cbn in *.
  - rewrite app_nil_r. destruct (decide (k = n)) as [<-|Hne].
    + rewrite lookup_insert_eq in Hn. injection Hn as <-. by intros ? ? ?.
    + rewrite lookup_insert_ne in Hn by done. by apply IH.
  - destruct (decide (k = n)) as [<-|Hne].
    + rewrite lookup_insert_eq in Hn. injection Hn as <-. replace st' with (stream_step message_to_dict sv st i).2 by (by rewrite Es).
      apply examined_step; [by apply (ok_streams _ Hsys k st)|by apply IH].
    + rewrite lookup_insert_ne in Hn by done. apply examined_more. by apply IH.
  - rewrite app_nil_r. by apply IH.
Qed.

(** Only the call of [ingest_frame] touches the pipeline. *)
Lemma pipeline_kept sv st (i : stream_input) : sv_pipeline (stream_step message_to_dict sv st i).1 <> sv_pipeline sv ->
  exists a, sm_pc st = Ingesting a.
Proof.
  unfold stream_step, verify_step, register_step, acquire_step, check_step, confirm_step, number_step, mark_step, time_step,
    ask_step, close_step, release_step. intros H'. destruct (sm_pc st); [..|by eexists| | |];
    exfalso; apply H'; repeat case_match; done.
Qed.
End Streams.

(** C25: One capture session at a time. However the streams interleave, the
    gate's count of authorized streams is the number of streams between
    their acquisition and their release; they were all verified for the
    capture session that owns the collection; and the gate knows exactly the
    devices that stream, with as many streams as each has open. *)
Theorem one_capture_session `{Hashing} {V E : Type} `{!IngestVerifier V E} message_to_dict ticks
    (sys : system (V := V)) :
  reached message_to_dict ticks sys -> let g := sv_gate sys.1 in
  gt_active_authorized_stream_count g = Z.of_nat (count holds sys.2) /\
  (forall n st, sys.2 !! n = Some st -> holds st = true ->
     exists scope, sm_scope st = Some scope /\ gt_collection_capture_session_id g = Some (scope_session scope)) /\
  forall d, default 0 (gt_active_device_stream_counts g !! d) = Z.of_nat (count (streams_device d) sys.2) /\
    (d ∈ gt_active_device_ids g <-> exists n st, sys.2 !! n = Some st /\ d ∈ live_devices st).
Proof.
  intros Hr%reached_ok g. destruct Hr as [Hc Hl Hs]. split; [exact Hc|]. split.
  - intros n st Hn Hh. by destruct (sk_held _ _ _ (Hs n st Hn) Hh) as (scope & ? & ?); exists scope.
  - intros d. destruct (Hl d) as [Hcount Hactive]. unfold g. rewrite Hcount, Hactive. split.
    + destruct (decide (count (streams_device d) sys.2 = 0%nat)) as [Ez|Ez];
        [by rewrite Ez, bool_decide_true|by rewrite bool_decide_false].
    + rewrite count_exists. unfold streams_device. by setoid_rewrite bool_decide_eq_true.
Qed.

(** C26: What reaches the pipeline. With a verifier, a stream's statement
    changes the pipeline only by the ingestion of a packet with a device and
    a positive timestamp whose declared scope is the one the stream was
    verified for, while the capture session of that scope owns the
    collection; and on its way the packet was checked: the verifier called
    the scope active when it had not expired, and the store the camera's
    credential its current one. *)
Theorem only_authorized_frames `{Hashing} {V E : Type} `{!IngestVerifier V E} message_to_dict ticks (sv : server (V := V))
    streams n st (i : stream_input (E := E)) :
  reached message_to_dict ticks (sv, streams) -> authenticated sv = true -> streams !! n = Some st ->
  sv_pipeline (stream_step message_to_dict sv st i).1 <> sv_pipeline sv ->
  exists a scope declared, let p := ap_packet a in
    sm_pc st = Ingesting a /\ ic_authorization_scope (ingest_call message_to_dict st a) = Some scope /\
    gt_collection_capture_session_id (sv_gate sv) = Some (scope_session scope) /\
    ic_device_id (ingest_call message_to_dict st a) = device_of_packet p /\ device_of_packet p <> "" /\
    0 < fm_device_timestamp_ms (pk_metadata p) /\
    pk_session_scope p = Some declared /\
    matches_declared_scope scope declared (camera_of_packet p)
      (if truthy (fm_device_id (pk_metadata p)) then Some (fm_device_id (pk_metadata p)) else None) = true /\
    (exists t v, t ∈ ticks /\ tk_stream t = n /\ sm_pc (tk_state t) = Checking p /\ sv_verifier (tk_server t) = Some v /\
       (verifier_assert_active v scope (in_verifier (tk_input t))).2 = Ok tt /\
       verifier_now (in_verifier (tk_input t)) < scope_expires_at scope) /\
    found_current ticks n scope p.
Proof.
  intros Hr Ha Hn [a Hpc]%pipeline_kept. pose proof (reached_ok _ _ _ Hr) as Hsys.
  pose proof (ok_streams _ Hsys n st Hn) as Hok. cbn [fst] in Hok. rewrite Ha in Hok.
  assert (holds st = true) as Hh.
  { unfold holds. by rewrite (sk_auth _ _ _ Hok), Hpc by (by rewrite Hpc). }
  destruct (sk_held _ _ _ Hok Hh) as (scope & Hs & Hown).
  pose proof (sk_packet _ _ _ Hok) as Hp. rewrite Hpc in Hp. destruct Hp as (Ed & Ec & Hd & Ht & Hcov).
  unfold scope_covers in Hcov. rewrite Hs in Hcov. destruct (pk_session_scope (ap_packet a)) as [declared|] eqn:Edecl; [|done].
  destruct (reached_examined _ _ _ Hr n st Hn scope (ap_packet a)) as [Hact Hcur]; [done|by rewrite Hpc|].
  rewrite Hpc in Hcur. exists a, scope, declared. cbn zeta. rewrite <- Ed, <- Ec.
  split_and!; try done. destruct Hact as (t & v & Ht' & Htn & Htp & Htv & Hact). exists t, v.
  split_and!; try done. destruct (verifier_assert_active v scope (in_verifier (tk_input t))) as [v' r] eqn:E0. cbn in Hact. subst r.
  by eapply verifier_unexpired.
Qed.

(** ** Witnesses

    One camera: its stream is opened, its credential verified and registered,
    and one packet goes through all the statements up to [ingest_frame]. *)

Section Run.
Context `{Hashing} {V E : Type} `{!IngestVerifier V E} (message_to_dict : FrameMetadata -> list (string * json)).

(** [k] statements of one stream, that all meet [i]. *)
Fixpoint run (k : nat) (i : stream_input (E := E)) (sv : server (V := V)) (st : stream) : server * stream :=
  match k with O => (sv, st) | S k => let '(sv, st) := stream_step message_to_dict sv st i in run k i sv st end.

Lemma run_reached k i ticks sv streams n st : reached message_to_dict ticks (sv, streams) -> streams !! n = Some st ->
  exists ticks', reached message_to_dict ticks' ((run k i sv st).1, <[n := (run k i sv st).2]> streams).
Proof.
  revert ticks sv streams st. induction k as [|k IH]; intros ticks sv streams st Hr Hn; cbn.
  - exists ticks. by rewrite insert_id.
  - destruct (stream_step message_to_dict sv st i) as [sv' st'] eqn:Es.
    destruct (IH (ticks ++ [mkTick n sv st i]) sv' (<[n := st']> streams) st') as [ticks' H'].
    + eapply reach_step; [exact Hr|]. by constructor.
    + by rewrite lookup_insert_eq.
    + exists ticks'. by rewrite insert_insert_eq in H'.
Qed.

(** The only stream of a system that has just been configured. *)
Lemma first_stream_reached k i bind enabled m ids v sessions cameras pipeline :
  let r := run k i (mkServer (configure bind enabled m ids) v sessions cameras pipeline) new_stream in
  exists ticks, reached message_to_dict ticks (r.1, {[ 0%nat := r.2 ]}).
Proof.
  intros r. subst r. set (sv := mkServer _ _ _ _ _).
  destruct (run_reached k i ([] ++ []) sv (<[0%nat := new_stream]> ∅) 0 new_stream) as [ticks Ht].
  - eapply reach_step; [apply reach_start|]. by constructor.
  - by rewrite lookup_insert_eq.
  - exists ticks. by rewrite insert_insert_eq in Ht.
Qed.
End Run.

Definition demo_metadata : FrameMetadata :=
  mkFrameMetadata demo_uuid "cam-1" 1 100 7 640 480 "JPEG" 30 "auto" false false false false 0 0 false "" "" false "" "" false ""
    "" "" "" "" false "" 0 None 0 None None (Some "s").

Definition demo_packet : FramePacket :=
  mkFramePacket demo_metadata "pixels" (Some (mkDeclaredScope demo_uuid demo_uuid demo_uuid demo_uuid
    "0123456789abcdef0123456789abcdef0123456789abcdef0123456789abcdef")).

Definition demo_input (r : request) : stream_input (E := environment) :=
  mkStreamInput (Some [("authorization", "Bearer token")]) (demo_environment 150) 150 r 1000 7
    (demo_env (durable_write_bytes no_faults "u") None) 1010 8 (mkSidecarFaults None None).

Definition demo_dict (m : FrameMetadata) : list (string * json) :=
  [("camera_id", JStr (fm_camera_id m)); ("device_id", JStr (fm_device_id m))].

Definition demo_server : server (V := versioned_verifier * caches (H := demo_jwt)) :=
  mkServer (configure "127.0.0.1:50052" true None []) (Some (demo_verifier, demo_caches)) ∅ ∅ (demo_state demo_new_sys).

Definition demo_run (k : nat) := run (H := transparent_hashing) demo_dict k (demo_input (NextPacket demo_packet)) demo_server new_stream.

Definition tag (pc : stream_pc) : nat :=
  match pc with
  | Verifying => 0 | Registering _ _ => 1 | Acquiring _ => 2 | Reading => 3 | Checking _ => 4 | Confirming _ => 5
  | Numbering _ => 6 | Marking _ => 7 | Timing _ => 8 | Asking _ => 9 | Ingesting _ => 10 | Closing _ => 11
  | Releasing _ => 12 | Finished _ => 13
  end.

Example demo_run_pcs : (fun k => tag (sm_pc (demo_run k).2)) <$> seq 0 12 = [0; 1; 2; 3; 4; 5; 6; 7; 8; 9; 10; 3]%nat.
Proof. vm_compute. reflexivity. Qed.

Lemma demo_reached k : exists ticks,
  reached (H := transparent_hashing) demo_dict ticks ((demo_run k).1, {[ 0%nat := (demo_run k).2 ]}).
Proof. apply first_stream_reached. Qed.

Lemma one_capture_session_witness :
  gt_active_authorized_stream_count (sv_gate (demo_run 10).1) = 1 /\
  Z.of_nat (count holds {[ 0%nat := (demo_run 10).2 ]}) = 1 /\ "cam-1" ∈ gt_active_device_ids (sv_gate (demo_run 10).1) /\
  exists st, ({[ 0%nat := (demo_run 10).2 ]} : gmap nat stream) !! 0%nat = Some st /\ "cam-1" ∈ live_devices st.
Proof.
  destruct (demo_reached 10) as [ticks Hr].
  assert (gt_active_authorized_stream_count (sv_gate (demo_run 10).1) = 1) as E1 by (vm_compute; reflexivity).
  assert ("cam-1" ∈ gt_active_device_ids (sv_gate (demo_run 10).1)) as E2 by (apply (bool_decide_unpack _); vm_compute; exact I).
  revert Hr E1 E2. generalize (demo_run 10). intros [sv st] Hr E1 E2. cbn [fst snd] in *.
  destruct (one_capture_session (H := transparent_hashing) demo_dict ticks (sv, {[ 0%nat := st ]}) Hr) as (Hc & _ & Hd).
  cbn [fst snd] in Hc, Hd. rewrite <- Hc. split; [exact E1|]. split; [exact E1|]. split; [exact E2|].
  destruct (proj1 (proj2 (Hd "cam-1")) E2) as (n & st' & Hn & Hl). exists st'. split; [|exact Hl].
  apply lookup_singleton_Some in Hn as [_ <-]. apply lookup_singleton_eq.
Defined.

(** The packet's statement, and the check it passed. *)
Lemma only_authorized_frames_witness :
  exists a scope, sm_pc (demo_run 10).2 = Ingesting a /\
    gt_collection_capture_session_id (sv_gate (demo_run 10).1) = Some (scope_session scope) /\
    exists t : stream_tick (V := versioned_verifier * caches (H := demo_jwt)) (E := environment),
      sm_pc (tk_state t) = Checking (ap_packet a) /\ en_now_s (in_verifier (tk_input t)) < scope_expires_at scope.
Proof.
  destruct (demo_reached 10) as [ticks Hr].
  assert (authenticated (demo_run 10).1 = true) as E1 by (vm_compute; reflexivity).
  assert (sv_pipeline (stream_step (H := transparent_hashing) demo_dict (demo_run 10).1 (demo_run 10).2 (demo_input (NextPacket demo_packet))).1
          <> sv_pipeline (demo_run 10).1) as E2.
  { intros E. apply (f_equal (fun p => length (ig_streams p))) in E. vm_compute in E. discriminate E. }
  revert Hr E1 E2. generalize (demo_run 10). intros [sv st] Hr E1 E2. cbn [fst snd] in *.
  destruct (only_authorized_frames (H := transparent_hashing) demo_dict ticks sv {[ 0%nat := st ]} 0 st _ Hr E1
    (lookup_singleton_eq _ _) E2) as (a & scope & declared & Hpc & _ & Hown & _ & _ & _ & _ & _ & Hact & _).
  exists a, scope. split; [exact Hpc|]. split; [exact Hown|]. destruct Hact as (t & v & _ & _ & Ht & _ & _ & Hexp).
  exists t. split; [exact Ht|exact Hexp].
Defined.
