(* ===== verification/RelayProtocol.v ===== *)
(** * The protocol of the live relay

    src/app/services/relay_v2/protocol.py and the size limits of
    src/app/infrastructure/grpc/relay_v2_contract.py: the messages a client
    builds from a claimed frame-set and what it accepts from the processor.
    Monotonic readings are in milliseconds. [SerializeToString] and the disk
    are parameters. *)

From Stdlib Require Import Ascii.
From S2P Require Import Prelude Json Digest Identity SyncModels FrameBuffer Matcher Config LatestLive.

(** [PayloadLimitExceeded] carries the size and the limit; [OSError] is a
    failed read; [OtherException] an exception of another class, by name. *)
Inductive protocol_error :=
| CreditRejected (message : string)
| FrameSetExpired (message : string)
| ArchiveIntegrityError (message : string)
| PayloadLimitExceeded (size limit : Z)
| ArchiveReadError (text : string)
| OtherException (name : string).

(** The settings of the producer; [CreditRejected] and the like are the errors below. *)
Record ProtocolConfig := mkProtocolConfig {
  pc_producer_session_id : string;
  pc_processing_profile_digest : option string;
  pc_producer_freshness_budget_ms : Z;
  pc_maximum_clock_uncertainty_ms : Z;
  pc_protocol_version : Z;
  pc_schema_version : Z;
  pc_clock_source : string;
}.

#[export] Instance ProtocolConfig_settable : Settable ProtocolConfig := fun x => mkProtocolConfig
  (pc_producer_session_id x) (pc_processing_profile_digest x)
  (pc_producer_freshness_budget_ms x) (pc_maximum_clock_uncertainty_ms x)
  (pc_protocol_version x) (pc_schema_version x) (pc_clock_source x).

#[export] Instance ProtocolConfig_eq_dec : EqDecision ProtocolConfig.
Proof. solve_decision. Defined.


Record NegotiatedSession := mkNegotiatedSession {
  ng_processing_job_id : string;
  ng_processor_instance_id : string;
  ng_stream_epoch : string;
  ng_maximum_payload_bytes : Z;
  ng_processing_profile_digest : string;
}.

#[export] Instance NegotiatedSession_settable : Settable NegotiatedSession := fun x => mkNegotiatedSession
  (ng_processing_job_id x) (ng_processor_instance_id x) (ng_stream_epoch x)
  (ng_maximum_payload_bytes x) (ng_processing_profile_digest x).

#[export] Instance NegotiatedSession_eq_dec : EqDecision NegotiatedSession.
Proof. solve_decision. Defined.


(** ** The messages of src/proto/live_frame_relay_v2.proto that the code builds or reads *)

Record CreditScope := mkCreditScope {
  cs_processor_instance_id : string;
  cs_stream_epoch : string;
  cs_credit_id : string;
}.

#[export] Instance CreditScope_settable : Settable CreditScope := fun x => mkCreditScope
  (cs_processor_instance_id x) (cs_stream_epoch x) (cs_credit_id x).

#[export] Instance CreditScope_eq_dec : EqDecision CreditScope.
Proof. solve_decision. Defined.


Record HelloAccepted := mkHelloAccepted {
  ha_protocol_version : Z;
  ha_schema_version : Z;
  ha_processing_job_id : string;
  ha_processor_instance_id : string;
  ha_stream_epoch : string;
  ha_maximum_payload_bytes : Z;
  ha_processing_profile_digest : string;
  ha_reconciliation_required : bool;
  ha_reconciliation_resume_token : string;
}.

#[export] Instance HelloAccepted_settable : Settable HelloAccepted := fun x => mkHelloAccepted
  (ha_protocol_version x) (ha_schema_version x) (ha_processing_job_id x)
  (ha_processor_instance_id x) (ha_stream_epoch x) (ha_maximum_payload_bytes x)
  (ha_processing_profile_digest x) (ha_reconciliation_required x)
  (ha_reconciliation_resume_token x).

#[export] Instance HelloAccepted_eq_dec : EqDecision HelloAccepted.
Proof. solve_decision. Defined.


Record HelloRejected := mkHelloRejected {
  hr_reason : Z;
  hr_detail_code : string;
  hr_retryable : bool;
}.

#[export] Instance HelloRejected_settable : Settable HelloRejected := fun x => mkHelloRejected
  (hr_reason x) (hr_detail_code x) (hr_retryable x).

#[export] Instance HelloRejected_eq_dec : EqDecision HelloRejected.
Proof. solve_decision. Defined.


Record ProcessorCredit := mkProcessorCredit {
  cr_scope : CreditScope;
  cr_credit_lease_duration_ms : Z;
  cr_earliest_acceptable_freshness_origin_utc_ms : Z;
  cr_ingress_reserve_ms : Z;
  cr_maximum_payload_bytes : Z;
  cr_schema_version : Z;
  cr_maximum_frame_age_ms : Z;
}.

#[export] Instance ProcessorCredit_settable : Settable ProcessorCredit := fun x => mkProcessorCredit
  (cr_scope x) (cr_credit_lease_duration_ms x)
  (cr_earliest_acceptable_freshness_origin_utc_ms x) (cr_ingress_reserve_ms x)
  (cr_maximum_payload_bytes x) (cr_schema_version x) (cr_maximum_frame_age_ms x).

#[export] Instance ProcessorCredit_eq_dec : EqDecision ProcessorCredit.
Proof. solve_decision. Defined.


Record FrameStatusEvent := mkFrameStatusEvent {
  se_key : FrameSetKey;
  se_state : Z;
  se_reason : Z;
}.

#[export] Instance FrameStatusEvent_settable : Settable FrameStatusEvent := fun x => mkFrameStatusEvent
  (se_key x) (se_state x) (se_reason x).

#[export] Instance FrameStatusEvent_eq_dec : EqDecision FrameStatusEvent.
Proof. solve_decision. Defined.


Record ReconciliationResponse := mkReconciliationResponse {
  rr_canonical_statuses : list FrameStatusEvent;
  rr_complete : bool;
}.

#[export] Instance ReconciliationResponse_settable : Settable ReconciliationResponse := fun x => mkReconciliationResponse
  (rr_canonical_statuses x) (rr_complete x).

#[export] Instance ReconciliationResponse_eq_dec : EqDecision ReconciliationResponse.
Proof. solve_decision. Defined.


(** [ProcessorEnvelope], by [WhichOneof("body")]. *)
Inductive ProcessorEnvelope :=
| EnvHelloAccepted (m : HelloAccepted)
| EnvHelloRejected (m : HelloRejected)
| EnvCredit (m : ProcessorCredit)
| EnvStatus (m : FrameStatusEvent)
| EnvReconciliation (m : ReconciliationResponse)
| EnvEmpty.

Record CaptureConfigSnapshot := mkCaptureConfigSnapshot {
  cc_camera_stream_id : string;
  cc_capture_config_digest : string;
  cc_width : Z;
  cc_height : Z;
  cc_orientation_deg : Z;
  cc_mirrored : bool;
  cc_encoding : string;
  cc_color_space : string;
  cc_authorized_camera_id : string;
}.

#[export] Instance CaptureConfigSnapshot_settable : Settable CaptureConfigSnapshot := fun x => mkCaptureConfigSnapshot
  (cc_camera_stream_id x) (cc_capture_config_digest x) (cc_width x) (cc_height x)
  (cc_orientation_deg x) (cc_mirrored x) (cc_encoding x) (cc_color_space x)
  (cc_authorized_camera_id x).

#[export] Instance CaptureConfigSnapshot_eq_dec : EqDecision CaptureConfigSnapshot.
Proof. solve_decision. Defined.


(** [mode] is [LIVE] and the state of the clock [READY]. *)
Record ProducerHello := mkProducerHello {
  ph_protocol_version : Z;
  ph_schema_version : Z;
  ph_producer_session_id : string;
  ph_capture_session_id : string;
  ph_capture_run_id : string;
  ph_proposed_processing_job_id : option string;
  ph_processing_profile_digest : string;
  ph_expected_camera_stream_ids : list string;
  ph_capture_configs : list CaptureConfigSnapshot;
  ph_maximum_uncertainty_ms : Z;
  ph_measured_utc_ms : Z;
  ph_clock_source : string;
  ph_last_offered_watermark : option FrameSetKey;
  ph_unresolved_frame_sets : list FrameSetKey;
  ph_tenant_id : string;
  ph_site_id : string;
  ph_authorized_subject : string;
  ph_session_token_jti : string;
}.

#[export] Instance ProducerHello_settable : Settable ProducerHello := fun x => mkProducerHello
  (ph_protocol_version x) (ph_schema_version x) (ph_producer_session_id x)
  (ph_capture_session_id x) (ph_capture_run_id x) (ph_proposed_processing_job_id x)
  (ph_processing_profile_digest x) (ph_expected_camera_stream_ids x) (ph_capture_configs x)
  (ph_maximum_uncertainty_ms x) (ph_measured_utc_ms x) (ph_clock_source x)
  (ph_last_offered_watermark x) (ph_unresolved_frame_sets x) (ph_tenant_id x) (ph_site_id x)
  (ph_authorized_subject x) (ph_session_token_jti x).

#[export] Instance ProducerHello_eq_dec : EqDecision ProducerHello.
Proof. solve_decision. Defined.


(** Both capture timestamps are the member's; the clock correction has the offset and drift 0. *)
Record FramePayload := mkFramePayload {
  fp_source_frame_uid : string;
  fp_source_session_id : string;
  fp_camera_stream_id : string;
  fp_frame_sequence : Z;
  fp_capture_timestamp_ms : Z;
  fp_uncertainty_ms : Z;
  fp_measured_utc_ms : Z;
  fp_stream_received_utc_ms : Z;
  fp_width : Z;
  fp_height : Z;
  fp_orientation_deg : Z;
  fp_mirrored : bool;
  fp_encoding : string;
  fp_color_space : string;
  fp_capture_config_digest : string;
  fp_content_size_bytes : Z;
  fp_content_digest : string;
  fp_image_bytes : string;
}.

#[export] Instance FramePayload_settable : Settable FramePayload := fun x => mkFramePayload
  (fp_source_frame_uid x) (fp_source_session_id x) (fp_camera_stream_id x) (fp_frame_sequence x)
  (fp_capture_timestamp_ms x) (fp_uncertainty_ms x) (fp_measured_utc_ms x)
  (fp_stream_received_utc_ms x) (fp_width x) (fp_height x) (fp_orientation_deg x)
  (fp_mirrored x) (fp_encoding x) (fp_color_space x) (fp_capture_config_digest x)
  (fp_content_size_bytes x) (fp_content_digest x) (fp_image_bytes x).

#[export] Instance FramePayload_eq_dec : EqDecision FramePayload.
Proof. solve_decision. Defined.


(** [mode] is [LIVE], the alert deadline the effective one, the reserved delivery bound 0. *)
Record CreditedFrameSet := mkCreditedFrameSet {
  cf_credit_scope : CreditScope;
  cf_processing_job_id : string;
  cf_producer_session_id : string;
  cf_capture_session_id : string;
  cf_key : FrameSetKey;
  cf_manifest_digest : string;
  cf_content_digest : string;
  cf_ordering_anchor_utc_ms : Z;
  cf_freshness_origin_utc_ms : Z;
  cf_synchronized_utc_ms : Z;
  cf_offered_utc_ms : Z;
  cf_producer_freshness_budget_ms : Z;
  cf_effective_deadline_utc_ms : Z;
  cf_synchronization_span_ms : Z;
  cf_clock_uncertainty_ms : Z;
  cf_capture_configs : list CaptureConfigSnapshot;
  cf_frames : list FramePayload;
  cf_processing_profile_digest : string;
  cf_tenant_id : string;
  cf_site_id : string;
  cf_authorized_subject : string;
  cf_session_token_jti : string;
}.

#[export] Instance CreditedFrameSet_settable : Settable CreditedFrameSet := fun x => mkCreditedFrameSet
  (cf_credit_scope x) (cf_processing_job_id x) (cf_producer_session_id x)
  (cf_capture_session_id x) (cf_key x) (cf_manifest_digest x) (cf_content_digest x)
  (cf_ordering_anchor_utc_ms x) (cf_freshness_origin_utc_ms x) (cf_synchronized_utc_ms x)
  (cf_offered_utc_ms x) (cf_producer_freshness_budget_ms x) (cf_effective_deadline_utc_ms x)
  (cf_synchronization_span_ms x) (cf_clock_uncertainty_ms x) (cf_capture_configs x)
  (cf_frames x) (cf_processing_profile_digest x) (cf_tenant_id x) (cf_site_id x)
  (cf_authorized_subject x) (cf_session_token_jti x).

#[export] Instance CreditedFrameSet_eq_dec : EqDecision CreditedFrameSet.
Proof. solve_decision. Defined.


(** A reason goes by its name. *)
Record NoData := mkNoData {
  nd_scope : CreditScope;
  nd_reason : string;
  nd_newest_known_frame_set : option FrameSetKey;
}.

#[export] Instance NoData_settable : Settable NoData := fun x => mkNoData (nd_scope x)
  (nd_reason x) (nd_newest_known_frame_set x).

#[export] Instance NoData_eq_dec : EqDecision NoData.
Proof. solve_decision. Defined.


Record ReconciliationRequest := mkReconciliationRequest {
  rq_processing_job_id : string;
  rq_producer_session_id : string;
  rq_unresolved_frame_sets : list FrameSetKey;
  rq_reconciliation_resume_token : option string;
}.

#[export] Instance ReconciliationRequest_settable : Settable ReconciliationRequest := fun x => mkReconciliationRequest
  (rq_processing_job_id x) (rq_producer_session_id x) (rq_unresolved_frame_sets x)
  (rq_reconciliation_resume_token x).

#[export] Instance ReconciliationRequest_eq_dec : EqDecision ReconciliationRequest.
Proof. solve_decision. Defined.


Inductive ProducerEnvelope :=
| EnvHello (m : ProducerHello)
| EnvFrameSet (m : CreditedFrameSet)
| EnvNoData (m : NoData)
| EnvReconciliationRequest (m : ReconciliationRequest).

(** ** Field widths: a protobuf constructor raises [ValueError] outside them *)

Definition wire_int (lo hi z : Z) : result protocol_error Z :=
  if (lo <=? z) && (z <? hi) then Ok z else Raise (OtherException "ValueError").
Definition wire_uint32 : Z -> result protocol_error Z := wire_int 0 (2 ^ 32).
Definition wire_int32 : Z -> result protocol_error Z := wire_int (- 2 ^ 31) (2 ^ 31).
Definition wire_uint64 : Z -> result protocol_error Z := wire_int 0 (2 ^ 64).
Definition wire_int64 : Z -> result protocol_error Z := wire_int (- 2 ^ 63) (2 ^ 63).

Fixpoint results {A B} (f : A -> result protocol_error B) (l : list A) : result protocol_error (list B) :=
  match l with
  | [] => Ok []
  | x :: l => y ← f x; ys ← results f l; Ok (y :: ys)
  end.

Definition _proto_key (key : FrameSetKey) : result protocol_error FrameSetKey :=
  id ← wire_uint64 (key_frame_set_id key); Ok (key <| key_frame_set_id := id |>).

(** ** [str], [int] and [bool] of a value read from JSON *)

(** The digits of a float's text with its fraction and its exponent. *)
Definition is_digit (c : ascii) : bool := let n := nat_of_ascii c in Nat.leb 48 n && Nat.leb n 57.

Definition float_parts (t : string) : bool * string * string * Z :=
  let '(negative, t) := match t with String "-" t => (true, t) | _ => (false, t) end in
  let '(whole, t) := span is_digit t in
  let '(fraction, t) := match t with String "." t => span is_digit t | _ => ("", t) end in
  let exponent := match t with String "e" t | String "E" t => default 0 (py_int t) | _ => 0 end in
  (negative, whole, fraction, exponent).

Definition float_is_zero (t : string) : bool :=
  let '(_, whole, fraction, _) := float_parts t in
  bool_decide (default 0%N (read_dec 0 (whole +:+ fraction)) = 0%N).

(** [int(x)] of a float: towards zero. *)
Definition float_int (t : string) : Z :=
  let '(negative, whole, fraction, exponent) := float_parts t in
  let digits := Z.of_N (default 0%N (read_dec 0 (whole +:+ fraction))) in
  let shift := exponent - Z.of_nat (String.length fraction) in
  let size := if 0 <=? shift then digits * 10 ^ shift else digits / 10 ^ (- shift) in
  if negative then - size else size.

Definition json_bool (v : json) : bool :=
  match v with
  | JNull => false
  | JBool b => b
  | JInt z => negb (z =? 0)
  | JFloat t => negb (float_is_zero t)
  | JStr s => truthy s
  | JList l => match l with [] => false | _ => true end
  | JObj fs => match fs with [] => false | _ => true end
  end.

Definition json_int (v : json) : result protocol_error Z :=
  match v with
  | JBool b => Ok (if b then 1 else 0)
  | JInt z => Ok z
  | JFloat t => Ok (float_int t)
  | JStr s => match py_int s with Some z => Ok z | None => Raise (OtherException "ValueError") end
  | _ => Raise (OtherException "TypeError")
  end.

(** [repr] of a string: single quotes, unless it holds one and no double
    quote. *)
Definition repr_char (q : ascii) (c : ascii) : string :=
  let n := nat_of_ascii c in
  if bool_decide (c = q) || Nat.eqb n 92 then String "\" (String c "")
  else if Nat.eqb n 9 then "\t" else if Nat.eqb n 10 then "\n" else if Nat.eqb n 13 then "\r"
  else if Nat.ltb n 32 || Nat.eqb n 127
  then "\x" +:+ String (hex_char (Nat.div n 16)) (String (hex_char (Nat.modulo n 16)) "")
  else String c "".

Fixpoint concat_chars (f : ascii -> string) (s : string) : string :=
  match s with EmptyString => "" | String c s => f c +:+ concat_chars f s end.

Definition repr_str (s : string) : string :=
  let double := ascii_of_nat 34 in
  let has c := any_char (fun x => bool_decide (x = c)) s in
  let q := if has "'"%char && negb (has double) then double else "'"%char in
  String q "" +:+ concat_chars (repr_char q) s +:+ String q "".

Fixpoint json_repr (v : json) : string :=
  match v with
  | JNull => "None"
  | JBool b => if b then "True" else "False"
  | JInt z => pretty z
  | JFloat t => t
  | JStr s => repr_str s
  | JList l => "[" +:+ join ", " (json_repr <$> l) +:+ "]"
  | JObj fs => "{" +:+ join ", " ((fun '(k, t) => repr_str k +:+ ": " +:+ t) <$> (prod_map id json_repr <$> fs)) +:+ "}"
  end.

Definition json_str (v : json) : string := match v with JStr s => s | _ => json_repr v end.

(** [d.get(k)] of a decoded object: of repeated keys the last counts. *)
Fixpoint json_get (k : string) (fs : list (string * json)) : option json :=
  match fs with
  | [] => None
  | (x, v) :: fs => match json_get k fs with Some w => Some w | None => if bool_decide (x = k) then Some v else None end
  end.

(** [str(d.get(k) or default)]. *)
Definition str_or (k default : string) (fs : list (string * json)) : string :=
  match json_get k fs with Some v => if json_bool v then json_str v else default | None => default end.

Definition json_object (v : json) : result protocol_error (list (string * json)) :=
  match v with JObj fs => Ok fs | _ => Raise (OtherException "AttributeError") end.

Definition json_loads (text : string) : result protocol_error json :=
  match loads text with Some v => Ok v | None => Raise (OtherException "JSONDecodeError") end.

Definition _nonnegative_int (value : option json) : result protocol_error Z :=
  parsed ← match value with Some v => if json_bool v then json_int v else Ok 0 | None => Ok 0 end;
  if parsed <? 0 then Raise (ArchiveIntegrityError "capture dimensions must be nonnegative") else Ok parsed.

(** ** [relay_v2_contract.py] *)

Definition _validate_limit (maximum_payload_bytes : Z) : result protocol_error unit :=
  raise_unless (0 <? maximum_payload_bytes) (OtherException "ValueError").

Definition _validate_size (payload_size maximum_payload_bytes : Z) : result protocol_error unit :=
  raise_unless (payload_size <=? maximum_payload_bytes) (PayloadLimitExceeded payload_size maximum_payload_bytes).

Definition serialize_with_limit {M} (serialize : M -> string) (message : M) (maximum_payload_bytes : Z)
    : result protocol_error string :=
  _ ← _validate_limit maximum_payload_bytes;
  let payload := serialize message in
  _ ← _validate_size (Z.of_nat (String.length payload)) maximum_payload_bytes;
  Ok payload.

Definition parse_with_limit {M} (from_string : string -> result protocol_error M) (payload : string)
    (maximum_payload_bytes : Z) : result protocol_error M :=
  _ ← _validate_limit maximum_payload_bytes;
  _ ← _validate_size (Z.of_nat (String.length payload)) maximum_payload_bytes;
  from_string payload.

(** ** The session *)

Definition bind_authorized_claim (config : ProtocolConfig) (claim : ClaimedFrameSet)
    : result protocol_error ProtocolConfig :=
  match cl_profile_digest claim with
  | Some digest =>
      if truthy digest
      then if truthy_opt (pc_processing_profile_digest config) &&
              negb (bool_decide (pc_processing_profile_digest config = Some digest))
           then Raise (CreditRejected "configured profile digest conflicts with authorized manifest")
           else Ok (config <| pc_processing_profile_digest := Some digest |>)
      else if truthy_opt (pc_processing_profile_digest config) then Ok config
           else Raise (CreditRejected "frame set is missing a processing profile digest")
  | None => if truthy_opt (pc_processing_profile_digest config) then Ok config
            else Raise (CreditRejected "frame set is missing a processing profile digest")
  end.

(** The names of the enum [Reason], by number. *)
Definition reason_names : list string := [
  "REASON_UNSPECIFIED"; "NO_DATA"; "SUPERSEDED_BEFORE_OFFER"; "EXPIRED_BEFORE_OFFER"; "CREDIT_EXPIRED"; "CREDIT_INVALID";
  "STREAM_EPOCH_FENCED"; "CREDIT_CANCELLED"; "EXPIRED_AT_ADMISSION"; "EXPIRED_BEFORE_START"; "DUPLICATE"; "OUT_OF_ORDER";
  "PAYLOAD_TOO_LARGE"; "INVALID_SCHEMA"; "IDENTITY_MISSING"; "IDENTITY_CONFLICT"; "INTEGRITY_ERROR"; "CAMERA_SET_MISMATCH";
  "CAPTURE_CONFIG_MISMATCH"; "PROFILE_MISMATCH"; "SYNCHRONIZATION_SPAN_EXCEEDED"; "CLOCK_UNHEALTHY"; "PROCESSING_ERROR";
  "PROCESSING_TIMEOUT"; "SPOOL_ERROR"; "STORE_ERROR"; "ARCHIVE_IO_ERROR"; "ARCHIVE_METADATA_ERROR"; "PROCESS_CRASHED";
  "SHUTDOWN_INTERRUPTED"; "ALERT_DELIVERY_TIMEOUT"; "ALERT_RECEIVER_REJECTED"; "ALERT_OUTBOX_PRESSURE"; "MODEL_UNHEALTHY";
  "ESTIMATOR_UNHEALTHY"; "SUBJECT_IDENTITY_UNSAFE"; "OBSERVATION_GAP_EXCEEDED"; "CALIBRATION_UNHEALTHY";
  "SUPERVISOR_HEARTBEAT_EXPIRED"; "ADMIN_DISABLED"; "MODE_LEASE_CONFLICT"; "RECONCILED_AFTER_RECONNECT"].

Definition attempt_state_names : list string := [
  "PROCESSING_ATTEMPT_STATE_UNSPECIFIED"; "ACCEPTED"; "STARTED"; "REJECTED"; "COMPLETED"; "FAILED"; "RECOVERY_REQUIRED"].

(** [Enum.Name]: [ValueError] for a number without one. *)
Definition enum_name (names : list string) (z : Z) : result protocol_error string :=
  match (if z <? 0 then None else names !! Z.to_nat z) with
  | Some name => Ok name
  | None => Raise (OtherException "ValueError")
  end.

Definition accept_hello (envelope : ProcessorEnvelope) (config : ProtocolConfig)
    : result protocol_error NegotiatedSession :=
  match envelope with
  | EnvHelloRejected rejected =>
      name ← enum_name reason_names (hr_reason rejected);
      Raise (CreditRejected ("hello rejected: " +:+ name +:+ " (" +:+ hr_detail_code rejected +:+ ")"))
  | EnvHelloAccepted accepted =>
      _ ← raise_unless (ha_protocol_version accepted =? pc_protocol_version config)
            (CreditRejected "processor negotiated an unsupported protocol version");
      _ ← raise_unless (ha_schema_version accepted =? pc_schema_version config)
            (CreditRejected "processor negotiated an unsupported schema version");
      _ ← raise_unless (bool_decide (Some (ha_processing_profile_digest accepted) = pc_processing_profile_digest config))
            (CreditRejected "processor profile digest does not match producer");
      _ ← raise_unless (truthy (ha_processing_job_id accepted) && truthy (ha_processor_instance_id accepted) &&
                        truthy (ha_stream_epoch accepted) && (0 <? ha_maximum_payload_bytes accepted))
            (CreditRejected "hello acceptance is missing required identity or bounds");
      Ok (mkNegotiatedSession (ha_processing_job_id accepted) (ha_processor_instance_id accepted)
            (ha_stream_epoch accepted) (ha_maximum_payload_bytes accepted) (ha_processing_profile_digest accepted))
  | _ => Raise (CreditRejected "first processor envelope must accept or reject hello")
  end.

Definition credit_identity (credit : ProcessorCredit) (session : NegotiatedSession)
    : result protocol_error CreditIdentity :=
  let scope := cr_scope credit in
  _ ← raise_unless (cr_schema_version credit =? 1) (CreditRejected "credit schema version is unsupported");
  _ ← raise_unless (bool_decide (cs_processor_instance_id scope = ng_processor_instance_id session) &&
                    bool_decide (cs_stream_epoch scope = ng_stream_epoch session) && truthy (cs_credit_id scope))
        (CreditRejected "credit scope is fenced or incomplete");
  _ ← raise_unless (0 <? cr_credit_lease_duration_ms credit) (CreditRejected "credit lease must be positive");
  Ok (mkCreditIdentity (cs_processor_instance_id scope) (cs_stream_epoch scope) (cs_credit_id scope)).

(** ** The manifest of a claim *)

Definition capture_config (camera_stream_id digest : string) (member metadata : list (string * json))
    : result protocol_error CaptureConfigSnapshot :=
  width ← _nonnegative_int (json_get "width" metadata);
  height ← _nonnegative_int (json_get "height" metadata);
  orientation ← match json_get "orientation_deg" metadata with Some v => json_int v | None => Ok 0 end;
  let mirrored := match json_get "mirrored" metadata with Some v => json_bool v | None => false end in
  width ← wire_uint32 width; height ← wire_uint32 height; orientation ← wire_int32 orientation;
  Ok (mkCaptureConfigSnapshot camera_stream_id digest width height orientation mirrored
        (str_or "encoding" "image/jpeg" metadata) (str_or "color_space" "UNKNOWN" metadata)
        (str_or "authorized_camera_id" "" member)).

(** One turn of the loop over the members: the camera, its metadata, its
    configuration. *)
Definition manifest_member (raw : json)
    : result protocol_error (string * list (string * json) * CaptureConfigSnapshot) :=
  member ← json_object raw;
  let camera_stream_id := str_or "camera_stream_id" "" member in
  let digest := str_or "capture_config_digest" "" member in
  if negb (truthy camera_stream_id) || negb (truthy digest)
  then Raise (ArchiveIntegrityError "manifest capture config is incomplete")
  else
    text ← match json_get "capture_metadata_json" member with
           | Some v => if json_bool v
                       then match v with JStr s => Ok s | _ => Raise (OtherException "TypeError") end
                       else Ok "{}"
           | None => Ok "{}"
           end;
    value ← json_loads text;
    metadata ← match value with JObj fs => Ok fs | _ => Raise (OtherException "TypeError") end;
    let metadata := dict_set "capture_config_digest" (JStr digest) metadata in
    config ← capture_config camera_stream_id digest member metadata;
    Ok (camera_stream_id, metadata, config).

Definition config_leb (x y : CaptureConfigSnapshot) : bool :=
  String.leb (cc_camera_stream_id x) (cc_camera_stream_id y).

Definition metadata_by_camera (members : list (string * list (string * json) * CaptureConfigSnapshot))
    : list (string * list (string * json)) :=
  foldl (fun d '(camera, metadata, _) => dict_set camera metadata d) [] members.

Definition _manifest_members (claim : ClaimedFrameSet)
    : result protocol_error (list CaptureConfigSnapshot * list (string * list (string * json))) :=
  payload ← json_loads (cl_manifest_json claim);
  payload ← json_object payload;
  raw_members ← match json_get "members" payload with
                | Some (JList l) => Ok l
                | _ => Raise (ArchiveIntegrityError "manifest members are missing")
                end;
  members ← results manifest_member raw_members;
  let metadata := metadata_by_camera members in
  if negb (bool_decide (list_to_set (C := gset string) metadata.*1 =
                        list_to_set (lm_camera_stream_id <$> cl_members claim)))
  then Raise (ArchiveIntegrityError "manifest and archived member sets differ")
  else Ok (sort_by config_leb members.*2, metadata).

Definition text_or_empty (s : option string) : string := or_str s "".

Definition build_producer_hello (config : ProtocolConfig) (claim : ClaimedFrameSet)
    (watermark : option (option string * option Z * string)) (unresolved : list FrameSetKey)
    (proposed_processing_job_id : option string) (measured_utc_ms : Z) : result protocol_error ProducerEnvelope :=
  members ← _manifest_members claim;
  let capture_configs := members.1 in
  uncertainty ← wire_uint64 (pc_maximum_clock_uncertainty_ms config);
  measured ← wire_int64 measured_utc_ms;
  unresolved ← results _proto_key unresolved;
  watermark ← match watermark with
              | Some (run, id, uid) =>
                  key ← _proto_key (mkFrameSetKey (default "" run) (default 0 id) uid); Ok (Some key)
              | None => Ok None
              end;
  version ← wire_uint32 (pc_protocol_version config);
  schema ← wire_uint32 (pc_schema_version config);
  let scoped s := if truthy_opt (cl_tenant_id claim) then default "" s else "" in
  Ok (EnvHello (mkProducerHello version schema (pc_producer_session_id config) (cl_capture_session_id claim)
    (key_capture_run_id (cl_key claim))
    (if truthy_opt proposed_processing_job_id then proposed_processing_job_id else None)
    (default "" (pc_processing_profile_digest config)) (cc_camera_stream_id <$> capture_configs) capture_configs
    uncertainty measured (pc_clock_source config) watermark unresolved
    (scoped (cl_tenant_id claim)) (scoped (cl_site_id claim)) (scoped (cl_authorized_subject claim))
    (scoped (cl_session_token_jti claim)))).

(** ** The frame-set on the wire *)

Section Credited.
Context `{Hashing}.
Context (read_bytes : string -> result string string) (serialize : ProducerEnvelope -> string).

(** The instants a call uses: [now_monotonic] and [now_utc_ms] when given,
    and the readings of the clocks otherwise. *)
Record credited_clock := mkCreditedClock {
  ck_now_monotonic : option Z;
  ck_now_utc_ms : option Z;
  ck_monotonic_at_start : Z;
  ck_monotonic_at_end : Z;
  ck_utc_ms : Z;
}.

Definition lease_deadline (credit : ProcessorCredit) (credit_received_monotonic : Z) : Z :=
  credit_received_monotonic + cr_credit_lease_duration_ms credit.

Definition effective_deadline (claim : ClaimedFrameSet) (credit : ProcessorCredit) (config : ProtocolConfig) : Z :=
  Z.min (cl_freshness_origin_ms claim + pc_producer_freshness_budget_ms config)
        (cl_freshness_origin_ms claim + cr_maximum_frame_age_ms credit) - pc_maximum_clock_uncertainty_ms config.

(** The checks before anything is read. *)
Definition check_credit (claim : ClaimedFrameSet) (credit : ProcessorCredit) (config : ProtocolConfig)
    (credit_received_monotonic now_monotonic now_utc_ms : Z) : result protocol_error unit :=
  _ ← raise_unless (now_monotonic <? lease_deadline credit credit_received_monotonic)
        (CreditRejected "credit lease expired before payload send");
  _ ← raise_unless (cr_earliest_acceptable_freshness_origin_utc_ms credit <=? cl_freshness_origin_ms claim)
        (FrameSetExpired "frame set predates the credit freshness watermark");
  raise_unless (now_utc_ms + cr_ingress_reserve_ms credit <? effective_deadline claim credit config)
    (FrameSetExpired "frame set cannot reach admission before its deadline").

(** The bytes of a member, read and checked. *)
Definition member_bytes (member : LiveFrameMember) : result protocol_error string :=
  match read_bytes (lm_file_path member) with
  | Raise text => Raise (ArchiveReadError text)
  | Ok payload =>
      _ ← raise_unless (bool_decide (Z.of_nat (String.length payload) = lm_image_size member))
            (ArchiveIntegrityError ("archive size mismatch for " +:+ lm_source_frame_uid member));
      _ ← raise_unless (bool_decide (sha256_bytes payload = lm_content_digest member))
            (ArchiveIntegrityError ("archive digest mismatch for " +:+ lm_source_frame_uid member));
      Ok payload
  end.

Definition frame_payload (claim : ClaimedFrameSet) (config : ProtocolConfig)
    (metadata : list (string * list (string * json))) (now_utc_ms : Z) (member : LiveFrameMember)
    : result protocol_error FramePayload :=
  payload ← member_bytes member;
  match dict_get (lm_camera_stream_id member) metadata with
  | None => Raise (OtherException "KeyError")
  | Some metadata =>
      width ← _nonnegative_int (json_get "width" metadata);
      height ← _nonnegative_int (json_get "height" metadata);
      orientation ← match json_get "orientation_deg" metadata with Some v => json_int v | None => Ok 0 end;
      digest ← match json_get "capture_config_digest" metadata with
               | Some v => Ok (json_str v)
               | None => Raise (OtherException "KeyError")
               end;
      sequence ← wire_uint64 (lm_frame_sequence member);
      captured ← wire_int64 (lm_capture_timestamp_ms member);
      uncertainty ← wire_uint64 (pc_maximum_clock_uncertainty_ms config);
      measured ← wire_int64 now_utc_ms;
      received ← wire_int64 (cl_synchronized_at_ms claim);
      width ← wire_uint32 width; height ← wire_uint32 height; orientation ← wire_int32 orientation;
      size ← wire_uint64 (Z.of_nat (String.length payload));
      Ok (mkFramePayload (lm_source_frame_uid member) (lm_source_session_id member) (lm_camera_stream_id member)
            sequence captured uncertainty measured received width height orientation
            (match json_get "mirrored" metadata with Some v => json_bool v | None => false end)
            (str_or "encoding" (lm_content_type member) metadata) (str_or "color_space" "UNKNOWN" metadata)
            digest size (lm_content_digest member) payload)
  end.

(** An entry of [content_records]. *)
Definition content_record (f : FramePayload) : json := JObj [
  ("camera_stream_id", JStr (fp_camera_stream_id f));
  ("content_digest", JStr (fp_content_digest f));
  ("content_size_bytes", JInt (fp_content_size_bytes f));
  ("source_frame_uid", JStr (fp_source_frame_uid f))].

Definition credited_frame_set (claim : ClaimedFrameSet) (credit : ProcessorCredit) (session : NegotiatedSession)
    (config : ProtocolConfig) (now_utc_ms : Z) (capture_configs : list CaptureConfigSnapshot)
    (frames : list FramePayload) : result protocol_error CreditedFrameSet :=
  key ← _proto_key (cl_key claim);
  anchor ← wire_int64 (cl_anchor_timestamp_ms claim);
  origin ← wire_int64 (cl_freshness_origin_ms claim);
  synchronized ← wire_int64 (cl_synchronized_at_ms claim);
  offered ← wire_int64 now_utc_ms;
  budget ← wire_uint64 (pc_producer_freshness_budget_ms config);
  deadline ← wire_int64 (effective_deadline claim credit config);
  span ← wire_uint64 (cl_synchronization_span_ms claim);
  uncertainty ← wire_uint64 (pc_maximum_clock_uncertainty_ms config);
  Ok (mkCreditedFrameSet (cr_scope credit) (ng_processing_job_id session) (pc_producer_session_id config)
        (cl_capture_session_id claim) key (cl_manifest_digest claim)
        (sha256_bytes (canonical_json (JList (content_record <$> frames))))
        anchor origin synchronized offered budget deadline span uncertainty capture_configs frames
        (default "" (pc_processing_profile_digest config)) (text_or_empty (cl_tenant_id claim))
        (text_or_empty (cl_site_id claim)) (text_or_empty (cl_authorized_subject claim))
        (text_or_empty (cl_session_token_jti claim))).

Definition build_credited_frame_set (claim : ClaimedFrameSet) (credit : ProcessorCredit)
    (session : NegotiatedSession) (config : ProtocolConfig) (credit_received_monotonic : Z)
    (clock : credited_clock) : result protocol_error ProducerEnvelope :=
  let now_utc_ms := default (ck_utc_ms clock) (ck_now_utc_ms clock) in
  _ ← check_credit claim credit config credit_received_monotonic
        (default (ck_monotonic_at_start clock) (ck_now_monotonic clock)) now_utc_ms;
  members ← _manifest_members claim;
  frames ← results (frame_payload claim config members.2 now_utc_ms) (cl_members claim);
  frame_set ← credited_frame_set claim credit session config now_utc_ms members.1 frames;
  let envelope := EnvFrameSet frame_set in
  _ ← serialize_with_limit serialize envelope (Z.min (ng_maximum_payload_bytes session) (cr_maximum_payload_bytes credit));
  _ ← raise_unless (default (ck_monotonic_at_end clock) (ck_now_monotonic clock) <?
                    lease_deadline credit credit_received_monotonic)
        (CreditRejected "credit lease expired while assembling payload");
  Ok envelope.

Definition build_no_data (credit : ProcessorCredit) (reason : string) (newest_known : option FrameSetKey)
    : result protocol_error ProducerEnvelope :=
  newest_known ← match newest_known with
                 | Some key => key ← _proto_key key; Ok (Some key)
                 | None => Ok None
                 end;
  Ok (EnvNoData (mkNoData (cr_scope credit) reason newest_known)).

Definition build_reconciliation_request (session : NegotiatedSession) (config : ProtocolConfig)
    (unresolved : list FrameSetKey) (resume_token : option string) : result protocol_error ProducerEnvelope :=
  unresolved ← results _proto_key unresolved;
  Ok (EnvReconciliationRequest (mkReconciliationRequest (ng_processing_job_id session) (pc_producer_session_id config)
        unresolved (if truthy_opt resume_token then resume_token else None))).
End Credited.

(** ** What is accepted and built *)

Lemma wire_int_Ok lo hi z y : wire_int lo hi z = Ok y <-> y = z /\ lo <= z < hi.
Proof.
  unfold wire_int. destruct ((lo <=? z) && (z <? hi)) eqn:E.
  - apply andb_true_iff in E. split; [intros [= <-]; lia|]. by intros [-> _].
  - apply andb_false_iff in E. split; [done|lia].
Qed.

Lemma proto_key_Ok key key' : _proto_key key = Ok key' <-> key' = key /\ 0 <= key_frame_set_id key < 2 ^ 64.
Proof.
  unfold _proto_key. rewrite result_bind_Ok. unfold wire_uint64. setoid_rewrite wire_int_Ok. split.
  - intros (z & [-> Hz] & [= <-]). split; [by destruct key|done].
  - intros [-> Hz]. eexists. split; [done|]. by destruct key.
Qed.

Lemma results_Ok {A B} (f : A -> result protocol_error B) l ys :
  results f l = Ok ys <-> Forall2 (fun x y => f x = Ok y) l ys.
Proof.
  revert ys. induction l as [|x l IH]; intros ys; cbn [results].
  - split; [intros [= <-]; constructor|by inversion 1].
  - rewrite result_bind_Ok. split.
    + intros (y & Hy & E). apply result_bind_Ok in E as (ys' & Hys & [= <-]). constructor; [done|by apply IH].
    + inversion 1 as [|? y ? ys' Hy Hys]; subst. exists y. split; [done|]. apply result_bind_Ok. exists ys'.
      by split; [apply IH|].
Qed.

Section Sent.
Context `{Hashing}.
Context (read_bytes : string -> result string string) (serialize : ProducerEnvelope -> string).

(** A frame on the wire is the member's file, unchanged since it was archived. *)
Definition intact_frame (member : LiveFrameMember) (f : FramePayload) : Prop :=
  read_bytes (lm_file_path member) = Ok (fp_image_bytes f) /\
  sha256_bytes (fp_image_bytes f) = lm_content_digest member /\
  Z.of_nat (String.length (fp_image_bytes f)) = lm_image_size member /\
  fp_content_digest f = lm_content_digest member /\ fp_content_size_bytes f = lm_image_size member /\
  fp_source_frame_uid f = lm_source_frame_uid member /\ fp_camera_stream_id f = lm_camera_stream_id member /\
  fp_frame_sequence f = lm_frame_sequence member /\ fp_capture_timestamp_ms f = lm_capture_timestamp_ms member.

Lemma member_bytes_Ok member payload : member_bytes read_bytes member = Ok payload <->
  read_bytes (lm_file_path member) = Ok payload /\ Z.of_nat (String.length payload) = lm_image_size member /\
  sha256_bytes payload = lm_content_digest member.
Proof.
  unfold member_bytes. destruct (read_bytes _) as [data|e]; [|naive_solver].
  rewrite raise_unless_bind, raise_unless_bind, !bool_decide_eq_true. naive_solver.
Qed.

Lemma frame_payload_intact claim config metadata now member f :
  frame_payload read_bytes claim config metadata now member = Ok f -> intact_frame member f.
Proof.
  unfold frame_payload. intros E. ok_step. destruct (dict_get _ _) as [md|]; [|done].
  do 4 ok_step. unfold wire_uint64, wire_int64, wire_uint32, wire_int32 in *.
  repeat (ok_step; match goal with H : wire_int _ _ _ = Ok _ |- _ => apply wire_int_Ok in H as [-> ?] end).
  injection E as <-. apply member_bytes_Ok in Hx as (Hr & Hn & Hd). by split_and!.
Qed.

Lemma metadata_by_camera_keys members c :
  c ∈ (metadata_by_camera members).*1 <-> c ∈ (fun m => m.1.1) <$> members.
Proof.
  unfold metadata_by_camera. induction members as [|[[camera md] cc] members IH] using rev_ind; [done|].
  rewrite foldl_app, fmap_app. cbn [foldl fmap list_fmap fst]. rewrite elem_of_app, list_elem_of_singleton, <- IH, dict_keys_set.
  destruct (decide _) as [Hin|Hin]; [split; [by left|]|by rewrite elem_of_app, list_elem_of_singleton].
  intros [?| ->]; done.
Qed.

Lemma capture_config_camera camera digest member metadata c :
  capture_config camera digest member metadata = Ok c -> cc_camera_stream_id c = camera.
Proof. unfold capture_config. intros E. ok_steps. by injection E as <-. Qed.

Lemma manifest_member_camera raw m : manifest_member raw = Ok m -> cc_camera_stream_id m.2 = m.1.1.
Proof.
  unfold manifest_member. intros E. ok_step. destruct (negb _ || negb _); [done|].
  do 4 ok_step. injection E as <-. by eapply capture_config_camera.
Qed.

(** The configurations and metadata of a claim are those of its members'
    cameras, the configurations by camera. *)
Lemma manifest_members_cameras claim configs metadata : _manifest_members claim = Ok (configs, metadata) ->
  StronglySorted (fun x y => config_leb x y = true) configs /\
  (forall c, c ∈ (cc_camera_stream_id <$> configs) <-> c ∈ (lm_camera_stream_id <$> cl_members claim)) /\
  (forall c, c ∈ metadata.*1 <-> c ∈ (lm_camera_stream_id <$> cl_members claim)).
Proof.
  unfold _manifest_members. intros E. do 4 ok_step. destruct (bool_decide _) eqn:Eq; [|done]. injection E as <- <-.
  apply bool_decide_eq_true in Eq. apply results_Ok in Hx2.
  assert (forall c, c ∈ (metadata_by_camera x2).*1 <-> c ∈ (lm_camera_stream_id <$> cl_members claim)) as Hkeys.
  { intros c. rewrite <- !(elem_of_list_to_set (C := gset string)). by rewrite Eq. }
  split_and!; [apply sort_by_sorted; eauto with gc| |done].
  intros c. rewrite <- Hkeys, metadata_by_camera_keys, sort_by_perm.
  replace (cc_camera_stream_id <$> x2.*2) with ((fun m => m.1.1) <$> x2); [done|].
  clear -Hx2. induction Hx2 as [|raw m l k Hm _ IH]; [done|]. cbn. f_equal; [|done].
  symmetry. by apply (manifest_member_camera raw).
Qed.

(** The credit allows the frame-set to be sent at an instant. *)
Definition in_time (claim : ClaimedFrameSet) (credit : ProcessorCredit) (config : ProtocolConfig)
    (credit_received_monotonic now_monotonic now_utc_ms deadline : Z) : Prop :=
  now_monotonic < credit_received_monotonic + cr_credit_lease_duration_ms credit /\
  cr_earliest_acceptable_freshness_origin_utc_ms credit <= cl_freshness_origin_ms claim /\
  now_utc_ms + cr_ingress_reserve_ms credit < deadline /\
  deadline + pc_maximum_clock_uncertainty_ms config <= cl_freshness_origin_ms claim + pc_producer_freshness_budget_ms config /\
  deadline + pc_maximum_clock_uncertainty_ms config <= cl_freshness_origin_ms claim + cr_maximum_frame_age_ms credit.

Lemma check_credit_Ok claim credit config received mono utc u :
  check_credit claim credit config received mono utc = Ok u ->
  in_time claim credit config received mono utc (effective_deadline claim credit config).
Proof.
  unfold check_credit, lease_deadline. bools. intros (Hl & Ho & Hd).
  unfold in_time, effective_deadline in *. lia.
Qed.

(** What of the claim and the session a message carries. *)
Definition names_claim (claim : ClaimedFrameSet) (credit : ProcessorCredit) (session : NegotiatedSession)
    (fs : CreditedFrameSet) : Prop :=
  cf_credit_scope fs = cr_scope credit /\ cf_key fs = cl_key claim /\
  cf_processing_job_id fs = ng_processing_job_id session /\ cf_capture_session_id fs = cl_capture_session_id claim /\
  cf_manifest_digest fs = cl_manifest_digest claim /\ cf_ordering_anchor_utc_ms fs = cl_anchor_timestamp_ms claim /\
  cf_freshness_origin_utc_ms fs = cl_freshness_origin_ms claim /\
  cf_content_digest fs = sha256_bytes (canonical_json (JList (content_record <$> cf_frames fs))).

Lemma credited_frame_set_Ok claim credit session config now configs frames fs :
  credited_frame_set claim credit session config now configs frames = Ok fs ->
  names_claim claim credit session fs /\ cf_capture_configs fs = configs /\ cf_frames fs = frames /\
  cf_offered_utc_ms fs = now /\ cf_effective_deadline_utc_ms fs = effective_deadline claim credit config.
Proof.
  unfold credited_frame_set, wire_uint64, wire_int64. intros E. ok_step. apply proto_key_Ok in Hx as [-> _].
  repeat (ok_step; match goal with H : wire_int _ _ _ = Ok _ |- _ => apply wire_int_Ok in H as [-> ?] end).
  injection E as <-. by split_and!.
Qed.
End Sent.

(** C20: What is sent under a credit: the claimed frame-set, under that
    credit's scope, with the bytes of every member's file, of the archived
    size and digest, in the order of the members; the configurations of
    exactly the members' cameras; serialised within both size limits; its
    origin not before the credit's watermark, and early enough to be admitted
    before a deadline that leaves the clock uncertainty inside both the
    producer's budget and the credit's frame age. The lease lasts at the
    instant the caller names; only when it names none, the clock is read, at
    the start and again once the message is built, and the lease lasts at
    both. With an instant, as the client names one, the time at which the
    message is built has no influence: the lease may have ended by then. *)
Theorem credited_set_sound `{Hashing} read_bytes serialize claim credit session config received clock env :
  build_credited_frame_set read_bytes serialize claim credit session config received clock = Ok env ->
  exists fs, env = EnvFrameSet fs /\ names_claim claim credit session fs /\
    Forall2 (intact_frame read_bytes) (cl_members claim) (cf_frames fs) /\
    (forall c, c ∈ (cc_camera_stream_id <$> cf_capture_configs fs) <-> c ∈ (lm_camera_stream_id <$> cl_members claim)) /\
    Z.of_nat (String.length (serialize env)) <= Z.min (ng_maximum_payload_bytes session) (cr_maximum_payload_bytes credit) /\
    in_time claim credit config received (default (ck_monotonic_at_start clock) (ck_now_monotonic clock))
      (cf_offered_utc_ms fs) (cf_effective_deadline_utc_ms fs) /\
    match ck_now_monotonic clock with
    | Some mono => mono < lease_deadline credit received /\
        forall built_at, build_credited_frame_set read_bytes serialize claim credit session config received
          (mkCreditedClock (Some mono) (ck_now_utc_ms clock) (ck_monotonic_at_start clock) built_at (ck_utc_ms clock)) = Ok env
    | None => ck_monotonic_at_end clock < lease_deadline credit received
    end.
Proof.
  intros E0. pose proof E0 as E. revert E. unfold build_credited_frame_set, serialize_with_limit, _validate_size. intros E.
  do 4 ok_step. do 2 ok_step. injection E as <-. rename x2 into fs. exists fs. split; [done|].
  apply credited_frame_set_Ok in Hx2 as (Hn & -> & -> & -> & ->). apply check_credit_Ok in Hx.
  destruct x0 as [configs metadata]. apply manifest_members_cameras in Hx0 as (_ & Hc & _).
  apply results_Ok in Hx1. ok_steps. split; [done|]. split; [|split; [done|split; [lia|split; [done|]]]].
  - eapply Forall2_impl; [exact Hx1|]. intros member f. apply frame_payload_intact.
  - destruct clock as [[mono|] utc a b w]; cbn in *; [|lia]. split; [lia|]. intros built_at. exact E0.
Qed.

(** With [now_monotonic] given, as the client gives it, the lease is not
    looked at again after the files were read: the later reading of the clock
    has no influence. *)
Lemma second_lease_check_vacuous `{Hashing} read_bytes serialize claim credit session config received mono utc s w e e' :
  build_credited_frame_set read_bytes serialize claim credit session config received
    (mkCreditedClock (Some mono) utc s e w) =
  build_credited_frame_set read_bytes serialize claim credit session config received
    (mkCreditedClock (Some mono) utc s e' w).
Proof. reflexivity. Qed.

(** ** The manifest the matcher writes is the one the relay reads *)

Section Manifest.
Context `{Hashing}.

(** A frame as the relay needs it: a camera, a configuration digest, and
    metadata whose text is an object with dimensions and an orientation that
    fit their fields. *)
Definition metadata_of (f : StoredSyncFrame) : option (list (string * json)) :=
  match loads (or_str (sf_capture_metadata_json f) "{}") with Some (JObj fs) => Some fs | _ => None end.

Definition fits (lo hi : Z) (v : option json) : Prop :=
  match v with None => True | Some (JInt z) => lo <= z < hi | Some _ => False end.

Definition readable_frame (f : StoredSyncFrame) : Prop :=
  truthy_opt (sf_camera_stream_id f) = true /\ truthy_opt (sf_capture_config_digest f) = true /\
  exists md, metadata_of f = Some md /\
    fits 0 (2 ^ 32) (json_get "width" md) /\ fits 0 (2 ^ 32) (json_get "height" md) /\
    fits (- 2 ^ 31) (2 ^ 31) (json_get "orientation_deg" md).

(** The fields of a member as they are written, in the order of their keys. *)
Definition member_object (f : StoredSyncFrame) : list (string * json) := [
  ("authorized_camera_id", json_opt_str (sf_authorized_camera_id f));
  ("authorized_subject", json_opt_str (sf_authorized_subject f));
  ("camera_claim_id", json_opt_str (sf_camera_claim_id f));
  ("camera_stream_id", json_opt_str (sf_camera_stream_id f));
  ("capture_config_digest", json_opt_str (sf_capture_config_digest f));
  ("capture_metadata_json", JStr (default "{}" (sf_capture_metadata_json f)));
  ("capture_timestamp_ms", JInt (sf_timestamp_ms f));
  ("content_digest", json_opt_str (sf_content_digest f));
  ("content_type", JStr (sf_content_type f));
  ("device_id", JStr (sf_device_id f));
  ("frame_sequence", json_opt_int (sf_sequence f));
  ("image_size", JInt (sf_image_size f));
  ("session_token_jti", json_opt_str (sf_session_token_jti f));
  ("source_frame_uid", json_opt_str (sf_source_frame_uid f));
  ("source_session_id", json_opt_str (sf_source_session_id f))].

Lemma member_fields f : sort_keys (member_json f) = JObj (member_object f).
Proof.
  cbn [sort_keys member_json fmap list_fmap prod_map fst snd id]. rewrite !sort_keys_opt_str, !sort_keys_opt_int.
  reflexivity.
Qed.

Lemma member_object_get f :
  json_get "camera_stream_id" (member_object f) = Some (json_opt_str (sf_camera_stream_id f)) /\
  json_get "capture_config_digest" (member_object f) = Some (json_opt_str (sf_capture_config_digest f)) /\
  json_get "capture_metadata_json" (member_object f) = Some (JStr (default "{}" (sf_capture_metadata_json f))).
Proof. by split_and!. Qed.

Lemma json_get_dict_set_ne k k' v fs : k <> k' -> json_get k (dict_set k' v fs) = json_get k fs.
Proof.
  intros Hne. induction fs as [|[x w] fs IH]; cbn; [by rewrite bool_decide_eq_false_2|].
  case_decide; subst; cbn; [|by rewrite IH].
  by rewrite !bool_decide_eq_false_2 by done.
Qed.

Lemma fits_uint_json v : fits 0 (2 ^ 32) v -> exists z, _nonnegative_int v = Ok z /\ wire_uint32 z = Ok z.
Proof.
  unfold fits, _nonnegative_int, wire_uint32. destruct v as [[| |z| | | |]|]; try done; [|by exists 0].
  intros Hz. exists z. split; [|by apply wire_int_Ok]. cbn. destruct (Z.eqb_spec z 0) as [->|Hne]; [done|].
  cbn. destruct (Z.ltb_spec z 0); [lia|done].
Qed.

Lemma fits_int_json v : fits (- 2 ^ 31) (2 ^ 31) v -> exists z,
  match v with Some v => json_int v | None => Ok 0 end = Ok z /\ wire_int32 z = Ok z.
Proof.
  unfold fits, wire_int32. destruct v as [[| |z| | | |]|]; try done.
  - intros Hz. exists z. split; [done|]. by apply wire_int_Ok.
  - by exists 0.
Qed.

Definition camera_of (f : StoredSyncFrame) : string := default "" (sf_camera_stream_id f).

Lemma capture_config_readable camera digest member md :
  fits 0 (2 ^ 32) (json_get "width" md) -> fits 0 (2 ^ 32) (json_get "height" md) ->
  fits (- 2 ^ 31) (2 ^ 31) (json_get "orientation_deg" md) ->
  exists c, capture_config camera digest member (dict_set "capture_config_digest" (JStr digest) md) = Ok c /\
    cc_camera_stream_id c = camera /\ cc_capture_config_digest c = digest.
Proof.
  intros Hw Hh Ho. unfold capture_config. rewrite !json_get_dict_set_ne by done.
  destruct (fits_uint_json _ Hw) as (w & -> & Ew), (fits_uint_json _ Hh) as (h & -> & Eh), (fits_int_json _ Ho) as (o & -> & Eo).
  cbn [mbind result_bind]. rewrite Ew, Eh, Eo. cbn [mbind result_bind]. eauto.
Qed.

Lemma str_or_text k s fs : json_get k fs = Some (json_opt_str s) -> truthy_opt s = true ->
  str_or k "" fs = default "" s /\ truthy (str_or k "" fs) = true.
Proof.
  intros Hk Hs. unfold str_or. rewrite Hk. destruct s as [s|]; [|done]. cbn in *. by rewrite Hs.
Qed.

Lemma manifest_member_readable f : readable_frame f -> exists md c,
  manifest_member (sort_keys (member_json f)) = Ok (camera_of f, md, c) /\
  cc_camera_stream_id c = camera_of f /\ Some (cc_capture_config_digest c) = sf_capture_config_digest f.
Proof.
  intros (Hc & Hd & md & Hmd & Hw & Hh & Ho). rewrite member_fields. unfold manifest_member, json_object.
  cbn [mbind result_bind]. destruct (member_object_get f) as (Gc & Gd & Gm).
  destruct (str_or_text _ _ _ Gc Hc) as [-> Tc], (str_or_text _ _ _ Gd Hd) as [-> Td].
  fold (camera_of f) in *. rewrite Tc, Td. cbn [negb orb]. rewrite Gm.
  destruct (capture_config_readable (camera_of f) (default "" (sf_capture_config_digest f)) (member_object f) md Hw Hh Ho)
    as (c & Ec & E1 & E2).
  exists (dict_set "capture_config_digest" (JStr (default "" (sf_capture_config_digest f))) md), c.
  split; [|split; [done|]].
  - assert ((if json_bool (JStr (default "{}" (sf_capture_metadata_json f)))
             then Ok (E := protocol_error) (default "{}" (sf_capture_metadata_json f)) else Ok "{}") =
            Ok (or_str (sf_capture_metadata_json f) "{}")) as Et.
    { destruct (sf_capture_metadata_json f) as [t|]; [|done]. cbn. by destruct (truthy t). }
    rewrite Et. cbn [mbind result_bind]. unfold json_loads. unfold metadata_of in Hmd.
    destruct (loads _) as [[]|]; try done. injection Hmd as ->. cbn [mbind result_bind]. rewrite Ec. done.
  - rewrite E2. by destruct (sf_capture_config_digest f).
Qed.

Lemma payload_get_members s fs mode w span a key : exists rest,
  sort_keys (JObj (_build_manifest_payload s fs mode w span a key)) = JObj rest /\
  json_get "members" rest = Some (JList (sort_keys <$> (member_json <$> sort_by member_order fs))).
Proof.
  unfold _build_manifest_payload. cbn -[sort_by member_order].
  change (sort_by key_leb ?l) with (foldr (insert_by key_leb) [] l). cbn -[sort_by member_order]. eauto.
Qed.
End Manifest.

(** C21: What the matcher writes the relay can read: when the manifest of a
    claim is the text of an emitted payload whose frames have a camera, a
    configuration digest and metadata with dimensions and orientation that
    fit, and the archived members are of the same cameras, reading it back
    does not fail and gives one configuration for each frame, by camera,
    with the frame's digest. *)
Theorem manifest_readable `{Hashing} claim s frames mode w span a key :
  cl_manifest_json claim = canonical_json (JObj (_build_manifest_payload s frames mode w span a key)) ->
  Forall readable_frame frames ->
  (forall c, c ∈ (lm_camera_stream_id <$> cl_members claim) <-> c ∈ (camera_of <$> frames)) ->
  exists configs metadata, _manifest_members claim = Ok (configs, metadata) /\
    StronglySorted (fun x y => config_leb x y = true) configs /\
    ((fun c => (cc_camera_stream_id c, Some (cc_capture_config_digest c))) <$> configs) ≡ₚ
      (fun f => (camera_of f, sf_capture_config_digest f)) <$> frames.
Proof.
  intros Ej Hf Hc.
  assert (exists ms, results manifest_member (sort_keys <$> (member_json <$> sort_by member_order frames)) = Ok ms /\
    (fun m => (m.1.1, (cc_camera_stream_id m.2, Some (cc_capture_config_digest m.2)))) <$> ms =
    (fun f => (camera_of f, (camera_of f, sf_capture_config_digest f))) <$> sort_by member_order frames) as (ms & Ems & Em).
  { assert (Forall readable_frame (sort_by member_order frames)) as Hs by by rewrite sort_by_perm.
    induction Hs as [|f l Hr _ (ms & Ems & Em)]; [by exists []|].
    destruct (manifest_member_readable f Hr) as (md & c & E & E1 & E2).
    exists ((camera_of f, md, c) :: ms).
    change (results manifest_member (sort_keys <$> (member_json <$> f :: l))) with
      (y ← manifest_member (sort_keys (member_json f));
       ys ← results manifest_member (sort_keys <$> (member_json <$> l)); Ok (E := protocol_error) (y :: ys)).
    rewrite E. cbn [mbind result_bind]. rewrite Ems. split; [done|]. cbn. rewrite E1, E2. f_equal. exact Em. }
  assert (forall c, c ∈ (metadata_by_camera ms).*1 <-> c ∈ (camera_of <$> frames)) as Hkeys.
  { intros c. rewrite metadata_by_camera_keys.
    replace ((fun m => m.1.1) <$> ms) with (fst <$> ((fun m => (m.1.1, (cc_camera_stream_id m.2, Some (cc_capture_config_digest m.2)))) <$> ms))
      by by rewrite <- list_fmap_compose.
    rewrite Em, <- list_fmap_compose. cbn. by rewrite sort_by_perm. }
  exists (sort_by config_leb ms.*2), (metadata_by_camera ms). split; [|split].
  - unfold _manifest_members, json_loads. rewrite Ej. unfold canonical_json.
    rewrite loads_dumps by apply payload_floats.
    destruct (payload_get_members s frames mode w span a key) as (rest & -> & Eg).
    cbn [mbind result_bind json_object]. rewrite Eg. cbn [mbind result_bind]. rewrite Ems. cbn [mbind result_bind].
    rewrite bool_decide_eq_true_2; [done|]. apply leibniz_equiv. intros c. rewrite !elem_of_list_to_set, Hkeys. by rewrite Hc.
  - apply sort_by_sorted; eauto with gc.
  - rewrite sort_by_perm.
    replace ((fun c => _) <$> ms.*2) with (snd <$> ((fun m => (m.1.1, (cc_camera_stream_id m.2, Some (cc_capture_config_digest m.2)))) <$> ms))
      by by rewrite <- !list_fmap_compose.
    rewrite Em, <- list_fmap_compose. cbn. by rewrite sort_by_perm.
Qed.

Definition demo_frame_of (camera : string) : StoredSyncFrame :=
  (store_frame (H := transparent_hashing) (v2_input camera "s" 1 100))
    <| sf_camera_stream_id := Some camera |> <| sf_capture_config_digest := Some "cfg" |>
    <| sf_capture_metadata_json := Some (dumps (JObj [("width", JInt 640); ("mirrored", JBool true)])) |>.

Definition demo_live_member (camera : string) : LiveFrameMember :=
  mkLiveFrameMember ("uid-" +:+ camera) "s" camera 1 100 "image/jpeg" 6
    (sha256_bytes (H := transparent_hashing) "pixels") ("/srv/" +:+ camera) None None None None.

Definition demo_claim : ClaimedFrameSet :=
  mkClaimedFrameSet (mkFrameSetKey "run" 1 "u1") (mkCreditIdentity "p" "e" "c") "cs" 100 100 0 1000 "digest"
    (canonical_json (JObj (_build_manifest_payload (Some "cs") [demo_frame_of "b"; demo_frame_of "a"] "V2" 50 0 100 None)))
    1000 [demo_live_member "a"; demo_live_member "b"] None None None None None None.

Lemma manifest_readable_witness : exists configs metadata,
  _manifest_members demo_claim = Ok (configs, metadata) /\ cc_camera_stream_id <$> configs = ["a"; "b"] /\
  ((fun c => (cc_camera_stream_id c, Some (cc_capture_config_digest c))) <$> configs) ≡ₚ
    [("b", Some "cfg"); ("a", Some "cfg")].
Proof.
  destruct (manifest_readable (H := transparent_hashing) demo_claim (Some "cs") [demo_frame_of "b"; demo_frame_of "a"]
    "V2" 50 0 100 None) as (configs & metadata & E & _ & Hp).
  - reflexivity.
  - repeat constructor; (eexists; split; [vm_compute; reflexivity|]); repeat split; vm_compute; congruence.
  - intros c. change (c ∈ ["a"; "b"] <-> c ∈ ["b"; "a"]). rewrite !elem_of_cons, !elem_of_nil. tauto.
  - exists configs, metadata. split; [exact E|]. split; [|exact Hp].
    change configs with (configs, metadata).1.
    assert (match _manifest_members demo_claim with Ok x => cc_camera_stream_id <$> x.1 = ["a"; "b"] | Raise _ => False end) as Hc
      by (vm_compute; reflexivity).
    rewrite E in Hc. exact Hc.
Defined.

Definition demo_processor_credit : ProcessorCredit := mkProcessorCredit (mkCreditScope "p" "e" "c") 5000 0 100 1000000 1 60000.
Definition demo_relay_session : NegotiatedSession := mkNegotiatedSession "job" "p" "e" 1000000 "profile".
Definition demo_protocol_config : ProtocolConfig := mkProtocolConfig "producer" (Some "profile") 10000 5 2 1 "STREAM_SERVER_UTC".
Definition demo_clock : credited_clock := mkCreditedClock (Some 20) (Some 2000) 20 30 2000.

Lemma credited_set_sound_witness : exists fs,
  build_credited_frame_set (H := transparent_hashing) (fun _ => Ok "pixels") (fun _ => "wire") demo_claim demo_processor_credit
    demo_relay_session demo_protocol_config 10 demo_clock = Ok (EnvFrameSet fs) /\
  cf_effective_deadline_utc_ms fs = 10095 /\ length (cf_frames fs) = 2%nat /\
  names_claim (H := transparent_hashing) demo_claim demo_processor_credit demo_relay_session fs.
Proof.
  destruct (build_credited_frame_set (H := transparent_hashing) (fun _ => Ok "pixels") (fun _ => "wire") demo_claim
    demo_processor_credit demo_relay_session demo_protocol_config 10 demo_clock) as [env|e] eqn:E; [|exfalso; revert E; vm_compute; discriminate].
  destruct (credited_set_sound (H := transparent_hashing) _ _ _ _ _ _ _ _ _ E) as (fs & -> & Hn & _).
  exists fs. split; [reflexivity|].
  assert (match build_credited_frame_set (H := transparent_hashing) (fun _ => Ok "pixels") (fun _ => "wire") demo_claim
      demo_processor_credit demo_relay_session demo_protocol_config 10 demo_clock with
    | Ok (EnvFrameSet fs) => cf_effective_deadline_utc_ms fs = 10095 /\ length (cf_frames fs) = 2%nat | _ => False end) as Hc
    by (vm_compute; split; reflexivity).
  rewrite E in Hc. destruct Hc as [H1 H2]. split; [exact H1|]. split; [exact H2|exact Hn].
Defined.
