(* ===== verification/RelayCredentials.v ===== *)
(** * Credentials of the processing relay

    src/app/services/relay_credentials.py: for the processing job of a
    claimed frame-set the Main server issues a token, asked for with a
    workload token of the client's own; the token is verified, must be for
    the claim, and is kept until shortly before it expires. The HTTP calls
    are parameters. Wall-clock readings are whole seconds where the code
    rounds them, and integers of one unit in the workload token's cache. *)

From Stdlib Require Import Ascii.
From S2P Require Import Prelude Json LatestLive SessionIdentity RelayProtocol.

Abbreviation claim_tenant_id := LatestLive.cl_tenant_id.
Abbreviation claim_site_id := LatestLive.cl_site_id.
Abbreviation claim_capture_session_id := LatestLive.cl_capture_session_id.
Abbreviation claim_processing_job_id := LatestLive.cl_processing_job_id.
Abbreviation claim_profile_digest := LatestLive.cl_profile_digest.

(** [RelayCredentialSessionInactive] is a [SessionTokenError]; the other two
    stand for exceptions of the HTTP client and for Python's [TypeError]. *)
Inductive relay_credential_error :=
| RelaySessionError (e : session_error)
| RelayCredentialSessionInactive
| RelayHttpError
| RelayTypeError.

Record ProcessingRelayScope := mkProcessingRelayScope {
  rsc_tenant_id : string;
  rsc_site_id : string;
  rsc_capture_session_id : string;
  rsc_processing_job_id : string;
  rsc_profile_digest : string;
  rsc_coordinator_subject : string;
  rsc_camera_ids : gset string;
  rsc_workload_subject : string;
  rsc_token_jti : string;
  rsc_expires_at : Z;
}.

#[export] Instance ProcessingRelayScope_settable : Settable ProcessingRelayScope := fun x => mkProcessingRelayScope
  (rsc_tenant_id x) (rsc_site_id x) (rsc_capture_session_id x) (rsc_processing_job_id x)
  (rsc_profile_digest x) (rsc_coordinator_subject x) (rsc_camera_ids x) (rsc_workload_subject x)
  (rsc_token_jti x) (rsc_expires_at x).

#[export] Instance ProcessingRelayScope_eq_dec : EqDecision ProcessingRelayScope.
Proof. solve_decision. Defined.

Definition matches_claim (s : ProcessingRelayScope) (claim : ClaimedFrameSet) : bool :=
  bool_decide (claim_tenant_id claim = Some (rsc_tenant_id s)) &&
  bool_decide (claim_site_id claim = Some (rsc_site_id s)) &&
  bool_decide (claim_capture_session_id claim = rsc_capture_session_id s) &&
  bool_decide (claim_processing_job_id claim = Some (rsc_processing_job_id s)) &&
  bool_decide (claim_profile_digest claim = Some (rsc_profile_digest s)) &&
  bool_decide (list_to_set (authorized_camera_ids claim) = rsc_camera_ids s).

(** ** The scope of a token *)

Definition RELAY_CREDENTIAL_REQUIRED_CLAIMS : list string :=
  ["iss"; "aud"; "sub"; "credential_kind"; "tenant_id"; "site_id"; "capture_session_id"; "processing_job_id";
   "profile_digest"; "coordinator_subject"; "camera_ids"; "iat"; "nbf"; "exp"; "jti"].

Definition _required_text (value : json) (claim_name : string) : result session_error string :=
  match value with
  | JStr text => if truthy (strip text) then Ok (strip text)
                 else Raise (SessionTokenError (claim_name +:+ " must be non-empty"))
  | _ => Raise (SessionTokenError (claim_name +:+ " must be non-empty"))
  end.

Definition _relay_scope_from_claims (c : claims) : result session_error ProcessingRelayScope :=
  _ ← raise_unless (is_text (claim "credential_kind" c) "PROCESSING_RELAY")
        (SessionTokenError "credential_kind must be PROCESSING_RELAY");
  profile_digest ← profile_digest_claim c;
  cameras ← camera_ids_claim c;
  expires_at ← int_claim "exp" c;
  tenant_id ← _canonical_uuid (claim "tenant_id" c) "tenant_id";
  site_id ← _canonical_uuid (claim "site_id" c) "site_id";
  capture_session_id ← _canonical_uuid (claim "capture_session_id" c) "capture_session_id";
  processing_job_id ← _canonical_uuid (claim "processing_job_id" c) "processing_job_id";
  coordinator_subject ← _required_text (claim "coordinator_subject" c) "coordinator_subject";
  workload_subject ← _required_text (claim "sub" c) "sub";
  token_jti ← _canonical_uuid (claim "jti" c) "jti";
  Ok (mkProcessingRelayScope tenant_id site_id capture_session_id processing_job_id profile_digest
        coordinator_subject cameras workload_subject token_jti expires_at).

(** [frozenset(value or [])]. *)
Fixpoint characters (s : string) : list json :=
  match s with EmptyString => [] | String c s => JStr (String c "") :: characters s end.

Definition is_container (v : json) : bool := match v with JList _ | JObj _ => true | _ => false end.

Definition frozen_elements (value : json) : result relay_credential_error (list json) :=
  if negb (json_bool value) then Ok []
  else match value with
       | JList l => if existsb is_container l then Raise RelayTypeError else Ok l
       | JObj fs => Ok (JStr <$> fs.*1)
       | JStr s => Ok (characters s)
       | _ => Raise RelayTypeError
       end.

Definition text_of (v : json) : option string := match v with JStr s => Some s | _ => None end.

(** The elements are the strings of [s], and nothing else. *)
Definition same_strings (l : list json) (s : gset string) : bool :=
  forallb (fun v => bool_decide (is_Some (text_of v))) l && bool_decide (list_to_set (omap text_of l) = s).

Definition _assert_response_matches_scope (payload : json) (s : ProcessingRelayScope)
    : result relay_credential_error unit :=
  match payload with
  | JObj c =>
      cameras ← frozen_elements (claim "cameraIds" c);
      raise_unless (is_text (claim "credentialId" c) (rsc_token_jti s) &&
                    is_text (claim "captureSessionId" c) (rsc_capture_session_id s) &&
                    is_text (claim "processingJobId" c) (rsc_processing_job_id s) &&
                    is_text (claim "credentialKind" c) "PROCESSING_RELAY" &&
                    same_strings cameras (rsc_camera_ids s))
        (RelaySessionError (SessionTokenError "Main relay credential response does not match its signed token"))
  | _ => Raise (RelaySessionError (SessionTokenError "Main relay credential response must be an object"))
  end.

(** ** The workload token *)

(** [duration] is the length a JSON float stands for, in the clock's unit. *)
Section Workload.
Context (duration : string -> Z).

Record WorkloadAccessToken := mkWorkloadAccessToken { wt_value : string; wt_expires_at : Z }.

Definition expires_in_of (v : json) : option Z :=
  match v with JFloat t => Some (duration t) | _ => int_of v end.

(** [None]: the request failed, or its answer is no JSON. *)
Definition token_resolve (cached : option WorkloadAccessToken) (refresh_skew now : Z) (answer : option json)
    : option WorkloadAccessToken * result relay_credential_error string :=
  let fetch :=
    match answer with
    | None => (cached, Raise RelayHttpError)
    | Some payload =>
        let field k := match payload with JObj c => claim k c | _ => JNull end in
        match field "access_token" with
        | JStr token =>
            if negb (truthy token)
            then (cached, Raise (RelaySessionError (SessionTokenError "workload token response is missing access_token")))
            else match expires_in_of (field "expires_in") with
                 | Some expires_in =>
                     if expires_in <=? 0
                     then (cached, Raise (RelaySessionError (SessionTokenError "workload token response has invalid expires_in")))
                     else (Some (mkWorkloadAccessToken token (now + expires_in)), Ok token)
                 | None => (cached, Raise (RelaySessionError (SessionTokenError "workload token response has invalid expires_in")))
                 end
        | _ => (cached, Raise (RelaySessionError (SessionTokenError "workload token response is missing access_token")))
        end
    end in
  match cached with
  | Some t => if now + refresh_skew <? wt_expires_at t then (cached, Ok (wt_value t)) else fetch
  | None => fetch
  end.
End Workload.

(** ** The provider *)

Section Provider.
Context `{PyJWT} (duration : string -> Z).

(** [assert] of the scope's expiry; no status is asked for. *)
Definition relay_scope_active (c : caches) (s : ProcessingRelayScope) (env : environment)
    : caches * result session_error unit :=
  if rsc_expires_at s <=? en_now_s env
  then (c, Raise (SessionTokenError "processing relay credential is expired")) else (c, Ok tt).

(** [ProcessingRelayCredentialVerifier.verify]. *)
Definition relay_verify := verify_with "processing relay credential" RELAY_CREDENTIAL_REQUIRED_CLAIMS
  _relay_scope_from_claims relay_scope_active.

Record relay_provider := mkRelayProvider {
  rv_access_token : option WorkloadAccessToken;
  rv_token_refresh_skew : Z;
  rv_verifier : verifier_config;
  rv_caches : caches;
  rv_refresh_skew_sec : Z;
  rv_credentials : gmap string (credential ProcessingRelayScope);
}.

Definition new_relay_provider (url_template : string) (token_refresh_skew refresh_skew_sec : Z)
    (verifier : verifier_config) (keys : JwksKeyCache) : result session_error relay_provider :=
  if negb (contains "{tenant_id}" url_template) || negb (contains "{processing_job_id}" url_template)
  then Raise (SessionValueError "relay credential URL must contain tenant_id and processing_job_id")
  else Ok (mkRelayProvider None token_refresh_skew verifier (mkCaches keys None None) refresh_skew_sec ∅).

(** The Main server's answer to the request for a credential. *)
Record issue_answer := mkIssueAnswer {
  is_status_code : Z;
  is_relay_token : option string;
  is_payload : option json;
}.

(** What one call meets: the clocks and the answers to its requests. *)
Record issue_environment := mkIssueEnvironment {
  ix_env : environment;
  ix_token_now : Z;
  ix_token_answer : option json;
  ix_answer : option issue_answer;
}.

Definition lift_session {A} (r : result session_error A) : result relay_credential_error A :=
  match r with Ok a => Ok a | Raise e => Raise (RelaySessionError e) end.

Definition with_caches (p : relay_provider) (c : caches) : relay_provider :=
  mkRelayProvider (rv_access_token p) (rv_token_refresh_skew p) (rv_verifier p) c (rv_refresh_skew_sec p) (rv_credentials p).

(** What follows the answer's status. *)
Definition accept_answer (p : relay_provider) (claim : ClaimedFrameSet) (env : issue_environment) (a : issue_answer)
    : relay_provider * result relay_credential_error (credential ProcessingRelayScope) :=
  match is_relay_token a with
  | None | Some EmptyString =>
      (p, Raise (RelaySessionError (SessionTokenError "Main relay credential response did not include the one-time token")))
  | Some relay_token =>
      match is_payload a with
      | None => (p, Raise RelayHttpError)
      | Some payload =>
          let '(c, r) := relay_verify (rv_verifier p) (rv_caches p) relay_token (ix_env env) in
          (with_caches p c,
           s ← lift_session r;
           _ ← raise_unless (matches_claim s claim)
                 (RelaySessionError (SessionTokenError "processing relay credential does not match the manifest scope"));
           _ ← _assert_response_matches_scope payload s;
           Ok (mkCredential relay_token s))
      end
  end.

Definition _issue (p : relay_provider) (claim : ClaimedFrameSet) (env : issue_environment)
    : relay_provider * result relay_credential_error (credential ProcessingRelayScope) :=
  let '(cached, token) :=
    token_resolve duration (rv_access_token p) (rv_token_refresh_skew p) (ix_token_now env) (ix_token_answer env) in
  let p := mkRelayProvider cached (rv_token_refresh_skew p) (rv_verifier p) (rv_caches p) (rv_refresh_skew_sec p)
             (rv_credentials p) in
  match token with
  | Raise e => (p, Raise e)
  | Ok _ =>
      match ix_answer env with
      | None => (p, Raise RelayHttpError)
      | Some a =>
          if is_status_code a =? 409 then (p, Raise RelayCredentialSessionInactive)
          else if negb ((200 <=? is_status_code a) && (is_status_code a <=? 299)) then (p, Raise RelayHttpError)
          else accept_answer p claim env a
      end
  end.

(** [self._credentials[processing_job_id] = self._issue(claim)]. *)
Definition issue_and_keep (p : relay_provider) (processing_job_id : string) (claim : ClaimedFrameSet)
    (env : issue_environment) : relay_provider * result relay_credential_error (credential ProcessingRelayScope) :=
  match _issue p claim env with
  | (p, Raise e) => (p, Raise e)
  | (p, Ok c) =>
      (mkRelayProvider (rv_access_token p) (rv_token_refresh_skew p) (rv_verifier p) (rv_caches p)
         (rv_refresh_skew_sec p) (<[processing_job_id := c]> (rv_credentials p)), Ok c)
  end.

Definition relay_resolve_for_claim (p : relay_provider) (claim : ClaimedFrameSet) (env : issue_environment)
    : relay_provider * result relay_credential_error (credential ProcessingRelayScope) :=
  if negb (truthy_opt (claim_processing_job_id claim))
  then (p, Raise (RelaySessionError (SessionTokenError "manifest is missing processing_job_id")))
  else
    let processing_job_id := default "" (claim_processing_job_id claim) in
    match rv_credentials p !! processing_job_id with
    | Some existing =>
        if (en_now_s (ix_env env) + rv_refresh_skew_sec p <? rsc_expires_at (cd_scope existing)) &&
           matches_claim (cd_scope existing) claim
        then (p, Ok existing) else issue_and_keep p processing_job_id claim env
    | None => issue_and_keep p processing_job_id claim env
    end.

Definition relay_provider_clear (p : relay_provider) : relay_provider :=
  mkRelayProvider (rv_access_token p) (rv_token_refresh_skew p) (rv_verifier p) (rv_caches p) (rv_refresh_skew_sec p) ∅.

End Provider.

(** ** What the provider hands out *)

Section Handed.
Context `{PyJWT} (duration : string -> Z).

(** One call: its claim and what it meets. *)
Definition relay_call : Type := ClaimedFrameSet * issue_environment.

(** The credential was issued in this call: the Main server answered with
    its token, PyJWT verified the token against a key of the JWKS with the
    configured issuer and audience and all required claims, its scope is
    that of the verified claims, had not expired, is the claim's, and the
    answer names it. *)
Definition issued_in (v : verifier_config) (c : credential ProcessingRelayScope) (call : relay_call) : Prop :=
  exists a payload kid key keys decoded,
    ix_answer call.2 = Some a /\ 200 <= is_status_code a <= 299 /\ is_relay_token a = Some (cd_token c) /\
    is_payload a = Some payload /\ _assert_response_matches_scope payload (cd_scope c) = Ok tt /\
    dict_get kid (jk_keys keys) = Some key /\ keys_fresh keys (ix_env call.2) /\
    jwt_decode (cd_token c) key (vc_issuer v) (vc_audience v) (vc_leeway_sec v) RELAY_CREDENTIAL_REQUIRED_CLAIMS
      (en_now_s (ix_env call.2)) = Some decoded /\
    _relay_scope_from_claims decoded = Ok (cd_scope c) /\
    en_now_s (ix_env call.2) < rsc_expires_at (cd_scope c) /\
    matches_claim (cd_scope c) call.1 = true.

Definition provider_ok (v : verifier_config) (past : list relay_call) (p : relay_provider) : Prop :=
  rv_verifier p = v /\
  forall job c, rv_credentials p !! job = Some c -> exists call, call ∈ past /\ issued_in v c call.

Lemma accept_answer_Ok p claim env a p' c : accept_answer p claim env a = (p', Ok c) ->
  ix_answer env = Some a -> 200 <= is_status_code a <= 299 ->
  issued_in (rv_verifier p) c (claim, env) /\ exists cs, p' = with_caches p cs.
Proof.
  intros E Ha Hs. unfold accept_answer in E. destruct (is_relay_token a) as [[|x t]|] eqn:Et; try done.
  destruct (is_payload a) as [payload|] eqn:Ep; [|done].
  destruct (relay_verify _ _ _ _) as [cs r] eqn:Ev. injection E as <- E.
  apply result_bind_Ok in E as (s & Er & E). destruct r as [s'|]; [|done]. injection Er as ->.
  apply raise_unless_bind in E as [Hm E]. apply result_bind_Ok in E as ([] & Hr & [= <-]).
  apply verify_with_Ok in Ev as (alg & kid & keys & key & decoded & _ & _ & Hg & Hf & Hd & Hsc & Hact).
  unfold relay_scope_active in Hact. destruct (Z.leb_spec (rsc_expires_at s) (en_now_s (ix_env env))); [done|].
  split; [|eauto]. exists a, payload, kid, key, keys, decoded. cbn. split_and!; try done; lia.
Qed.

(** A request changes the stored credentials only by adding the one it
    returns. *)
Lemma issue_cases p claim env p' r : _issue duration p claim env = (p', r) ->
  rv_verifier p' = rv_verifier p /\ rv_credentials p' = rv_credentials p /\ rv_refresh_skew_sec p' = rv_refresh_skew_sec p /\
  forall c, r = Ok c -> issued_in (rv_verifier p) c (claim, env).
Proof.
  unfold _issue. destruct (token_resolve _ _ _ _ _) as [cached [token|e]]; [|by intros [= <- <-]].
  destruct (ix_answer env) as [a|] eqn:Ea; [|by intros [= <- <-]].
  destruct (is_status_code a =? 409); [by intros [= <- <-]|].
  destruct (negb _) eqn:Es; [by intros [= <- <-]|]. apply negb_false_iff, andb_true_iff in Es as [H1 H2].
  set (q := mkRelayProvider _ _ _ _ _ _). intros E. destruct r as [c|e].
  - apply accept_answer_Ok in E as [Hi [cs ->]]; [|done|lia]. split_and!; [done..|]. by intros ? [= <-].
  - unfold accept_answer in E. destruct (is_relay_token a) as [[|x t]|]; [by injection E as <- _| |by injection E as <- _].
    destruct (is_payload a); [|by injection E as <- _].
    destruct (relay_verify _ _ _ _) as [cs r']. by injection E as <- _.
Qed.

Lemma issued_facts v c call : issued_in v c call ->
  matches_claim (cd_scope c) call.1 = true /\ en_now_s (ix_env call.2) < rsc_expires_at (cd_scope c).
Proof. intros (a & payload & kid & key & keys & decoded & _ & _ & _ & _ & _ & _ & _ & _ & _ & ? & ?). done. Qed.

(** What is handed out in a call after the calls [past]: a credential of the
    call itself, or one of an earlier call that does not expire within the
    refresh skew. *)
Definition handed_out (v : verifier_config) (skew : Z) (past : list relay_call) (call : relay_call)
    (c : credential ProcessingRelayScope) : Prop :=
  matches_claim (cd_scope c) call.1 = true /\
  (issued_in v c call \/
   exists call', call' ∈ past /\ issued_in v c call' /\ en_now_s (ix_env call.2) + skew < rsc_expires_at (cd_scope c)).

Lemma issue_and_keep_step v past p job claim env p' r : provider_ok v past p ->
  issue_and_keep duration p job claim env = (p', r) ->
  provider_ok v (past ++ [(claim, env)]) p' /\ rv_refresh_skew_sec p' = rv_refresh_skew_sec p /\
  forall c, r = Ok c -> handed_out v (rv_refresh_skew_sec p) past (claim, env) c.
Proof.
  intros [Hv Hok] E. unfold issue_and_keep in E.
  destruct (_issue duration p claim env) as [p1 r1] eqn:Ei. apply issue_cases in Ei as (V1 & V2 & V3 & Hi).
  rewrite Hv in V1, Hi.
  assert (forall job c, rv_credentials p1 !! job = Some c ->
    exists call, call ∈ past ++ [(claim, env)] /\ issued_in v c call) as Hold.
  { intros k c Hc. rewrite V2 in Hc. destruct (Hok k c Hc) as (call & Hin & Hc'). exists call. split; [set_solver|done]. }
  assert ((claim, env) ∈ past ++ [(claim, env)]) as Hlast by set_solver.
  destruct r1 as [c|e]; injection E as <- <-.
  - pose proof (Hi c eq_refl) as Hc. split; [split; [done|]|split; [done|]].
    + cbn. intros k x [[<- <-]|[_ Hx]]%lookup_insert_Some; [by exists (claim, env)|by apply (Hold k)].
    + intros ? [= <-]. destruct (issued_facts _ _ _ Hc) as [H1 _]. split; [done|by left].
  - by split; [split|].
Qed.

Lemma provider_step v past p claim env p' r : provider_ok v past p ->
  relay_resolve_for_claim duration p claim env = (p', r) ->
  provider_ok v (past ++ [(claim, env)]) p' /\ rv_refresh_skew_sec p' = rv_refresh_skew_sec p /\
  forall c, r = Ok c -> handed_out v (rv_refresh_skew_sec p) past (claim, env) c.
Proof.
  intros Hp E.
  assert (provider_ok v (past ++ [(claim, env)]) p) as Hok'.
  { destruct Hp as [Hv Hok]. split; [done|]. intros job c Hc. destruct (Hok job c Hc) as (call & Hin & Hi).
    exists call. split; [set_solver|done]. }
  unfold relay_resolve_for_claim in E. destruct (negb _); [by injection E as <- <-|].
  set (job := default "" _) in E.
  destruct (rv_credentials p !! job) as [old|] eqn:Eo; [|by eapply issue_and_keep_step].
  destruct (_ && _) eqn:Eb; [|by eapply issue_and_keep_step].
  injection E as <- <-. apply andb_true_iff in Eb as [Hx Hm]. split; [done|]. split; [done|].
  intros c [= <-]. split; [done|]. right. destruct (proj2 Hp job old Eo) as (call & Hin & Hi).
  exists call. split; [done|]. split; [done|]. cbn. lia.
Qed.

Lemma resolve_matches p claim env p' c : relay_resolve_for_claim duration p claim env = (p', Ok c) ->
  matches_claim (cd_scope c) claim = true.
Proof.
  unfold relay_resolve_for_claim, issue_and_keep. destruct (negb _); [done|]. set (job := default "" _).
  assert (forall q, (match _issue duration p claim env with (p, Raise e) => (p, Raise e) | (p, Ok c) => (q p c, Ok c) end)
    = (p', Ok c) -> matches_claim (cd_scope c) claim = true) as Hi.
  { intros q E. destruct (_issue duration p claim env) as [p1 [c1|e]] eqn:Ei; [|done].
    apply issue_cases in Ei as (_ & _ & _ & Hc). injection E as _ <-. by destruct (issued_facts _ _ _ (Hc c1 eq_refl)). }
  destruct (rv_credentials p !! job) as [old|]; [|apply Hi].
  destruct (_ && _) eqn:Eb; [|apply Hi]. intros [= _ <-]. by apply andb_true_iff in Eb as [_ ?].
Qed.

Fixpoint provider_run (p : relay_provider) (calls : list relay_call)
    : relay_provider * list (relay_call * result relay_credential_error (credential ProcessingRelayScope)) :=
  match calls with
  | [] => (p, [])
  | call :: calls =>
      let '(p, r) := relay_resolve_for_claim duration p call.1 call.2 in
      let '(p, rest) := provider_run p calls in (p, (call, r) :: rest)
  end.

Lemma provider_run_ok v calls : forall past p, provider_ok v past p ->
  forall p' out, provider_run p calls = (p', out) ->
  provider_ok v (past ++ calls) p' /\
  forall n call c, out !! n = Some (call, Ok c) ->
    calls !! n = Some call /\ handed_out v (rv_refresh_skew_sec p) (past ++ take n calls) call c.
Proof.
  induction calls as [|[claim env] calls IH]; intros past p Hp p' out E; cbn [provider_run] in E.
  { injection E as <- <-. rewrite app_nil_r. split; [done|]. by intros [|n]. }
  cbn [fst snd] in E. destruct (relay_resolve_for_claim duration p claim env) as [p1 r] eqn:Er.
  destruct (provider_run p1 calls) as [p2 rest] eqn:Ep. injection E as <- <-.
  destruct (provider_step v past p claim env p1 r Hp Er) as (Hp1 & Hs & Hr).
  destruct (IH _ _ Hp1 _ _ Ep) as [Hp2 Hrest].
  rewrite <- app_assoc in Hp2. split; [exact Hp2|]. intros [|n] call c Hn; cbn in Hn |- *.
  - injection Hn as <- ->. rewrite app_nil_r. split; [done|]. by apply Hr.
  - destruct (Hrest n call c Hn) as [H1 H2]. rewrite <- app_assoc, Hs in H2. by split.
Qed.
End Handed.

(** ** The provider as its client sees it

    [relay_credential_provider] of the live client: it answers with a
    credential of the claim, or with an exception. *)
Class RelayCredentialProvider (S E : Type) := {
  resolve_credential : S -> ClaimedFrameSet -> E -> S * result relay_credential_error (credential ProcessingRelayScope);
  resolve_credential_matches p claim env p' c :
    resolve_credential p claim env = (p', Ok c) -> matches_claim (cd_scope c) claim = true;
}.

#[export] Instance main_relay_credentials `{PyJWT} duration : RelayCredentialProvider relay_provider issue_environment := {
  resolve_credential := relay_resolve_for_claim duration;
  resolve_credential_matches := resolve_matches duration;
}.

(** C22: Every credential the provider hands out, over any calls of a new
    provider whose refresh skew is not negative, is for the claim it is handed out for - tenant, site, session,
    job, profile and exactly the claim's cameras -, has not expired, and was
    issued in this call, or in an earlier one and then it does not expire
    within the refresh skew either. Issued: the Main server answered with its
    token, PyJWT verified it against a fresh key of the JWKS with the
    configured issuer, audience and claims, its scope is that of the verified
    claims, and the answer names the same credential, session, job and
    cameras. *)
Theorem relay_credentials_verified `{PyJWT} duration url token_skew skew v keys p0 calls p out :
  0 <= skew -> new_relay_provider url token_skew skew v keys = Ok p0 -> provider_run duration p0 calls = (p, out) ->
  forall n call c, out !! n = Some (call, Ok c) ->
    calls !! n = Some call /\ matches_claim (cd_scope c) call.1 = true /\
    en_now_s (ix_env call.2) < rsc_expires_at (cd_scope c) /\
    (issued_in v c call \/
     exists call', call' ∈ take n calls /\ issued_in v c call' /\
       en_now_s (ix_env call.2) + skew < rsc_expires_at (cd_scope c)).
Proof.
  intros Hskew Hnew E n call c Hn. unfold new_relay_provider in Hnew. destruct (_ || _); [done|]. injection Hnew as <-.
  eapply (provider_run_ok duration v calls []) in E as [_ Hout];
    [|split; [done|]; cbn; intros job x Hx; by rewrite lookup_empty in Hx].
  destruct (Hout n call c Hn) as (H0 & H1 & H2). cbn [app rv_refresh_skew_sec] in H2. split; [done|]. split; [done|].
  split; [|done]. destruct H2 as [Hi|(call' & _ & _ & Hx)]; [|lia]. by destruct (issued_facts _ _ _ Hi).
Qed.

(** A token of the claim's job, and the answers that carry it. *)
Definition demo_relay_claims : claims :=
  [("credential_kind", JStr "PROCESSING_RELAY"); ("sub", JStr "stream"); ("coordinator_subject", JStr "coordinator");
   ("tenant_id", JStr demo_uuid); ("site_id", JStr demo_uuid); ("capture_session_id", JStr demo_uuid);
   ("processing_job_id", JStr demo_uuid); ("camera_ids", JList [JStr demo_uuid]);
   ("profile_digest", JStr "0123456789abcdef0123456789abcdef0123456789abcdef0123456789abcdef");
   ("exp", JInt 200); ("jti", JStr demo_uuid)].

Definition demo_relay_jwt : PyJWT := {|
  PyJWK := string;
  from_dict c := match claim "kid" c with JStr s => Some s | _ => None end;
  get_unverified_header t := if String.eqb t "token" then Some (JStr "RS256", Some "k1") else None;
  jwt_decode t key issuer audience leeway required now_s :=
    if String.eqb t "token" && (now_s <? 200 + leeway) then Some demo_relay_claims else None;
  jwt_decode_unverified t := None;
|}.

Definition demo_job_claim : ClaimedFrameSet :=
  demo_claim <| LatestLive.cl_tenant_id := Some demo_uuid |> <| LatestLive.cl_site_id := Some demo_uuid |>
    <| LatestLive.cl_capture_session_id := demo_uuid |> <| LatestLive.cl_processing_job_id := Some demo_uuid |>
    <| LatestLive.cl_profile_digest := Some "0123456789abcdef0123456789abcdef0123456789abcdef0123456789abcdef" |>
    <| cl_members := [(demo_live_member "a") <| lm_authorized_camera_id := Some demo_uuid |>] |>.

Definition demo_issue_environment : issue_environment :=
  mkIssueEnvironment (demo_environment 100) 100
    (Some (JObj [("access_token", JStr "workload"); ("expires_in", JInt 300)]))
    (Some (mkIssueAnswer 200 (Some "token") (Some (JObj [("credentialId", JStr demo_uuid);
      ("captureSessionId", JStr demo_uuid); ("processingJobId", JStr demo_uuid);
      ("credentialKind", JStr "PROCESSING_RELAY"); ("cameraIds", JList [JStr demo_uuid])])))).

Definition demo_relay_provider : relay_provider (H := demo_relay_jwt) :=
  mkRelayProvider (H := demo_relay_jwt) None 15 (mkVerifierConfig "main" "stream" 5)
    (mkCaches (H := demo_relay_jwt) (mkJwksKeyCache (H := demo_relay_jwt) 300 [] None) None None) 15 ∅.

(** The second call is answered with the credential of the first. *)
Definition demo_relay_calls : list relay_call :=
  [(demo_job_claim, demo_issue_environment);
   (demo_job_claim, mkIssueEnvironment (demo_environment 150) 150 None None)].

Lemma relay_credentials_verified_witness :
  exists p c, provider_run (H := demo_relay_jwt) (fun _ => 0) demo_relay_provider demo_relay_calls =
      (p, (fun call => (call, Ok c)) <$> demo_relay_calls) /\
    cd_token c = "token" /\ matches_claim (cd_scope c) demo_job_claim = true /\ 150 < rsc_expires_at (cd_scope c).
Proof.
  destruct (provider_run (H := demo_relay_jwt) (fun _ => 0) demo_relay_provider demo_relay_calls) as [p out] eqn:E.
  assert (exists c, out = (fun call => (call, Ok c)) <$> demo_relay_calls /\ cd_token c = "token") as (c & Ec & Ht).
  { change out with (p, out).2. rewrite <- E. vm_compute. eexists. split; reflexivity. }
  exists p, c. subst out. split; [reflexivity|]. split; [exact Ht|].
  destruct (relay_credentials_verified (H := demo_relay_jwt) (fun _ => 0) "/{tenant_id}/{processing_job_id}" 15 15 _ _ _ _ _ _
    ltac:(lia) eq_refl E 1%nat (demo_job_claim, mkIssueEnvironment (demo_environment 150) 150 None None) c eq_refl)
    as (_ & H1 & H2 & _).
  split; [exact H1|exact H2].
Defined.
