(* ===== verification/Backoff.v ===== *)
(** * The backoff between two connections

    [ReconnectBackoff] of src/app/infrastructure/grpc/live_relay_v2_client.py:
    how long the client waits before its next attempt. *)

From S2P Require Import Prelude Float64.

Record ReconnectBackoff := mkReconnectBackoff { initial_sec : float64; maximum_sec : float64; jitter_ratio : float64 }.

(** The defaults: 0.1, 5.0 and 0.2 seconds. *)
Definition default_backoff : ReconnectBackoff :=
  mkReconnectBackoff (decimal_float false 1 (-1)) (float_of 5 0 false) (decimal_float false 2 (-1)).

Definition two : float64 := float_of 2 0 false.

(** The product of a float and an [int] rounds the [int] first. *)
Definition backoff_base (b : ReconnectBackoff) (attempt : Z) : result float_error float64 :=
  factor ← float_of_int (2 ^ Z.max attempt 0);
  let x := float_mul (initial_sec b) factor in
  Ok (if float_ltb x (maximum_sec b) then x else maximum_sec b).

(** [random_value]: what [random.random] gives. *)
Definition delay (b : ReconnectBackoff) (attempt : Z) (random_value : float64) : result float_error float64 :=
  base ← backoff_base b attempt;
  let jitter := float_mul (float_sub (float_mul random_value two) float_one) (jitter_ratio b) in
  let x := float_mul base (float_add float_one jitter) in
  Ok (if float_ltb float_zero x then x else float_zero).

(** ** How many attempts it has a delay for *)

(** A power of two beyond the exponents of a float. *)
Lemma float_of_int_large n : 1024 <= n -> float_of_int (2 ^ n) = Raise FloatOverflowError.
Proof.
  intros Hn. unfold float_of_int, float_of. destruct (2 ^ n) as [|p|p] eqn:Ep; [lia| |lia]. cbn [binary_normalize]. unfold binary_round.
  assert (Z.pos (digits2_pos p) = n + 1) as Hd.
  { apply (digits2_exact (Z.pos p)); [replace (n + 1 - 1) with n by lia; lia|rewrite <- Ep; apply Z.pow_lt_mono_r; lia|lia]. }
  rewrite Hd. assert (fexp prec64 emax64 (n + 1 + 0) = n - 52) as -> by (unfold fexp, emin, prec64, emax64; lia).
  assert (shl_align p 0 (n - 52) = (p, 0)) as -> by (unfold shl_align; destruct (n - 52 - 0) eqn:E; [lia|done|lia]).
  unfold binary_round_aux. assert (Hs : exists r, shr_fexp prec64 emax64 (Z.pos p) 0 loc_Exact = (r, n - 52) /\ shr_m r = 2 ^ 52).
  { unfold shr_fexp. cbn [Zdigits2]. rewrite Hd. assert (fexp prec64 emax64 (n + 1 + 0) - 0 = n - 52) as -> by (unfold fexp, emin, prec64, emax64; lia).
    unfold shr. destruct (n - 52) as [|k|k] eqn:Ek; [lia| |lia]. eexists. split; [reflexivity|].
    rewrite iter_shr_1 by (cbn; lia). cbn [shr_record_of_loc shr_m]. rewrite <- Ep, <- Ek, <- Z.pow_sub_r by lia. f_equal. lia. }
  destruct Hs as (r & -> & Hr). pose proof (round_nearest_even_bound (shr_m r) (loc_of_shr_record r)) as Hb.
  set (m1 := round_nearest_even _ _) in *. rewrite Hr in Hb.
  assert (shr_fexp prec64 emax64 m1 (n - 52) loc_Exact = (shr_record_of_loc m1 loc_Exact, n - 52)) as ->.
  { unfold shr_fexp. rewrite (digits2_exact m1 53) by lia.
    assert (fexp prec64 emax64 (53 + (n - 52)) - (n - 52) = 0) as -> by (unfold fexp, emin, prec64, emax64; lia). done. }
  cbn [shr_m shr_record_of_loc]. destruct m1 as [|q|q]; [lia| |lia]. rewrite (proj2 (Z.leb_gt _ _)) by (unfold emax64, prec64; lia). done.
Qed.

Lemma float_of_int_power n : 0 <= n -> (exists x, float_of_int (2 ^ n) = Ok x) <-> n < 1024.
Proof.
  intros Hn. split; [intros [x Hx]; destruct (Z.lt_ge_cases n 1024) as [|Hl]; [done|by rewrite float_of_int_large in Hx]|]. intros Hl.
  assert (forallb (fun k => match float_of_int (2 ^ Z.of_nat k) with Ok _ => true | Raise _ => false end) (seq 0 1024) = true) as H by (vm_compute; done).
  rewrite forallb_forall in H. specialize (H (Z.to_nat n)). rewrite Z2Nat.id in H by lia. rewrite in_seq in H. specialize (H ltac:(lia)).
  destruct (float_of_int (2 ^ n)); [by eexists|done].
Qed.

(** A client that has failed too often in a row has no delay: the [int]
    does not fit a float. *)
Lemma delay_defined b attempt random_value : (exists d, delay b attempt random_value = Ok d) <-> attempt < 1024.
Proof.
  unfold delay, backoff_base. pose proof (float_of_int_power (Z.max attempt 0) ltac:(lia)) as Hp. split.
  - intros [d Hd]. destruct (float_of_int _) as [x|e]; [|done]. assert (Z.max attempt 0 < 1024) by (apply Hp; by eexists). lia.
  - intros Ha. destruct (proj2 Hp ltac:(lia)) as [x ->]. cbn. by eexists.
Qed.

Lemma delay_overflows b attempt random_value : 1024 <= attempt -> delay b attempt random_value = Raise FloatOverflowError.
Proof. intros Ha. unfold delay, backoff_base. by rewrite float_of_int_large by lia. Qed.

(** By default it doubles from a tenth of a second, up to five seconds. *)
Example default_bases : backoff_base default_backoff 0 = Ok (decimal_float false 1 (-1)) /\
  backoff_base default_backoff 3 = Ok (decimal_float false 8 (-1)) /\
  (fun k => backoff_base default_backoff (Z.of_nat k)) <$> seq 6 1018 = replicate 1018 (Ok (float_of 5 0 false)).
Proof. vm_compute. done. Qed.
