(* ===== verification/LiveClient.v ===== *)
(** * The live relay client

    src/app/infrastructure/grpc/live_relay_v2_client.py: one thread keeps a
    stream to the processor, says hello with the newest frame-set, reconciles
    what was in flight, and answers every credit with one frame-set or with
    the reason why there is none. The pipeline commits to the same database
    meanwhile; a handler's transactions are separated by what it commits.
    gRPC gives the envelopes; [outgoing] blocks when it holds two, so nothing
    put on it is lost while the connection lasts. *)

From S2P Require Import Prelude Json Float64 Digest Identity SyncModels Database ManifestStore LatestLive.
From S2P Require Import SessionIdentity RelayProtocol RelayCredentials Backoff.

Inductive client_error :=
| ClientProtocolError (e : protocol_error)
| ClientStoreError (e : live_error)
| ClientCredentialError (e : relay_credential_error)
| PermanentRelayError (message : string)
| CaptureRunChanged
| ClientRuntimeError (message : string)
| ClientValueError (message : string)
| ClientRpcError (text : string).

(** The store's database and what the handlers of one connection change: what was put on [outgoing], in order, and the counters. *)
Record client_state := mkClientState {
  ct_db : database;
  ct_outgoing : list ProducerEnvelope;
  ct_offered_count : Z;
  ct_no_data_count : Z;
  ct_connection_count : Z;
}.

#[export] Instance client_state_settable : Settable client_state := fun x => mkClientState
  (ct_db x) (ct_outgoing x) (ct_offered_count x) (ct_no_data_count x) (ct_connection_count x).


(** What one credit meets: readings of the clocks ([ce_store_ms] is the store's own), whether [stop] was called, and what the ingest pipeline commits between the transactions of the handler. *)
Record credit_environment := mkCreditEnvironment {
  ce_received_monotonic : Z;
  ce_now_monotonic : Z;
  ce_offered_at_ms : Z;
  ce_now_utc_ms : Z;
  ce_store_ms : Z;
  ce_stopped : bool;
  ce_before_preview : database -> database;
  ce_before_claim : database -> database;
  ce_during_claim : database -> database;
  ce_before_release : database -> database;
}.

#[export] Instance credit_environment_settable : Settable credit_environment := fun x => mkCreditEnvironment
  (ce_received_monotonic x) (ce_now_monotonic x) (ce_offered_at_ms x) (ce_now_utc_ms x)
  (ce_store_ms x) (ce_stopped x) (ce_before_preview x) (ce_before_claim x) (ce_during_claim x)
  (ce_before_release x).

Section Client.
Context `{Hashing}.
Context (read_bytes : string -> result string string) (serialize : ProducerEnvelope -> string).

Definition lift_protocol {A} (r : result protocol_error A) : result client_error A :=
  match r with Ok a => Ok a | Raise e => Raise (ClientProtocolError e) end.
Definition lift_store {A} (r : result live_error A) : result client_error A :=
  match r with Ok a => Ok a | Raise e => Raise (ClientStoreError e) end.

Definition _bind_relay_scope (claim : ClaimedFrameSet) (scope : option ProcessingRelayScope)
    : result client_error ClaimedFrameSet :=
  match scope with
  | None => Ok claim
  | Some s =>
      if matches_claim s claim
      then Ok (claim <| LatestLive.cl_authorized_subject := Some (rsc_coordinator_subject s) |>
                     <| LatestLive.cl_session_token_jti := Some (rsc_token_jti s) |>)
      else Raise (PermanentRelayError "processing relay credential does not match current frame set")
  end.

Definition put (st : client_state) (m : ProducerEnvelope) : client_state := st <| ct_outgoing ::= fun l => l ++ [m] |>.

(** [newest_known=store.offered_watermark()]. *)
Definition watermark_key (w : option (option string * option Z * string)) : option FrameSetKey :=
  '(run, id, uid) ← w; Some (mkFrameSetKey (default "" run) (default 0 id) uid).

Definition answer_no_data (st : client_state) (credit : ProcessorCredit) (reason : string)
    (newest_known : option FrameSetKey) : client_state * result client_error unit :=
  match build_no_data credit reason newest_known with
  | Ok m => (put st m, Ok tt)
  | Raise e => (st, Raise (ClientProtocolError e))
  end.

(** [release_before_send] of the claimed frame-set, in an [except] clause. *)
Definition release_claim (st : client_state) (env : credit_environment) (key : FrameSetKey) (state reason : string)
    : client_state * result client_error unit :=
  let '(db, r) := release_before_send (ce_before_release env (ct_db st)) key state reason None (ce_store_ms env) in
  (st <| ct_db := db |>, lift_store (_ ← r; Ok tt)).

(** A frame-set that cannot be sent is released and the credit answered. *)
Definition refuse_claim (st : client_state) (env : credit_environment) (credit : ProcessorCredit) (key : FrameSetKey)
    (state reason no_data_reason : string) : client_state * result client_error unit :=
  let '(st, r) := release_claim st env key state reason in
  match r with
  | Raise e => (st, Raise e)
  | Ok _ => answer_no_data st credit no_data_reason (Some key)
  end.

Definition exception_name (e : protocol_error) : string :=
  match e with ArchiveReadError name => name | _ => "ArchiveIntegrityError" end.

(** What follows the claim: the payload, or the [except] clause it ends in. *)
Definition send_claim (st : client_state) (env : credit_environment) (credit : ProcessorCredit)
    (session : NegotiatedSession) (config : ProtocolConfig) (claim : ClaimedFrameSet)
    : client_state * result client_error unit :=
  let key := cl_key claim in
  match build_credited_frame_set read_bytes serialize claim credit session config (ce_received_monotonic env)
          (mkCreditedClock (Some (ce_now_monotonic env)) (Some (ce_now_utc_ms env)) 0 0 0) with
  | Raise (FrameSetExpired _) =>
      refuse_claim st env credit key "EXPIRED_BEFORE_OFFER" "DEADLINE_EXPIRED_BEFORE_SEND" "EXPIRED_BEFORE_OFFER"
  | Raise (ArchiveIntegrityError _ as e) | Raise (ArchiveReadError _ as e) =>
      refuse_claim st env credit key "REJECTED" ("INTEGRITY_ERROR:" +:+ exception_name e) "INTEGRITY_ERROR"
  | Raise (PayloadLimitExceeded _ _) =>
      refuse_claim st env credit key "REJECTED" "PAYLOAD_TOO_LARGE" "PAYLOAD_TOO_LARGE"
  | Raise (CreditRejected _ as e) =>
      let '(st, r) := release_claim st env key "REJECTED" "CREDIT_EXPIRED" in
      match r with Raise e' => (st, Raise e') | Ok _ => (st, Raise (ClientProtocolError e)) end
  | Raise e => (st, Raise (ClientProtocolError e))
  | Ok payload =>
      if ce_stopped env
      then let '(db, r) := mark_unresolved (ce_before_release env (ct_db st)) key "SHUTDOWN_INTERRUPTED" None
                             (ce_store_ms env) in
           (st <| ct_db := db |>, lift_store (_ ← r; Ok tt))
      else ((put st payload) <| ct_offered_count ::= Z.succ |>, Ok tt)
  end.

Definition run_changed (preview : option ClaimedFrameSet) (expected_capture_run_id : option string) : bool :=
  match preview, expected_capture_run_id with
  | Some claim, Some run => negb (bool_decide (key_capture_run_id (cl_key claim) = run))
  | _, _ => false
  end.

Definition _handle_credit (st : client_state) (env : credit_environment) (credit : ProcessorCredit)
    (session : NegotiatedSession) (expected_capture_run_id : option string) (config : ProtocolConfig)
    (relay_scope : option ProcessingRelayScope) : client_state * result client_error unit :=
  match credit_identity credit session with
  | Raise e => (st, Raise (ClientProtocolError e))
  | Ok identity =>
      let st := st <| ct_db ::= ce_before_preview env |> in
      match snapshot_for_hello (ct_db st) with
      | Raise e => (st, Raise (ClientStoreError e))
      | Ok preview =>
          if run_changed preview expected_capture_run_id then (st, Raise CaptureRunChanged)
          else
            let read := ce_before_claim env (ct_db st) in
            let '(db, r) := claim_latest read (ce_during_claim env read) identity (Some (ce_offered_at_ms env))
                              (ce_store_ms env) in
            let st := st <| ct_db := db |> in
            match r with
            | Raise e => (st, Raise (ClientStoreError e))
            | Ok None =>
                let '(st, r) := answer_no_data st credit "NO_DATA" (watermark_key (offered_watermark db)) in
                match r with
                | Raise e => (st, Raise e)
                | Ok _ => (st <| ct_no_data_count ::= Z.succ |>, Ok tt)
                end
            | Ok (Some claim) =>
                match _bind_relay_scope claim relay_scope with
                | Raise e => (st, Raise e)
                | Ok claim => send_claim st env credit session config claim
                end
            end
      end
  end.

(** ** Statuses and reconciliation *)

(** What the pipeline commits before each transaction. *)
Definition interference := nat -> database -> database.

Definition _apply_status (db : database) (status : FrameStatusEvent) (store_ms : Z)
    : database * result client_error unit :=
  match enum_name attempt_state_names (se_state status), enum_name reason_names (se_reason status) with
  | Ok state, Ok reason =>
      let '(db, r) := apply_remote_status db (se_key status) state (Some reason) None store_ms in
      (db, lift_store (_ ← r; Ok tt))
  | Raise e, _ | _, Raise e => (db, Raise (ClientProtocolError e))
  end.

Fixpoint apply_statuses (db : database) (others : interference) (n : nat) (statuses : list FrameStatusEvent) (store_ms : Z)
    : database * result client_error unit :=
  match statuses with
  | [] => (db, Ok tt)
  | status :: statuses =>
      match _apply_status (others n db) status store_ms with
      | (db, Raise e) => (db, Raise e)
      | (db, Ok _) => apply_statuses db others (S n) statuses store_ms
      end
  end.

(** The loop over [store.unresolved_keys()]. *)
Fixpoint resolve_missing (db : database) (others : interference) (n : nat) (seen : list string)
    (unresolved : list FrameSetKey) (store_ms : Z) : database * result client_error unit :=
  match unresolved with
  | [] => (db, Ok tt)
  | key :: unresolved =>
      if bool_decide (key_frame_set_uid key ∈ seen) then resolve_missing db others (S n) seen unresolved store_ms
      else
        let read := others n db in
        let '(db, r) := reconcile_not_found (others (S n) read) key (negb (has_newer_eligible read key)) None store_ms in
        match r with
        | Raise e => (db, Raise (ClientStoreError e))
        | Ok _ => resolve_missing db others (S (S n)) seen unresolved store_ms
        end
  end.

Definition _apply_reconciliation (db : database) (others : interference) (response : ReconciliationResponse)
    (store_ms : Z) : database * result client_error bool :=
  let statuses := rr_canonical_statuses response in
  match apply_statuses db others 0 statuses store_ms with
  | (db, Raise e) => (db, Raise e)
  | (db, Ok _) =>
      if negb (rr_complete response) then (db, Ok false)
      else
        let n := length statuses in
        let db := others n db in
        match unresolved_keys db with
        | Raise e => (db, Raise (ClientStoreError e))
        | Ok unresolved =>
            let seen := (fun status => key_frame_set_uid (se_key status)) <$> statuses in
            let '(db, r) := resolve_missing db others (S n) seen unresolved store_ms in
            (db, _ ← r; Ok true)
        end
  end.

(** ** A connection *)

(** [session], [reconciled] and [connected]. *)
Record connection := mkConnection {
  cn_session : option NegotiatedSession;
  cn_reconciled : bool;
  cn_connected : bool;
}.

(** What the loop over the responses reads of the client, constant during a
    connection. *)
Record connection_setup := mkConnectionSetup {
  cu_hello_key : FrameSetKey;
  cu_config : ProtocolConfig;
  cu_has_credential : bool;
  cu_relay_scope : option ProcessingRelayScope;
}.

(** One envelope and what its handling meets. *)
Record arrival := mkArrival {
  av_envelope : ProcessorEnvelope;
  av_stopped : bool;
  av_credit : credit_environment;
  av_others : interference;
  av_store_ms : Z;
  av_utc_ms : Z;
}.

(** How the handling of an envelope ends: the loop goes on, is left
    ([break]), returns [None], or raises. *)
Inductive step_outcome := GoOn | LeaveLoop | ReturnNone | Failed (e : client_error).

(** The first envelope. *)
Definition handle_hello (st : client_state) (conn : connection) (setup : connection_setup) (a : arrival)
    : client_state * connection * step_outcome :=
  let rejected_key detail :=
    let db := av_others a 0%nat (ct_db st) in
    match current_in_flight db with
    | Raise e => (st <| ct_db := db |>, conn, Failed (ClientStoreError e))
    | Ok (Some _) => (st <| ct_db := db |>, conn, Failed (PermanentRelayError ("relay v2 disabled: " +:+ detail)))
    | Ok None =>
        let '(db, retired) := retire_eligible (av_others a 1%nat db) (cu_hello_key setup) "REJECTED"
                                "SESSION_TOKEN_SCOPE_INVALID" (Some (av_utc_ms a)) (av_store_ms a) in
        (st <| ct_db := db |>, conn,
         if retired then ReturnNone else Failed (PermanentRelayError ("relay v2 disabled: " +:+ detail)))
    end in
  match av_envelope a with
  | EnvHelloRejected m =>
      if negb (hr_retryable m)
      then if cu_has_credential setup && bool_decide (hr_detail_code m = "SESSION_TOKEN_SCOPE_INVALID")
           then rejected_key (hr_detail_code m)
           else (st, conn, Failed (PermanentRelayError ("relay v2 disabled: " +:+ hr_detail_code m)))
      else match accept_hello (av_envelope a) (cu_config setup) with
           | Raise e => (st, conn, Failed (ClientProtocolError e))
           | Ok _ => (st, conn, GoOn)
           end
  | _ =>
      match accept_hello (av_envelope a) (cu_config setup) with
      | Raise e => (st, conn, Failed (ClientProtocolError e))
      | Ok session =>
          let conn := mkConnection (Some session) (cn_reconciled conn) (cn_connected conn) in
          let '(db, r) := bind_processing_job (av_others a 0%nat (ct_db st)) (key_capture_run_id (cu_hello_key setup))
                            (ng_processing_job_id session) (Some (av_utc_ms a)) (av_store_ms a) in
          let st := st <| ct_db := db |> in
          match r with
          | Raise e => (st, conn, Failed (ClientStoreError e))
          | Ok _ =>
              let conn := mkConnection (Some session) (cn_reconciled conn) true in
              let db := av_others a 1%nat db in
              let st := st <| ct_db := db |> <| ct_connection_count ::= Z.succ |> in
              match unresolved_keys db with
              | Raise e => (st, conn, Failed (ClientStoreError e))
              | Ok unresolved =>
                  let required := match av_envelope a with
                                  | EnvHelloAccepted m => ha_reconciliation_required m | _ => false end in
                  let token := match av_envelope a with
                               | EnvHelloAccepted m => ha_reconciliation_resume_token m | _ => "" end in
                  if required || negb (bool_decide (unresolved = []))
                  then match build_reconciliation_request session (cu_config setup) unresolved
                               (if truthy token then Some token else None) with
                       | Raise e => (st, conn, Failed (ClientProtocolError e))
                       | Ok m => (put st m, mkConnection (Some session) (bool_decide (unresolved = [])) true, GoOn)
                       end
                  else (st, conn, GoOn)
              end
          end
      end
  end.

Definition finish {A} (r : result client_error A) : step_outcome :=
  match r with Ok _ => GoOn | Raise e => Failed e end.

(** One turn of [for envelope in responses]. *)
Definition process_envelope (st : client_state) (conn : connection) (setup : connection_setup) (a : arrival)
    : client_state * connection * step_outcome :=
  if av_stopped a then (st, conn, LeaveLoop)
  else match cn_session conn with
  | None => handle_hello st conn setup a
  | Some session =>
      match av_envelope a with
      | EnvReconciliation m =>
          let '(db, r) := _apply_reconciliation (ct_db st) (av_others a) m (av_store_ms a) in
          let conn := match r with Ok reconciled => mkConnection (Some session) reconciled (cn_connected conn)
                                 | Raise _ => conn end in
          (st <| ct_db := db |>, conn, finish r)
      | EnvCredit m =>
          if negb (cn_reconciled conn)
          then (st, conn, Failed (ClientProtocolError
                 (CreditRejected "processor issued credit before reconciliation completed")))
          else let '(st, r) := _handle_credit st (av_credit a) m session
                                 (Some (key_capture_run_id (cu_hello_key setup))) (cu_config setup) (cu_relay_scope setup) in
               (st, conn, finish r)
      | EnvStatus m =>
          let '(db, r) := _apply_status (av_others a 0%nat (ct_db st)) m (av_store_ms a) in
          (st <| ct_db := db |>, conn, finish r)
      | EnvHelloAccepted _ | EnvHelloRejected _ =>
          (st, conn, Failed (ClientProtocolError (CreditRejected "processor repeated hello response")))
      | EnvEmpty => (st, conn, GoOn)
      end
  end.

(** The loop; [rpc_error] is what the stream ends with, when not by itself. *)
Fixpoint responses_loop (st : client_state) (conn : connection) (setup : connection_setup) (arrivals : list arrival)
    (rpc_error : option string) : client_state * connection * step_outcome :=
  match arrivals with
  | [] => (st, conn, match rpc_error with Some text => Failed (ClientRpcError text) | None => LeaveLoop end)
  | a :: arrivals =>
      match process_envelope st conn setup a with
      | (st, conn, GoOn) => responses_loop st conn setup arrivals rpc_error
      | other => other
      end
  end.

(** What is in flight is unresolved from now on. *)
Definition interrupt_flight (db : database) (others : interference) (reason : string) (store_ms : Z)
    : database * result client_error unit :=
  let db := others 0%nat db in
  match current_in_flight db with
  | Raise e => (db, Raise (ClientStoreError e))
  | Ok None => (db, Ok tt)
  | Ok (Some key) =>
      let '(db, r) := mark_unresolved (others 1%nat db) key reason None store_ms in
      (db, lift_store (_ ← r; Ok tt))
  end.

(** The end of [finally]. *)
Definition leave_connection (db : database) (others : interference) (store_ms : Z)
    : database * result client_error unit :=
  interrupt_flight db others "TRANSPORT_DISCONNECTED" store_ms.

(** *** Its beginning *)

(** What the beginning meets: clocks, [stop] seen before the stream is
    opened, what the pipeline commits between its transactions, and what the
    credential provider meets. *)
Record begin_environment (E : Type) := mkBeginEnvironment {
  be_utc_ms : Z;
  be_store_ms : Z;
  be_now_s : Z;
  be_stopped : bool;
  be_others : interference;
  be_credential : E;
}.
Arguments mkBeginEnvironment {E}.
Arguments be_utc_ms {E}.
Arguments be_store_ms {E}.
Arguments be_now_s {E}.
Arguments be_stopped {E}.
Arguments be_others {E}.
Arguments be_credential {E}.

(** [_run_connection] before the stream: it returns, raises, or goes on with
    a connection and the token to present. *)
Inductive beginning :=
| Returned (connected : option bool)
| BeginFailed (e : client_error)
| Begun (conn : connection) (setup : connection_setup) (token : option string).

Section Begin.
Context {S E : Type} `{!RelayCredentialProvider S E}.

(** The columns [resolve_for_claim] of the session store compares. *)
Definition claim_scope (c : ClaimedFrameSet) : ClaimScope :=
  mkClaimScope (LatestLive.cl_tenant_id c) (LatestLive.cl_site_id c) (Some (LatestLive.cl_capture_session_id c))
    (LatestLive.cl_processing_job_id c) (LatestLive.cl_profile_digest c) (LatestLive.cl_authorized_subject c)
    (LatestLive.cl_session_token_jti c) (authorized_camera_ids c).

(** The credential stores: of sessions, and the provider when there is one. *)
Record credential_sources := mkCredentialSources {
  so_sessions : ActiveSessionCredentialStore;
  so_provider : option S;
}.

(** The token and the relay scope of a claim; [None]: the session is
    inactive. *)
Definition find_credential (so : credential_sources) (claim : ClaimedFrameSet) (env : begin_environment E)
    : credential_sources * result client_error (option (option string * option ProcessingRelayScope)) :=
  if negb (truthy_opt (LatestLive.cl_processing_job_id claim)) then (so, Ok (Some (None, None)))
  else match so_provider so with
  | Some p =>
      let '(p, r) := resolve_credential p claim (be_credential env) in
      let so := mkCredentialSources (so_sessions so) (Some p) in
      match r with
      | Ok c => (so, Ok (Some (Some (cd_token c), Some (cd_scope c))))
      | Raise RelayCredentialSessionInactive => (so, Ok None)
      | Raise e => (so, Raise (ClientCredentialError e))
      end
  | None =>
      let '(sessions, r) := resolve_for_claim (so_sessions so) (claim_scope claim) (be_now_s env) in
      (mkCredentialSources sessions None,
       match r with
       | Ok c => Ok (Some (Some (cd_token c), None))
       | Raise e => Raise (ClientCredentialError (RelaySessionError e))
       end)
  end.

(** [outgoing] starts with the hello. *)
Definition say_hello (st : client_state) (config : ProtocolConfig) (hello : ClaimedFrameSet)
    (credential : option string * option ProcessingRelayScope) (env : begin_environment E) : client_state * beginning :=
  match _bind_relay_scope hello credential.2 with
  | Raise e => (st, BeginFailed e)
  | Ok authorized =>
      let db := be_others env 1%nat (ct_db st) in
      let watermark := offered_watermark db in
      let db := be_others env 2%nat db in
      let st := st <| ct_db := db |> in
      match unresolved_keys db with
      | Raise e => (st, BeginFailed (ClientStoreError e))
      | Ok unresolved =>
          let job := processing_job_for db (key_capture_run_id (cl_key hello)) in
          match build_producer_hello config authorized watermark unresolved
                  (if truthy_opt job then job else LatestLive.cl_processing_job_id hello) (be_utc_ms env) with
          | Raise e => (st, BeginFailed (ClientProtocolError e))
          | Ok m =>
              let st := st <| ct_outgoing := [m] |> in
              if be_stopped env then (st, Returned (Some false))
              else
                let db := be_others env 3%nat db in
                let st := st <| ct_db := db |> in
                match unresolved_keys db with
                | Raise e => (st, BeginFailed (ClientStoreError e))
                | Ok unresolved =>
                    let setup := mkConnectionSetup (cl_key hello) config (bool_decide (is_Some credential.1)) credential.2 in
                    (st, Begun (mkConnection None (bool_decide (unresolved = [])) false) setup credential.1)
                end
          end
      end
  end.

Definition begin_connection (st : client_state) (so : credential_sources) (base_config : ProtocolConfig)
    (env : begin_environment E) : client_state * credential_sources * beginning :=
  let db := be_others env 0%nat (ct_db st) in
  let st := st <| ct_db := db |> in
  match snapshot_for_hello db with
  | Raise e => (st, so, BeginFailed (ClientStoreError e))
  | Ok None => (st, so, Returned None)
  | Ok (Some hello) =>
      match bind_authorized_claim base_config hello with
      | Raise e => (st, so, BeginFailed (ClientProtocolError e))
      | Ok config =>
          let '(so, r) := find_credential so hello env in
          match r with
          | Raise e => (st, so, BeginFailed e)
          | Ok None =>
              let '(db, _) := retire_eligible (be_others env 1%nat db) (cl_key hello) "SESSION_INACTIVE"
                                "RELAY_CREDENTIAL_SESSION_INACTIVE" (Some (be_utc_ms env)) (be_store_ms env) in
              (st <| ct_db := db |>, so, Returned None)
          | Ok (Some credential) => let '(st, b) := say_hello st config hello credential env in (st, so, b)
          end
      end
  end.

(** ** The whole connection, and the thread *)

(** What one connection meets after its beginning. *)
Record connection_script := mkConnectionScript {
  sc_begin : begin_environment E;
  sc_arrivals : list arrival;
  sc_rpc_error : option string;
  sc_leave_others : interference;
  sc_leave_ms : Z;
}.

(** [_run_connection]: [None], whether the hello was accepted, or an
    exception; one of the [finally] clause replaces the others. *)
Definition _run_connection (st : client_state) (so : credential_sources) (base_config : ProtocolConfig)
    (sc : connection_script) : client_state * credential_sources * result client_error (option bool) :=
  match begin_connection st so base_config (sc_begin sc) with
  | (st, so, Returned r) => (st, so, Ok r)
  | (st, so, BeginFailed e) => (st, so, Raise e)
  | (st, so, Begun conn setup _) =>
      let '(st, conn, outcome) := responses_loop st conn setup (sc_arrivals sc) (sc_rpc_error sc) in
      let '(db, ended) := leave_connection (ct_db st) (sc_leave_others sc) (sc_leave_ms sc) in
      let st := st <| ct_db := db |> in
      (st, so,
       match ended, outcome with
       | Raise e, _ => Raise e
       | Ok _, Failed e => Raise e
       | Ok _, ReturnNone => Ok None
       | Ok _, _ => Ok (Some (cn_connected conn))
       end)
  end.

(** The thread between two connections: the backoff's [attempt], and the
    attributes [_run] sets. [ru_uncaught]: the exception that ended the
    thread. *)
Record run_state := mkRunState {
  ru_client : client_state;
  ru_sources : credential_sources;
  ru_attempt : Z;
  ru_reconnect_count : Z;
  ru_last_error : option client_error;
  ru_returned : bool;
  ru_uncaught : option float_error;
}.

(** One turn of [while not self._stop_event.is_set()]: [stopped] is the
    event when the connection has ended, and [random_value] the jitter of the
    delay after it. *)
Definition run_turn (backoff : ReconnectBackoff) (u : run_state) (base_config : ProtocolConfig) (sc : connection_script) (stopped : bool)
    (random_value : float64) : run_state :=
  if ru_returned u then u
  else
    let '(st, so, r) := _run_connection (ru_client u) (ru_sources u) base_config sc in
    let next attempt error :=
      if stopped then mkRunState st so attempt (ru_reconnect_count u) error true None
      else match delay backoff attempt random_value with
           | Ok _ => mkRunState st so (attempt + 1) (ru_reconnect_count u + 1) error false None
           | Raise e => mkRunState st so attempt (ru_reconnect_count u + 1) error true (Some e)
           end in
    match r with
    | Ok None => mkRunState st so 0 (ru_reconnect_count u) (ru_last_error u) stopped None
    | Ok (Some true) => next 0 (ru_last_error u)
    | Ok (Some false) => next (ru_attempt u) (ru_last_error u)
    | Raise (PermanentRelayError _ as e) => mkRunState st so (ru_attempt u) (ru_reconnect_count u) (Some e) true None
    | Raise e => next (ru_attempt u) (Some e)
    end.
End Begin.

(** ** [configure], [start], [stop], [status] *)

(** The attributes they set; [lc_alive]: the thread there is has not ended. *)
Record live_client := mkLiveClient {
  lc_enabled : bool;
  lc_target : string;
  lc_store : bool;
  lc_protocol_config : option ProtocolConfig;
  lc_last_error : option client_error;
  lc_stop_event : bool;
  lc_thread : bool;
  lc_alive : bool;
}.

Definition configure (c : live_client) (target : string) (enabled : bool) (session_factory : bool)
    (protocol_config : option ProtocolConfig) : result client_error live_client :=
  if lc_thread c && lc_alive c then Raise (ClientRuntimeError "cannot configure a running relay v2 client")
  else if enabled && (negb (truthy target) || negb session_factory || bool_decide (protocol_config = None))
  then Raise (ClientValueError "enabled relay v2 requires target, session factory, and protocol config")
  else Ok (mkLiveClient enabled target session_factory protocol_config None (lc_stop_event c) (lc_thread c) (lc_alive c)).

Definition start (c : live_client) : live_client :=
  if negb (lc_enabled c) || (lc_thread c && lc_alive c) then c
  else mkLiveClient (lc_enabled c) (lc_target c) (lc_store c) (lc_protocol_config c) (lc_last_error c) false true true.

(** [ended]: the thread ended within the timeout of [join]. *)
Definition stop (c : live_client) (db : database) (others : interference) (store_ms : Z) (ended : bool)
    : live_client * database * result client_error unit :=
  let alive := lc_thread c && lc_alive c && negb ended in
  let set thread := mkLiveClient (lc_enabled c) (lc_target c) (lc_store c) (lc_protocol_config c) (lc_last_error c)
                      true thread alive in
  if lc_store c
  then match interrupt_flight db others "SHUTDOWN_INTERRUPTED" store_ms with
       | (db, Raise e) => (set (lc_thread c), db, Raise e)
       | (db, Ok _) => (set false, db, Ok tt)
       end
  else (set false, db, Ok tt).

Record client_status := mkClientStatus {
  sa_enabled : bool;
  sa_running : bool;
  sa_target : string;
  sa_last_error : option client_error;
  sa_connection_count : Z;
  sa_reconnect_count : Z;
  sa_offered_count : Z;
  sa_no_data_count : Z;
  sa_in_flight : bool;
}.

Definition status (c : live_client) (st : client_state) (reconnect_count : Z) : result client_error client_status :=
  in_flight ← (if lc_store c then lift_store (current_in_flight (ct_db st)) else Ok None);
  Ok (mkClientStatus (lc_enabled c) (lc_thread c && lc_alive c) (lc_target c) (lc_last_error c)
        (ct_connection_count st) reconnect_count (ct_offered_count st) (ct_no_data_count st)
        (bool_decide (is_Some in_flight))).
End Client.

(** ** One credit, one answer *)

(** What the pipeline may do between two transactions of the client: what is
    committed stays committed, and the client's row is the client's. *)
Record pipeline_step (f : database -> database) : Prop := {
  ps_schema : forall db, schema_ok db -> schema_ok (f db);
  ps_later : forall db, schema_ok db -> later db (f db);
  ps_client : forall db, db_client_state (f db) = db_client_state db;
}.

Lemma pipeline_in_flight f db : pipeline_step f -> in_flight (f db) = in_flight db.
Proof. intros Hf. unfold in_flight. by rewrite (ps_client _ Hf). Qed.

Lemma pipeline_matches f db key : pipeline_step f -> schema_ok db -> _matches_current db key = true ->
  _matches_current (f db) key = true.
Proof.
  intros Hf Hs (Hi & m & Hm & Hk)%matches_current_true. apply matches_current_true.
  split; [by rewrite pipeline_in_flight|]. exists m. split; [|done].
  eapply lookup_weaken; [exact Hm|]. by apply (later_manifests _ _ (ps_later _ Hf db Hs)).
Qed.

Lemma ensure_schema db ts : schema_ok db -> schema_ok (_ensure_state_row db ts).
Proof. intros [? ? ? ? ?]. unfold _ensure_state_row. destruct (db_client_state db); by split. Qed.

Lemma client_state_schema db s : schema_ok db -> schema_ok (db <| db_client_state := s |>).
Proof. intros [? ? ? ? ?]. by split. Qed.

Lemma projection_schema db uid p q : schema_ok db -> db_projections db !! uid = Some p ->
  pj_frame_set_uid q = pj_frame_set_uid p -> schema_ok (db <| db_projections := <[uid := q]> (db_projections db) |>).
Proof.
  intros Hs Hp Hq. destruct (insert_projection_table db uid p q Hs Hp Hq) as [T1 T2]. by apply set_projections_ok.
Qed.

(** The credit of what is in flight. *)
Definition flight_credit (db : database) : CreditIdentity :=
  let s := LatestLive.client_state db in
  mkCreditIdentity (or_str (rc_in_flight_processor_instance_id s) "") (or_str (rc_in_flight_stream_epoch s) "")
    (or_str (rc_in_flight_credit_id s) "").

Lemma claim_in_flight read now credit off clock db' r : schema_ok read -> schema_ok now -> later read now ->
  claim_latest read now credit off clock = (db', r) ->
  schema_ok db' /\ match r with
  | Ok (Some c) => in_flight now = None /\ _matches_current db' (cl_key c) = true /\ flight_credit db' = credit /\
                   live_state_of db' (key_frame_set_uid (cl_key c)) = Some "OFFERED"
  | _ => in_flight db' = in_flight now
  end.
Proof.
  intros Hr Hn Hl E. pose proof (ensure_schema now (default clock off) Hn) as He.
  destruct (ensure_client_state now (default clock off)) as (s & Hs & Hpr & Hor).
  assert (in_flight (_ensure_state_row now (default clock off)) = in_flight now) as Hf.
  { unfold in_flight. rewrite Hs. by destruct Hor as [->|[-> ->]]. }
  destruct (claim_cases _ _ _ _ _ _ _ E) as [[[->| ->] Hnone]|(m & -> & Hg & Hnew & _)].
  - split; [done|]. destruct r as [[c|]|]; [by destruct (Hnone c)|done..].
  - split; [done|]. destruct r as [[c|]|]; [by destruct (Hnone c)|done..].
  - destruct (newest_eligible_Some _ _ _ Hr Hnew) as (_ & Hm & _).
    apply guarded_claim_Some in Hg as (s' & p & Hs' & Hfree & Hp & _ & _ & ->).
    rewrite Hs in Hs'. injection Hs' as <-. split; [|split_and!].
    + apply (projection_schema ((_ensure_state_row now (default clock off)) <| db_client_state := _ |>) _ p);
        [by apply client_state_schema|done..].
    + rewrite <- Hf. unfold in_flight. by rewrite Hs.
    + apply matches_current_true. split; [done|]. exists m. split; [|done]. cbn.
      replace (db_manifests (_ensure_state_row _ _)) with (db_manifests now)
        by (unfold _ensure_state_row; by destruct (db_client_state now)).
      eapply lookup_weaken; [exact Hm|]. by apply (later_manifests _ _ Hl).
    + unfold flight_credit, or_str. by destruct credit as [[] [] []].
    + unfold live_state_of. cbn. by rewrite lookup_insert_eq.
Qed.

(** A matching transition succeeds: it ends the flight, or keeps it. *)
Lemma transition_matching db key st reason ts (release : bool) : schema_ok db -> is_Some (db_projections db !! key_frame_set_uid key) ->
  _matches_current db key = true ->
  exists db', write_transition db key st reason ts (if release then release_flight else id) = (db', Ok true) /\
    schema_ok db' /\ live_state_of db' (key_frame_set_uid key) = Some st /\
    in_flight db' = if release then None else Some (key_frame_set_uid key).
Proof.
  intros Hs [p Hp] Hm. destruct (write_transition db key st reason ts _) as [db' r] eqn:E.
  unfold write_transition in E. rewrite Hm, Hp in E. injection E as <- <-. eexists. split; [done|].
  apply matches_current_true in Hm as (Hi & _). unfold in_flight in *. unfold live_state_of. cbn.
  rewrite lookup_insert_eq. split_and!; [|done|].
  - by destruct (projection_schema db _ p (set_live st reason ts p) Hs Hp eq_refl).
  - destruct (db_client_state db) as [s|]; [|done]. by destruct release.
Qed.

Section Answer.
Context `{Hashing} (read_bytes : string -> result string string) (serialize : ProducerEnvelope -> string).
Context (env : credit_environment) (credit : ProcessorCredit).

Record credit_pipeline : Prop := {
  cp_preview : pipeline_step (ce_before_preview env);
  cp_claim : pipeline_step (ce_before_claim env);
  cp_during : pipeline_step (ce_during_claim env);
  cp_release : pipeline_step (ce_before_release env);
}.

(** [key] is in flight, and can be released. *)
Record held (db : database) (key : FrameSetKey) : Prop := {
  he_schema : schema_ok db;
  he_matches : _matches_current db key = true;
  he_projection : is_Some (db_projections db !! key_frame_set_uid key);
}.

Lemma held_later f db key : pipeline_step f -> held db key -> held (f db) key.
Proof.
  intros Hf [Hs Hm Hp]. split; [by apply (ps_schema _ Hf)|by apply pipeline_matches|].
  by apply (later_projections _ _ (ps_later _ Hf db Hs)).
Qed.

(** The client before and after a handler: nothing put, or one envelope. *)
Definition quiet (st st' : client_state) : Prop := ct_outgoing st' = ct_outgoing st.
Definition answered_by (st st' : client_state) (m : ProducerEnvelope) : Prop := ct_outgoing st' = ct_outgoing st ++ [m].

Lemma release_claim_effect st key state reason st' r : credit_pipeline -> held (ct_db st) key ->
  state ∈ presend_states -> release_claim st env key state reason = (st', r) ->
  r = Ok tt /\ quiet st st' /\ in_flight (ct_db st') = None.
Proof.
  intros Hp Hh Hin E. apply (held_later _ _ _ (cp_release Hp)) in Hh as [Hs Hm Hpr].
  assert (upper (strip state) = state) as Hup by (apply list_elem_of_In in Hin as [<-|[<-|[]]]; done).
  unfold release_claim, release_before_send, _transition_current in E.
  rewrite Hup, bool_decide_true in E by done. cbn [negb or_int] in E.
  destruct (transition_matching _ key state (Some reason) (ce_store_ms env) true Hs Hpr Hm) as (db' & E' & _ & _ & Hf).
  cbn in E'. rewrite E' in E. injection E as <- <-. by split_and!.
Qed.

Lemma answer_no_data_effect st reason newest st' r : answer_no_data st credit reason newest = (st', r) ->
  ct_db st' = ct_db st /\ match r with
  | Ok _ => exists nd, answered_by st st' (EnvNoData nd) /\ nd_scope nd = cr_scope credit /\ nd_reason nd = reason
  | Raise _ => quiet st st'
  end.
Proof.
  unfold answer_no_data, build_no_data. destruct (match newest with Some _ => _ | None => _ end) as [k|e]; cbn;
    intros [= <- <-]; [|done]. split; [done|]. by eexists.
Qed.

Lemma refuse_claim_effect st key state reason no_data_reason st' r : credit_pipeline -> held (ct_db st) key ->
  state ∈ presend_states -> refuse_claim st env credit key state reason no_data_reason = (st', r) ->
  in_flight (ct_db st') = None /\ match r with
  | Ok _ => exists nd, answered_by st st' (EnvNoData nd) /\ nd_scope nd = cr_scope credit /\ nd_reason nd = no_data_reason
  | Raise _ => quiet st st'
  end.
Proof.
  intros Hp Hh Hin E. unfold refuse_claim in E. destruct (release_claim _ _ _ _ _) as [st1 r1] eqn:Er.
  destruct (release_claim_effect _ _ _ _ _ _ Hp Hh Hin Er) as (-> & Hq & Hf). unfold quiet in Hq.
  apply answer_no_data_effect in E as [Hdb Ha]. rewrite Hdb. unfold answered_by, quiet in *. by rewrite <- Hq.
Qed.

(** How a frame-set that was claimed ends. *)
Definition claim_ends (session : NegotiatedSession) (claim : ClaimedFrameSet) (st st' : client_state)
    (r : result client_error unit) : Prop :=
  match r with
  | Ok _ =>
      (exists fs, answered_by st st' (EnvFrameSet fs) /\ names_claim claim credit session fs /\ ct_db st' = ct_db st) \/
      (exists nd, answered_by st st' (EnvNoData nd) /\ nd_scope nd = cr_scope credit /\ nd_reason nd <> "NO_DATA" /\
         in_flight (ct_db st') = None) \/
      (ce_stopped env = true /\ quiet st st' /\ in_flight (ct_db st') = Some (key_frame_set_uid (cl_key claim)) /\
         live_state_of (ct_db st') (key_frame_set_uid (cl_key claim)) = Some "UNRESOLVED")
  | Raise _ => quiet st st' /\ (in_flight (ct_db st') = None \/ ct_db st' = ct_db st)
  end.

Lemma refuse_claim_ends session claim st st' r state reason no_data_reason : credit_pipeline ->
  held (ct_db st) (cl_key claim) -> state ∈ presend_states -> no_data_reason <> "NO_DATA" ->
  refuse_claim st env credit (cl_key claim) state reason no_data_reason = (st', r) ->
  claim_ends session claim st st' r.
Proof.
  intros Hp Hh Hin Hne E. destruct (refuse_claim_effect _ _ _ _ _ _ _ Hp Hh Hin E) as [Hf Hr].
  destruct r as [u|e]; [|by split; [|left]]. right. left. destruct Hr as (nd & H1 & H2 & H3).
  exists nd. split_and!; [done..|by rewrite H3|done].
Qed.

Lemma sent_names claim session config received clock env' :
  build_credited_frame_set read_bytes serialize claim credit session config received clock = Ok env' ->
  exists fs, env' = EnvFrameSet fs /\ names_claim claim credit session fs.
Proof.
  unfold build_credited_frame_set, serialize_with_limit, _validate_size. intros E.
  do 4 ok_step. do 2 ok_step. injection E as <-. eexists. split; [done|].
  by match goal with H : credited_frame_set _ _ _ _ _ _ _ = Ok _ |- _ => apply credited_frame_set_Ok in H as [? _] end.
Qed.

Lemma send_claim_ends session config claim st st' r : credit_pipeline -> held (ct_db st) (cl_key claim) ->
  send_claim read_bytes serialize st env credit session config claim = (st', r) -> claim_ends session claim st st' r.
Proof.
  intros Hp Hh E. unfold send_claim in E. destruct (build_credited_frame_set _ _ _ _ _ _ _ _) as [m|e] eqn:Em.
  - destruct (sent_names _ _ _ _ _ _ Em) as (fs & -> & Hn). destruct (ce_stopped env) eqn:Est; cycle 1.
    { injection E as <- <-. left. by exists fs. }
    destruct (held_later _ _ _ (cp_release Hp) Hh) as [Hs Hm Hpr].
    destruct (transition_matching _ _ "UNRESOLVED" (Some "SHUTDOWN_INTERRUPTED") (ce_store_ms env) false Hs Hpr Hm) as (db' & E' & _ & Hl & Hf).
    unfold mark_unresolved, _transition_current in E. cbn [or_int] in E. rewrite E' in E. injection E as <- <-. right. right. by split_and!.
  - destruct e; try (injection E as <- <-; split; [done|by right]);
      try (eapply refuse_claim_ends in E; [exact E|done|done|set_solver|done]).
    destruct (release_claim _ _ _ _ _) as [st1 r1] eqn:Er.
    assert ("REJECTED" ∈ presend_states) as Hin by set_solver.
    destruct (release_claim_effect _ _ _ _ _ _ Hp Hh Hin Er) as (-> & Hq & Hf). injection E as <- <-.
    split; [done|by left].
Qed.
End Answer.

Lemma bind_relay_scope_key claim scope claim' : _bind_relay_scope claim scope = Ok claim' -> cl_key claim' = cl_key claim.
Proof. unfold _bind_relay_scope. destruct scope; [case_match; [|done]|]; by intros [= <-]. Qed.

Lemma credit_identity_Ok credit session identity : credit_identity credit session = Ok identity ->
  identity = mkCreditIdentity (cs_processor_instance_id (cr_scope credit)) (cs_stream_epoch (cr_scope credit))
               (cs_credit_id (cr_scope credit)) /\
  cs_processor_instance_id (cr_scope credit) = ng_processor_instance_id session /\
  cs_stream_epoch (cr_scope credit) = ng_stream_epoch session /\ 0 < cr_credit_lease_duration_ms credit.
Proof.
  unfold credit_identity. bools. intros (_ & [[? ?] _] & Hl & [= <-]). by split_and!.
Qed.

(** What the handler has done when it returns. *)
Definition one_answer (credit : ProcessorCredit) (stopped : bool) (st st' : client_state) : Prop :=
  (exists fs, answered_by st st' (EnvFrameSet fs) /\ cf_credit_scope fs = cr_scope credit /\
     in_flight (ct_db st) = None /\ in_flight (ct_db st') = Some (key_frame_set_uid (cf_key fs)) /\
     live_state_of (ct_db st') (key_frame_set_uid (cf_key fs)) = Some "OFFERED") \/
  (exists nd, answered_by st st' (EnvNoData nd) /\ nd_scope nd = cr_scope credit /\
     in_flight (ct_db st') = if bool_decide (nd_reason nd = "NO_DATA") then in_flight (ct_db st) else None) \/
  (stopped = true /\ quiet st st' /\ exists uid, in_flight (ct_db st') = Some uid /\
     live_state_of (ct_db st') uid = Some "UNRESOLVED").

(** C23: A credit is answered once. Whatever the pipeline commits meanwhile,
    the handler that returns has put one envelope, under that credit: the
    frame-set it took, when nothing was in flight, which is now the one in
    flight, offered under this credit; or the reason why there is none, and
    then nothing it took stays in flight; unless the client is being stopped,
    and what it took is unresolved. A handler that raises has sent nothing,
    and what is in flight is what was, or nothing, or was taken under this
    credit. *)
Theorem credit_answered_once `{Hashing} read_bytes serialize env credit session run config scope st st' r :
  credit_pipeline env -> schema_ok (ct_db st) ->
  _handle_credit read_bytes serialize st env credit session run config scope = (st', r) ->
  match r with
  | Ok _ => one_answer credit (ce_stopped env) st st'
  | Raise _ => quiet st st' /\
      (in_flight (ct_db st') = in_flight (ct_db st) \/ in_flight (ct_db st') = None \/
       credit_identity credit session = Ok (flight_credit (ct_db st')))
  end.
Proof.
  intros Hp Hs E. unfold _handle_credit in E.
  destruct (credit_identity credit session) as [identity|e] eqn:Ei; [|injection E as <- <-; by split; [|left]].
  pose proof (ps_schema _ (cp_preview _ Hp) _ Hs) as Hs1. cbn zeta in E.
  destruct (snapshot_for_hello _) as [preview|e];
    [|injection E as <- <-; split; [done|left; by apply pipeline_in_flight, Hp]].
  destruct (run_changed _ _); [injection E as <- <-; split; [done|left; by apply pipeline_in_flight, Hp]|].
  cbn [ct_db] in E. set (read := ce_before_claim env _) in E.
  pose proof (ps_schema _ (cp_claim _ Hp) _ Hs1 : schema_ok read) as Hr.
  assert (in_flight (ce_during_claim env read) = in_flight (ct_db st)) as Hf.
  { unfold read. cbn. by rewrite !pipeline_in_flight by apply Hp. }
  destruct (claim_latest _ _ _ _ _) as [db r1] eqn:Ec.
  destruct (claim_in_flight _ _ _ _ _ _ _ Hr (ps_schema _ (cp_during _ Hp) _ Hr) (ps_later _ (cp_during _ Hp) _ Hr) Ec) as [Hdb H1].
  rewrite Hf in H1. destruct r1 as [[claim|]|e].
  - destruct H1 as (Hn & Hm & Hc & Hl). destruct (_bind_relay_scope claim scope) as [claim'|e] eqn:Eb.
    + rewrite <- (bind_relay_scope_key _ _ _ Eb) in Hm, Hl.
      apply send_claim_ends in E; [|done|].
      2:{ split; [done..|]. unfold live_state_of in Hl. destruct (_ !! _) eqn:Ep in Hl; [by eexists|done]. }
      destruct r as [u|e]; cycle 1.
      { destruct E as [Hq E]. split; [exact Hq|]. right. destruct E as [E|E]; [by left|right]. by rewrite E, <- Hc. }
      destruct E as [(fs & Ha & Hnames & E)|[(nd & Ha & Hsc & Hne & E)|(Hst & Hq & E)]].
      * left. exists fs. destruct Hnames as (? & Hk & _). rewrite E, Hk. split_and!; try done.
        by apply matches_current_true in Hm as [? _].
      * right. left. exists nd. split_and!; [done..|]. by rewrite bool_decide_false.
      * right. right. split_and!; [done..|]. by eexists.
    + injection E as <- <-. split; [done|]. right. right. by rewrite <- Hc.
  - destruct (answer_no_data _ _ _ _) as [st1 r1] eqn:Ea. apply answer_no_data_effect in Ea as [Hd Ha].
    destruct r1 as [u|e]; injection E as <- <-.
    + right. left. destruct Ha as (nd & H2 & H3 & H4). exists nd. split_and!; [done..|].
      rewrite bool_decide_true by done. cbn. by rewrite Hd.
    + split; [done|left]. by rewrite Hd.
  - injection E as <- <-. split; [done|left]. done.
Qed.

(** ** What reconciliation leaves in flight *)

(** What is in flight stays, or nothing is. *)
Definition flight_kept (db db' : database) : Prop := in_flight db' = in_flight db \/ in_flight db' = None.

Lemma flight_kept_trans db1 db2 db3 : flight_kept db1 db2 -> flight_kept db2 db3 -> flight_kept db1 db3.
Proof. unfold flight_kept. intros [->|H] [->|H']; auto. Qed.

Lemma transition_keeps db key st reason ts f db' b : schema_ok db ->
  (forall s, rc_in_flight_frame_set_uid (f s) = rc_in_flight_frame_set_uid s \/ rc_in_flight_frame_set_uid (f s) = None) ->
  write_transition db key st reason ts f = (db', Ok b) ->
  schema_ok db' /\ db_manifests db' = db_manifests db /\ flight_kept db db' /\
  (_matches_current db key = true -> live_state_of db' (key_frame_set_uid key) = Some st /\
   ((forall s, rc_in_flight_frame_set_uid (f s) = None) -> in_flight db' = None)).
Proof.
  intros Hs Hf (Hb & Hfalse & Htrue)%write_transition_Ok. destruct b; cycle 1.
  { rewrite Hfalse by done. split; [done|]. split; [done|]. split; [by left|]. intros Hm. by apply Hb in Hm. }
  destruct (Htrue eq_refl) as (p & s & Hp & Hcs & ->). unfold flight_kept, in_flight, live_state_of. cbn.
  rewrite Hcs, lookup_insert_eq. cbn. split_and!; [|done|apply Hf|done].
  by destruct (projection_schema db _ p (set_live st reason ts p) Hs Hp eq_refl).
Qed.

Section Reconciled.
Context (others : interference) (Hothers : forall n, pipeline_step (others n)) (store_ms : Z).

Lemma others_kept n db : schema_ok db ->
  schema_ok (others n db) /\ db_manifests db ⊆ db_manifests (others n db) /\ flight_kept db (others n db).
Proof.
  intros Hs. split; [by apply (ps_schema _ (Hothers n))|]. split; [by apply (ps_later _ (Hothers n))|].
  left. by apply pipeline_in_flight.
Qed.

Lemma attempt_state_spelled z st : enum_name attempt_state_names z = Ok st ->
  upper (strip st) = st /\ (3 <= z -> st ∈ releasing_states).
Proof.
  unfold enum_name. destruct (z <? 0) eqn:E; [done|]. destruct (_ !! _) as [s|] eqn:Hl; [|done]. intros [= <-].
  assert (z = Z.of_nat (Z.to_nat z)) as Hz by lia. revert Hl Hz. generalize (Z.to_nat z). intros n Hl ->. clear E.
  do 7 (destruct n as [|n]; [injection Hl as <-; split; [done|]; first [lia|set_solver]|]). done.
Qed.

Lemma release_keeps (release : bool) s :
  rc_in_flight_frame_set_uid ((if release then release_flight else id) s) = rc_in_flight_frame_set_uid s \/
  rc_in_flight_frame_set_uid ((if release then release_flight else id) s) = None.
Proof. destruct release; auto. Qed.

Lemma release_frees (release : bool) s : rc_in_flight_frame_set_uid ((if release then release_flight else id) s) =
  if release then None else rc_in_flight_frame_set_uid s.
Proof. by destruct release. Qed.

Lemma apply_status_keeps db status db' u : schema_ok db -> _apply_status db status store_ms = (db', Ok u) ->
  schema_ok db' /\ db_manifests db' = db_manifests db /\ flight_kept db db' /\
  (_matches_current db (se_key status) = true -> 3 <= se_state status -> in_flight db' = None).
Proof.
  intros Hs E. unfold _apply_status in E. destruct (enum_name attempt_state_names _) as [st|] eqn:En; [|by destruct (enum_name _ _)].
  destruct (enum_name reason_names _); [|done]. destruct (attempt_state_spelled _ _ En) as [Hup Hrel].
  unfold apply_remote_status, _transition_current in E. rewrite Hup in E. destruct (negb _); [done|].
  destruct (write_transition _ _ _ _ _ _) as [d [b|e]] eqn:Ew; [|done]. injection E as <- _.
  destruct (transition_keeps _ _ _ _ _ _ _ _ Hs (release_keeps _) Ew) as (H1 & H2 & H3 & H4).
  split_and!; [done..|]. intros Hm Hz. apply H4; [done|]. intros x. rewrite release_frees, bool_decide_true; auto.
Qed.

(** The manifest [m] of what may be in flight. *)
Lemma manifest_matches db uid m : schema_ok db -> in_flight db = Some uid -> db_manifests db !! uid = Some m ->
  _matches_current db (_key m) = true.
Proof.
  intros Hs Hi Hm. apply matches_current_true. cbn. destruct (so_manifest _ Hs _ _ Hm) as [-> _]. eauto.
Qed.

Lemma apply_statuses_settle statuses : forall db n db' u, schema_ok db ->
  apply_statuses db others n statuses store_ms = (db', Ok u) ->
  schema_ok db' /\ db_manifests db ⊆ db_manifests db' /\ flight_kept db db' /\
  forall uid m status, in_flight db' = Some uid -> db_manifests db !! uid = Some m ->
    status ∈ statuses -> se_key status = _key m -> se_state status < 3.
Proof.
  induction statuses as [|status statuses IH]; intros db n db' u Hs E.
  { injection E as <- _. split; [done|]. split; [done|]. split; [by left|]. by intros uid m status _ _ ?%not_elem_of_nil. }
  cbn [apply_statuses] in E. destruct (_apply_status _ _ _) as [db1 [u1|]] eqn:E1; [|done].
  destruct (others_kept n db Hs) as (Hs1 & Hm1 & Hf1).
  destruct (apply_status_keeps _ _ _ _ Hs1 E1) as (Hs2 & Hm2 & Hf2 & Hrel).
  destruct (IH _ _ _ _ Hs2 E) as (Hs3 & Hm3 & Hf3 & Hall). rewrite Hm2 in Hm3, Hall.
  split; [done|]. split; [by etrans|]. split; [by eauto using flight_kept_trans|].
  intros uid m x Hi Hm [->|Hx]%elem_of_cons Hk; [|by eapply (Hall uid m x); [|eapply lookup_weaken|..]].
  destruct (decide (se_state status < 3)) as [|Hge]; [done|exfalso].
  assert (in_flight db1 = Some uid) as Hi1 by (destruct Hf3; congruence).
  assert (in_flight (others n db) = Some uid) as Hi0 by (destruct Hf2; congruence).
  rewrite Hrel in Hi1; [done| |lia]. rewrite Hk. eapply manifest_matches; [done..|]. by eapply lookup_weaken.
Qed.

(** A key that matches goes on to, until nothing is in flight. *)
Definition matches_or_free (db : database) (key : FrameSetKey) : Prop := in_flight db = None \/ _matches_current db key = true.

Lemma matches_or_free_kept db db' key : db_manifests db ⊆ db_manifests db' -> flight_kept db db' ->
  matches_or_free db key -> matches_or_free db' key.
Proof.
  intros Hsub Hk [Hn|(Hi & m & Hm & Hkey)%matches_current_true]; [left; by destruct Hk as [->|]|].
  destruct Hk as [Hk|]; [right|by left]. apply matches_current_true. split; [by rewrite Hk|]. exists m.
  split; [by eapply lookup_weaken|done].
Qed.

Lemma not_found_keeps db key retry db' u : schema_ok db -> reconcile_not_found db key retry None store_ms = (db', Ok u) ->
  schema_ok db' /\ db_manifests db' = db_manifests db /\ flight_kept db db' /\
  (matches_or_free db key -> in_flight db' = None).
Proof.
  intros Hs E. unfold reconcile_not_found in E.
  apply transition_keeps in E as (H1 & H2 & H3 & H4); [|done|by right].
  split_and!; [done..|]. intros [Hn|Hm]; [by destruct H3 as [->|]|by apply H4].
Qed.

Lemma resolve_missing_settles seen unresolved : forall db n db' u, schema_ok db ->
  resolve_missing db others n seen unresolved store_ms = (db', Ok u) ->
  flight_kept db db' /\ forall key, key ∈ unresolved -> matches_or_free db key ->
    key_frame_set_uid key ∉ seen -> in_flight db' = None.
Proof.
  induction unresolved as [|key unresolved IH]; intros db n db' u Hs E.
  { injection E as <- _. split; [by left|]. by intros key ?%not_elem_of_nil. }
  cbn [resolve_missing] in E. destruct (bool_decide (key_frame_set_uid key ∈ seen)) eqn:Hb in E.
  - apply bool_decide_eq_true in Hb. destruct (IH _ _ _ _ Hs E) as [H1 H2]. split; [done|].
    intros k [->|Hk]%elem_of_cons Hm Hn; [done|by apply (H2 k)].
  - destruct (reconcile_not_found _ _ _ _ _) as [db1 [b|]] eqn:E1; [|done].
    destruct (others_kept n db Hs) as (Hs1 & Hm1 & Hf1). destruct (others_kept (S n) _ Hs1) as (Hs2 & Hm2 & Hf2).
    destruct (not_found_keeps _ _ _ _ _ Hs2 E1) as (Hs3 & Hm3 & Hf3 & Hrel).
    destruct (IH _ _ _ _ Hs3 E) as [H1 H2]. split; [by eauto using flight_kept_trans|].
    intros k Hk Hm Hn. apply (matches_or_free_kept _ _ _ Hm1 Hf1), (matches_or_free_kept _ _ _ Hm2 Hf2) in Hm.
    apply elem_of_cons in Hk as [->|Hk].
    + specialize (Hrel Hm). by destruct H1 as [->|].
    + apply (H2 k); [done| |done]. eapply matches_or_free_kept; [|exact Hf3|exact Hm]. by rewrite Hm3.
Qed.
End Reconciled.

(** C24: What reconciliation leaves in flight. When the processor's answer is
    complete and the handler returns, whatever the pipeline commits meanwhile
    and in whatever order the statuses come, only what was in flight can
    still be; then the processor has reported it, and no status under its key
    was final. What it has not reported is released, to be offered again or
    superseded. *)
Theorem reconciliation_settles db others response store_ms db' :
  (forall n, pipeline_step (others n)) -> schema_ok db ->
  _apply_reconciliation db others response store_ms = (db', Ok true) ->
  rr_complete response = true /\
  forall uid, in_flight db' = Some uid -> in_flight db = Some uid /\
    (exists status, status ∈ rr_canonical_statuses response /\ key_frame_set_uid (se_key status) = uid) /\
    (forall m status, db_manifests db !! uid = Some m -> status ∈ rr_canonical_statuses response ->
       se_key status = _key m -> se_state status < 3).
Proof.
  intros Ho Hs E. unfold _apply_reconciliation in E.
  destruct (apply_statuses _ _ _ _ _) as [db1 [u1|]] eqn:E1; [|done].
  destruct (rr_complete response); [|done]. cbn [negb] in E. split; [done|].
  destruct (apply_statuses_settle _ Ho _ _ _ _ _ _ Hs E1) as (Hs1 & Hm1 & Hf1 & Hall).
  destruct (others_kept _ Ho (length (rr_canonical_statuses response)) _ Hs1) as (Hs2 & _ & Hf2).
  set (db2 := others _ db1) in *. destruct (unresolved_keys db2) as [unresolved|] eqn:Eu; [|done].
  destruct (resolve_missing _ _ _ _ _ _) as [db3 [u3|]] eqn:E3; [|done]. injection E as <-.
  destruct (resolve_missing_settles _ Ho _ _ _ _ _ _ _ Hs2 E3) as [Hf3 Hrel].
  intros uid Hi. assert (in_flight db2 = Some uid) as Hi2 by (destruct Hf3; congruence).
  assert (in_flight db1 = Some uid) as Hi1 by (destruct Hf2; congruence).
  split; [destruct Hf1; congruence|]. split; [|by eauto].
  unfold unresolved_keys, current_in_flight in Eu. unfold in_flight in Hi2. rewrite Hi2 in Eu.
  destruct (db_manifests db2 !! uid) as [m|] eqn:Em; [|done]. injection Eu as <-.
  destruct (decide (uid ∈ (fun status => key_frame_set_uid (se_key status)) <$> rr_canonical_statuses response)) as [Hin|Hn].
  - apply list_elem_of_fmap in Hin as (status & -> & Hin). by exists status.
  - rewrite (Hrel (_key m)) in Hi; [done|set_solver| |].
    + right. by eapply manifest_matches.
    + cbn. by destruct (so_manifest _ Hs2 _ _ Em) as [-> _].
Qed.

(** Leaving a connection, or stopping, never fails on a sound database: what
    was in flight still is, and is unresolved. *)
Lemma interrupted_unresolved {exact} db others reason store_ms :
  (forall n, pipeline_step (others n)) -> (forall n d, live_ok exact d -> live_ok exact (others n d)) -> live_ok exact db ->
  exists db', interrupt_flight db others reason store_ms = (db', Ok tt) /\ in_flight db' = in_flight db /\
    forall uid, in_flight db' = Some uid -> live_state_of db' uid = Some "UNRESOLVED".
Proof.
  intros Ho Hl Hok. pose proof (Hl 0%nat _ Hok) as Hok0. unfold interrupt_flight, current_in_flight.
  assert (in_flight (others 0%nat db) = in_flight db) as <- by by apply pipeline_in_flight. unfold in_flight.
  destruct (_ ≫= _) as [uid|] eqn:Hi; [|eexists; split; [done|]; by rewrite Hi].
  destruct (db_manifests (others 0%nat db) !! uid) as [m|] eqn:Hm; cycle 1.
  { exfalso. destruct (lo_flight _ _ Hok0 uid Hi) as (s & Hst & _). unfold live_state_of in Hst.
    destruct (_ !! _) as [p|] eqn:Hp in Hst; [|done]. apply (so_projection _ (lo_schema _ _ Hok0)) in Hp as [_ [m Hm']]. congruence. }
  pose proof (manifest_matches _ _ _ (lo_schema _ _ Hok0) Hi Hm) as Hmk.
  pose proof (pipeline_matches _ _ _ (Ho 1%nat) (lo_schema _ _ Hok0) Hmk) as Hmk1.
  pose proof (Hl 1%nat _ Hok0) as Hok1. destruct (so_manifest _ (lo_schema _ _ Hok0) _ _ Hm) as [Hu _].
  destruct (proj1 (matches_current_true _ _) Hmk1) as [Hi1 _].
  destruct (lo_flight _ _ Hok1 _ Hi1) as (s & Hst & _). unfold live_state_of in Hst.
  destruct (transition_matching _ (_key m) "UNRESOLVED" (Some reason) store_ms false (lo_schema _ _ Hok1)) as (db' & E & _ & Hlive & Hfl); [|done|].
  { apply fmap_Some in Hst as (p & Hp & _). by rewrite Hp. }
  unfold mark_unresolved, _transition_current. cbn [or_int]. rewrite E. exists db'. split; [done|].
  unfold in_flight in Hfl. rewrite Hfl. cbn. rewrite Hu. split; [done|]. intros u [= <-]. by rewrite <- Hu.
Qed.

(** ** An outage *)

Section Outage.
Context `{Hashing} (read_bytes : string -> result string string) (serialize : ProducerEnvelope -> string).
Context {S E : Type} `{!RelayCredentialProvider S E} (backoff : ReconnectBackoff) (base_config : ProtocolConfig).

(** The connection of a turn ends without having been accepted, and nobody
    asks the client to stop. *)
Definition connection_fails (u : run_state (S := S)) (sc : connection_script (E := E)) : Prop :=
  match (_run_connection read_bytes serialize (ru_client u) (ru_sources u) base_config sc).2 with
  | Ok (Some false) => True
  | Raise (PermanentRelayError _) => False
  | Raise _ => True
  | _ => False
  end.

Definition turns_of (u : run_state) (turns : list (connection_script * float64)) : run_state :=
  foldl (fun u t => run_turn read_bytes serialize backoff u base_config t.1 false t.2) u turns.

Fixpoint outage (u : run_state) (turns : list (connection_script * float64)) : Prop :=
  match turns with
  | [] => True
  | t :: turns => (ru_returned u = false -> connection_fails u t.1) /\ outage (run_turn read_bytes serialize backoff u base_config t.1 false t.2) turns
  end.

Lemma failed_turn u sc random_value : ru_returned u = false -> connection_fails u sc ->
  let u' := run_turn read_bytes serialize backoff u base_config sc false random_value in
  ru_reconnect_count u' = ru_reconnect_count u + 1 /\
  if ru_attempt u <? 1024 then ru_returned u' = false /\ ru_attempt u' = ru_attempt u + 1
  else ru_returned u' = true /\ ru_uncaught u' = Some FloatOverflowError.
Proof using Type.
  intros Hr Hf. unfold run_turn, connection_fails in *. rewrite Hr. destruct (_run_connection _ _ _ _ _ _) as [[st so] r]. cbn [snd] in Hf.
  destruct (Z.ltb_spec (ru_attempt u) 1024) as [Ha|Ha].
  - destruct (proj2 (delay_defined backoff (ru_attempt u) random_value) Ha) as [d Hd]. rewrite Hd. destruct r as [[[]|]|[]]; done.
  - rewrite (delay_overflows backoff (ru_attempt u) random_value Ha). destruct r as [[[]|]|[]]; done.
Qed.

Lemma returned_stays u turns : ru_returned u = true -> turns_of u turns = u.
Proof using Type.
  intros Hr. induction turns as [|t turns IH]; [done|]. cbn. unfold run_turn at 2. rewrite Hr. exact IH.
Qed.

(** C39: while the processor cannot be reached the client tries again after
    every connection, and counts it, until it has failed 1024 times in a row;
    then the delay does not exist, and its thread ends by an exception. *)
Theorem outage_exact u turns : ru_returned u = false -> 0 <= ru_attempt u <= 1024 -> outage u turns ->
  let u' := turns_of u turns in
  let failures := ru_attempt u + Z.of_nat (length turns) in
  if failures <=? 1024
  then ru_returned u' = false /\ ru_attempt u' = failures /\ ru_reconnect_count u' = ru_reconnect_count u + Z.of_nat (length turns)
  else ru_returned u' = true /\ ru_uncaught u' = Some FloatOverflowError /\ ru_reconnect_count u' = ru_reconnect_count u + (1025 - ru_attempt u).
Proof using Type.
  cbv zeta. revert u. induction turns as [|t turns IH]; intros u Hr Ha Ho.
  - cbn. rewrite (proj2 (Z.leb_le _ _)) by lia. split_and!; [done|lia|lia].
  - destruct Ho as [Hf Ho]. destruct (failed_turn u t.1 t.2 Hr (Hf Hr)) as [Hc Ht]. cbn [turns_of foldl length].
    fold (turns_of (run_turn read_bytes serialize backoff u base_config t.1 false t.2) turns).
    destruct (Z.ltb_spec (ru_attempt u) 1024) as [Hl|Hl].
    + destruct Ht as [Hr' Ha']. specialize (IH _ Hr' ltac:(lia) Ho). rewrite Ha', Hc in IH.
      replace (ru_attempt u + Z.of_nat (Datatypes.S (length turns))) with (ru_attempt u + 1 + Z.of_nat (length turns)) by lia.
      destruct (_ <=? 1024); destruct IH as (I1 & I2 & I3); (split; [done|]; split; [done|]); rewrite I3; lia.
    + destruct Ht as [Hr' Hu]. rewrite (returned_stays _ turns Hr'), (proj2 (Z.leb_gt _ _)) by lia. split; [done|]. split; [done|]. rewrite Hc. lia.
Qed.
End Outage.

(** ** Witnesses *)

Lemma quiet_pipeline : pipeline_step (fun db => db).
Proof. by split. Qed.

Definition demo_credit_environment (stopped : bool) : credit_environment :=
  mkCreditEnvironment 10 20 350 1000000 360 stopped (fun db => db) (fun db => db) (fun db => db) (fun db => db).

Lemma demo_pipeline stopped : credit_pipeline (demo_credit_environment stopped).
Proof. split; apply quiet_pipeline. Qed.

(** Too late for the deadline: the frame-set is released and the credit
    answered. *)
Definition demo_handled : client_state * result client_error unit :=
  _handle_credit (H := transparent_hashing) (fun _ => Ok "pixels") (fun _ => "wire") (mkClientState demo_db1 [] 0 0 0)
    (demo_credit_environment false) demo_processor_credit demo_relay_session (Some "r1") demo_protocol_config None.

Example demo_handled_outgoing :
  ct_outgoing demo_handled.1 =
    [EnvNoData (mkNoData (cr_scope demo_processor_credit) "EXPIRED_BEFORE_OFFER" (Some demo_key))] /\
  live_state_of (ct_db demo_handled.1) "u1" = Some "EXPIRED_BEFORE_OFFER".
Proof. by vm_compute. Qed.

Lemma credit_answered_once_witness :
  demo_handled.2 = Ok tt /\ one_answer demo_processor_credit false (mkClientState demo_db1 [] 0 0 0) demo_handled.1.
Proof.
  assert (demo_handled.2 = Ok tt) as Hr by (vm_compute; reflexivity). split; [exact Hr|].
  destruct demo_handled as [st' r] eqn:E. cbn [fst snd] in *. subst r.
  exact (credit_answered_once (H := transparent_hashing) (fun _ => Ok "pixels") (fun _ => "wire")
    (demo_credit_environment false) demo_processor_credit demo_relay_session (Some "r1") demo_protocol_config None
    (mkClientState demo_db1 [] 0 0 0) st' (Ok tt) (demo_pipeline false) demo_db1_ok E).
Defined.

Lemma reconciliation_settles_witness : exists db',
  _apply_reconciliation demo_claimed (fun _ db => db)
    (mkReconciliationResponse [mkFrameStatusEvent (mkFrameSetKey "r9" 9 "u9") 4 0] true) 500 = (db', Ok true) /\
  in_flight demo_claimed = Some "u1" /\ forall uid, in_flight db' <> Some uid.
Proof.
  destruct (_apply_reconciliation demo_claimed (fun _ db => db)
    (mkReconciliationResponse [mkFrameStatusEvent (mkFrameSetKey "r9" 9 "u9") 4 0] true) 500) as [db' r] eqn:E.
  assert (r = Ok true) as -> by (change r with (db', r).2; rewrite <- E; vm_compute; reflexivity).
  exists db'. split; [reflexivity|]. split; [vm_compute; reflexivity|]. intros uid Hi.
  destruct (claim_in_flight demo_db1 demo_db1 demo_credit (Some 350) 0 demo_claimed _ demo_db1_ok demo_db1_ok
    (reflexivity _) (surjective_pairing _)) as [Hs _].
  destruct (reconciliation_settles _ _ _ _ _ (fun _ => quiet_pipeline) Hs E) as (_ & Hall).
  destruct (Hall uid Hi) as (Hi' & (status & Hin & Hu) & _).
  apply list_elem_of_singleton in Hin as ->. subst uid. revert Hi'. vm_compute. discriminate.
Defined.

(** The manifest of the newest frame-set cannot be read, so that no hello can
    be built: the 1025th failure ends the thread, although nobody stopped
    it. *)
#[local] Instance no_provider : RelayCredentialProvider unit unit.
Proof. by refine {| resolve_credential p _ _ := (p, Raise RelayCredentialSessionInactive) |}. Defined.

Definition demo_turn : connection_script (E := unit) * float64 :=
  (mkConnectionScript (mkBeginEnvironment _ 0 0 0 false (fun _ db => db) tt) [] None (fun _ db => db) 0, float_half).

Definition demo_thread : run_state (S := unit) :=
  mkRunState (mkClientState demo_db1 [] 0 0 0) (mkCredentialSources ∅ None) 0 0 None false None.

Abbreviation demo_wire := (fun _ : ProducerEnvelope => "wire").
Abbreviation demo_bytes := (fun _ : string => Ok "pixels" : result string string).

Lemma demo_connection : _run_connection (H := transparent_hashing) demo_bytes demo_wire (ru_client demo_thread) (ru_sources demo_thread)
    demo_protocol_config demo_turn.1 = (ru_client demo_thread, ru_sources demo_thread, Raise (ClientProtocolError (OtherException "JSONDecodeError"))).
Proof. vm_compute. reflexivity. Qed.

Lemma demo_outage n : forall u, ru_client u = ru_client demo_thread -> ru_sources u = ru_sources demo_thread ->
  outage (H := transparent_hashing) demo_bytes demo_wire default_backoff demo_protocol_config u (replicate n demo_turn).
Proof.
  induction n as [|n IH]; intros u Hc Hs; [done|]. cbn [replicate outage]. split.
  - intros _. unfold connection_fails. by rewrite Hc, Hs, demo_connection.
  - apply IH; unfold run_turn; rewrite Hc, Hs, demo_connection; destruct (ru_returned u); try done;
      by destruct (delay default_backoff (ru_attempt u) demo_turn.2).
Qed.

Lemma outage_exact_witness :
  let u' := turns_of (H := transparent_hashing) demo_bytes demo_wire default_backoff demo_protocol_config demo_thread (replicate 1025 demo_turn) in
  ru_returned u' = true /\ ru_uncaught u' = Some FloatOverflowError /\ ru_reconnect_count u' = 1025.
Proof.
  pose proof (outage_exact (H := transparent_hashing) demo_bytes demo_wire default_backoff demo_protocol_config demo_thread (replicate 1025 demo_turn)
    eq_refl ltac:(cbn; lia) (demo_outage 1025 demo_thread eq_refl eq_refl)) as H.
  cbv zeta in H. rewrite length_replicate in H. exact H.
Defined.
