(* ===== verification/Lifecycle.v ===== *)
(** * Settings and lifecycle

    The settings of src/app/core/server.py, read from the environment when
    the module is imported, and what [startup_application] and
    [shutdown_application] of src/app/runtime/lifecycle.py do with the
    services: the state of the application is the state of
    [IngestServer.v] with the live client, the manager of camera sessions
    and the gRPC server. The experiment recorder and the log are left
    out. *)

From Stdlib Require Import Ascii.
From S2P Require Import Prelude Json Float64 Digest Identity SyncModels Config Database FileSystem Archive Reconciliation SyncService Matcher FrameBuffer.
From S2P Require Import SessionIdentity StreamState RelayClient RelayProtocol RelayCredentials Ingest CameraSessions.
From S2P Require Import IngestGate IngestServer LiveClient.

(** ** The settings *)

Record server_settings := mkServerSettings {
  DATABASE_URL : string;
  STORAGE_DIR : string;
  GRPC_INGEST_BIND : string;
  STREAM_SESSION_AUTH_ENABLED : bool;
  STREAM_CAMERA_INGEST_AUTH_ENABLED : bool;
  STREAM_SESSION_JWKS_URL : string;
  STREAM_SESSION_TOKEN_ISSUER : string;
  STREAM_SESSION_TOKEN_AUDIENCE : string;
  STREAM_CAMERA_INGEST_TOKEN_AUDIENCE : string;
  STREAM_SESSION_STATUS_URL_TEMPLATE : string;
  STREAM_CAMERA_CREDENTIAL_STATUS_URL_TEMPLATE : string;
  STREAM_RELAY_MODE : string;
  STREAM_RELAY_TARGET : string;
  STREAM_RELAY_TIMEOUT_SEC : option float64;
  STREAM_RELAY_V2_SHADOW_ENABLED : bool;
  STREAM_RELAY_V2_TARGET : string;
  STREAM_RELAY_V2_PROCESSING_PROFILE_DIGEST : string;
  STREAM_RELAY_V2_PRODUCER_FRESHNESS_BUDGET_MS : Z;
  STREAM_RELAY_V2_MAXIMUM_CLOCK_UNCERTAINTY_MS : Z;
  STREAM_RELAY_CREDENTIAL_ENABLED : bool;
  STREAM_RELAY_CREDENTIAL_URL_TEMPLATE : string;
  STREAM_RELAY_CREDENTIAL_AUDIENCE : string;
  STREAM_RELAY_CREDENTIAL_HTTP_TIMEOUT_SEC : float64;
  STREAM_WORKLOAD_TOKEN_URL : string;
  STREAM_WORKLOAD_CLIENT_ID : string;
  STREAM_WORKLOAD_CLIENT_SECRET : string;
  STREAM_WORKLOAD_SCOPE : string;
  STREAM_RELAY_V2_ALERT_RECEIVER_ENABLED : bool;
  STREAM_RELAY_V2_ALERT_RECEIVER_DATABASE_PATH : string;
  STREAM_SYNC_ENABLED : bool;
  STREAM_SYNC_WINDOW_MS : Z;
  STREAM_SYNC_EXPECTED_CAMERAS : list string;
  STREAM_SYNC_BUFFER_SIZE : Z;
  STREAM_SYNC_RECENT_LIMIT : Z;
  EXPERIMENT_ENABLED : bool;
  EXPERIMENT_LOG_DIR : string;
  EXPERIMENT_ID : string;
  EXPERIMENT_DURATION_SEC : option float64;
}.

(** [str(Path(base) / name)]: no empty or "." parts. *)
Definition path_join (base name : string) : string :=
  let parts := filter (fun p => truthy p = true /\ p <> ".") (split_char "/" base) in
  let root := if starts_with "/" base
              then if starts_with "//" base && negb (starts_with "///" base) then "//" else "/" else "" in
  root +:+ join "/" (parts ++ [name]).

Definition STREAM_RELAY_ENABLED (s : server_settings) : bool := bool_decide (STREAM_RELAY_MODE s = STREAM_RELAY_MODE_RAW).
Definition STREAM_FRAME_SET_RELAY_ENABLED (s : server_settings) : bool :=
  bool_decide (STREAM_RELAY_MODE s = STREAM_RELAY_MODE_FRAME_SET).

(** [value if value > 0 else None]. *)
Definition positive_float (x : float64) : option float64 := if float_ltb float_zero x then Some x else None.

(** [raise RuntimeError(message)] unless [b]. *)
Definition require (b : bool) (message : string) : result config_error unit := raise_unless b (ConfigRuntimeError message).

(** The four settings of the relay. *)
Definition load_relay (env : environ) : result config_error (string * string * option float64) :=
  legacy_raw ← get_optional_bool_env env "STREAM_RELAY_ENABLED" false;
  legacy_frame_set ← get_optional_bool_env env "STREAM_FRAME_SET_RELAY_ENABLED" false;
  mode ← resolve_stream_relay_mode (get_optional_str_env env "STREAM_RELAY_MODE" "") legacy_raw legacy_frame_set;
  let frame_set := bool_decide (mode = STREAM_RELAY_MODE_FRAME_SET) in
  let target := or_str (Some (get_optional_str_env env "STREAM_RELAY_TARGET" ""))
                  (if frame_set then get_optional_str_env env "STREAM_FRAME_SET_RELAY_TARGET" "" else "") in
  _ ← require (bool_decide (mode = STREAM_RELAY_MODE_OFF) || truthy target)
        "STREAM_RELAY_TARGET is required when STREAM_RELAY_MODE is raw or frame_set";
  timeout ← get_optional_float_env env "STREAM_RELAY_TIMEOUT_SEC" float_zero;
  legacy_timeout ← get_optional_float_env env "STREAM_FRAME_SET_RELAY_TIMEOUT_SEC" float_zero;
  let timeout := if float_leb timeout float_zero && frame_set && float_ltb float_zero legacy_timeout then legacy_timeout
                 else timeout in
  Ok (mode, target, positive_float timeout).

Definition load_settings (env : environ) : result config_error server_settings :=
  database_url ← get_required_env env "DATABASE_URL";
  storage_dir ← get_required_env env "STORAGE_DIR";
  let bind := get_optional_str_env env "GRPC_INGEST_BIND" "127.0.0.1:50052" in
  session_auth ← get_optional_bool_env env "STREAM_SESSION_AUTH_ENABLED" false;
  camera_auth ← get_optional_bool_env env "STREAM_CAMERA_INGEST_AUTH_ENABLED" false;
  let jwks_url := get_optional_str_env env "STREAM_SESSION_JWKS_URL" "" in
  let issuer := get_optional_str_env env "STREAM_SESSION_TOKEN_ISSUER" "" in
  let audience := get_optional_str_env env "STREAM_SESSION_TOKEN_AUDIENCE" "gc-data-plane" in
  let camera_audience := get_optional_str_env env "STREAM_CAMERA_INGEST_TOKEN_AUDIENCE" "gc-stream-ingest" in
  let session_status := get_optional_str_env env "STREAM_SESSION_STATUS_URL_TEMPLATE" "" in
  let credential_status := get_optional_str_env env "STREAM_CAMERA_CREDENTIAL_STATUS_URL_TEMPLATE" "" in
  _ ← require (negb (camera_auth && negb (contains "{credential_id}" credential_status)))
        ("STREAM_CAMERA_CREDENTIAL_STATUS_URL_TEMPLATE must contain {credential_id} " +:+
         "when camera ingest authentication is enabled");
  _ ← require (negb ((session_auth || camera_auth) && negb (truthy jwks_url && truthy issuer && truthy session_status)))
        ("STREAM_SESSION_JWKS_URL, STREAM_SESSION_TOKEN_ISSUER, and STREAM_SESSION_STATUS_URL_TEMPLATE are required " +:+
         "when ingest authentication is enabled");
  '(mode, target, timeout) ← load_relay env;
  shadow ← get_optional_bool_env env "STREAM_RELAY_V2_SHADOW_ENABLED" false;
  let v2_target := get_optional_str_env env "STREAM_RELAY_V2_TARGET" "" in
  let v2_digest := get_optional_str_env env "STREAM_RELAY_V2_PROCESSING_PROFILE_DIGEST" "" in
  freshness ← get_optional_int_env env "STREAM_RELAY_V2_PRODUCER_FRESHNESS_BUDGET_MS" 500;
  uncertainty ← get_optional_int_env env "STREAM_RELAY_V2_MAXIMUM_CLOCK_UNCERTAINTY_MS" 0;
  credential ← get_optional_bool_env env "STREAM_RELAY_CREDENTIAL_ENABLED" false;
  let credential_url := get_optional_str_env env "STREAM_RELAY_CREDENTIAL_URL_TEMPLATE" "" in
  let credential_audience := get_optional_str_env env "STREAM_RELAY_CREDENTIAL_AUDIENCE" "gc-processing-relay" in
  credential_timeout ← get_optional_float_env env "STREAM_RELAY_CREDENTIAL_HTTP_TIMEOUT_SEC" (float_of 2 0 false);
  let token_url := get_optional_str_env env "STREAM_WORKLOAD_TOKEN_URL" "" in
  let client_id := get_optional_str_env env "STREAM_WORKLOAD_CLIENT_ID" "gc-image-stream" in
  let client_secret := get_optional_str_env env "STREAM_WORKLOAD_CLIENT_SECRET" "" in
  let scope := get_optional_str_env env "STREAM_WORKLOAD_SCOPE" "" in
  _ ← (if credential then
         _ ← require shadow "relay credentials require the v2 relay endpoint to be enabled";
         _ ← require (truthy credential_url && truthy token_url && truthy client_id && truthy client_secret &&
                      truthy jwks_url && truthy issuer)
               ("Main relay credential URL, workload client settings, JWKS URL, " +:+
                "and issuer are required when relay credentials are enabled");
         require (negb (float_leb credential_timeout float_zero)) "relay credential HTTP timeout must be positive"
       else Ok tt);
  receiver ← get_optional_bool_env env "STREAM_RELAY_V2_ALERT_RECEIVER_ENABLED" false;
  let receiver_path := get_optional_str_env env "STREAM_RELAY_V2_ALERT_RECEIVER_DATABASE_PATH"
                         (path_join storage_dir "relay-v2-alert-receiver.db") in
  _ ← (if shadow then
         _ ← require (truthy v2_target) "STREAM_RELAY_V2_TARGET is required when v2 shadow is enabled";
         _ ← require (negb (negb (bool_decide (mode = STREAM_RELAY_MODE_OFF)) && bool_decide (v2_target = target)))
               ("STREAM_RELAY_V2_TARGET must differ from STREAM_RELAY_TARGET " +:+
                "when legacy and v2 relays are both enabled");
         _ ← require (session_auth || truthy v2_digest)
               ("STREAM_RELAY_V2_PROCESSING_PROFILE_DIGEST is required when v2 " +:+
                "shadow runs without Main session authentication");
         _ ← require (0 <? freshness) "STREAM_RELAY_V2_PRODUCER_FRESHNESS_BUDGET_MS must be positive";
         require (0 <=? uncertainty) "STREAM_RELAY_V2_MAXIMUM_CLOCK_UNCERTAINTY_MS must be nonnegative"
       else Ok tt);
  _ ← require (negb (receiver && negb (truthy receiver_path)))
        ("STREAM_RELAY_V2_ALERT_RECEIVER_DATABASE_PATH is required when the v2 alert receiver is enabled");
  sync ← get_optional_bool_env env "STREAM_SYNC_ENABLED" false;
  window ← get_optional_int_env env "STREAM_SYNC_WINDOW_MS" 50;
  let expected := get_optional_csv_env env "STREAM_SYNC_EXPECTED_CAMERAS" None in
  buffer ← get_optional_int_env env "STREAM_SYNC_BUFFER_SIZE" 120;
  recent ← get_optional_int_env env "STREAM_SYNC_RECENT_LIMIT" 20;
  experiment ← get_optional_bool_env env "EXPERIMENT_ENABLED" true;
  duration ← get_optional_float_env env "EXPERIMENT_DURATION_SEC" float_zero;
  Ok (mkServerSettings database_url storage_dir bind session_auth camera_auth jwks_url issuer audience camera_audience
        session_status credential_status mode target timeout shadow v2_target v2_digest freshness uncertainty
        credential credential_url credential_audience credential_timeout token_url client_id client_secret scope
        receiver receiver_path sync window expected buffer recent experiment
        (if experiment then get_optional_str_env env "EXPERIMENT_LOG_DIR" "" else "")
        (get_optional_str_env env "EXPERIMENT_ID" "") (positive_float duration)).

(** What holds of settings that were accepted. *)
Record settings_ok (s : server_settings) : Prop := {
  so_mode : STREAM_RELAY_MODE s ∈ VALID_STREAM_RELAY_MODES;
  so_target : STREAM_RELAY_MODE s <> STREAM_RELAY_MODE_OFF -> truthy (STREAM_RELAY_TARGET s) = true;
  so_bind : truthy (GRPC_INGEST_BIND s) = true;
  so_auth : STREAM_SESSION_AUTH_ENABLED s || STREAM_CAMERA_INGEST_AUTH_ENABLED s = true ->
    truthy (STREAM_SESSION_JWKS_URL s) = true /\ truthy (STREAM_SESSION_TOKEN_ISSUER s) = true /\
    truthy (STREAM_SESSION_STATUS_URL_TEMPLATE s) = true;
  so_audiences : truthy (STREAM_SESSION_TOKEN_AUDIENCE s) = true /\ truthy (STREAM_CAMERA_INGEST_TOKEN_AUDIENCE s) = true /\
    truthy (STREAM_RELAY_CREDENTIAL_AUDIENCE s) = true;
  so_credential_status : STREAM_CAMERA_INGEST_AUTH_ENABLED s = true ->
    contains "{credential_id}" (STREAM_CAMERA_CREDENTIAL_STATUS_URL_TEMPLATE s) = true;
  so_shadow : STREAM_RELAY_V2_SHADOW_ENABLED s = true ->
    truthy (STREAM_RELAY_V2_TARGET s) = true /\ 0 < STREAM_RELAY_V2_PRODUCER_FRESHNESS_BUDGET_MS s /\
    0 <= STREAM_RELAY_V2_MAXIMUM_CLOCK_UNCERTAINTY_MS s /\
    (STREAM_SESSION_AUTH_ENABLED s = false -> truthy (STREAM_RELAY_V2_PROCESSING_PROFILE_DIGEST s) = true) /\
    (STREAM_RELAY_MODE s <> STREAM_RELAY_MODE_OFF -> STREAM_RELAY_V2_TARGET s <> STREAM_RELAY_TARGET s);
  so_credential : STREAM_RELAY_CREDENTIAL_ENABLED s = true -> STREAM_RELAY_V2_SHADOW_ENABLED s = true /\
    truthy (STREAM_SESSION_JWKS_URL s) = true /\ truthy (STREAM_SESSION_TOKEN_ISSUER s) = true /\
    truthy (STREAM_WORKLOAD_TOKEN_URL s) = true /\ truthy (STREAM_WORKLOAD_CLIENT_ID s) = true /\
    truthy (STREAM_WORKLOAD_CLIENT_SECRET s) = true;
}.

(** ** What the checks establish *)

Lemma set_value_strip env name raw : set_value env name = Some raw -> truthy (strip raw) = true.
Proof. unfold set_value. destruct (env !! name) as [r|]; [|done]. destruct (truthy (strip r)) eqn:E; [|done]. by intros [= <-]. Qed.

Lemma optional_str_truthy env name default : truthy default = true -> truthy (get_optional_str_env env name default) = true.
Proof. intros H. unfold get_optional_str_env. destruct (set_value env name) eqn:E; [|done]. by eapply set_value_strip. Qed.

Lemma load_relay_ok env mode target timeout : load_relay env = Ok (mode, target, timeout) ->
  mode ∈ VALID_STREAM_RELAY_MODES /\ (mode <> STREAM_RELAY_MODE_OFF -> truthy target = true).
Proof.
  unfold load_relay, require. intros E. ok_steps. simplify_eq.
  split; [by eapply resolve_mode_valid|]. intros Hm.
  match goal with H : _ || _ = true |- _ => apply orb_true_iff in H as [H%bool_decide_eq_true|H]; done end.
Qed.

Lemma load_settings_ok env s : load_settings env = Ok s -> settings_ok s.
Proof.
  unfold load_settings, require. intros E. ok_steps. destruct x3 as [[mode target] timeout].
  apply load_relay_ok in Hx3 as [Hm Ht]. ok_steps. injection E as <-.
  split; cbn -[truthy contains get_optional_str_env VALID_STREAM_RELAY_MODES STREAM_RELAY_MODE_OFF].
  - done.
  - done.
  - by apply optional_str_truthy.
  - intros Ha. rewrite Ha in H0. cbn [andb] in H0. bools in H0. tauto.
  - split_and!; by apply optional_str_truthy.
  - intros ->. cbn [andb] in H. by bools in H.
  - intros ->. ok_steps. repeat match goal with H : raise_unless _ _ = Ok _ |- _ => apply raise_unless_Ok in H end.
    repeat match goal with H : _ |- _ => progress bools in H end. split_and!; try done; try lia.
    + intros ->. by destruct H4.
    + intros Hoff Heq. apply andb_false_iff in H3 as [H3|H3]; bools in H3; [by destruct Hoff|by destruct H3].
  - intros ->. ok_steps. repeat match goal with H : raise_unless _ _ = Ok _ |- _ => apply raise_unless_Ok in H end.
    repeat match goal with H : _ |- _ => progress bools in H end. tauto.
Qed.

(** ** The gRPC server *)

(** [bind.replace(":0", f":{port}")]. *)
Fixpoint replace_zero_port (port : Z) (bind : string) : string :=
  match bind with
  | EmptyString => ""
  | String c rest =>
      if bool_decide (c = ":"%char)
      then match rest with
           | String "0" rest => ":" +:+ pretty port +:+ replace_zero_port port rest
           | _ => String c (replace_zero_port port rest)
           end
      else String c (replace_zero_port port rest)
  end.

(** [port]: what [add_insecure_port] answers. [None]: no server runs. *)
Definition grpc_start (g : ingest_gate) (runtime : option string) (port : Z) : result config_error (option string) :=
  if negb (gt_enabled g) then Ok runtime
  else match runtime with
  | Some bind => Ok (Some bind)
  | None =>
      if negb (truthy (gt_bind g)) then Raise (ConfigRuntimeError "grpc ingest bind is required")
      else if port <=? 0 then Raise (ConfigRuntimeError ("failed to bind grpc ingest server: " +:+ gt_bind g))
      else Ok (Some (replace_zero_port port (gt_bind g)))
  end.

Definition grpc_stop (runtime : option string) : option string := None.

(** ** The application *)

Inductive lifecycle_error :=
| ArchiveIntegrityFailed
| ConfigFailed (e : config_error)
| CredentialFailed (e : session_error)
| RelayFailed (e : relay_error)
| SyncFailed (e : sync_error)
| ClientFailed (e : client_error).

Section Lifecycle.
Context `{Hashing} `{PyJWT}.

Record application := mkApplication {
  ap_server : IngestServer.server (V := versioned_verifier * caches);
  ap_runtime_bind : option string;
  ap_live : live_client;
  ap_provider : option relay_provider;
  ap_sessions : CameraSessionManager;
}.

Definition ap_pipeline (a : application) : IngestState := sv_pipeline (ap_server a).
Definition set_server (a : application) (sv : IngestServer.server) : application :=
  mkApplication sv (ap_runtime_bind a) (ap_live a) (ap_provider a) (ap_sessions a).
Definition set_pipeline (a : application) (p : IngestState) : application := set_server a (with_pipeline (ap_server a) p).

(** A call on the application: what it leaves, and whether it raised. *)
Definition act (A : Type) : Type := application -> application * result lifecycle_error A.
#[local] Instance act_ret : MRet act := fun A x a => (a, Ok x).
#[local] Instance act_bind : MBind act := fun A B f m a =>
  let '(a, r) := m a in match r with Ok x => f x a | Raise e => (a, Raise e) end.
Definition attempt {E A} (wrap : E -> lifecycle_error) (r : result E A) : act A := fun a =>
  (a, match r with Ok x => Ok x | Raise e => Raise (wrap e) end).
Definition when (b : bool) (m : act unit) : act unit := if b then m else mret tt.

(** What startup meets: the reconciliation's disk and clock, fresh
    identifiers, and the port the gRPC server gets. *)
Record startup_environment := mkStartupEnvironment {
  se_cwd : path;
  se_read_error : path -> option string;
  se_reconcile_run_id : string;
  se_clock_ms : Z;
  se_producer_session_id : string;
  se_capture_run_id : string;
  se_port : Z;
}.

Definition resolve_sync_expected_cameras (configured : list string) (grpc_cameras : list CameraInputConfig) : list string :=
  if bool_decide (configured = []) then ci_device_id <$> grpc_cameras else configured.

Definition resolve_selected_relay_target (s : server_settings) : string :=
  if STREAM_RELAY_ENABLED s || STREAM_FRAME_SET_RELAY_ENABLED s then STREAM_RELAY_TARGET s
  else if STREAM_RELAY_V2_SHADOW_ENABLED s then STREAM_RELAY_V2_TARGET s
  else "".

(** *** Startup, service by service *)

Definition reconcile_step (s : server_settings) (x : startup_environment) : act ArchiveReconciliationReport := fun a =>
  let p := ap_pipeline a in
  match reconcile_archive (se_cwd x) (ig_files p) (se_read_error x) (ig_db p) (STORAGE_DIR s) (se_reconcile_run_id x) None (se_clock_ms x) with
  | Some (db, report) => (set_pipeline a (p <| ig_db := db |>), Ok report)
  | None => (a, Raise ArchiveIntegrityFailed)
  end.

(** [ClientCredentialsTokenProvider]: its three arguments. *)
Definition check_token_provider (token_url client_id client_secret : string) : result session_error unit :=
  raise_unless (truthy token_url && truthy client_id && truthy client_secret)
    (SessionValueError "workload token URL, client ID, and secret are required").

Definition build_provider (s : server_settings) : result session_error (option relay_provider) :=
  if STREAM_RELAY_CREDENTIAL_ENABLED s then
    _ ← check_token_provider (STREAM_WORKLOAD_TOKEN_URL s) (STREAM_WORKLOAD_CLIENT_ID s) (STREAM_WORKLOAD_CLIENT_SECRET s);
    keys ← new_JwksKeyCache (STREAM_SESSION_JWKS_URL s) 300 2;
    verifier ← new_verifier (STREAM_SESSION_TOKEN_ISSUER s) (STREAM_RELAY_CREDENTIAL_AUDIENCE s) 5;
    provider ← new_relay_provider (STREAM_RELAY_CREDENTIAL_URL_TEMPLATE s) 15 15 verifier keys;
    Ok (Some provider)
  else Ok None.

Definition live_configure_step (s : server_settings) (x : startup_environment) (provider : option relay_provider) : act unit := fun a =>
  let shadow := STREAM_RELAY_V2_SHADOW_ENABLED s in
  let config := mkProtocolConfig (se_producer_session_id x) (Some (STREAM_RELAY_V2_PROCESSING_PROFILE_DIGEST s))
                  (STREAM_RELAY_V2_PRODUCER_FRESHNESS_BUDGET_MS s) (STREAM_RELAY_V2_MAXIMUM_CLOCK_UNCERTAINTY_MS s)
                  2 1 "STREAM_SERVER_UTC" in
  match LiveClient.configure (ap_live a) (STREAM_RELAY_V2_TARGET s) shadow shadow (if shadow then Some config else None) with
  | Ok live => (mkApplication (ap_server a) (ap_runtime_bind a) live provider (ap_sessions a), Ok tt)
  | Raise e => (a, Raise (ClientFailed e))
  end.

Definition live_step (s : server_settings) (x : startup_environment) : act unit :=
  provider ← attempt CredentialFailed (build_provider s); live_configure_step s x provider.

(** [configure], and [start] where the mode asks for the service. *)
Definition set_up_relay {A} (required target : string) (enabled : bool) (r : relay_service A) : relay_service A * result relay_error unit :=
  let r := configure_relay r (if enabled then target else "") enabled in
  if enabled then relay_start r required else (r, Ok tt).

Definition relay_step (s : server_settings) : act unit := fun a =>
  let p := ap_pipeline a in
  let '(r, e) := set_up_relay RELAY_TARGET_REQUIRED (STREAM_RELAY_TARGET s) (STREAM_RELAY_ENABLED s) (ig_relay p) in
  attempt RelayFailed e (set_pipeline a (p <| ig_relay := r |>)).

Definition frame_set_relay_step (s : server_settings) : act unit := fun a =>
  let p := ap_pipeline a in
  let '(r, e) := set_up_relay FRAME_SET_RELAY_TARGET_REQUIRED (STREAM_RELAY_TARGET s) (STREAM_FRAME_SET_RELAY_ENABLED s)
    (fr_service (ig_frame_set_relay p)) in
  attempt RelayFailed e (set_pipeline a (p <| ig_frame_set_relay := with_service (ig_frame_set_relay p) r |>)).

Definition sync_step (s : server_settings) (x : startup_environment) (grpc_cameras : list CameraInputConfig) : act unit := fun a =>
  let p := ap_pipeline a in
  let '(sync, e) := SyncService.configure (ig_sync p) (STREAM_SYNC_ENABLED s)
      (resolve_sync_expected_cameras (STREAM_SYNC_EXPECTED_CAMERAS s) grpc_cameras) (STREAM_SYNC_WINDOW_MS s)
      (STREAM_SYNC_BUFFER_SIZE s) (STREAM_SYNC_RECENT_LIMIT s) (se_capture_run_id x) in
  attempt SyncFailed e (set_pipeline a (p <| ig_sync := sync |>)).

Definition live_start_step (s : server_settings) : act unit := when (STREAM_RELAY_V2_SHADOW_ENABLED s) (fun a =>
  (mkApplication (ap_server a) (ap_runtime_bind a) (LiveClient.start (ap_live a)) (ap_provider a) (ap_sessions a), Ok tt)).

(** The verifier of the ingest server; both verifiers share their caches. *)
Definition build_ingest_verifier (s : server_settings) : result session_error (option (versioned_verifier * caches)) :=
  if STREAM_SESSION_AUTH_ENABLED s || STREAM_CAMERA_INGEST_AUTH_ENABLED s then
    keys ← new_JwksKeyCache (STREAM_SESSION_JWKS_URL s) 300 2;
    sessions ← new_SessionStatusCache (STREAM_SESSION_STATUS_URL_TEMPLATE s) 1 1;
    legacy ← (if STREAM_SESSION_AUTH_ENABLED s
              then v ← new_verifier (STREAM_SESSION_TOKEN_ISSUER s) (STREAM_SESSION_TOKEN_AUDIENCE s) 5; Ok (Some v)
              else Ok None);
    '(camera, credentials) ←
      (if STREAM_CAMERA_INGEST_AUTH_ENABLED s
       then credentials ← new_CameraCredentialStatusCache (STREAM_CAMERA_CREDENTIAL_STATUS_URL_TEMPLATE s) 1 1;
            v ← new_verifier (STREAM_SESSION_TOKEN_ISSUER s) (STREAM_CAMERA_INGEST_TOKEN_AUDIENCE s) 5;
            Ok (Some v, Some credentials)
       else Ok (None, None));
    verifier ← new_VersionedIngestCredentialVerifier legacy camera;
    Ok (Some (verifier, mkCaches keys (Some sessions) credentials))
  else Ok None.

Definition configure_gate (a : application) (g : ingest_gate) (v : option (versioned_verifier * caches)) : application :=
  let sv := ap_server a in
  set_server a (mkServer g v (sv_sessions sv) (sv_cameras sv) (sv_pipeline sv)).

(** Without a camera of the kind, the server is configured not to run. *)
Definition grpc_off_step : act unit := fun a => (configure_gate a (IngestGate.configure "" false None []) None, Ok tt).

Definition grpc_on_step (s : server_settings) (x : startup_environment) (device_ids : list string)
    (verifier : option (versioned_verifier * caches)) : act unit := fun a =>
  let a := configure_gate a (IngestGate.configure (GRPC_INGEST_BIND s) true None (Some <$> device_ids)) verifier in
  match grpc_start (sv_gate (ap_server a)) (ap_runtime_bind a) (se_port x) with
  | Ok runtime => (mkApplication (ap_server a) runtime (ap_live a) (ap_provider a) (ap_sessions a), Ok tt)
  | Raise e => (a, Raise (ConfigFailed e))
  end.

Definition grpc_step (s : server_settings) (x : startup_environment) (grpc_cameras : list CameraInputConfig) : act unit :=
  if bool_decide (grpc_cameras = []) then grpc_off_step
  else verifier ← attempt CredentialFailed (build_ingest_verifier s);
       grpc_on_step s x (ci_device_id <$> grpc_cameras) verifier.

Definition sessions_step (worker_cameras : list CameraInputConfig) : act unit := fun a =>
  if bool_decide (worker_cameras = []) then (a, Ok tt)
  else
    let '(m, e) := start_all (ap_sessions a) worker_cameras in
    attempt ConfigFailed e (mkApplication (ap_server a) (ap_runtime_bind a) (ap_live a) (ap_provider a) m).

Definition cameras_of_kind (kinds : list string) (l : list CameraInputConfig) : list CameraInputConfig :=
  filter (fun c => ci_source_kind c ∈ kinds) l.

Definition startup_application (s : server_settings) (cameras_enabled : bool) (env : environ) (x : startup_environment) : act unit :=
  _ ← reconcile_step s x;
  _ ← live_step s x;
  cameras ← attempt ConfigFailed (if cameras_enabled then build_camera_session_configs_from_env env else Ok []);
  let grpc_cameras := cameras_of_kind ["grpc"] cameras in
  _ ← relay_step s;
  _ ← frame_set_relay_step s;
  _ ← sync_step s x grpc_cameras;
  _ ← live_start_step s;
  _ ← grpc_step s x grpc_cameras;
  sessions_step (cameras_of_kind ["mjpeg"; "snapshot"] cameras).

(** *** Shutdown *)

(** What [stop] of the live client meets, and the next capture run. *)
Record shutdown_environment := mkShutdownEnvironment {
  sh_others : interference;
  sh_store_ms : Z;
  sh_ended : bool;
  sh_capture_run_id : string;
}.

Definition relay_stop {A} (r : relay_service A) : relay_service A :=
  match rs_runtime r with Some _ => relay_forget (relay_signal_stop r) | None => r end.

Definition stop_live_step (x : shutdown_environment) : act unit := fun a =>
  let p := ap_pipeline a in
  let '(live, db, e) := LiveClient.stop (ap_live a) (ig_db p) (sh_others x) (sh_store_ms x) (sh_ended x) in
  let a := mkApplication (ap_server a) (ap_runtime_bind a) live (ap_provider a) (ap_sessions a) in
  attempt ClientFailed e (set_pipeline a (p <| ig_db := db |>)).

Definition clear_sync_step (x : shutdown_environment) : act unit := fun a =>
  let p := ap_pipeline a in
  let '(sync, e) := service_clear (ig_sync p) (sh_capture_run_id x) in
  attempt SyncFailed e (set_pipeline a (p <| ig_sync := sync |>)).

(** The services that only let their threads go, and the camera sessions told
    to stop: no service keeps them, their threads may outlive the join. *)
Definition stop_services (a : application) : application * list ManagedCameraSession :=
  let '(sessions, stopped) := stop_all (ap_sessions a) in
  let a := mkApplication (ap_server a) (grpc_stop (ap_runtime_bind a)) (ap_live a) (ap_provider a) sessions in
  let p := ap_pipeline a in
  let p := p <| ig_relay ::= relay_stop |> in
  (set_pipeline a (p <| ig_frame_set_relay ::= fun r => with_service r (relay_stop (fr_service r)) |>), stopped).

Definition shutdown_application (x : shutdown_environment) (a : application)
    : application * result lifecycle_error unit * list ManagedCameraSession :=
  let '(a, stopped) := stop_services a in
  ((_ ← stop_live_step x; clear_sync_step x) a, stopped).
End Lifecycle.

(** ** What startup does

    [does m a b a' v]: on [a], [m] leaves [a'] and returns [v] when [b]
    holds, and raises when it does not. *)

Section Started.
Context `{Hashing} `{PyJWT}.
#[local] Existing Instances act_ret act_bind.

Definition does {A} (m : act A) (a : application) (b : bool) (a' : application) (v : A) : Prop :=
  if b then m a = (a', Ok v) else is_ok (m a).2 = false.

Lemma does_bind {A B} (m : act A) (f : A -> act B) a b b' a1 a' v w :
  does m a b a1 v -> (b = true -> does (f v) a1 b' a' w) -> does (m ≫= f) a (b && b') a' w.
Proof.
  unfold does, mbind, act_bind. destruct b; cbn [andb].
  - intros -> Hf. by apply Hf.
  - destruct (m a) as [a2 [x|e]]; done.
Qed.

Lemma does_attempt {E A} (wrap : E -> lifecycle_error) (r : result E A) a v :
  (is_ok r = true -> r = Ok v) -> does (attempt wrap r) a (is_ok r) a v.
Proof. intros Hv. unfold does, attempt. destruct r as [y|e]; cbn in *; [specialize (Hv eq_refl); by simplify_eq|done]. Qed.

Lemma does_last {A} (m : act A) a b a' v : does m a (b && true) a' v -> does m a b a' v.
Proof. by rewrite andb_true_r. Qed.

Context (s : server_settings) (x : startup_environment) (Hs : settings_ok s).

(** *** The conditions *)

Definition archive_reconciled (p : IngestState) : option (database * ArchiveReconciliationReport) :=
  reconcile_archive (se_cwd x) (ig_files p) (se_read_error x) (ig_db p) (STORAGE_DIR s) (se_reconcile_run_id x) None (se_clock_ms x).

Definition credential_url_ok : bool :=
  negb (STREAM_RELAY_CREDENTIAL_ENABLED s) ||
  (contains "{tenant_id}" (STREAM_RELAY_CREDENTIAL_URL_TEMPLATE s) &&
   contains "{processing_job_id}" (STREAM_RELAY_CREDENTIAL_URL_TEMPLATE s)).

Definition auth_enabled : bool := STREAM_SESSION_AUTH_ENABLED s || STREAM_CAMERA_INGEST_AUTH_ENABLED s.

Definition status_url_ok : bool :=
  negb auth_enabled || contains "{processing_job_id}" (STREAM_SESSION_STATUS_URL_TEMPLATE s).

Definition sync_sizes_ok : bool :=
  (1 <=? STREAM_SYNC_BUFFER_SIZE s) && (negb (STREAM_SYNC_ENABLED s) || (0 <=? STREAM_SYNC_RECENT_LIMIT s)).

(** *** Credentials *)

Lemma truthy_status_url : auth_enabled = true -> truthy (STREAM_SESSION_JWKS_URL s) = true /\
  truthy (STREAM_SESSION_TOKEN_ISSUER s) = true.
Proof. intros Ha. by destruct (so_auth _ Hs Ha) as (? & ? & _). Qed.

Lemma new_verifier_ok issuer audience leeway : truthy issuer = true -> truthy audience = true -> 0 <= leeway ->
  new_verifier issuer audience leeway = Ok (mkVerifierConfig issuer audience leeway).
Proof. intros H1 H2 H3. unfold new_verifier. rewrite H1, H2. cbn. destruct (Z.ltb_spec leeway 0); [lia|done]. Qed.

Lemma build_provider_ok : is_ok (build_provider s) = credential_url_ok /\
  forall p, build_provider s = Ok p -> (is_Some p <-> STREAM_RELAY_CREDENTIAL_ENABLED s = true).
Proof.
  unfold build_provider, credential_url_ok. destruct (STREAM_RELAY_CREDENTIAL_ENABLED s) eqn:Ec; cbn [negb orb].
  - destruct (so_credential _ Hs Ec) as (_ & Hj & Hi & Ht & Hc & Hk). destruct (so_audiences _ Hs) as (_ & _ & Ha).
    unfold check_token_provider, new_JwksKeyCache. rewrite Ht, Hc, Hk, Hj. cbn [andb raise_unless negb]. cbn.
    rewrite (new_verifier_ok _ _ 5 Hi Ha) by lia. cbn. unfold new_relay_provider.
    destruct (contains "{tenant_id}" _), (contains "{processing_job_id}" _); cbn; split; try done. by intros p [= <-].
  - split; [done|]. intros p [= <-]. split; [|done]. by intros [? ?].
Qed.

Lemma build_ingest_verifier_ok : is_ok (build_ingest_verifier s) = status_url_ok /\
  forall v, build_ingest_verifier s = Ok v -> (is_Some v <-> auth_enabled = true).
Proof.
  unfold build_ingest_verifier, status_url_ok. fold auth_enabled. destruct auth_enabled eqn:Ea; cbn [negb orb].
  - destruct (truthy_status_url Ea) as [Hj Hi]. destruct (so_audiences _ Hs) as (Ha1 & Ha2 & _).
    unfold new_JwksKeyCache, new_SessionStatusCache. rewrite Hj. cbn [negb]. cbn.
    destruct (contains "{processing_job_id}" (STREAM_SESSION_STATUS_URL_TEMPLATE s)); cbn; [|done].
    rewrite !new_verifier_ok by (done || lia). unfold auth_enabled in Ea.
    destruct (STREAM_SESSION_AUTH_ENABLED s), (STREAM_CAMERA_INGEST_AUTH_ENABLED s) eqn:Ei; try done; cbn;
      unfold new_CameraCredentialStatusCache; rewrite ?(so_credential_status _ Hs Ei); cbn; split; try done; by intros v [= <-].
  - split; [done|]. intros v [= <-]. split; [|done]. by intros [? ?].
Qed.

(** *** The steps *)

(** No service runs yet. *)
Record at_rest (a : application) : Prop := {
  ar_live : lc_thread (ap_live a) = false;
  ar_relay : rs_runtime (ig_relay (ap_pipeline a)) = None;
  ar_frame_set_relay : rs_runtime (fr_service (ig_frame_set_relay (ap_pipeline a))) = None;
  ar_grpc : ap_runtime_bind a = None;
  ar_sessions : ap_sessions a = [];
}.

Definition ok_or {E A} (d : A) (r : result E A) : A := match r with Ok v => v | Raise _ => d end.

Definition live_config : option ProtocolConfig :=
  if STREAM_RELAY_V2_SHADOW_ENABLED s
  then Some (mkProtocolConfig (se_producer_session_id x) (Some (STREAM_RELAY_V2_PROCESSING_PROFILE_DIGEST s))
               (STREAM_RELAY_V2_PRODUCER_FRESHNESS_BUDGET_MS s) (STREAM_RELAY_V2_MAXIMUM_CLOCK_UNCERTAINTY_MS s)
               2 1 "STREAM_SERVER_UTC")
  else None.

Definition live_configured (c : live_client) : live_client :=
  let shadow := STREAM_RELAY_V2_SHADOW_ENABLED s in
  mkLiveClient shadow (STREAM_RELAY_V2_TARGET s) shadow live_config None (lc_stop_event c) (lc_thread c) (lc_alive c).

Lemma does_live a : lc_thread (ap_live a) = false ->
  does (live_step s x) a (credential_url_ok)
    (mkApplication (ap_server a) (ap_runtime_bind a) (live_configured (ap_live a)) (ok_or None (build_provider s)) (ap_sessions a)) tt.
Proof.
  intros Ht. apply does_last. unfold live_step. destruct build_provider_ok as [Hb _]. rewrite <- Hb.
  apply (does_bind _ _ _ _ _ a _ (ok_or None (build_provider s))).
  - apply does_attempt. by destruct (build_provider s).
  - intros _. unfold does, live_configure_step, LiveClient.configure, live_configured. rewrite Ht. cbn [andb].
    unfold live_config. destruct (STREAM_RELAY_V2_SHADOW_ENABLED s) eqn:Ev; [|done].
    destruct (so_shadow _ Hs Ev) as (-> & _). done.
Qed.

Definition relay_set_up {A} (target : string) (enabled : bool) (r : relay_service A) : relay_service A :=
  let r := configure_relay r (if enabled then target else "") enabled in
  if enabled then r <| rs_last_error := None |> <| rs_workers ::= fun ws => ws ++ [(AtLoop, false)] |>
                    <| rs_runtime := Some (length (rs_workers r)) |>
  else r.

Lemma set_up_relay_ok {A} required target enabled (r : relay_service A) : rs_runtime r = None -> (enabled = true -> truthy target = true) ->
  set_up_relay required target enabled r = (relay_set_up target enabled r, Ok tt).
Proof.
  intros Hr Ht. unfold set_up_relay, relay_set_up. destruct enabled; [|done]. unfold relay_start, running. cbn.
  by rewrite (Ht eq_refl), Hr.
Qed.

Lemma relay_target_ok mode : bool_decide (STREAM_RELAY_MODE s = mode) = true -> mode <> STREAM_RELAY_MODE_OFF ->
  truthy (STREAM_RELAY_TARGET s) = true.
Proof. intros <-%bool_decide_eq_true Hm. by apply (so_target _ Hs). Qed.

Definition sync_cameras (grpc_cameras : list CameraInputConfig) : list string :=
  resolve_sync_expected_cameras (STREAM_SYNC_EXPECTED_CAMERAS s) grpc_cameras.

Definition sync_set_up (grpc_cameras : list CameraInputConfig) (y : StreamSyncService) : StreamSyncService :=
  (SyncService.configure y (STREAM_SYNC_ENABLED s) (sync_cameras grpc_cameras) (STREAM_SYNC_WINDOW_MS s)
     (STREAM_SYNC_BUFFER_SIZE s) (STREAM_SYNC_RECENT_LIMIT s) (se_capture_run_id x)).1.

Lemma sync_configure_ok y cameras : is_ok (SyncService.configure y (STREAM_SYNC_ENABLED s) cameras (STREAM_SYNC_WINDOW_MS s)
     (STREAM_SYNC_BUFFER_SIZE s) (STREAM_SYNC_RECENT_LIMIT s) (se_capture_run_id x)).2 = sync_sizes_ok.
Proof.
  unfold SyncService.configure, sync_sizes_ok, new_SyncFrameBufferManager, new_SyncMatcher.
  destruct (Z.ltb_spec (STREAM_SYNC_BUFFER_SIZE s) 1), (Z.leb_spec 1 (STREAM_SYNC_BUFFER_SIZE s)); try lia; [done|].
  destruct (STREAM_SYNC_ENABLED s); [|done]. cbn.
  destruct (Z.ltb_spec (STREAM_SYNC_RECENT_LIMIT s) 0), (Z.leb_spec 0 (STREAM_SYNC_RECENT_LIMIT s)); try lia; done.
Qed.

Lemma does_sync grpc_cameras a : does (sync_step s x grpc_cameras) a sync_sizes_ok
  (set_pipeline a ((ap_pipeline a) <| ig_sync ::= sync_set_up grpc_cameras |>)) tt.
Proof.
  rewrite <- (sync_configure_ok (ig_sync (ap_pipeline a)) (sync_cameras grpc_cameras)).
  unfold does, sync_step, attempt, sync_set_up. unfold sync_cameras. cbn.
  by destruct (SyncService.configure _ _ _ _ _ _ _) as [y [[]|e]].
Qed.

Definition pipeline_set_up (db : database) (grpc_cameras : list CameraInputConfig) (p : IngestState) : IngestState :=
  p <| ig_db := db |> <| ig_relay ::= relay_set_up (STREAM_RELAY_TARGET s) (STREAM_RELAY_ENABLED s) |>
    <| ig_frame_set_relay ::= fun r => mkFrameSetRelay
         (relay_set_up (STREAM_RELAY_TARGET s) (STREAM_FRAME_SET_RELAY_ENABLED s) (fr_service r)) (fr_last_frame_set_id r) |>
    <| ig_sync ::= sync_set_up grpc_cameras |>.

(** Everything but the gRPC server and the camera sessions. *)
Definition services_set_up (db : database) (grpc_cameras : list CameraInputConfig) (a : application) : application :=
  mkApplication (with_pipeline (ap_server a) (pipeline_set_up db grpc_cameras (ap_pipeline a))) (ap_runtime_bind a)
    (if STREAM_RELAY_V2_SHADOW_ENABLED s then LiveClient.start (live_configured (ap_live a)) else live_configured (ap_live a))
    (ok_or None (build_provider s)) (ap_sessions a).

Definition gate_set_up (grpc_cameras : list CameraInputConfig) : ingest_gate :=
  if bool_decide (grpc_cameras = []) then IngestGate.configure "" false None []
  else IngestGate.configure (GRPC_INGEST_BIND s) true None (Some <$> (ci_device_id <$> grpc_cameras)).

Definition started_application (db : database) (grpc_cameras worker_cameras : list CameraInputConfig) (a : application) : application :=
  let a := configure_gate (services_set_up db grpc_cameras a) (gate_set_up grpc_cameras)
             (if bool_decide (grpc_cameras = []) then None else ok_or None (build_ingest_verifier s)) in
  mkApplication (ap_server a) (if bool_decide (grpc_cameras = []) then None else Some (replace_zero_port (se_port x) (GRPC_INGEST_BIND s)))
    (ap_live a) (ap_provider a) (started worker_cameras).

Definition grpc_ok (grpc_cameras : list CameraInputConfig) : bool :=
  bool_decide (grpc_cameras = []) || (status_url_ok && (0 <? se_port x)).

Lemma does_grpc grpc_cameras a : ap_runtime_bind a = None ->
  let a1 := configure_gate a (gate_set_up grpc_cameras)
             (if bool_decide (grpc_cameras = []) then None else ok_or None (build_ingest_verifier s)) in
  does (grpc_step s x grpc_cameras) a (grpc_ok grpc_cameras)
    (mkApplication (ap_server a1) (if bool_decide (grpc_cameras = []) then None else Some (replace_zero_port (se_port x) (GRPC_INGEST_BIND s)))
       (ap_live a1) (ap_provider a1) (ap_sessions a1)) tt.
Proof.
  intros Hr a1. unfold grpc_step, grpc_ok, gate_set_up in *. destruct (bool_decide (grpc_cameras = [])); cbn [orb].
  - unfold does, grpc_off_step, a1. cbn. destruct a. cbn in Hr. by subst.
  - destruct build_ingest_verifier_ok as [Hb _]. rewrite <- Hb.
    apply (does_bind _ _ _ _ _ a _ (ok_or None (build_ingest_verifier s))).
    + apply does_attempt. by destruct (build_ingest_verifier s).
    + intros _. unfold does, grpc_on_step. cbn [ap_runtime_bind configure_gate set_server]. rewrite Hr.
      unfold grpc_start. cbn [ap_server set_server configure_gate sv_gate]. cbn [gt_enabled gt_bind IngestGate.configure fresh_collection negb].
      rewrite (so_bind _ Hs). cbn [negb].
      destruct (Z.leb_spec (se_port x) 0), (Z.ltb_spec 0 (se_port x)); try lia; done.
Qed.

Lemma start_all_workers l : (forall c, c ∈ l -> ci_source_kind c ∈ ["mjpeg"; "snapshot"]) ->
  is_ok (start_all [] l).2 = bool_decide (NoDup (ci_device_id <$> l)) /\
  (is_ok (start_all [] l).2 = true -> start_all [] l = (started l, Ok tt)).
Proof.
  intros Hk. destruct (start_all_spec [] l) as (good & rest & -> & [Hn Hall] & Hm & Hok & Hstop).
  assert (rest = [] <-> NoDup (ci_device_id <$> good ++ rest)) as Hrest.
  { split; [intros ->; by rewrite app_nil_r|]. intros Hnd. destruct rest as [|c rest]; [done|]. exfalso.
    apply (Hstop c rest eq_refl). split; [|intros d Hd; split; [set_solver|apply Hk; set_solver]].
    rewrite fmap_app in Hnd |- *. apply NoDup_app in Hnd as (H1 & H2 & H3). cbn in H3. apply NoDup_cons in H3 as [H3 _].
    apply NoDup_app. split; [done|]. split; [|apply NoDup_singleton]. intros d Hd. cbn in *. set_solver. }
  split.
  - apply Bool.eq_iff_eq_true. rewrite Hok, bool_decide_eq_true. exact Hrest.
  - intros He. apply Hok in He as ->. rewrite app_nil_r in *. destruct (start_all [] good) as [m [[]|e]]; cbn in *; [by subst|].
    discriminate (proj2 Hok eq_refl).
Qed.

Lemma does_sessions l a : ap_sessions a = [] -> (forall c, c ∈ l -> ci_source_kind c ∈ ["mjpeg"; "snapshot"]) ->
  does (sessions_step l) a (bool_decide (NoDup (ci_device_id <$> l)))
    (mkApplication (ap_server a) (ap_runtime_bind a) (ap_live a) (ap_provider a) (started l)) tt.
Proof.
  intros Ha Hk. destruct (start_all_workers l Hk) as [Hok He]. rewrite <- Hok. unfold does, sessions_step. rewrite Ha.
  clear Hok. case_bool_decide as Hl; [subst l; cbn; destruct a; cbn in Ha; by subst|].
  destruct (is_ok (start_all [] l).2) eqn:E; [by rewrite (He eq_refl)|]. by destruct (start_all [] l) as [m [u|e]].
Qed.

Lemma does_relay a : rs_runtime (ig_relay (ap_pipeline a)) = None -> does (relay_step s) a true
  (set_pipeline a ((ap_pipeline a) <| ig_relay ::= relay_set_up (STREAM_RELAY_TARGET s) (STREAM_RELAY_ENABLED s) |>)) tt.
Proof. intros Hr. unfold does, relay_step. by rewrite set_up_relay_ok by (done || by intros Hb; eapply relay_target_ok). Qed.

Lemma does_frame_set_relay a : rs_runtime (fr_service (ig_frame_set_relay (ap_pipeline a))) = None -> does (frame_set_relay_step s) a true
  (set_pipeline a ((ap_pipeline a) <| ig_frame_set_relay ::= fun r => mkFrameSetRelay
     (relay_set_up (STREAM_RELAY_TARGET s) (STREAM_FRAME_SET_RELAY_ENABLED s) (fr_service r)) (fr_last_frame_set_id r) |>)) tt.
Proof. intros Hr. unfold does, frame_set_relay_step. by rewrite set_up_relay_ok by (done || by intros Hb; eapply relay_target_ok). Qed.

Lemma does_live_start a : does (live_start_step s) a true
  (mkApplication (ap_server a) (ap_runtime_bind a) (if STREAM_RELAY_V2_SHADOW_ENABLED s then LiveClient.start (ap_live a) else ap_live a)
     (ap_provider a) (ap_sessions a)) tt.
Proof. unfold does, live_start_step, when. destruct (STREAM_RELAY_V2_SHADOW_ENABLED s); [done|]. by destruct a. Qed.

Definition startup_ready (p : IngestState) (cameras : result config_error (list CameraInputConfig)) : bool :=
  bool_decide (is_Some (archive_reconciled p)) && (credential_url_ok && (is_ok cameras && (sync_sizes_ok &&
    (grpc_ok (cameras_of_kind ["grpc"] (ok_or [] cameras)) &&
     bool_decide (NoDup (ci_device_id <$> cameras_of_kind ["mjpeg"; "snapshot"] (ok_or [] cameras))))))).

Definition configured_cameras (cameras_enabled : bool) (env : environ) : result config_error (list CameraInputConfig) :=
  if cameras_enabled then build_camera_session_configs_from_env env else Ok [].

Definition reconciled_database (p : IngestState) : database :=
  match archive_reconciled p with Some (db, _) => db | None => ig_db p end.

Lemma startup_does cameras_enabled env a : at_rest a ->
  let cameras := configured_cameras cameras_enabled env in
  does (startup_application s cameras_enabled env x) a (startup_ready (ap_pipeline a) cameras)
    (started_application (reconciled_database (ap_pipeline a)) (cameras_of_kind ["grpc"] (ok_or [] cameras))
       (cameras_of_kind ["mjpeg"; "snapshot"] (ok_or [] cameras)) a) tt.
Proof.
  intros [Hl Hr Hf Hg Hm] cameras. unfold startup_application, startup_ready. fold (configured_cameras cameras_enabled env). fold cameras.
  assert (does (reconcile_step s x) a (bool_decide (is_Some (archive_reconciled (ap_pipeline a))))
    (set_pipeline a ((ap_pipeline a) <| ig_db := reconciled_database (ap_pipeline a) |>))
    (from_option snd (mkArchiveReconciliationReport "" 0 0 0 0 0) (archive_reconciled (ap_pipeline a)))) as H1.
  { unfold does, reconcile_step, reconciled_database. fold (archive_reconciled (ap_pipeline a)).
    destruct (archive_reconciled (ap_pipeline a)) as [[db report]|]; [by rewrite bool_decide_true by eauto|].
    by rewrite bool_decide_false by (intros [? ?]; done). }
  eapply does_bind; [exact H1|]. intros _.
  eapply does_bind; [by apply does_live|]. intros _.
  eapply does_bind; [apply (does_attempt _ _ _ (ok_or [] cameras)); by destruct cameras|]. intros _. cbn zeta.
  rewrite <- (andb_true_l (sync_sizes_ok && _)).
  eapply does_bind; [by apply does_relay|]. intros _.
  rewrite <- (andb_true_l (sync_sizes_ok && _)).
  eapply does_bind; [by apply does_frame_set_relay|]. intros _.
  eapply does_bind; [apply does_sync|]. intros _.
  rewrite <- (andb_true_l (grpc_ok _ && _)).
  eapply does_bind; [apply does_live_start|]. intros _.
  eapply does_bind; [by apply does_grpc|]. intros _.
  apply does_sessions; [done|]. intros c Hc. by apply list_elem_of_filter in Hc as [? _].
Qed.
End Started.

(** C29: When startup succeeds. With settings that [server.py] accepted and
    no service running, [startup_application] returns exactly when the
    reconciliation commits, the URL templates name what they must, the
    cameras are configured, the sizes of the synchronizer are in range, the
    gRPC server, if a camera needs it, gets its port, and no fetched camera
    is configured twice; it then leaves the application with every service
    set up as configured. In every other case it raises. *)
Theorem startup_exact `{Hashing} `{PyJWT} env s x cameras_enabled camera_env a :
  load_settings env = Ok s -> at_rest a -> let cameras := configured_cameras cameras_enabled camera_env in
  if startup_ready s x (ap_pipeline a) cameras
  then startup_application s cameras_enabled camera_env x a =
         (started_application s x (reconciled_database s x (ap_pipeline a)) (cameras_of_kind ["grpc"] (ok_or [] cameras))
            (cameras_of_kind ["mjpeg"; "snapshot"] (ok_or [] cameras)) a, Ok tt)
  else is_ok (startup_application s cameras_enabled camera_env x a).2 = false.
Proof. intros Hs%load_settings_ok Ha. exact (startup_does s x Hs cameras_enabled camera_env a Ha). Qed.

Lemma relay_set_up_running {A} target enabled (r : relay_service A) : rs_runtime r = None ->
  running (relay_set_up target enabled r) = enabled /\ (enabled = true -> rs_target (relay_set_up target enabled r) = Some target).
Proof.
  intros Hr. unfold relay_set_up, running. destruct enabled; cbn.
  - split; [|done]. unfold is_alive. cbn. by rewrite lookup_app_r, Nat.sub_diag by lia.
  - by rewrite Hr.
Qed.

(** What runs after startup. When it returned, each relay runs exactly
    in its mode, so never both, with the configured target; the live client
    and its credentials exactly when enabled; the gRPC server exactly when
    a camera needs it, verifying its streams exactly when authentication is
    on; one thread for each fetched camera; and the streams start from a
    fresh collection, where the theorems of the ingest server apply. *)
Theorem startup_wires `{Hashing} `{PyJWT} message_to_dict env s x cameras_enabled camera_env a a' :
  load_settings env = Ok s -> at_rest a -> startup_application s cameras_enabled camera_env x a = (a', Ok tt) ->
  let cameras := ok_or [] (configured_cameras cameras_enabled camera_env) in
  let grpc := cameras_of_kind ["grpc"] cameras in
  let relay := ig_relay (ap_pipeline a') in
  let frame_set_relay := fr_service (ig_frame_set_relay (ap_pipeline a')) in
  (running relay = true <-> STREAM_RELAY_MODE s = STREAM_RELAY_MODE_RAW) /\
  (running frame_set_relay = true <-> STREAM_RELAY_MODE s = STREAM_RELAY_MODE_FRAME_SET) /\
  (running relay = true -> rs_target relay = Some (STREAM_RELAY_TARGET s)) /\
  (running frame_set_relay = true -> rs_target frame_set_relay = Some (STREAM_RELAY_TARGET s)) /\
  lc_thread (ap_live a') && lc_alive (ap_live a') = STREAM_RELAY_V2_SHADOW_ENABLED s /\
  (is_Some (ap_provider a') <-> STREAM_RELAY_CREDENTIAL_ENABLED s = true) /\
  (is_Some (ap_runtime_bind a') <-> grpc <> []) /\
  (is_Some (sv_verifier (ap_server a')) <->
     grpc <> [] /\ (STREAM_SESSION_AUTH_ENABLED s = true \/ STREAM_CAMERA_INGEST_AUTH_ENABLED s = true)) /\
  (ap_sessions a').*1 = ci_device_id <$> cameras_of_kind ["mjpeg"; "snapshot"] cameras /\
  reached message_to_dict [] (ap_server a', ∅).
Proof.
  intros Hs%load_settings_ok Ha E cameras grpc. pose proof (startup_does s x Hs cameras_enabled camera_env a Ha) as Hd.
  unfold does in Hd. rewrite E in Hd. destruct (startup_ready _ _ _ _) eqn:Er; [|done]. injection Hd as ->.
  destruct Ha as [Hl Hr Hf Hg Hm]. fold cameras grpc.
  unfold startup_ready in Er. fold cameras in Er. fold grpc in Er. bools in Er. destruct Er as (_ & Hcred & _ & _ & Hgrpc & _).
  unfold started_application, configure_gate, services_set_up, set_server. cbn -[relay_set_up bool_decide IngestGate.configure].
  destruct (relay_set_up_running (STREAM_RELAY_TARGET s) (STREAM_RELAY_ENABLED s) (ig_relay (ap_pipeline a)) Hr) as [Hr1 Hr2].
  destruct (relay_set_up_running (STREAM_RELAY_TARGET s) (STREAM_FRAME_SET_RELAY_ENABLED s) (fr_service (ig_frame_set_relay (ap_pipeline a))) Hf) as [Hf1 Hf2].
  rewrite Hr1, Hf1. split; [apply bool_decide_eq_true|]. split; [apply bool_decide_eq_true|]. split; [exact Hr2|]. split; [exact Hf2|].
  split; [destruct (STREAM_RELAY_V2_SHADOW_ENABLED s) eqn:Ev; unfold LiveClient.start, live_configured; cbn; rewrite ?Hl; cbn; by rewrite ?Ev|].
  destruct (build_provider_ok s Hs) as [Hp1 Hp2]. destruct (build_ingest_verifier_ok s Hs) as [Hv1 Hv2].
  split; [destruct (build_provider s); [by apply Hp2|cbn in Hp1; congruence]|].
  split; [case_bool_decide; naive_solver|]. split; [|split; [apply started_keys|]].
  - unfold grpc_ok in Hgrpc. case_bool_decide as Hn; [by split; [intros []|intros []]|]. cbn [orb] in Hgrpc. bools in Hgrpc.
    destruct Hgrpc as [Hst _]. destruct (build_ingest_verifier s) as [v|e]; [|cbn in Hv1; congruence]. cbn [ok_or].
    rewrite (Hv2 v eq_refl). unfold auth_enabled. rewrite orb_true_iff. naive_solver.
  - unfold gate_set_up. destruct (bool_decide (grpc = [])); apply reach_start.
Qed.

(** *** Shutdown *)

Section Stopped.
Context `{Hashing} `{PyJWT}.

Lemma relay_stop_rests {A} (r : relay_service A) : rs_runtime (relay_stop r) = None /\
  forall i w, rs_runtime r = Some i -> rs_workers r !! i = Some w -> rs_workers (relay_stop r) !! i = Some (w.1, true).
Proof.
  unfold relay_stop, relay_forget, relay_signal_stop. destruct (rs_runtime r) as [j|] eqn:Er; [|by split].
  rewrite ?Er. cbn. split; [done|]. intros i w [= <-] Hw. by rewrite list_lookup_alter_eq, Hw.
Qed.

(** The two steps after the services have let go. *)
Definition stopped_services (a : application) : Prop :=
  ap_sessions a = [] /\ ap_runtime_bind a = None /\ rs_runtime (ig_relay (ap_pipeline a)) = None /\
  rs_runtime (fr_service (ig_frame_set_relay (ap_pipeline a))) = None.

Lemma stop_live_kept x a a' r : stop_live_step x a = (a', r) -> stopped_services a ->
  stopped_services a' /\ lc_stop_event (ap_live a') = true /\ (r = Ok tt -> lc_thread (ap_live a') = false) /\
  lc_alive (ap_live a') = lc_thread (ap_live a) && lc_alive (ap_live a) && negb (sh_ended x) /\
  ig_relay (ap_pipeline a') = ig_relay (ap_pipeline a) /\ ig_frame_set_relay (ap_pipeline a') = ig_frame_set_relay (ap_pipeline a).
Proof.
  unfold stop_live_step, LiveClient.stop, attempt. intros E Ha. destruct (lc_store (ap_live a)).
  - destruct (interrupt_flight _ _ _ _) as [db [u|e]]; injection E as <- <-; by split_and!.
  - injection E as <- <-. by split_and!.
Qed.

Lemma clear_sync_kept x a a' r : clear_sync_step x a = (a', r) -> stopped_services a ->
  stopped_services a' /\ ap_live a' = ap_live a /\
  ig_relay (ap_pipeline a') = ig_relay (ap_pipeline a) /\ ig_frame_set_relay (ap_pipeline a') = ig_frame_set_relay (ap_pipeline a).
Proof.
  unfold clear_sync_step, attempt. intros E Ha. destruct (service_clear _ _) as [sync [u|e]]; injection E as <- <-; by split_and!.
Qed.

(** Every session of [m] was told to stop. *)
Definition all_signalled (m : CameraSessionManager) (stopped : list ManagedCameraSession) : Prop :=
  mg_config <$> stopped = (fun p => mg_config p.2) <$> m /\
  Forall (fun s => rt_stop_event (mg_runtime s) = true) stopped.

Lemma stop_services_spec a : NoDup ((ap_sessions a).*1) ->
  stopped_services (stop_services a).1 /\ all_signalled (ap_sessions a) (stop_services a).2 /\
  ap_live (stop_services a).1 = ap_live a /\
  ig_relay (ap_pipeline (stop_services a).1) = relay_stop (ig_relay (ap_pipeline a)) /\
  fr_service (ig_frame_set_relay (ap_pipeline (stop_services a).1)) = relay_stop (fr_service (ig_frame_set_relay (ap_pipeline a))).
Proof.
  intros Hn. unfold stopped_services, all_signalled, stop_services, set_pipeline, set_server, ap_pipeline.
  destruct (sessions_cleared (ap_sessions a) Hn) as (Hs & Hc & Hf). destruct (stop_all (ap_sessions a)) as [m stopped].
  cbn in *. rewrite Hs. split_and!; try done; apply relay_stop_rests.
Qed.
End Stopped.

(** C30: Shutdown tells every worker to stop and lets go of it: whatever state
    the services are in, each camera session there was is among those told to
    stop, the worker of each relay and the live client have their stop event
    set, and afterwards no service holds a session, a gRPC server or a relay
    worker. A thread may outlive the time given to join it: that of the live
    client is alive exactly when it did. When nothing raised, the application
    is again in the state startup begins from. *)
Theorem shutdown_rests `{Hashing} `{PyJWT} x a : NoDup ((ap_sessions a).*1) ->
  let '(a', r, stopped) := shutdown_application x a in
  all_signalled (ap_sessions a) stopped /\ lc_stop_event (ap_live a') = true /\
  (forall i w, rs_runtime (ig_relay (ap_pipeline a)) = Some i -> rs_workers (ig_relay (ap_pipeline a)) !! i = Some w ->
     rs_workers (ig_relay (ap_pipeline a')) !! i = Some (w.1, true)) /\
  (forall i w, let relay b := fr_service (ig_frame_set_relay (ap_pipeline b)) in
     rs_runtime (relay a) = Some i -> rs_workers (relay a) !! i = Some w -> rs_workers (relay a') !! i = Some (w.1, true)) /\
  stopped_services a' /\
  lc_alive (ap_live a') = lc_thread (ap_live a) && lc_alive (ap_live a) && negb (sh_ended x) /\
  (r = Ok tt -> at_rest a').
Proof.
  intros Hn. destruct (stop_services_spec a Hn) as (H1 & Hsig & Hl & Hsr & Hsf). unfold shutdown_application, mbind, act_bind.
  destruct (stop_services a) as [a0 stopped]. cbn [fst snd] in *.
  destruct (stop_live_step x a0) as [a1 r1] eqn:E1.
  destruct (stop_live_kept _ _ _ _ E1 H1) as (H2 & Hev & Ht & Hal & Er & Ef). rewrite Hl in Hal.
  assert (forall a2, ig_relay (ap_pipeline a2) = ig_relay (ap_pipeline a1) -> ig_frame_set_relay (ap_pipeline a2) = ig_frame_set_relay (ap_pipeline a1) ->
    ap_live a2 = ap_live a1 -> stopped_services a2 ->
    all_signalled (ap_sessions a) stopped /\ lc_stop_event (ap_live a2) = true /\
    (forall i w, rs_runtime (ig_relay (ap_pipeline a)) = Some i -> rs_workers (ig_relay (ap_pipeline a)) !! i = Some w ->
       rs_workers (ig_relay (ap_pipeline a2)) !! i = Some (w.1, true)) /\
    (forall i w, let relay b := fr_service (ig_frame_set_relay (ap_pipeline b)) in
       rs_runtime (relay a) = Some i -> rs_workers (relay a) !! i = Some w -> rs_workers (relay a2) !! i = Some (w.1, true)) /\
    stopped_services a2 /\ lc_alive (ap_live a2) = lc_thread (ap_live a) && lc_alive (ap_live a) && negb (sh_ended x)) as Hw.
  { intros a2 E2 E3 E4 H3. cbv zeta beta. rewrite E2, E3, E4, Er, Ef, Hsr, Hsf.
    do 2 (split; [done|]). split; [apply relay_stop_rests|]. split; [apply relay_stop_rests|]. done. }
  destruct r1 as [[]|e].
  - destruct (clear_sync_step x a1) as [a2 r2] eqn:E2. destruct (clear_sync_kept _ _ _ _ E2 H2) as (H3 & El & Er2 & Ef2).
    destruct (Hw a2 Er2 Ef2 El H3) as (W1 & W2 & W3 & W4 & W5 & W6). do 6 (split; [done|]).
    intros _. destruct H3 as (S1 & S2 & S3 & S4). split; try done. rewrite El. by apply Ht.
  - destruct (Hw a1 eq_refl eq_refl eq_refl H2) as (W1 & W2 & W3 & W4 & W5 & W6). by do 6 (split; [done|]).
Qed.

(** A client whose thread outlived the join of [stop] is started again: the
    stop event that the old thread waits for is cleared, and two threads
    run. *)
Lemma restarted_client_keeps_old_thread c db others ms target config :
  lc_thread c = true -> lc_alive c = true -> lc_store c = false -> truthy target = true ->
  let '(c1, _, _) := LiveClient.stop c db others ms false in
  lc_stop_event c1 = true /\ lc_alive c1 = true /\
  exists c2, LiveClient.configure c1 target true true (Some config) = Ok c2 /\
    lc_stop_event (LiveClient.start c2) = false /\ lc_thread (LiveClient.start c2) = true.
Proof.
  intros Ht Ha Hs Htarget. unfold LiveClient.stop. rewrite Hs, Ht, Ha. cbn. do 2 (split; [done|]).
  unfold LiveClient.configure. cbn. rewrite Htarget. cbn. eexists. by split_and!.
Qed.

(** ** Witnesses *)

Definition demo_environ : environ := list_to_map [
  ("DATABASE_URL", "sqlite:///archive.db"); ("STORAGE_DIR", "srv"); ("STREAM_RELAY_MODE", " Raw ");
  ("STREAM_RELAY_TARGET", "proc:1"); ("CAMERA_SESSIONS", "cam1, cam2"); ("CAM1_INPUT_TYPE", "grpc");
  ("CAM2_STREAM_URL", "http://cam2"); ("STREAM_SYNC_ENABLED", "1")].

Definition demo_application : application (H0 := demo_jwt) :=
  mkApplication (H0 := demo_jwt)
    (mkServer (IngestGate.configure "" false None []) None ∅ ∅ (demo_state demo_new_sys))
    None (mkLiveClient false "" false None None false false false) None [].

Definition demo_startup_environment : startup_environment :=
  mkStartupEnvironment [] (fun _ => None) "reconcile-1" 1000 "producer-1" "run-1" 50052.

Lemma demo_at_rest : at_rest demo_application.
Proof. by split. Qed.

Lemma startup_exact_witness : exists s, load_settings demo_environ = Ok s /\
  startup_application (H := transparent_hashing) s true demo_environ demo_startup_environment demo_application =
    (started_application s demo_startup_environment
       (reconciled_database (H := transparent_hashing) s demo_startup_environment (ap_pipeline demo_application))
       (cameras_of_kind ["grpc"] (ok_or [] (configured_cameras true demo_environ)))
       (cameras_of_kind ["mjpeg"; "snapshot"] (ok_or [] (configured_cameras true demo_environ))) demo_application, Ok tt).
Proof.
  assert (match load_settings demo_environ with
          | Ok s => startup_ready (H := transparent_hashing) s demo_startup_environment (ap_pipeline demo_application)
                      (configured_cameras true demo_environ)
          | Raise _ => false end = true) as R by (vm_compute; reflexivity).
  destruct (load_settings demo_environ) as [s|e] eqn:E; [|discriminate R]. exists s. split; [reflexivity|].
  pose proof (startup_exact (H := transparent_hashing) demo_environ s demo_startup_environment true demo_environ demo_application E demo_at_rest) as T.
  cbv zeta in T. rewrite R in T. exact T.
Defined.

Lemma startup_wires_witness : exists s a, load_settings demo_environ = Ok s /\
  startup_application (H := transparent_hashing) s true demo_environ demo_startup_environment demo_application = (a, Ok tt) /\
  running (ig_relay (ap_pipeline a)) = true /\ running (fr_service (ig_frame_set_relay (ap_pipeline a))) = false /\
  (ap_sessions a).*1 = ["cam2"].
Proof.
  assert (match load_settings demo_environ with
          | Ok s => is_ok (startup_application (H := transparent_hashing) s true demo_environ demo_startup_environment demo_application).2 &&
                    bool_decide (STREAM_RELAY_MODE s = STREAM_RELAY_MODE_RAW) && bool_decide (STREAM_RELAY_MODE s <> STREAM_RELAY_MODE_FRAME_SET)
          | Raise _ => false end = true) as R by (vm_compute; reflexivity).
  assert (ci_device_id <$> cameras_of_kind ["mjpeg"; "snapshot"] (ok_or [] (configured_cameras true demo_environ)) = ["cam2"]) as Rc
    by (vm_compute; reflexivity).
  destruct (load_settings demo_environ) as [s|e] eqn:E; [|discriminate R].
  destruct (startup_application (H := transparent_hashing) s true demo_environ demo_startup_environment demo_application) as [a [[]|e]] eqn:Es;
    [|discriminate R].
  exists s, a. split; [reflexivity|]. split; [exact Es|]. bools in R. destruct R as [[_ R1] R2].
  destruct (startup_wires (H := transparent_hashing) (fun _ => []) demo_environ s demo_startup_environment true demo_environ demo_application a E
    demo_at_rest Es) as (H1 & H2 & _ & _ & _ & _ & _ & _ & H3 & _).
  split; [exact (proj2 H1 R1)|]. split; [|exact (eq_trans H3 Rc)].
  destruct (running (fr_service (ig_frame_set_relay (ap_pipeline a)))) eqn:Er; [|reflexivity].
  destruct (R2 (proj1 H2 eq_refl)).
Defined.

(** Two sessions and a relay worker run. *)
Definition demo_running : application (H0 := demo_jwt) :=
  set_pipeline (H0 := demo_jwt)
    (mkApplication (H0 := demo_jwt) (ap_server demo_application) (Some "127.0.0.1:50052") (ap_live demo_application) None
       (start_all [] [demo_camera "a" "mjpeg"; demo_camera "b" "snapshot"]).1)
    ((ap_pipeline demo_application) <| ig_relay := relay_set_up "proc:1" true new_relay_service |>).

Lemma shutdown_rests_witness : let '(a', r, stopped) := shutdown_application (H0 := demo_jwt)
    (mkShutdownEnvironment (fun _ db => db) 2000 true "run-2") demo_running in
  ((fun s => ci_device_id (mg_config s)) <$> stopped = ["a"; "b"] /\
   Forall (fun s => rt_stop_event (mg_runtime s) = true) stopped) /\
  snd <$> rs_workers (ig_relay (ap_pipeline a')) !! 0%nat = Some true /\
  stopped_services a' /\ lc_stop_event (ap_live a') = true /\ (r = Ok tt -> at_rest a').
Proof.
  assert ((ap_sessions demo_running).*1 = ["a"; "b"]) as Ek by (vm_compute; reflexivity).
  assert ((fun p => ci_device_id (mg_config p.2)) <$> ap_sessions demo_running = ["a"; "b"]) as Ec by (vm_compute; reflexivity).
  assert (rs_runtime (ig_relay (ap_pipeline demo_running)) = Some 0%nat) as Er by (vm_compute; reflexivity).
  assert (is_Some (rs_workers (ig_relay (ap_pipeline demo_running)) !! 0%nat)) as [w Ew] by (vm_compute; eauto).
  assert (NoDup ((ap_sessions demo_running).*1)) as Hn by (rewrite Ek; apply (bool_decide_unpack _); vm_compute; exact I).
  pose proof (shutdown_rests (H := transparent_hashing) (mkShutdownEnvironment (fun _ db => db) 2000 true "run-2") demo_running Hn) as T.
  revert T. generalize (shutdown_application (H0 := demo_jwt) (mkShutdownEnvironment (fun _ db => db) 2000 true "run-2") demo_running).
  intros [[a' r] stopped] ((T1 & T1') & T2 & T3 & _ & T4 & _ & T5). split.
  - split; [|exact T1']. rewrite <- Ec. apply (f_equal (fmap ci_device_id)) in T1. rewrite <- !list_fmap_compose in T1. exact T1.
  - split; [rewrite (T3 _ _ Er Ew); reflexivity|]. split; [exact T4|]. split; [exact T2|exact T5].
Defined.

(** Settings that pass, with which startup raises after relays were started:
    the status URL does not name the job. *)
Example accepted_settings_fail :
  match load_settings (<["STREAM_SESSION_AUTH_ENABLED" := "1"]> (<["STREAM_SESSION_JWKS_URL" := "http://m/jwks"]>
          (<["STREAM_SESSION_TOKEN_ISSUER" := "main"]> (<["STREAM_SESSION_STATUS_URL_TEMPLATE" := "http://m/status"]> demo_environ)))) with
  | Ok s => let '(a, r) := startup_application (H := transparent_hashing) s true demo_environ demo_startup_environment demo_application in
            is_ok r = false /\ running (ig_relay (ap_pipeline a)) = true
  | Raise _ => False
  end.
Proof. vm_compute. by split. Qed.
