(* ===== verification/ReplayLoader.v ===== *)
(** * Loading frames from storage

    src/scripts/storage_sync_replay/loader.py and models.py: the frames of
    an archive are found again from the names of their files, in the order
    they were captured or received, cut to the time the cameras share.

    A folder is the list of its entries; the sidecar of an entry is what
    [json.loads] makes of it. Names are text in ASCII, where [\d] matches
    the ten digits only; a name that ends in a newline, which the [$] of the
    pattern would accept, has no image suffix and is never matched. *)

From Stdlib Require Import Ascii.
From S2P Require Import Prelude Json Float64 Config RelayProtocol.

(** ** Names of files *)

Record FrameName := mkFrameName {
  fn_timestamp_ms : Z; fn_device_id : string; fn_camera_id : string; fn_sequence : Z; fn_ext : string;
}.

#[export] Instance FrameName_eq_dec : EqDecision FrameName.
Proof. solve_decision. Defined.

Definition is_digit (c : ascii) : bool := bool_decide (is_Some (decimal_digit c)).

(** [\d+]: the digits at the head, greedily, and what follows. *)
Fixpoint span_digits (s : string) : string * string :=
  match s with
  | String c r => if is_digit c then prod_map (String c) id (span_digits r) else ("", s)
  | EmptyString => ("", "")
  end.

Definition digits (s : string) : option (string * string) :=
  match span_digits s with (EmptyString, _) => None | x => Some x end.

(** A literal at the head, in any case. *)
Fixpoint literal (word s : string) : option string :=
  match word, s with
  | EmptyString, _ => Some s
  | String c word, String d s => if bool_decide (ascii_lower c = ascii_lower d) then literal word s else None
  | _, EmptyString => None
  end.

Definition IMAGE_WORDS : list string := ["jpg"; "jpeg"; "png"; "webp"].

(** [_(camera_\d+)_(\d+)\.(jpg|jpeg|png|webp)$]: the camera, the number and
    the extension. *)
Definition match_tail (s : string) : option (string * string * string) :=
  r ← literal "_" s;
  r1 ← literal "camera_" r;
  '(camera, r2) ← digits r1;
  r3 ← literal "_" r2;
  '(sequence, r4) ← digits r3;
  ext ← literal "." r4;
  if bool_decide (lower ext ∈ IMAGE_WORDS) then Some (String.substring 0 7 r +:+ camera, sequence, ext) else None.

Definition newline : ascii := ascii_of_nat 10.

(** [(.+)] followed by the tail: the longest device that leaves one. *)
Fixpoint match_device (s : string) : option (string * (string * string * string)) :=
  match s with
  | EmptyString => None
  | String c r =>
      if bool_decide (c = newline) then None
      else match match_device r with
           | Some (device, t) => Some (String c device, t)
           | None => t ← match_tail r; Some (String c "", t)
           end
  end.

(** [int] of digits. *)
Definition digits_value (s : string) : Z := default 0 (read_digits false 0 s).

(** [FRAME_NAME_RE.match]. *)
Definition match_frame_name (s : string) : option FrameName :=
  '(timestamp, r) ← digits s;
  r ← literal "_" r;
  '(device, (camera, sequence, ext)) ← match_device r;
  Some (mkFrameName (digits_value timestamp) device camera (digits_value sequence) ext).

(** [PurePath.suffix]: from the last dot, if something is on both sides. *)
Fixpoint last_dot (s : string) : option (string * string) :=
  match s with
  | EmptyString => None
  | String c r =>
      match last_dot r with
      | Some (before, after) => Some (String c before, after)
      | None => if bool_decide (c = "."%char) then Some ("", r) else None
      end
  end.

Definition suffix (name : string) : string :=
  match last_dot name with
  | Some (String c before, String d after) => String "." (String d after)
  | _ => ""
  end.

Definition IMAGE_EXTENSIONS : list string := [".jpg"; ".jpeg"; ".png"; ".webp"].

Definition is_image (name : string) : bool := bool_decide (lower (suffix name) ∈ IMAGE_EXTENSIONS).

Definition content_type_for (name : string) : string :=
  let ext := lower (suffix name) in
  if bool_decide (ext ∈ [".jpg"; ".jpeg"]) then "image/jpeg"
  else if bool_decide (ext = ".png") then "image/png"
  else if bool_decide (ext = ".webp") then "image/webp"
  else "application/octet-stream".

Example name_of_the_archive : match_frame_name "1200_android_01_camera_01_2.jpg" =
  Some (mkFrameName 1200 "android_01" "camera_01" 2 "jpg").
Proof. vm_compute. reflexivity. Qed.

Example name_in_capitals : match_frame_name "7_a_camera_1_5.jpg_CAMERA_2_3.PNG" =
  Some (mkFrameName 7 "a_camera_1_5.jpg" "CAMERA_2" 3 "PNG") /\ is_image "7_a_camera_1_5.jpg_CAMERA_2_3.PNG" = true /\
  content_type_for "7_a_camera_1_5.jpg_CAMERA_2_3.PNG" = "image/png" /\ suffix ".jpg" = "" /\ suffix "a." = "".
Proof. split_and!; vm_compute; reflexivity. Qed.

(** ** Frames *)

Record ReplayFrame := mkReplayFrame {
  rp_frame_id : Z; rp_device_id : string; rp_timestamp_ms : Z; rp_original_timestamp_ms : Z;
  rp_server_received_at_ms : option Z; rp_server_receive_sequence : option Z; rp_sequence : Z;
  rp_file_path : string; rp_content_type : string;
}.

#[export] Instance ReplayFrame_settable : Settable ReplayFrame := fun x => mkReplayFrame (rp_frame_id x) (rp_device_id x)
  (rp_timestamp_ms x) (rp_original_timestamp_ms x) (rp_server_received_at_ms x) (rp_server_receive_sequence x) (rp_sequence x)
  (rp_file_path x) (rp_content_type x).

Inductive loader_error := LoaderValueError (message : string) | LoaderException (class_ : string).

(** An entry of a folder. Its sidecar [name.metadata.json] may be missing,
    and may hold text that is no JSON. *)
Record entry := mkEntry { en_name : string; en_is_file : bool; en_sidecar : option (option json) }.

Definition loader_int (v : json) : result loader_error Z :=
  match json_int v with Ok z => Ok z | Raise (OtherException e) => Raise (LoaderException e) | Raise _ => Raise (LoaderException "") end.

Definition loader_object (v : json) : result loader_error (list (string * json)) :=
  match v with JObj fs => Ok fs | _ => Raise (LoaderException "AttributeError") end.

Definition server_value (key : string) (server : list (string * json)) : option json :=
  match json_get key server with Some JNull | None => None | Some v => Some v end.

Definition read_server_timing (folder : string) (f : entry) : result loader_error (Z * Z) :=
  let sidecar_path := folder +:+ "/" +:+ en_name f +:+ ".metadata.json" in
  match en_sidecar f with
  | None => Raise (LoaderValueError ("Received-order replay requires sidecar server timing: " +:+ sidecar_path))
  | Some None => Raise (LoaderException "JSONDecodeError")
  | Some (Some payload) =>
      payload ← loader_object payload;
      server ← match json_get "server" payload with
               | Some v => if json_bool v then loader_object v else Ok []
               | None => Ok []
               end;
      match server_value "received_at_ms" server, server_value "server_receive_sequence" server with
      | Some received_at_ms, Some receive_sequence =>
          a ← loader_int received_at_ms; b ← loader_int receive_sequence; Ok (a, b)
      | _, _ => Raise (LoaderValueError ("Received-order replay requires server.received_at_ms and server.server_receive_sequence: " +:+ sidecar_path))
      end
  end.

Definition parse_frame_file (folder : string) (f : entry) (expected_device_id : string) (frame_id : Z) (order_by : string)
    : result loader_error (option ReplayFrame) :=
  if negb (is_image (en_name f)) then Ok None
  else match match_frame_name (en_name f) with
       | None => Ok None
       | Some n =>
           if negb (bool_decide (fn_device_id n = expected_device_id)) then Ok None
           else
             timing ← (if bool_decide (order_by = "received")
                       then '(a, b) ← read_server_timing folder f; Ok (Some a, Some b) else Ok (None, None));
             Ok (Some (mkReplayFrame frame_id (fn_device_id n) (fn_timestamp_ms n) (fn_timestamp_ms n) timing.1 timing.2
                         (fn_sequence n) (folder +:+ "/" +:+ en_name f) (content_type_for (en_name f))))
       end.

(** ** Collecting *)

Record collecting := mkCollecting {
  cg_frames : list ReplayFrame; cg_next_frame_id : Z; cg_skipped_image_files : Z; cg_non_image_files : Z;
}.

#[export] Instance collecting_settable : Settable collecting := fun x =>
  mkCollecting (cg_frames x) (cg_next_frame_id x) (cg_skipped_image_files x) (cg_non_image_files x).

Definition limit_reached (limit_per_camera : option Z) (frames : list ReplayFrame) : bool :=
  match limit_per_camera with Some n => n <=? Z.of_nat (length frames) | None => false end.

(** The loop over the sorted entries of one folder. *)
Fixpoint collect_camera (limit_per_camera : option Z) (order_by device_id folder : string) (st : collecting) (l : list entry)
    : result loader_error collecting :=
  match l with
  | [] => Ok st
  | f :: l =>
      if negb (en_is_file f) then collect_camera limit_per_camera order_by device_id folder st l
      else if negb (is_image (en_name f))
      then collect_camera limit_per_camera order_by device_id folder (st <| cg_non_image_files ::= Z.succ |>) l
      else
        frame ← parse_frame_file folder f device_id (cg_next_frame_id st) order_by;
        match frame with
        | None => collect_camera limit_per_camera order_by device_id folder (st <| cg_skipped_image_files ::= Z.succ |>) l
        | Some frame =>
            let st := st <| cg_frames ::= fun l => l ++ [frame] |> <| cg_next_frame_id ::= Z.succ |> in
            if limit_reached limit_per_camera (cg_frames st) then Ok st
            else collect_camera limit_per_camera order_by device_id folder st l
        end
  end.

Definition name_leb (x y : entry) : bool := String.leb (en_name x) (en_name y).

Record mapping := mkMapping { mp_device_id : string; mp_folder : string; mp_entries : list entry }.

(** The frames of each camera, and the totals. *)
Fixpoint collect_cameras (limit_per_camera : option Z) (order_by : string) (by_camera : list (string * list ReplayFrame))
    (st : collecting) (l : list mapping) : result loader_error (list (string * list ReplayFrame) * collecting) :=
  match l with
  | [] => Ok (by_camera, st)
  | m :: l =>
      st ← collect_camera limit_per_camera order_by (mp_device_id m) (mp_folder m) (st <| cg_frames := [] |>)
             (sort_by name_leb (mp_entries m));
      collect_cameras limit_per_camera order_by (dict_set (mp_device_id m) (cg_frames st) by_camera) st l
  end.

(** ** The time the cameras share *)

Record overlap := mkOverlap { ov_start_timestamp_ms : Z; ov_end_timestamp_ms : Z; ov_ranges : list (string * Z * Z) }.

Definition has_overlap (o : overlap) : bool := ov_start_timestamp_ms o <=? ov_end_timestamp_ms o.
Definition duration_ms (o : overlap) : Z := Z.max (ov_end_timestamp_ms o - ov_start_timestamp_ms o) 0.

Definition min_of (x : Z) (l : list Z) : Z := foldl Z.min x l.
Definition max_of (x : Z) (l : list Z) : Z := foldl Z.max x l.

(** The range of each camera, unless one has no frames. *)
Fixpoint camera_ranges (by_camera : list (string * list ReplayFrame)) : option (list (string * Z * Z)) :=
  match by_camera with
  | [] => Some []
  | (device_id, frames) :: rest =>
      match rp_original_timestamp_ms <$> frames with
      | [] => None
      | t :: ts => ranges ← camera_ranges rest; Some ((device_id, min_of t ts, max_of t ts) :: ranges)
      end
  end.

Definition calculate_overlap (by_camera : list (string * list ReplayFrame)) : result loader_error (option overlap) :=
  match camera_ranges by_camera with
  | None => Ok None
  | Some [] => Raise (LoaderValueError "max() iterable argument is empty")
  | Some ((d, first, last) :: rest as ranges) =>
      Ok (Some (mkOverlap (max_of first ((fun x => x.1.2) <$> rest)) (min_of last (snd <$> rest)) ranges))
  end.

Definition in_overlap (o : overlap) (f : ReplayFrame) : bool :=
  (ov_start_timestamp_ms o <=? rp_original_timestamp_ms f) && (rp_original_timestamp_ms f <=? ov_end_timestamp_ms o).

Definition align_camera_frames (frames : list ReplayFrame) (timestamp_align : string) : result loader_error (list ReplayFrame) :=
  match frames with
  | [] => Ok []
  | first :: _ =>
      if bool_decide (timestamp_align = "none") then Ok frames
      else if negb (bool_decide (timestamp_align = "first-frame"))
      then Raise (LoaderValueError ("Unsupported timestamp alignment: " +:+ timestamp_align))
      else Ok ((fun f => f <| rp_timestamp_ms ::= fun t => t - rp_timestamp_ms first |>) <$> frames)
  end.

(** ** Order *)

Definition or_minus_one (x : option Z) : Z := default (-1) x.

Definition capture_leb : ReplayFrame -> ReplayFrame -> bool :=
  lex_leb (fun x y => rp_timestamp_ms x <? rp_timestamp_ms y) (fun x y => rp_timestamp_ms x =? rp_timestamp_ms y)
    (lex_leb (fun x y => String.ltb (rp_device_id x) (rp_device_id y)) (fun x y => String.eqb (rp_device_id x) (rp_device_id y))
       (fun x y => rp_sequence x <=? rp_sequence y)).

Definition received_leb : ReplayFrame -> ReplayFrame -> bool :=
  let at_ x := or_minus_one (rp_server_received_at_ms x) in
  let number x := or_minus_one (rp_server_receive_sequence x) in
  lex_leb (fun x y => at_ x <? at_ y) (fun x y => at_ x =? at_ y)
    (lex_leb (fun x y => number x <? number y) (fun x y => number x =? number y) capture_leb).

Definition replay_leb (order_by : string) : ReplayFrame -> ReplayFrame -> bool :=
  if bool_decide (order_by = "capture") then capture_leb else received_leb.

Definition supported_order (order_by : string) : bool := bool_decide (order_by ∈ ["capture"; "received"]).

Definition unsupported_order {A} (order_by : string) : result loader_error A :=
  Raise (LoaderValueError ("Unsupported replay order: " +:+ order_by)).

Definition sort_replay_frames (frames : list ReplayFrame) (order_by : string) : result loader_error (list ReplayFrame) :=
  if supported_order order_by then Ok (sort_by (replay_leb order_by) frames) else unsupported_order order_by.

(** ** The whole input *)

(** The second loop: what is left of each camera, in the order of the dict. *)
Fixpoint trim_cameras (o : option overlap) (timestamp_align : string) (by_camera : list (string * list ReplayFrame))
    : result loader_error (list (string * list ReplayFrame)) :=
  match by_camera with
  | [] => Ok []
  | (device_id, frames) :: rest =>
      let kept := match o with Some o => filter (fun f => in_overlap o f = true) frames | None => frames end in
      aligned ← align_camera_frames kept timestamp_align;
      rest ← trim_cameras o timestamp_align rest;
      Ok ((device_id, aligned) :: rest)
  end.

Definition counts (by_camera : list (string * list ReplayFrame)) : list (string * Z) :=
  prod_map id (fun l => Z.of_nat (length l)) <$> by_camera.

Record timestamp_range := mkTimestampRange {
  tr_first_timestamp_ms : Z; tr_last_timestamp_ms : Z; tr_first_original_timestamp_ms : Z; tr_last_original_timestamp_ms : Z;
}.

Definition widen (r : timestamp_range) (f : ReplayFrame) : timestamp_range := mkTimestampRange
  (Z.min (tr_first_timestamp_ms r) (rp_timestamp_ms f)) (Z.max (tr_last_timestamp_ms r) (rp_timestamp_ms f))
  (Z.min (tr_first_original_timestamp_ms r) (rp_original_timestamp_ms f))
  (Z.max (tr_last_original_timestamp_ms r) (rp_original_timestamp_ms f)).

Definition point_range (f : ReplayFrame) : timestamp_range := mkTimestampRange
  (rp_timestamp_ms f) (rp_timestamp_ms f) (rp_original_timestamp_ms f) (rp_original_timestamp_ms f).

Definition build_timestamp_ranges (frames : list ReplayFrame) : list (string * timestamp_range) :=
  foldl (fun d f => dict_set (rp_device_id f) (widen (default (point_range f) (dict_get (rp_device_id f) d)) f) d) [] frames.

Record ReplayInput := mkReplayInput {
  ri_frames : list ReplayFrame; ri_expected_cameras : list string; ri_per_camera_counts : list (string * Z);
  ri_original_per_camera_counts : list (string * Z); ri_skipped_image_files : Z; ri_non_image_files : Z;
  ri_overlap : option overlap; ri_timestamp_ranges : list (string * timestamp_range);
}.

Definition collect_replay_input (camera_mappings : list mapping) (limit_per_camera : option Z) (timestamp_align : string)
    (trim_overlap : bool) (order_by : string) : result loader_error ReplayInput :=
  if negb (supported_order order_by) then unsupported_order order_by
  else
    '(by_camera, st) ← collect_cameras limit_per_camera order_by [] (mkCollecting [] 1 0 0) camera_mappings;
    o ← (if trim_overlap then calculate_overlap by_camera else Ok None);
    trimmed ← trim_cameras o timestamp_align by_camera;
    frames ← sort_replay_frames (mjoin trimmed.*2) order_by;
    Ok (mkReplayInput frames (mp_device_id <$> camera_mappings) (counts trimmed) (counts by_camera)
          (cg_skipped_image_files st) (cg_non_image_files st) o (build_timestamp_ranges frames)).

(** ** The names that are read

    What the regular expression says, with concatenation. *)

Fixpoint all_chars (p : ascii -> bool) (s : string) : bool :=
  match s with EmptyString => true | String c r => p c && all_chars p r end.

Definition number_text (s : string) : Prop := s <> "" /\ all_chars is_digit s = true.
Definition device_text (s : string) : Prop := s <> "" /\ all_chars (fun c => negb (bool_decide (c = newline))) s = true.
Definition camera_text (s : string) : Prop := exists w n, s = w +:+ n /\ lower w = "camera_" /\ number_text n.
Definition ext_text (s : string) : Prop := lower s ∈ IMAGE_WORDS.

Definition frame_name (timestamp device camera sequence ext : string) : string :=
  timestamp +:+ "_" +:+ device +:+ "_" +:+ camera +:+ "_" +:+ sequence +:+ "." +:+ ext.

Lemma all_chars_app p s r : all_chars p (s +:+ r) = all_chars p s && all_chars p r.
Proof. induction s as [|c s IH]; [done|]. rewrite string_app_cons. cbn. by rewrite IH, andb_assoc. Qed.

Lemma append_assoc (a b c : string) : (a +:+ b) +:+ c = a +:+ (b +:+ c).
Proof. induction a as [|x a IH]; [done|]. by rewrite !string_app_cons, IH. Qed.

Lemma span_digits_app d c r : all_chars is_digit d = true -> is_digit c = false -> span_digits (d +:+ String c r) = (d, String c r).
Proof. intros Hd Hc. induction d as [|x d IH]; rewrite ?string_app_nil_l, ?string_app_cons; cbn in *; [by rewrite Hc|]. bools in Hd. destruct Hd as [-> Hd]. by rewrite IH. Qed.

Lemma span_digits_sound s d r : span_digits s = (d, r) -> s = d +:+ r /\ all_chars is_digit d = true.
Proof.
  revert d r. induction s as [|c s IH]; cbn; intros d r; [by intros [= <- <-]|]. destruct (is_digit c) eqn:E; [|by intros [= <- <-]].
  destruct (span_digits s) as [d' r']. intros [= <- <-]. destruct (IH _ _ eq_refl) as [-> H]. cbn. by rewrite E.
Qed.

Lemma digits_app d c r : number_text d -> is_digit c = false -> digits (d +:+ String c r) = Some (d, String c r).
Proof. intros [Hd H] Hc. unfold digits. rewrite span_digits_app by done. by destruct d. Qed.

Lemma digits_sound s d r : digits s = Some (d, r) -> s = d +:+ r /\ number_text d.
Proof.
  unfold digits. destruct (span_digits s) as [[|c d'] r'] eqn:E; [done|]. intros [= <- <-]. apply span_digits_sound in E as [-> H]. done.
Qed.

Lemma lower_cons c s : lower (String c s) = String (ascii_lower c) (lower s).
Proof. done. Qed.

Lemma literal_app word w r : lower w = lower word -> literal word (w +:+ r) = Some r.
Proof.
  revert w. induction word as [|c word IH]; intros [|d w]; try done. rewrite !lower_cons. intros [= H1 H2]. rewrite string_app_cons. cbn.
  rewrite bool_decide_true by done. by apply IH.
Qed.

Lemma literal_sound word s r : literal word s = Some r -> exists w, s = w +:+ r /\ lower w = lower word.
Proof.
  revert s. induction word as [|c word IH]; intros s; [intros [= <-]; by exists ""|]. destruct s as [|d s]; [done|]. cbn.
  case_bool_decide as E; [|done]. intros (w & -> & Hw)%IH. exists (String d w). split; [done|]. by rewrite !lower_cons, E, Hw.
Qed.

(** *** The tail

    It has three underscores, the first at its head: no suffix of it is
    another tail. *)

Definition underscore : ascii := "_"%char.

Fixpoint underscores (s : string) : nat :=
  match s with EmptyString => 0 | String c r => (if bool_decide (c = underscore) then 1 else 0) + underscores r end%nat.

Lemma underscores_app s r : underscores (s +:+ r) = (underscores s + underscores r)%nat.
Proof. induction s as [|c s IH]; [done|]. rewrite string_app_cons. cbn. rewrite IH. lia. Qed.

Lemma lower_underscore c : ascii_lower c = underscore <-> c = underscore.
Proof. split; [|by intros ->]. by destruct c as [[] [] [] [] [] [] [] []]. Qed.

Lemma underscores_lower s : underscores (lower s) = underscores s.
Proof.
  induction s as [|c s IH]; [done|]. rewrite lower_cons. cbn. rewrite IH. f_equal.
  destruct (decide (c = underscore)) as [->|H]; [done|]. rewrite !bool_decide_false; [done|done|by rewrite lower_underscore].
Qed.

Lemma underscores_digits s : all_chars is_digit s = true -> underscores s = 0%nat.
Proof.
  induction s as [|c s IH]; [done|]. cbn. intros [Hc Hs]%andb_true_iff. rewrite IH by done.
  rewrite bool_decide_false; [done|]. by intros ->.
Qed.

Lemma underscores_ext ext : ext_text ext -> underscores ext = 0%nat.
Proof.
  unfold ext_text. rewrite <- underscores_lower. generalize (lower ext). intros s H. unfold IMAGE_WORDS in H.
  repeat (apply elem_of_cons in H as [->|H]; [done|]). by apply elem_of_nil in H.
Qed.

Lemma lower_single s c : lower s = String c "" -> exists d, s = String d "" /\ ascii_lower d = c.
Proof. destruct s as [|d [|e s]]; try done. rewrite !lower_cons. intros [= <-]. by exists d. Qed.

Lemma literal_char c s r : (forall d, ascii_lower d = ascii_lower c -> d = c) -> literal (String c "") s = Some r <-> s = String c r.
Proof.
  intros Hc. split.
  - intros (w & -> & (d & -> & ->%Hc)%lower_single)%literal_sound. done.
  - intros ->. cbn. by rewrite bool_decide_true.
Qed.

Lemma literal_underscore s r : literal "_" s = Some r <-> s = String underscore r.
Proof. apply literal_char. intros d. change (ascii_lower "_"%char) with underscore. apply lower_underscore. Qed.

Lemma literal_dot s r : literal "." s = Some r <-> s = String "."%char r.
Proof. apply literal_char. intros d. change (ascii_lower "."%char) with "."%char. by destruct d as [[] [] [] [] [] [] [] []]. Qed.

Lemma substring_app w r : lower w = "camera_" -> String.substring 0 7 (w +:+ r) = w.
Proof. intros Hw. destruct w as [|c1 [|c2 [|c3 [|c4 [|c5 [|c6 [|c7 [|c8 w]]]]]]]]; try done. by rewrite !string_app_cons, string_app_nil_l; destruct r. Qed.

Lemma literal_camera s r : literal "camera_" s = Some r <->
  exists w, s = w +:+ r /\ lower w = "camera_" /\ String.substring 0 7 s = w.
Proof.
  split.
  - intros (w & -> & Hw)%literal_sound. exists w. split; [done|]. split; [exact Hw|].
    by apply substring_app.
  - intros (w & -> & Hw & _). by apply literal_app.
Qed.

Definition tail_text (camera sequence ext : string) : string := String underscore (camera +:+ "_" +:+ sequence +:+ "." +:+ ext).

Lemma underscore_app r : "_" +:+ r = String underscore r.
Proof. done. Qed.

Lemma dot_app r : "." +:+ r = String "."%char r.
Proof. done. Qed.

Lemma match_tail_sound s camera sequence ext : match_tail s = Some (camera, sequence, ext) ->
  s = tail_text camera sequence ext /\ camera_text camera /\ number_text sequence /\ ext_text ext.
Proof.
  unfold match_tail. intros (r & E1%literal_underscore & (r1 & E2%literal_camera & E)%bind_Some)%bind_Some.
  apply bind_Some in E as ([n r2] & [-> Hn]%digits_sound & E). apply bind_Some in E as (r3 & ->%literal_underscore & E).
  apply bind_Some in E as ([q r4] & [-> Hq]%digits_sound & E). apply bind_Some in E as (x & ->%literal_dot & E).
  case_bool_decide as Hx; [|done]. injection E as <- <- <-. subst s. destruct E2 as (w & Er & Hw & Hs). rewrite Hs. subst r.
  split; [unfold tail_text; by rewrite !append_assoc|]. split; [by exists w, n|done].
Qed.

Lemma match_tail_text camera sequence ext : camera_text camera -> number_text sequence -> ext_text ext ->
  match_tail (tail_text camera sequence ext) = Some (camera, sequence, ext).
Proof.
  intros (w & n & -> & Hw & Hn) Hq Hx. unfold match_tail, tail_text. rewrite (proj2 (literal_underscore _ _)) by done. cbn [mbind option_bind].
  rewrite !append_assoc, !underscore_app, dot_app. rewrite (literal_app "camera_" w) by done. cbn [mbind option_bind]. rewrite substring_app by done.
  rewrite (digits_app n underscore) by done. cbn [mbind option_bind]. rewrite (proj2 (literal_underscore _ _)) by done. cbn [mbind option_bind].
  rewrite (digits_app sequence "."%char) by done. cbn [mbind option_bind]. rewrite (proj2 (literal_dot _ _)) by done. cbn [mbind option_bind].
  by rewrite bool_decide_true.
Qed.

Lemma underscores_tail camera sequence ext : camera_text camera -> number_text sequence -> ext_text ext ->
  underscores (tail_text camera sequence ext) = 3%nat.
Proof.
  intros (w & n & -> & Hw & [_ Hn]) [_ Hq] Hx. unfold tail_text. cbn [underscores]. rewrite !underscores_app.
  rewrite <- (underscores_lower w), Hw, (underscores_digits n), (underscores_digits sequence), (underscores_ext ext) by done. done.
Qed.

(** *** The device *)

Lemma match_device_sound s device t : match_device s = Some (device, t) ->
  exists r, s = device +:+ r /\ device_text device /\ match_tail r = Some t.
Proof.
  revert device. induction s as [|c s IH]; [done|]. intros device. cbn. case_bool_decide as Hc; [done|].
  destruct (match_device s) as [[d t']|] eqn:E.
  - intros [= <- <-]. destruct (IH d) as (r & -> & [_ Hd] & Ht); [done|]. exists r. split; [done|]. split; [|done].
    split; [done|]. cbn. rewrite bool_decide_false by done. exact Hd.
  - intros (t' & Ht & [= <- <-])%bind_Some. exists s. split; [done|]. split; [|done]. split; [done|]. cbn. by rewrite bool_decide_false.
Qed.

Lemma match_device_tail camera sequence ext : camera_text camera -> number_text sequence -> ext_text ext ->
  match_device (tail_text camera sequence ext) = None.
Proof.
  intros Hc Hq Hx. destruct (match_device _) as [[d [[camera' sequence'] ext']]|] eqn:E; [|done]. exfalso.
  apply match_device_sound in E as (r & Er & [Hd _] & (-> & Hc' & Hq' & Hx')%match_tail_sound).
  pose proof (underscores_tail _ _ _ Hc Hq Hx) as Hn. rewrite Er, underscores_app, (underscores_tail _ _ _ Hc' Hq' Hx') in Hn.
  destruct d as [|c d]; [done|]. unfold tail_text at 1 in Er. rewrite string_app_cons in Er. injection Er as <- _. cbn [underscores] in Hn.
  rewrite bool_decide_true in Hn by done. lia.
Qed.

Lemma match_device_text device camera sequence ext : device_text device -> camera_text camera -> number_text sequence -> ext_text ext ->
  match_device (device +:+ tail_text camera sequence ext) = Some (device, (camera, sequence, ext)).
Proof.
  intros [Hd Hn] Hc Hq Hx. induction device as [|c d IH]; [done|]. rewrite string_app_cons. cbn [match_device all_chars] in *. apply andb_true_iff in Hn as [Hn1 Hn2].
  apply negb_true_iff in Hn1. rewrite Hn1. destruct d as [|c' d].
  - rewrite string_app_nil_l, match_device_tail, match_tail_text by done. done.
  - by rewrite IH.
Qed.

(** A name is read exactly when it is a number, a device, a camera, a
    number and a known extension joined as the expression says, and what is
    read are those parts: the split is unique, though a device may itself
    contain underscores and even a whole other tail. *)
Theorem frame_name_read s n : match_frame_name s = Some n <->
  exists timestamp sequence, s = frame_name timestamp (fn_device_id n) (fn_camera_id n) sequence (fn_ext n) /\
    number_text timestamp /\ device_text (fn_device_id n) /\ camera_text (fn_camera_id n) /\ number_text sequence /\ ext_text (fn_ext n) /\
    fn_timestamp_ms n = digits_value timestamp /\ fn_sequence n = digits_value sequence.
Proof.
  unfold match_frame_name. split.
  - intros ([timestamp r] & [-> Ht]%digits_sound & E)%bind_Some. apply bind_Some in E as (r1 & ->%literal_underscore & E).
    apply bind_Some in E as ([d [[c q] x]] & (r2 & -> & Hd & (-> & Hc & Hq & Hx)%match_tail_sound)%match_device_sound & [= <-]).
    exists timestamp, q. by split_and!.
  - intros (timestamp & q & -> & Ht & Hd & Hc & Hq & Hx & E1 & E2). unfold frame_name. rewrite underscore_app, (digits_app _ underscore) by done.
    cbn [mbind option_bind]. rewrite (proj2 (literal_underscore _ _)) by done. cbn [mbind option_bind].
    change (fn_device_id n +:+ "_" +:+ fn_camera_id n +:+ "_" +:+ q +:+ "." +:+ fn_ext n) with (fn_device_id n +:+ tail_text (fn_camera_id n) q (fn_ext n)).
    rewrite match_device_text by done. cbn [mbind option_bind]. rewrite <- E1, <- E2. by destruct n.
Qed.

(** ** What is collected *)

(** The frame of an entry of a camera's folder, before it is aligned. *)
Definition loaded (order_by : string) (m : mapping) (e : entry) (f : ReplayFrame) : Prop :=
  exists n, match_frame_name (en_name e) = Some n /\ rp_device_id f = mp_device_id m /\
    rp_original_timestamp_ms f = fn_timestamp_ms n /\ rp_timestamp_ms f = fn_timestamp_ms n /\ rp_sequence f = fn_sequence n /\
    rp_file_path f = mp_folder m +:+ "/" +:+ en_name e /\ rp_content_type f = content_type_for (en_name e) /\
    if bool_decide (order_by = "received")
    then exists a b, read_server_timing (mp_folder m) e = Ok (a, b) /\
           rp_server_received_at_ms f = Some a /\ rp_server_receive_sequence f = Some b
    else rp_server_received_at_ms f = None /\ rp_server_receive_sequence f = None.

(** An entry the camera has a frame for. *)
Definition of_camera (m : mapping) (e : entry) : bool :=
  en_is_file e && is_image (en_name e) &&
  match match_frame_name (en_name e) with Some n => bool_decide (fn_device_id n = mp_device_id m) | None => false end.

(** What the limit leaves of the entries when [have] frames were collected: it
    is looked at after a frame was added. *)
Definition limited {A} (limit_per_camera : option Z) (have : nat) (l : list A) : list A :=
  match limit_per_camera with Some n => take (Z.to_nat (Z.max (n - Z.of_nat have) 1)) l | None => l end.

(** The entries of a folder that are loaded, by name. *)
Definition taken (limit_per_camera : option Z) (m : mapping) : list entry :=
  limited limit_per_camera 0 (filter (fun e => of_camera m e = true) (sort_by name_leb (mp_entries m))).

Lemma parse_frame_file_spec m e id order_by r : en_is_file e = true ->
  parse_frame_file (mp_folder m) e (mp_device_id m) id order_by = Ok r ->
  match r with
  | Some f => of_camera m e = true /\ loaded order_by m e f /\ rp_frame_id f = id
  | None => of_camera m e = false
  end.
Proof.
  intros Hf. unfold parse_frame_file, of_camera, loaded. rewrite Hf. destruct (is_image (en_name e)); [|by intros [= <-]].
  cbn [negb andb]. destruct (match_frame_name (en_name e)) as [n|]; [|by intros [= <-]].
  case_bool_decide as Hd; [|by intros [= <-]]. cbn [negb]. intros E.
  apply result_bind_Ok in E as ([a b] & Ht & [= <-]). split; [done|]. split; [|done]. exists n. cbn. do 7 (split; [done|]).
  case_bool_decide; [|by injection Ht as <- <-]. apply result_bind_Ok in Ht as ([x y] & Hr & [= <- <-]). by exists x, y.
Qed.

(** The numbers of a run of loaded frames. *)
Definition numbered (first : Z) (frames : list ReplayFrame) : Prop :=
  rp_frame_id <$> frames = (fun i => first + Z.of_nat i) <$> seq 0 (length frames).

Lemma numbered_cons first f frames : rp_frame_id f = first -> numbered (Z.succ first) frames -> numbered first (f :: frames).
Proof.
  unfold numbered. intros Hf H. cbn [length seq]. rewrite !fmap_cons, Hf, H, <- fmap_S_seq, <- list_fmap_compose.
  f_equal; [lia|]. apply list_fmap_ext. intros i x _. unfold compose. lia.
Qed.

Lemma numbered_app first l l' : numbered first l -> numbered (first + Z.of_nat (length l)) l' -> numbered first (l ++ l').
Proof.
  unfold numbered. intros H1 H2. rewrite fmap_app, H1, H2, length_app, seq_app, fmap_app. f_equal.
  rewrite (Nat.add_comm 0 (length l)), <- fmap_add_seq, <- list_fmap_compose. apply list_fmap_ext. intros i x _. unfold compose. lia.
Qed.

Lemma limited_cons {A} limit_per_camera have (x : A) l : limited limit_per_camera have (x :: l) =
  x :: match limit_per_camera with
       | Some n => if n <=? Z.of_nat (S have) then [] else limited limit_per_camera (S have) l
       | None => l
       end.
Proof.
  unfold limited. destruct limit_per_camera as [n|]; [|done]. destruct (Z.leb_spec n (Z.of_nat (S have))).
  - replace (Z.to_nat (Z.max (n - Z.of_nat have) 1)) with 1%nat by lia. done.
  - replace (Z.to_nat (Z.max (n - Z.of_nat have) 1)) with (S (Z.to_nat (Z.max (n - Z.of_nat (S have)) 1))) by lia. done.
Qed.

Lemma collect_camera_does order_by limit_per_camera m l : forall st st',
  collect_camera limit_per_camera order_by (mp_device_id m) (mp_folder m) st l = Ok st' ->
  exists new, cg_frames st' = cg_frames st ++ new /\ cg_next_frame_id st' = cg_next_frame_id st + Z.of_nat (length new) /\
    numbered (cg_next_frame_id st) new /\
    Forall2 (loaded order_by m) (limited limit_per_camera (length (cg_frames st)) (filter (fun e => of_camera m e = true) l)) new.
Proof.
  induction l as [|e l IH]; intros st st' E; cbn [collect_camera] in E.
  { injection E as <-. exists []. rewrite app_nil_r. split; [done|]. split; [cbn; lia|]. split; [done|]. cbn. unfold limited. destruct limit_per_camera; rewrite ?take_nil; constructor. }
  rewrite filter_cons.
  destruct (en_is_file e) eqn:Hf; cbn [negb] in E; [|rewrite decide_False by (unfold of_camera; by rewrite Hf); by apply (IH st)].
  destruct (is_image (en_name e)) eqn:Hi; cbn [negb] in E;
    [|rewrite decide_False by (unfold of_camera; by rewrite Hf, Hi); by apply (IH _ _ E)].
  apply result_bind_Ok in E as (r & Hp & E). apply parse_frame_file_spec in Hp; [|done].
  destruct r as [f|]; [|rewrite decide_False by (by rewrite Hp); by apply (IH _ _ E)].
  destruct Hp as (Hof & Hload & Hid). rewrite decide_True, limited_cons by done.
  set (st1 := st <| cg_frames ::= fun l => l ++ [f] |> <| cg_next_frame_id ::= Z.succ |>) in E.
  assert (length (cg_frames st1) = S (length (cg_frames st))) as Hlen by (cbn; rewrite length_app; cbn; lia).
  assert (exists new, cg_frames st' = (cg_frames st ++ [f]) ++ new /\ cg_next_frame_id st' = Z.succ (cg_next_frame_id st) + Z.of_nat (length new) /\
    numbered (Z.succ (cg_next_frame_id st)) new /\
    Forall2 (loaded order_by m) (match limit_per_camera with
       | Some n => if n <=? Z.of_nat (S (length (cg_frames st))) then []
                   else limited limit_per_camera (S (length (cg_frames st))) (filter (fun e => of_camera m e = true) l)
       | None => filter (fun e => of_camera m e = true) l end) new) as (new & F1 & F2 & F3 & F4).
  { unfold limit_reached in E. rewrite Hlen in E. destruct limit_per_camera as [n|].
    - destruct (n <=? _); [injection E as <-; exists []; rewrite app_nil_r; split; [done|]; split; [cbn; lia|]; split; [done|constructor]|].
      rewrite <- Hlen. by apply (IH st1).
    - by apply (IH st1). }
  exists (f :: new). rewrite F1, F2, <- app_assoc. split; [done|]. split; [cbn [length]; lia|]. split; [by apply numbered_cons|by constructor].
Qed.

Lemma collect_cameras_does order_by limit_per_camera l : forall by_camera st out st',
  NoDup (by_camera.*1 ++ (mp_device_id <$> l)) ->
  collect_cameras limit_per_camera order_by by_camera st l = Ok (out, st') ->
  exists fl, out = by_camera ++ zip (mp_device_id <$> l) fl /\ numbered (cg_next_frame_id st) (mjoin fl) /\
    Forall2 (fun m frames => Forall2 (loaded order_by m) (taken limit_per_camera m) frames) l fl.
Proof.
  induction l as [|m l IH]; intros by_camera st out st' Hn E; cbn [collect_cameras] in E.
  { injection E as <- <-. exists []. cbn. by rewrite app_nil_r. }
  apply result_bind_Ok in E as (st1 & Hc & E). apply collect_camera_does in Hc as (new & F1 & F2 & Hnum1 & Hf).
  cbn in F1, F2, Hnum1, Hf. rewrite fmap_cons in Hn. rewrite F1, dict_set_new in E.
  2: { intros Hin. apply NoDup_app in Hn as (_ & Hn & _). apply (Hn _ Hin). set_solver. }
  apply IH in E as (fl & -> & Hnum & HF).
  2: { rewrite fmap_app, <- app_assoc. exact Hn. }
  exists (new :: fl). split; [by rewrite <- app_assoc|]. split; [|by constructor]. cbn [mjoin list_join].
  apply numbered_app; [done|by rewrite <- F2].
Qed.

(** *** Trimming and alignment *)

Definition shifted (offset : Z) (f : ReplayFrame) : ReplayFrame := f <| rp_timestamp_ms ::= fun t => t - offset |>.

(** The frames of a camera as they are replayed: from the time of the first
    one left on, unless there is no alignment. *)
Definition aligned (timestamp_align : string) (frames : list ReplayFrame) : list ReplayFrame :=
  match frames with
  | first :: _ => if bool_decide (timestamp_align = "none") then frames else shifted (rp_original_timestamp_ms first) <$> frames
  | [] => []
  end.

Definition untouched (f : ReplayFrame) : Prop := rp_timestamp_ms f = rp_original_timestamp_ms f.

Lemma align_does frames timestamp_align out : Forall untouched frames -> align_camera_frames frames timestamp_align = Ok out ->
  out = aligned timestamp_align frames /\ (frames <> [] -> timestamp_align ∈ ["none"; "first-frame"]).
Proof.
  unfold align_camera_frames, aligned. intros Hu. destruct frames as [|first rest]; [by intros [= <-]|]. case_bool_decide as Ha.
  - intros [= <-]. split; [done|]. rewrite Ha. set_solver.
  - destruct (bool_decide (timestamp_align = "first-frame")) eqn:Hf; [|done]. apply bool_decide_eq_true in Hf. 
    apply Forall_cons in Hu as [Hu _]. unfold untouched in Hu. rewrite <- Hu. intros [= <-]. split; [reflexivity|]. rewrite Hf. set_solver.
Qed.

Definition overlapping (o : option overlap) (f : ReplayFrame) : bool := match o with Some o => in_overlap o f | None => true end.

(** What the cut leaves of a camera. *)
Definition kept (o : option overlap) (frames : list ReplayFrame) : list ReplayFrame := filter (fun f => overlapping o f = true) frames.

Lemma trim_cameras_does o timestamp_align (devices : list string) fl : length devices = length fl -> Forall untouched (mjoin fl) ->
  forall out, trim_cameras o timestamp_align (zip devices fl) = Ok out ->
  out = zip devices (aligned timestamp_align <$> (kept o <$> fl)) /\
  (mjoin (kept o <$> fl) <> [] -> timestamp_align ∈ ["none"; "first-frame"]).
Proof.
  revert fl. induction devices as [|d devices IH]; intros [|frames fl] Hlen Hu out E; try done; cbn [zip zip_with trim_cameras] in E.
  { by injection E as <-. }
  cbn [mjoin list_join] in Hu. apply Forall_app in Hu as [Hu1 Hu2]. injection Hlen as Hlen.
  assert (match o with Some o => filter (fun f => in_overlap o f = true) frames | None => frames end = kept o frames) as Hk.
  { unfold kept, overlapping. destruct o as [o|]; [done|]. symmetry. apply filter_all, Forall_true. done. }
  rewrite Hk in E. apply result_bind_Ok in E as (a & Ha & E). apply align_does in Ha as [-> Ha];
    [|unfold kept; apply Forall_forall; intros f [_ Hf]%list_elem_of_filter; by apply (proj1 (Forall_forall _ _) Hu1)]. apply result_bind_Ok in E as (rest & Hr & [= <-]).
  destruct (IH fl Hlen Hu2 rest Hr) as [-> Hr2]. split; [done|]. cbn [fmap list_fmap mjoin list_join].
  destruct (kept o frames); [done|]. intros _. by apply Ha.
Qed.

Lemma capture_leb_total x y : capture_leb x y = true \/ capture_leb y x = true.
Proof.
  apply (lex_total rp_timestamp_ms Z.ltb Z.eqb); [lia|apply Z.eqb_eq|]. clear x y. intros x y.
  apply (lex_total rp_device_id String.ltb String.eqb); [apply string_ltb_total|apply String.eqb_eq|lia].
Qed.

Lemma capture_leb_trans x y z : capture_leb x y = true -> capture_leb y z = true -> capture_leb x z = true.
Proof.
  apply (lex_trans rp_timestamp_ms Z.ltb Z.eqb); [lia|apply Z.eqb_eq|]. clear x y z. intros x y z.
  apply (lex_trans rp_device_id String.ltb String.eqb); [apply string_ltb_trans|apply String.eqb_eq|lia].
Qed.

Lemma received_leb_total x y : received_leb x y = true \/ received_leb y x = true.
Proof.
  apply (lex_total (fun x => or_minus_one (rp_server_received_at_ms x)) Z.ltb Z.eqb); [lia|apply Z.eqb_eq|]. clear x y. intros x y.
  apply (lex_total (fun x => or_minus_one (rp_server_receive_sequence x)) Z.ltb Z.eqb); [lia|apply Z.eqb_eq|apply capture_leb_total].
Qed.

Lemma received_leb_trans x y z : received_leb x y = true -> received_leb y z = true -> received_leb x z = true.
Proof.
  apply (lex_trans (fun x => or_minus_one (rp_server_received_at_ms x)) Z.ltb Z.eqb); [lia|apply Z.eqb_eq|]. clear x y z. intros x y z.
  apply (lex_trans (fun x => or_minus_one (rp_server_receive_sequence x)) Z.ltb Z.eqb); [lia|apply Z.eqb_eq|apply capture_leb_trans].
Qed.

Lemma replay_sorted order_by l : StronglySorted (le_by (replay_leb order_by)) (sort_by (replay_leb order_by) l).
Proof.
  unfold replay_leb. destruct (bool_decide _).
  - apply sort_by_sorted; [apply capture_leb_total|apply capture_leb_trans].
  - apply sort_by_sorted; [apply received_leb_total|apply received_leb_trans].
Qed.

(** ** The cut

    The overlap is the time every camera covers. *)

Lemma min_of_spec l : forall x t, min_of x l <= t <-> exists y, y ∈ x :: l /\ y <= t.
Proof.
  unfold min_of. induction l as [|z l IH]; intros x t; cbn.
  - split; [intros H; exists x; set_solver|]. intros (y & ->%list_elem_of_singleton & ?). lia.
  - rewrite IH. split.
    + intros (y & [->|Hy]%elem_of_cons & H); [|exists y; set_solver]. destruct (Z.min_spec x z) as [[_ E]|[_ E]]; rewrite E in H;
        [exists x|exists z]; set_solver.
    + intros (y & [->|[->|Hy]%elem_of_cons]%elem_of_cons & H); [exists (Z.min x z)|exists (Z.min x z)|exists y]; (split; [set_solver|lia]).
Qed.

Lemma max_of_spec l : forall x t, t <= max_of x l <-> exists y, y ∈ x :: l /\ t <= y.
Proof.
  unfold max_of. induction l as [|z l IH]; intros x t; cbn.
  - split; [intros H; exists x; set_solver|]. intros (y & ->%list_elem_of_singleton & ?). lia.
  - rewrite IH. split.
    + intros (y & [->|Hy]%elem_of_cons & H); [|exists y; set_solver]. destruct (Z.max_spec x z) as [[_ E]|[_ E]]; rewrite E in H;
        [exists z|exists x]; set_solver.
    + intros (y & [->|[->|Hy]%elem_of_cons]%elem_of_cons & H); [exists (Z.max x z)|exists (Z.max x z)|exists y]; (split; [set_solver|lia]).
Qed.

Lemma max_of_le l x t : max_of x l <= t <-> Forall (fun y => y <= t) (x :: l).
Proof.
  rewrite Forall_forall. split; [intros H y Hy|intros H].
  - enough (y <= max_of x l) by lia. apply max_of_spec. exists y. split; [done|lia].
  - destruct (proj1 (max_of_spec l x (max_of x l)) ltac:(lia)) as (y & Hy & Hle). specialize (H y Hy). lia.
Qed.

Lemma min_of_ge l x t : t <= min_of x l <-> Forall (fun y => t <= y) (x :: l).
Proof.
  rewrite Forall_forall. split; [intros H y Hy|intros H].
  - enough (min_of x l <= y) by lia. apply min_of_spec. exists y. split; [done|lia].
  - destruct (proj1 (min_of_spec l x (min_of x l)) ltac:(lia)) as (y & Hy & Hle). specialize (H y Hy). lia.
Qed.

Definition covers (frames : list ReplayFrame) (t : Z) : Prop :=
  exists f g, f ∈ frames /\ g ∈ frames /\ rp_original_timestamp_ms f <= t <= rp_original_timestamp_ms g.

Lemma camera_ranges_spec by_camera ranges : camera_ranges by_camera = Some ranges ->
  Forall2 (fun x r => forall t, r.1.2 <= t <= r.2 <-> covers x.2 t) by_camera ranges.
Proof.
  revert ranges. induction by_camera as [|[d frames] l IH]; intros ranges; cbn; [intros [= <-]; constructor|].
  destruct (rp_original_timestamp_ms <$> frames) as [|x xs] eqn:E; [done|]. intros (rest & Hr & [= <-])%bind_Some.
  constructor; [|by apply IH]. intros t. cbn. rewrite min_of_spec, max_of_spec, <- E. setoid_rewrite list_elem_of_fmap. unfold covers. naive_solver.
Qed.

Lemma overlap_exact by_camera o : calculate_overlap by_camera = Ok (Some o) -> forall t,
  ov_start_timestamp_ms o <= t <= ov_end_timestamp_ms o <-> Forall (fun x => covers x.2 t) by_camera.
Proof.
  unfold calculate_overlap. destruct (camera_ranges by_camera) as [ranges|] eqn:E; [|done]. apply camera_ranges_spec in E.
  destruct ranges as [|[[d first] last] rest]; [done|]. intros [= <-] t. cbn. rewrite max_of_le, min_of_ge, !Forall_cons, !Forall_fmap.
  apply Forall2_cons_inv_r in E as (x & l & Hx & HF & ->). rewrite Forall_cons, <- Hx. cbn.
  assert (Forall (fun x => covers x.2 t) l <-> Forall ((fun y => y <= t) ∘ (fun x : string * Z * Z => x.1.2)) rest /\ Forall ((fun y => t <= y) ∘ snd) rest) as ->.
  { clear Hx x. induction HF as [|x r l rest Hr _ IH]; [by rewrite !Forall_nil|]. rewrite !Forall_cons, IH, <- Hr. unfold compose. naive_solver. }
  naive_solver.
Qed.

Lemma calculate_overlap_None (devices : list string) fl : length devices = length fl ->
  calculate_overlap (zip devices fl) = Ok None <-> [] ∈ fl.
Proof.
  intros Hlen. assert (camera_ranges (zip devices fl) = None <-> [] ∈ fl) as H.
  { revert fl Hlen. induction devices as [|d devices IH]; intros [|frames fl] Hlen; try done; cbn [zip zip_with camera_ranges].
    { split; [done|]. by intros ?%not_elem_of_nil. }
    injection Hlen as Hlen. specialize (IH fl Hlen). destruct frames as [|f frames]; cbn [fmap list_fmap]; [split; [by left|done]|].
    rewrite elem_of_cons, <- IH. change (camera_ranges (zip_with pair devices fl)) with (camera_ranges (zip devices fl)).
    destruct (camera_ranges (zip devices fl)); cbn; naive_solver. }
  rewrite <- H. unfold calculate_overlap. destruct (camera_ranges (zip devices fl)) as [[|[[d x] y] l]|]; naive_solver.
Qed.

Lemma Forall_zip_snd (P : list ReplayFrame -> Prop) (devices : list string) fl : length devices = length fl ->
  Forall (fun x => P x.2) (zip devices fl) <-> Forall P fl.
Proof.
  revert fl. induction devices as [|d devices IH]; intros [|frames fl] Hlen; try done; cbn [zip zip_with].
  injection Hlen as Hlen. rewrite !Forall_cons. by rewrite (IH fl Hlen).
Qed.

Lemma counts_zip (devices : list string) (fl : list (list ReplayFrame)) : length devices = length fl ->
  counts (zip devices fl) = zip devices ((fun l => Z.of_nat (length l)) <$> fl).
Proof.
  revert fl. induction devices as [|d devices IH]; intros [|frames fl] Hlen; try done. injection Hlen as Hlen. cbn.
  f_equal. by apply IH.
Qed.

Lemma zip_seconds (devices : list string) (fl : list (list ReplayFrame)) : length devices = length fl -> (zip devices fl).*2 = fl.
Proof. intros H. apply snd_zip. by rewrite H. Qed.

Lemma loaded_untouched order_by m l fl : Forall2 (loaded order_by m) l fl -> Forall untouched fl.
Proof.
  induction 1 as [|e f l fl (n & _ & _ & H1 & H2 & _) _ IH]; constructor; [|done]. unfold untouched. congruence.
Qed.

Lemma aligned_length timestamp_align frames : length (aligned timestamp_align frames) = length frames.
Proof. unfold aligned. destruct frames; [done|]. case_bool_decide; [done|]. by rewrite length_fmap. Qed.

(** C33: The input of a replay. When loading returns, with every device given
    once, it read of each folder, by name, the image files named for the
    device - at most as many as the limit says, one where it is below one -,
    each with the times, sequence and type of its name and, in received
    order, the timing of its sidecar; numbered 1, 2, 3, ... in that order.
    Without trimming there is no overlap; with it, there is none exactly
    when a camera has no frame, and otherwise the overlap is the time every
    camera covers. Of each camera the frames in the overlap are left,
    shifted so that the first one left is at zero, or as they are with the
    alignment "none", and the frames of all cameras are sorted as asked for.
    The counts are those before and after. *)
Theorem collected_frames camera_mappings limit_per_camera timestamp_align trim_overlap order_by ri :
  NoDup (mp_device_id <$> camera_mappings) ->
  collect_replay_input camera_mappings limit_per_camera timestamp_align trim_overlap order_by = Ok ri ->
  exists collected,
    Forall2 (fun m frames => Forall2 (loaded order_by m) (taken limit_per_camera m) frames) camera_mappings collected /\
    rp_frame_id <$> mjoin collected = Z.of_nat <$> seq 1 (length (mjoin collected)) /\
    (if trim_overlap
     then (ri_overlap ri = None <-> [] ∈ collected) /\
       forall o, ri_overlap ri = Some o -> forall t,
         ov_start_timestamp_ms o <= t <= ov_end_timestamp_ms o <-> Forall (fun frames => covers frames t) collected
     else ri_overlap ri = None) /\
    let left_over := kept (ri_overlap ri) <$> collected in
    let replayed := aligned timestamp_align <$> left_over in
    (mjoin left_over <> [] -> timestamp_align ∈ ["none"; "first-frame"]) /\
    ri_frames ri ≡ₚ mjoin replayed /\ StronglySorted (le_by (replay_leb order_by)) (ri_frames ri) /\
    ri_expected_cameras ri = mp_device_id <$> camera_mappings /\
    ri_original_per_camera_counts ri = zip (mp_device_id <$> camera_mappings) ((fun l => Z.of_nat (length l)) <$> collected) /\
    ri_per_camera_counts ri = zip (mp_device_id <$> camera_mappings) ((fun l => Z.of_nat (length l)) <$> left_over).
Proof.
  intros Hn. unfold collect_replay_input. destruct (supported_order order_by) eqn:Ho; [|done]. cbn [negb]. intros E.
  apply result_bind_Ok in E as ([by_camera st] & Hc & E). apply result_bind_Ok in E as (o & Hov & E).
  apply result_bind_Ok in E as (trimmed & Ht & E). unfold sort_replay_frames in E. rewrite Ho in E. cbn [mbind result_bind] in E. injection E as <-.
  apply collect_cameras_does in Hc as (fl & -> & Hnum & HF); [|exact Hn]. rewrite app_nil_l in *.
  assert (length (mp_device_id <$> camera_mappings) = length fl) as Hlen by (rewrite length_fmap; by apply Forall2_length in HF).
  assert (Forall untouched (mjoin fl)) as Hu.
  { apply Forall_join. clear -HF. induction HF as [|m frames l fl Hm _ IH]; constructor; [by eapply loaded_untouched|done]. }
  destruct (trim_cameras_does _ _ _ _ Hlen Hu _ Ht) as [-> Hal]. exists fl. cbn.
  rewrite (counts_zip _ fl Hlen), counts_zip, zip_seconds by (by rewrite ?length_fmap, <- Hlen, length_fmap). split_and!; try done.
  - rewrite Hnum. cbn. rewrite <- (fmap_S_seq 0), <- list_fmap_compose. apply list_fmap_ext. intros i x _. unfold compose. lia.
  - destruct trim_overlap; [|by injection Hov]. rewrite <- (calculate_overlap_None _ _ Hlen), Hov. split; [naive_solver|].
    intros o' -> t. rewrite (overlap_exact _ _ Hov). by apply (Forall_zip_snd (fun frames => covers frames t)).
  - apply sort_by_perm.
  - apply replay_sorted.
  - f_equal. rewrite <- list_fmap_compose. apply list_fmap_ext. intros i x _. unfold compose. by rewrite aligned_length.
Qed.

(** ** Two folders *)

Definition demo_entry (name : string) (timing : option (Z * Z)) : entry := mkEntry name true
  ((fun '(a, b) => Some (JObj [("server", JObj [("received_at_ms", JInt a); ("server_receive_sequence", JInt b)])])) <$> timing).

Definition demo_mappings : list mapping :=
  [mkMapping "android_01" "camera1" [demo_entry "1000_android_01_camera_01_1.jpg" (Some (5000, 2)); demo_entry "notes.txt" None];
   mkMapping "android_02" "camera2" [demo_entry "1010_android_02_camera_02_1.jpg" (Some (4000, 1));
                                     demo_entry "1020_other_camera_02_1.jpg" None]].

(** The first frame of [android_01] is before the overlap. *)
Definition demo_trimmed : list mapping :=
  [mkMapping "android_01" "camera1" [demo_entry "1030_android_01_camera_01_3.jpg" None;
                                     demo_entry "1000_android_01_camera_01_1.jpg" None; demo_entry "1020_android_01_camera_01_2.jpg" None];
   mkMapping "android_02" "camera2" [demo_entry "1010_android_02_camera_02_1.jpg" None; demo_entry "1035_android_02_camera_02_2.jpg" None]].

Lemma collected_frames_witness : exists ri, collect_replay_input demo_trimmed None "first-frame" true "capture" = Ok ri /\
  ((fun f => (rp_frame_id f, rp_timestamp_ms f, rp_original_timestamp_ms f)) <$> ri_frames ri) = [(2, 0, 1020); (4, 0, 1010); (3, 10, 1030)] /\
  StronglySorted (le_by (replay_leb "capture")) (ri_frames ri) /\
  ri_per_camera_counts ri = [("android_01", 2); ("android_02", 1)].
Proof.
  assert (Hn : NoDup (mp_device_id <$> demo_trimmed)) by (apply (bool_decide_unpack _); vm_compute; exact I).
  destruct (collect_replay_input demo_trimmed None "first-frame" true "capture") as [ri|e] eqn:E; [|vm_compute in E; discriminate E].
  destruct (collected_frames _ _ _ _ _ _ Hn E) as (collected & _ & _ & _ & _ & _ & Hsorted & _). exists ri. split; [reflexivity|].
  split; [|split; [exact Hsorted|]]; vm_compute in E; injection E as <-; reflexivity.
Defined.

Example received_order : match collect_replay_input demo_mappings None "none" false "received" with
  | Ok ri => (rp_device_id <$> ri_frames ri) = ["android_02"; "android_01"] /\ (ri_skipped_image_files ri, ri_non_image_files ri) = (1, 1)
  | Raise _ => False end.
Proof. vm_compute. by split. Qed.

(** A limit of no frames still loads one of each camera. *)
Example no_frames_per_camera : match collect_replay_input demo_trimmed (Some 0) "none" false "capture" with
  | Ok ri => ri_per_camera_counts ri = [("android_01", 1); ("android_02", 1)] | Raise _ => False end.
Proof. vm_compute. reflexivity. Qed.

Example received_order_needs_timing :
  collect_replay_input [mkMapping "a" "f" [demo_entry "1_a_camera_1_1.jpg" None]] None "none" false "received" =
    Raise (LoaderValueError "Received-order replay requires sidecar server timing: f/1_a_camera_1_1.jpg.metadata.json").
Proof. vm_compute. reflexivity. Qed.
