(* ===== verification/Replay.v ===== *)
(** * Replaying stored frames

    src/scripts/storage_sync_replay/core.py: frames of an archive are given
    again to a matcher, the one of the service ([span]) or an older one
    anchored at the newest frame ([anchor]), and what it finds is reported.
    The two matchers are instances of one interface, over which the replay
    and its reports are defined. What [Path.read_bytes] gives, the path to
    show, and the clock and identifiers the service asks for are parameters;
    the progress bar only prints. *)

From S2P Require Import Prelude Float64 Digest Identity SyncModels FrameBuffer Matcher SyncService ReplayLoader.

(** ** Matchers *)

(** The keys of [status] the replay reads. *)
Record ReplayStatus := mkReplayStatus {
  rs_matcher_mode : string; rs_matched_count : Z; rs_missed_count : Z; rs_duplicate_count : Z; rs_ignored_count : Z;
  rs_last_frame_set_id : option Z; rs_last_anchor_timestamp_ms : option Z; rs_last_max_delta_ms : option Z;
  rs_last_span_ms : option Z; rs_watermark_timestamp_ms : option Z; rs_dropped_stale_count : Z;
  rs_last_missing_cameras : list string; rs_last_reason : option string;
}.

(** [handle_frame], with the time and the fresh identifier it may ask for,
    and [status]. *)
Class ReplayMatcher (S : Type) := {
  rm_handle_frame : S -> SyncInputFrame -> Z * string -> S * result sync_error (option SynchronizedFrameSet);
  rm_status : S -> ReplayStatus;
}.

(** *** The matcher of the service *)

#[export] Instance SpanReplayMatcher `{Hashing} : ReplayMatcher StreamSyncService := {
  rm_handle_frame s frame tick := handle_frame s frame tick.1 tick.2;
  rm_status s :=
    let m := sv_sync (service_status s) in
    mkReplayStatus "span" (st_matched_count m) (st_missed_count m) (st_duplicate_count m) (st_ignored_count m)
      (st_last_frame_set_id m) (st_last_anchor_timestamp_ms m) (st_last_max_delta_ms m) (st_last_span_ms m)
      (st_watermark_timestamp_ms m) (st_dropped_stale_count m) (st_last_missing_cameras m) (st_last_reason m);
}.

(** *** The anchored matcher *)

Record AnchorReplayMatcher := mkAnchorReplayMatcher {
  am_expected_cameras : list string; am_window_ms : Z; am_buffer_manager : SyncFrameBufferManager; am_next_frame_set_id : Z;
  am_emitted_keys : gset (list string); am_used_frame_keys : gset string;
  am_matched_count : Z; am_missed_count : Z; am_duplicate_count : Z; am_ignored_count : Z;
  am_last_frame_set_id : option Z; am_last_anchor_timestamp_ms : option Z; am_last_max_delta_ms : option Z;
  am_last_span_ms : option Z; am_last_missing_cameras : list string; am_last_reason : option string;
}.

#[export] Instance AnchorReplayMatcher_settable : Settable AnchorReplayMatcher := fun x => mkAnchorReplayMatcher
  (am_expected_cameras x) (am_window_ms x) (am_buffer_manager x) (am_next_frame_set_id x) (am_emitted_keys x)
  (am_used_frame_keys x) (am_matched_count x) (am_missed_count x) (am_duplicate_count x) (am_ignored_count x)
  (am_last_frame_set_id x) (am_last_anchor_timestamp_ms x) (am_last_max_delta_ms x) (am_last_span_ms x)
  (am_last_missing_cameras x) (am_last_reason x).

Definition new_AnchorReplayMatcher (expected_cameras : list string) (window_ms buffer_size : Z) : result sync_error AnchorReplayMatcher :=
  manager ← new_SyncFrameBufferManager buffer_size;
  Ok (mkAnchorReplayMatcher expected_cameras window_ms manager 1 ∅ ∅ 0 0 0 0 None None None None [] None).

(** What a frame that makes no set leaves. *)
Definition not_matched (anchor_timestamp_ms : Z) (missing_cameras : list string) (reason : string) (m : AnchorReplayMatcher) : AnchorReplayMatcher :=
  m <| am_last_anchor_timestamp_ms := Some anchor_timestamp_ms |> <| am_last_missing_cameras := missing_cameras |>
    <| am_last_reason := Some reason |>.

Definition anchor_record_miss (m : AnchorReplayMatcher) (anchor_timestamp_ms : Z) (missing_cameras : list string) : AnchorReplayMatcher :=
  not_matched anchor_timestamp_ms missing_cameras "missing cameras inside anchor window" (m <| am_missed_count ::= Z.succ |>).

(** The loop over the cameras: the dict [selected] and the missing ones. *)
Definition select_nearest (m : AnchorReplayMatcher) (anchor_timestamp_ms : Z) : list (string * StoredSyncFrame) * list string :=
  foldl (fun '(selected, missing) device_id =>
           match nearest_frame (am_buffer_manager m) device_id anchor_timestamp_ms (am_window_ms m) (Some (am_used_frame_keys m)) with
           | None => (selected, missing ++ [device_id])
           | Some nearest => (dict_set device_id nearest selected, missing)
           end) ([], []) (am_expected_cameras m).

Definition frame_keys (selected : list (string * StoredSyncFrame)) : list string := sort_by String.leb (sf_buffer_key <$> selected.*2).

Definition spread (timestamps : list Z) : Z :=
  match timestamps with [] => 0 | t :: ts => max_of t ts - min_of t ts end.

Definition farthest (anchor_timestamp_ms : Z) (timestamps : list Z) : Z :=
  match (fun t => Z.abs (t - anchor_timestamp_ms)) <$> timestamps with [] => 0 | t :: ts => max_of t ts end.

Definition anchored_set (m : AnchorReplayMatcher) (stored : StoredSyncFrame) (selected : list (string * StoredSyncFrame)) : SynchronizedFrameSet :=
  let timestamps := sf_timestamp_ms <$> selected.*2 in
  mkSynchronizedFrameSet (am_next_frame_set_id m) (sf_timestamp_ms stored) (farthest (sf_timestamp_ms stored) timestamps) selected
    (Some (spread timestamps)) None None None None None IDENTITY_MODE_LEGACY ARCHIVE_PENDING None 0 0 0 None None None None None None.

Definition anchor_record_match (m : AnchorReplayMatcher) (key : list string) (frame_set : SynchronizedFrameSet) : AnchorReplayMatcher :=
  m <| am_next_frame_set_id ::= Z.succ |> <| am_emitted_keys ::= fun s => {[key]} ∪ s |>
    <| am_used_frame_keys ::= fun s => list_to_set key ∪ s |> <| am_matched_count ::= Z.succ |>
    <| am_last_frame_set_id := Some (fs_frame_set_id frame_set) |>
    <| am_last_anchor_timestamp_ms := Some (fs_anchor_timestamp_ms frame_set) |>
    <| am_last_max_delta_ms := Some (fs_max_delta_ms frame_set) |> <| am_last_span_ms := fs_span_ms frame_set |>
    <| am_last_missing_cameras := [] |> <| am_last_reason := Some "matched" |>.

Definition anchor_handle_stored (m : AnchorReplayMatcher) (stored : StoredSyncFrame) : AnchorReplayMatcher * option SynchronizedFrameSet :=
  let anchor := sf_timestamp_ms stored in
  if negb (bool_decide (sf_device_id stored ∈ am_expected_cameras m))
  then (not_matched anchor [] ("unexpected camera: " +:+ sf_device_id stored) (m <| am_ignored_count ::= Z.succ |>), None)
  else
    let '(selected, missing) := select_nearest m anchor in
    if negb (bool_decide (missing = [])) then (anchor_record_miss m anchor missing, None)
    else
      let key := frame_keys selected in
      if bool_decide (key ∈ am_emitted_keys m)
      then (not_matched anchor [] "duplicate frame set" (m <| am_duplicate_count ::= Z.succ |>), None)
      else let frame_set := anchored_set m stored selected in (anchor_record_match m key frame_set, Some frame_set).

Definition anchor_handle_frame `{Hashing} (m : AnchorReplayMatcher) (frame : SyncInputFrame) : AnchorReplayMatcher * option SynchronizedFrameSet :=
  let '(manager, stored) := add_frame (am_buffer_manager m) frame in
  let m := m <| am_buffer_manager := manager |> in
  match stored with None => (m, None) | Some stored => anchor_handle_stored m stored end.

#[export] Instance AnchorReplay `{Hashing} : ReplayMatcher AnchorReplayMatcher := {
  rm_handle_frame m frame _ := let '(m, r) := anchor_handle_frame m frame in (m, Ok r);
  rm_status m :=
    mkReplayStatus "anchor" (am_matched_count m) (am_missed_count m) (am_duplicate_count m) (am_ignored_count m)
      (am_last_frame_set_id m) (am_last_anchor_timestamp_ms m) (am_last_max_delta_ms m) (am_last_span_ms m) None 0
      (am_last_missing_cameras m) (am_last_reason m);
}.

(** ** Replaying *)

(** A frame of a report. [server_received_at_ms] and
    [server_receive_sequence] are attributes a stored frame does not have. *)
Record SerializedFrame := mkSerializedFrame {
  sr_frame_id : option Z; sr_device_id : string; sr_timestamp_ms : Z; sr_original_timestamp_ms : Z;
  sr_server_received_at_ms : option Z; sr_server_receive_sequence : option Z;
  sr_sequence : option Z; sr_image_size : Z; sr_file_path : option string;
}.

Record SerializedFrameSet := mkSerializedFrameSet {
  sz_frame_set_id : Z; sz_anchor_timestamp_ms : Z; sz_max_delta_ms : Z; sz_span_ms : Z; sz_frames : list (string * SerializedFrame);
}.

Definition serialize_frame (original_timestamps : gmap Z Z) (frame : StoredSyncFrame) : SerializedFrame := mkSerializedFrame
  (sf_frame_id frame) (sf_device_id frame) (sf_timestamp_ms frame)
  (default (sf_timestamp_ms frame) (sf_frame_id frame ≫= fun i => original_timestamps !! i)) None None
  (sf_sequence frame) (sf_image_size frame) (sf_file_path frame).

Definition item_leb {V} (x y : string * V) : bool := String.leb x.1 y.1.

Definition serialize_frame_set (original_timestamps : gmap Z Z) (frame_set : SynchronizedFrameSet) : SerializedFrameSet :=
  mkSerializedFrameSet (fs_frame_set_id frame_set) (fs_anchor_timestamp_ms frame_set) (fs_max_delta_ms frame_set)
    (default (fs_max_delta_ms frame_set) (fs_span_ms frame_set))
    (prod_map id (serialize_frame original_timestamps) <$> sort_by item_leb (fs_frames frame_set)).

Record NoSetFrame := mkNoSetFrame {
  ns_frame_id : Z; ns_device_id : string; ns_timestamp_ms : Z; ns_original_timestamp_ms : Z; ns_sequence : Z;
  ns_reason : option string; ns_missing_cameras : list string; ns_file_path : string;
}.

Inductive replay_error := UnsupportedMatcher (mode : string) | MatcherFailed (e : sync_error) | FileNotFound (path : string).

Section Replay.
Context (read_bytes shown_path : string -> option string) (tick : Z -> Z * string).

Definition replay_input_frame (f : ReplayFrame) (image_bytes : string) : SyncInputFrame :=
  mkSyncInputFrame (Some (rp_frame_id f)) (rp_device_id f) (rp_timestamp_ms f) (Some (rp_sequence f)) (rp_content_type f) image_bytes
    (Some (default (rp_file_path f) (shown_path (rp_file_path f)))) None None None None IDENTITY_MODE_LEGACY ARCHIVE_PENDING None
    None None None None None None None None None None None None.

(** The matcher, the sets found and the frames that made none. *)
Definition replay_state (M : Type) : Type := M * list SerializedFrameSet * list NoSetFrame.

Definition replay_step {M} `{!ReplayMatcher M} (original_timestamps : gmap Z Z) (st : replay_state M) (f : ReplayFrame)
    : result replay_error (replay_state M) :=
  let '(m, sets, none) := st in
  image_bytes ← match read_bytes (rp_file_path f) with Some b => Ok b | None => Raise (FileNotFound (rp_file_path f)) end;
  let '(m, r) := rm_handle_frame m (replay_input_frame f image_bytes) (tick (rp_frame_id f)) in
  match r with
  | Raise e => Raise (MatcherFailed e)
  | Ok (Some frame_set) => Ok (m, sets ++ [serialize_frame_set original_timestamps frame_set], none)
  | Ok None =>
      let status := rm_status m in
      Ok (m, sets,
          if bool_decide (rs_last_anchor_timestamp_ms status = Some (rp_timestamp_ms f))
          then none ++ [mkNoSetFrame (rp_frame_id f) (rp_device_id f) (rp_timestamp_ms f) (rp_original_timestamp_ms f) (rp_sequence f)
                          (rs_last_reason status) (rs_last_missing_cameras status) (rp_file_path f)]
          else none)
  end.

Fixpoint replay_loop {M} `{!ReplayMatcher M} (original_timestamps : gmap Z Z) (st : replay_state M) (l : list ReplayFrame)
    : result replay_error (replay_state M) :=
  match l with [] => Ok st | f :: l => st ← replay_step original_timestamps st f; replay_loop original_timestamps st l end.

Definition original_timestamps_of (frames : list ReplayFrame) : gmap Z Z :=
  foldl (fun d f => <[rp_frame_id f := rp_original_timestamp_ms f]> d) ∅ frames.

Definition replay_report : Type := ReplayStatus * list SerializedFrameSet * list NoSetFrame.

Definition replay_with {M} `{!ReplayMatcher M} (m : M) (frames : list ReplayFrame) : result replay_error replay_report :=
  '(m, sets, none) ← replay_loop (original_timestamps_of frames) (m, [], []) frames;
  Ok (rm_status m, sets, none).

Definition lift_matcher {A} (r : result sync_error A) : result replay_error A :=
  match r with Ok a => Ok a | Raise e => Raise (MatcherFailed e) end.

(** [build_replay_matcher], then the loop. *)
Definition replay_frames `{Hashing} (frames : list ReplayFrame) (expected_cameras : list string) (window_ms buffer_size recent_limit : Z)
    (matcher_mode : string) : result replay_error replay_report :=
  if bool_decide (matcher_mode = "span") then
    let '(service, r) := configure new_StreamSyncService true expected_cameras window_ms buffer_size recent_limit (tick 0).2 in
    _ ← lift_matcher r;
    replay_with service frames
  else if bool_decide (matcher_mode = "anchor") then
    m ← lift_matcher (new_AnchorReplayMatcher expected_cameras window_ms buffer_size);
    replay_with m frames
  else Raise (UnsupportedMatcher matcher_mode).
End Replay.

(** ** Summaries *)

(** [statistics.mean] of integers: an integer if it is one. *)
Inductive number := IntNumber (z : Z) | FloatNumber (x : float64).

Definition mean (first : Z) (rest : list Z) : result float_error number :=
  let total := foldl Z.add first rest in
  let n := Z.of_nat (S (length rest)) in
  if total mod n =? 0 then Ok (IntNumber (total / n)) else x ← int_truediv total n; Ok (FloatNumber x).

Definition ninety_five : float64 := default float_zero (py_float "0.95").

(** [percentile(values, p)] of a non-empty list. *)
Definition percentile (values : list Z) (p : float64) : result float_error (option float64) :=
  let ordered := sort_by Z.leb values in
  n ← float_of_int (Z.of_nat (length ordered) - 1);
  index ← round_of_float (float_mul n p);
  match ordered !! Z.to_nat index with Some z => x ← float_of_int z; Ok (Some x) | None => Ok None end.

(** [{"min", "avg", "p95", "max"}], all [None] without values. *)
Definition statistics (values : list Z) : result float_error (option (Z * number * option float64 * Z)) :=
  match values with
  | [] => Ok None
  | v :: vs =>
      avg ← mean v vs; p95 ← percentile values ninety_five;
      Ok (Some (min_of v vs, avg, p95, max_of v vs))
  end.

Definition ratio (a b : Z) : result float_error float64 := if 0 <? b then int_truediv a b else Ok float_zero.

Record ReplaySummary := mkReplaySummary {
  su_expected_cameras : list string; su_matcher_mode : string; su_window_ms : Z; su_buffer_size : Z; su_timestamp_align : string;
  su_order_by : string; su_trim_overlap : bool; su_overlap : option overlap; su_input_frame_count : Z;
  su_per_camera_counts : list (string * Z); su_original_per_camera_counts : list (string * Z);
  su_trimmed_frame_counts : list (string * Z); su_skipped_image_files : Z; su_non_image_files : Z;
  su_timestamp_ranges : list (string * timestamp_range); su_matched_frame_set_count : Z; su_overlap_sync_opportunity_count : Z;
  su_matched_ratio_in_overlap : float64; su_matched_ratio_vs_largest_camera : float64; su_missed_count : Z; su_duplicate_count : Z;
  su_ignored_count : Z; su_last_reason : option string; su_last_missing_cameras : list string;
  su_max_delta_ms : option (Z * number * option float64 * Z); su_span_ms : option (Z * number * option float64 * Z);
  su_watermark_timestamp_ms : option Z; su_dropped_stale_count : Z;
}.

(** The options of a run, as they are repeated in its summary. *)
Record ReplayOptions := mkReplayOptions {
  op_window_ms : Z; op_buffer_size : Z; op_recent_limit : Z; op_timestamp_align : string; op_trim_overlap : bool;
  op_order_by : string; op_matcher_mode : string;
}.

#[export] Instance ReplayOptions_settable : Settable ReplayOptions := fun x => mkReplayOptions (op_window_ms x) (op_buffer_size x)
  (op_recent_limit x) (op_timestamp_align x) (op_trim_overlap x) (op_order_by x) (op_matcher_mode x).

Definition extreme (f : Z -> list Z -> Z) (values : list Z) : Z := match values with [] => 0 | v :: vs => f v vs end.

Definition build_summary (o : ReplayOptions) (expected_cameras : list string) (overlap_ : option overlap)
    (per_camera_counts original_per_camera_counts : list (string * Z)) (skipped_image_files non_image_files input_frame_count : Z)
    (timestamp_ranges : list (string * timestamp_range)) (status : ReplayStatus) (sets : list SerializedFrameSet)
    : result float_error ReplaySummary :=
  let matched_count := Z.of_nat (length sets) in
  let largest_camera_count := extreme max_of per_camera_counts.*2 in
  let overlap_sync_opportunity_count := extreme min_of per_camera_counts.*2 in
  vs_largest ← ratio matched_count largest_camera_count;
  in_overlap_ ← ratio matched_count overlap_sync_opportunity_count;
  max_deltas ← statistics (sz_max_delta_ms <$> sets);
  span_values ← statistics (sz_span_ms <$> sets);
  Ok (mkReplaySummary expected_cameras (rs_matcher_mode status) (op_window_ms o) (op_buffer_size o) (op_timestamp_align o) (op_order_by o)
        (op_trim_overlap o) overlap_ input_frame_count per_camera_counts original_per_camera_counts
        ((fun '(device_id, count) => (device_id, default 0 (dict_get device_id original_per_camera_counts) - count)) <$> per_camera_counts)
        skipped_image_files non_image_files timestamp_ranges matched_count overlap_sync_opportunity_count in_overlap_ vs_largest
        (rs_missed_count status) (rs_duplicate_count status) (rs_ignored_count status) (rs_last_reason status) (rs_last_missing_cameras status)
        max_deltas span_values (rs_watermark_timestamp_ms status) (rs_dropped_stale_count status)).

Record ReplayRunResult := mkReplayRunResult {
  rr_summary : ReplaySummary; rr_matched_frame_sets : list SerializedFrameSet; rr_no_set_frames : list NoSetFrame;
}.

Inductive run_error := ReplayFailed (e : replay_error) | SummaryFailed (e : float_error).

Definition lift_replay {A} (r : result replay_error A) : result run_error A := match r with Ok a => Ok a | Raise e => Raise (ReplayFailed e) end.
Definition lift_summary {A} (r : result float_error A) : result run_error A := match r with Ok a => Ok a | Raise e => Raise (SummaryFailed e) end.

Section Runs.
Context `{Hashing} (read_bytes shown_path : string -> option string) (tick : Z -> Z * string).

(** The run of a list of frames with the counts given for it. *)
Definition run_result (o : ReplayOptions) (frames : list ReplayFrame) (expected_cameras : list string)
    (per_camera_counts original_per_camera_counts : list (string * Z)) (ri : ReplayInput) (ranges : list (string * timestamp_range))
    : result run_error ReplayRunResult :=
  '(status, sets, none) ← lift_replay (replay_frames read_bytes shown_path tick frames expected_cameras (op_window_ms o) (op_buffer_size o)
                                         (op_recent_limit o) (op_matcher_mode o));
  summary ← lift_summary (build_summary o expected_cameras (ri_overlap ri) per_camera_counts original_per_camera_counts
                            (ri_skipped_image_files ri) (ri_non_image_files ri) (Z.of_nat (length frames)) ranges status sets);
  Ok (mkReplayRunResult summary sets none).

Definition build_replay_summary (o : ReplayOptions) (ri : ReplayInput) : result run_error ReplayRunResult :=
  run_result o (ri_frames ri) (ri_expected_cameras ri) (ri_per_camera_counts ri) (ri_original_per_camera_counts ri) ri (ri_timestamp_ranges ri).

Definition counts_of (counts_ : list (string * Z)) (cameras : list string) : list (string * Z) :=
  foldl (fun d c => dict_set c (default 0 (dict_get c counts_)) d) [] cameras.

Definition build_subset_replay_summary (o : ReplayOptions) (ri : ReplayInput) (cameras : list string) : result run_error ReplayRunResult :=
  let frames := filter (fun f => rp_device_id f ∈ cameras) (ri_frames ri) in
  run_result o frames cameras (counts_of (ri_per_camera_counts ri) cameras) (counts_of (ri_original_per_camera_counts ri) cameras) ri
    (build_timestamp_ranges frames).

(** [itertools.combinations(l, 2)]. *)
Fixpoint pairs {A} (l : list A) : list (A * A) :=
  match l with [] => [] | x :: l => (pair x <$> l) ++ pairs l end.

(** A comprehension whose body may raise. *)
Fixpoint mapped {E A B} (f : A -> result E B) (l : list A) : result E (list B) :=
  match l with [] => Ok [] | x :: l => y ← f x; ys ← mapped f l; Ok (y :: ys) end.

Definition pairwise_summary : Type := list string * ReplaySummary.

Definition build_pairwise_summaries (o : ReplayOptions) (ri : ReplayInput) : result run_error (list pairwise_summary) :=
  mapped (fun '(a, b) => r ← build_subset_replay_summary o ri [a; b]; Ok ([a; b], rr_summary r)) (pairs (ri_expected_cameras ri)).

(** [compact_summary] keeps some keys: the record of a sweep. *)
Record CompactSummary := mkCompactSummary {
  co_window_ms : Z; co_matcher_mode : string; co_order_by : string; co_matched_frame_set_count : Z;
  co_overlap_sync_opportunity_count : Z; co_matched_ratio_in_overlap : float64; co_missed_count : Z; co_duplicate_count : Z;
  co_ignored_count : Z; co_max_delta_ms : option (Z * number * option float64 * Z); co_span_ms : option (Z * number * option float64 * Z);
  co_watermark_timestamp_ms : option Z; co_dropped_stale_count : Z; co_last_reason : option string; co_last_missing_cameras : list string;
}.

Definition compact_summary (s : ReplaySummary) : CompactSummary := mkCompactSummary (su_window_ms s) (su_matcher_mode s) (su_order_by s)
  (su_matched_frame_set_count s) (su_overlap_sync_opportunity_count s) (su_matched_ratio_in_overlap s) (su_missed_count s)
  (su_duplicate_count s) (su_ignored_count s) (su_max_delta_ms s) (su_span_ms s) (su_watermark_timestamp_ms s)
  (su_dropped_stale_count s) (su_last_reason s) (su_last_missing_cameras s).

(** What was computed before, or is computed now. *)
Definition cached {A} (found : option A) (compute : result run_error A) : result run_error A :=
  match found with Some a => Ok a | None => compute end.

Definition sweep_item : Type := CompactSummary * option (list (list string * CompactSummary)).

(** One window of the sweep, with what was computed before. *)
Definition sweep_summary (o : ReplayOptions) (ri : ReplayInput) (known : option ReplaySummary) : result run_error ReplaySummary :=
  cached known (r ← build_replay_summary o ri; Ok (rr_summary r)).

Definition compact_pairwise (l : list pairwise_summary) : list (list string * CompactSummary) := prod_map id compact_summary <$> l.

Definition sweep_pairwise (o : ReplayOptions) (ri : ReplayInput) (known : option (list pairwise_summary))
    : result run_error (list (list string * CompactSummary)) :=
  found ← cached known (build_pairwise_summaries o ri); Ok (compact_pairwise found).

Definition sweep_window (o : ReplayOptions) (ri : ReplayInput) (include_pairwise : bool) (summaries : gmap Z ReplaySummary)
    (pairwise : gmap Z (list pairwise_summary)) (window_ms : Z) : result run_error sweep_item :=
  let o := o <| op_window_ms := window_ms |> in
  summary ← sweep_summary o ri (summaries !! window_ms);
  if include_pairwise : bool
  then l ← sweep_pairwise o ri (pairwise !! window_ms); Ok (compact_summary summary, Some l)
  else Ok (compact_summary summary, None).

Definition build_window_sweep_summaries (o : ReplayOptions) (ri : ReplayInput) (include_pairwise : bool) (windows_ms : list Z)
    (summaries : gmap Z ReplaySummary) (pairwise : gmap Z (list pairwise_summary)) : result run_error (list sweep_item) :=
  mapped (sweep_window o ri include_pairwise summaries pairwise) windows_ms.
End Runs.

(** ** A concrete replay

    The frames of the repository's own test: no set of the service's matcher,
    one of the anchored one. *)

Definition demo_replay_frame (i : Z) (device_id : string) (timestamp_ms : Z) : ReplayFrame :=
  mkReplayFrame i device_id timestamp_ms timestamp_ms None None i ("f" +:+ pretty i) "image/jpeg".

Definition demo_frames : list ReplayFrame :=
  [demo_replay_frame 1 "camera1" 1000; demo_replay_frame 3 "camera3" 1140; demo_replay_frame 2 "camera2" 1070].

Definition demo_replay (mode : string) : result replay_error replay_report :=
  replay_frames (H := transparent_hashing) (fun _ => Some "image") (fun _ => None) (fun i => (i, "run")) demo_frames
    ["camera1"; "camera2"; "camera3"] 70 120 20 mode.

Example demo_span : match demo_replay "span" with Ok (status, sets, none) => (sets, rs_matched_count status) | _ => ([], -1) end = ([], 0).
Proof. vm_compute. reflexivity. Qed.

Example demo_anchor : match demo_replay "anchor" with
  | Ok (status, sets, none) => (sz_span_ms <$> sets, rs_matched_count status, ns_frame_id <$> none) | _ => ([], -1, []) end = ([140], 1, [1; 3]).
Proof. vm_compute. reflexivity. Qed.

Example demo_statistics : match statistics [3; 1; 2; 40; 6] with
  | Ok (Some (a, FloatNumber b, Some p, c)) => (a, float_eqb b (default float_zero (py_float "10.4")), float_eqb p (default float_zero (py_float "40")), c)
  | _ => (0, false, false, 0) end = (1, true, true, 40).
Proof. vm_compute. reflexivity. Qed.

(** ** The selection of the anchored matcher *)

Lemma select_loop_spec (pick : string -> option StoredSyncFrame) l : forall selected missing selected' missing',
  NoDup selected.*1 -> (forall d f, (d, f) ∈ selected -> pick d = Some f) ->
  foldl (fun '(selected, missing) device_id =>
           match pick device_id with
           | None => (selected, missing ++ [device_id])
           | Some nearest => (dict_set device_id nearest selected, missing)
           end) (selected, missing) l = (selected', missing') ->
  NoDup selected'.*1 /\ (forall d f, (d, f) ∈ selected' -> pick d = Some f) /\
  (missing' = [] -> forall d, d ∈ selected'.*1 <-> d ∈ selected.*1 \/ d ∈ l).
Proof.
  induction l as [|d l IH]; intros selected missing selected' missing' Hn Hp E; cbn [foldl] in E.
  { injection E as <- <-. split_and!; [done|done|]. set_solver. }
  destruct (pick d) as [f|] eqn:Ep.
  - apply IH in E as (H1 & H2 & H3).
    + split_and!; [done|done|]. intros Hm d'. rewrite (H3 Hm), dict_keys_set. case_decide; set_solver.
    + rewrite dict_keys_set. case_decide; [done|]. apply NoDup_app. split_and!; [done|set_solver|apply NoDup_singleton].
    + intros d' f' [[= -> ->]|H]%dict_set_elem; [done|by apply Hp].
  - pose proof E as Hmono. apply IH in E as (H1 & H2 & H3); [|done|done]. split_and!; [done|done|]. intros ->. exfalso.
    clear - Hmono. assert (forall l s m s' m', foldl (fun '(selected, missing) device_id =>
           match pick device_id with
           | None => (selected, missing ++ [device_id])
           | Some nearest => (dict_set device_id nearest selected, missing)
           end) (s, m) l = (s', m') -> exists k, m' = m ++ k) as Hgrow.
    { clear. induction l as [|d l IH]; intros s m s' m' E; cbn [foldl] in E; [injection E as <- <-; exists []; by rewrite app_nil_r|].
      destruct (pick d); [by eapply IH|]. destruct (IH _ _ _ _ E) as [k ->]. exists ([d] ++ k). by rewrite app_assoc. }
    destruct (Hgrow _ _ _ _ _ Hmono) as [k Hk]. by destruct missing.
Qed.

Lemma select_nearest_spec m anchor selected missing : select_nearest m anchor = (selected, missing) ->
  NoDup selected.*1 /\
  (forall d f, (d, f) ∈ selected ->
     nearest_frame (am_buffer_manager m) d anchor (am_window_ms m) (Some (am_used_frame_keys m)) = Some f) /\
  (missing = [] -> forall d, d ∈ selected.*1 <-> d ∈ am_expected_cameras m).
Proof.
  unfold select_nearest. intros E. apply (select_loop_spec
    (fun d => nearest_frame (am_buffer_manager m) d anchor (am_window_ms m) (Some (am_used_frame_keys m)))) in E as (H1 & H2 & H3);
    [|constructor|intros d f H; by apply elem_of_nil in H].
  split_and!; [done|done|]. intros Hm d. rewrite (H3 Hm). set_solver.
Qed.

Lemma nearest_frame_Some m d anchor window used f : nearest_frame m d anchor window (Some used) = Some f ->
  exists b, bm_buffers m !! d = Some b /\ f ∈ cb_frames b /\ (sf_buffer_key f ∉ used) /\ Z.abs (sf_timestamp_ms f - anchor) <= window.
Proof.
  intros E. unfold nearest_frame in E. destruct (bm_buffers m !! d) as [b|] eqn:Hb; [|done]. exists b. split; [done|].
  unfold buffer_nearest_frame in E. pose proof (buffer_nearest_spec b anchor window (Some used)) as H. cbn in *.
  destruct (foldl _ _ _) as [[g e]|]; [|done]. injection E as ->. destruct H as (-> & Hw & Hc & l1 & l2 & -> & _).
  split_and!; [set_solver|exact Hc|exact Hw].
Qed.

(** Frames enter the buffers one by one. *)
Lemma add_stored_frames m f d b g : 0 <= bm_buffer_size m ->
  bm_buffers (add_stored m f).1 !! d = Some b -> g ∈ cb_frames b ->
  (exists b0, bm_buffers m !! d = Some b0 /\ g ∈ cb_frames b0) \/ (g = f /\ d = sf_device_id f).
Proof.
  intros Hs. destruct (add_stored_outcome m f Hs) as [x Hx|b0 Hx Hb0 Ho'|b0 dropped index evicted Hx Hb0 Hoo Hev Hk Hi];
    cbn [fst bm_buffers update settable SyncFrameBufferManager_settable].
  - eauto.
  - intros Hb Hg. left. destruct (decide (d = sf_device_id f)) as [->|Hne]; [|rewrite lookup_insert_ne in Hb by done; eauto].
    rewrite lookup_insert_eq in Hb. apply (inj Some) in Hb. subst b0. eauto.
  - intros Hb Hg. destruct (decide (d = sf_device_id f)) as [->|Hne]; [|rewrite lookup_insert_ne in Hb by done; eauto].
    rewrite lookup_insert_eq in Hb. apply (inj Some) in Hb. subst b.
    change (g ∈ cb_frames (append b0 f)) in Hg. rewrite append_frames in Hg. apply elem_of_deque_append in Hg as [Hg|Hg]; [|by right].
    left. destruct (adopt_frames_cases b0 f) as [Ea|Ea]; rewrite Ea in Hg; [|by apply elem_of_nil in Hg].
    subst b0. destruct (bm_buffers m !! sf_device_id f) as [b1|]; cbn in Hg; [eauto|by apply elem_of_nil in Hg].
Qed.

Lemma add_stored_index m f k : 0 <= bm_buffer_size m -> is_Some (bm_frames_by_key (add_stored m f).1 !! k) ->
  is_Some (bm_frames_by_key m !! k) \/ k = sf_buffer_key f.
Proof.
  intros Hs. destruct (add_stored_outcome m f Hs) as [x Hx|b0 Hx Hb0 Ho'|b0 dropped index evicted Hx Hb0 Hoo Hev Hk Hi];
    cbn [fst bm_frames_by_key update settable SyncFrameBufferManager_settable]; [by left|by left|].
  rewrite Hi. case_decide; [by intros [? ?]|]. destruct (decide (k = sf_buffer_key f)); [by right|]. rewrite lookup_insert_ne by done. by left.
Qed.

Lemma add_stored_accepts m f : 0 <= bm_buffer_size m -> bm_frames_by_key m !! sf_buffer_key f = None ->
  sf_identity_mode f <> IDENTITY_MODE_V2 -> (add_stored m f).2 = Some f /\ bm_buffer_size (add_stored m f).1 = bm_buffer_size m.
Proof.
  intros Hs Hk Hm. destruct (add_stored_outcome m f Hs) as [x Hx|b0 Hx Hb0 Ho'|b0 dropped index evicted]; [congruence| |done].
  exfalso. unfold is_out_of_order in Ho'. by rewrite bool_decide_false in Ho'.
Qed.

(** ** What the anchored matcher keeps *)

Section Anchored.
Context `{Hashing} (read_bytes shown_path : string -> option string) (expected_cameras : list string) (window_ms : Z).

Definition stored_of (f : ReplayFrame) (g : StoredSyncFrame) : Prop := exists image_bytes,
  read_bytes (rp_file_path f) = Some image_bytes /\ g = store_frame (replay_input_frame shown_path f image_bytes).

Definition frame_key (f : ReplayFrame) : string := "db:" +:+ pretty (rp_frame_id f).

Lemma stored_key f g : stored_of f g -> sf_buffer_key g = frame_key f.
Proof using Type. by intros (b & _ & ->). Qed.

Lemma frame_key_inj f f' : frame_key f = frame_key f' -> rp_frame_id f = rp_frame_id f'.
Proof using Type. unfold frame_key. intros E. by do 2 apply (inj _) in E. Qed.

Definition set_keys_of (fs : SynchronizedFrameSet) : list string := sf_buffer_key <$> (fs_frames fs).*2.
Definition all_keys (raw : list SynchronizedFrameSet) : list string := mjoin (set_keys_of <$> raw).

(** A set has one frame of each expected camera, near its anchor. *)
Record set_sound (frames : list ReplayFrame) (fs : SynchronizedFrameSet) : Prop := {
  ss_cameras : forall d, d ∈ (fs_frames fs).*1 <-> d ∈ expected_cameras;
  ss_distinct : NoDup (fs_frames fs).*1;
  ss_members : forall d g, (d, g) ∈ fs_frames fs -> exists f, f ∈ frames /\ stored_of f g /\ rp_device_id f = d /\
    Z.abs (rp_timestamp_ms f - fs_anchor_timestamp_ms fs) <= window_ms;
  ss_anchor : exists f, f ∈ frames /\ rp_timestamp_ms f = fs_anchor_timestamp_ms fs /\ rp_device_id f ∈ expected_cameras;
  ss_span : fs_span_ms fs = Some (spread (sf_timestamp_ms <$> (fs_frames fs).*2));
  ss_delta : fs_max_delta_ms fs = farthest (fs_anchor_timestamp_ms fs) (sf_timestamp_ms <$> (fs_frames fs).*2);
}.

Record anchored_inv (frames : list ReplayFrame) (m : AnchorReplayMatcher) (raw : list SynchronizedFrameSet) : Prop := {
  ai_config : am_expected_cameras m = expected_cameras /\ am_window_ms m = window_ms /\ 1 <= bm_buffer_size (am_buffer_manager m);
  ai_buffers : forall d b g, bm_buffers (am_buffer_manager m) !! d = Some b -> g ∈ cb_frames b ->
    exists f, f ∈ frames /\ stored_of f g /\ rp_device_id f = d;
  ai_index : forall k, is_Some (bm_frames_by_key (am_buffer_manager m) !! k) -> exists f, f ∈ frames /\ k = frame_key f;
  ai_used : forall k, k ∈ am_used_frame_keys m <-> k ∈ all_keys raw;
  ai_emitted : forall l, l ∈ am_emitted_keys m -> l <> [] /\ forall k, k ∈ l -> k ∈ am_used_frame_keys m;
  ai_matched : am_matched_count m = Z.of_nat (length raw) /\ am_next_frame_set_id m = Z.of_nat (length raw) + 1;
  ai_others : am_duplicate_count m = 0 /\ am_missed_count m + am_ignored_count m = Z.of_nat (length frames) - Z.of_nat (length raw);
  ai_ids : fs_frame_set_id <$> raw = (fun i => Z.of_nat i + 1) <$> seq 0 (length raw);
  ai_once : NoDup (all_keys raw);
  ai_sound : Forall (set_sound frames) raw;
}.

Lemma set_sound_mono frames f fs : set_sound frames fs -> set_sound (frames ++ [f]) fs.
Proof using Type.
  intros [H1 H2 H3 (f0 & H4 & H4') H5 H6]. split; [done|done| |exists f0; set_solver|done|done].
  intros d g Hg. destruct (H3 d g Hg) as (f1 & ? & ?). exists f1. set_solver.
Qed.

Lemma all_keys_app raw fs : all_keys (raw ++ [fs]) = all_keys raw ++ set_keys_of fs.
Proof using Type. unfold all_keys. rewrite fmap_app, join_app. cbn. by rewrite app_nil_r. Qed.

(** The matcher with the frame stored. *)
Lemma stored_inv frames f g m raw : anchored_inv frames m raw -> stored_of f g -> (forall x, x ∈ frames -> rp_frame_id x <> rp_frame_id f) ->
  add_stored (am_buffer_manager m) g = ((add_stored (am_buffer_manager m) g).1, Some g) /\
  let m1 := m <| am_buffer_manager := (add_stored (am_buffer_manager m) g).1 |> in
  (forall d b g', bm_buffers (am_buffer_manager m1) !! d = Some b -> g' ∈ cb_frames b ->
     exists f', f' ∈ frames ++ [f] /\ stored_of f' g' /\ rp_device_id f' = d) /\
  (forall k, is_Some (bm_frames_by_key (am_buffer_manager m1) !! k) -> exists f', f' ∈ frames ++ [f] /\ k = frame_key f') /\
  1 <= bm_buffer_size (am_buffer_manager m1).
Proof using Type.
  intros [(H1 & H2 & H3) Hb Hi _ _ _ _ _ _ _] Hg Hnew.
  destruct (add_stored_accepts (am_buffer_manager m) g) as [Hr Hs].
  - lia.
  - destruct (bm_frames_by_key (am_buffer_manager m) !! sf_buffer_key g) eqn:E; [|done]. exfalso.
    destruct (Hi (sf_buffer_key g)) as (x & Hx & Ek); [by eexists|]. rewrite (stored_key _ _ Hg) in Ek. by apply (Hnew x Hx), frame_key_inj.
  - by destruct Hg as (b & _ & ->).
  - split; [by rewrite <- Hr, <- surjective_pairing|]. cbn zeta.
    split_and!.
    + intros d b g' Hd Hg'. cbn in Hd. apply (add_stored_frames _ _ _ _ g') in Hd as [(b0 & Hb0 & Hin)|[-> ->]]; [| |lia|done].
      * destruct (Hb d b0 g' Hb0 Hin) as (f' & ? & ?). exists f'. set_solver.
      * exists f. split; [set_solver|]. split; [done|]. by destruct Hg as (? & _ & ->).
    + intros k Hk. cbn in Hk. apply add_stored_index in Hk as [Hk| ->]; [| |lia].
      * destruct (Hi k Hk) as (f' & ? & ?). exists f'. set_solver.
      * exists f. split; [set_solver|by apply stored_key].
    + cbn. rewrite Hs. exact H3.
Qed.

Lemma same_frame frames f f' : NoDup (rp_frame_id <$> frames) -> f ∈ frames -> f' ∈ frames -> rp_frame_id f = rp_frame_id f' -> f = f'.
Proof using Type.
  induction frames as [|x l IH]; [intros _ H0; by apply elem_of_nil in H0|]. rewrite fmap_cons, NoDup_cons. intros [Hx Hl].
  assert (forall y, y ∈ l -> rp_frame_id y <> rp_frame_id x) as Hne by (intros y Hy E; apply Hx; rewrite <- E; by apply list_elem_of_fmap_2).
  intros [->|Hf]%elem_of_cons [->|Hf']%elem_of_cons E; [done| | |by apply IH]; exfalso; [by apply (Hne f')|by apply (Hne f)].
Qed.

Lemma distinct_seconds {A B C} (key : B -> C) (l : list (A * B)) : NoDup l.*1 ->
  (forall a b a' b', (a, b) ∈ l -> (a', b') ∈ l -> key b = key b' -> a = a') -> NoDup (key <$> l.*2).
Proof using Type.
  induction l as [|[a b] l IH]; intros Hn Hk; [constructor|]. cbn in *. apply NoDup_cons in Hn as [Ha Hn]. apply NoDup_cons. split.
  - rewrite <- list_fmap_compose. intros ([a' b'] & E & Hin)%list_elem_of_fmap. cbn in E. apply Ha.
    rewrite (Hk a b a' b'); [by apply (list_elem_of_fmap_2 fst) in Hin|set_solver|set_solver|done].
  - apply IH; [done|]. intros a1 b1 a2 b2 H1 H2. apply Hk; set_solver.
Qed.

(** The selection of a frame whose cameras are all there. *)
Record selection_sound (frames : list ReplayFrame) (used : gset string) (anchor : Z) (selected : list (string * StoredSyncFrame)) : Prop := {
  sl_cameras : forall d, d ∈ selected.*1 <-> d ∈ expected_cameras;
  sl_distinct : NoDup selected.*1;
  sl_members : forall d g, (d, g) ∈ selected -> exists f, f ∈ frames /\ stored_of f g /\ rp_device_id f = d /\ Z.abs (rp_timestamp_ms f - anchor) <= window_ms;
  sl_fresh : forall k, k ∈ sf_buffer_key <$> selected.*2 -> k ∉ used;
  sl_keys : NoDup (sf_buffer_key <$> selected.*2);
}.

Lemma stored_timestamp f g : stored_of f g -> sf_timestamp_ms g = rp_timestamp_ms f.
Proof using Type. by intros (b & _ & ->). Qed.

Lemma selection_does frames m anchor selected : NoDup (rp_frame_id <$> frames) ->
  am_expected_cameras m = expected_cameras -> am_window_ms m = window_ms ->
  (forall d b g, bm_buffers (am_buffer_manager m) !! d = Some b -> g ∈ cb_frames b -> exists f, f ∈ frames /\ stored_of f g /\ rp_device_id f = d) ->
  select_nearest m anchor = (selected, []) -> selection_sound frames (am_used_frame_keys m) anchor selected.
Proof using Type.
  intros Hids He Hw Hb E. apply select_nearest_spec in E as (Hn & Hp & Hc). rewrite He, Hw in *.
  assert (Hm : forall d g, (d, g) ∈ selected -> (sf_buffer_key g ∉ am_used_frame_keys m) /\
    exists f, f ∈ frames /\ stored_of f g /\ rp_device_id f = d /\ Z.abs (rp_timestamp_ms f - anchor) <= window_ms).
  { intros d g (b & Hd & Hg & Hu & Ht)%Hp%nearest_frame_Some. split; [done|]. destruct (Hb d b g Hd Hg) as (f & Hf & Hs & Hfd). exists f.
    split_and!; [done..|]. by rewrite <- (stored_timestamp f g). }
  split; [by apply Hc|done|by intros d g [_ ?]%Hm| |].
  - intros k (g & -> & ([d g'] & -> & Hg)%list_elem_of_fmap)%list_elem_of_fmap. by apply Hm in Hg as [? _].
  - apply distinct_seconds; [done|]. intros d g d' g' [_ (f & Hf & Hs & <- & _)]%Hm [_ (f' & Hf' & Hs' & <- & _)]%Hm Ek.
    rewrite (stored_key _ _ Hs), (stored_key _ _ Hs') in Ek. apply frame_key_inj in Ek. by rewrite (same_frame frames f f').
Qed.

Lemma frame_keys_elem selected k : k ∈ frame_keys selected <-> k ∈ sf_buffer_key <$> selected.*2.
Proof using Type. apply elem_of_sort_by. Qed.

(** A frame that makes no set leaves the invariant, and is noted. *)
Lemma not_matched_inv frames f m m' raw : anchored_inv frames m raw ->
  (forall d b g, bm_buffers (am_buffer_manager m') !! d = Some b -> g ∈ cb_frames b -> exists x, x ∈ frames ++ [f] /\ stored_of x g /\ rp_device_id x = d) ->
  (forall k, is_Some (bm_frames_by_key (am_buffer_manager m') !! k) -> exists x, x ∈ frames ++ [f] /\ k = frame_key x) ->
  1 <= bm_buffer_size (am_buffer_manager m') ->
  am_expected_cameras m' = am_expected_cameras m -> am_window_ms m' = am_window_ms m -> am_used_frame_keys m' = am_used_frame_keys m ->
  am_emitted_keys m' = am_emitted_keys m -> am_matched_count m' = am_matched_count m -> am_next_frame_set_id m' = am_next_frame_set_id m ->
  am_duplicate_count m' = am_duplicate_count m -> am_missed_count m' + am_ignored_count m' = am_missed_count m + am_ignored_count m + 1 ->
  anchored_inv (frames ++ [f]) m' raw.
Proof using Type.
  intros [(A1 & A2 & _) _ _ A6 A7 [A8 A9] [A10 A11] A12 A13 A14] Hb Hi Hs E1 E2 E3 E4 E5 E6 E7 E8.
  split; try rewrite E1, E2; try rewrite E3; try rewrite E4; try rewrite E5, E6; try rewrite E7; try done.
  - rewrite E8, A11, length_app. cbn. split; [done|lia].
  - eapply Forall_impl; [exact A14|]. intros fs. apply set_sound_mono.
Qed.

(** A set found is sound and its frames are fresh. *)
Lemma matched_inv frames f g m m1 raw selected : anchored_inv frames m raw -> NoDup (rp_frame_id <$> (frames ++ [f])) -> stored_of f g ->
  m1 = m <| am_buffer_manager := (add_stored (am_buffer_manager m) g).1 |> ->
  (forall d b g', bm_buffers (am_buffer_manager m1) !! d = Some b -> g' ∈ cb_frames b -> exists x, x ∈ frames ++ [f] /\ stored_of x g' /\ rp_device_id x = d) ->
  (forall k, is_Some (bm_frames_by_key (am_buffer_manager m1) !! k) -> exists x, x ∈ frames ++ [f] /\ k = frame_key x) ->
  1 <= bm_buffer_size (am_buffer_manager m1) -> rp_device_id f ∈ expected_cameras ->
  select_nearest m1 (rp_timestamp_ms f) = (selected, []) ->
  (frame_keys selected ∉ am_emitted_keys m1) /\
  anchored_inv (frames ++ [f]) (anchor_record_match m1 (frame_keys selected) (anchored_set m1 g selected)) (raw ++ [anchored_set m1 g selected]).
Proof using Type.
  intros [(A1 & A2 & _) _ _ A6 A7 [A8 A9] [A10 A11] A12 A13 A14] Hids Hg Em Hb Hi Hs Hf Hsel.
  assert (Hss : selection_sound (frames ++ [f]) (am_used_frame_keys m1) (rp_timestamp_ms f) selected)
    by (apply selection_does; [done|by rewrite Em|by rewrite Em|done|done]).
  subst m1.
  destruct Hss as [S1 S2 S3 S4 S5].
  assert (Hne : frame_keys selected <> []).
  { intros E. assert (rp_device_id f ∈ selected.*1) as ([d x] & _ & Hin)%list_elem_of_fmap by by apply S1.
    assert (sf_buffer_key x ∈ frame_keys selected) as Hk by (apply frame_keys_elem, list_elem_of_fmap_2; by apply (list_elem_of_fmap_2 snd) in Hin).
    rewrite E in Hk. by apply elem_of_nil in Hk. }
  cbn [am_emitted_keys am_buffer_manager update settable AnchorReplayMatcher_settable] in *. split.
  { intros Hin. destruct (A7 _ Hin) as [_ Hall]. destruct (frame_keys selected) as [|k l] eqn:E; [done|].
    apply (S4 k); [apply frame_keys_elem; rewrite E; set_solver|apply Hall; set_solver]. }
  split; cbn.
  - done.
  - exact Hb.
  - exact Hi.
  - intros k. rewrite elem_of_union, elem_of_list_to_set, frame_keys_elem, A6, all_keys_app, elem_of_app. unfold set_keys_of. cbn. tauto.
  - intros l [->%elem_of_singleton|Hl]%elem_of_union.
    + split; [done|]. intros k Hk. apply elem_of_union_l. by apply elem_of_list_to_set.
    + destruct (A7 _ Hl) as [? Hall]. split; [done|]. intros k Hk. apply elem_of_union_r. by apply Hall.
  - rewrite A8, A9, length_app. cbn. lia.
  - rewrite A10, A11, !length_app. cbn. lia.
  - rewrite fmap_app, A12, length_app, seq_app, fmap_app, A9. cbn. by repeat (f_equal; try lia).
  - rewrite all_keys_app. apply NoDup_app. split_and!; [done| |exact S5]. intros k Hk%A6 Hk2. by apply (S4 k Hk2).
  - apply Forall_app. split; [eapply Forall_impl; [exact A14|]; intros fs; apply set_sound_mono|]. apply Forall_singleton.
    split; cbn; [exact S1|exact S2| | |done|done]; rewrite (stored_timestamp f g) by done; [exact S3|]. exists f. split_and!; [set_solver|done|done].
Qed.

Lemma anchor_step frames f m raw image_bytes m' r : anchored_inv frames m raw -> NoDup (rp_frame_id <$> (frames ++ [f])) ->
  read_bytes (rp_file_path f) = Some image_bytes ->
  anchor_handle_frame m (replay_input_frame shown_path f image_bytes) = (m', r) ->
  anchored_inv (frames ++ [f]) m' (raw ++ option_list r) /\
  (r = None -> am_last_anchor_timestamp_ms m' = Some (rp_timestamp_ms f)).
Proof using Type.
  intros Hinv Hids Hread E. set (g := store_frame (replay_input_frame shown_path f image_bytes)).
  assert (Hg : stored_of f g) by by exists image_bytes.
  assert (Hnew : forall x, x ∈ frames -> rp_frame_id x <> rp_frame_id f).
  { intros x Hx Ex. rewrite fmap_app, NoDup_app in Hids. destruct Hids as (_ & Hd & _).
    apply (Hd (rp_frame_id x)); [by apply list_elem_of_fmap_2|]. rewrite Ex. cbn. set_solver. }
  destruct (stored_inv frames f g m raw Hinv Hg Hnew) as (Ha & Hb & Hi & Hs).
  unfold anchor_handle_frame, add_frame in E. fold g in E. rewrite Ha in E.
  set (m1 := m <| am_buffer_manager := (add_stored (am_buffer_manager m) g).1 |>) in *.
  pose proof Hinv as [(A1 & A2 & _) _ _ _ _ _ _ _ _ _].
  assert (Hnot : forall m2, am_buffer_manager m2 = am_buffer_manager m1 -> am_expected_cameras m2 = am_expected_cameras m ->
    am_window_ms m2 = am_window_ms m -> am_used_frame_keys m2 = am_used_frame_keys m -> am_emitted_keys m2 = am_emitted_keys m ->
    am_matched_count m2 = am_matched_count m -> am_next_frame_set_id m2 = am_next_frame_set_id m -> am_duplicate_count m2 = am_duplicate_count m ->
    am_missed_count m2 + am_ignored_count m2 = am_missed_count m + am_ignored_count m + 1 -> anchored_inv (frames ++ [f]) m2 raw).
  { intros m2 Em. intros. apply (not_matched_inv frames f m m2 raw); rewrite ?Em; done. }
  unfold anchor_handle_stored in E. change (sf_timestamp_ms g) with (rp_timestamp_ms f) in E. change (sf_device_id g) with (rp_device_id f) in E.
  case_bool_decide as Hexp; cbn [negb] in E.
  2: { injection E as <- <-. cbn. rewrite app_nil_r. split; [|done]. apply Hnot; try done. cbn. lia. }
  destruct (select_nearest m1 (rp_timestamp_ms f)) as [selected missing] eqn:Esel.
  case_bool_decide as Hmiss; cbn [negb] in E.
  2: { injection E as <- <-. cbn. rewrite app_nil_r. split; [|done]. apply Hnot; try done. cbn. lia. }
  subst missing. cbn in Hexp. rewrite A1 in Hexp.
  destruct (matched_inv frames f g m m1 raw selected Hinv Hids Hg eq_refl Hb Hi Hs Hexp Esel) as [Hfresh Hm].
  rewrite bool_decide_false in E by done. injection E as <- <-. split; [exact Hm|done].
Qed.

(** One turn of the replay. *)
Lemma anchor_replay_step tick ot l f m raw none : anchored_inv l m raw -> NoDup (rp_frame_id <$> (l ++ [f])) ->
  is_Some (read_bytes (rp_file_path f)) -> (length raw + length none)%nat = length l ->
  exists m' raw' none', replay_step (M := AnchorReplayMatcher) read_bytes shown_path tick ot (m, serialize_frame_set ot <$> raw, none) f =
    Ok (m', serialize_frame_set ot <$> raw', none') /\ anchored_inv (l ++ [f]) m' raw' /\
    (length raw' + length none')%nat = length (l ++ [f]).
Proof using Type.
  intros Hinv Hids [image_bytes Hread] Hlen. unfold replay_step. rewrite Hread. cbn.
  destruct (anchor_handle_frame m _) as [m' r] eqn:E.
  destruct (anchor_step _ _ _ _ _ _ _ Hinv Hids Hread E) as [Hinv' Hlast]. destruct r as [fs|]; cbn in *.
  - exists m', (raw ++ [fs]), none. rewrite fmap_app, !length_app. cbn. split_and!; [done|done|lia].
  - rewrite bool_decide_true by exact (Hlast eq_refl). rewrite app_nil_r in Hinv'. eexists m', raw, (none ++ [_]).
    split_and!; [reflexivity|exact Hinv'|]. rewrite !length_app. cbn. lia.
Qed.

Lemma anchor_replay_loop tick ot l : forall seen m raw none, anchored_inv seen m raw -> NoDup (rp_frame_id <$> (seen ++ l)) ->
  (forall f, f ∈ l -> is_Some (read_bytes (rp_file_path f))) ->
  (length raw + length none)%nat = length seen ->
  exists m' raw' none', replay_loop (M := AnchorReplayMatcher) read_bytes shown_path tick ot (m, serialize_frame_set ot <$> raw, none) l =
    Ok (m', serialize_frame_set ot <$> raw', none') /\ anchored_inv (seen ++ l) m' raw' /\
    (length raw' + length none')%nat = length (seen ++ l).
Proof using Type.
  induction l as [|f l IH]; intros seen m raw none Hinv Hids Hread Hlen; cbn [replay_loop].
  { exists m, raw, none. by rewrite app_nil_r. }
  rewrite (cons_middle f seen l), (assoc_L (++)) in *.
  destruct (anchor_replay_step tick ot seen f m raw none Hinv) as (m1 & raw1 & none1 & -> & Hinv1 & Hlen1);
    [rewrite fmap_app in Hids; by apply NoDup_app in Hids as [? _]|apply Hread; set_solver|done|].
  cbn. apply (IH (seen ++ [f])); [done|done|intros g Hg; apply Hread; set_solver|done].
Qed.

Lemma new_matcher_inv buffer_size m : new_AnchorReplayMatcher expected_cameras window_ms buffer_size = Ok m -> anchored_inv [] m [].
Proof using Type.
  unfold new_AnchorReplayMatcher, new_SyncFrameBufferManager. destruct (_ <? 1) eqn:E; [done|]. intros [= <-].
  split; cbn; try done; try set_solver.
  - split_and!; [done|done|bools; lia].
  - by intros k [? ?].
  - constructor.
Qed.
End Anchored.

(** Replaying readable frames of distinct ids with the anchored matcher
    comes to an end, and what it reports is right: every set has one stored
    frame for each expected camera and no other, its own camera's and within
    the window of the anchor, which is one of the replayed frames; the span
    and largest distance given are those of its frames; the sets share no
    frame and are numbered 1, 2, 3...; every frame that makes no set is
    noted, and the status counts the sets and the noted frames exactly (no
    set is ever a duplicate of another). *)
Theorem anchor_replay_sound `{Hashing} (read_bytes shown_path : string -> option string) (tick : Z -> Z * string)
    frames expected_cameras window_ms buffer_size recent_limit :
  NoDup (rp_frame_id <$> frames) -> 1 <= buffer_size -> (forall f, f ∈ frames -> is_Some (read_bytes (rp_file_path f))) ->
  exists status raw none,
    replay_frames read_bytes shown_path tick frames expected_cameras window_ms buffer_size recent_limit "anchor" =
      Ok (status, serialize_frame_set (original_timestamps_of frames) <$> raw, none) /\
    Forall (set_sound read_bytes shown_path expected_cameras window_ms frames) raw /\
    NoDup (all_keys raw) /\ fs_frame_set_id <$> raw = (fun i => Z.of_nat i + 1) <$> seq 0 (length raw) /\
    (length raw + length none)%nat = length frames /\
    rs_matched_count status = Z.of_nat (length raw) /\ rs_duplicate_count status = 0 /\
    rs_missed_count status + rs_ignored_count status = Z.of_nat (length none).
Proof.
  intros Hids Hsize Hread. unfold replay_frames. rewrite bool_decide_false, bool_decide_true by done.
  destruct (new_AnchorReplayMatcher expected_cameras window_ms buffer_size) as [m|e] eqn:Em; cbn [result_bind lift_matcher].
  2: { exfalso. revert Em. unfold new_AnchorReplayMatcher, new_SyncFrameBufferManager. by rewrite (proj2 (Z.ltb_ge _ _)) by lia. }
  pose proof (new_matcher_inv read_bytes shown_path expected_cameras window_ms buffer_size m Em) as Hinv.
  destruct (anchor_replay_loop read_bytes shown_path expected_cameras window_ms tick (original_timestamps_of frames) frames [] m [] []
    Hinv Hids Hread eq_refl) as (m' & raw & none & E & [_ _ _ _ _ [A8 _] [A10 A11] A12 A13 A14] & Hlen).
  exists (rm_status m'), raw, none. unfold replay_with. cbn in E. cbn [mbind result_bind]. rewrite E. cbn [app mbind result_bind] in *. split_and!; [done|done|done|done|done|exact A8|exact A10|]. cbn. rewrite A11. lia.
Qed.

Lemma anchor_replay_sound_witness :
  exists status raw none, demo_replay "anchor" = Ok (status, serialize_frame_set (original_timestamps_of demo_frames) <$> raw, none) /\
     Forall (set_sound (H := transparent_hashing) (fun _ => Some "image") (fun _ => None) ["camera1"; "camera2"; "camera3"] 70 demo_frames) raw /\ length raw = 1%nat.
Proof.
  destruct (anchor_replay_sound (H := transparent_hashing) (fun _ => Some "image") (fun _ => None) (fun i => (i, "run")) demo_frames
    ["camera1"; "camera2"; "camera3"] 70 120 20) as (status & raw & none & E & Hs & _).
  - apply (bool_decide_unpack _). vm_compute. exact I.
  - lia.
  - intros f _. by eexists.
  - exists status, raw, none. split_and!; [exact E|exact Hs|].
    apply (f_equal (fun r => match r with Ok (_, l, _) => length l | Raise _ => 0%nat end)) in E. rewrite length_fmap in E.
    rewrite <- E. vm_compute. reflexivity.
Defined.

(** ** What the service's matcher keeps *)

Section Shrinking.
Context `{Hashing} `{!HexDigest}.

Lemma drop_stale_shrinks m mgr d b' : manager_ok mgr -> bm_buffers (_drop_stale_frames m mgr).2 !! d = Some b' ->
  exists b, bm_buffers mgr !! d = Some b /\ cb_frames b' ⊆ cb_frames b.
Proof using Type.
  intros Hok. destruct (drop_stale_manager m mgr) as [->|[t ->]]; [eauto|].
  rewrite (proj2 (drop_older_spec mgr _ t None Hok)). case_decide; [|eauto].
  destruct (bm_buffers mgr !! d) as [b|]; [|done]. intros [= <-]. exists b. split; [done|]. intros g. apply list_elem_of_filter.
Qed.

Lemma drop_stale_index m mgr : manager_ok mgr -> bm_frames_by_key (_drop_stale_frames m mgr).2 = bm_frames_by_key mgr.
Proof using Type.
  intros Hok. destruct (drop_stale_manager m mgr) as [->|[t ->]]; [done|]. apply (drop_older_spec mgr _ t None Hok).
Qed.

(** Matching only takes frames out of the buffers, and of an emitted set's
    cameras those up to the chosen ones. *)
Lemma try_match_shrinks m mgr f now run m' mgr' r : manager_ok mgr -> try_match m mgr f now run = (m', mgr', r) ->
  bm_frames_by_key mgr' = bm_frames_by_key mgr /\
  (forall d b', bm_buffers mgr' !! d = Some b' -> exists b, bm_buffers mgr !! d = Some b /\ forall g, g ∈ cb_frames b' -> g ∈ cb_frames b /\
     forall fs chosen, r = Ok (Some fs) -> (d, chosen) ∈ fs_frames fs -> sf_timestamp_ms chosen < sf_timestamp_ms g).
Proof using Type*.
  intros Hok E. pose proof (try_match_outcome m mgr f now run Hok) as Ho. rewrite E in Ho.
  inversion Ho as [? _ _|m1 ? ? ? ? _ _ Ed _|? ? _ _ _|m1 sel s ci _ _ Hc _ _ _ _ _]; subst.
  - split; [done|]. intros d b' Hb. exists b'. by split.
  - change mgr' with ((m', mgr').2). rewrite Ed, drop_stale_index by done. split; [done|].
    intros d b' (b & Hb & Hsub)%drop_stale_shrinks; [|done]. exists b. split; [done|]. intros g Hg. by split; [apply Hsub|].
  - split; [done|]. intros d b' Hb. exists b'. by split.
  - destruct (consume_through_spec mgr sel Hok) as (_ & Hi & Hl); [apply Hc|by eapply choice_has_buffers|].
    pose proof (manager_ok_consume mgr sel Hok) as Hok'. rewrite drop_stale_index, Hi by done. split; [done|].
    intros d b' (b1 & Hb1 & Hsub)%drop_stale_shrinks; [|done]. rewrite Hl in Hb1. destruct (dict_get d sel) as [c|] eqn:Ec.
    + destruct (bm_buffers mgr !! d) as [b|]; [|done]. injection Hb1 as <-. exists b. split; [done|].
      intros g [Hlt Hg]%Hsub%list_elem_of_filter. split; [done|]. intros fs chosen [= <-] Hin. cbn in Hin.
      rewrite (dict_elem_get _ _ _ (proj1 Hc) Hin) in Ec. injection Ec as ->. apply Z.leb_gt in Hlt. exact Hlt.
    + exists b1. split; [done|]. intros g Hg%Hsub. split; [done|]. intros fs chosen [= <-] Hin. cbn in Hin.
      by rewrite (dict_elem_get _ _ _ (proj1 Hc) Hin) in Ec.
Qed.

(** A frame that makes no set is the last anchor. *)
Lemma drop_stale_anchor m mgr : sm_last_anchor_timestamp_ms (_drop_stale_frames m mgr).1 = sm_last_anchor_timestamp_ms m.
Proof using Type. unfold _drop_stale_frames. repeat case_match; done. Qed.

Lemma miss_anchor m mgr f reason missing m' mgr' r : miss m mgr f reason missing = (m', mgr', r) ->
  sm_last_anchor_timestamp_ms m' = Some (sf_timestamp_ms f).
Proof using Type.
  unfold miss. destruct (_drop_stale_frames _ mgr) as [m1 mgr1] eqn:E. intros [= <- <- <-].
  change m1 with ((m1, mgr1).1). by rewrite <- E, drop_stale_anchor.
Qed.

Lemma try_match_anchor m mgr f now run m' mgr' : try_match m mgr f now run = (m', mgr', Ok None) ->
  sm_last_anchor_timestamp_ms m' = Some (sf_timestamp_ms f).
Proof using Type.
  unfold try_match. case_bool_decide; [by intros [= <- <-]|]. case_bool_decide; [by intros [= <- <-]|].
  destruct (_select_min_span_candidate _ _ _) as [[[sel s]|] [|d l]]; [|by intros ?%miss_anchor..].
  destruct (_resolve_capture_identity _) as [ci|e].
  - unfold emit_frame_set. destruct (consume_through _ _) as [? [?|?]]; [|done].
    destruct (make_match _ _ _ _ _) as [? [?|?]]; [|done]. by destruct (_drop_stale_frames _ _).
  - destruct e; [done|by intros ?%miss_anchor|done].
Qed.
End Shrinking.

(** ** The replay through the service *)

Lemma configure_ok expected window size limit run s r : 1 <= size -> 0 <= limit ->
  configure new_StreamSyncService true expected window size limit run = (s, r) -> r = Ok tt.
Proof.
  intros Hsize Hlimit. unfold configure, new_SyncFrameBufferManager, new_SyncMatcher.
  rewrite (proj2 (Z.ltb_ge _ _)), (proj2 (Z.ltb_ge limit 0)) by lia. by intros [= _ <-].
Qed.

Section Spanned.
Context `{Hashing} `{!HexDigest} (read_bytes shown_path : string -> option string) (expected_cameras : list string) (window_ms : Z).
#[local] Abbreviation stored_of := (stored_of read_bytes shown_path).

(** A set has one frame of each expected camera, within the window. *)
Record span_set_sound (frames : list ReplayFrame) (fs : SynchronizedFrameSet) : Prop := {
  sp_cameras : forall d, d ∈ (fs_frames fs).*1 <-> d ∈ expected_cameras;
  sp_distinct : NoDup (fs_frames fs).*1;
  sp_members : forall d g, (d, g) ∈ fs_frames fs -> exists f, f ∈ frames /\ stored_of f g /\ rp_device_id f = d;
  sp_span : exists s, span_of (fs_frames fs) = Some s /\ s <= window_ms /\ fs_span_ms fs = Some s;
  sp_legacy : fs_identity_mode fs = IDENTITY_MODE_LEGACY;
}.

Record span_inv (frames : list ReplayFrame) (s : StreamSyncService) (raw : list SynchronizedFrameSet) : Prop := {
  si_enabled : ss_enabled s = true;
  si_manager : manager_ok (ss_buffer_manager s);
  si_matcher : exists m, ss_matcher s = Some m /\ sm_expected_cameras m = expected_cameras /\ sm_window_ms m = window_ms /\
    sm_next_frame_set_id m = Z.of_nat (length raw) + 1;
  si_buffers : forall d b g, bm_buffers (ss_buffer_manager s) !! d = Some b -> g ∈ cb_frames b ->
    (exists f, f ∈ frames /\ stored_of f g /\ rp_device_id f = d) /\ (sf_buffer_key g ∉ all_keys raw);
  si_index : forall k, is_Some (bm_frames_by_key (ss_buffer_manager s) !! k) -> exists f, f ∈ frames /\ k = frame_key f;
  si_keys : forall k, k ∈ all_keys raw -> exists f, f ∈ frames /\ k = frame_key f;
  si_ids : fs_frame_set_id <$> raw = (fun i => Z.of_nat i + 1) <$> seq 0 (length raw);
  si_once : NoDup (all_keys raw);
  si_sound : Forall (span_set_sound frames) raw;
}.

Lemma span_set_sound_mono frames f fs : span_set_sound frames fs -> span_set_sound (frames ++ [f]) fs.
Proof using Type.
  intros [H1 H2 H3 H4 H5]. split; [done|done| |done|done]. intros d g Hg. destruct (H3 d g Hg) as (f1 & ? & ?). exists f1. split; [apply elem_of_app; by left|done].
Qed.

Lemma stored_legacy f g : stored_of f g -> v2_complete g = false.
Proof using Type. by intros (b & _ & ->). Qed.

(** The frames of a replay need no scope. *)
Lemma legacy_resolved (frames : list ReplayFrame) mgr expected sel : expected <> [] ->
  (forall d b g, bm_buffers mgr !! d = Some b -> g ∈ cb_frames b -> exists f : ReplayFrame, f ∈ frames /\ stored_of f g /\ rp_device_id f = d) ->
  frame_choice mgr expected sel ->
  (forall d g, (d, g) ∈ sel -> exists b, bm_buffers mgr !! d = Some b /\ g ∈ cb_frames b) /\
  _resolve_capture_identity sel.*2 = Ok (mkCaptureIdentity IDENTITY_MODE_LEGACY None None None).
Proof using Type*.
  intros He Hb Hc. pose proof (choice_nonempty _ _ _ He Hc) as Hne. destruct Hc as (_ & _ & Hav).
  assert (Hin : forall d g, (d, g) ∈ sel -> exists b, bm_buffers mgr !! d = Some b /\ g ∈ cb_frames b).
  { intros d g Hg%Hav. unfold available_frames in Hg. destruct (bm_buffers mgr !! d) as [b|]; [|by apply elem_of_nil in Hg].
    exists b. by apply elem_of_available_frames in Hg as [? _]. }
  split; [done|]. unfold _resolve_capture_identity. destruct sel as [|[d g] sel]; [done|]. cbn.
  destruct (Hin d g) as (b & Hd & Hg); [left|]. destruct (Hb d b g Hd Hg) as (f & _ & Hs & _). by rewrite (stored_legacy f g Hs).
Qed.

(** The service with the frame in its buffers. *)
Lemma span_stored frames f g s raw : span_inv frames s raw -> stored_of f g -> (forall x, x ∈ frames -> rp_frame_id x <> rp_frame_id f) ->
  exists mgr, add_stored (ss_buffer_manager s) g = (mgr, Some g) /\ manager_ok mgr /\
  (forall d b x, bm_buffers mgr !! d = Some b -> x ∈ cb_frames b ->
     (exists y, y ∈ frames ++ [f] /\ stored_of y x /\ rp_device_id y = d) /\ (sf_buffer_key x ∉ all_keys raw)) /\
  (forall k, is_Some (bm_frames_by_key mgr !! k) -> exists y, y ∈ frames ++ [f] /\ k = frame_key y).
Proof using Type.
  intros [_ Hok _ Hb Hi Hk _ _ _] Hg Hnew. set (mgr0 := ss_buffer_manager s) in *. pose proof (mok_size _ Hok) as Hsize.
  assert (Hno : forall k, (exists x, x ∈ frames /\ k = frame_key x) -> k <> sf_buffer_key g).
  { intros k (x & Hx & ->) Ek. rewrite (stored_key _ _ _ _ Hg) in Ek. by apply (Hnew x Hx), frame_key_inj. }
  destruct (add_stored_accepts mgr0 g) as [Hr _]; [lia| |by destruct Hg as (b & _ & ->)|].
  { destruct (bm_frames_by_key mgr0 !! sf_buffer_key g) eqn:E; [|done]. exfalso. eapply Hno; [|done]. apply Hi. by eexists. }
  exists (add_stored mgr0 g).1. split_and!; [by rewrite <- Hr, <- surjective_pairing|by apply manager_ok_add| |].
  - intros d b x Hd Hx. apply (add_stored_frames _ _ _ _ x) in Hd as [(b0 & Hb0 & Hin)|[-> ->]]; [| |lia|done].
    + destruct (Hb d b0 x Hb0 Hin) as [(y & ? & ?) ?]. split; [|done]. exists y. split; [apply elem_of_app; by left|done].
    + split; [|intros Hin%Hk; by eapply Hno]. exists f. split; [apply elem_of_app; right; left|]. split; [done|]. by destruct Hg as (? & _ & ->).
  - intros k Hin. apply add_stored_index in Hin as [Hin| ->]; [| |lia].
    + destruct (Hi k Hin) as (y & ? & ?). exists y. split; [apply elem_of_app; by left|done].
    + exists f. split; [apply elem_of_app; right; left|by eapply stored_key].
Qed.

Lemma stored_fun f g g' : stored_of f g -> stored_of f g' -> g = g'.
Proof using Type. intros (b & Hb & ->) (b' & Hb' & ->). by simplify_eq. Qed.

(** Two stored frames of one key are one frame. *)
Lemma stored_inj frames g g' d d' : NoDup (rp_frame_id <$> frames) ->
  (exists y : ReplayFrame, y ∈ frames /\ stored_of y g /\ rp_device_id y = d) ->
  (exists y : ReplayFrame, y ∈ frames /\ stored_of y g' /\ rp_device_id y = d') ->
  sf_buffer_key g = sf_buffer_key g' -> g = g' /\ d = d'.
Proof using Type.
  intros Hids (y & Hy & Hs & <-) (y' & Hy' & Hs' & <-) Ek.
  rewrite (stored_key _ _ _ _ Hs), (stored_key _ _ _ _ Hs') in Ek. apply frame_key_inj in Ek.
  assert (y = y') as <- by by eapply same_frame. split; [by eapply stored_fun|done].
Qed.

Lemma core_fields m m' : matcher_core m' = matcher_core m -> sm_expected_cameras m' = sm_expected_cameras m /\
  sm_window_ms m' = sm_window_ms m /\ sm_next_frame_set_id m' = sm_next_frame_set_id m.
Proof using Type. unfold matcher_core. intros E. by injection E as -> -> _ -> _. Qed.

(** The service after the match of a stored frame. *)
Definition after_match (s : StreamSyncService) (mgr : SyncFrameBufferManager) (m : SyncMatcher) : StreamSyncService :=
  s <| ss_buffer_manager := mgr |> <| ss_matcher := Some m |>.

Definition holds (frames : list ReplayFrame) (raw : list SynchronizedFrameSet) (mgr : SyncFrameBufferManager) : Prop :=
  (forall d b x, bm_buffers mgr !! d = Some b -> x ∈ cb_frames b ->
     (exists y, y ∈ frames /\ stored_of y x /\ rp_device_id y = d) /\ (sf_buffer_key x ∉ all_keys raw)) /\
  (forall k, is_Some (bm_frames_by_key mgr !! k) -> exists y, y ∈ frames /\ k = frame_key y).

Lemma span_unmatched frames f s raw m m' mgr mgr' : span_inv frames s raw -> ss_matcher s = Some m -> matcher_core m' = matcher_core m ->
  holds (frames ++ [f]) raw mgr -> manager_ok mgr' -> bm_frames_by_key mgr' = bm_frames_by_key mgr ->
  (forall d b', bm_buffers mgr' !! d = Some b' -> exists b, bm_buffers mgr !! d = Some b /\ forall g, g ∈ cb_frames b' -> g ∈ cb_frames b) ->
  span_inv (frames ++ [f]) (after_match s mgr' m') raw.
Proof using Type.
  intros [A1 _ (m0 & A3 & A4 & A5 & A6) _ _ A7 A8 A9 A10] Hm (E1 & E2 & E3)%core_fields [Hb Hi] Hok' Ei Hsub. simplify_eq.
  split; cbn; try done.
  - exists m'. rewrite E1, E2, E3. by split_and!.
  - intros d b g (b0 & Hb0 & Hin)%Hsub Hg%Hin. by eapply Hb.
  - rewrite Ei. exact Hi.
  - intros k (y & ? & ?)%A7. exists y. split; [apply elem_of_app; by left|done].
  - eapply Forall_impl; [exact A10|]. intros fs. apply span_set_sound_mono.
Qed.

Lemma span_emitted frames f s raw m m1 sel sp ci now run mgr mgr' : span_inv frames s raw -> ss_matcher s = Some m ->
  NoDup (rp_frame_id <$> (frames ++ [f])) -> ci = mkCaptureIdentity IDENTITY_MODE_LEGACY None None None ->
  let fs := emitted_set m sel sp ci now run in
  sm_expected_cameras m1 = expected_cameras /\ sm_window_ms m1 = window_ms /\ sm_next_frame_set_id m1 = fs_frame_set_id fs + 1 ->
  holds (frames ++ [f]) raw mgr -> manager_ok mgr' -> bm_frames_by_key mgr' = bm_frames_by_key mgr ->
  frame_choice mgr expected_cameras sel -> span_of sel = Some sp -> sp <= window_ms ->
  (forall d g, (d, g) ∈ sel -> exists b, bm_buffers mgr !! d = Some b /\ g ∈ cb_frames b) ->
  (forall d b', bm_buffers mgr' !! d = Some b' -> exists b, bm_buffers mgr !! d = Some b /\ forall g, g ∈ cb_frames b' -> g ∈ cb_frames b /\
     forall chosen, (d, chosen) ∈ sel -> sf_timestamp_ms chosen < sf_timestamp_ms g) ->
  span_inv (frames ++ [f]) (after_match s mgr' m1) (raw ++ [fs]).
Proof using Type*.
  intros [A1 _ (m0 & A3 & A4 & A5 & A6) _ _ A7 A8 A9 A10] Hm Hids -> fs (E1 & E2 & E3) [Hb Hi] Hok' Ei Hc Hspan Hle Hin Hsub. simplify_eq.
  assert (Hid : fs_frame_set_id fs = Z.of_nat (length raw) + 1) by exact A6.
  assert (Hfr : fs_frames fs = sel) by done. assert (Hsp : fs_span_ms fs = Some sp) by done.
  assert (Hl : fs_identity_mode fs = IDENTITY_MODE_LEGACY) by done. clearbody fs.
  destruct Hc as (Hn & Hcam & _).
  assert (Hsel : forall d g, (d, g) ∈ sel ->
    (exists y, y ∈ frames ++ [f] /\ stored_of y g /\ rp_device_id y = d) /\ (sf_buffer_key g ∉ all_keys raw)).
  { intros d g (b & Hd & Hg)%Hin. by eapply Hb. }
  split; cbn; try done.
  - exists m1. rewrite E1, E2, E3, Hid, length_app. cbn. split_and!; [done|done|done|lia].
  - intros d b g (b0 & Hb0 & Hall)%Hsub Hg. destruct (Hall g Hg) as [Hg0 Hlt]. destruct (Hb d b0 g Hb0 Hg0) as [Hy Hk]. split; [done|].
    rewrite all_keys_app; unfold set_keys_of; rewrite Hfr, elem_of_app. intros [Hk'|(g' & Ek & ([d' x] & -> & Hx)%list_elem_of_fmap)%list_elem_of_fmap]; [done|].
    destruct (stored_inj (frames ++ [f]) g x d d' Hids Hy (proj1 (Hsel d' x Hx)) Ek) as [-> ->]. specialize (Hlt x Hx). lia.
  - rewrite Ei. exact Hi.
  - intros k. rewrite all_keys_app; unfold set_keys_of; rewrite Hfr, elem_of_app. intros [(y & ? & ?)%A7|(g' & -> & ([d' x] & -> & Hx)%list_elem_of_fmap)%list_elem_of_fmap].
    + exists y. split; [apply elem_of_app; by left|done].
    + destruct (Hsel d' x Hx) as [(y & Hy & Hs & _) _]. exists y. split; [done|by eapply stored_key].
  - rewrite fmap_app, A8, length_app, seq_app, fmap_app. cbn. rewrite Hid. by repeat (f_equal; try lia).
  - rewrite all_keys_app; unfold set_keys_of; rewrite Hfr. apply NoDup_app. split_and!; [done| |].
    + intros k Hk (g' & -> & ([d' x] & -> & Hx)%list_elem_of_fmap)%list_elem_of_fmap. by apply (Hsel d' x Hx).
    + apply distinct_seconds; [done|]. intros d g d' g' Hg Hg' Ek.
      by eapply (stored_inj (frames ++ [f])); [done|apply (Hsel d g Hg)|apply (Hsel d' g' Hg')|].
  - apply Forall_app. split; [eapply Forall_impl; [exact A10|]; intros x; apply span_set_sound_mono|]. apply Forall_singleton.
    split; rewrite ?Hfr; [done|done|intros d g Hg; by apply Hsel|by exists sp|done].
Qed.

Lemma span_match frames f g s raw m mgr now run m' mgr' r : span_inv frames s raw -> ss_matcher s = Some m ->
  NoDup (rp_frame_id <$> (frames ++ [f])) -> holds (frames ++ [f]) raw mgr -> manager_ok mgr ->
  try_match m mgr g now run = (m', mgr', r) ->
  exists o, r = Ok o /\ span_inv (frames ++ [f]) (after_match s mgr' m') (raw ++ option_list o).
Proof using Type*.
  intros Hinv Hm Hids Hh Hok E. pose proof Hinv as [_ _ (m0 & A3 & A4 & A5 & A6) _ _ _ _ _ _]. simplify_eq.
  assert (Hok' : manager_ok mgr') by (pose proof (try_match_manager_ok m mgr g now run Hok) as H1; by rewrite E in H1).
  destruct (try_match_shrinks m mgr g now run m' mgr' r Hok E) as [Hi Hsh].
  assert (Hnone : r = Ok None -> matcher_core m' = matcher_core m ->
    exists o, r = Ok o /\ span_inv (frames ++ [f]) (after_match s mgr' m') (raw ++ option_list o)).
  { intros -> Hcore. exists None. split; [done|]. cbn. rewrite app_nil_r. eapply span_unmatched; try done.
    intros d b' (b & Hb & Hall)%Hsh. exists b. split; [done|]. intros x Hx. by apply Hall. }
  destruct (decide (sm_expected_cameras m = [])) as [He|He].
  { unfold try_match in E. rewrite bool_decide_true in E by done. injection E as <- <- <-. by apply Hnone. }
  pose proof (try_match_outcome m mgr g now run Hok) as Ho. rewrite E in Ho.
  destruct Hh as [Hb Hix]. pose proof (fun sel => legacy_resolved (frames ++ [f]) mgr _ sel He (fun d b x Hd Hx => proj1 (Hb d b x Hd Hx))) as Hleg.
  inversion Ho as [? _ Hcore|m2 ? ? ? ? _ Em Ed _|e sel Hc Hr _|m2 sel sp ci _ _ Hc Hspan Hle _ Hr Hcore]; subst.
  - by apply Hnone.
  - apply Hnone; [done|]. change m' with ((m', mgr').1). by rewrite Ed, drop_stale_core.
  - destruct (Hleg sel Hc) as [_ Hr']. congruence.
  - destruct (Hleg sel Hc) as [Hin Hr']. rewrite Hr' in Hr. injection Hr as <-.
    exists (Some (emitted_set m sel sp (mkCaptureIdentity IDENTITY_MODE_LEGACY None None None) now run)). split; [done|].
    rewrite A4 in Hc. rewrite A5 in Hle. apply (span_emitted frames f s raw m) with (mgr := mgr); try done.
    + pose proof (drop_stale_core m2 (consume_through mgr sel).1) as Hd. rewrite Hcore in Hd. unfold matcher_core in Hd.
      injection Hd as -> -> _ -> _. by split_and!.
    + intros d b' (b & Hb0 & Hall)%Hsh. exists b. split; [done|]. intros x Hx. destruct (Hall x Hx) as [? Ht]. split; [done|].
      intros chosen Hch. by eapply Ht.
Qed.

Lemma span_step frames f image_bytes s raw now run : span_inv frames s raw -> NoDup (rp_frame_id <$> (frames ++ [f])) ->
  read_bytes (rp_file_path f) = Some image_bytes ->
  exists s' o, handle_frame s (replay_input_frame shown_path f image_bytes) now run = (s', Ok o) /\
    span_inv (frames ++ [f]) s' (raw ++ option_list o) /\
    (o = None -> rs_last_anchor_timestamp_ms (rm_status s') = Some (rp_timestamp_ms f)).
Proof using Type*.
  intros Hinv Hids Hread. set (g := store_frame (replay_input_frame shown_path f image_bytes)).
  assert (Hg : stored_of f g) by by exists image_bytes.
  assert (Hnew : forall x, x ∈ frames -> rp_frame_id x <> rp_frame_id f).
  { intros x Hx Ex. rewrite fmap_app, NoDup_app in Hids. destruct Hids as (_ & Hd & _).
    apply (Hd (rp_frame_id x)); [by apply list_elem_of_fmap_2|]. rewrite Ex. apply list_elem_of_singleton. done. }
  destruct (span_stored frames f g s raw Hinv Hg Hnew) as (mgr & Ea & Hok & Hh).
  pose proof Hinv as [A1 _ (m & A3 & _) _ _ _ _ _ _]. unfold handle_frame. rewrite A3, A1. cbn [negb]. unfold add_frame. fold g. rewrite Ea.
  destruct (try_match m mgr g now run) as [[m' mgr'] r] eqn:E.
  destruct (span_match frames f g s raw m mgr now run m' mgr' r Hinv A3 Hids Hh Hok E) as (o & -> & Hinv').
  eexists _, o. split; [reflexivity|]. split; [exact Hinv'|]. intros ->. cbn.
  apply (try_match_anchor m mgr g now run m' mgr' E).
Qed.

Context (tick : Z -> Z * string).

(** The events a replay makes of the service. *)
Definition replay_events (frames : list ReplayFrame) : list service_event :=
  (fun f => EvFrame (replay_input_frame shown_path f (default "" (read_bytes (rp_file_path f)))) (tick (rp_frame_id f)).1 (tick (rp_frame_id f)).2)
    <$> frames.

Lemma span_replay_loop ot l : forall seen s raw none, span_inv seen s raw -> NoDup (rp_frame_id <$> (seen ++ l)) ->
  (forall f, f ∈ l -> is_Some (read_bytes (rp_file_path f))) -> (length raw + length none)%nat = length seen ->
  exists s' raw' none', service_run s (replay_events l) = (s', raw') /\
    replay_loop (M := StreamSyncService) read_bytes shown_path tick ot (s, serialize_frame_set ot <$> raw, none) l =
      Ok (s', serialize_frame_set ot <$> (raw ++ raw'), none') /\
    span_inv (seen ++ l) s' (raw ++ raw') /\ (length (raw ++ raw') + length none')%nat = length (seen ++ l).
Proof using Type*.
  induction l as [|f l IH]; intros seen s raw none Hinv Hids Hread Hlen; cbn [replay_loop service_run replay_events fmap list_fmap].
  { exists s, [], none. by rewrite !app_nil_r. }
  rewrite (cons_middle f seen l), (assoc_L (++)) in *.
  destruct (Hread f) as [b Hb]; [left|]. cbn [service_step]. rewrite Hb. cbn [default from_option id].
  destruct (span_step seen f b s raw (tick (rp_frame_id f)).1 (tick (rp_frame_id f)).2 Hinv) as (s1 & o & E & Hinv1 & Hlast);
    [rewrite fmap_app in Hids; by apply NoDup_app in Hids as [? _]|done|].
  rewrite E. unfold replay_step. rewrite Hb. cbn [mbind result_bind rm_handle_frame SpanReplayMatcher]. rewrite E.
  destruct o as [fs|]; cbn [option_list] in *.
  - destruct (IH (seen ++ [f]) s1 (raw ++ [fs]) none Hinv1 Hids) as (s' & raw' & none' & E1 & E2 & E3 & E4);
      [intros x Hx; apply Hread; by right|rewrite !length_app; cbn; lia|].
    unfold replay_events in E1. rewrite E1. exists s', (fs :: raw'), none'. rewrite <- !(assoc_L (++)) in *. cbn [app] in *.
    rewrite fmap_app in E2. split_and!; [done|exact E2|exact E3|exact E4].
  - rewrite bool_decide_true by exact (Hlast eq_refl). rewrite app_nil_r in Hinv1. cbn [mbind result_bind].
    match goal with |- context [replay_loop _ _ _ _ (_, _, ?n) _] =>
      destruct (IH (seen ++ [f]) s1 raw n Hinv1 Hids) as (s' & raw' & none' & E1 & E2 & E3 & E4) end;
      [intros x Hx; apply Hread; by right|rewrite !length_app; cbn; lia|].
    unfold replay_events in E1. rewrite E1. by exists s', raw', none'.
Qed.

Lemma configured_span_inv size limit run s : configured expected_cameras window_ms size limit run s -> span_inv [] s [].
Proof using Type.
  unfold configured, configure, new_SyncFrameBufferManager, new_SyncMatcher.
  destruct (Z.ltb_spec size 1); [done|]. destruct (Z.ltb_spec limit 0); [done|]. intros [= <-]. split; cbn; try done.
  - by eexists.
  - by intros k [? ?].
  - intros k Hk. by apply elem_of_nil in Hk.
  - constructor.
Qed.
End Spanned.

(** C34: replaying readable frames of distinct ids with the service's matcher
    comes to an end, and does what the service does when the same frames
    arrive live: the reported sets are those the configured service emits,
    in order, and the status is its status. Each set has one stored frame for
    each expected camera, its own camera's, their timestamps within the
    window and the span given; the sets share no frame and are numbered 1, 2,
    3...; every frame that makes no set is noted, once. *)
Theorem span_replay_is_live `{Hashing} `{!HexDigest} (read_bytes shown_path : string -> option string) (tick : Z -> Z * string)
    frames expected_cameras window_ms buffer_size recent_limit :
  NoDup (rp_frame_id <$> frames) -> 1 <= buffer_size -> 0 <= recent_limit ->
  (forall f, f ∈ frames -> is_Some (read_bytes (rp_file_path f))) ->
  exists service service' raw none,
    configured expected_cameras window_ms buffer_size recent_limit (tick 0).2 service /\
    service_run service (replay_events read_bytes shown_path tick frames) = (service', raw) /\
    replay_frames read_bytes shown_path tick frames expected_cameras window_ms buffer_size recent_limit "span" =
      Ok (rm_status service', serialize_frame_set (original_timestamps_of frames) <$> raw, none) /\
    Forall (span_set_sound read_bytes shown_path expected_cameras window_ms frames) raw /\
    NoDup (all_keys raw) /\ fs_frame_set_id <$> raw = (fun i => Z.of_nat i + 1) <$> seq 0 (length raw) /\
    (length raw + length none)%nat = length frames.
Proof.
  intros Hids Hsize Hlimit Hread. unfold replay_frames. rewrite bool_decide_true by done.
  destruct (configure new_StreamSyncService true expected_cameras window_ms buffer_size recent_limit (tick 0).2) as [service r] eqn:Ec.
  assert (r = Ok tt) as -> by by eapply configure_ok.
  pose proof (configured_span_inv read_bytes shown_path expected_cameras window_ms buffer_size recent_limit (tick 0).2 service Ec) as Hinv.
  destruct (span_replay_loop read_bytes shown_path expected_cameras window_ms tick (original_timestamps_of frames) frames [] service [] []
    Hinv Hids Hread eq_refl) as (s' & raw & none & E1 & E2 & [_ _ _ _ _ _ A8 A9 A10] & Hlen).
  exists service, s', raw, none. cbn [mbind result_bind lift_matcher]. unfold replay_with. cbn [fmap list_fmap] in E2. rewrite E2.
  by split_and!.
Qed.

Lemma span_replay_is_live_witness :
  exists status raw none,
    replay_frames (H := transparent_hashing) (fun _ => Some "image") (fun _ => None) (fun i => (i, "run")) demo_frames
      ["camera1"; "camera2"; "camera3"] 200 120 20 "span" = Ok (status, serialize_frame_set (original_timestamps_of demo_frames) <$> raw, none) /\
    NoDup (all_keys raw) /\ length raw = 1%nat /\ length none = 2%nat.
Proof.
  destruct (span_replay_is_live (H := transparent_hashing) (fun _ => Some "image") (fun _ => None) (fun i => (i, "run")) demo_frames
    ["camera1"; "camera2"; "camera3"] 200 120 20) as (s0 & s1 & raw & none & Ec & _ & E & _ & Hk & _ & Hlen).
  - apply (bool_decide_unpack _). vm_compute. exact I.
  - lia.
  - lia.
  - intros f _. by eexists.
  - exists (rm_status s1), raw, none.
    assert (length raw = 1%nat) as H1.
    { apply (f_equal (fun r => match r with Ok (_, l, _) => length l | Raise _ => 0%nat end)) in E. rewrite length_fmap in E.
      rewrite <- E. vm_compute. reflexivity. }
    split_and!; [exact E|exact Hk|exact H1|]. cbn in Hlen. lia.
Defined.

(** ** Sweeps

    A sweep given summaries computed before is the sweep that computes them
    all, if they are those of its runs. *)
Section Sweeps.
Context `{Hashing} (read_bytes shown_path : string -> option string) (tick : Z -> Z * string).

Lemma mapped_ext {E A B} (f g : A -> result E B) l : (forall x, x ∈ l -> f x = g x) -> mapped f l = mapped g l.
Proof using Type.
  induction l as [|x l IH]; intros Hfg; [done|]. cbn. rewrite (Hfg x) by set_solver. destruct (g x) as [y|]; [|done]. cbn.
  by rewrite IH by set_solver.
Qed.

Lemma sweep_reuses o ri include_pairwise windows_ms summaries pairwise :
  (forall w s, summaries !! w = Some s ->
     exists r, build_replay_summary read_bytes shown_path tick (o <| op_window_ms := w |>) ri = Ok r /\ rr_summary r = s) ->
  (forall w l, pairwise !! w = Some l -> build_pairwise_summaries read_bytes shown_path tick (o <| op_window_ms := w |>) ri = Ok l) ->
  build_window_sweep_summaries read_bytes shown_path tick o ri include_pairwise windows_ms summaries pairwise =
  build_window_sweep_summaries read_bytes shown_path tick o ri include_pairwise windows_ms ∅ ∅.
Proof using Type.
  intros Hs Hp. apply mapped_ext. intros w _. unfold sweep_window, sweep_summary, sweep_pairwise. rewrite !lookup_empty.
  destruct (summaries !! w) as [s|] eqn:Es; [destruct (Hs w s Es) as (r & -> & <-)|]; cbn [cached mbind result_bind];
    (destruct include_pairwise; [|done]); (destruct (pairwise !! w) as [l|] eqn:El; [|done]); by rewrite (Hp w l El).
Qed.
End Sweeps.
