(* ===== verification/StorageRelay.v ===== *)
(** * Relaying stored frames

    src/scripts/storage_processing_relay/core.py, the progress bar of its
    console.py: the frames of an archive, or the frame-sets the service's
    matcher makes of them, are streamed to the processing server over one
    RPC.

    The RPC pulls its messages from a generator, which reads and counts as
    it is pulled; [next_raw_frame] and [next_frame_set] are one [next] of it.
    How often the RPC pulls before the counts are read, and how it ends, is
    the RPC's: a parameter. So are what [Path.read_bytes] gives, the path to
    show, and the clock and the identifiers the service asks for. *)

From S2P Require Import Prelude Float64 Digest Identity SyncModels FrameBuffer Matcher SyncService RelayClient ReplayLoader Replay.

(** ** The progress bar

    [pb_lines] are the lines drawn so far: how many frames were processed
    and how many messages sent. *)
Record RelayProgressBar := mkRelayProgressBar {
  pb_total : Z; pb_interval : Z; pb_last_drawn : Z; pb_lines : list (Z * Z);
}.

#[export] Instance RelayProgressBar_settable : Settable RelayProgressBar := fun x => mkRelayProgressBar
  (pb_total x) (pb_interval x) (pb_last_drawn x) (pb_lines x).

Definition new_progress_bar (total interval : Z) : RelayProgressBar := mkRelayProgressBar total interval (-1) [].

Definition draw (bar : RelayProgressBar) (processed sent : Z) (force : bool) : RelayProgressBar :=
  if (pb_interval bar <=? 0) && negb force then bar
  else if negb force && (processed <? pb_total bar) && negb (processed mod pb_interval bar =? 0) then bar
  else if (processed =? pb_last_drawn bar) && negb force then bar
  else bar <| pb_last_drawn := processed |> <| pb_lines ::= fun l => l ++ [(processed, sent)] |>.

Definition start_progress (bar : RelayProgressBar) : RelayProgressBar := draw bar 0 0 true.

Definition finish_progress (bar : RelayProgressBar) (sent : Z) : RelayProgressBar :=
  if pb_last_drawn bar =? pb_total bar then bar else draw bar (pb_total bar) sent true.

Definition BAR_WIDTH : Z := 24.

(** [int((processed / total) * scale)], in binary64. *)
Definition progress_share (processed total scale : Z) : result float_error Z :=
  if total =? 0 then Ok 0
  else x ← int_truediv processed total; y ← float_of_int scale; int_of_float (float_mul x y).

Definition progress_percent (processed total : Z) : result float_error Z :=
  if total =? 0 then Ok 100 else progress_share processed total 100.

Definition progress_filled (processed total : Z) : result float_error Z := progress_share processed total BAR_WIDTH.

(** The percentage is cut, not rounded, after a rounded product: 29 frames
    of 100 show as 28 %. *)
Example percent_falls_short : progress_percent 29 100 = Ok 28 /\ progress_percent 50 100 = Ok 50 /\ progress_percent 0 0 = Ok 100 /\
  progress_filled 50 100 = Ok 12 /\ progress_filled 100 100 = Ok 24.
Proof. vm_compute. split_and!; reflexivity. Qed.

(** ** The generators *)

Inductive storage_relay_error := StorageReplayFailed (e : replay_error) | StorageMessageFailed (e : relay_error) | RpcFailed (text : string).

(** What one [next] gives. *)
Inductive pulled (M : Type) := Yielded (m : M) | Stopped | Failed (e : storage_relay_error).
Arguments Yielded {M}.
Arguments Stopped {M}.
Arguments Failed {M}.

(** Where a generator is: not started; at a [yield]; returned or raised,
    after which every [next] stops at once. *)
Inductive generator_pc := NotStarted | AtYield | Closed.

(** A generator with the names it closes over: the frames not yet taken and
    the number of the last one taken, the matcher of the frame-sets, the
    counts and the bar. *)
Record generator (V : Type) := mkGenerator {
  gn_pc : generator_pc; gn_rest : list ReplayFrame; gn_index : Z; gn_service : V;
  gn_sent_count : Z; gn_sent_image_bytes : Z; gn_no_set_count : Z; gn_progress : RelayProgressBar;
}.
Arguments mkGenerator {V}.
Arguments gn_pc {V}.
Arguments gn_rest {V}.
Arguments gn_index {V}.
Arguments gn_service {V}.
Arguments gn_sent_count {V}.
Arguments gn_sent_image_bytes {V}.
Arguments gn_no_set_count {V}.
Arguments gn_progress {V}.

#[export] Instance generator_settable {V} : Settable (generator V) := fun x => mkGenerator
  (gn_pc x) (gn_rest x) (gn_index x) (gn_service x) (gn_sent_count x) (gn_sent_image_bytes x) (gn_no_set_count x) (gn_progress x).

Definition new_generator {V} (service : V) (frames : list ReplayFrame) (interval : Z) : generator V :=
  mkGenerator NotStarted frames 0 service 0 0 0 (new_progress_bar (Z.of_nat (length frames)) interval).

Section Relay.
Context (read_bytes shown_path : string -> option string) (tick : Z -> Z * string).

Definition relative_path (path : string) : string := default path (shown_path path).

Definition read_image (f : ReplayFrame) : result storage_relay_error string :=
  match read_bytes (rp_file_path f) with
  | Some b => Ok b
  | None => Raise (StorageReplayFailed (FileNotFound (rp_file_path f)))
  end.

Definition as_message {A} (r : result relay_error A) : result storage_relay_error A :=
  match r with Ok a => Ok a | Raise e => Raise (StorageMessageFailed e) end.

Definition build_raw_relay_frame (f : ReplayFrame) : result storage_relay_error RelayFrame :=
  image_bytes ← read_image f;
  as_message (relay_frame (rp_device_id f) (rp_timestamp_ms f) (Some (rp_sequence f)) (rp_content_type f) image_bytes
                (Some (relative_path (rp_file_path f)))).

Definition image_length (m : RelayFrame) : nat := String.length (rf_image_bytes m).

Definition images_length (m : RelayFrameSet) : nat := sum_list (image_length ∘ rm_frame <$> rt_frames m).

Section Generators.
Context {V : Type}.
Implicit Types (g : generator V).

(** The body up to its loop, at the first [next]. *)
Definition begin g : generator V :=
  match gn_pc g with NotStarted => g <| gn_progress ::= start_progress |> | _ => g end.

Definition show_progress g : generator V := g <| gn_progress ::= fun bar => draw bar (gn_index g) (gn_sent_count g) false |>.

(** The loop is over. *)
Definition returns g : generator V :=
  g <| gn_pc := Closed |> <| gn_progress ::= fun bar => finish_progress bar (gn_sent_count g) |>.

Definition takes g (rest : list ReplayFrame) : generator V := g <| gn_index ::= Z.succ |> <| gn_rest := rest |>.

Definition counts_message g (size : nat) : generator V :=
  g <| gn_sent_count ::= Z.succ |> <| gn_sent_image_bytes ::= Z.add (Z.of_nat size) |>.
End Generators.

(** [iter_frames] of [relay_raw_frames]. *)
Definition next_raw_frame (g : generator ()) : generator () * pulled RelayFrame :=
  match gn_pc g with
  | Closed => (g, Stopped)
  | _ =>
      let g := begin g in
      match gn_rest g with
      | [] => (returns g, Stopped)
      | f :: rest =>
          let g := takes g rest in
          match build_raw_relay_frame f with
          | Raise e => (g <| gn_pc := Closed |>, Failed e)
          | Ok m => ((show_progress (counts_message g (image_length m))) <| gn_pc := AtYield |>, Yielded m)
          end
      end
  end.

Context `{Hashing}.

(** The loop of [iter_frame_sets], up to its next [yield]. *)
Fixpoint frame_set_loop (g : generator StreamSyncService) (rest : list ReplayFrame) : generator StreamSyncService * pulled RelayFrameSet :=
  match rest with
  | [] => (returns g, Stopped)
  | f :: rest =>
      let g := takes g rest in
      match read_image f with
      | Raise e => (g <| gn_pc := Closed |>, Failed e)
      | Ok image_bytes =>
          let '(service, r) := handle_frame (gn_service g) (replay_input_frame shown_path f image_bytes)
            (tick (rp_frame_id f)).1 (tick (rp_frame_id f)).2 in
          let g := g <| gn_service := service |> in
          match r with
          | Raise e => (g <| gn_pc := Closed |>, Failed (StorageReplayFailed (MatcherFailed e)))
          | Ok None => frame_set_loop (show_progress (g <| gn_no_set_count ::= Z.succ |>)) rest
          | Ok (Some frame_set) =>
              match as_message (build_relay_frame_set frame_set) with
              | Raise e => (g <| gn_pc := Closed |>, Failed e)
              | Ok m => ((counts_message g (images_length m)) <| gn_pc := AtYield |>, Yielded m)
              end
          end
      end
  end.

(** [iter_frame_sets] of [relay_frame_sets]; the bar is redrawn for a frame
    that made a set only when the next message is asked for. *)
Definition next_frame_set (g : generator StreamSyncService) : generator StreamSyncService * pulled RelayFrameSet :=
  match gn_pc g with
  | Closed => (g, Stopped)
  | NotStarted => frame_set_loop (begin g) (gn_rest g)
  | AtYield => frame_set_loop (show_progress g) (gn_rest g)
  end.

(** The [next]s of an RPC. *)
Fixpoint pulls {G M} (next : G -> G * pulled M) (n : nat) (g : G) : G * list (pulled M) :=
  match n with
  | O => (g, [])
  | S n => let '(g, x) := next g in let '(g, l) := pulls next n g in (g, x :: l)
  end.

(** ** The relays *)

Record RelayAck := mkRelayAck { ra_success : bool; ra_received_count : Z; ra_message : string }.

(** What an RPC does: it pulls so often, then answers or fails. *)
Record rpc := mkRpc { rpc_pulls : nat; rpc_outcome : string + RelayAck }.

Record RawRelayResult := mkRawRelayResult {
  rw_sent_count : Z; rw_sent_image_bytes : Z; rw_ack : RelayAck; rw_elapsed_ms : Z;
}.

Definition relay_raw_frames (ri : ReplayInput) (progress_interval : Z) (r : rpc) (elapsed_ms : Z)
    : result storage_relay_error RawRelayResult :=
  let '(g, _) := pulls next_raw_frame (rpc_pulls r) (new_generator () (ri_frames ri) progress_interval) in
  match rpc_outcome r with
  | inl text => Raise (RpcFailed text)
  | inr ack => Ok (mkRawRelayResult (gn_sent_count g) (gn_sent_image_bytes g) ack elapsed_ms)
  end.

Record FrameSetRelayResult := mkFrameSetRelayResult {
  rx_sent_count : Z; rx_sent_image_bytes : Z; rx_no_set_count : Z; rx_dropped_stale_count : Z; rx_last_reason : option string;
  rx_ack : RelayAck; rx_elapsed_ms : Z;
}.

Definition relay_frame_sets (ri : ReplayInput) (window_ms buffer_size recent_limit progress_interval : Z) (r : rpc) (elapsed_ms : Z)
    : result storage_relay_error FrameSetRelayResult :=
  let '(service, c) := configure new_StreamSyncService true (ri_expected_cameras ri) window_ms buffer_size recent_limit (tick 0).2 in
  match c with
  | Raise e => Raise (StorageReplayFailed (MatcherFailed e))
  | Ok _ =>
      let '(g, _) := pulls next_frame_set (rpc_pulls r) (new_generator service (ri_frames ri) progress_interval) in
      match rpc_outcome r with
      | inl text => Raise (RpcFailed text)
      | inr ack =>
          let status := sv_sync (service_status (gn_service g)) in
          Ok (mkFrameSetRelayResult (gn_sent_count g) (gn_sent_image_bytes g) (gn_no_set_count g) (st_dropped_stale_count status)
                (st_last_reason status) ack elapsed_ms)
      end
  end.
End Relay.

(** ** What an RPC is given *)

(** The messages of a list up to the first that cannot be made, and why. *)
Fixpoint built {A M} (f : A -> result storage_relay_error M) (l : list A) : list M * option storage_relay_error :=
  match l with
  | [] => ([], None)
  | x :: l => match f x with Ok m => prod_map (cons m) id (built f l) | Raise e => ([], Some e) end
  end.

(** What [n] pulls give: the messages in order, once how they ended, and
    then nothing more. *)
Fixpoint script {M} (ms : list M) (e : option storage_relay_error) (n : nat) {struct n} : list (pulled M) :=
  match n, ms with
  | O, _ => []
  | S n, m :: ms => Yielded m :: script ms e n
  | S n, [] => match e with Some e => Failed e | None => Stopped end :: replicate n Stopped
  end.

Lemma built_all {A M} (f : A -> result storage_relay_error M) (g : A -> M) l :
  (forall x, x ∈ l -> f x = Ok (g x)) -> built f l = (g <$> l, None).
Proof.
  induction l as [|x l IH]; intros Hf; [done|]. cbn [built fmap list_fmap]. rewrite Hf by left.
  rewrite IH; [done|]. intros y Hy. apply Hf. by right.
Qed.

Lemma built_lookup {A M} (f : A -> result storage_relay_error M) l i m : (built f l).1 !! i = Some m ->
  exists x, l !! i = Some x /\ f x = Ok m.
Proof.
  revert i. induction l as [|x l IH]; intros i; [done|]. cbn [built]. destruct (f x) as [y|e] eqn:E; [|done].
  destruct (built f l) as [ms e]. destruct i as [|i]; cbn; [intros [= <-]; by exists x|apply IH].
Qed.

Lemma sum_Z_cons {A} (f : A -> nat) x l : Z.of_nat (sum_list (f <$> x :: l)) = Z.of_nat (f x) + Z.of_nat (sum_list (f <$> l)).
Proof. cbn. lia. Qed.

Section Pulled.
Context (read_bytes shown_path : string -> option string).
#[local] Abbreviation build_raw := (build_raw_relay_frame read_bytes shown_path).
#[local] Abbreviation next_raw := (next_raw_frame read_bytes shown_path).

Lemma closed_pulls {G M} (next : G -> G * pulled M) g n : next g = (g, Stopped) -> pulls next n g = (g, replicate n Stopped).
Proof. intros E. induction n as [|n IH]; [done|]. cbn [pulls]. by rewrite E, IH. Qed.

Lemma raw_pulls n : forall g ms e, gn_pc g <> Closed -> built build_raw (gn_rest g) = (ms, e) ->
  exists g', pulls next_raw n g = (g', script ms e n) /\
    gn_sent_count g' = gn_sent_count g + Z.of_nat (length (take n ms)) /\
    gn_sent_image_bytes g' = gn_sent_image_bytes g + Z.of_nat (sum_list (image_length <$> take n ms)).
Proof.
  induction n as [|n IH]; intros g ms e Hpc Hb; [exists g; rewrite take_0; cbn [length fmap list_fmap sum_list]; cbn; split_and!; [done|lia..]|].
  assert (next_raw g = match gn_rest g with
    | [] => (returns (begin g), Stopped)
    | f :: rest => match build_raw f with
        | Raise e => ((takes (begin g) rest) <| gn_pc := Closed |>, Failed e)
        | Ok m => ((show_progress (counts_message (takes (begin g) rest) (image_length m))) <| gn_pc := AtYield |>, Yielded m)
        end end) as En.
  { unfold next_raw_frame, begin. destruct (gn_pc g) eqn:Ep; [| |by destruct Hpc]; cbn; by destruct (gn_rest g). }
  assert (gn_sent_count (begin g) = gn_sent_count g /\ gn_sent_image_bytes (begin g) = gn_sent_image_bytes g) as [E1 E2]
    by (unfold begin; by destruct (gn_pc g)).
  cbn [pulls]. rewrite En. destruct (gn_rest g) as [|f rest] eqn:Er.
  - injection Hb as <- <-. rewrite closed_pulls by done. eexists. split; [done|]. cbn. rewrite E1, E2. lia.
  - cbn [built] in Hb. destruct (build_raw f) as [m|e'].
    + destruct (built build_raw rest) as [ms' e'] eqn:Hb'. injection Hb as <- <-.
      match goal with |- context [pulls _ n ?g'] => destruct (IH g' ms' e') as (g2 & -> & H1 & H2) end; [done|exact Hb'|].
      eexists. split; [done|]. rewrite H1, H2. cbn [take length]. rewrite sum_Z_cons. cbn. rewrite E1, E2. lia.
    + injection Hb as <- <-. rewrite closed_pulls by done. eexists. split; [done|]. cbn. rewrite E1, E2. lia.
Qed.
End Pulled.

Section Sets.
Context `{Hashing} `{!HexDigest} (read_bytes shown_path : string -> option string) (tick : Z -> Z * string).
Context (expected_cameras : list string) (window_ms : Z).
#[local] Abbreviation events := (replay_events read_bytes shown_path tick).
#[local] Abbreviation inv := (span_inv read_bytes shown_path expected_cameras window_ms).
#[local] Abbreviation loop := (frame_set_loop read_bytes shown_path tick).
#[local] Abbreviation next := (next_frame_set read_bytes shown_path tick).
#[local] Abbreviation build := (as_message ∘ build_relay_frame_set).

(** The messages and the frames without a set that were counted between two states. *)
Definition counts_since (g g' : generator StreamSyncService) (ms : list RelayFrameSet) (misses : Z) : Prop :=
  gn_sent_count g' = gn_sent_count g + Z.of_nat (length ms) /\
  gn_sent_image_bytes g' = gn_sent_image_bytes g + Z.of_nat (sum_list (images_length <$> ms)) /\
  gn_no_set_count g' = gn_no_set_count g + misses.

Definition stopped_at (g g' : generator StreamSyncService) (s : StreamSyncService) (misses : Z) : Prop :=
  gn_pc g' = Closed /\ gn_service g' = s /\ counts_since g g' [] misses.

(** The generator waits, to be started or at a [yield], after the frames [taken]. *)
Record waits_at (taken left_ : list ReplayFrame) (raw : list SynchronizedFrameSet) (s' : StreamSyncService)
    (raw' : list SynchronizedFrameSet) (g : generator StreamSyncService) : Prop := {
  wa_pc : gn_pc g <> Closed;
  wa_rest : gn_rest g = left_;
  wa_inv : inv taken (gn_service g) raw;
  wa_run : service_run (gn_service g) (events left_) = (s', raw');
}.

(** What the loop does, by the next set of the service. *)
Definition loop_does (seen l : list ReplayFrame) (raw raw' : list SynchronizedFrameSet) (s' : StreamSyncService)
    (g g' : generator StreamSyncService) (x : pulled RelayFrameSet) : Prop :=
  match raw' with
  | [] => x = Stopped /\ stopped_at g g' s' (Z.of_nat (length l))
  | fs :: raw'' =>
      match build fs with
      | Ok m => x = Yielded m /\ exists taken left_, seen ++ l = taken ++ left_ /\ waits_at taken left_ (raw ++ [fs]) s' raw'' g' /\
          counts_since g g' [m] (Z.of_nat (length l) - Z.of_nat (length left_) - 1)
      | Raise e => x = Failed e /\ gn_pc g' = Closed /\ exists misses, counts_since g g' [] misses
      end
  end.

Lemma loop_spec l : forall seen g raw s' raw', inv seen (gn_service g) raw -> NoDup (rp_frame_id <$> (seen ++ l)) ->
  (forall f, f ∈ l -> is_Some (read_bytes (rp_file_path f))) -> service_run (gn_service g) (events l) = (s', raw') ->
  let '(g', x) := loop g l in loop_does seen l raw raw' s' g g' x.
Proof using Type*.
  induction l as [|f l IH]; intros seen g raw s' raw' Hinv Hids Hread; cbn [frame_set_loop service_run replay_events fmap list_fmap].
  { intros [= <- <-]. cbn. unfold stopped_at, counts_since. cbn. split_and!; [done..|lia|lia|lia]. }
  rewrite (cons_middle f seen l), (assoc_L (++)) in Hids. destruct (Hread f) as [b Hb]; [left|].
  destruct (span_step read_bytes shown_path expected_cameras window_ms seen f b (gn_service g) raw (tick (rp_frame_id f)).1
    (tick (rp_frame_id f)).2 Hinv) as (s1 & o & E & Hinv1 & _); [rewrite fmap_app in Hids; by apply NoDup_app in Hids as [? _]|done|].
  unfold read_image. rewrite Hb. cbn [default from_option id service_step]. cbn. rewrite E.
  destruct (service_run s1 (events l)) as [s2 raw2] eqn:Er. unfold replay_events in Er. rewrite Er.
  destruct o as [fs|]; cbn [option_list app] in *; intros [= <- <-].
  - unfold loop_does. change (build fs) with (as_message (build_relay_frame_set fs)).
    destruct (as_message (build_relay_frame_set fs)) as [m|e].
    + split; [done|]. exists (seen ++ [f]), l. split; [by rewrite <- (assoc_L (++))|]. split; [by split|].
      unfold counts_since. cbn. lia.
    + split; [done|]. split; [done|]. exists 0. unfold counts_since. cbn. lia.
  - match goal with |- context [frame_set_loop _ _ _ ?g0 l] =>
      specialize (IH (seen ++ [f]) g0 raw s2 raw2); destruct (loop g0 l) as [g' x] eqn:El end.
    rewrite app_nil_r in Hinv1. specialize (IH Hinv1 Hids ltac:(intros y Hy; apply Hread; by right) Er).
    revert IH. clear. unfold loop_does. destruct raw2 as [|fs raw2]; cbn [length].
    + intros (-> & H1 & H2 & H3 & H4 & H5). split; [done|]. unfold stopped_at, counts_since. cbn in *. split_and!; [done..|lia|lia|lia].
    + destruct (build fs) as [m|e].
      * intros (-> & taken & left_ & Ht & Hw & H1 & H2 & H3). split; [done|]. exists taken, left_. rewrite <- (assoc_L (++)) in Ht.
        split; [done|]. split; [done|]. unfold counts_since in *. cbn in *. lia.
      * intros (-> & H1 & misses & H2 & H3 & H4). split; [done|]. split; [done|]. exists (misses + 1). unfold counts_since in *. cbn in *. lia.
Qed.

Lemma closed_next g : gn_pc g = Closed -> next g = (g, Stopped).
Proof. unfold next_frame_set. by intros ->. Qed.

Lemma open_next g : gn_pc g <> Closed -> exists g0, next g = loop g0 (gn_rest g) /\ gn_service g0 = gn_service g /\ counts_since g g0 [] 0.
Proof.
  intros Hpc. exists (match gn_pc g with NotStarted => begin g | _ => show_progress g end). unfold next_frame_set, begin.
  destruct (gn_pc g) eqn:Ep; [| |done]; (split; [done|]; split; [done|]; unfold counts_since; cbn; lia).
Qed.

Lemma waiting_pulls n : forall taken left_ raw s' raw' g ms e, waits_at taken left_ raw s' raw' g ->
  NoDup (rp_frame_id <$> (taken ++ left_)) -> (forall f, f ∈ taken ++ left_ -> is_Some (read_bytes (rp_file_path f))) ->
  built build raw' = (ms, e) ->
  exists g' misses, pulls next n g = (g', script ms e n) /\ counts_since g g' (take n ms) misses /\
    (e = None -> (length raw' < n)%nat -> gn_service g' = s' /\ misses = Z.of_nat (length left_) - Z.of_nat (length raw')).
Proof using Type*.
  induction n as [|n IH]; intros taken left_ raw s' raw' g ms e [Hpc Hrest Hinv Hrun] Hids Hread Hb.
  { exists g, 0. rewrite take_0. unfold counts_since. cbn. split_and!; [done|lia..|lia]. }
  cbn [pulls]. destruct (open_next g Hpc) as (g0 & -> & Es & C1 & C2 & C3). rewrite Hrest. rewrite <- Es in Hinv, Hrun.
  pose proof (loop_spec left_ taken g0 raw s' raw' Hinv Hids ltac:(intros f Hf; apply Hread, elem_of_app; by right) Hrun) as Hl.
  destruct (loop g0 left_) as [g1 x]. unfold loop_does in Hl.
  destruct raw' as [|fs raw']; [|cbn [built] in Hb; destruct (build fs) as [m|e0]].
  - injection Hb as <- <-. destruct Hl as (-> & Hc & Hs & H1 & H2 & H3). rewrite closed_pulls by by apply closed_next.
    exists g1, (Z.of_nat (length left_)). split; [done|]. split; [unfold counts_since; cbn in *; lia|]. intros _ _. split; [done|]. cbn. lia.
  - destruct Hl as (-> & taken' & left' & Ht & Hw & H1 & H2 & H3). destruct (built build raw') as [ms' e'] eqn:Eb. injection Hb as <- <-.
    destruct (IH taken' left' (raw ++ [fs]) s' raw' g1 ms' e' Hw) as (g2 & misses & -> & (D1 & D2 & D3) & Hend);
      [by rewrite <- Ht|by rewrite <- Ht|done|].
    exists g2, (Z.of_nat (length left_) - Z.of_nat (length left') - 1 + misses). split; [done|]. split.
    + unfold counts_since. cbn [take length fmap list_fmap sum_list] in *. cbn in *. lia.
    + intros He Hn. cbn [length] in Hn. destruct (Hend He ltac:(lia)) as [-> ->]. split; [done|]. cbn [length]. lia.
  - injection Hb as <- <-. destruct Hl as (-> & Hc & misses & H1 & H2 & H3). rewrite closed_pulls by by apply closed_next.
    exists g1, misses. split; [done|]. split; [unfold counts_since; cbn in *; lia|]. done.
Qed.
End Sets.

(** ** Properties *)

(** What a raw message says of its frame. *)
Lemma raw_message_of read_bytes shown_path f m : build_raw_relay_frame read_bytes shown_path f = Ok m ->
  exists image_bytes, read_bytes (rp_file_path f) = Some image_bytes /\ fits_int64 (rp_timestamp_ms f) /\ fits_uint64 (rp_sequence f) /\
    m = mkRelayFrame (rp_device_id f) (rp_timestamp_ms f) (rp_sequence f) (rp_content_type f) image_bytes
          (Some (relative_path shown_path (rp_file_path f))).
Proof.
  unfold build_raw_relay_frame, read_image. destruct (read_bytes (rp_file_path f)) as [b|]; [|done].
  cbn [mbind result_bind]. unfold relay_frame. cbn [default].
  pose proof (int64_spec (rp_timestamp_ms f)) as Ht. pose proof (uint64_spec (rp_sequence f)) as Hs.
  unfold returns_if in *. destruct (int64 _) as [t|]; [|done]. cbn [mbind result_bind]. cbn [from_option id].
  destruct (uint64 _) as [s|]; [|done]. destruct Ht as [Ht ->], Hs as [Hs ->]. intros [= <-]. by exists b.
Qed.

(** relaying stored frames: however often the RPC pulls, it is given, in
    the order of the input, the messages of the frames up to the first that
    cannot be read or does not fit its message, each once, then that failure
    or the end, and then nothing more; the summary counts exactly the messages
    pulled and their bytes. *)
Theorem stored_frames_relayed read_bytes shown_path ri interval n ack elapsed_ms :
  let '(ms, e) := built (build_raw_relay_frame read_bytes shown_path) (ri_frames ri) in
  (pulls (next_raw_frame read_bytes shown_path) n (new_generator () (ri_frames ri) interval)).2 = script ms e n /\
  relay_raw_frames read_bytes shown_path ri interval (mkRpc n (inr ack)) elapsed_ms =
    Ok (mkRawRelayResult (Z.of_nat (length (take n ms))) (Z.of_nat (sum_list (image_length <$> take n ms))) ack elapsed_ms) /\
  forall i m, ms !! i = Some m -> exists f, ri_frames ri !! i = Some f /\ build_raw_relay_frame read_bytes shown_path f = Ok m.
Proof.
  destruct (built _ _) as [ms e] eqn:Eb. unfold relay_raw_frames.
  destruct (raw_pulls read_bytes shown_path n (new_generator () (ri_frames ri) interval) ms e) as (g & E & H1 & H2); [done..|].
  cbn [rpc_pulls rpc_outcome]. rewrite E, H1, H2. split; [done|]. split; [done|].
  intros i m Hi. apply (built_lookup (build_raw_relay_frame read_bytes shown_path)). by rewrite Eb.
Qed.

(** C40: relaying stored frame-sets: for readable frames of distinct ids, the
    RPC is given the messages of the sets that the live service, configured
    alike, emits on the same frames, in that order, each once, up to one that
    does not fit its message; the summary counts the messages pulled and
    their bytes. Once the end was reached, every frame that completed no set
    is counted and the reported status is that of the service. *)
Theorem stored_sets_relayed `{Hashing} `{!HexDigest} (read_bytes shown_path : string -> option string) (tick : Z -> Z * string)
    ri window_ms buffer_size recent_limit interval n ack elapsed_ms :
  NoDup (rp_frame_id <$> ri_frames ri) -> 1 <= buffer_size -> 0 <= recent_limit ->
  (forall f, f ∈ ri_frames ri -> is_Some (read_bytes (rp_file_path f))) ->
  exists service service' raw result,
    configured (ri_expected_cameras ri) window_ms buffer_size recent_limit (tick 0).2 service /\
    service_run service (replay_events read_bytes shown_path tick (ri_frames ri)) = (service', raw) /\
    relay_frame_sets read_bytes shown_path tick ri window_ms buffer_size recent_limit interval (mkRpc n (inr ack)) elapsed_ms = Ok result /\
    (let '(ms, e) := built (as_message ∘ build_relay_frame_set) raw in
     (pulls (next_frame_set read_bytes shown_path tick) n (new_generator service (ri_frames ri) interval)).2 = script ms e n /\
     rx_sent_count result = Z.of_nat (length (take n ms)) /\
     rx_sent_image_bytes result = Z.of_nat (sum_list (images_length <$> take n ms)) /\
     (Forall encodable raw -> ms = frame_set_message <$> raw /\ e = None) /\
     (e = None -> (length raw < n)%nat ->
       rx_no_set_count result + Z.of_nat (length raw) = Z.of_nat (length (ri_frames ri)) /\
       rx_dropped_stale_count result = st_dropped_stale_count (sv_sync (service_status service')) /\
       rx_last_reason result = st_last_reason (sv_sync (service_status service')))).
Proof.
  intros Hids Hsize Hlimit Hread. unfold relay_frame_sets.
  destruct (configure new_StreamSyncService true (ri_expected_cameras ri) window_ms buffer_size recent_limit (tick 0).2) as [service r] eqn:Ec.
  assert (r = Ok tt) as -> by by eapply configure_ok.
  pose proof (configured_span_inv read_bytes shown_path _ _ _ _ _ service Ec) as Hinv.
  destruct (service_run service (replay_events read_bytes shown_path tick (ri_frames ri))) as [service' raw] eqn:Er.
  destruct (built (as_message ∘ build_relay_frame_set) raw) as [ms e] eqn:Eb.
  destruct (waiting_pulls read_bytes shown_path tick (ri_expected_cameras ri) window_ms n [] (ri_frames ri) [] service' raw
    (new_generator service (ri_frames ri) interval) ms e) as (g & misses & E & (H1 & H2 & H3) & Hend); [by split|done..|].
  cbn [rpc_pulls rpc_outcome]. rewrite E. eexists service, service', raw, _. do 3 (split; [done|]). rewrite Eb, E. cbn [snd].
  split; [done|]. split; [exact H1|]. split; [exact H2|]. split.
  - intros Henc. rewrite (built_all _ frame_set_message) in Eb; [by injection Eb|].
    intros fs Hfs. pose proof (build_relay_frame_set_spec fs) as Hs. rewrite Forall_forall in Henc. specialize (Henc fs Hfs).
    unfold returns_if in Hs. cbn [compose]. destruct (build_relay_frame_set fs) as [m|e0]; [|done]. by destruct Hs as [_ ->].
  - intros He Hn. destruct (Hend He Hn) as [-> ->]. cbn in H3. cbn [rx_no_set_count]. split; [lia|done].
Qed.

Definition demo_replay_input : ReplayInput :=
  mkReplayInput demo_frames ["camera1"; "camera2"; "camera3"] [] [] 0 0 None [].

Lemma stored_sets_relayed_witness :
  exists result, relay_frame_sets (H := transparent_hashing) (fun _ => Some "image") (fun _ => None) (fun i => (i, "run")) demo_replay_input 200 120 20
      0 (mkRpc 2 (inr (mkRelayAck true 1 "ok"))) 5 = Ok result /\
    rx_sent_count result = 1 /\ rx_sent_image_bytes result = 15 /\ rx_no_set_count result = 2.
Proof.
  destruct (stored_sets_relayed (H := transparent_hashing) (fun _ => Some "image") (fun _ => None) (fun i => (i, "run")) demo_replay_input
    200 120 20 0 2 (mkRelayAck true 1 "ok") 5) as (s0 & s1 & raw & res & _ & _ & E & _).
  - apply (bool_decide_unpack _). vm_compute. exact I.
  - lia.
  - lia.
  - intros f _. by eexists.
  - exists res. split; [exact E|].
    apply (f_equal (fun r => match r with Ok x => (rx_sent_count x, rx_sent_image_bytes x, rx_no_set_count x) | Raise _ => (0, 0, 0) end)) in E.
    vm_compute in E. injection E as -> -> ->. done.
Defined.
