(* ===== verification/ReplayCli.v ===== *)
(** * The command lines of the replays

    src/scripts/storage_sync_replay/cli.py and storage.py, the same two files
    of storage_processing_relay, and [parse_camera_mapping] of loader.py: from
    parsed arguments to the files written. argparse is not modelled; what is
    printed is left out. A folder is given by [list_folder], the names taken
    in the output folder by [exists_]; [ar_run_id] is the name asked for, or
    the one made of the time. *)

From Stdlib Require Import Ascii.
From S2P Require Import Prelude Float64 Digest FileSystem Config SyncService RelayClient ReplayLoader Replay StorageRelay.

Inductive cli_error :=
| CliValueError (message : string)
| CliInvalidInt (text : string)
| CliLoaderFailed (e : loader_error)
| CliRuntimeError (message : string)
| CliRunFailed (e : run_error)
| CliRelayFailed (e : storage_relay_error).

(** ** The plan *)

(** The values of a list of windows, up to the first that is none. *)
Fixpoint window_values (option_name : string) (items : list string) : result cli_error (list Z) :=
  match items with
  | [] => Ok []
  | item :: items =>
      match py_int item with
      | None => Raise (CliInvalidInt item)
      | Some window_ms =>
          if window_ms <=? 0 then Raise (CliValueError (option_name +:+ " values must be greater than 0"))
          else windows ← window_values option_name items; Ok (window_ms :: windows)
      end
  end.

(** [list(dict.fromkeys(l))]. *)
Fixpoint first_occurrences (seen l : list Z) : list Z :=
  match l with
  | [] => []
  | x :: l => if bool_decide (x ∈ seen) then first_occurrences seen l else x :: first_occurrences (x :: seen) l
  end.

Definition parse_windows (raw_value : option string) (option_name : string) : result cli_error (list Z) :=
  match raw_value with
  | None => Ok []
  | Some raw =>
      if negb (truthy (strip raw)) then Ok []
      else windows ← window_values option_name (split_items "," raw); Ok (first_occurrences [] windows)
  end.

Record ReplayArguments := mkReplayArguments {
  ar_camera : list string; ar_mode : option string; ar_window_ms : Z; ar_windows_ms : option string; ar_sweep_detail : string;
  ar_window_sweep : option string; ar_buffer_size : Z; ar_recent_limit : Z; ar_matcher_mode : string; ar_limit_per_camera : option Z;
  ar_timestamp_align : string; ar_trim_overlap : bool; ar_order_by : string; ar_pairwise : bool; ar_run_id : string;
}.

Record RunPlan := mkRunPlan { pl_mode : string; pl_detail_window_ms : option Z; pl_sweep_windows_ms : list Z }.

#[export] Instance RunPlan_eq_dec : EqDecision RunPlan.
Proof. solve_decision. Defined.

Definition resolve_run_plan (a : ReplayArguments) : result cli_error RunPlan :=
  let asked := truthy_opt (ar_windows_ms a) || truthy_opt (ar_window_sweep a) in
  let legacy_sweep := bool_decide (ar_mode a = None) && truthy_opt (ar_window_sweep a) && negb (truthy_opt (ar_windows_ms a)) in
  let mode := default (if asked then "sweep" else "single") (ar_mode a) in
  if bool_decide (mode = "single") then
    if asked then Raise (CliValueError "single mode uses --window-ms only")
    else Ok (mkRunPlan "single" (Some (ar_window_ms a)) [])
  else
    windows ← parse_windows (ar_windows_ms a) "--windows-ms";
    windows ← (if bool_decide (windows = []) then parse_windows (ar_window_sweep a) "--window-sweep" else Ok windows);
    match windows with
    | [] => Raise (CliValueError "sweep mode requires --windows-ms")
    | first :: _ =>
        Ok (mkRunPlan "sweep"
              (if legacy_sweep then Some (ar_window_ms a) else if bool_decide (ar_sweep_detail a = "first") then Some first else None)
              windows)
    end.

(** ** Inputs and the output folder *)

Section Main.
Context (root_dir : path) (list_folder : string -> option (list entry)) (exists_ : string -> bool).

(** [str(Path(text))] below the repository, [.] and empty parts left out. *)
Definition folder_path (text : string) : string :=
  let parts := filter (fun part => part <> "" /\ part <> ".") (split_char "/"%char text) in
  path_text (if starts_with "/" text then parts else root_dir ++ parts).

Definition parse_camera_mapping (raw_mapping : string) : result loader_error mapping :=
  match split_once "="%char raw_mapping with
  | None => Raise (LoaderValueError ("Invalid camera mapping: " +:+ raw_mapping))
  | Some (device_id, raw_path) =>
      let device_id := strip device_id in
      if negb (truthy device_id) then Raise (LoaderValueError ("Missing device id in mapping: " +:+ raw_mapping))
      else
        let folder := folder_path (strip raw_path) in
        match list_folder folder with
        | None => Raise (LoaderValueError ("Camera folder does not exist: " +:+ folder))
        | Some entries => Ok (mkMapping device_id folder entries)
        end
  end.

Definition lift_loader {A} (r : result loader_error A) : result cli_error A :=
  match r with Ok a => Ok a | Raise e => Raise (CliLoaderFailed e) end.
Definition lift_run {A} (r : result run_error A) : result cli_error A :=
  match r with Ok a => Ok a | Raise e => Raise (CliRunFailed e) end.
Definition lift_relay {A} (r : result storage_relay_error A) : result cli_error A :=
  match r with Ok a => Ok a | Raise e => Raise (CliRelayFailed e) end.

(** [f"{run_id}-{suffix:02d}"]. *)
Definition numbered_name (run_id : string) (suffix : nat) : string :=
  run_id +:+ "-" +:+ (if (suffix <? 10)%nat then "0" else "") +:+ pretty suffix.

(** The run's name, or that with the first free number from 1 to 999. *)
Definition unique_output_dir (run_id : string) : result cli_error string :=
  match head (filter (fun name => exists_ name = false) (run_id :: (numbered_name run_id <$> seq 1 999))) with
  | Some name => Ok name
  | None => Raise (CliRuntimeError ("Could not allocate output directory for run id: " +:+ run_id))
  end.

Definition load_input (cameras : list string) (limit_per_camera : option Z) (timestamp_align : string) (trim_overlap : bool)
    (order_by : string) : result cli_error ReplayInput :=
  camera_mappings ← mapped (fun raw => lift_loader (parse_camera_mapping raw)) cameras;
  lift_loader (collect_replay_input camera_mappings limit_per_camera timestamp_align trim_overlap order_by).

(** ** The replay *)

(** What is written, in order: the folder and its files. *)
Inductive output :=
| OutputFolder (name : string)
| DetailOutput (r : ReplayRunResult)
| PairwiseOutput (l : list pairwise_summary)
| SweepOutput (l : list sweep_item).

(** Outputs up to an error. *)
Definition writing (W A : Type) : Type := list W * result cli_error A.

Definition writing_bind {W A B} (m : writing W A) (f : A -> writing W B) : writing W B :=
  match m.2 with Ok a => (m.1 ++ (f a).1, (f a).2) | Raise e => (m.1, Raise e) end.

Definition computes {W A} (r : result cli_error A) : writing W A := ([], r).
Definition writes_output {W} (w : W) : writing W () := ([w], Ok tt).

#[local] Notation "x <~ m ; k" := (writing_bind m (fun x => k)) (at level 100, m at next level, k at level 200, right associativity).

Context `{Hashing} (read_bytes shown_path : string -> option string) (tick : Z -> Z * string).

Definition options_of (a : ReplayArguments) (window_ms : Z) : ReplayOptions :=
  mkReplayOptions window_ms (ar_buffer_size a) (ar_recent_limit a) (ar_timestamp_align a) (ar_trim_overlap a) (ar_order_by a)
    (ar_matcher_mode a).

Definition run_detail (a : ReplayArguments) (ri : ReplayInput) (window_ms : Z) : result cli_error ReplayRunResult :=
  lift_run (build_replay_summary read_bytes shown_path tick (options_of a window_ms) ri).

Definition run_pairwise (a : ReplayArguments) (ri : ReplayInput) (window_ms : Z) : result cli_error (list pairwise_summary) :=
  lift_run (build_pairwise_summaries read_bytes shown_path tick (options_of a window_ms) ri).

Definition run_sweep (a : ReplayArguments) (ri : ReplayInput) (windows_ms : list Z) (summaries : gmap Z ReplaySummary)
    (pairwise : gmap Z (list pairwise_summary)) : result cli_error (list sweep_item) :=
  lift_run (build_window_sweep_summaries read_bytes shown_path tick (options_of a (ar_window_ms a)) ri (ar_pairwise a) windows_ms
              summaries pairwise).

(** The detailed run and the pairs of cameras under its window. *)
Definition detail_step (a : ReplayArguments) (ri : ReplayInput) (window_ms : option Z)
    : writing output (option ReplayRunResult * list pairwise_summary) :=
  match window_ms with
  | None => computes (Ok (None, []))
  | Some w =>
      r <~ computes (run_detail a ri w);
      _ <~ writes_output (DetailOutput r);
      if ar_pairwise a
      then l <~ computes (run_pairwise a ri w); _ <~ writes_output (PairwiseOutput l); computes (Ok (Some r, l))
      else computes (Ok (Some r, []))
  end.

(** The sweep, which is given what the detailed run computed. *)
Definition sweep_step (a : ReplayArguments) (ri : ReplayInput) (windows_ms : list Z) (detail : option ReplayRunResult)
    (pairwise : list pairwise_summary) : writing output () :=
  match windows_ms with
  | [] => computes (Ok tt)
  | _ =>
      let summaries := match detail with Some r => {[su_window_ms (rr_summary r) := rr_summary r]} | None => ∅ end in
      let known := match detail, pairwise with Some r, _ :: _ => {[su_window_ms (rr_summary r) := pairwise]} | _, _ => ∅ end in
      l <~ computes (run_sweep a ri windows_ms summaries known);
      writes_output (SweepOutput l)
  end.

Definition replay_main (a : ReplayArguments) : writing output () :=
  plan <~ computes (resolve_run_plan a);
  ri <~ computes (load_input (ar_camera a) (ar_limit_per_camera a) (ar_timestamp_align a) (ar_trim_overlap a) (ar_order_by a));
  name <~ computes (unique_output_dir (ar_run_id a));
  _ <~ writes_output (OutputFolder name);
  found <~ detail_step a ri (pl_detail_window_ms plan);
  sweep_step a ri (pl_sweep_windows_ms plan) found.1 found.2.

(** ** The relay *)

Record RelayArguments := mkRelayArguments {
  ag_camera : list string; ag_mode : string; ag_window_ms : Z; ag_buffer_size : Z; ag_recent_limit : Z; ag_limit_per_camera : option Z;
  ag_timestamp_align : string; ag_trim_overlap : bool; ag_order_by : string; ag_progress_interval : Z; ag_run_id : string;
}.

(** The summary: the arguments, what is counted of the input, and the
    result. *)
Record RelaySummary := mkRelaySummary {
  sg_arguments : RelayArguments; sg_expected_cameras : list string; sg_input_frame_count : Z;
  sg_per_camera_counts : list (string * Z); sg_original_per_camera_counts : list (string * Z); sg_overlap : option overlap;
  sg_result : RawRelayResult + FrameSetRelayResult;
}.

Inductive relay_output := RelayFolder (name : string) | RelaySummaryOutput (s : RelaySummary).

Definition run_relay (a : RelayArguments) (ri : ReplayInput) (r : rpc) (elapsed_ms : Z)
    : result cli_error (RawRelayResult + FrameSetRelayResult) :=
  if bool_decide (ag_mode a = "raw")
  then x ← lift_relay (relay_raw_frames read_bytes shown_path ri (ag_progress_interval a) r elapsed_ms); Ok (inl x)
  else x ← lift_relay (relay_frame_sets read_bytes shown_path tick ri (ag_window_ms a) (ag_buffer_size a) (ag_recent_limit a)
                         (ag_progress_interval a) r elapsed_ms); Ok (inr x).

Definition relay_main (a : RelayArguments) (r : rpc) (elapsed_ms : Z) : writing relay_output () :=
  ri <~ computes (load_input (ag_camera a) (ag_limit_per_camera a) (ag_timestamp_align a) (ag_trim_overlap a) (ag_order_by a));
  name <~ computes (unique_output_dir (ag_run_id a));
  _ <~ writes_output (RelayFolder name);
  result <~ computes (run_relay a ri r elapsed_ms);
  writes_output (RelaySummaryOutput (mkRelaySummary a (ri_expected_cameras ri) (Z.of_nat (length (ri_frames ri))) (ri_per_camera_counts ri)
    (ri_original_per_camera_counts ri) (ri_overlap ri) result)).
End Main.

(** ** Plans *)

Lemma window_values_positive option_name items l : window_values option_name items = Ok l -> Forall (fun w => 0 < w) l.
Proof.
  revert l. induction items as [|item items IH]; cbn; intros l; [by intros [= <-]|].
  destruct (py_int item) as [w|]; [|done]. destruct (Z.leb_spec w 0); [done|].
  destruct (window_values option_name items) as [ws|]; [|done]. intros [= <-]. constructor; [done|]. by apply IH.
Qed.

Lemma first_occurrences_spec l : forall seen, NoDup (first_occurrences seen l) /\
  forall x, x ∈ first_occurrences seen l <-> x ∈ l /\ x ∉ seen.
Proof.
  induction l as [|x l IH]; intros seen; cbn; [split; [constructor|set_solver]|].
  case_bool_decide as Hx.
  - destruct (IH seen) as [H1 H2]. split; [done|]. intros y. rewrite H2. set_solver.
  - destruct (IH (x :: seen)) as [H1 H2]. split; [constructor; [rewrite H2; set_solver|done]|].
    intros y. rewrite elem_of_cons, H2. destruct (decide (y = x)); set_solver.
Qed.

Definition good_windows (l : list Z) : Prop := NoDup l /\ Forall (fun w => 0 < w) l.

Lemma parse_windows_good raw option_name l : parse_windows raw option_name = Ok l -> good_windows l.
Proof.
  unfold parse_windows, good_windows. destruct raw as [raw|]; [|intros [= <-]; by repeat constructor].
  destruct (negb _); [intros [= <-]; by repeat constructor|].
  destruct (window_values _ _) as [ws|] eqn:E; [|done]. intros [= <-]. apply window_values_positive in E.
  destruct (first_occurrences_spec ws []) as [H1 H2]. split; [done|]. rewrite Forall_forall in *. intros w Hw. apply H2 in Hw as [Hw _]. by apply E.
Qed.

Lemma resolve_run_plan_good a plan : resolve_run_plan a = Ok plan -> good_windows (pl_sweep_windows_ms plan) /\
  (pl_sweep_windows_ms plan = [] <-> pl_mode plan = "single") /\ (pl_sweep_windows_ms plan = [] -> pl_detail_window_ms plan = Some (ar_window_ms a)).
Proof.
  unfold resolve_run_plan. case_bool_decide as Hm.
  { destruct (_ || _); [done|]. intros [= <-]. cbn. split; [by repeat constructor|done]. }
  destruct (parse_windows (ar_windows_ms a) _) as [ws|] eqn:E1; [|done]. cbn [mbind result_bind].
  match goal with |- context [if bool_decide (ws = []) then ?x else ?y] => destruct (if bool_decide (ws = []) then x else y) as [ws'|] eqn:E2; [|done] end.
  assert (good_windows ws') as Hg.
  { case_bool_decide; [by eapply parse_windows_good|]. injection E2 as <-. by eapply parse_windows_good. }
  cbn [mbind result_bind]. destruct ws' as [|w ws']; [done|]. intros [= <-]. cbn. split; [done|]. split; done.
Qed.

(** ** What is written *)

(** The outputs up to the first that raises. *)
Fixpoint written (l : list (result cli_error output)) : writing output () :=
  match l with
  | [] => ([], Ok tt)
  | Ok w :: l => (w :: (written l).1, (written l).2)
  | Raise e :: _ => ([], Raise e)
  end.

Section Written.
Context `{Hashing} (read_bytes shown_path : string -> option string) (tick : Z -> Z * string).

Definition separate_sweep (a : ReplayArguments) (ri : ReplayInput) (ws : list Z) : list (result cli_error output) :=
  match ws with
  | [] => []
  | _ => [l ← run_sweep read_bytes shown_path tick a ri ws ∅ ∅; Ok (SweepOutput l)]
  end.

(** The outputs of a plan, each computed on its own. *)
Definition separate_runs (a : ReplayArguments) (ri : ReplayInput) (plan : RunPlan) : list (result cli_error output) :=
  match pl_detail_window_ms plan with
  | None => []
  | Some w =>
      (r ← run_detail read_bytes shown_path tick a ri w; Ok (DetailOutput r)) ::
      (if ar_pairwise a then [l ← run_pairwise read_bytes shown_path tick a ri w; Ok (PairwiseOutput l)] else [])
  end ++ separate_sweep a ri (pl_sweep_windows_ms plan).

Lemma summary_window o cameras ov counts originals skipped others n ranges status sets s :
  build_summary o cameras ov counts originals skipped others n ranges status sets = Ok s -> su_window_ms s = op_window_ms o.
Proof using Type.
  unfold build_summary. intros E. do 4 (apply result_bind_Ok in E as (? & _ & E)). by injection E as <-.
Qed.

Lemma run_window o ri r : build_replay_summary read_bytes shown_path tick o ri = Ok r -> su_window_ms (rr_summary r) = op_window_ms o.
Proof using Type.
  unfold build_replay_summary, run_result. intros E. apply result_bind_Ok in E as ([[status sets] none] & _ & E).
  apply result_bind_Ok in E as (s & Es & E). injection E as <-. unfold lift_summary in Es. cbn [rr_summary].
  destruct (build_summary _ _ _ _ _ _ _ _ _ _ _) as [s'|] eqn:Eb; [|done]. injection Es as <-. by eapply summary_window.
Qed.

Lemma lift_run_Ok {A} (r : result run_error A) x : lift_run r = Ok x -> r = Ok x.
Proof using Type. destruct r; [by intros [= <-]|done]. Qed.

Lemma sweep_step_separate a ri ws detail pairwise :
  (forall r, detail = Some r -> run_detail read_bytes shown_path tick a ri (su_window_ms (rr_summary r)) = Ok r) ->
  (forall r, detail = Some r -> pairwise <> [] -> run_pairwise read_bytes shown_path tick a ri (su_window_ms (rr_summary r)) = Ok pairwise) ->
  sweep_step read_bytes shown_path tick a ri ws detail pairwise =
    written (separate_sweep a ri ws).
Proof using Type.
  intros Hd Hp. destruct ws as [|w ws]; [done|]. unfold sweep_step, separate_sweep, run_sweep.
  rewrite sweep_reuses.
  - unfold writing_bind, computes, writes_output. cbn [fst snd app]. by destruct (lift_run _).
  - intros v s. destruct detail as [r|]; [|by rewrite lookup_empty]. rewrite lookup_singleton_Some. intros [<- <-].
    exists r. split; [|done]. apply lift_run_Ok, (Hd r eq_refl).
  - intros v l. destruct detail as [r|]; [|by rewrite lookup_empty]. destruct pairwise as [|p pairwise]; [by rewrite lookup_empty|].
    rewrite lookup_singleton_Some. intros [<- <-]. apply lift_run_Ok. by apply (Hp r).
Qed.

Lemma detail_sweep_separate a ri plan :
  writing_bind (detail_step read_bytes shown_path tick a ri (pl_detail_window_ms plan))
    (fun found => sweep_step read_bytes shown_path tick a ri (pl_sweep_windows_ms plan) found.1 found.2) = written (separate_runs a ri plan).
Proof using Type.
  unfold separate_runs, detail_step. destruct (pl_detail_window_ms plan) as [w|]; cbn [app].
  2: { unfold writing_bind, computes. cbn [fst snd app]. rewrite sweep_step_separate by done. by destruct (written _). }
  destruct (run_detail read_bytes shown_path tick a ri w) as [r|e] eqn:Ed; [|done].
  assert (su_window_ms (rr_summary r) = w) as Hw by (by apply lift_run_Ok, run_window in Ed).
  destruct (ar_pairwise a).
  - destruct (run_pairwise read_bytes shown_path tick a ri w) as [l|e] eqn:Ep; [|done].
    unfold writing_bind, computes, writes_output. cbn [fst snd app mbind result_bind written].
    rewrite sweep_step_separate; [done| |]; [intros ? [= <-]; by rewrite Hw|intros ? [= <-] _; by rewrite Hw].
  - unfold writing_bind, computes, writes_output. cbn [fst snd app mbind result_bind written].
    rewrite sweep_step_separate; [done| |done]. intros ? [= <-]; by rewrite Hw.
Qed.

Lemma sweep_windows o ri include_pairwise ws l :
  build_window_sweep_summaries read_bytes shown_path tick o ri include_pairwise ws ∅ ∅ = Ok l -> co_window_ms <$> l.*1 = ws.
Proof using Type.
  unfold build_window_sweep_summaries. revert l. induction ws as [|w ws IH]; intros l; cbn [mapped]; [by intros [= <-]|].
  destruct (sweep_window _ _ _ _ _ _ _ _ w) as [x|] eqn:Ex; [|done]. cbn [mbind result_bind].
  destruct (mapped _ ws) as [xs|]; [|done]. intros [= <-]. rewrite !fmap_cons, (IH xs eq_refl). f_equal.
  unfold sweep_window, sweep_summary in Ex. rewrite lookup_empty in Ex. cbn [cached] in Ex.
  destruct (build_replay_summary _ _ _ _ _) as [r|] eqn:Er; [|done]. apply run_window in Er. cbn in Er. cbn [mbind result_bind] in Ex.
  destruct include_pairwise; [destruct (sweep_pairwise _ _ _ _ _ _); [|done]|]; injection Ex as <-; exact Er.
Qed.
End Written.

(** ** The output folder *)

Definition candidate (run_id : string) (i : nat) : string := if (i =? 0)%nat then run_id else numbered_name run_id i.

Lemma first_free exists_ (name : nat -> string) n from :
  match head (filter (fun x => exists_ x = false) (name <$> seq from n)) with
  | Some x => exists_ x = false /\ exists i, (from <= i < from + n)%nat /\ x = name i /\ forall j, (from <= j < i)%nat -> exists_ (name j) = true
  | None => forall i, (from <= i < from + n)%nat -> exists_ (name i) = true
  end.
Proof.
  revert from. induction n as [|n IH]; intros from; cbn [seq fmap list_fmap]; [intros i Hi; lia|].
  rewrite filter_cons. destruct (decide (exists_ (name from) = false)) as [E|E].
  - cbn. split; [done|]. exists from. split; [lia|]. split; [done|]. lia.
  - apply not_false_iff_true in E. specialize (IH (S from)). destruct (head _).
    + destruct IH as (Hs & i & Hi & -> & Hj). split; [done|]. exists i. split; [lia|]. split; [done|].
      intros j ?. destruct (decide (j = from)) as [->|]; [exact E|]. apply Hj. lia.
    + intros i Hi. destruct (decide (i = from)) as [->|]; [exact E|]. apply IH. lia.
Qed.

Lemma unique_output_dir_spec exists_ run_id :
  match unique_output_dir exists_ run_id with
  | Ok name => exists_ name = false /\ exists i, (i <= 999)%nat /\ name = candidate run_id i /\
      forall j, (j < i)%nat -> exists_ (candidate run_id j) = true
  | Raise _ => forall i, (i <= 999)%nat -> exists_ (candidate run_id i) = true
  end.
Proof.
  unfold unique_output_dir.
  assert (run_id :: (numbered_name run_id <$> seq 1 999) = candidate run_id <$> seq 0 1000) as -> by reflexivity.
  pose proof (first_free exists_ (candidate run_id) 1000 0) as H. destruct (head _).
  - destruct H as (Hs & i & Hi & -> & Hj). split; [done|]. exists i. split; [lia|]. split; [done|]. intros j ?. apply Hj. lia.
  - intros i Hi. apply H. lia.
Qed.

Lemma computes_bind {W A B} (a : A) (f : A -> writing W B) : writing_bind (computes (Ok a)) f = f a.
Proof. unfold writing_bind. cbn. by destruct (f a). Qed.

Lemma writes_bind {W B} (w : W) (f : () -> writing W B) : writing_bind (writes_output w) f = (w :: (f tt).1, (f tt).2).
Proof. done. Qed.

(** ** Properties *)

(** The replay command is its plan, run by run: arguments it refuses, and
    inputs it cannot load, leave no output; otherwise what is written is the
    free folder and then the detailed run, its pairs and the sweep, each the
    result of a run of its own although the sweep reuses what was computed
    before, up to the first that raises. A plan's windows are positive and
    distinct, they are those of the sweep's entries, in order, and there is
    always something to run. *)
Theorem replay_main_exact root_dir list_folder exists_ `{Hashing} read_bytes shown_path tick a :
  replay_main root_dir list_folder exists_ read_bytes shown_path tick a =
    match resolve_run_plan a with
    | Raise e => ([], Raise e)
    | Ok plan =>
        match load_input root_dir list_folder (ar_camera a) (ar_limit_per_camera a) (ar_timestamp_align a) (ar_trim_overlap a)
                (ar_order_by a) with
        | Raise e => ([], Raise e)
        | Ok ri =>
            match unique_output_dir exists_ (ar_run_id a) with
            | Raise e => ([], Raise e)
            | Ok name => written (Ok (OutputFolder name) :: separate_runs read_bytes shown_path tick a ri plan)
            end
        end
    end /\
  forall plan, resolve_run_plan a = Ok plan ->
    good_windows (pl_sweep_windows_ms plan) /\ (pl_sweep_windows_ms plan = [] <-> pl_mode plan = "single") /\
    (pl_sweep_windows_ms plan = [] -> pl_detail_window_ms plan = Some (ar_window_ms a)) /\
    forall ri l, run_sweep read_bytes shown_path tick a ri (pl_sweep_windows_ms plan) ∅ ∅ = Ok l ->
      co_window_ms <$> l.*1 = pl_sweep_windows_ms plan.
Proof.
  split.
  - unfold replay_main. destruct (resolve_run_plan a) as [plan|]; [|done]. rewrite computes_bind.
    destruct (load_input _ _ _ _ _ _ _) as [ri|]; [|done]. rewrite computes_bind.
    destruct (unique_output_dir _ _) as [name|]; [|done]. by rewrite computes_bind, writes_bind, detail_sweep_separate.
  - intros plan Hp. destruct (resolve_run_plan_good a plan Hp) as (H1 & H2 & H3). do 3 (split; [done|]).
    intros ri l E. eapply sweep_windows, lift_run_Ok, E.
Qed.

(** A sweep that repeats windows, with its first window in detail and the
    pairs of cameras: two frames in each of two folders. *)
Definition demo_arguments : ReplayArguments := mkReplayArguments ["android_01=one"; " android_02 =/two"] None 50 (Some "100, 20,,100") "first"
  None 120 20 "span" None "none" false "capture" true "run".

Definition demo_folder (folder : string) : option (list entry) :=
  if bool_decide (folder = "/repo/one") then Some [mkEntry "1000_android_01_camera_01_1.jpg" true None; mkEntry "1100_android_01_camera_01_2.jpg" true None]
  else if bool_decide (folder = "/two") then Some [mkEntry "1010_android_02_camera_01_1.jpg" true None; mkEntry "1160_android_02_camera_01_2.jpg" true None]
  else None.

Definition output_kind (o : output) : string * list Z :=
  match o with
  | OutputFolder name => (name, [])
  | DetailOutput r => ("detail", [su_window_ms (rr_summary r); su_matched_frame_set_count (rr_summary r)])
  | PairwiseOutput l => ("pairwise", su_matched_frame_set_count <$> l.*2)
  | SweepOutput l => ("sweep", l ≫= fun x => [co_window_ms x.1; co_matched_frame_set_count x.1])
  end.

Lemma replay_main_exact_witness :
  let main a := replay_main (H := transparent_hashing) ["repo"] demo_folder (fun name => bool_decide (name = "run"))
    (fun _ => Some "image") (fun _ => None) (fun i => (i, "run")) a in
  output_kind <$> (main demo_arguments).1 = [("run-01", []); ("detail", [100; 2]); ("pairwise", [2]); ("sweep", [100; 2; 20; 1])] /\
  (main demo_arguments).2 = Ok tt /\
  forall plan, resolve_run_plan demo_arguments = Ok plan -> pl_sweep_windows_ms plan = [100; 20] /\ good_windows (pl_sweep_windows_ms plan).
Proof.
  cbv zeta. split; [vm_compute; reflexivity|]. split; [vm_compute; reflexivity|].
  intros plan E. split; [by injection E as <-|].
  exact (proj1 (proj2 (replay_main_exact (H := transparent_hashing) ["repo"] demo_folder (fun name => bool_decide (name = "run"))
    (fun _ => Some "image") (fun _ => None) (fun i => (i, "run")) demo_arguments) plan E)).
Defined.
