(* ===== verification/Uploads.v ===== *)
(** * Uploads over HTTP

    src/app/api/routes/frames.py and src/app/api/routes/capture.py: a file
    sent to the server is written where it belongs and its row is made; when
    the row cannot be made the file is removed again. FastAPI's part, the
    parsing of a request and of its form, is left out;
    [parse_filename], [build_frame_path] and [build_calibration_frame_path] are
    functions of a module that is not in the repository, and are parameters. *)

From S2P Require Import Prelude Json Digest Identity SyncModels Database Frames FileSystem Archive.

(** [HTTPException] with its status and detail, an exception of the
    operating system and one of [create_frame], which FastAPI answers with
    500. *)
Inductive http_error :=
| HTTPException (status_code : Z) (detail : string)
| UncaughtOS (e : os_exception)
| UncaughtFrame (e : frame_error)
| UncaughtEngine (text : string).

(** ** Files *)

(** What goes wrong in a write: [open] fails, or the copy after some bytes
    have reached the file. *)
Record write_failure := mkWriteFailure { wr_open : option os_exception; wr_copy : option (os_exception * nat) }.

Definition no_failure : write_failure := mkWriteFailure None None.

(** [with open(path, "wb") as buffer: shutil.copyfileobj(file, buffer)]. *)
Definition write_file (fails : write_failure) (p : path) (data : string) : io unit := write_whole (wr_open fails) (wr_copy fails) p data.

(** [os.path.exists]. *)
Definition path_exists (p : path) (sys : file_system) : bool :=
  negb (bool_decide (inode_of sys p = None)) || bool_decide (p ∈ sys_dirs sys).

(** [os.remove] does not remove a directory. *)
Definition remove_file (p : path) (sys : file_system) : result os_exception file_system :=
  if bool_decide (p ∈ sys_dirs sys) then Raise (OSError "IsADirectoryError") else unlink_missing_ok p sys.

Definition remove_file_if_exists (fault : option os_exception) (p : path) : io unit :=
  io_except (fun sys => if path_exists p sys then syscall fault (remove_file p) sys else ([], sys, Ok tt))
    (fun e => match e with OSError _ => mret tt | OtherError _ => io_raise e end).

(** ** Rows *)

(** The row [create_frame] is asked for with its other arguments left out. *)
Definition plain_frame (device_id : string) (timestamp : Z) (file_path : string) : Frame :=
  mkFrame 0 device_id timestamp (Some file_path) None None None None None "" ARCHIVE_DURABLE None None None None None None
    None None None None None None None None None.

(** The call as the routes make it: [db_error] is an exception of the
    database engine, which leaves the tables as they are. *)
Definition persist_frame `{Hashing} (db_error : option string) (read now : database) (new : Frame)
    : database * result http_error Frame :=
  match db_error with
  | Some text => (now, Raise (UncaughtEngine text))
  | None => match create_frame read now new with
            | (db, Ok frame) => (db, Ok frame)
            | (db, Raise e) => (db, Raise (UncaughtFrame e))
            end
  end.

(** ** The routes *)

Section Routes.
Context `{Hashing} (cwd : path).
Context (parse_filename : string -> option (string * Z)) (build_frame_path : string -> Z -> string -> string)
  (build_calibration_frame_path : string -> Z -> string -> string).

(** What goes wrong in an upload, and the states of the database that the
    session reads and commits into. *)
Record upload_failures := mkUploadFailures {
  uf_image : write_failure;
  uf_sidecar : write_failure;
  uf_db : option string;
  uf_remove_image : option os_exception;
  uf_remove_sidecar : option os_exception;
}.

Definition no_failures : upload_failures := mkUploadFailures no_failure no_failure None None None.

(** Removing the files in order; [remove_file_if_exists] catches [OSError]. *)
Fixpoint remove_files (l : list (option os_exception * path)) : io unit :=
  match l with
  | [] => mret tt
  | (fault, p) :: l => _ ← remove_file_if_exists fault p; remove_files l
  end.

(** [try: create_frame(...) except Exception: ...]. *)
Definition persist_or_remove (fails : upload_failures) (sys : file_system) (read now : database) (new : Frame)
    (files : list (option os_exception * path)) (detail : string) : file_system * database * result http_error Frame :=
  match persist_frame (uf_db fails) read now new with
  | (db, Ok frame) => (sys, db, Ok frame)
  | (db, Raise _) =>
      let '(_, sys, r) := remove_files files sys in
      (sys, db, Raise (match r with Ok _ => HTTPException 500 detail | Raise e => UncaughtOS e end))
  end.

Definition upload_frame (fails : upload_failures) (sys : file_system) (read now : database) (filename file : string)
    : file_system * database * result http_error Frame :=
  if negb (truthy filename) then (sys, now, Raise (HTTPException 400 "Filename is required."))
  else
    match parse_filename filename with
    | None => (sys, now, Raise (HTTPException 400 "Filename format is invalid."))
    | Some (device_id, timestamp) =>
        let save_path := build_frame_path device_id timestamp filename in
        match write_file (uf_image fails) (resolve cwd save_path) file sys with
        | (_, sys, Raise e) => (sys, now, Raise (UncaughtOS e))
        | (_, sys, Ok _) =>
            persist_or_remove fails sys read now (plain_frame device_id timestamp save_path)
              [(uf_remove_image fails, resolve cwd save_path)] "Failed to persist uploaded frame."
        end
    end.

Definition register_frame (db_error : option string) (read now : database) (device_id : string) (timestamp : Z) (file_path : string)
    : database * result http_error Frame :=
  persist_frame db_error read now (plain_frame device_id timestamp file_path).

(** FastAPI refuses a limit that is not between 1 and 200. *)
Definition list_frames (db : database) (limit : Z) : result http_error (list Frame) :=
  if (limit <? 1) || (200 <? limit) then Raise (HTTPException 422 "limit") else Ok (get_frames db limit).

(** *** Calibration frames *)

Definition calibration_sidecar (device_id camera_id : string) (frame_sequence device_timestamp_ms : Z) (content_type : option string)
    : string :=
  dumps_indented 0 (JObj
    [("capture_type", JStr "internal_calibration"); ("device_id", JStr device_id); ("camera_id", JStr camera_id);
     ("frame_sequence", JInt frame_sequence); ("device_timestamp_ms", JInt device_timestamp_ms);
     ("content_type", JStr (or_str content_type "image/jpeg"))]).

Definition calibration_filename (device_id camera_id : string) (frame_sequence : Z) : string :=
  device_id +:+ "_" +:+ camera_id +:+ "_" +:+ pretty frame_sequence +:+ ".jpg".

Definition upload_internal_calibration_frame (fails : upload_failures) (sys : file_system) (read now : database)
    (filename file : string) (content_type : option string) (device_id camera_id : string) (frame_sequence device_timestamp_ms : Z)
    : file_system * database * result http_error Frame :=
  if negb (truthy filename) then (sys, now, Raise (HTTPException 400 "Filename is required."))
  else if device_timestamp_ms <=? 0
  then (sys, now, Raise (HTTPException 400 "device_timestamp_ms must be greater than 0."))
  else
    let save_path := build_calibration_frame_path device_id device_timestamp_ms (calibration_filename device_id camera_id frame_sequence) in
    let sidecar_path := save_path +:+ ".metadata.json" in
    let sidecar := calibration_sidecar device_id camera_id frame_sequence device_timestamp_ms content_type in
    match (_ ← write_file (uf_image fails) (resolve cwd save_path) file;
           write_file (uf_sidecar fails) (resolve cwd sidecar_path) sidecar) sys with
    | (_, sys, Raise e) => (sys, now, Raise (UncaughtOS e))
    | (_, sys, Ok _) =>
        persist_or_remove fails sys read now (plain_frame device_id device_timestamp_ms save_path)
          [(uf_remove_image fails, resolve cwd save_path); (uf_remove_sidecar fails, resolve cwd sidecar_path)]
          "Failed to persist calibration frame."
    end.
End Routes.

(** ** What the operations on files do

    Without hard links, two names never share a file. *)

Definition unshared (sys : file_system) : Prop := forall p q i, inode_of sys p = Some i -> inode_of sys q = Some i -> p = q.

Definition files_ok (sys : file_system) : Prop := sys_ok sys /\ unshared sys.

Lemma inode_entry sys p i : inode_of sys p = Some i -> Some i ∈ entries sys p.
Proof. unfold inode_of. destruct (entries sys p) as [|[j|] l]; cbn; [done| |done]. intros [= ->]. left. Qed.

(** Every other file is as it was, and so are the directories. *)
Definition only (p : path) (sys sys' : file_system) : Prop :=
  (forall q, q <> p -> content sys' q = content sys q) /\ sys_dirs sys' = sys_dirs sys.

Lemma only_refl p sys : only p sys sys.
Proof. done. Qed.

Lemma only_trans p a b c : only p a b -> only p b c -> only p a c.
Proof. intros [H1 H2] [H3 H4]. split; [|congruence]. intros q Hq. by rewrite H3, H1. Qed.

Lemma alter_content p f sys : files_ok sys ->
  files_ok (alter_inode p f sys) /\ only p sys (alter_inode p f sys) /\
  content (alter_inode p f sys) p = (i ← inode_of sys p; in_data ∘ f <$> sys_inodes sys !! i).
Proof.
  intros [Hok Hun]. unfold alter_inode. destruct (inode_of sys p) as [i|] eqn:Ei.
  - split_and!.
    + split; [|exact Hun]. intros q j Hj. cbn. rewrite length_alter. by apply (Hok q).
    + split; [|done]. intros q Hq. unfold content. change (inode_of (sys <| sys_inodes ::= alter f i |>) q) with (inode_of sys q).
      destruct (inode_of sys q) as [j|] eqn:Ej; [|done]. cbn. rewrite list_lookup_alter_ne; [done|]. intros ->. by apply Hq, (Hun q p j).
    + unfold content. change (inode_of (sys <| sys_inodes ::= alter f i |>) p) with (inode_of sys p). rewrite Ei. cbn.
      rewrite list_lookup_alter, decide_True by done. by destruct (sys_inodes sys !! i).
  - split_and!; [done|apply only_refl|]. unfold content. by rewrite Ei.
Qed.

Lemma inode_exists sys p i : sys_ok sys -> inode_of sys p = Some i -> is_Some (sys_inodes sys !! i).
Proof. intros Hok Hi%inode_entry%Hok. by apply lookup_lt_is_Some. Qed.

Lemma open_truncated_does p sys sys' : files_ok sys -> open_truncated p sys = Ok sys' ->
  files_ok sys' /\ only p sys sys' /\ content sys' p = Some "" /\ (p ∉ sys_dirs sys).
Proof.
  intros Hok. unfold open_truncated. case_bool_decide as Hd; [done|]. destruct (inode_of sys p) as [i|] eqn:Ei.
  - intros [= <-]. destruct (alter_content p (fun _ => mkInode "" false) sys Hok) as (H1 & H2 & H3). split_and!; [done|done| |done].
    rewrite H3, Ei. cbn. destruct (inode_exists sys p i (proj1 Hok) Ei) as [n ->]. done.
  - unfold create_exclusive. destruct (_ || _); [done|]. destruct (negb _); [done|]. intros [= <-]. destruct Hok as [Hok Hun].
    set (s := sys <| sys_inodes ::= fun l => l ++ [mkInode "" false] |> <| sys_names ::= <[p := Some (length (sys_inodes sys)) :: entries sys p]> |>).
    assert (He : forall q, entries s q = if decide (q = p) then Some (length (sys_inodes sys)) :: entries sys p else entries sys q).
    { intros q. by erewrite (entries_insert s (sys_names sys)). }
    assert (Hi : forall q, inode_of s q = if decide (q = p) then Some (length (sys_inodes sys)) else inode_of sys q).
    { intros q. unfold inode_of. rewrite He. by case_decide. }
    assert (Hlt : forall q j, inode_of sys q = Some j -> (j < length (sys_inodes sys))%nat) by (intros q j Hj%inode_entry; by apply (Hok q)).
    split_and!; [split| |unfold content; rewrite Hi, decide_True by done; cbn; by rewrite lookup_app_r, Nat.sub_diag by lia|done].
    + intros q j. rewrite He. cbn. rewrite length_app. cbn. case_decide; [intros [[= ->]|Hj%Hok]%elem_of_cons; lia|intros Hj%Hok; lia].
    + intros a b j. rewrite !Hi. do 2 case_decide; subst; [done|intros [= <-] Hb%Hlt; lia|intros Ha%Hlt [= <-]; lia|apply Hun].
    + split; [|done]. intros q Hq. unfold content. rewrite Hi, decide_False by done. destruct (inode_of sys q) as [j|] eqn:Ej; [|done]. cbn.
      rewrite lookup_app_l; [done|by eapply Hlt].
Qed.

Lemma write_data_does p data old sys : files_ok sys -> content sys p = Some old ->
  files_ok (write_data p data sys) /\ only p sys (write_data p data sys) /\ content (write_data p data sys) p = Some (old +:+ data).
Proof.
  intros Hok Hc. unfold write_data. destruct (alter_content p (fun n => mkInode (in_data n +:+ data) false) sys Hok) as (H1 & H2 & H3).
  split_and!; [done|done|]. rewrite H3. unfold content in Hc. destruct (inode_of sys p) as [i|]; [|done]. cbn in *.
  destruct (sys_inodes sys !! i); [|done]. cbn in *. by injection Hc as ->.
Qed.

(** A file is written whole, or an exception leaves what was there or a part
    of it. *)
Lemma write_file_does fails p data sys tr sys' r : files_ok sys -> write_file fails p data sys = (tr, sys', r) ->
  files_ok sys' /\ only p sys sys' /\
  match r with
  | Ok _ => content sys' p = Some data /\ (p ∉ sys_dirs sys)
  | Raise _ => content sys' p = content sys p \/ exists n, content sys' p = Some (String.substring 0 n data)
  end.
Proof.
  intros Hok. unfold write_file, write_whole, syscall, mbind, io_bind. destruct (wr_open fails) as [e|].
  { intros [= _ <- <-]. split_and!; [done|apply only_refl|by left]. }
  destruct (open_truncated p sys) as [s1|e] eqn:Eo; [|intros [= _ <- <-]; split_and!; [done|apply only_refl|by left]].
  destruct (open_truncated_does p sys s1 Hok Eo) as (Hok1 & Ho1 & Hc1 & Hd).
  destruct (wr_copy fails) as [[e n]|].
  - destruct (write_data_does p (String.substring 0 n data) "" s1 Hok1 Hc1) as (Hok2 & Ho2 & Hc2). cbn. intros [= _ <- <-].
    split_and!; [done|by eapply only_trans|]. right. exists n. exact Hc2.
  - destruct (write_data_does p data "" s1 Hok1 Hc1) as (Hok2 & Ho2 & Hc2). cbn. intros [= _ <- <-].
    split_and!; [done|by eapply only_trans|exact Hc2|done].
Qed.

Lemma remove_file_does p sys sys' : files_ok sys -> remove_file p sys = Ok sys' ->
  files_ok sys' /\ only p sys sys' /\ inode_of sys' p = None.
Proof.
  intros [Hok Hun]. unfold remove_file, unlink_missing_ok. case_bool_decide; [done|].
  destruct (inode_of sys p) as [i|] eqn:Ei; [|intros [= <-]; by split_and!]. intros [= <-].
  set (s := sys <| sys_names ::= <[p := None :: entries sys p]> |>).
  assert (He : forall q, entries s q = if decide (q = p) then None :: entries sys p else entries sys q).
  { intros q. by erewrite (entries_insert s (sys_names sys)). }
  assert (Hi : forall q, inode_of s q = if decide (q = p) then None else inode_of sys q).
  { intros q. unfold inode_of. rewrite He. by case_decide. }
  split_and!; [split| |by rewrite Hi, decide_True].
  - intros q j. rewrite He. case_decide; [intros [?|Hj]%elem_of_cons; [done|by apply (Hok p)]|by apply (Hok q)].
  - intros a b j. rewrite !Hi. do 2 case_decide; try done. apply Hun.
  - split; [|done]. intros q Hq. unfold content. by rewrite Hi, decide_False.
Qed.

(** A removal may only fail by an exception that is given to it, and catches
    the errors of the operating system. *)
Lemma remove_does fault p sys tr sys' r : files_ok sys -> p ∉ sys_dirs sys -> remove_file_if_exists fault p sys = (tr, sys', r) ->
  files_ok sys' /\ only p sys sys' /\
  match r with
  | Ok _ => content sys' p = None \/ (sys' = sys /\ exists t, fault = Some (OSError t))
  | Raise e => sys' = sys /\ fault = Some e
  end.
Proof.
  intros Hok Hd. unfold remove_file_if_exists, io_except, path_exists.
  rewrite (bool_decide_false (p ∈ sys_dirs sys)), orb_false_r by done. destruct (inode_of sys p) as [i|] eqn:Ei; cbn.
  2: { intros [= _ <- <-]. split_and!; [done|apply only_refl|]. left. unfold content. by rewrite Ei. }
  destruct fault as [[t|t]|]; cbn.
  - intros [= _ <- <-]. split_and!; [done|apply only_refl|]. right. eauto.
  - intros [= _ <- <-]. by split_and!.
  - destruct (remove_file p sys) as [s1|e] eqn:Er.
    + destruct (remove_file_does p sys s1 Hok Er) as (H1 & H2 & H3). intros [= _ <- <-]. split_and!; [done|done|]. left.
      unfold content. by rewrite H3.
    + exfalso. revert Er. unfold remove_file, unlink_missing_ok. rewrite bool_decide_false, Ei by done. done.
Qed.

(** ** What the routes do *)

Section Effects.
Context `{Hashing} (cwd : path).
Context (parse_filename : string -> option (string * Z)) (build_frame_path : string -> Z -> string -> string)
  (build_calibration_frame_path : string -> Z -> string -> string).

(** The row of an upload: a new one that names the file, or the one the
    camera and time already have. *)
Definition registered (now db : database) (device_id : string) (timestamp : Z) (save_path : string) (row : Frame) : Prop :=
  fr_device_id row = device_id /\ fr_timestamp row = timestamp /\ fr_identity_mode row = IDENTITY_MODE_LEGACY /\
  (exists stored, stored ∈ db_frames db /\ fr_id stored = fr_id row /\ evolves row stored) /\
  (length (db_frames db) = length (db_frames now) \/
   db_frames db = db_frames now ++ [row] /\ fr_file_path row = Some save_path /\ fr_archive_state row = ARCHIVE_DURABLE).

Lemma persist_frame_does db_error read now device_id timestamp save_path db r :
  frames_ok read -> frames_ok now -> frames_later (db_frames read) (db_frames now) ->
  persist_frame db_error read now (plain_frame device_id timestamp save_path) = (db, r) ->
  frames_ok db /\ frames_later (db_frames now) (db_frames db) /\
  match r with Ok row => registered now db device_id timestamp save_path row | Raise _ => db = now end.
Proof using Type.
  intros Hread Hnow Hl. unfold persist_frame. destruct db_error as [t|].
  { intros [= <- <-]. split_and!; [done|apply frames_later_refl|done]. }
  destruct (create_frame read now _) as [db' res] eqn:Ec.
  destruct (create_frame_effect read now _ db' res Ec Hread Hnow Hl) as (H1 & H2 & H3).
  destruct res as [row|e]; intros [= <- <-]; (split; [done|]; split; [done|]); [|done].
  destruct H3 as (uid & mode & Hr & Hs & (stored & S1 & S2 & S3 & _) & Hlen). cbn in Hr. injection Hr as <- <-.
  unfold same_frame in Hs. cbn in Hs. bools in Hs. destruct Hs as [[D T] M]. unfold registered. split_and!; [done|done|done|eauto|].
  destruct Hlen as [Hlen|[Happ Hnone]]; [by left|right]. split; [done|].
  unfold create_frame in Ec. cbn in Ec. destruct (_find_existing_frame read _ _ _ _) as [x|] eqn:Ef.
  - exfalso. apply find_same_Some in Ef as [Hx Hsx]. destruct (later_row _ _ _ Hl Hx) as (y & Hy & Ey).
    destruct (evolves_fields _ _ Ey) as (_ & _ & _ & _ & _ & _ & _ & Esame). specialize (Hnone y Hy). cbn in Hnone.
    unfold same_frame at 1 in Esame. rewrite <- (Esame None device_id timestamp IDENTITY_MODE_LEGACY) in Hsx. unfold same_frame in Hsx.
    by rewrite Hnone in Hsx.
  - destruct (insert_frame _ now) as [d|]; [by injection Ec as _ <-|].
    destruct (_find_existing_frame now _ _ _ _) as [x|] eqn:Ef2; [|done]. exfalso.
    apply find_same_Some in Ef2 as [Hx Hsx]. specialize (Hnone x Hx). unfold same_frame in *. cbn in *. by rewrite Hnone in Hsx.
Qed.

Lemma remove_one_does fault p sys tr sys' r : files_ok sys -> p ∉ sys_dirs sys -> remove_files [(fault, p)] sys = (tr, sys', r) ->
  only p sys sys' /\ (fault = None -> content sys' p = None /\ r = Ok tt).
Proof using Type.
  intros Hok Hd. cbn. unfold mbind, io_bind. destruct (remove_file_if_exists fault p sys) as [[tr1 s1] r1] eqn:E.
  destruct (remove_does _ _ _ _ _ _ Hok Hd E) as (_ & Ho & Hr).
  destruct r1 as [[]|e]; cbn; intros [= _ <- <-]; (split; [done|]); intros Hf; subst fault.
  - destruct Hr as [?|[_ [? ?]]]; done.
  - by destruct Hr.
Qed.

(** C35: an upload over HTTP, from any state the session read, is answered in
    one of four ways. A name that is missing or not of a frame is refused and
    changes nothing. A write that fails leaves the tables alone. When the row
    cannot be made the tables are as they were and the file is gone, unless
    its removal fails. Otherwise the file holds the bytes that were sent and
    the frame has a row: a new one that names the file, or the one its camera
    and time already had. In every case no other file changes. *)
Theorem upload_frame_exact fails sys read now filename file sys' db r :
  files_ok sys -> frames_ok read -> frames_ok now -> frames_later (db_frames read) (db_frames now) ->
  upload_frame cwd parse_filename build_frame_path fails sys read now filename file = (sys', db, r) ->
  match (if truthy filename then parse_filename filename else None) with
  | None => sys' = sys /\ db = now /\ exists detail, r = Raise (HTTPException 400 detail)
  | Some (device_id, timestamp) =>
      let save_path := build_frame_path device_id timestamp filename in
      let p := resolve cwd save_path in
      only p sys sys' /\ frames_ok db /\ frames_later (db_frames now) (db_frames db) /\
      match r with
      | Ok row => content sys' p = Some file /\ registered now db device_id timestamp save_path row
      | Raise (HTTPException status_code _) =>
          status_code = 500 /\ db = now /\ (uf_remove_image fails = None -> content sys' p = None)
      | Raise (UncaughtOS _) =>
          db = now /\ (uf_remove_image fails = None ->
                       content sys' p = content sys p \/ exists n, content sys' p = Some (String.substring 0 n file))
      | Raise _ => False
      end
  end.
Proof using Type.
  intros Hok Hread Hnow Hl. unfold upload_frame. destruct (truthy filename); cbn [negb]; [|intros [= <- <- <-]; eauto].
  destruct (parse_filename filename) as [[device_id timestamp]|]; [|intros [= <- <- <-]; eauto]. cbn zeta.
  set (save_path := build_frame_path device_id timestamp filename). set (p := resolve cwd save_path).
  destruct (write_file _ p file sys) as [[tr s1] [[]|e]] eqn:Ew; destruct (write_file_does _ _ _ _ _ _ _ Hok Ew) as (Hok1 & Ho1 & Hw).
  2: { intros [= <- <- <-]. split_and!; [done|done|apply frames_later_refl|done|by intros _]. }
  destruct Hw as [Hc Hd]. assert (Hd1 : p ∉ sys_dirs s1) by (rewrite (proj2 Ho1); exact Hd).
  unfold persist_or_remove. destruct (persist_frame _ _ _ _) as [db1 res] eqn:Ep.
  destruct (persist_frame_does _ _ _ _ _ _ _ _ Hread Hnow Hl Ep) as (H1 & H2 & H3). destruct res as [row|e].
  { intros [= <- <- <-]. by split_and!. }
  destruct (remove_files _ s1) as [[tr2 s2] rr] eqn:Er. destruct (remove_one_does _ _ _ _ _ _ Hok1 Hd1 Er) as [Ho2 Hgone].
  intros [= <- <- <-]. split; [by eapply only_trans|]. split; [done|]. split; [done|].
  destruct rr as [[]|e']; cbn; (split_and!; try done); intros Hf; destruct (Hgone Hf) as [? ?]; done.
Qed.
End Effects.

(** A calibration frame that is registered has its image and its sidecar, and
    one that is not has neither. *)
Theorem calibration_upload_exact `{Hashing} cwd build_calibration_frame_path fails sys read now filename file content_type device_id
    camera_id frame_sequence device_timestamp_ms sys' db r :
  let save_path := build_calibration_frame_path device_id device_timestamp_ms (calibration_filename device_id camera_id frame_sequence) in
  let p := resolve cwd save_path in
  let s := resolve cwd (save_path +:+ ".metadata.json") in
  files_ok sys -> p <> s -> s ∉ sys_dirs sys -> frames_ok read -> frames_ok now -> frames_later (db_frames read) (db_frames now) ->
  upload_internal_calibration_frame cwd build_calibration_frame_path fails sys read now filename file content_type device_id camera_id
    frame_sequence device_timestamp_ms = (sys', db, r) ->
  (forall q, q <> p -> q <> s -> content sys' q = content sys q) /\ frames_ok db /\ frames_later (db_frames now) (db_frames db) /\
  match r with
  | Ok row =>
      content sys' p = Some file /\
      content sys' s = Some (calibration_sidecar device_id camera_id frame_sequence device_timestamp_ms content_type) /\
      registered now db device_id device_timestamp_ms save_path row
  | Raise (HTTPException status_code _) =>
      db = now /\ (status_code = 400 /\ sys' = sys \/
                   status_code = 500 /\ (uf_remove_image fails = None -> uf_remove_sidecar fails = None -> content sys' p = None /\ content sys' s = None))
  | Raise (UncaughtOS _) => db = now
  | Raise _ => False
  end.
Proof.
  intros save_path p s Hok Hps Hsd Hread Hnow Hl. unfold upload_internal_calibration_frame. fold save_path. fold p. fold s.
  destruct (negb (truthy filename)); [intros [= <- <- <-]; split_and!; eauto using frames_later_refl|].
  destruct (_ <=? 0); [intros [= <- <- <-]; split_and!; eauto using frames_later_refl|].
  unfold mbind at 1, io_bind. destruct (write_file _ p file sys) as [[tr s1] [[]|e]] eqn:Ew;
    destruct (write_file_does _ _ _ _ _ _ _ Hok Ew) as (Hok1 & Ho1 & Hw).
  2: { intros [= <- <- <-]. split_and!; [intros q ? _; by apply Ho1|done|apply frames_later_refl|done]. }
  destruct Hw as [Hc Hd]. destruct (write_file _ s _ s1) as [[tr2 s2] [[]|e]] eqn:Ew2;
    destruct (write_file_does _ _ _ _ _ _ _ Hok1 Ew2) as (Hok2 & Ho2 & Hw2).
  2: { intros [= <- <- <-]. split_and!; [|done|apply frames_later_refl|done]. intros q Hqp Hqs. rewrite (proj1 Ho2 q Hqs). by apply Ho1. }
  destruct Hw2 as [Hc2 _].
  assert (Hd2 : p ∉ sys_dirs s2) by (rewrite (proj2 Ho2), (proj2 Ho1); exact Hd).
  assert (Hs2 : s ∉ sys_dirs s2) by (rewrite (proj2 Ho2), (proj2 Ho1); exact Hsd).
  unfold persist_or_remove. destruct (persist_frame _ _ _ _) as [db1 res] eqn:Ep.
  destruct (persist_frame_does _ _ _ _ _ _ _ _ Hread Hnow Hl Ep) as (H1 & H2 & H3). destruct res as [row|e].
  { intros [= <- <- <-]. split_and!; [|done|done|by rewrite (proj1 Ho2 p Hps)|done|done].
    intros q Hqp Hqs. rewrite (proj1 Ho2 q Hqs). by apply Ho1. }
  cbn [remove_files]. unfold mbind at 1, io_bind at 1. destruct (remove_file_if_exists _ p s2) as [[tr3 s3] r3] eqn:E3.
  destruct (remove_does _ _ _ _ _ _ Hok2 Hd2 E3) as (Hok3 & Ho3 & Hr3). destruct r3 as [[]|e3].
  2: { intros [= <- <- <-]. split_and!; [|done|done|done]. intros q Hqp Hqs. by rewrite (proj1 Ho3 q Hqp), (proj1 Ho2 q Hqs), (proj1 Ho1 q Hqp). }
  unfold mbind at 1, io_bind at 1. destruct (remove_file_if_exists _ s s3) as [[tr4 s4] r4] eqn:E4.
  assert (Hs3 : s ∉ sys_dirs s3) by (rewrite (proj2 Ho3); exact Hs2).
  destruct (remove_does _ _ _ _ _ _ Hok3 Hs3 E4) as (Hok4 & Ho4 & Hr4).
  assert (Hothers : forall q, q <> p -> q <> s -> content s4 q = content sys q).
  { intros q Hqp Hqs. by rewrite (proj1 Ho4 q Hqs), (proj1 Ho3 q Hqp), (proj1 Ho2 q Hqs), (proj1 Ho1 q Hqp). }
  destruct r4 as [[]|e4]; cbn; intros [= <- <- <-]; (split; [done|]; split; [done|]; split; [done|]); [|done].
  split; [done|right]. split; [done|]. intros F1 F2. rewrite F1, F2 in *.
  destruct Hr3 as [Hr3|(_ & ? & ?)]; [|done]. destruct Hr4 as [Hr4|(_ & ? & ?)]; [|done]. by rewrite (proj1 Ho4 p Hps).
Qed.

(** A list has at most the 200 rows a caller may ask for, newest first. *)
Lemma list_frames_bounded db limit l : list_frames db limit = Ok l ->
  (length l <= 200)%nat /\ exists rest, l ++ rest = sort_by timestamp_desc (db_frames db).
Proof.
  unfold list_frames, get_frames. destruct (Z.ltb_spec limit 1); [done|]. destruct (Z.ltb_spec 200 limit); [done|]. cbn.
  rewrite (proj2 (Z.ltb_ge limit 0)) by lia. intros [= <-]. split; [|exists (drop (Z.to_nat limit) (sort_by timestamp_desc (db_frames db))); by rewrite take_drop].
  rewrite length_take. lia.
Qed.

(** ** A concrete archive

    One frame that is archived, and the upload of a file of the same name. *)

Definition demo_parse (name : string) : option (string * Z) :=
  if bool_decide (name = "camera1_5.jpg") then Some ("camera1", 5) else None.
Definition demo_build (device_id : string) (timestamp : Z) (filename : string) : string := "/data/" +:+ filename.

Definition demo_path : path := ["data"; "camera1_5.jpg"].

Definition demo_files : file_system :=
  mkFileSystem [mkInode "archived" true] {[ demo_path := [Some 0%nat] ]} {[ []; ["data"] ]}.

Definition demo_db : database :=
  (persist_frame (H := transparent_hashing) None empty_database empty_database (plain_frame "camera1" 5 "/data/camera1_5.jpg")).1.

Definition demo_upload (fails : upload_failures) : file_system * database * result http_error Frame :=
  upload_frame (H := transparent_hashing) [] demo_parse demo_build fails demo_files demo_db demo_db "camera1_5.jpg" "sent".

Lemma demo_files_ok : files_ok demo_files.
Proof.
  assert (He : forall q, entries demo_files q = if decide (q = demo_path) then [Some 0%nat] else []).
  { intros q. unfold entries, demo_files. cbn [sys_names]. case_decide; [subst; by rewrite lookup_singleton_eq|by rewrite lookup_singleton_ne by congruence]. }
  split.
  - intros q j. rewrite He. case_decide; [intros [= ->]%list_elem_of_singleton; cbn; lia|intros Hj; by apply elem_of_nil in Hj].
  - intros a b j. unfold inode_of. rewrite !He. by do 2 case_decide; subst.
Qed.

Lemma demo_db_ok : frames_ok (H := transparent_hashing) demo_db.
Proof.
  unfold demo_db. destruct (persist_frame _ _ _ _) as [db r] eqn:E.
  apply (persist_frame_does (H := transparent_hashing)) in E; [apply E|apply empty_frames_ok|apply empty_frames_ok|apply frames_later_refl].
Qed.

Lemma upload_frame_exact_witness :
  exists sys' db row, demo_upload no_failures = (sys', db, Ok row) /\ content sys' demo_path = Some "sent" /\
    registered demo_db db "camera1" 5 "/data/camera1_5.jpg" row.
Proof.
  destruct (demo_upload no_failures) as [[sys' db] r] eqn:E.
  pose proof (upload_frame_exact (H := transparent_hashing) [] demo_parse demo_build _ _ _ _ _ _ _ _ _ demo_files_ok demo_db_ok
    demo_db_ok (frames_later_refl _) E) as Hx.
  change (if truthy "camera1_5.jpg" then demo_parse "camera1_5.jpg" else None) with (Some ("camera1", 5)) in Hx.
  change (resolve [] (demo_build "camera1" 5 "camera1_5.jpg")) with demo_path in Hx. cbn beta iota zeta in Hx.
  destruct r as [row|e]; [exists sys', db, row; split; [done|]; by destruct Hx as (_ & _ & _ & ?)|].
  exfalso. vm_compute in E. discriminate E.
Defined.

(** Sending a file again replaces the archived one, and if the database then
    fails removes it: the row still says that it is durable. *)
Example failed_upload_removes_archived :
  let '(sys', db, r) := demo_upload (mkUploadFailures no_failure no_failure (Some "OperationalError") None None) in
  r = Raise (HTTPException 500 "Failed to persist uploaded frame.") /\ content sys' demo_path = None /\
  (fun row => (fr_file_path row, fr_archive_state row)) <$> db_frames db = [(Some "/data/camera1_5.jpg", "ARCHIVE_DURABLE")].
Proof. vm_compute. done. Qed.

(** The row of an upload says that the file is durable, but a crash may
    leave anything in it. *)
Lemma upload_not_synchronised data : let '(sys', db, r) := demo_upload no_failures in
  after_crash sys' demo_path (Some data) /\ match r with Ok row => fr_archive_state row = ARCHIVE_DURABLE | Raise _ => False end.
Proof.
  destruct (demo_upload no_failures) as [[sys' db] r] eqn:E. vm_compute in E. injection E as <- <- <-. split; [|done].
  unfold after_crash, entries. cbn. exists (Some 0%nat). split; [left|]. cbn. by exists (mkInode "sent" false), data.
Qed.
