(* ===== verification/AlertRoutes.v ===== *)
(** * Alert routes

    src/app/api/routes/phone.py and src/app/api/routes/internal.py: the
    stream of events of a phone, which replays the recent alerts and then
    sends what is published, and the calls of the processing server that
    feed it. The generator of a stream, the calls that accept an alert and
    those that publish it are threads; their steps, and the subscriptions of
    other phones, interleave in any order. A publication takes the lock of the
    hub to copy the subscriptions, hands its record to each of them with the
    steps of [enqueue], which hold no lock together, and takes the lock again
    for the counters. A call of a queue, and raising a counter, is one step. *)

From S2P Require Import Prelude Json Digest Config AlertReceiver Alerts.

(** ** The stream of a phone *)

Inductive phone_error := PhoneHTTPException (status_code : Z) (detail : string) | PhoneConfigError (e : config_error).

(** [stream_phone_alert_events] up to the answer: the subscription. *)
Definition open_phone_stream (h : PhoneAlertDeliveryHub) (env : environ) (device_id camera_device_id : list string)
    (session_id : option string) (fresh_id : string) (clock_ms : Z)
    : PhoneAlertDeliveryHub * result phone_error PhoneAlertSubscription :=
  let device_ids := filter (fun item => truthy item = true) device_id in
  if bool_decide (device_ids = []) && negb (truthy_opt session_id)
  then (h, Raise (PhoneHTTPException 400 "device_id or session_id is required"))
  else
    match parse_phone_alert_subscriptions (Some (get_optional_str_env env "PHONE_ALERT_SUBSCRIPTIONS" "")) with
    | Raise e => (h, Raise (PhoneConfigError e))
    | Ok subscription_mapping =>
        let camera_device_ids := resolve_phone_alert_camera_device_ids device_ids
          (Some (filter (fun item => truthy item = true) camera_device_id)) (Some subscription_mapping) in
        let '(h, s) := subscribe h device_ids (Some camera_device_ids) session_id fresh_id clock_ms in
        (h, Ok s)
    end.

(** Where the generator is: before its first step, among the recent records,
    in its loop, past its [finally], or stopped before its first step, which
    skips the [finally]. *)
Inductive stream_phase := NotStarted | Replaying (rest : list ProcessingAlertRecord) | Live | Closed | Abandoned.

#[export] Instance stream_phase_eq_dec : EqDecision stream_phase.
Proof. solve_decision. Defined.

(** Where a call of [publish] is, with the ids of the subscriptions it copied
    and has still to visit: before the next one; in [enqueue] before [full],
    [get_nowait] or [put_nowait]; returned; or left by [queue.Full]. *)
Inductive publication_pc :=
| Visiting (rest : list string)
| AtQueueFull (i : string) (rest : list string)
| AtQueueGet (i : string) (rest : list string)
| AtQueuePut (i : string) (rest : list string)
| Published
| PublishRaised (i : string) (rest : list string).

#[export] Instance publication_pc_eq_dec : EqDecision publication_pc.
Proof. solve_decision. Defined.

Record publication := mkPublication {
  pb_record : ProcessingAlertRecord;
  pb_matched : Z;
  pb_pc : publication_pc;
}.

#[export] Instance publication_settable : Settable publication := fun x => mkPublication (pb_record x) (pb_matched x) (pb_pc x).

Record phone_stream := mkPhoneStream {
  pt_store : ProcessingAlertStore;
  pt_hub : PhoneAlertDeliveryHub;
  pt_detached : list (string * PhoneAlertSubscription);  (** out of the hub, but perhaps in a publication's copy *)
  pt_pending : list ProcessingAlertRecord;               (** accepted, and about to be published *)
  pt_publications : list publication;
  pt_phase : stream_phase;
  pt_sent : list ProcessingAlertRecord;                  (** the events of the answer *)
}.

#[export] Instance phone_stream_settable : Settable phone_stream := fun x =>
  mkPhoneStream (pt_store x) (pt_hub x) (pt_detached x) (pt_pending x) (pt_publications x) (pt_phase x) (pt_sent x).

(** The subscription object of an id, in the hub or not. *)
Definition subscription_of (t : phone_stream) (i : string) : option PhoneAlertSubscription :=
  match dict_get i (ph_subscriptions (pt_hub t)) with Some x => Some x | None => dict_get i (pt_detached t) end.

Definition set_subscription (i : string) (x : PhoneAlertSubscription) (t : phone_stream) : phone_stream :=
  match dict_get i (ph_subscriptions (pt_hub t)) with
  | Some _ => t <| pt_hub ::= fun h => h <| ph_subscriptions ::= dict_set i x |> |>
  | None => t <| pt_detached ::= dict_set i x |>
  end.

(** [unsubscribe]: the object leaves the hub. *)
Definition detach (i : string) (t : phone_stream) : phone_stream :=
  match dict_get i (ph_subscriptions (pt_hub t)) with
  | Some x => t <| pt_hub ::= fun h => unsubscribe h i |> <| pt_detached ::= dict_set i x |>
  | None => t
  end.

(** The [finally] of the generator. *)
Definition close_stream (id : string) (t : phone_stream) : phone_stream :=
  detach id (t <| pt_phase := Closed |>).

(** One step of [event_generator] of the subscription [s] named [id]. *)
Definition generator_step (s : PhoneAlertSubscription) (once : bool) (now_ms : Z) (disconnected : bool) (t : phone_stream)
    : phone_stream :=
  let id := ps_subscription_id s in
  match pt_phase t with
  | NotStarted => t <| pt_phase := Replaying (recent (pt_store t) (as_max_alerts (pt_store t)) now_ms) |>
  | Replaying (r :: rest) =>
      if matches r s
      then let t := t <| pt_sent ::= fun l => l ++ [r] |> in
           if once then close_stream id t else t <| pt_phase := Replaying rest |>
      else t <| pt_phase := Replaying rest |>
  | Replaying [] => if once then close_stream id t else t <| pt_phase := Live |>
  | Live =>
      if disconnected then close_stream id t
      else match subscription_of t id with
           | None => t
           | Some current =>
               let '(current, payload) := next_event current in
               (set_subscription id current t) <| pt_sent ::= fun l => l ++ option_list payload |>
           end
  | Closed | Abandoned => t
  end.

(** The web server stops the generator: at a [yield] or an [await] the
    [finally] runs; a generator that was never asked for an event runs no
    code at all. *)
Definition stop_step (id : string) (t : phone_stream) : phone_stream :=
  match pt_phase t with
  | NotStarted => t <| pt_phase := Abandoned |>
  | Replaying _ | Live => close_stream id t
  | Closed | Abandoned => t
  end.

(** The steps of [receive_processing_alert] of internal.py: accept, and then
    publish what was accepted. *)
Definition accept_step (alert : ProcessingAlertEvent) (clock_ms : Z) (t : phone_stream) : phone_stream :=
  match add_alert (pt_store t) alert None clock_ms with
  | (store, Ok (record, "accepted")) => t <| pt_store := store |> <| pt_pending ::= fun l => l ++ [record] |>
  | (store, _) => t <| pt_store := store |>
  end.

(** [publish] up to the copy of the subscriptions. *)
Definition publish_start (i : nat) (clock_ms : Z) (t : phone_stream) : phone_stream :=
  match pt_pending t !! i with
  | None => t
  | Some r =>
      let t := t <| pt_pending ::= delete i |> in
      if is_expired r clock_ms
      then t <| pt_hub ::= fun h => h <| ph_skipped_expired_count ::= Z.succ |> |>
      else t <| pt_hub ::= fun h => h <| ph_published_count ::= Z.succ |> |>
             <| pt_publications ::= fun l => l ++ [mkPublication r 0 (Visiting (ph_subscriptions (pt_hub t)).*1)] |>
  end.

(** The counters at the end of [publish]. *)
Definition count_published (matched : Z) (h : PhoneAlertDeliveryHub) : PhoneAlertDeliveryHub :=
  let h := h <| ph_delivered_count ::= Z.add matched |> in
  if matched =? 0 then h <| ph_skipped_unmatched_count ::= Z.succ |> else h.

(** What a step of the publication [p] does to the subscription it is at,
    and to itself; an id without an object does not occur. *)
Definition enqueue_at (p : publication) (x : PhoneAlertSubscription) : PhoneAlertSubscription * publication :=
  match pb_pc p with
  | AtQueueFull i rest => (x, p <| pb_pc := if queue_full x then AtQueueGet i rest else AtQueuePut i rest |>)
  | AtQueueGet i rest => (drop_oldest x, p <| pb_pc := AtQueuePut i rest |>)
  | AtQueuePut i rest =>
      match put_payload x (pb_record p) with
      | Ok x => (x, p <| pb_matched ::= Z.succ |> <| pb_pc := Visiting rest |>)
      | Raise QueueFull => (x, p <| pb_pc := PublishRaised i rest |>)
      end
  | _ => (x, p)
  end.

Definition set_publication (j : nat) (p : publication) (t : phone_stream) : phone_stream := t <| pt_publications ::= <[j := p]> |>.

Definition publication_step (j : nat) (t : phone_stream) : phone_stream :=
  match pt_publications t !! j with
  | None => t
  | Some p =>
      match pb_pc p with
      | Visiting [] => set_publication j (p <| pb_pc := Published |>) (t <| pt_hub ::= count_published (pb_matched p) |>)
      | Visiting (i :: rest) =>
          let enters := match subscription_of t i with Some x => matches (pb_record p) x | None => false end in
          set_publication j (p <| pb_pc := if enters then AtQueueFull i rest else Visiting rest |>) t
      | AtQueueFull i rest | AtQueueGet i rest | AtQueuePut i rest =>
          match subscription_of t i with
          | Some x => let '(x, p) := enqueue_at p x in set_publication j p (set_subscription i x t)
          | None => set_publication j (p <| pb_pc := Visiting rest |>) t
          end
      | Published | PublishRaised _ _ => t
      end
  end.

Inductive stream_event :=
| Generator (now_ms : Z) (disconnected : bool)
| Stopped
| Accepts (alert : ProcessingAlertEvent) (clock_ms : Z)
| Publishes (i : nat) (clock_ms : Z)
| PublicationGoesOn (j : nat)
| OtherSubscribes (device_ids camera_device_ids : list string) (session_id : option string) (fresh_id : string) (clock_ms : Z)
| OtherUnsubscribes (id : string)
| OtherReads (id : string).

Definition phone_step (s : PhoneAlertSubscription) (once : bool) (t : phone_stream) (ev : stream_event) : phone_stream :=
  match ev with
  | Generator now_ms disconnected => generator_step s once now_ms disconnected t
  | Stopped => stop_step (ps_subscription_id s) t
  | Accepts alert clock_ms => accept_step alert clock_ms t
  | Publishes i clock_ms => publish_start i clock_ms t
  | PublicationGoesOn j => publication_step j t
  | OtherSubscribes devices cameras session fresh clock_ms =>
      t <| pt_hub ::= fun h => (subscribe h devices (Some cameras) session fresh clock_ms).1 |>
  | OtherUnsubscribes id => detach id t
  | OtherReads id =>
      match subscription_of t id with
      | None => t
      | Some other => set_subscription id (next_event other).1 t
      end
  end.

Definition phone_run (s : PhoneAlertSubscription) (once : bool) : phone_stream -> list stream_event -> phone_stream := foldl (phone_step s once).

(** ** The versioned receiver *)

Inductive relay_alert_error := NotFound | ReceiverFailed (e : receiver_error).

(** The answer leaves [delivery_deadline_met] out. A receiver keeps nothing
    but its database, so which of them the cache has makes no difference. *)
Definition receive_relay_v2_alert (enabled : bool) (database_path : string) (databases : gmap string receiver) (received_at : Z)
    (request : RelayV2AlertEnvelope) : gmap string receiver * result relay_alert_error RelayV2ReceiveResult :=
  if negb enabled then (databases, Raise NotFound)
  else
    let r := default new_receiver (databases !! database_path) in
    match receive r received_at request with
    | (r, Ok res) => (<[database_path := r]> databases, Ok (res <| rr_delivery_deadline_met := None |>))
    | (r, Raise e) => (<[database_path := r]> databases, Raise (ReceiverFailed e))
    end.

(** The list of recent alerts, whose limit FastAPI keeps between 1 and 200. *)
Definition list_recent_processing_alerts (s : ProcessingAlertStore) (limit now_ms status_ms : Z)
    : result phone_error (list ProcessingAlertRecord * AlertStoreStatus) :=
  if (limit <? 1) || (200 <? limit) then Raise (PhoneHTTPException 422 "limit")
  else Ok (recent s limit now_ms, alert_store_status s status_ms).

(** ** What a phone receives *)

Section Stream.
Context (s : PhoneAlertSubscription) (once : bool).
Abbreviation id := (ps_subscription_id s).

(** The records a step offers to the phone: those whose publication starts,
    has not expired and finds the matching subscription in the hub. *)
Definition offered_by (t : phone_stream) (ev : stream_event) : list ProcessingAlertRecord :=
  match ev with
  | Publishes i clock_ms =>
      match pt_pending t !! i with
      | Some r => if negb (bool_decide (pt_phase t = Closed)) && negb (is_expired r clock_ms) && matches r s then [r] else []
      | None => []
      end
  | _ => []
  end.

(** The record a step puts into the phone's queue. *)
Definition queued_by (t : phone_stream) (ev : stream_event) : list ProcessingAlertRecord :=
  match ev with
  | PublicationGoesOn j =>
      match pt_publications t !! j with
      | Some (mkPublication r _ (AtQueuePut i _)) =>
          if bool_decide (i = id) && match subscription_of t i with Some x => negb (queue_full x) | None => false end then [r] else []
      | _ => []
      end
  | _ => []
  end.

Fixpoint queued (t : phone_stream) (evs : list stream_event) : list ProcessingAlertRecord :=
  match evs with [] => [] | ev :: evs => queued_by t ev ++ queued (phone_step s once t ev) evs end.

Fixpoint offered (t : phone_stream) (evs : list stream_event) : list ProcessingAlertRecord :=
  match evs with [] => [] | ev :: evs => offered_by t ev ++ offered (phone_step s once t ev) evs end.

(** The recent records it matches when the generator starts. *)
Definition replayed_by (t : phone_stream) (ev : stream_event) : list ProcessingAlertRecord :=
  match ev, pt_phase t with
  | Generator now_ms _, NotStarted => filter (fun r => matches r s = true) (recent (pt_store t) (as_max_alerts (pt_store t)) now_ms)
  | _, _ => []
  end.

Fixpoint replayed (t : phone_stream) (evs : list stream_event) : list ProcessingAlertRecord :=
  match evs with [] => [] | ev :: evs => replayed_by t ev ++ replayed (phone_step s once t ev) evs end.

(** The other phones have names of their own. *)
Definition of_others (ev : stream_event) : Prop :=
  match ev with
  | OtherSubscribes _ _ _ fresh_id _ => fresh_id <> id
  | OtherUnsubscribes other | OtherReads other => other <> id
  | _ => True
  end.

Definition same_filter (x : PhoneAlertSubscription) : Prop :=
  ps_session_id x = ps_session_id s /\ ps_camera_device_ids x = ps_camera_device_ids s.

Lemma same_matches x r : same_filter x -> matches r x = matches r s.
Proof using Type. intros [E1 E2]. unfold matches. by rewrite E1, E2. Qed.

(** What a publication has not put into the phone's queue, and has to - or
    never will, when [queue.Full] ended it. *)
Definition due (r : ProcessingAlertRecord) (rest : list string) : list ProcessingAlertRecord :=
  if matches r s then (fun _ => r) <$> filter (fun i => i = id) rest else [].

Definition owed (p : publication) : list ProcessingAlertRecord :=
  match pb_pc p with
  | Visiting rest => due (pb_record p) rest
  | AtQueueFull i rest | AtQueueGet i rest | AtQueuePut i rest | PublishRaised i rest =>
      (if bool_decide (i = id) then [pb_record p] else []) ++ due (pb_record p) rest
  | Published => []
  end.

Definition all_owed (t : phone_stream) : list ProcessingAlertRecord := pt_publications t ≫= owed.

Definition in_hub (t : phone_stream) (i : string) : Prop := is_Some (dict_get i (ph_subscriptions (pt_hub t))).

Definition keys_ok (t : phone_stream) : Prop := NoDup (ph_subscriptions (pt_hub t)).*1.
Definition bounded (t : phone_stream) : Prop := forall i x, subscription_of t i = Some x -> queue_bounded x.

(** The queue holds, after what was taken, the newest of what was put there. *)
Definition phone_part (t : phone_stream) (taken puts : list ProcessingAlertRecord) : Prop :=
  exists x, subscription_of t id = Some x /\ same_filter x /\ (taken ++ ps_queue x) `sublist_of` puts /\
    Z.of_nat (length puts) = Z.of_nat (length (taken ++ ps_queue x)) + ps_dropped_count x.

Definition phase_part (t : phone_stream) (replay taken : list ProcessingAlertRecord) : Prop :=
  match pt_phase t with
  | NotStarted => pt_sent t = [] /\ replay = [] /\ taken = [] /\ in_hub t id
  | Replaying rest => pt_sent t ++ filter (fun r => matches r s = true) rest = replay /\ taken = [] /\ in_hub t id
  | Live => pt_sent t = replay ++ taken /\ in_hub t id
  | Closed => ~ in_hub t id /\ pt_sent t `prefix_of` replay ++ taken
  | Abandoned => pt_sent t = [] /\ taken = [] /\ in_hub t id
  end.

Record stream_inv (t : phone_stream) (replay taken puts all : list ProcessingAlertRecord) : Prop := {
  si_keys : keys_ok t;
  si_bounded : bounded t;
  si_phone : phone_part t taken puts;
  si_phase : phase_part t replay taken;
  si_account : all ≡ₚ puts ++ all_owed t;
}.

(** *** The subscriptions *)

Lemma sub_set t i x y j : subscription_of t i = Some x ->
  subscription_of (set_subscription i y t) j = if decide (i = j) then Some y else subscription_of t j.
Proof using Type.
  unfold subscription_of, set_subscription. intros Hx. destruct (dict_get i (ph_subscriptions (pt_hub t))) as [z|] eqn:E; cbn.
  - destruct (decide (i = j)) as [->|Hne]; [by rewrite dict_get_set|by rewrite dict_get_set_ne].
  - destruct (decide (i = j)) as [->|Hne]; [by rewrite E, dict_get_set|by rewrite dict_get_set_ne].
Qed.

Lemma hub_set t i y j : in_hub (set_subscription i y t) j <-> in_hub t j.
Proof using Type.
  unfold in_hub, set_subscription. destruct (dict_get i (ph_subscriptions (pt_hub t))) as [z|] eqn:E; cbn; [|done].
  destruct (decide (i = j)) as [->|Hne]; [|by rewrite dict_get_set_ne]. rewrite dict_get_set, E. split; eauto.
Qed.

Lemma keys_set t i y : keys_ok t -> keys_ok (set_subscription i y t).
Proof using Type. unfold keys_ok, set_subscription. destruct (dict_get i _); cbn; auto with gc. Qed.

Lemma bounded_set t i x y : subscription_of t i = Some x -> bounded t -> queue_bounded y -> bounded (set_subscription i y t).
Proof using Type. intros Hx Hb Hy j z. rewrite (sub_set t i x y j Hx). case_decide; [by intros [= <-]|apply Hb]. Qed.

Lemma rest_set t i y : pt_phase (set_subscription i y t) = pt_phase t /\ pt_sent (set_subscription i y t) = pt_sent t /\
  pt_publications (set_subscription i y t) = pt_publications t /\ pt_store (set_subscription i y t) = pt_store t.
Proof using Type. unfold set_subscription. by destruct (dict_get i _). Qed.

Lemma sub_detach t i j : keys_ok t -> subscription_of (detach i t) j = subscription_of t j.
Proof using Type.
  intros Hk. unfold subscription_of, detach. destruct (dict_get i (ph_subscriptions (pt_hub t))) as [x|] eqn:E; [|done]. cbn.
  destruct (decide (i = j)) as [->|Hne]; [by rewrite dict_get_del, dict_get_set, E|by rewrite dict_get_del_ne, dict_get_set_ne].
Qed.

Lemma hub_detach t i j : keys_ok t -> in_hub (detach i t) j <-> i <> j /\ in_hub t j.
Proof using Type.
  intros Hk. unfold in_hub, detach. destruct (dict_get i (ph_subscriptions (pt_hub t))) as [x|] eqn:E; cbn.
  - destruct (decide (i = j)) as [->|Hne]; [rewrite dict_get_del by done; split; [by intros []|naive_solver]|].
    rewrite dict_get_del_ne by done. naive_solver.
  - split; [|naive_solver]. intros Hj. split; [|done]. intros ->. rewrite E in Hj. by destruct Hj.
Qed.

Lemma keys_detach t i : keys_ok t -> keys_ok (detach i t).
Proof using Type. unfold keys_ok, detach. destruct (dict_get i _); cbn; auto with gc. Qed.

Lemma rest_detach t i : pt_phase (detach i t) = pt_phase t /\ pt_sent (detach i t) = pt_sent t /\
  pt_publications (detach i t) = pt_publications t.
Proof using Type. unfold detach. by destruct (dict_get i _). Qed.

Lemma next_event_bounded x : queue_bounded x -> queue_bounded (next_event x).1.
Proof using Type. unfold queue_bounded, next_event. destruct (ps_queue x) as [|r q] eqn:E; cbn; rewrite ?E; cbn; lia. Qed.

(** A step that leaves the phone's subscription and stream. *)
Lemma inv_frame t t' replay taken puts all :
  keys_ok t' -> bounded t' -> subscription_of t' id = subscription_of t id -> (in_hub t' id <-> in_hub t id) ->
  pt_phase t' = pt_phase t -> pt_sent t' = pt_sent t -> all_owed t' ≡ₚ all_owed t ->
  stream_inv t replay taken puts all -> stream_inv t' replay taken puts all.
Proof using Type.
  intros Hk Hb Hx Hh Hp Hs Ho [_ _ (x & I1 & I2) I3 I4]. split; [done|done| | |by rewrite Ho].
  - exists x. by rewrite Hx.
  - unfold phase_part in *. rewrite Hp, Hs. destruct (pt_phase t); by rewrite Hh.
Qed.

Lemma inv_close t replay taken puts all : keys_ok t -> bounded t -> phone_part t taken puts -> all ≡ₚ puts ++ all_owed t ->
  pt_sent t `prefix_of` replay ++ taken -> stream_inv (close_stream id t) replay taken puts all.
Proof using Type.
  intros Hk Hb (x & Hx & Hr) Ha Hp. unfold close_stream. set (t1 := t <| pt_phase := Closed |>).
  destruct (rest_detach t1 id) as (E1 & E2 & E3). split.
  - by apply keys_detach.
  - intros i y. rewrite sub_detach by done. apply Hb.
  - exists x. by rewrite sub_detach.
  - unfold phase_part. rewrite E1, E2. cbn. split; [|done]. by rewrite hub_detach; [intros [? _]|].
  - unfold all_owed. by rewrite E3.
Qed.

Lemma phone_next t taken puts x : subscription_of t id = Some x -> phone_part t taken puts ->
  phone_part (set_subscription id (next_event x).1 t) (taken ++ option_list (next_event x).2) puts.
Proof using Type.
  intros Hx (y & Hy & Hsame & Hsub & Hlen). assert (y = x) as -> by congruence. exists (next_event x).1.
  rewrite (sub_set t id x _ id Hx), decide_True by done. split; [done|].
  unfold next_event. destruct (ps_queue x) as [|r q] eqn:Eq; cbn; rewrite ?Eq, ?app_nil_r; [by rewrite app_nil_r in *|].
  rewrite <- (assoc_L (++)). by split_and!.
Qed.

Lemma generator_inv t replay taken puts all now_ms disconnected : stream_inv t replay taken puts all ->
  exists taken', stream_inv (generator_step s once now_ms disconnected t) (replay ++ replayed_by t (Generator now_ms disconnected)) taken' puts all.
Proof using Type.
  intros Hinv. pose proof Hinv as [Hk Hb Hph Hp Ha]. unfold generator_step, replayed_by. unfold phase_part in Hp.
  assert (forall phase sent replay', let t' := t <| pt_phase := phase |> <| pt_sent := sent |> in
    phase_part t' replay' taken -> stream_inv t' replay' taken puts all) as Hsame by (intros; by split).
  destruct (pt_phase t) as [|[|r rest]| | |] eqn:Ep; rewrite ?app_nil_r.
  - destruct Hp as (E1 & -> & -> & Hh). exists []. apply (Hsame _ (pt_sent t)). unfold phase_part. cbn. by rewrite E1.
  - destruct Hp as (E1 & -> & Hh). cbn in E1. rewrite app_nil_r in E1. exists []. destruct once.
    + apply inv_close; [done..|by rewrite E1, app_nil_r].
    + apply (Hsame _ (pt_sent t)). unfold phase_part. cbn. by rewrite E1, app_nil_r.
  - destruct Hp as (E1 & -> & Hh). rewrite filter_cons in E1. exists []. destruct (matches r s) eqn:Em.
    + rewrite decide_True in E1 by done. destruct once.
      * apply inv_close; [done..|]. cbn. rewrite app_nil_r, <- E1.
        exists (filter (fun r => matches r s = true) rest). by rewrite <- (assoc_L (++)).
      * apply (Hsame _ (pt_sent t ++ [r])). unfold phase_part. cbn. by rewrite <- (assoc_L (++)).
    + rewrite decide_False in E1 by done. apply (Hsame _ (pt_sent t)). by unfold phase_part.
  - destruct Hp as (E1 & Hh). destruct disconnected.
    + exists taken. apply inv_close; [done..|by rewrite E1].
    + pose proof Hph as (x & Hx & _). rewrite Hx. destruct (next_event x) as [x' payload] eqn:En.
      pose proof (phone_next _ _ _ x Hx Hph) as Hn. rewrite En in Hn. exists (taken ++ option_list payload).
      destruct (rest_set t id x') as (F1 & F2 & F3 & _). split.
      * by apply (keys_set t id x').
      * apply (bounded_set t id x); [done..|]. change x' with (x', payload).1. rewrite <- En. apply next_event_bounded. by eapply Hb.
      * exact Hn.
      * unfold phase_part. cbn. rewrite F1, F2, Ep, E1, (assoc_L (++)). split; [done|]. by apply (hub_set t id x' id).
      * unfold all_owed. cbn. by rewrite F3.
  - exists taken. done.
  - exists taken. done.
Qed.

Lemma stop_inv t replay taken puts all : stream_inv t replay taken puts all -> stream_inv (stop_step id t) replay taken puts all.
Proof using Type.
  intros Hinv. pose proof Hinv as [Hk Hb Hph Hp Ha]. unfold stop_step. unfold phase_part in Hp. destruct (pt_phase t) as [|rest| | |] eqn:Ep; try done.
  - split; [done..| |done]. unfold phase_part. cbn. naive_solver.
  - destruct Hp as (<- & -> & Hh). apply inv_close; [done..|rewrite app_nil_r; by apply prefix_app_r].
  - destruct Hp as (E1 & Hh). apply inv_close; [done..|by rewrite E1].
Qed.

(** *** Publications *)

Lemma owed_insert (l : list publication) j p p' : l !! j = Some p ->
  exists before after, l ≫= owed = before ++ owed p ++ after /\ <[j := p']> l ≫= owed = before ++ owed p' ++ after.
Proof using Type.
  intros Hj. exists (take j l ≫= owed), (drop (S j) l ≫= owed).
  pose proof (lookup_lt_Some _ _ _ Hj) as Hlt. split.
  - rewrite <- (take_drop_middle l j p Hj) at 1. by rewrite bind_app, bind_cons.
  - rewrite insert_take_drop by done. by rewrite bind_app, bind_cons.
Qed.

Lemma due_cons r i rest : due r (i :: rest) = (if matches r s && bool_decide (i = id) then [r] else []) ++ due r rest.
Proof using Type.
  unfold due. destruct (matches r s); [|done]. rewrite filter_cons. case_bool_decide as Hi; [by rewrite decide_True|by rewrite decide_False].
Qed.

Lemma put_payload_cases x r : put_payload x r = if queue_full x then Raise QueueFull
  else Ok (x <| ps_queue ::= fun q => q ++ [r] |> <| ps_delivered_count ::= Z.succ |>
             <| ps_last_sent_event_id := Some (al_event_id (ar_alert r)) |>).
Proof using Type. done. Qed.

(** What a step of a publication does to the subscription it is at. *)
Lemma enqueue_at_bounded p x : queue_bounded x -> queue_bounded (enqueue_at p x).1.
Proof using Type.
  unfold enqueue_at, queue_bounded. intros Hb. destruct (pb_pc p); cbn; try done.
  - unfold drop_oldest. destruct (ps_queue x) eqn:E; cbn; rewrite ?E; cbn in *; lia.
  - rewrite put_payload_cases. destruct (queue_full x) eqn:E; cbn; [done|]. unfold queue_full in E. apply bool_decide_eq_false in E.
    rewrite length_app. cbn. lia.
Qed.

Lemma enqueue_at_phone p x taken puts i rest :
  (pb_pc p = AtQueueFull i rest \/ pb_pc p = AtQueueGet i rest \/ pb_pc p = AtQueuePut i rest) -> i = id ->
  same_filter x -> (taken ++ ps_queue x) `sublist_of` puts ->
  Z.of_nat (length puts) = Z.of_nat (length (taken ++ ps_queue x)) + ps_dropped_count x ->
  let puts' := puts ++ (if bool_decide (pb_pc p = AtQueuePut i rest) && negb (queue_full x) then [pb_record p] else []) in
  let '(x', p') := enqueue_at p x in
  same_filter x' /\ (taken ++ ps_queue x') `sublist_of` puts' /\
  Z.of_nat (length puts') = Z.of_nat (length (taken ++ ps_queue x')) + ps_dropped_count x' /\
  owed p = (if bool_decide (pb_pc p = AtQueuePut i rest) && negb (queue_full x) then [pb_record p] else []) ++ owed p'.
Proof using Type.
  intros Hpc Hi Hf Hs Hl. unfold enqueue_at, owed. destruct Hpc as [E|[E|E]]; rewrite E.
  - rewrite bool_decide_false by done. cbn -[app]. rewrite !app_nil_r. split_and!; try done. by destruct (queue_full x).
  - rewrite bool_decide_false by done. cbn -[app]. rewrite !app_nil_r. unfold drop_oldest.
    destruct (ps_queue x) as [|o q] eqn:Eq; cbn -[app]; [by rewrite Eq|]. split_and!; try done.
    + etrans; [|exact Hs]. apply sublist_app; [done|]. by apply sublist_cons.
    + rewrite length_app in *. cbn [length] in *. lia.
  - rewrite bool_decide_true by done. cbn [andb]. rewrite put_payload_cases. destruct (queue_full x) eqn:Eq; cbn -[app].
    + rewrite !app_nil_r. by split_and!.
    + rewrite (assoc_L (++)). split_and!; try done; [by apply sublist_app|rewrite !length_app in *; cbn; lia|].
      by rewrite bool_decide_true.
Qed.

Lemma enqueue_at_other p x i rest : i <> id ->
  (pb_pc p = AtQueueFull i rest \/ pb_pc p = AtQueueGet i rest \/ pb_pc p = AtQueuePut i rest) ->
  owed (enqueue_at p x).2 = owed p.
Proof using Type.
  intros Hi Hpc. unfold enqueue_at, owed. destruct Hpc as [E|[E|E]]; rewrite E; cbn -[app].
  - destruct (queue_full x); cbn -[app]; done.
  - done.
  - rewrite put_payload_cases. destruct (queue_full x); cbn -[app]; [done|]. by rewrite bool_decide_false.
Qed.

(** A step that leaves every subscription. *)
Lemma inv_objects t t' replay taken puts all :
  ph_subscriptions (pt_hub t') = ph_subscriptions (pt_hub t) -> pt_detached t' = pt_detached t ->
  pt_phase t' = pt_phase t -> pt_sent t' = pt_sent t -> all_owed t' ≡ₚ all_owed t ->
  stream_inv t replay taken puts all -> stream_inv t' replay taken puts all.
Proof using Type.
  intros E1 E2 E3 E4 E5 Hinv. assert (forall i, subscription_of t' i = subscription_of t i) as Hs
    by (intros i; unfold subscription_of; by rewrite E1, E2).
  apply (inv_frame t); try done.
  - unfold keys_ok. rewrite E1. apply (si_keys _ _ _ _ _ Hinv).
  - intros i x. rewrite Hs. apply (si_bounded _ _ _ _ _ Hinv).
  - unfold in_hub. by rewrite E1.
Qed.

Lemma all_owed_set t j p p' extra : pt_publications t !! j = Some p -> owed p ≡ₚ extra ++ owed p' ->
  forall t', pt_publications t' = pt_publications t -> all_owed t ≡ₚ extra ++ all_owed (set_publication j p' t').
Proof using Type.
  intros Hj Ho t' Et. destruct (owed_insert _ _ _ p' Hj) as (before & after & E1 & E2).
  unfold all_owed, set_publication. cbn. rewrite Et, E1, E2, Ho. solve_Permutation.
Qed.

Lemma publication_inv j t replay taken puts all : stream_inv t replay taken puts all ->
  stream_inv (publication_step j t) replay taken (puts ++ queued_by t (PublicationGoesOn j)) all.
Proof using Type.
  intros Hinv. unfold publication_step, queued_by. destruct (pt_publications t !! j) as [p|] eqn:Hj; [|by rewrite app_nil_r].
  assert (forall i rest, pb_pc p = AtQueueFull i rest \/ pb_pc p = AtQueueGet i rest \/ pb_pc p = AtQueuePut i rest ->
    stream_inv (match subscription_of t i with
        | Some x => let '(x, p) := enqueue_at p x in set_publication j p (set_subscription i x t)
        | None => set_publication j (p <| pb_pc := Visiting rest |>) t end) replay taken
      (puts ++ (if bool_decide (pb_pc p = AtQueuePut i rest) && (bool_decide (i = id) &&
                   match subscription_of t i with Some x => negb (queue_full x) | None => false end) then [pb_record p] else [])) all) as Hq.
  { intros i rest Hpc. destruct (decide (i = id)) as [->|Hi].
    - destruct (si_phone _ _ _ _ _ Hinv) as (x & Hx & Hf & Hs & Hl). rewrite Hx. cbn [andb]. rewrite (bool_decide_true (id = id)) by done. cbn [andb].
      pose proof (enqueue_at_phone p x taken puts id rest Hpc eq_refl Hf Hs Hl) as He. cbv zeta in He.
      pose proof (enqueue_at_bounded p x (si_bounded _ _ _ _ _ Hinv _ _ Hx)) as Hb.
      destruct (enqueue_at p x) as [x' p']. destruct He as (H1 & H2 & H3 & H4). cbn in Hb.
      destruct (rest_set t id x') as (F1 & F2 & F3 & _). split.
      + apply (keys_set t id x'), Hinv.
      + by apply (bounded_set t id x), Hb; [|apply Hinv].
      + exists x'. change (subscription_of (set_publication ?j ?p ?t)) with (subscription_of t). rewrite (sub_set t id x), decide_True by done. by split_and!.
      + pose proof (si_phase _ _ _ _ _ Hinv) as Hp. unfold phase_part in *. cbn. rewrite F1, F2. unfold in_hub in *.
        pose proof (hub_set t id x' id) as Hh. unfold in_hub in Hh. destruct (pt_phase t); by rewrite Hh.
      + rewrite (si_account _ _ _ _ _ Hinv), (all_owed_set t j p p' _ Hj (reflexive_eq (R := Permutation) _ _ H4) (set_subscription id x' t)) by done. by rewrite (assoc_L (++)).
    - rewrite (bool_decide_false (i = id)) by done. cbn [andb]. rewrite andb_false_r, app_nil_r.
      destruct (subscription_of t i) as [x|] eqn:Hx.
      + pose proof (enqueue_at_other p x i rest Hi Hpc) as Ho.
        pose proof (enqueue_at_bounded p x (si_bounded _ _ _ _ _ Hinv _ _ Hx)) as Hb.
        destruct (enqueue_at p x) as [x' p']. cbn in Ho, Hb. destruct (rest_set t i x') as (F1 & F2 & F3 & _).
        apply (inv_frame t); [|..|done].
        * apply (keys_set t i x'), Hinv.
        * by apply (bounded_set t i x), Hb; [|apply Hinv].
        * change (subscription_of (set_publication ?j ?p ?t)) with (subscription_of t). by rewrite (sub_set t i x), decide_False.
        * apply (hub_set t i x').
        * done.
        * done.
        * rewrite (all_owed_set t j p p' [] Hj) with (t' := set_subscription i x' t); [done|by rewrite Ho|done].
      + apply (inv_objects t); [done..| |done].
        rewrite (all_owed_set t j p (p <| pb_pc := Visiting rest |>) [] Hj) with (t' := t); [done| |done].
        unfold owed. destruct Hpc as [E|[E|E]]; rewrite E; by rewrite bool_decide_false. }
  destruct p as [r m pc]. cbn [pb_pc pb_record pb_matched] in *.
  destruct pc as [[|i rest]|i rest|i rest|i rest| |i rest]; rewrite ?app_nil_r; [| | | |specialize (Hq i rest ltac:(auto))|done|done].
  - apply (inv_objects t); [|done..| |done].
    + cbn. unfold count_published. by destruct (_ =? 0).
    + rewrite (all_owed_set t j _ (mkPublication r m Published) [] Hj) with (t' := t <| pt_hub ::= count_published m |>); [done| |done].
      unfold owed, due. cbn. by destruct (matches r s).
  - apply (inv_objects t); [done..| |done]. set (p' := _ <| pb_pc := _ |>).
    rewrite (all_owed_set t j _ p' [] Hj) with (t' := t); [done| |done]. unfold p', owed. cbn -[app]. rewrite due_cons.
    destruct (decide (i = id)) as [->|Hi].
    + destruct (si_phone _ _ _ _ _ Hinv) as (x & Hx & Hf & _). rewrite Hx, (same_matches x r Hf), bool_decide_true by done.
      destruct (matches r s); cbn -[app]; rewrite ?bool_decide_true by done; done.
    + rewrite (bool_decide_false (i = id)) by done. rewrite andb_false_r. destruct (match subscription_of t i with Some x => _ | None => _ end); cbn -[app]; rewrite ?(bool_decide_false (i = id)) by done; done.
  - specialize (Hq i rest ltac:(auto)). by rewrite app_nil_r in Hq.
  - specialize (Hq i rest ltac:(auto)). by rewrite app_nil_r in Hq.
  - by rewrite bool_decide_true in Hq.
Qed.

Lemma due_copy r l : NoDup l -> due r l = if matches r s && bool_decide (id ∈ l) then [r] else [].
Proof using Type.
  intros Hn. unfold due. destruct (matches r s); [|done]. cbn [andb]. induction Hn as [|i l Hi Hn IH]; [done|].
  rewrite filter_cons. destruct (decide (i = id)) as [->|Hne].
  - rewrite fmap_cons, IH, bool_decide_false, bool_decide_true by set_solver. done.
  - rewrite IH. by rewrite (bool_decide_ext (id ∈ i :: l) (id ∈ l)) by set_solver.
Qed.

(** A publication that starts owes what it offers. *)
Lemma publish_owed i clock_ms t replay taken puts all : stream_inv t replay taken puts all ->
  all_owed (publish_start i clock_ms t) = all_owed t ++ offered_by t (Publishes i clock_ms).
Proof using Type.
  intros Hinv. unfold publish_start, offered_by. destruct (pt_pending t !! i) as [r|]; [|by rewrite app_nil_r].
  destruct (is_expired r clock_ms); [rewrite andb_false_r; cbn [andb]; by rewrite app_nil_r|].
  rewrite andb_true_r. unfold all_owed. cbn. rewrite bind_app. cbn. rewrite app_nil_r. f_equal. unfold owed. cbn.
  rewrite due_copy by apply Hinv.
  assert (bool_decide (id ∈ (ph_subscriptions (pt_hub t)).*1) = negb (bool_decide (pt_phase t = Closed))) as ->; [|by rewrite andb_comm].
  rewrite <- bool_decide_not. apply bool_decide_ext.
  assert (in_hub t id <-> id ∈ (ph_subscriptions (pt_hub t)).*1) as <-.
  { unfold in_hub. rewrite <- not_eq_None_Some, dict_get_None.
    destruct (decide (id ∈ (ph_subscriptions (pt_hub t)).*1)); tauto. }
  pose proof (si_phase _ _ _ _ _ Hinv) as Hp. unfold phase_part in Hp. destruct (pt_phase t); naive_solver.
Qed.

Lemma publish_inv i clock_ms t replay taken puts all : stream_inv t replay taken puts all ->
  stream_inv (publish_start i clock_ms t) replay taken puts (all ++ offered_by t (Publishes i clock_ms)).
Proof using Type.
  intros Hinv. pose proof (publish_owed i clock_ms _ _ _ _ _ Hinv) as Ho. destruct Hinv as [Hk Hb Hph Hp Ha].
  assert (stream_inv ((publish_start i clock_ms t) <| pt_publications := pt_publications t |>) replay taken puts all) as [I1 I2 I3 I4 _].
  { apply (inv_objects t); [..|by split]; unfold publish_start; destruct (pt_pending t !! i) as [r|]; try done;
      by destruct (is_expired r clock_ms). }
  split; [exact I1|exact I2|exact I3|exact I4|]. by rewrite Ha, Ho, (assoc_L (++)).
Qed.

Lemma phone_step_inv t replay taken puts all ev : of_others ev -> stream_inv t replay taken puts all ->
  exists taken', stream_inv (phone_step s once t ev) (replay ++ replayed_by t ev) taken' (puts ++ queued_by t ev) (all ++ offered_by t ev).
Proof using Type.
  intros Ho Hinv. pose proof Hinv as [Hk Hb _ _ _].
  destruct ev as [now_ms disconnected| |alert clock_ms|i clock_ms|j|devices cameras session fresh clock_ms|other|other];
    cbn [phone_step of_others offered_by queued_by replayed_by] in *; rewrite ?(app_nil_r puts), ?(app_nil_r all);
    [by apply (generator_inv t replay taken)|exists taken; rewrite (app_nil_r replay)..].
  - by apply stop_inv.
  - apply (inv_objects t); [| | | |unfold all_owed|done]; unfold accept_step;
      by destruct (add_alert _ _ _ _) as [store [[r o]|e]]; repeat case_match.
  - by apply publish_inv.
  - by apply publication_inv.
  - apply (inv_frame t); [| | | |done..|done].
    + unfold keys_ok in *. cbn. by auto with gc.
    + intros i x. unfold subscription_of. cbn. destruct (decide (fresh = i)) as [->|Hne].
      * rewrite dict_get_set. intros [= <-]. unfold queue_bounded. cbn. lia.
      * rewrite dict_get_set_ne by done. apply Hb.
    + unfold subscription_of. cbn. by rewrite dict_get_set_ne.
    + unfold in_hub. cbn. by rewrite dict_get_set_ne.
  - destruct (rest_detach t other) as (F1 & F2 & F3). apply (inv_frame t); [| | | |done..| |done].
    + by apply keys_detach.
    + intros i x. rewrite sub_detach by done. apply Hb.
    + by apply sub_detach.
    + rewrite hub_detach by done. naive_solver.
    + unfold all_owed. by rewrite F3.
  - destruct (subscription_of t other) as [x|] eqn:Ex; [|done]. destruct (rest_set t other (next_event x).1) as (F1 & F2 & F3 & _).
    apply (inv_frame t); [| | | |done..| |done].
    + by apply keys_set.
    + apply (bounded_set t other x); [done..|]. apply next_event_bounded. by eapply Hb.
    + by rewrite (sub_set t other x), decide_False.
    + apply hub_set.
    + unfold all_owed. by rewrite F3.
Qed.

Lemma phone_run_inv evs : forall t replay taken puts all, Forall of_others evs -> stream_inv t replay taken puts all ->
  exists taken', stream_inv (phone_run s once t evs) (replay ++ replayed t evs) taken' (puts ++ queued t evs) (all ++ offered t evs).
Proof using Type.
  induction evs as [|ev evs IH]; intros t replay taken puts all Hev Hinv; cbn.
  { exists taken. by rewrite !app_nil_r. }
  apply Forall_cons in Hev as [He Hev]. destruct (phone_step_inv _ _ _ _ _ ev He Hinv) as [taken1 Hinv1].
  destruct (IH _ _ _ _ _ Hev Hinv1) as [taken2 Hinv2]. exists taken2. by rewrite !(assoc_L (++)).
Qed.

(** *** One publication at a time *)

(** A publication starts when those before it have returned. *)
Fixpoint one_at_a_time (t : phone_stream) (evs : list stream_event) : Prop :=
  match evs with
  | [] => True
  | ev :: evs =>
      match ev with Publishes _ _ => Forall (fun p => pb_pc p = Published) (pt_publications t) | _ => True end /\
      one_at_a_time (phone_step s once t ev) evs
  end.

Definition not_raised (p : publication) : Prop := forall i rest, pb_pc p <> PublishRaised i rest.

Definition has_room (t : phone_stream) (p : publication) : Prop :=
  forall i rest x, pb_pc p = AtQueuePut i rest -> subscription_of t i = Some x -> queue_full x = false.

Record serial_inv (t : phone_stream) (puts all : list ProcessingAlertRecord) : Prop := {
  sl_one : forall i j p q, pt_publications t !! i = Some p -> pt_publications t !! j = Some q ->
    pb_pc p <> Published -> pb_pc q <> Published -> i = j;
  sl_room : forall j p, pt_publications t !! j = Some p -> not_raised p /\ has_room t p;
  sl_order : all = puts ++ all_owed t;
}.

(** No queue that had room is full. *)
Definition loosened (t t' : phone_stream) : Prop :=
  pt_publications t' = pt_publications t /\
  forall i x', subscription_of t' i = Some x' -> queue_full x' = false \/
    exists x, subscription_of t i = Some x /\ (queue_full x = false -> queue_full x' = false).

Lemma serial_loosened t t' puts all : loosened t t' -> serial_inv t puts all -> serial_inv t' puts all.
Proof using Type.
  intros [E Hl] [H1 H2 H3]. split; rewrite ?E; [done| |by unfold all_owed; rewrite E].
  intros j p Hp. destruct (H2 j p Hp) as [Hr Hroom]. split; [done|]. intros i rest x' Hpc Hx'.
  destruct (Hl i x' Hx') as [?|(x & Hx & Himp)]; [done|]. apply Himp. by eapply Hroom.
Qed.

Lemma loosened_same t t' : pt_publications t' = pt_publications t -> (forall i, subscription_of t' i = subscription_of t i) -> loosened t t'.
Proof using Type. intros E Hs. split; [done|]. intros i x' Hx'. right. exists x'. by rewrite <- Hs. Qed.

Lemma loosened_next t i x : subscription_of t i = Some x -> loosened t (set_subscription i (next_event x).1 t).
Proof using Type.
  intros Hx. destruct (rest_set t i (next_event x).1) as (_ & _ & E & _). split; [done|]. intros j y.
  rewrite (sub_set t i x _ j Hx). destruct (decide (i = j)) as [->|Hne]; [intros [= <-]|by eauto]. right. exists x. split; [done|].
  unfold next_event, queue_full. destruct (ps_queue x) as [|r q] eqn:Eq; cbn; rewrite ?Eq; [done|].
  rewrite !bool_decide_eq_false. cbn. lia.
Qed.

Lemma loosened_detach t i : keys_ok t -> loosened t (detach i t).
Proof using Type. intros Hk. apply loosened_same; [apply rest_detach|]. intros j. by apply sub_detach. Qed.

Lemma serial_set t t' j p p' extra puts all : pt_publications t !! j = Some p -> pb_pc p <> Published ->
  pt_publications t' = <[j := p']> (pt_publications t) -> not_raised p' -> has_room t' p' -> owed p = extra ++ owed p' ->
  serial_inv t puts all -> serial_inv t' (puts ++ extra) all.
Proof using Type.
  intros Hj Hp Et Hr Hroom Ho [H1 H2 H3].
  assert (forall i q, pt_publications t !! i = Some q -> i <> j -> pb_pc q = Published) as Hothers.
  { intros i q Hq Hne. destruct (decide (pb_pc q = Published)) as [?|Hq']; [done|]. destruct Hne. by apply (H1 i j q p). }
  split; rewrite ?Et.
  - intros i k a b Ha Hb Hpa Hpb. assert (forall i q, <[j := p']> (pt_publications t) !! i = Some q -> pb_pc q <> Published -> i = j) as Hi.
    { intros i' q Hq Hpq. destruct (decide (i' = j)) as [?|Hne]; [done|]. rewrite list_lookup_insert_ne in Hq by done. destruct Hpq. by eapply Hothers. }
    by rewrite (Hi i a Ha Hpa), (Hi k b Hb Hpb).
  - intros i q Hq. destruct (decide (i = j)) as [->|Hne].
    + rewrite list_lookup_insert_eq in Hq by (by eapply lookup_lt_Some). injection Hq as <-. done.
    + rewrite list_lookup_insert_ne in Hq by done. pose proof (Hothers i q Hq Hne) as E. split; [intros k rest|intros k rest x]; by rewrite E.
  - assert (forall l : list publication, Forall (fun q => pb_pc q = Published) l -> l ≫= owed = []) as Hnil.
    { induction 1 as [|q l Hq _ IH]; [done|]. rewrite bind_cons, IH. unfold owed. by rewrite Hq. }
    assert (Forall (fun q => pb_pc q = Published) (take j (pt_publications t)) /\ Forall (fun q => pb_pc q = Published) (drop (S j) (pt_publications t))) as [Hb Ha].
    { split; apply Forall_lookup; intros i q Hq.
      - apply lookup_take_Some in Hq as [Hq Hlt]. apply (Hothers i); [done|lia].
      - rewrite lookup_drop in Hq. apply (Hothers _ q Hq). lia. }
    pose proof (lookup_lt_Some _ _ _ Hj) as Hlt. unfold all_owed in *. rewrite Et, insert_take_drop, bind_app, bind_cons, (Hnil _ Hb), (Hnil _ Ha) by done.
    rewrite H3, <- (take_drop_middle _ j p Hj), bind_app, bind_cons, (Hnil _ Hb), (Hnil _ Ha), Ho, !app_nil_l, !app_nil_r. by rewrite (assoc_L (++)).
Qed.

Lemma serial_publication j t replay taken puts all : stream_inv t replay taken puts all -> serial_inv t puts all ->
  serial_inv (publication_step j t) (puts ++ queued_by t (PublicationGoesOn j)) all.
Proof using Type.
  intros Hinv Hsl. unfold publication_step, queued_by. destruct (pt_publications t !! j) as [p|] eqn:Hj; [|by rewrite app_nil_r].
  destruct (sl_room _ _ _ Hsl j p Hj) as [Hr Hroom].
  assert (forall i rest, pb_pc p = AtQueueFull i rest \/ pb_pc p = AtQueueGet i rest \/ pb_pc p = AtQueuePut i rest ->
    serial_inv (match subscription_of t i with
        | Some x => let '(x, p) := enqueue_at p x in set_publication j p (set_subscription i x t)
        | None => set_publication j (p <| pb_pc := Visiting rest |>) t end)
      (puts ++ (if bool_decide (pb_pc p = AtQueuePut i rest) && (bool_decide (i = id) &&
                   match subscription_of t i with Some x => negb (queue_full x) | None => false end) then [pb_record p] else [])) all) as Hq.
  { intros i rest Hpc. assert (pb_pc p <> Published) as Hbusy by (by destruct Hpc as [E|[E|E]]; rewrite E).
    destruct (subscription_of t i) as [x|] eqn:Hx.
    2: { destruct (si_phone _ _ _ _ _ Hinv) as (y & Hy & _). assert (i <> id) as Hi by congruence.
      rewrite (bool_decide_false (i = id)), andb_false_r by done.
      eapply (serial_set t); [exact Hj|exact Hbusy|done|done|done| |done]. unfold owed. cbn -[app].
      destruct Hpc as [E|[E|E]]; rewrite E; by rewrite bool_decide_false. }
    assert (let '(x', p') := enqueue_at p x in not_raised p' /\
      (forall k rest, pb_pc p' = AtQueuePut k rest -> k = i /\ queue_full x' = false)) as He.
    { pose proof (si_bounded _ _ _ _ _ Hinv _ _ Hx) as Hb. unfold queue_bounded, queue_maxsize in Hb.
      unfold enqueue_at. destruct Hpc as [E|[E|E]]; rewrite E.
      - destruct (queue_full x) eqn:Ef; split; intros k l; cbn; try done. by intros [= <- <-].
      - split; intros k l; [done|]. intros [= <- <-]. split; [done|]. unfold drop_oldest, queue_full, queue_maxsize.
        destruct (ps_queue x) as [|o q] eqn:Eq; cbn; rewrite ?Eq; apply bool_decide_eq_false; cbn in *; lia.
      - rewrite put_payload_cases, (Hroom i rest x E Hx). by split. }
    assert (owed p = (if bool_decide (pb_pc p = AtQueuePut i rest) && (bool_decide (i = id) && negb (queue_full x)) then [pb_record p] else []) ++
      owed (enqueue_at p x).2) as Ho.
    { destruct (decide (i = id)) as [->|Hi].
      - destruct (si_phone _ _ _ _ _ Hinv) as (y & Hy & Hf & Hs & Hl). assert (y = x) as -> by congruence.
        pose proof (enqueue_at_phone p x taken puts id rest Hpc eq_refl Hf Hs Hl) as H. cbv zeta in H.
        rewrite (bool_decide_true (id = id)) by done. destruct (enqueue_at p x) as [x' p']. by destruct H as (_ & _ & _ & ->).
      - rewrite (bool_decide_false (i = id)), andb_false_r by done. symmetry. by apply (enqueue_at_other p x i rest). }
    destruct (enqueue_at p x) as [x' p']. cbn [snd] in Ho. destruct He as [He1 He2]. destruct (rest_set t i x') as (_ & _ & E & _).
    eapply (serial_set t); [exact Hj|exact Hbusy|cbn; by rewrite E|done| |exact Ho|done].
    intros k l y Hk Hy. destruct (He2 k l Hk) as [-> Hfull].
    change (subscription_of (set_publication j p' (set_subscription i x' t)) i) with (subscription_of (set_subscription i x' t) i) in Hy.
    rewrite (sub_set t i x x' i Hx), decide_True in Hy by done. by injection Hy as <-. }
  destruct p as [r m pc]. cbn [pb_pc pb_record pb_matched] in *.
  destruct pc as [[|i rest]|i rest|i rest|i rest| |i rest]; rewrite ?app_nil_r; [| | | |specialize (Hq i rest ltac:(auto))|done|done].
  - rewrite <- (app_nil_r puts). eapply (serial_set t); [exact Hj|done|done|done|done| |done]. unfold owed, due. cbn. by destruct (matches r s).
  - rewrite <- (app_nil_r puts). eapply (serial_set t); [exact Hj|done|done|..|done].
    + intros k l. cbn. by destruct (match subscription_of t i with Some x => _ | None => _ end).
    + intros k l x. cbn. by destruct (match subscription_of t i with Some x => _ | None => _ end).
    + unfold owed. cbn -[app]. rewrite due_cons. destruct (decide (i = id)) as [->|Hi].
      * destruct (si_phone _ _ _ _ _ Hinv) as (x & Hx & Hf & _). rewrite Hx, (same_matches x r Hf), bool_decide_true by done.
        destruct (matches r s); cbn -[app]; rewrite ?bool_decide_true by done; done.
      * rewrite (bool_decide_false (i = id)) by done. rewrite andb_false_r.
        destruct (match subscription_of t i with Some x => _ | None => _ end); cbn -[app]; rewrite ?(bool_decide_false (i = id)) by done; done.
  - specialize (Hq i rest ltac:(auto)). by rewrite app_nil_r in Hq.
  - specialize (Hq i rest ltac:(auto)). by rewrite app_nil_r in Hq.
  - by rewrite bool_decide_true in Hq.
Qed.

Lemma serial_publish i clock_ms t replay taken puts all : stream_inv t replay taken puts all ->
  Forall (fun p => pb_pc p = Published) (pt_publications t) -> serial_inv t puts all ->
  serial_inv (publish_start i clock_ms t) puts (all ++ offered_by t (Publishes i clock_ms)).
Proof using Type.
  intros Hinv Hall [H1 H2 H3]. pose proof (publish_owed i clock_ms _ _ _ _ _ Hinv) as Ho.
  assert (exists new, pt_publications (publish_start i clock_ms t) = pt_publications t ++ new /\
    (new = [] \/ exists r l, new = [mkPublication r 0 (Visiting l)])) as (new & En & Hn).
  { unfold publish_start. destruct (pt_pending t !! i) as [r|]; [|exists []; rewrite app_nil_r; by auto].
    destruct (is_expired r clock_ms); [exists []; cbn; rewrite app_nil_r; by auto|]. eexists. split; [done|]. eauto. }
  rewrite Forall_lookup in Hall.
  assert (forall k p, pt_publications (publish_start i clock_ms t) !! k = Some p ->
    pb_pc p = Published \/ k = length (pt_publications t) /\ exists l, pb_pc p = Visiting l) as Hp.
  { intros k p. rewrite En. intros [Hk|[Hle Hk]]%lookup_app_Some; [left; by eapply Hall|]. right.
    destruct Hn as [->|(r & l & ->)]; [done|]. apply list_lookup_singleton_Some in Hk as [Hk <-]. split; [lia|]. by exists l. }
  split.
  - intros a b p q Ha Hb Hpa Hpb. destruct (Hp a p Ha) as [?|[-> _]]; [done|]. by destruct (Hp b q Hb) as [?|[-> _]].
  - intros k p Hk. destruct (Hp k p Hk) as [E|[_ [l E]]]; (split; [intros a rest|intros a rest x]; by rewrite E).
  - rewrite Ho, H3. by rewrite (assoc_L (++)).
Qed.

Lemma phone_step_serial t replay taken puts all ev : of_others ev -> stream_inv t replay taken puts all ->
  match ev with Publishes _ _ => Forall (fun p => pb_pc p = Published) (pt_publications t) | _ => True end ->
  serial_inv t puts all -> serial_inv (phone_step s once t ev) (puts ++ queued_by t ev) (all ++ offered_by t ev).
Proof using Type.
  intros Ho Hinv Hone Hsl. pose proof (si_keys _ _ _ _ _ Hinv) as Hk.
  assert (forall t', pt_hub t' = pt_hub t -> pt_detached t' = pt_detached t -> pt_publications t' = pt_publications t ->
    loosened t t' /\ loosened t (close_stream id t')) as Hsame.
  { intros t' E1 E2 E3. assert (forall i, subscription_of t' i = subscription_of t i) as Es
      by (intros i; unfold subscription_of; by rewrite E1, E2).
    split; [by apply loosened_same|]. apply loosened_same; [unfold close_stream; etrans; [apply rest_detach|done]|].
    intros i. unfold close_stream. rewrite sub_detach; [apply Es|]. unfold keys_ok in *. cbn. by rewrite E1. }
  destruct ev as [now_ms disconnected| |alert clock_ms|i clock_ms|j|devices cameras session fresh clock_ms|other|other];
    cbn [phone_step of_others offered_by queued_by] in *; rewrite ?(app_nil_r puts), ?(app_nil_r all).
  - apply (serial_loosened t); [|done]. unfold generator_step.
    destruct (pt_phase t) as [|[|r rest]| | |]; try (by apply Hsame).
    + destruct once; by apply Hsame.
    + destruct (matches r s); [destruct once|]; by apply Hsame.
    + destruct disconnected; [by apply Hsame|]. destruct (subscription_of t id) as [x|] eqn:Hx; [|by apply Hsame].
      pose proof (loosened_next t id x Hx) as Hl. destruct (next_event x) as [x' payload]. exact Hl.
  - apply (serial_loosened t); [|done]. unfold stop_step. destruct (pt_phase t) as [|rest| | |]; by apply Hsame.
  - apply (serial_loosened t); [|done]. unfold accept_step.
    destruct (add_alert _ _ _ _) as [store [[r o]|e]]; repeat case_match; by apply loosened_same.
  - by eapply serial_publish.
  - by eapply serial_publication.
  - apply (serial_loosened t); [|done]. split; [done|]. intros i x. unfold subscription_of. cbn.
    destruct (decide (fresh = i)) as [->|Hne]; [rewrite dict_get_set; intros [= <-]; by left|rewrite dict_get_set_ne by done; by eauto].
  - apply (serial_loosened t); [|done]. by apply loosened_detach.
  - apply (serial_loosened t); [|done]. destruct (subscription_of t other) as [x|] eqn:Hx; [by apply loosened_next|by apply loosened_same].
Qed.

Lemma phone_run_serial evs : forall t replay taken puts all, Forall of_others evs -> stream_inv t replay taken puts all ->
  one_at_a_time t evs -> serial_inv t puts all -> serial_inv (phone_run s once t evs) (puts ++ queued t evs) (all ++ offered t evs).
Proof using Type.
  induction evs as [|ev evs IH]; intros t replay taken puts all Hev Hinv Hone Hsl; cbn; [by rewrite !app_nil_r|].
  apply Forall_cons in Hev as [He Hev]. destruct Hone as [Hone1 Hone]. destruct (phone_step_inv _ _ _ _ _ ev He Hinv) as [taken1 Hinv1].
  rewrite !(assoc_L (++)). eapply (IH _ _ taken1); [done|exact Hinv1|done|]. by eapply phone_step_serial.
Qed.

End Stream.

Lemma sublist_full {A} (l1 l2 : list A) : l1 `sublist_of` l2 -> length l1 = length l2 -> l1 = l2.
Proof.
  induction 1 as [|x l1 l2 _ IH|x l1 l2 H _]; cbn; intros E; [done|f_equal; apply IH; lia|]. apply sublist_length in H. lia.
Qed.

Lemma open_phone_stream_does h env device_id camera_device_id session_id fresh_id clock_ms h' s :
  open_phone_stream h env device_id camera_device_id session_id fresh_id clock_ms = (h', Ok s) ->
  ps_subscription_id s = fresh_id /\ ps_queue s = [] /\ ps_dropped_count s = 0 /\ ps_session_id s = session_id /\
  ph_subscriptions h' = dict_set fresh_id s (ph_subscriptions h).
Proof.
  unfold open_phone_stream. destruct (_ && _); [done|]. destruct (parse_phone_alert_subscriptions _); [|done]. by intros [= <- <-].
Qed.

(** The subscriptions a publication has still to hand its record to. *)
Definition unvisited (p : publication) : list string :=
  match pb_pc p with
  | Visiting rest => rest
  | AtQueueFull i rest | AtQueueGet i rest | AtQueuePut i rest | PublishRaised i rest => i :: rest
  | Published => []
  end.

Lemma unvisited_owed s p : ps_subscription_id s ∉ unvisited p -> owed s p = [].
Proof.
  unfold unvisited, owed. assert (forall rest, ps_subscription_id s ∉ rest -> due s (pb_record p) rest = []) as Hd.
  { intros rest Hn. unfold due. destruct (matches (pb_record p) s); [|done]. induction rest as [|i rest IH]; [done|].
    rewrite filter_cons, decide_False by set_solver. apply IH. set_solver. }
  destruct (pb_pc p) as [rest|i rest|i rest|i rest| |i rest]; intros Hn; [by apply Hd| | | |done|];
    (rewrite bool_decide_false by set_solver); apply Hd; set_solver.
Qed.

(** C36: what a phone receives, whatever the order in which its generator, the
    steps of the calls that accept and publish alerts, of any number of them
    at once, and the other phones interleave. Every matching alert whose
    publication starts while the phone is subscribed is put into its queue
    once, or its publication has not got there, or [queue.Full] ended it
    before. The phone is sent the recent alerts it matches, as they were when
    the generator started, and then, in the order they were put into the
    queue, those put there; none is missing but those still queued and those
    the queue of fifty dropped, oldest first and counted. The stream that has
    ended has left the hub; only one that is stopped before its first step
    sends nothing and stays there. When a publication starts only after the
    ones before have returned, none raises, and the alerts are put in the
    order in which their publications started. *)
Theorem phone_stream_exact h env device_id camera_device_id session_id fresh_id clock_ms h' s once t0 evs :
  open_phone_stream h env device_id camera_device_id session_id fresh_id clock_ms = (h', Ok s) ->
  NoDup (ph_subscriptions h).*1 -> bounded t0 -> Forall (fun p => fresh_id ∉ unvisited p) (pt_publications t0) ->
  pt_hub t0 = h' -> pt_phase t0 = NotStarted -> pt_sent t0 = [] ->
  Forall (of_others s) evs ->
  let t := phone_run s once t0 evs in
  let replay := replayed s once t0 evs in
  let all := offered s once t0 evs in
  let puts := queued s once t0 evs in
  all ≡ₚ puts ++ all_owed s t /\
  (exists taken x, subscription_of t fresh_id = Some x /\ (taken ++ ps_queue x) `sublist_of` puts /\
    Z.of_nat (length puts) = Z.of_nat (length (taken ++ ps_queue x)) + ps_dropped_count x /\
    (ps_dropped_count x = 0 -> taken ++ ps_queue x = puts) /\ (length (ps_queue x) <= queue_maxsize)%nat /\
    match pt_phase t with
    | NotStarted => pt_sent t = [] /\ taken = []
    | Replaying rest => pt_sent t ++ filter (fun r => matches r s = true) rest = replay /\ taken = []
    | Live => pt_sent t = replay ++ taken
    | Closed => pt_sent t `prefix_of` replay ++ taken /\ ~ in_hub t fresh_id
    | Abandoned => pt_sent t = [] /\ in_hub t fresh_id
    end) /\
  (Forall (fun p => pb_pc p = Published) (pt_publications t0) -> one_at_a_time s once t0 evs ->
   all = puts ++ all_owed s t /\ Forall not_raised (pt_publications t)).
Proof.
  intros Hopen Hn Hb Hfresh Hhub Hphase Hsent Hev t replay all puts. destruct (open_phone_stream_does _ _ _ _ _ _ _ _ _ Hopen) as (Eid & Eq & Ed & _ & Eh).
  assert (subscription_of t0 fresh_id = Some s) as Hs0 by (unfold subscription_of; by rewrite Hhub, Eh, dict_get_set).
  assert (all_owed s t0 = []) as Ho0.
  { unfold all_owed. induction Hfresh as [|p l Hp _ IH]; [done|]. rewrite bind_cons, IH, unvisited_owed by (by rewrite Eid). done. }
  assert (Hinv : stream_inv s t0 [] [] [] []).
  { split; [| |exists s|unfold phase_part; rewrite Hphase|].
    - unfold keys_ok. rewrite Hhub, Eh. by auto with gc.
    - done.
    - rewrite Eid, Eq, Ed. by split_and!.
    - split_and!; [done..|]. unfold in_hub. rewrite Hhub, Eh, Eid, dict_get_set. by eexists.
    - by rewrite Ho0. }
  destruct (phone_run_inv s once evs t0 [] [] [] [] Hev Hinv) as [taken [_ Hb' (x & Hx & _ & Hs & Hl) Hp Ha]]. rewrite !app_nil_l in *.
  fold puts in Hs, Hl. split; [exact Ha|]. split.
  - rewrite Eid in Hx. exists taken, x. do 3 (split; [done|]). split; [intros Hz; apply sublist_full; [done|lia]|].
    split; [by eapply Hb'|]. unfold phase_part in Hp. rewrite Eid in Hp. fold t in Hp. destruct (pt_phase t); naive_solver.
  - intros Hrest Hone. assert (serial_inv s t0 [] []) as Hsl.
    { rewrite Forall_lookup in Hrest. split; [|intros j p Hj; split; [intros i rest|intros i rest y]; by rewrite (Hrest _ _ Hj)|by rewrite Ho0].
      intros i j p q Hi _ Hp'. by rewrite (Hrest _ _ Hi) in Hp'. }
    destruct (phone_run_serial s once evs t0 [] [] [] [] Hev Hinv Hone Hsl) as [_ Hroom Hord]. rewrite !app_nil_l in Hord.
    split; [done|]. apply Forall_lookup. intros j p Hj. by destruct (Hroom j p Hj).
Qed.

(** Every matching alert that the store retains, and that has not expired,
    is replayed. *)
Lemma replay_complete s store h pending now_ms disconnected r : 0 < as_max_alerts store ->
  (length (as_records store) <= Z.to_nat (as_max_alerts store))%nat ->
  r ∈ as_records store -> is_expired r now_ms = false -> matches r s = true ->
  r ∈ replayed_by s (mkPhoneStream store h [] pending [] NotStarted []) (Generator now_ms disconnected).
Proof.
  intros Hm Hlen Hr He Hmr. unfold replayed_by. cbn. apply list_elem_of_filter. split; [done|]. rewrite recent_spec by done.
  rewrite take_ge; [|rewrite length_reverse; unfold active_records; pose proof (length_filter (fun r => is_expired r now_ms = false) (as_records store)); lia].
  apply elem_of_reverse. by apply list_elem_of_filter.
Qed.

(** *** Behaviour at the edges *)

Definition demo_hub : PhoneAlertDeliveryHub * result phone_error PhoneAlertSubscription :=
  open_phone_stream new_PhoneAlertDeliveryHub ∅ ["cam-1"] [] None "phone" 0.

Definition demo_phone : PhoneAlertSubscription := match demo_hub with (_, Ok s) => s | _ => mkPhoneAlertSubscription "" [] [] None 0 [] 0 0 None end.

Definition demo_stream : phone_stream := mkPhoneStream (mkProcessingAlertStore 200 [] ∅ 0 0 0) demo_hub.1 [] [] [] NotStarted [].

(** A publication to one matching phone that has room. *)
Definition publication_to_phone (j : nat) : list stream_event := replicate 4 (PublicationGoesOn j).

(** An alert accepted before the generator starts and published after. *)
Definition demo_race : list stream_event :=
  [Accepts (ex_alert "a" 10 5) 12; Generator 12 false; Publishes 0 12] ++ publication_to_phone 0 ++
  [Generator 12 false; Generator 12 false; Generator 12 false].

Lemma demo_stream_bounded : bounded demo_stream.
Proof.
  intros i x. unfold subscription_of.
  assert (ph_subscriptions (pt_hub demo_stream) = [("phone", demo_phone)]) as -> by (vm_compute; reflexivity).
  cbn [dict_get]. case_decide; [|done]. intros [= <-]. assert (ps_queue demo_phone = []) as E by (vm_compute; reflexivity).
  unfold queue_bounded. rewrite E. cbn. lia.
Qed.

Lemma phone_stream_exact_witness :
  let t := phone_run demo_phone false demo_stream demo_race in
  exists taken, taken `sublist_of` queued demo_phone false demo_stream demo_race /\
    pt_sent t = replayed demo_phone false demo_stream demo_race ++ taken /\ record_id <$> pt_sent t = ["a"; "a"].
Proof.
  destruct (phone_stream_exact new_PhoneAlertDeliveryHub ∅ ["cam-1"] [] None "phone" 0 demo_hub.1 demo_phone false
    demo_stream demo_race) as (_ & (taken & x & _ & Hs & _ & _ & _ & H) & _).
  - vm_compute. reflexivity.
  - constructor.
  - exact demo_stream_bounded.
  - constructor.
  - reflexivity.
  - reflexivity.
  - reflexivity.
  - repeat constructor.
  - exists taken.
    assert (pt_phase (phone_run demo_phone false demo_stream demo_race) = Live) as E by (vm_compute; reflexivity).
    rewrite E in H. split; [etrans; [|exact Hs]; apply sublist_inserts_r; reflexivity|]. split; [exact H|]. vm_compute. reflexivity.
Defined.

(** Two publications to a queue with room for one: both find room, and the
    second is ended by [queue.Full], its alert not put and not counted. *)
Definition demo_concurrent : list stream_event :=
  flat_map (fun n => [Accepts (ex_alert (pretty n) 10 5) 12; Publishes 0 12] ++ publication_to_phone n) (seq 0 49) ++
  [Accepts (ex_alert "a" 10 5) 12; Publishes 0 12; Accepts (ex_alert "b" 10 5) 12; Publishes 0 12;
   PublicationGoesOn 49; PublicationGoesOn 50; PublicationGoesOn 49; PublicationGoesOn 50; PublicationGoesOn 49; PublicationGoesOn 50].

Example concurrent_publication_lost :
  let t := phone_run demo_phone false demo_stream demo_concurrent in
  (pb_pc <$> pt_publications t !! 50%nat) = Some (PublishRaised "phone" []) /\
  record_id <$> all_owed demo_phone t = ["b"] /\
  (ps_dropped_count <$> subscription_of t "phone") = Some 0.
Proof. vm_compute. by split_and!. Qed.

(** An alert accepted by the server has no session, so that a phone that
    subscribes with a session only never receives one. *)
Lemma session_alone_matches_nothing h env camera_device_id session_id fresh_id clock_ms h' s alert now_ms :
  filter (fun item => truthy item = true) camera_device_id = [] ->
  open_phone_stream h env [] camera_device_id session_id fresh_id clock_ms = (h', Ok s) ->
  matches (alert_record alert now_ms) s = false.
Proof.
  intros Hc. unfold open_phone_stream. change (filter (fun item => truthy item = true) (@nil string)) with (@nil string). rewrite Hc.
  destruct (_ && _); [done|]. destruct (parse_phone_alert_subscriptions _) as [mapping|]; [|done]. intros [= _ <-].
  unfold matches. cbn. destruct session_id as [sid|]; cbn; [rewrite andb_false_r|]; cbn;
    (induction (al_camera_devices alert) as [|d l IH]; [done|]; cbn; by rewrite bool_decide_false by apply not_elem_of_nil).
Qed.

(** ** The versioned receiver *)

(** A request changes the receiver of its database only, as [receive] does,
    and nothing when the receiver is disabled. *)
Lemma relay_v2_route_exact enabled database_path databases received_at request databases' r :
  receive_relay_v2_alert enabled database_path databases received_at request = (databases', r) ->
  if enabled then
    let before := default new_receiver (databases !! database_path) in
    databases' = <[database_path := (receive before received_at request).1]> databases /\
    match r, (receive before received_at request).2 with
    | Ok res, Ok res0 => res = res0 <| rr_delivery_deadline_met := None |>
    | Raise (ReceiverFailed e), Raise e0 => e = e0 /\ (receive before received_at request).1 = before
    | _, _ => False
    end
  else databases' = databases /\ r = Raise NotFound.
Proof.
  unfold receive_relay_v2_alert. destruct enabled; cbn [negb]; [|by intros [= <- <-]].
  destruct (receive _ received_at request) as [r1 [res|e]] eqn:E; intros [= <- <-]; cbn; [done|]. split_and!; [done|done|].
  revert E. unfold receive. destruct (_ <=? 0); [by intros [= <-]|]. destruct (_ ≫= _) as [[? ?]|]; [done|by intros [= <-]].
Qed.
