(* ===== verification/Monitoring.v ===== *)
(** * Monitoring

    src/app/services/monitoring, and the routes that show it
    (src/app/api/routes/monitoring.py, debug.py, health.py): what the server
    says of its cameras, relays and synchronizer, read from StreamState.v,
    IngestGate.v, RelayClient.v, LiveClient.v and SyncService.v. The pages
    themselves are left out, and a clock is read once for each camera. The
    functions take one state of the cameras and one of the gate. The code
    holds no lock while it reads them, and the cameras it lists are the live
    objects, so a frame or a change of the gate that falls between its reads
    may be shown in part; the theorems are of calls that no such change
    interrupts. *)

From S2P Require Import Prelude Float64 Config SyncModels SyncService Database Frames StreamState FileSystem Reconciliation.
From S2P Require Import RelayClient LiveClient IngestGate.

Inductive monitoring_error :=
| MonitoringFloat (e : float_error)
| MonitoringClient (e : client_error)
| MonitoringHTTP (status_code : Z) (detail : string).

Definition STALE_THRESHOLD_MS : Z := 3000.

(** ** Rates *)

Definition estimate_rate (timestamps_ms : list Z) : result float_error float64 :=
  match timestamps_ms with
  | [] | [_] => Ok float_zero
  | first :: _ =>
      let elapsed_ms := Z.max (default first (last timestamps_ms) - first) 1 in
      int_truediv ((Z.of_nat (length timestamps_ms) - 1) * 1000) elapsed_ms
  end.

(** The clock is not asked: the window ends at the latest timestamp. *)
Definition estimate_capture_fps (camera : CameraStreamState) (window_ms : Z) : result float_error float64 :=
  match last (cam_recent_timestamps_ms camera) with
  | None => Ok float_zero
  | Some latest_timestamp_ms =>
      estimate_rate (filter (fun t => latest_timestamp_ms - t <= window_ms) (cam_recent_timestamps_ms camera))
  end.

Definition estimate_fps : CameraStreamState -> Z -> result float_error float64 := estimate_capture_fps.

Definition estimate_ingest_fps (camera : CameraStreamState) (current_ms window_ms : Z) : result float_error float64 :=
  estimate_rate (filter (fun t => current_ms - t <= window_ms) (cam_recent_received_at_ms camera)).

(** ** Cameras *)

Record CameraItem := mkCameraItem {
  ci_device_id : string;
  ci_connected : bool;
  ci_is_stale : bool;
  ci_status : string;
  ci_frame_count : Z;
  ci_latest_frame_id : option Z;
  ci_latest_timestamp : option Z;
  ci_latest_sequence : option Z;
  ci_latest_file_path : option string;
  ci_latest_content_type : option string;
  ci_latest_image_bytes : option Z;
  ci_latest_archive_state : option string;
  ci_latest_archive_error : option string;
  ci_last_received_at : option Z;
  ci_last_received_age_ms : option Z;
  ci_sequence_gap_count : Z;
  ci_estimated_fps : float64;
  ci_estimated_capture_fps : float64;
  ci_estimated_ingest_fps : float64;
}.

Definition window_30s : Z := 30000.

Definition serialize_camera_state (camera : CameraStreamState) (current_ms : Z) (grpc_active_device_ids : option (list string))
    (grpc_stream_closed_at_ms : option (list (string * Z))) : result float_error CameraItem :=
  let device_id := cam_device_id camera in
  let latest := cam_latest_frame camera in
  let closed_at_ms := closed ← grpc_stream_closed_at_ms; dict_get device_id closed in
  let is_grpc_camera := bool_decide (is_Some grpc_active_device_ids) || bool_decide (is_Some closed_at_ms) in
  let grpc_is_active := match grpc_active_device_ids with Some ids => bool_decide (device_id ∈ ids) | None => false end in
  let last_received_age_ms :=
    frame ← latest;
    let received := lf_received_at_ms frame in
    Some (match closed_at_ms with
          | Some closed => if is_grpc_camera && negb grpc_is_active then Z.max received closed else current_ms
          | None => current_ms
          end - received) in
  let connected := bool_decide (is_Some latest) && (negb is_grpc_camera || grpc_is_active) in
  let is_stale := connected && match last_received_age_ms with Some age => STALE_THRESHOLD_MS <? age | None => false end in
  let status := if connected && negb is_stale then "healthy" else if is_stale then "stale" else "disconnected" in
  fps ← estimate_capture_fps camera window_30s;
  capture_fps ← estimate_capture_fps camera window_30s;
  ingest_fps ← estimate_ingest_fps camera current_ms window_30s;
  Ok (mkCameraItem device_id connected is_stale status (cam_frame_count camera) (latest ≫= lf_frame_id) (lf_timestamp <$> latest)
        (latest ≫= lf_sequence) (latest ≫= lf_file_path) (lf_content_type <$> latest) (lf_image_bytes_size <$> latest)
        (lf_archive_state <$> latest) (latest ≫= lf_archive_error) (lf_received_at_ms <$> latest) last_received_age_ms
        (cam_sequence_gap_count camera) fps capture_fps ingest_fps).

(** The devices the gate knows. *)
Definition grpc_device_ids (u : gate_status) : list string :=
  gu_expected_device_ids u ++ gu_observed_device_ids u ++ gu_active_device_ids u ++ (gu_stream_closed_at_ms u).*1.

(** The item of a camera under the status of the gate. *)
Definition camera_item (u : gate_status) (camera : CameraStreamState) (current_ms : Z) : result float_error CameraItem :=
  serialize_camera_state camera current_ms
    (if bool_decide (cam_device_id camera ∈ grpc_device_ids u) then Some (gu_active_device_ids u) else None)
    (Some (gu_stream_closed_at_ms u)).

Definition camera_state_leb (x y : CameraStreamState) : bool := String.leb (cam_device_id x) (cam_device_id y).

(** [[f(x) for x in l]], the element [i] at [clock i]. *)
Fixpoint items_at {E A B} (f : A -> Z -> result E B) (clock : nat -> Z) (l : list A) : result E (list B) :=
  match l with
  | [] => Ok []
  | x :: l => y ← f x (clock 0%nat); ys ← items_at f (fun i => clock (S i)) l; Ok (y :: ys)
  end.

Definition list_camera_states (s : StreamState) (u : gate_status) (clock : nat -> Z) : result float_error (list CameraItem) :=
  items_at (camera_item u) clock (sort_by camera_state_leb (list_cameras s)).

Definition get_camera_state (device_id : string) (s : StreamState) (u : gate_status) (clock_ms : Z)
    : result float_error (option CameraItem) :=
  match get_camera s device_id with
  | None => Ok None
  | Some camera => item ← camera_item u camera clock_ms; Ok (Some item)
  end.

(** ** The latest frame *)

Definition latest_first (x y : Frame) : bool :=
  (fr_timestamp y <? fr_timestamp x) || ((fr_timestamp x =? fr_timestamp y) && (fr_id y <=? fr_id x)).

Definition get_latest_frame_from_db (db : database) (device_id : string) : option Frame :=
  head (sort_by latest_first (filter (fun x => fr_device_id x = device_id) (db_frames db))).

Definition get_latest_frame_path (db : database) (device_id : string) (s : StreamState) : option string :=
  match get_camera s device_id ≫= cam_latest_frame with
  | Some latest => lf_file_path latest
  | None => get_latest_frame_from_db db device_id ≫= fr_file_path
  end.

Definition latest_frame_file_exists (cwd : path) (sys : file_system) (db : database) (device_id : string) (s : StreamState) : bool :=
  match get_latest_frame_path db device_id s with Some p => is_file sys (resolve cwd p) | None => false end.

(** ** Relays and synchronizer *)

(** A status with the keys that are added to it. *)
Record RelayReport := mkRelayReport {
  rp_status : RelayStatus;
  rp_relay_mode : string;
  rp_selected : bool;
  rp_relay_v2 : option client_status;
  rp_last_frame_set_id : option Z;
}.

Definition get_relay_status {A} (relay : relay_service A) (relay_mode : string) (v2 : live_client) (state : client_state) (reconnect_count : Z)
    : result monitoring_error RelayReport :=
  match LiveClient.status v2 state reconnect_count with
  | Ok v2 => Ok (mkRelayReport (relay_status relay) relay_mode (bool_decide (relay_mode = "raw")) (Some v2) None)
  | Raise e => Raise (MonitoringClient e)
  end.

Definition get_frame_set_relay_status (relay : frame_set_relay) (relay_mode : string) : RelayReport :=
  let '(status, last_frame_set_id) := frame_set_relay_status relay in
  mkRelayReport status relay_mode (bool_decide (relay_mode = "frame_set")) None last_frame_set_id.

Definition get_grpc_ingest_status : ingest_gate -> option string -> gate_status := IngestGate.status.
Definition get_sync_status : StreamSyncService -> ServiceStatus := service_status.

Record FrameItem := mkFrameItem {
  fi_frame_id : option Z;
  fi_device_id : string;
  fi_timestamp_ms : Z;
  fi_sequence : option Z;
  fi_content_type : string;
  fi_image_size : Z;
  fi_file_path : option string;
  fi_source_session_id : option string;
  fi_camera_stream_id : option string;
  fi_source_frame_uid : option string;
  fi_content_digest : option string;
  fi_archive_state : string;
  fi_archive_error : option string;
}.

Record FrameSetItem := mkFrameSetItem {
  fx_frame_set_id : Z;
  fx_frame_set_uid : option string;
  fx_capture_session_id : option string;
  fx_capture_run_id : option string;
  fx_identity_mode : string;
  fx_manifest_digest : option string;
  fx_archive_state : string;
  fx_archive_error : option string;
  fx_anchor_timestamp_ms : Z;
  fx_max_delta_ms : Z;
  fx_span_ms : Z;
  fx_frames : list (string * FrameItem);
}.

Definition serialize_sync_frame_set (x : SynchronizedFrameSet) : FrameSetItem :=
  mkFrameSetItem (fs_frame_set_id x) (fs_frame_set_uid x) (fs_capture_session_id x) (fs_capture_run_id x) (fs_identity_mode x)
    (fs_manifest_digest x) (fs_archive_state x) (fs_archive_error x) (fs_anchor_timestamp_ms x) (fs_max_delta_ms x)
    (default (fs_max_delta_ms x) (fs_span_ms x))
    ((fun kf => (kf.1, let f := kf.2 in
      mkFrameItem (sf_frame_id f) (sf_device_id f) (sf_timestamp_ms f) (sf_sequence f) (sf_content_type f) (sf_image_size f)
        (sf_file_path f) (sf_source_session_id f) (sf_camera_stream_id f) (sf_source_frame_uid f) (sf_content_digest f)
        (sf_archive_state f) (sf_archive_error f))) <$> fs_frames x).

Definition list_recent_sync_frame_sets (s : StreamSyncService) : list FrameSetItem :=
  serialize_sync_frame_set <$> service_recent_frame_sets s.

(** ** Differences of timestamps *)

Record DeltaItem := mkDeltaItem { di_device_id : string; di_latest_timestamp : Z; di_delta_ms : Z }.

Record DeltaReport := mkDeltaReport {
  dr_base_device_id : option string;
  dr_base_timestamp : option Z;
  dr_items : list DeltaItem;
}.

(** The device and latest timestamp of the items that have one. *)
Definition with_timestamp (items : list CameraItem) : list (string * Z) :=
  omap (fun c => t ← ci_latest_timestamp c; Some (ci_device_id c, t)) items.

(** [max(..., key=...)]: the first of the greatest. *)
Definition later_of (best x : string * Z) : string * Z := if best.2 <? x.2 then x else best.

Definition timestamp_delta (items : list CameraItem) : DeltaReport :=
  match with_timestamp items with
  | [] => mkDeltaReport None None []
  | c :: cameras =>
      let base := foldl later_of c cameras in
      mkDeltaReport (Some base.1) (Some base.2) ((fun x => mkDeltaItem x.1 x.2 (x.2 - base.2)) <$> c :: cameras)
  end.

Definition get_latest_timestamp_delta (s : StreamState) (u : gate_status) (clock : nat -> Z) : result float_error DeltaReport :=
  items ← list_camera_states s u clock; Ok (timestamp_delta items).

(** ** Routes *)

(** The parts of a snapshot are read one after the other: each from the
    state there is then. *)
Record MonitoringSnapshot := mkMonitoringSnapshot {
  mn_cameras : list CameraItem;
  mn_grpc_ingest : gate_status;
  mn_relay : RelayReport;
  mn_frame_set_relay : RelayReport;
  mn_sync : ServiceStatus;
  mn_timestamp_delta : DeltaReport;
}.

Definition lift_float {A} (r : result float_error A) : result monitoring_error A :=
  match r with Ok x => Ok x | Raise e => Raise (MonitoringFloat e) end.

Definition build_monitoring_snapshot {A} (s : StreamState) (u : gate_status) (clock : nat -> Z)
    (ingest : gate_status) (relay : relay_service A) (relay_mode : string) (v2 : live_client) (state : client_state) (reconnect_count : Z)
    (relay_of_sets : frame_set_relay) (sync : StreamSyncService) (s' : StreamState) (u' : gate_status) (clock' : nat -> Z)
    : result monitoring_error MonitoringSnapshot :=
  cameras ← lift_float (list_camera_states s u clock);
  relay ← get_relay_status relay relay_mode v2 state reconnect_count;
  delta ← lift_float (get_latest_timestamp_delta s' u' clock');
  Ok (mkMonitoringSnapshot cameras ingest relay (get_frame_set_relay_status relay_of_sets relay_mode) (get_sync_status sync) delta).

(** The route of one camera, and of the image of its latest frame: the
    answer is the file at the path. *)
Definition get_camera_route (device_id : string) (s : StreamState) (u : gate_status) (clock_ms : Z) : result monitoring_error CameraItem :=
  item ← lift_float (get_camera_state device_id s u clock_ms);
  match item with Some item => Ok item | None => Raise (MonitoringHTTP 404 "Camera state not found") end.

Definition get_latest_frame (db : database) (device_id : string) (s : StreamState) : result monitoring_error string :=
  match get_latest_frame_path db device_id s with
  | Some file_path => Ok file_path
  | None => Raise (MonitoringHTTP 404 "Latest frame not found")
  end.

(** The events of the stream: one snapshot at least, and then one for every
    time the client is found connected. *)
Fixpoint monitoring_events {A} (snapshots : list A) (once : bool) (disconnected : list bool) : list A :=
  match snapshots with
  | [] => []
  | payload :: snapshots =>
      payload ::
      (if once then []
       else match disconnected with
            | false :: disconnected => monitoring_events snapshots once disconnected
            | _ => []
            end)
  end.

(** *** Health *)

Record readiness_answer := mkReadiness { ra_status_code : Z; ra_status : string; ra_database : string; ra_grpcIngest : string }.

(** [database_up]: [SELECT 1] does not raise. *)
Definition readiness (database_up : bool) (u : gate_status) : readiness_answer :=
  if negb database_up then mkReadiness 503 "OUT_OF_SERVICE" "DOWN" "DISABLED"
  else
    let grpcIngest := if gu_enabled u then (if gu_running u then "UP" else "DOWN") else "DISABLED" in
    let ready := negb (bool_decide (grpcIngest = "DOWN")) in
    mkReadiness (if ready then 200 else 503) (if ready then "UP" else "OUT_OF_SERVICE") "UP" grpcIngest.

(** ** A camera and its streams

    The gate's sets and dicts, seen from one device: it never streamed in
    this collection, it has so many open streams, or the last one ended at a
    time. *)

Inductive link := NeverStreamed | Streaming (streams : Z) | ClosedAt (closed_at_ms : Z).

#[export] Instance link_eq_dec : EqDecision link.
Proof. solve_decision. Defined.

(** The owner of the collection, its streams, and the links. *)
Record links := mkLinks { lk_owner : option string; lk_streams : Z; lk_of : string -> link }.

Definition no_links : links := mkLinks None 0 (fun _ => NeverStreamed).

Definition opened_link (l : link) : link := match l with Streaming n => Streaming (n + 1) | _ => Streaming 1 end.
Definition closed_link (ms : Z) (l : link) : link :=
  match l with Streaming n => if 1 <? n then Streaming (n - 1) else ClosedAt ms | _ => ClosedAt ms end.

Definition links_step (L : links) (ev : gate_event) : links :=
  match ev with
  | Acquired s =>
      match lk_owner L with
      | None => mkLinks (Some s) (lk_streams L + 1) (lk_of L)
      | Some owner =>
          if bool_decide (owner = s) then mkLinks (Some s) (lk_streams L + 1) (lk_of L)
          else if 0 <? lk_streams L then L
          else mkLinks (Some s) (lk_streams L + 1) (fun _ => NeverStreamed)
      end
  | Released s =>
      if bool_decide (lk_owner L = Some s) then mkLinks (lk_owner L) (Z.max 0 (lk_streams L - 1)) (lk_of L) else L
  | Marked x => mkLinks (lk_owner L) (lk_streams L) (fun d => if bool_decide (d = x) then opened_link (lk_of L d) else lk_of L d)
  | Closed ds ms => mkLinks (lk_owner L) (lk_streams L) (fun d => if bool_decide (d ∈ ds) then closed_link ms (lk_of L d) else lk_of L d)
  | Recorded _ _ | Asked _ _ | Sequenced => L
  end.

(** What the gate keeps of a device. *)
Definition device_link (g : ingest_gate) (d : string) (l : link) : Prop :=
  match l with
  | NeverStreamed => gt_active_device_stream_counts g !! d = None /\ gt_stream_closed_at_ms g !! d = None /\
                     (d ∉ gt_active_device_ids g) /\ (d ∉ gt_observed_device_ids g)
  | Streaming n => gt_active_device_stream_counts g !! d = Some n /\ 0 < n /\ gt_stream_closed_at_ms g !! d = None /\
                   d ∈ gt_active_device_ids g
  | ClosedAt ms => gt_active_device_stream_counts g !! d = None /\ gt_stream_closed_at_ms g !! d = Some ms /\
                   d ∉ gt_active_device_ids g
  end.

Record gate_links (g : ingest_gate) (L : links) : Prop := {
  gk_owner : gt_collection_capture_session_id g = lk_owner L;
  gk_streams : gt_active_authorized_stream_count g = lk_streams L;
  gk_links : forall d, device_link g d (lk_of L d);
}.

(** The fields it depends on. *)
Definition link_fields (g : ingest_gate) :=
  (gt_collection_capture_session_id g, gt_active_authorized_stream_count g, gt_active_device_stream_counts g,
   gt_stream_closed_at_ms g, gt_active_device_ids g, gt_observed_device_ids g).

Lemma gate_links_same g g' L : link_fields g' = link_fields g -> gate_links g L -> gate_links g' L.
Proof.
  unfold link_fields. intros [= E1 E2 E3 E4 E5 E6] [H1 H2 H3]. split; [congruence|congruence|].
  intros d. unfold device_link. rewrite E3, E4, E5, E6. apply H3.
Qed.

(** One device closes. *)
Lemma device_closed_link ms x g d l : device_link g d l -> device_link (device_closed ms x g) d (if bool_decide (d = x) then closed_link ms l else l).
Proof.
  intros H. unfold device_closed. cbv zeta. case_bool_decide as Hx; subst.
  - destruct l as [|n|t]; cbn in H |- *.
    + destruct H as (-> & H2 & H3 & H4). change (0 <? default 0 None - 1) with false. cbn. rewrite lookup_delete_eq, lookup_insert_eq. split_and!; [done|done|set_solver].
    + destruct H as (E & Hn & H3 & H4). rewrite E. cbn. destruct (Z.ltb_spec 0 (n - 1)) as [Hl|Hl].
      * rewrite (proj2 (Z.ltb_lt 1 n)) by lia. cbn. rewrite lookup_insert_eq. split_and!; [done|lia|done|done].
      * rewrite (proj2 (Z.ltb_ge 1 n)) by lia. cbn. rewrite lookup_delete_eq, lookup_insert_eq. split_and!; [done|done|set_solver].
    + destruct H as (-> & H2 & H3). change (0 <? default 0 None - 1) with false. cbn. rewrite lookup_delete_eq, lookup_insert_eq. split_and!; [done|done|set_solver].
  - unfold device_link. destruct (0 <? _); cbn; rewrite ?lookup_insert_ne, ?lookup_delete_ne by done; destruct l; cbn in H |- *; set_solver.
Qed.

Lemma devices_closed_link ms l g d k : NoDup l -> device_link g d k ->
  device_link (foldr (device_closed ms) g l) d (if bool_decide (d ∈ l) then closed_link ms k else k).
Proof.
  induction l as [|x l IH]; intros Hnd Hk; cbn [foldr]; [by rewrite bool_decide_false by apply not_elem_of_nil|].
  apply NoDup_cons in Hnd as [Hx Hnd]. specialize (IH Hnd Hk). apply (device_closed_link ms x) in IH.
  destruct (decide (d = x)) as [->|Hne].
  - rewrite (bool_decide_false (x ∈ l)), bool_decide_true in IH by done. by rewrite bool_decide_true by left.
  - rewrite (bool_decide_false (d = x)) in IH by done. erewrite bool_decide_ext; [exact IH|]. rewrite elem_of_cons. naive_solver.
Qed.

Lemma allow_fields g d t : link_fields (_allow_ingest g d t).1 = link_fields g.
Proof. unfold _allow_ingest, _open_gate_locked. by repeat case_match. Qed.

(** Every operation of the gate moves the links as [links_step] says. *)
Lemma gate_step_links g L ev : gate_links g L -> gate_links (gate_step g ev) (links_step L ev).
Proof.
  intros Hg. destruct Hg as [H1 H2 H3]. destruct ev as [s|s|x|x t|x t| |ds ms]; cbn [gate_step links_step].
  - unfold _acquire_authorized_collection. cbv zeta. rewrite <- H1, <- H2.
    destruct (gt_collection_capture_session_id g) as [o|] eqn:Eo; [case_bool_decide; [|destruct (0 <? _)]|];
      cbn [fst]; split; cbn; try rewrite Eo; try rewrite H2; try lia; try congruence; try exact H3. intros d. cbn. by split_and!.
  - unfold _release_authorized_collection. rewrite <- H1. case_bool_decide; split; cbn; try (by rewrite ?H2); done.
  - split; [done|done|]. intros d. cbn [lk_of]. specialize (H3 d). unfold _mark_device_active. case_bool_decide as Hd; subst.
    + destruct (lk_of L x) as [|n|t]; cbn in H3 |- *; rewrite lookup_insert_eq, lookup_delete_eq;
        [destruct H3 as (-> & _)|destruct H3 as (-> & ? & _)|destruct H3 as (-> & _)]; cbn; split_and!; try done; try lia; set_solver.
    + unfold device_link. cbn. rewrite lookup_insert_ne, lookup_delete_ne by done. destruct (lk_of L d); cbn in H3; set_solver.
  - eapply gate_links_same; [|by split]. unfold _record_device_timestamp. by repeat case_match.
  - eapply gate_links_same; [apply allow_fields|by split].
  - by split.
  - unfold _mark_stream_closed. case_bool_decide as He.
    { subst. split; [done|done|]. intros d. cbn. by rewrite bool_decide_false by apply not_elem_of_empty. }
    eapply gate_links_same; [unfold stop_if_missing; by repeat case_match|].
    destruct (devices_closed_same ms (elements ds) g) as [E1 E2]. split; [by rewrite E2|by rewrite E1|].
    intros d. cbn [lk_of]. pose proof (devices_closed_link ms (elements ds) g d _ (NoDup_elements ds) (H3 d)) as Hd.
    erewrite bool_decide_ext; [exact Hd|]. symmetry. apply elem_of_elements.
Qed.

Lemma gate_step_expected g ev : gt_expected_device_ids (gate_step g ev) = gt_expected_device_ids g.
Proof.
  destruct ev as [s|s|x|x t|x t| |ds ms]; cbn [gate_step]; try done.
  - unfold _acquire_authorized_collection. by repeat case_match.
  - unfold _release_authorized_collection. by case_bool_decide.
  - unfold _record_device_timestamp. by repeat case_match.
  - unfold _allow_ingest, _open_gate_locked. by repeat case_match.
  - unfold _mark_stream_closed. case_bool_decide; [done|].
    trans (gt_expected_device_ids (foldr (device_closed ms) g (elements ds))); [unfold stop_if_missing; by repeat case_match|].
    induction (elements ds) as [|y l IH]; [done|]. cbn. rewrite <- IH. unfold device_closed. cbv zeta. by destruct (0 <? _).
Qed.

(** *** The status *)

Lemma sorted_items_get (m : gmap string Z) d : dict_get d (sorted_items m) = m !! d.
Proof.
  unfold sorted_items. set (leb := fun x y : string * Z => String.leb x.1 y.1).
  assert (NoDup (sort_by leb (map_to_list m)).*1) as Hn by (rewrite sort_by_perm; apply NoDup_fst_map_to_list).
  destruct (m !! d) as [t|] eqn:E.
  - apply dict_elem_get; [done|]. by rewrite elem_of_sort_by, elem_of_map_to_list.
  - apply dict_get_None. intros ([k t] & -> & Hin)%list_elem_of_fmap. rewrite elem_of_sort_by, elem_of_map_to_list in Hin. cbn in E. congruence.
Qed.

Lemma sorted_ids_elem ids d : d ∈ sorted_ids ids <-> d ∈ ids.
Proof. unfold sorted_ids. by rewrite elem_of_sort_by, elem_of_elements. Qed.

Lemma grpc_device_ids_elem g b L d : gate_links g L ->
  d ∈ grpc_device_ids (IngestGate.status g b) <-> d ∈ gt_expected_device_ids g \/ lk_of L d <> NeverStreamed.
Proof.
  intros [_ _ H]. specialize (H d). unfold grpc_device_ids. cbn. rewrite !elem_of_app, !sorted_ids_elem.
  assert (d ∈ (sorted_items (gt_stream_closed_at_ms g)).*1 <-> is_Some (gt_stream_closed_at_ms g !! d)) as ->.
  { rewrite <- sorted_items_get. destruct (dict_get d _) as [t|] eqn:E; [|apply dict_get_None in E; split; [done|by intros []]].
    apply dict_get_elem in E. split; [done|]. intros _. apply list_elem_of_fmap. by exists (d, t). }
  destruct (lk_of L d); cbn in H.
  - destruct H as (_ & -> & ? & ?). split; [|naive_solver]. intros [?|[?|[?|[]]]]; naive_solver.
  - naive_solver.
  - destruct H as (_ & -> & _). split; [naive_solver|]. intros _. right. right. right. eauto.
Qed.

(** ** A history of the server

    The operations of the gate and the frames that reach the stream state, in
    any order. *)

Inductive monitor_event := OfGate (ev : gate_event) | Updated (latest : StreamFrameState).

Definition monitor_step (gs : ingest_gate * StreamState) (ev : monitor_event) : ingest_gate * StreamState :=
  let '(g, s) := gs in
  match ev with
  | OfGate ev => (gate_step g ev, s)
  | Updated f =>
      (g, (update_frame s (lf_frame_id f) (lf_device_id f) (lf_timestamp f) (lf_sequence f) (lf_file_path f) (lf_content_type f)
             (lf_image_bytes_size f) (Some (lf_received_at_ms f)) (lf_archive_state f) (lf_archive_error f) 0).1)
  end.

Definition monitor_run : ingest_gate * StreamState -> list monitor_event -> ingest_gate * StreamState := foldl monitor_step.

Definition of_gate (evs : list monitor_event) : list gate_event := omap (fun ev => match ev with OfGate ev => Some ev | _ => None end) evs.
Definition updates (evs : list monitor_event) : list StreamFrameState := omap (fun ev => match ev with Updated f => Some f | _ => None end) evs.

(** The frames of a device, and its link, by the history alone. *)
Definition frames_of (d : string) (evs : list monitor_event) : list StreamFrameState := filter (fun f => lf_device_id f = d) (updates evs).
Definition link_after (d : string) (evs : list monitor_event) : link := lk_of (foldl links_step no_links (of_gate evs)) d.

Lemma feed_snoc frames : forall camera f, feed camera (frames ++ [f]) = update_camera (feed camera frames) f.
Proof. induction frames as [|x l IH]; intros camera f; cbn; [done|]. apply IH. Qed.

Lemma feed_device frames : forall camera, cam_device_id (feed camera frames) = cam_device_id camera.
Proof. induction frames as [|x l IH]; intros camera; cbn; [done|]. by rewrite IH. Qed.

(** The state has one entry for each device that sent a frame: its frames,
    fed to a new record. *)
Record cameras_ok (s : StreamState) (evs : list monitor_event) : Prop := {
  cm_nodup : NoDup s.*1;
  cm_get : forall d, dict_get d s = match frames_of d evs with [] => None | frames => Some (feed (new_CameraStreamState d) frames) end;
}.

Lemma frames_of_snoc d evs f : frames_of d (evs ++ [Updated f]) = frames_of d evs ++ (if decide (lf_device_id f = d) then [f] else []).
Proof. unfold frames_of, updates. rewrite omap_app, filter_app. f_equal. Qed.

Lemma update_frame_ok g s evs f : cameras_ok s evs -> cameras_ok (monitor_step (g, s) (Updated f)).2 (evs ++ [Updated f]).
Proof.
  intros [Hn Hg]. cbn. destruct f as [i dev t sq p ct n r st er]. cbn. split; [by apply dict_set_NoDup|].
  intros d. rewrite frames_of_snoc. cbn. case_decide as Hd.
  - subst. rewrite dict_get_set, Hg. destruct (frames_of d evs) as [|x l] eqn:E; [done|].
    change (default (new_CameraStreamState d) (Some (feed (new_CameraStreamState d) (x :: l)))) with (feed (new_CameraStreamState d) (x :: l)).
    rewrite <- feed_snoc. done.
  - rewrite dict_get_set_ne, app_nil_r by done. apply Hg.
Qed.

Lemma monitor_run_ok evs g : gate_links g no_links ->
  let gs := monitor_run (g, []) evs in
  gate_links gs.1 (foldl links_step no_links (of_gate evs)) /\ gt_expected_device_ids gs.1 = gt_expected_device_ids g /\ cameras_ok gs.2 evs.
Proof.
  intros Hg. cbv zeta. induction evs as [|ev evs IH] using rev_ind; [split_and!; [done|done|split; [constructor|done]]|].
  unfold monitor_run. rewrite foldl_app. cbn [foldl]. change (foldl monitor_step (g, []) evs) with (monitor_run (g, []) evs).
  destruct (monitor_run (g, []) evs) as [g1 s1]. cbn [fst snd] in IH. destruct IH as (H1 & H2 & H3).
  unfold of_gate. rewrite omap_app, foldl_app. fold (of_gate evs). destruct ev as [ev|f]; cbn [monitor_step fst snd omap list_omap foldl].
  - split_and!; [by apply gate_step_links|by rewrite gate_step_expected|]. destruct H3 as [Hn Hc]. split; [done|].
    intros d. unfold frames_of, updates. rewrite omap_app, filter_app, app_nil_r. apply Hc.
  - split_and!; [done|done|]. by apply (update_frame_ok g1).
Qed.

Lemma configured_links bind enabled count ids : gate_links (IngestGate.configure bind enabled count ids) no_links.
Proof. split; [done|done|]. intros d. cbn. by split_and!. Qed.

(** ** Rates are always given *)

Lemma estimate_rate_ok l : (length l <= 300)%nat -> exists x, estimate_rate l = Ok x.
Proof.
  intros Hl. unfold estimate_rate. destruct l as [|a [|b l]]; [eauto|eauto|].
  destruct (int_truediv_ok ((Z.of_nat (length (a :: b :: l)) - 1) * 1000) (Z.max (default a (last (a :: b :: l)) - a) 1)) as (x & -> & _);
    [|lia|eauto]. cbn [length] in *. pose proof (Z.pow_le_mono_r 2 30 900 ltac:(lia) ltac:(lia)). change (2 ^ 30) with 1073741824 in *. lia.
Qed.

Lemma filter_deque_short (P : Z -> Prop) `{forall t, Decision (P t)} l : (length (filter P (deque_trim recent_maxlen l)) <= 300)%nat.
Proof. etrans; [apply length_filter|]. etrans; [apply deque_trim_length|]. unfold recent_maxlen. lia. Qed.

Lemma rates_ok d frames now_ms : let camera := feed (new_CameraStreamState d) frames in
  exists x y, estimate_capture_fps camera window_30s = Ok x /\ estimate_ingest_fps camera now_ms window_30s = Ok y.
Proof.
  cbv zeta. destruct (feed_spec d frames) as (_ & _ & Et & Er & _). unfold estimate_capture_fps, estimate_ingest_fps. rewrite Et, Er.
  destruct (estimate_rate_ok (filter (fun t => now_ms - t <= window_30s) (deque_trim recent_maxlen (lf_received_at_ms <$> frames)))) as [y ->];
    [apply filter_deque_short|].
  destruct (last _) as [m|]; [|by exists float_zero, y].
  destruct (estimate_rate_ok (filter (fun t => m - t <= window_30s) (deque_trim recent_maxlen (lf_timestamp <$> frames)))) as [x ->];
    [apply filter_deque_short|]. by exists x, y.
Qed.

(** ** What is shown of a camera *)

Lemma items_at_ok {E A B} (f : A -> Z -> result E B) l : forall clock, (forall x t, x ∈ l -> exists y, f x t = Ok y) ->
  exists ys, items_at f clock l = Ok ys /\ length ys = length l /\ forall i y, ys !! i = Some y -> exists x, l !! i = Some x /\ f x (clock i) = Ok y.
Proof.
  induction l as [|x l IH]; intros clock H; [by exists []|]. cbn [items_at].
  destruct (H x (clock 0%nat)) as [y Hy]; [by left|]. destruct (IH (fun i => clock (S i))) as (ys & Hys & Hlen & Hall); [by intros; apply H; right|].
  exists (y :: ys). rewrite Hy, Hys. cbn. split_and!; [done|lia|]. intros [|i] z; [intros [= <-]; by exists x|apply Hall].
Qed.

(** An item, from the frames of the camera, its link and the clock. *)
Definition connected_by (expected : bool) (l : link) : bool :=
  match l with NeverStreamed => negb expected | Streaming _ => true | ClosedAt _ => false end.

Definition age_by (l : link) (received_at_ms now_ms : Z) : Z :=
  match l with ClosedAt t => Z.max received_at_ms t - received_at_ms | _ => now_ms - received_at_ms end.

Definition shows (expected : bool) (l : link) (frames : list StreamFrameState) (now_ms : Z) (item : CameraItem) : Prop :=
  exists f, last frames = Some f /\
    let age := age_by l (lf_received_at_ms f) now_ms in
    let connected := connected_by expected l in
    ci_connected item = connected /\ ci_is_stale item = connected && (3000 <? age) /\
    ci_status item = (if connected then if 3000 <? age then "stale" else "healthy" else "disconnected") /\
    ci_last_received_age_ms item = Some age /\ ci_last_received_at item = Some (lf_received_at_ms f) /\
    ci_frame_count item = Z.of_nat (length frames) /\ ci_latest_timestamp item = Some (lf_timestamp f) /\
    ci_latest_frame_id item = lf_frame_id f /\ ci_latest_sequence item = lf_sequence f /\ ci_latest_file_path item = lf_file_path f /\
    ci_latest_archive_state item = Some (lf_archive_state f).

Lemma camera_item_shows g b evs d frames now_ms : gate_links g (foldl links_step no_links (of_gate evs)) -> frames <> [] ->
  exists item, camera_item (IngestGate.status g b) (feed (new_CameraStreamState d) frames) now_ms = Ok item /\ ci_device_id item = d /\
    shows (bool_decide (d ∈ gt_expected_device_ids g)) (link_after d evs) frames now_ms item.
Proof.
  intros Hg Hf. unfold camera_item, serialize_camera_state. rewrite feed_device. cbn [cam_device_id new_CameraStreamState].
  destruct (rates_ok d frames now_ms) as (x & y & -> & ->). destruct (feed_spec d frames) as (Ec & El & _). rewrite Ec, El.
  destruct (last frames) as [f|] eqn:Ef; [|by apply last_None in Ef]. cbn [result_bind mbind].
  eexists. split; [reflexivity|]. split; [done|]. exists f. split; [done|].
  pose proof (grpc_device_ids_elem g b _ d Hg) as Hd. pose proof (gk_links _ _ Hg d) as Hl. fold (link_after d evs) in Hd, Hl.
  unfold STALE_THRESHOLD_MS.
  cbn [mbind option_bind fmap option_fmap option_map ci_connected ci_is_stale ci_status ci_last_received_age_ms ci_last_received_at
    ci_frame_count ci_latest_timestamp ci_latest_frame_id ci_latest_sequence ci_latest_file_path ci_latest_archive_state].
  change (gu_stream_closed_at_ms (IngestGate.status g b)) with (sorted_items (gt_stream_closed_at_ms g)). rewrite sorted_items_get.
  change (gu_active_device_ids (IngestGate.status g b)) with (sorted_ids (gt_active_device_ids g)).
  rewrite (bool_decide_true (is_Some (Some f))) by done. cbn [andb].
  assert (bool_decide (d ∈ sorted_ids (gt_active_device_ids g)) = match link_after d evs with Streaming _ => true | _ => false end) as Ha.
  { destruct (link_after d evs); cbn in Hl; [apply bool_decide_false|apply bool_decide_true|apply bool_decide_false]; rewrite sorted_ids_elem; tauto. }
  assert (bool_decide (d ∈ grpc_device_ids (IngestGate.status g b)) =
          match link_after d evs with NeverStreamed => bool_decide (d ∈ gt_expected_device_ids g) | _ => true end) as Hk.
  { destruct (link_after d evs); [apply bool_decide_ext|apply bool_decide_true|apply bool_decide_true]; rewrite Hd; naive_solver. }
  rewrite Hk. destruct (link_after d evs) as [|n|t]; cbn in Hl |- *.
  - destruct Hl as (_ & -> & _ & _). destruct (bool_decide (d ∈ gt_expected_device_ids g)); cbn; rewrite ?Ha; cbn; split_and!; try done.
    by destruct (3000 <? _).
  - destruct Hl as (_ & _ & -> & _). rewrite Ha. cbn. split_and!; try done. by destruct (3000 <? _).
  - destruct Hl as (_ & -> & _). rewrite Ha. cbn. by split_and!.
Qed.

Lemma cameras_listed s evs c : cameras_ok s evs -> c ∈ sort_by camera_state_leb (list_cameras s) <->
  frames_of (cam_device_id c) evs <> [] /\ c = feed (new_CameraStreamState (cam_device_id c)) (frames_of (cam_device_id c) evs).
Proof.
  intros [Hn Hg]. rewrite elem_of_sort_by. unfold list_cameras. rewrite list_elem_of_fmap. split.
  - intros ([k x] & -> & Hin). cbn. apply dict_elem_get in Hin; [|done]. rewrite Hg in Hin.
    destruct (frames_of k evs) as [|f l] eqn:E; [done|]. injection Hin as <-. rewrite feed_device. cbn. by rewrite E.
  - intros [Hf Hc]. exists (cam_device_id c, c). split; [done|]. apply dict_get_elem. rewrite Hg.
    destruct (frames_of (cam_device_id c) evs) eqn:E; [done|]. by rewrite Hc at 2.
Qed.

Lemma cameras_nodup s evs : cameras_ok s evs -> NoDup (cam_device_id <$> sort_by camera_state_leb (list_cameras s)).
Proof.
  intros [Hn Hg]. rewrite sort_by_perm. unfold list_cameras. rewrite <- list_fmap_compose.
  replace (cam_device_id ∘ snd <$> s) with s.*1; [done|]. apply list_fmap_ext. intros i [k x] Hi. cbn.
  apply list_elem_of_lookup_2, dict_elem_get in Hi; [|done]. rewrite Hg in Hi. destruct (frames_of k evs); [done|].
  injection Hi as <-. by rewrite feed_device.
Qed.

Lemma cameras_sorted s : StronglySorted (fun x y => String.leb x y = true) (cam_device_id <$> sort_by camera_state_leb (list_cameras s)).
Proof.
  assert (StronglySorted (le_by camera_state_leb) (sort_by camera_state_leb (list_cameras s))) as H.
  { apply sort_by_sorted; unfold camera_state_leb; [intros; apply string_leb_total|intros x y z; apply string_leb_trans]. }
  induction H as [|x l _ IH Hx]; cbn; constructor; [done|]. by apply Forall_fmap.
Qed.

(** C37: however the streams of the devices, the owners of the collection and
    the frames interleaved before the call, and if none of them changes
    anything during it, the list of cameras is given, in the order of the
    devices, one item for each that ever sent a frame. The item counts its
    frames and shows the last one. It is connected if the device never
    streamed in the present collection and is not expected, or has an open
    stream; then it is stale when the last frame came more than three seconds
    ago. It is disconnected, with the age it had at its end, after its last
    stream ended. The item of a single camera is the same. *)
Theorem camera_states_exact bind enabled count ids evs runtime_bind clock :
  let g0 := IngestGate.configure bind enabled count ids in
  let '(g, s) := monitor_run (g0, []) evs in
  let u := IngestGate.status g runtime_bind in
  exists items, list_camera_states s u clock = Ok items /\
    StronglySorted (fun x y => String.leb x y = true) (ci_device_id <$> items) /\ NoDup (ci_device_id <$> items) /\
    (forall d, d ∈ ci_device_id <$> items <-> frames_of d evs <> []) /\
    (forall i item, items !! i = Some item ->
       let d := ci_device_id item in
       shows (bool_decide (d ∈ gt_expected_device_ids g0)) (link_after d evs) (frames_of d evs) (clock i) item /\
       get_camera_state d s u (clock i) = Ok (Some item)).
Proof.
  cbv zeta. pose proof (monitor_run_ok evs _ (configured_links bind enabled count ids)) as H. cbv zeta in H.
  destruct (monitor_run _ evs) as [g s]. cbn [fst snd] in H. destruct H as (Hg & He & Hs).
  assert (Hone : forall c t, c ∈ sort_by camera_state_leb (list_cameras s) ->
    exists item, camera_item (IngestGate.status g runtime_bind) c t = Ok item /\ ci_device_id item = cam_device_id c /\
      shows (bool_decide (cam_device_id c ∈ gt_expected_device_ids g)) (link_after (cam_device_id c) evs) (frames_of (cam_device_id c) evs) t item).
  { intros c t [Hf Hc]%(cameras_listed s evs); [|done]. destruct (camera_item_shows g runtime_bind evs (cam_device_id c) _ t Hg Hf) as (item & Hi & H).
    rewrite <- Hc in Hi. eauto. }
  unfold list_camera_states.
  destruct (items_at_ok (camera_item (IngestGate.status g runtime_bind)) (sort_by camera_state_leb (list_cameras s)) clock) as (items & Hitems & Hlen & Hall).
  { intros c t Hc. destruct (Hone c t Hc) as (item & Hi & _). eauto. }
  exists items. split; [exact Hitems|].
  assert (Hids : ci_device_id <$> items = cam_device_id <$> sort_by camera_state_leb (list_cameras s)).
  { apply list_eq_same_length with (length items); [by rewrite !length_fmap, Hlen|by rewrite length_fmap|].
    intros i x y _ Hx Hy. apply list_lookup_fmap_Some in Hx as (item & -> & Hi). apply list_lookup_fmap_Some in Hy as (c & -> & Hc).
    destruct (Hall i item Hi) as (c' & Hc' & E). assert (c' = c) as -> by congruence.
    destruct (Hone c (clock i)) as (item' & E' & Hd & _); [by eapply list_elem_of_lookup_2|]. congruence. }
  rewrite Hids. split; [apply cameras_sorted|]. split; [by apply (cameras_nodup s evs)|]. split.
  - intros d. rewrite list_elem_of_fmap. split; [intros (c & -> & [Hf _]%(cameras_listed s evs)); done|]. intros Hf.
    exists (feed (new_CameraStreamState d) (frames_of d evs)). rewrite feed_device. split; [done|]. apply (cameras_listed s evs); [done|].
    by rewrite feed_device.
  - intros i item Hi. destruct (Hall i item Hi) as (c & Hc & E). apply list_elem_of_lookup_2 in Hc.
    destruct (Hone c (clock i) Hc) as (item' & E' & Hd & Hsh). assert (item' = item) as -> by congruence. rewrite Hd, <- He. split; [done|].
    apply (cameras_listed s evs) in Hc as [Hf Hc]; [|done]. unfold get_camera_state, get_camera. rewrite (cm_get _ _ Hs).
    destruct (frames_of (cam_device_id c) evs) as [|f l] eqn:Ef; [done|]. rewrite <- Hc, E. done.
Qed.

(** A camera whose stream ended is shown connected again, and then stale, as
    soon as another session takes the collection over. *)
Example takeover_forgets_disconnection :
  let frame := mkStreamFrameState None "cam-1" 1000 None None "image/jpeg" 3 1000 "ARCHIVE_PENDING" None in
  let evs := [OfGate (Acquired "s1"); OfGate (Marked "cam-1"); Updated frame; OfGate (Closed {["cam-1"]} 2000); OfGate (Released "s1")] in
  let shown evs := let '(g, s) := monitor_run (IngestGate.configure "" true None [], []) evs in
    match list_camera_states s (IngestGate.status g None) (fun _ => 9000) with
    | Ok items => (fun i => (ci_connected i, ci_status i, ci_last_received_age_ms i)) <$> items | Raise _ => [] end in
  shown evs = [(false, "disconnected", Some 1000)] /\
  shown (evs ++ [OfGate (Acquired "s2")]) = [(true, "stale", Some 8000)].
Proof. vm_compute. done. Qed.

(** ** Differences *)

Lemma foldl_later l : forall c, let base := foldl later_of c l in
  base ∈ c :: l /\ Forall (fun x => x.2 <= base.2) (c :: l).
Proof.
  cbv zeta. induction l as [|x l IH]; intros c; cbn [foldl]; [split; [by left|by repeat constructor]|].
  destruct (IH (later_of c x)) as [H1 H2]. apply Forall_cons in H2 as [H2 H3]. unfold later_of in *. destruct (Z.ltb_spec c.2 x.2).
  - split; [set_solver|]. repeat constructor; [lia|lia|done].
  - split; [set_solver|]. repeat constructor; [lia|lia|done].
Qed.

(** The base is the latest timestamp, no difference is positive, and the one
    of the base is zero. *)
Lemma timestamp_delta_exact items : let r := timestamp_delta items in
  (fun x => (di_device_id x, di_latest_timestamp x)) <$> dr_items r = with_timestamp items /\
  (dr_items r = [] <-> dr_base_timestamp r = None) /\
  forall base, dr_base_timestamp r = Some base ->
    Forall (fun x => di_delta_ms x = di_latest_timestamp x - base /\ di_delta_ms x <= 0) (dr_items r) /\
    exists x, x ∈ dr_items r /\ di_delta_ms x = 0 /\ dr_base_device_id r = Some (di_device_id x).
Proof.
  unfold timestamp_delta. destruct (with_timestamp items) as [|c l]; [done|]. cbn [dr_items dr_base_timestamp dr_base_device_id].
  destruct (foldl_later l c) as [Hin Hle]. set (base := foldl later_of c l) in *. split_and!.
  - rewrite <- list_fmap_compose. rewrite <- (list_fmap_id (c :: l)) at 2. apply list_fmap_ext. by intros i [d t] _.
  - done.
  - intros ? [= <-]. split.
    + rewrite Forall_fmap. eapply Forall_impl; [exact Hle|]. intros x Hx. cbn in *. lia.
    + exists (mkDeltaItem base.1 base.2 (base.2 - base.2)). cbn. split; [|split; [lia|done]].
      change (mkDeltaItem base.1 base.2 (base.2 - base.2) ∈ (fun x : string * Z => mkDeltaItem x.1 x.2 (x.2 - base.2)) <$> c :: l).
      apply list_elem_of_fmap. by exists base.
Qed.

(** ** The latest frame *)

Lemma latest_first_spec x y : latest_first x y = true <-> fr_timestamp y < fr_timestamp x \/ (fr_timestamp x = fr_timestamp y /\ fr_id y <= fr_id x).
Proof. unfold latest_first. rewrite orb_true_iff, andb_true_iff, Z.ltb_lt, Z.eqb_eq, Z.leb_le. done. Qed.

Lemma latest_frame_newest db device_id x : get_latest_frame_from_db db device_id = Some x ->
  x ∈ db_frames db /\ fr_device_id x = device_id /\
  forall y, y ∈ db_frames db -> fr_device_id y = device_id -> fr_timestamp y < fr_timestamp x \/ (fr_timestamp y = fr_timestamp x /\ fr_id y <= fr_id x).
Proof.
  unfold get_latest_frame_from_db. destruct (sort_by _ _) as [|z l] eqn:E; [done|]. intros [= ->].
  assert (StronglySorted (le_by latest_first) (x :: l)) as Hs.
  { rewrite <- E. apply sort_by_sorted; intros *; rewrite !latest_first_spec; intros; lia. }
  apply StronglySorted_inv in Hs as [_ Hl]. assert (Hmem : forall y, y ∈ x :: l <-> y ∈ db_frames db /\ fr_device_id y = device_id).
  { intros y. rewrite <- E, elem_of_sort_by, list_elem_of_filter. tauto. }
  destruct (proj1 (Hmem x)) as [H1 H2]; [by left|]. split_and!; [done|done|]. intros y Hy Hd.
  assert (y ∈ x :: l) as [->|Hyl]%elem_of_cons by (by apply Hmem); [right; lia|]. rewrite Forall_forall in Hl. specialize (Hl y Hyl).
  apply latest_first_spec in Hl. lia.
Qed.

(** The server is ready exactly when its database answers and its listener,
    if it is enabled, runs. *)
Lemma readiness_exact database_up g runtime_bind :
  ra_status_code (readiness database_up (IngestGate.status g runtime_bind)) = 200 <->
  database_up = true /\ (gt_enabled g = true -> is_Some runtime_bind).
Proof.
  unfold readiness. destruct database_up, (gt_enabled g) eqn:E, runtime_bind; cbn; rewrite ?E; cbn; split; try done; try (by intros [? ?]).
  all: intros [_ H]. by destruct (H eq_refl).
Qed.
