(* ===== verification/Recorder.v ===== *)
(** * The experiment recorder

    src/app/services/stream/experiment_recorder.py and stream_experiment.py:
    counters and a log of events of one run, kept for a limited time once
    enough devices have been seen. Its methods take the lock for each of
    their steps, and the streams and relays that call them interleave. A line
    of the log is its payload, not the text of the JSON; of the input and
    output only the writing of the summary may fail, and a clock is read
    several times in a step. *)

From S2P Require Import Prelude Float64.

(** ** Names

    A Python string as its code points; [unicode_alnum] is [str.isalnum] of a
    character that is not ASCII. *)

Definition text := list N.

Definition text_of (s : string) : text := (fun c => Ascii.N_of_ascii c) <$> String.list_ascii_of_string s.

Definition dash : N := 45%N.
Definition slash : N := 47%N.

Section Names.
Context (unicode_alnum : N -> bool).

Definition is_alnum (c : N) : bool :=
  if (c <? 128)%N
  then ((48 <=? c) && (c <=? 57) || (65 <=? c) && (c <=? 90) || (97 <=? c) && (c <=? 122))%N
  else unicode_alnum c.

Definition sanitize_char (c : N) : N := if is_alnum c || bool_decide (c = dash) || bool_decide (c = 95%N) then c else dash.

(** [strip("-")]. *)
Fixpoint strip_left (l : text) : text :=
  match l with c :: r => if bool_decide (c = dash) then strip_left r else l | [] => [] end.
Definition strip_dashes (l : text) : text := reverse (strip_left (reverse (strip_left l))).

Definition sanitize_experiment_id (value : text) : text :=
  let res := strip_dashes (sanitize_char <$> value) in
  if bool_decide (res = []) then text_of "experiment" else res.

(** [timestamp_label]: the present time as [%Y-%m-%d_%H-%M-%S]. *)
Definition build_default_experiment_id (run_name collector_type timestamp_label : text) : text :=
  let prefix_parts := run_name :: (if bool_decide (collector_type = text_of "stream_server") then [] else [collector_type]) in
  foldr (fun part rest => part ++ dash :: rest) timestamp_label prefix_parts.

(** [os.path.join] of a relative second path. *)
Definition join_text (a b : text) : text :=
  match last a with None => b | Some c => if bool_decide (c = slash) then a ++ b else a ++ slash :: b end.
End Names.

(** ** The recorder *)

Inductive field_value :=
| VNull
| VBool (b : bool)
| VInt (z : Z)
| VFloat (x : float64)
| VStr (s : string)
| VText (t : text)
| VStrs (l : list string).

Definition opt_value {A} (f : A -> field_value) (x : option A) : field_value := match x with Some x => f x | None => VNull end.

(** The keys of [summary_fields] are not those of the recorder. *)
Record ExperimentContext := mkExperimentContext {
  xc_collector_type : text;
  xc_run_name : text;
  xc_experiment_log_dir : option text;
  xc_experiment_id : option text;
  xc_duration_sec : option float64;
  xc_expected_device_count : option Z;
  xc_summary_fields : list (string * field_value);
}.

(** The clocks in the order a step reads them: [time.time() * 1000] as an
    integer, and [time.monotonic()]. *)
Record readings := mkReadings { wall : nat -> Z; mono : nat -> float64 }.

Record Summary := mkSummary {
  su_experiment_id : text;
  su_collector_type : text;
  su_run_name : text;
  su_fields : list (string * field_value);
  su_gate_enabled : bool;
  su_expected_device_count : option Z;
  su_observed_device_ids : list string;
  su_gate_opened : bool;
  su_gate_opened_at_ms : option Z;
  su_gate_wait_duration_s : option float64;
  su_duration_limit_s : option float64;
  su_started_at_ms : option Z;
  su_ended_at_ms : option Z;
  su_duration_s : float64;
  su_captured_count : Z;
  su_registered_count : Z;
  su_register_failed_count : Z;
  su_register_error_count : Z;
  su_relay_enqueued_count : Z;
  su_relay_closed_count : Z;
  su_relay_error_count : Z;
  su_schedule_lag_count : Z;
  su_schedule_lag_skipped_total : Z;
  su_image_bytes_total : Z;
  su_offset_ms_min : option float64;
  su_offset_ms_max : option float64;
  su_offset_ms_sum : float64;
  su_offset_ms_avg : option float64;
  su_capture_elapsed_s_sum : float64;
  su_capture_elapsed_s_avg : option float64;
  su_save_elapsed_s_sum : float64;
  su_save_elapsed_s_avg : option float64;
  su_average_fps : option float64;  (** not a key before [close] *)
}.

(** What is asked of the recorder, with the arguments of the method. *)
Inductive recording :=
| RecordCapture (timestamp_ms sequence : Z) (capture_label : string) (capture_elapsed save_elapsed cycle_elapsed : float64)
    (queue_size : Z) (scheduled_at captured_at : float64) (image_bytes_size : Z) (device_id : option string)
| RecordRegistration (status : string) (timestamp_ms : Z) (elapsed : float64) (queue_size : Z) (status_code : option Z)
    (error : option string) (device_id : option string)
| RecordRelayEnqueued (timestamp_ms sequence image_bytes_size queue_size : Z) (device_id : option string)
| RecordRelayClosed (success : bool) (received_count : Z) (message : string)
| RecordRelayError (error : string)
| RecordScheduleLag (skipped : Z) (loop_elapsed : float64) (device_id : option string)
| RecordEvent (event_type : string) (fields : list (string * field_value)).

(** The lines of the log: [wall_time_ms], [runtime_s] and what they are
    made of. *)
Inductive line_content :=
| ExperimentStarted (gate : option (option float64 * list string))
| Requested (req : recording)
| ExperimentFinished (duration_s : float64) (captured_count registered_count relay_enqueued_count : Z).

Record line := mkLine { ln_wall_time_ms : Z; ln_runtime_s : float64; ln_content : line_content }.

Inductive summary_file := NoSummary | PartialSummary | WholeSummary (x : Summary).

Record recorder := mkRecorder {
  xr_created_at_monotonic : float64;
  xr_created_at_ms : Z;
  xr_started_at_monotonic : option float64;
  xr_started_at_ms : option Z;
  xr_duration_sec : option float64;
  xr_expected_device_count : option Z;
  xr_observed_device_ids : gset string;
  xr_run_dir : text;
  xr_closed : bool;
  xr_events : list line;          (** what [events_file] was given *)
  xr_events_open : bool;
  xr_summary : Summary;
  xr_summary_file : summary_file;
}.

#[export] Instance Summary_settable : Settable Summary := fun x => mkSummary (su_experiment_id x) (su_collector_type
  x) (su_run_name x) (su_fields x) (su_gate_enabled x) (su_expected_device_count x) (su_observed_device_ids x)
  (su_gate_opened x) (su_gate_opened_at_ms x) (su_gate_wait_duration_s x) (su_duration_limit_s x) (su_started_at_ms x)
  (su_ended_at_ms x) (su_duration_s x) (su_captured_count x) (su_registered_count x) (su_register_failed_count x)
  (su_register_error_count x) (su_relay_enqueued_count x) (su_relay_closed_count x) (su_relay_error_count x)
  (su_schedule_lag_count x) (su_schedule_lag_skipped_total x) (su_image_bytes_total x) (su_offset_ms_min x)
  (su_offset_ms_max x) (su_offset_ms_sum x) (su_offset_ms_avg x) (su_capture_elapsed_s_sum x)
  (su_capture_elapsed_s_avg x) (su_save_elapsed_s_sum x) (su_save_elapsed_s_avg x) (su_average_fps x).

#[export] Instance recorder_settable : Settable recorder := fun x => mkRecorder (xr_created_at_monotonic x)
  (xr_created_at_ms x) (xr_started_at_monotonic x) (xr_started_at_ms x) (xr_duration_sec x) (xr_expected_device_count
  x) (xr_observed_device_ids x) (xr_run_dir x) (xr_closed x) (xr_events x) (xr_events_open x) (xr_summary x)
  (xr_summary_file x).

(** ** Its methods *)

Inductive recorder_error :=
| LogDirRequired
| ClosedFile          (** [ValueError: I/O operation on closed file] *)
| SummaryOSError
| RecorderFloat (e : float_error).

Definition seconds (x : float64) : float64 := float_round_to 6 x.

(** [x or y] of floats. *)
Definition or_float (x : option float64) (y : float64) : float64 :=
  match x with Some x => if float_is_zero x then y else x | None => y end.

Definition _runtime_s (r : recorder) (now : float64) : float64 :=
  seconds (float_sub now (or_float (xr_started_at_monotonic r) (xr_created_at_monotonic r))).

(** [events_file.write] and [flush] of one line. *)
Definition write_line (r : recorder) (l : line) : recorder * result recorder_error unit :=
  if xr_events_open r then (r <| xr_events ::= fun ls => ls ++ [l] |>, Ok tt) else (r, Raise ClosedFile).

(** The clocks read before it are [k] of the walls and [k] of the others. *)
Definition _write_event_locked (r : recorder) (content : line_content) (clock : readings) (k : nat)
    : recorder * result recorder_error unit :=
  write_line r (mkLine (wall clock k) (_runtime_s r (mono clock k)) content).

Definition new_summary (c : ExperimentContext) (run_id : text) (started_at_ms : option Z) : Summary :=
  mkSummary run_id (xc_collector_type c) (xc_run_name c) (xc_summary_fields c) (bool_decide (is_Some (xc_expected_device_count c)))
    (xc_expected_device_count c) [] (bool_decide (xc_expected_device_count c = None)) started_at_ms
    (match xc_expected_device_count c with None => Some float_zero | Some _ => None end) (xc_duration_sec c) started_at_ms None float_zero
    0 0 0 0 0 0 0 0 0 0 None None float_zero None float_zero None float_zero None None.

(** A count that is zero counts as none. *)
Definition gated (c : ExperimentContext) : bool :=
  match xc_expected_device_count c with Some n => negb (n =? 0) | None => false end.

Definition new_recorder (unicode_alnum : N -> bool) (c : ExperimentContext) (timestamp_label : text) (clock : readings)
    : result recorder_error recorder :=
  match xc_experiment_log_dir c with
  | None | Some [] => Raise LogDirRequired
  | Some log_dir =>
      let created := mono clock 0%nat in
      let created_ms := wall clock 0%nat in
      let started_at_ms := if gated c then None else Some created_ms in
      let id := match xc_experiment_id c with
                | None | Some [] => build_default_experiment_id (xc_run_name c) (xc_collector_type c) timestamp_label
                | Some id => id
                end in
      let run_id := sanitize_experiment_id unicode_alnum id in
      let r := mkRecorder created created_ms (if gated c then None else Some created) started_at_ms (xc_duration_sec c)
                 (xc_expected_device_count c) ∅ (join_text log_dir run_id) false [] true (new_summary c run_id started_at_ms) NoSummary in
      if gated c then Ok r
      else match _write_event_locked r (ExperimentStarted None) clock 1 with
           | (r, Ok _) => Ok r
           | (_, Raise e) => Raise e
           end
  end.

Definition observe_device (r : recorder) (device_id : option string) (clock : readings) : recorder * result recorder_error bool :=
  if xr_closed r then (r, Ok false)
  else
    let r := match device_id with
             | Some d => if truthy d
                         then let r := r <| xr_observed_device_ids ::= union {[ d ]} |> in
                              r <| xr_summary ::= fun s => s <| su_observed_device_ids := sort_by String.leb (elements (xr_observed_device_ids r)) |> |>
                         else r
             | None => r
             end in
    match xr_started_at_monotonic r, xr_expected_device_count r with
    | Some _, _ => (r, Ok true)
    | None, None => (r, Ok false)
    | None, Some expected =>
        if Z.of_nat (size (xr_observed_device_ids r)) <? expected then (r, Ok false)
        else
          let started := mono clock 0%nat in
          let started_ms := wall clock 0%nat in
          let wait := seconds (float_sub started (xr_created_at_monotonic r)) in
          let r := r <| xr_started_at_monotonic := Some started |> <| xr_started_at_ms := Some started_ms |>
                     <| xr_summary ::= fun s => s <| su_started_at_ms := Some started_ms |> <| su_gate_opened := true |>
                          <| su_gate_opened_at_ms := Some started_ms |> <| su_gate_wait_duration_s := Some wait |> |> in
          match _write_event_locked r (ExperimentStarted (Some (Some wait, su_observed_device_ids (xr_summary r)))) clock 1 with
          | (r, Ok _) => (r, Ok true)
          | (r, Raise e) => (r, Raise e)
          end
    end.

(** The averages of [_close_locked]. *)
Definition averages (s : Summary) (duration_s : float64) : result float_error Summary :=
  if su_captured_count s =? 0 then Ok (s <| su_average_fps := Some float_zero |>)
  else
    n ← float_of_int (su_captured_count s);
    offset ← float_div (su_offset_ms_sum s) n;
    capture ← float_div (su_capture_elapsed_s_sum s) n;
    save ← float_div (su_save_elapsed_s_sum s) n;
    fps ← (if float_ltb float_zero duration_s then float_div n duration_s else Ok float_zero);
    Ok (s <| su_offset_ms_avg := Some offset |> <| su_capture_elapsed_s_avg := Some capture |>
          <| su_save_elapsed_s_avg := Some save |> <| su_average_fps := Some fps |>).

(** How the writing of the summary ends: well, or with an exception, and
    then with the file as it was or cut short. *)
Inductive summary_outcome := SummaryWritten | SummaryFails (leaves_part : bool).

Definition _close_locked (r : recorder) (clock : readings) (k : nat) (outcome : summary_outcome) : recorder * result recorder_error unit :=
  if xr_closed r then (r, Ok tt)
  else
    let ended_at_ms := wall clock 0%nat in
    let duration_s := match xr_started_at_monotonic r with None => float_zero | Some started => float_sub (mono clock k) started end in
    let k := match xr_started_at_monotonic r with None => k | Some _ => S k end in
    let s := (xr_summary r) <| su_ended_at_ms := Some ended_at_ms |> <| su_duration_s := seconds duration_s |> in
    match averages s duration_s with
    | Raise e => (r <| xr_summary := s |>, Raise (RecorderFloat e))
    | Ok s =>
        let r := r <| xr_summary := s |> in
        let finished := ExperimentFinished (su_duration_s s) (su_captured_count s) (su_registered_count s) (su_relay_enqueued_count s) in
        match write_line r (mkLine (wall clock 1%nat) (_runtime_s r (mono clock k)) finished) with
        | (r, Raise e) => (r, Raise e)
        | (r, Ok _) =>
            let r := r <| xr_events_open := false |> in
            match outcome with
            | SummaryFails leaves_part =>
                (if leaves_part then r <| xr_summary_file := PartialSummary |> else r, Raise SummaryOSError)
            | SummaryWritten => (r <| xr_summary_file := WholeSummary s |> <| xr_closed := true |>, Ok tt)
            end
        end
    end.

Definition close (r : recorder) (clock : readings) (outcome : summary_outcome) : recorder * result recorder_error unit :=
  _close_locked r clock 0 outcome.

Definition _should_record (r : recorder) (clock : readings) (outcome : summary_outcome) : recorder * result recorder_error bool :=
  if xr_closed r then (r, Ok false)
  else
    match xr_started_at_monotonic r, xr_duration_sec r with
    | None, _ => (r, Ok false)
    | Some started, Some duration_sec =>
        if float_leb duration_sec (float_sub (mono clock 0%nat) started)
        then match _close_locked r clock 1 outcome with
             | (r, Ok _) => (r, Ok false)
             | (r, Raise e) => (r, Raise e)
             end
        else (r, Ok true)
    | Some _, None => (r, Ok true)
    end.

(** *** What a recording does, one lock at a time *)

(** The methods that observe the device first. *)
Definition observes (req : recording) : option (option string) :=
  match req with
  | RecordCapture _ _ _ _ _ _ _ _ _ _ d | RecordRegistration _ _ _ _ _ _ d | RecordRelayEnqueued _ _ _ _ d => Some d
  | _ => None
  end.

Definition capture_offset (scheduled_at captured_at : float64) : float64 :=
  let x := float_mul (float_sub captured_at scheduled_at) (float_of 1000 0 false) in
  if float_ltb float_zero x then x else float_zero.

(** [min] and [max] return the first argument unless the second is less, or
    greater. *)
Definition min_with (x : option float64) (y : float64) : option float64 :=
  match x with None => Some y | Some x => Some (if float_ltb y x then y else x) end.
Definition max_with (x : option float64) (y : float64) : option float64 :=
  match x with None => Some y | Some x => Some (if float_ltb x y then y else x) end.

Definition counted (req : recording) (s : Summary) : Summary :=
  match req with
  | RecordCapture _ _ _ capture_elapsed save_elapsed _ _ scheduled_at captured_at image_bytes_size _ =>
      let offset_ms := capture_offset scheduled_at captured_at in
      s <| su_captured_count ::= Z.succ |> <| su_image_bytes_total ::= fun n => n + image_bytes_size |>
        <| su_offset_ms_sum ::= fun x => float_add x offset_ms |>
        <| su_capture_elapsed_s_sum ::= fun x => float_add x capture_elapsed |>
        <| su_save_elapsed_s_sum ::= fun x => float_add x save_elapsed |>
        <| su_offset_ms_min ::= fun x => min_with x offset_ms |> <| su_offset_ms_max ::= fun x => max_with x offset_ms |>
  | RecordRegistration status _ _ _ _ _ _ =>
      if bool_decide (status = "registered") then s <| su_registered_count ::= Z.succ |>
      else if bool_decide (status = "register_failed") then s <| su_register_failed_count ::= Z.succ |>
      else if bool_decide (status = "register_error") then s <| su_register_error_count ::= Z.succ |>
      else s
  | RecordRelayEnqueued _ _ _ _ _ => s <| su_relay_enqueued_count ::= Z.succ |>
  | RecordRelayClosed _ _ _ => s <| su_relay_closed_count ::= Z.succ |>
  | RecordRelayError _ => s <| su_relay_error_count ::= Z.succ |>
  | RecordScheduleLag skipped _ _ => s <| su_schedule_lag_count ::= Z.succ |> <| su_schedule_lag_skipped_total ::= fun n => n + skipped |>
  | RecordEvent _ _ => s
  end.

(** The name and the fields of the line of a recording. *)
Definition request_payload (req : recording) : string * list (string * field_value) :=
  match req with
  | RecordCapture timestamp_ms sequence label capture_elapsed save_elapsed cycle_elapsed queue_size scheduled_at captured_at bytes d =>
      ("captured", [("device_id", opt_value VStr d); ("timestamp_ms", VInt timestamp_ms); ("sequence", VInt sequence);
        ("capture_label", VStr label); ("capture_elapsed_s", VFloat (seconds capture_elapsed)); ("save_elapsed_s", VFloat (seconds save_elapsed));
        ("cycle_elapsed_s", VFloat (seconds cycle_elapsed));
        ("offset_ms", VFloat (float_round_to 3 (capture_offset scheduled_at captured_at))); ("register_queue_size", VInt queue_size);
        ("image_bytes", VInt bytes)])
  | RecordRegistration status timestamp_ms elapsed queue_size status_code error d =>
      (status, [("device_id", opt_value VStr d); ("timestamp_ms", VInt timestamp_ms); ("elapsed_s", VFloat (seconds elapsed));
        ("queue_size", VInt queue_size); ("status_code", opt_value VInt status_code); ("error", opt_value VStr error)])
  | RecordRelayEnqueued timestamp_ms sequence bytes queue_size d =>
      ("relay_enqueued", [("device_id", opt_value VStr d); ("timestamp_ms", VInt timestamp_ms); ("sequence", VInt sequence);
        ("image_bytes", VInt bytes); ("relay_queue_size", VInt queue_size)])
  | RecordRelayClosed success received_count message =>
      ("relay_closed", [("success", VBool success); ("received_count", VInt received_count); ("message", VStr message)])
  | RecordRelayError error => ("relay_error", [("error", VStr error)])
  | RecordScheduleLag skipped loop_elapsed d =>
      ("schedule_lag", [("device_id", opt_value VStr d); ("skipped", VInt skipped); ("loop_elapsed_s", VFloat (seconds loop_elapsed))])
  | RecordEvent event_type fields => (event_type, fields)
  end.

(** The object that a line of the file is. *)
Definition line_payload (r : recorder) (l : line) : list (string * field_value) :=
  let events_path := join_text (xr_run_dir r) (text_of "events.jsonl") in
  let summary_path := join_text (xr_run_dir r) (text_of "summary.json") in
  let '(event, fields) :=
    match ln_content l with
    | ExperimentStarted gate =>
        ("experiment_started", [("events_path", VText events_path); ("summary_path", VText summary_path)] ++
           match gate with
           | Some (wait, observed) => [("gate_wait_duration_s", opt_value VFloat wait); ("observed_device_ids", VStrs observed)]
           | None => []
           end)
    | Requested req => request_payload req
    | ExperimentFinished duration_s captured registered enqueued =>
        ("experiment_finished", [("duration_s", VFloat duration_s); ("captured_count", VInt captured); ("registered_count", VInt registered);
           ("relay_enqueued_count", VInt enqueued)])
    end in
  foldl (fun d kv => dict_set kv.1 kv.2 d)
    [("event", VStr event); ("wall_time_ms", VInt (ln_wall_time_ms l)); ("runtime_s", VFloat (ln_runtime_s l))] fields.

(** The points between the steps of a call, and how it ended: not recorded,
    counted but not written, written, or by an exception before or after the
    counting. *)
Inductive call_pc := Observing | Asking | Counting | AskingAgain | Writing | Skipped | Dropped | Written | Failed (was_counted : bool) (e : recorder_error).

(** [record_event] asks and writes only. *)
Definition first_pc (req : recording) : call_pc :=
  match req with RecordEvent _ _ => AskingAgain | _ => match observes req with Some _ => Observing | None => Asking end end.

Definition call_step (r : recorder) (req : recording) (pc : call_pc) (clock : readings) (outcome : summary_outcome) : recorder * call_pc :=
  match pc with
  | Observing =>
      match observe_device r (mjoin (observes req)) clock with (r, Ok _) => (r, Asking) | (r, Raise e) => (r, Failed false e) end
  | Asking =>
      match _should_record r clock outcome with
      | (r, Ok true) => (r, Counting) | (r, Ok false) => (r, Skipped) | (r, Raise e) => (r, Failed false e)
      end
  | Counting => (r <| xr_summary ::= counted req |>, AskingAgain)
  | AskingAgain =>
      match _should_record r clock outcome with
      | (r, Ok true) => (r, Writing) | (r, Ok false) => (r, Dropped) | (r, Raise e) => (r, Failed true e)
      end
  | Writing =>
      match _write_event_locked r (Requested req) clock 0 with (r, Ok _) => (r, Written) | (r, Raise e) => (r, Failed true e) end
  | _ => (r, pc)
  end.

(** Calls begin, take a step, and the recorder is closed or shown a device. *)
Inductive recorder_event :=
| Calls (req : recording)
| Steps (i : nat) (clock : readings) (outcome : summary_outcome)
| Observes (device_id : option string) (clock : readings)
| Closes (clock : readings) (outcome : summary_outcome).

Definition recorder_step (st : recorder * list (recording * call_pc)) (ev : recorder_event) : recorder * list (recording * call_pc) :=
  let '(r, calls) := st in
  match ev with
  | Calls req => (r, calls ++ [(req, first_pc req)])
  | Steps i clock outcome =>
      match calls !! i with
      | Some (req, pc) => let '(r, pc) := call_step r req pc clock outcome in (r, <[i := (req, pc)]> calls)
      | None => st
      end
  | Observes device_id clock => ((observe_device r device_id clock).1, calls)
  | Closes clock outcome => ((close r clock outcome).1, calls)
  end.

Definition recorder_run : recorder * list (recording * call_pc) -> list recorder_event -> recorder * list (recording * call_pc) := foldl recorder_step.

(** ** The recorder of the process *)

(** [start_generic_experiment_recorder]. *)
Definition start_generic_experiment_recorder (unicode_alnum : N -> bool) (c : ExperimentContext) (timestamp_label : text) (clock : readings)
    : result recorder_error (option recorder) :=
  match xc_experiment_log_dir c with
  | None | Some [] => Ok None
  | Some _ => r ← new_recorder unicode_alnum c timestamp_label clock; Ok (Some r)
  end.

Definition close_experiment_recorder (r : option recorder) (clock : readings) (outcome : summary_outcome)
    : option recorder * result recorder_error unit :=
  match r with
  | None => (None, Ok tt)
  | Some r => let '(r, res) := close r clock outcome in (Some r, res)
  end.

(** The global recorder; closing it may raise, and then it stays. *)
Definition clear_stream_experiment_recorder (current : option recorder) (clock : readings) (outcome : summary_outcome)
    : option recorder * result recorder_error unit :=
  match close_experiment_recorder current clock outcome with (_, Ok _) => (None, Ok tt) | (r, Raise e) => (r, Raise e) end.

Definition stream_context (experiment_log_dir experiment_id : text) (duration_sec : option float64) (expected_device_count : option Z)
    (storage_dir relay_target : text) (camera_ids : list string) : ExperimentContext :=
  mkExperimentContext (text_of "stream_server") (text_of "stream-server") (Some experiment_log_dir)
    (if bool_decide (experiment_id = []) then None else Some experiment_id) duration_sec expected_device_count
    [("camera_name", VStr "stream-server"); ("camera_ids", VStrs camera_ids); ("storage_dir", VText storage_dir);
     ("processing_relay_target", if bool_decide (relay_target = []) then VNull else VText relay_target)].

Definition configure_stream_experiment_recorder (unicode_alnum : N -> bool) (current : option recorder) (closing : readings)
    (outcome : summary_outcome) (c : ExperimentContext) (timestamp_label : text) (clock : readings)
    : option recorder * result recorder_error unit :=
  match clear_stream_experiment_recorder current closing outcome with
  | (r, Raise e) => (r, Raise e)
  | (_, Ok _) => match start_generic_experiment_recorder unicode_alnum c timestamp_label clock with
                 | Ok r => (r, Ok tt)
                 | Raise e => (None, Raise e)
                 end
  end.

(** ** The counters and the log *)

Inductive counter := Captured | Registered | RegisterFailed | RegisterError | RelayEnqueued | RelayClosed | RelayErrors | ScheduleLags.

#[export] Instance counter_eq_dec : EqDecision counter.
Proof. solve_decision. Defined.

Definition counter_of (req : recording) : option counter :=
  match req with
  | RecordCapture _ _ _ _ _ _ _ _ _ _ _ => Some Captured
  | RecordRegistration status _ _ _ _ _ _ =>
      if bool_decide (status = "registered") then Some Registered
      else if bool_decide (status = "register_failed") then Some RegisterFailed
      else if bool_decide (status = "register_error") then Some RegisterError
      else None
  | RecordRelayEnqueued _ _ _ _ _ => Some RelayEnqueued
  | RecordRelayClosed _ _ _ => Some RelayClosed
  | RecordRelayError _ => Some RelayErrors
  | RecordScheduleLag _ _ _ => Some ScheduleLags
  | RecordEvent _ _ => None
  end.

Definition count_in (c : counter) (s : Summary) : Z :=
  match c with
  | Captured => su_captured_count s | Registered => su_registered_count s | RegisterFailed => su_register_failed_count s
  | RegisterError => su_register_error_count s | RelayEnqueued => su_relay_enqueued_count s | RelayClosed => su_relay_closed_count s
  | RelayErrors => su_relay_error_count s | ScheduleLags => su_schedule_lag_count s
  end.

Lemma count_in_counted c req s : count_in c (counted req s) = count_in c s + (if bool_decide (counter_of req = Some c) then 1 else 0).
Proof. destruct req; cbn; repeat (case_bool_decide; cbn); destruct c; simplify_eq/=; lia. Qed.

Definition was_counted (pc : call_pc) : bool :=
  match pc with AskingAgain | Writing | Dropped | Written => true | Failed b _ => b | _ => false end.
Definition is_written (pc : call_pc) : bool := match pc with Written => true | _ => false end.

(** How many calls of a counter have been counted, and which were written. *)
Definition counted_calls (c : counter) (calls : list (recording * call_pc)) : Z :=
  Z.of_nat (length (filter (fun x => counter_of x.1 = Some c /\ was_counted x.2 = true) calls)).
Definition written_calls (calls : list (recording * call_pc)) : list recording := (filter (fun x => is_written x.2 = true) calls).*1.

Definition log_requests (r : recorder) : list recording :=
  omap (fun l => match ln_content l with Requested req => Some req | _ => None end) (xr_events r).

(** Replacing one call. *)
Lemma filter_same {A} (P : A -> Prop) `{forall x, Decision (P x)} (l : list A) i x y : l !! i = Some x -> ~ P x -> ~ P y ->
  filter P (<[i := y]> l) = filter P l.
Proof.
  intros Hi Hx Hy. revert i Hi. induction l as [|a l IH]; intros [|i] Hi; [done|done| |]; cbn in Hi; cbn [insert list_insert]; rewrite !filter_cons.
  - injection Hi as ->. by rewrite !decide_False.
  - by rewrite IH.
Qed.

Lemma filter_enters {A} (P : A -> Prop) `{forall x, Decision (P x)} (l : list A) i x y : l !! i = Some x -> ~ P x -> P y ->
  filter P (<[i := y]> l) ≡ₚ y :: filter P l.
Proof.
  intros Hi Hx Hy. revert i Hi. induction l as [|a l IH]; intros [|i] Hi; [done|done| |]; cbn in Hi; cbn [insert list_insert]; rewrite !filter_cons.
  - injection Hi as ->. rewrite (decide_True (P := P y)) by done. by rewrite decide_False.
  - specialize (IH i Hi). destruct (decide (P a)); [|exact IH]. rewrite IH. apply Permutation_swap.
Qed.

(** *** Steps that do not count *)

(** The counters of the summary are those of [s]. *)
Definition same_counts (s s' : Summary) : Prop := forall c, count_in c s' = count_in c s.

(** And the devices seen. *)
Definition carries (s s' : Summary) : Prop := same_counts s s' /\ su_observed_device_ids s' = su_observed_device_ids s.

Lemma averages_carries s d s' : averages s d = Ok s' -> carries s s' /\ su_ended_at_ms s' = su_ended_at_ms s.
Proof.
  unfold averages. destruct (_ =? 0); [intros [= <-]; split; [split; [by intros []|done]|done]|]. cbn [mbind result_bind].
  destruct (float_of_int _) as [n|]; [|done]. cbn. destruct (float_div (su_offset_ms_sum s) n); [|done]. cbn.
  destruct (float_div (su_capture_elapsed_s_sum s) n); [|done]. cbn. destruct (float_div (su_save_elapsed_s_sum s) n); [|done]. cbn.
  destruct (float_ltb _ _) eqn:E; [destruct (float_div n d); [|done]|]; cbn; intros [= <-]; (split; [split; [by intros []|done]|done]).
Qed.

Lemma averages_raise s d e : averages s d = Raise e -> ~ (0 <= su_captured_count s < 2 ^ 53).
Proof.
  unfold averages. destruct (Z.eqb_spec (su_captured_count s) 0) as [|Hn]; [done|]. intros E Hc.
  destruct (float_of_int_small (su_captured_count s)) as (m & x & Ef); [lia|]. rewrite Ef in E. cbn in E.
  destruct (float_ltb float_zero d) eqn:Ed; [|done]. destruct d as [[]|[]| |[] ? ?]; done.
Qed.

(** The last line: the counts of a summary. *)
Definition final_line (s : Summary) : line_content :=
  ExperimentFinished (su_duration_s s) (su_captured_count s) (su_registered_count s) (su_relay_enqueued_count s).

(** What [_close_locked] does, and when it raises. *)
Inductive closing (r : recorder) (outcome : summary_outcome) : recorder -> result recorder_error unit -> Prop :=
| AlreadyClosed : xr_closed r = true -> closing r outcome r (Ok tt)
| FloatFailed s e : xr_closed r = false -> carries (xr_summary r) s -> ~ (0 <= su_captured_count (xr_summary r) < 2 ^ 53) ->
    closing r outcome (r <| xr_summary := s |>) (Raise (RecorderFloat e))
| LogClosed s : xr_closed r = false -> xr_events_open r = false -> carries (xr_summary r) s ->
    closing r outcome (r <| xr_summary := s |>) (Raise ClosedFile)
| SummaryFailed s l r' : xr_closed r = false -> xr_events_open r = true -> carries (xr_summary r) s -> ln_content l = final_line s ->
    outcome <> SummaryWritten -> xr_events r' = xr_events r ++ [l] -> xr_events_open r' = false -> xr_closed r' = false ->
    xr_summary r' = s -> xr_started_at_monotonic r' = xr_started_at_monotonic r -> xr_observed_device_ids r' = xr_observed_device_ids r ->
    xr_expected_device_count r' = xr_expected_device_count r ->
    closing r outcome r' (Raise SummaryOSError)
| NowClosed s l : xr_closed r = false -> xr_events_open r = true -> carries (xr_summary r) s -> ln_content l = final_line s ->
    is_Some (su_ended_at_ms s) ->
    closing r outcome (r <| xr_summary := s |> <| xr_events ::= fun ls => ls ++ [l] |> <| xr_events_open := false |>
                 <| xr_summary_file := WholeSummary s |> <| xr_closed := true |>) (Ok tt).

Lemma close_locked_does r clock k outcome r' res : _close_locked r clock k outcome = (r', res) -> closing r outcome r' res.
Proof.
  unfold _close_locked. destruct (xr_closed r) eqn:Ec; [intros [= <- <-]; by constructor|].
  set (s0 := (xr_summary r) <| su_ended_at_ms := _ |> <| su_duration_s := _ |>).
  destruct (averages s0 _) as [s|e] eqn:Ea.
  2: { intros [= <- <-]. apply FloatFailed; [done|split; [by intros []|done]|]. by apply averages_raise in Ea. }
  destruct (averages_carries _ _ _ Ea) as [[Hs Hob] He].
  assert (carries (xr_summary r) s) as Hs' by (split; [intros c; rewrite Hs; by destruct c|exact Hob]).
  unfold write_line. change (xr_events_open (r <| xr_summary := s |>)) with (xr_events_open r).
  destruct (xr_events_open r) eqn:Eo; [|intros [= <- <-]; by apply LogClosed].
  destruct outcome as [|part]; intros [= <- <-].
  - refine (NowClosed r SummaryWritten s (mkLine _ _ (final_line s)) Ec Eo Hs' eq_refl _). rewrite He. by eexists.
  - refine (SummaryFailed r _ s (mkLine _ _ (final_line s)) _ Ec Eo Hs' eq_refl _ _ _ _ _ _ _ _); by destruct part.
Qed.

(** *** The log *)

(** The gate of a recorder opens once so many devices were seen. *)
Definition gate_of (r : recorder) : option Z :=
  match xr_expected_device_count r with Some n => if n =? 0 then None else Some n | None => None end.

Definition gate_line_ok (gate : option Z) (g : option (option float64 * list string)) : Prop :=
  match gate, g with
  | None, None => True
  | Some n, Some (_, ids) => NoDup ids /\ n <= Z.of_nat (length ids)
  | _, _ => False
  end.

(** A log begins with its start, if there was one; requests follow; once it
    is closed its end comes last. *)
Record log_ok (gate : option Z) (r : recorder) : Prop := {
  lo_gate : gate_of r = gate;
  lo_waits : xr_started_at_monotonic r = None -> gate <> None;
  lo_observed : su_observed_device_ids (xr_summary r) = sort_by String.leb (elements (xr_observed_device_ids r));
  lo_shape : exists pre reqs fin, ln_content <$> xr_events r = pre ++ (Requested <$> reqs) ++ fin /\
    (pre = [] /\ reqs = [] \/ exists g, pre = [ExperimentStarted g] /\ gate_line_ok gate g) /\
    (if xr_events_open r then fin = [] /\ (pre = [] <-> xr_started_at_monotonic r = None) else exists s, fin = [final_line s]);
  lo_closed : xr_closed r = true -> xr_events_open r = false /\ exists s, xr_summary_file r = WholeSummary s /\
    is_Some (su_ended_at_ms s) /\ last (ln_content <$> xr_events r) = Some (final_line s) /\
    forall c, count_in c s <= count_in c (xr_summary r);
}.

Definition quiet (r r' : recorder) : Prop := same_counts (xr_summary r) (xr_summary r') /\ log_requests r' = log_requests r.

Lemma quiet_refl r : quiet r r.
Proof. split; [by intros []|done]. Qed.

Lemma log_requests_snoc ls l r r' : xr_events r = ls -> xr_events r' = ls ++ [l] ->
  (match ln_content l with Requested _ => False | _ => True end) -> log_requests r' = log_requests r.
Proof. unfold log_requests. intros -> -> Hl. rewrite omap_app. cbn. destruct (ln_content l); cbn; by rewrite ?app_nil_r. Qed.

(** Only the log, the start and the counts matter. *)
Lemma log_ok_same gate r r' : xr_events r' = xr_events r -> xr_events_open r' = xr_events_open r -> xr_closed r' = xr_closed r ->
  xr_started_at_monotonic r' = xr_started_at_monotonic r -> gate_of r' = gate_of r -> xr_summary_file r' = xr_summary_file r ->
  su_observed_device_ids (xr_summary r') = sort_by String.leb (elements (xr_observed_device_ids r')) -> (forall c, count_in c (xr_summary r) <= count_in c (xr_summary r')) -> log_ok gate r -> log_ok gate r'.
Proof.
  intros E1 E2 E3 E4 E5 E6 E7 Hc [H1 Hw _ H2 H3]. split; [congruence|by rewrite E4|done|by rewrite E1, E2, E4|]. rewrite E1, E2, E3, E6. intros Hcl.
  destruct (H3 Hcl) as (Ho & s & Hs & He & Hl & Hle). split; [done|]. exists s. split_and!; [done..|]. intros c. specialize (Hc c). specialize (Hle c). lia.
Qed.

(** The end is written. *)
Lemma log_ok_end gate r r' s l : log_ok gate r -> xr_events_open r = true -> ln_content l = final_line s ->
  xr_events r' = xr_events r ++ [l] -> xr_events_open r' = false -> gate_of r' = gate_of r ->
  xr_started_at_monotonic r' = xr_started_at_monotonic r ->
  su_observed_device_ids (xr_summary r') = sort_by String.leb (elements (xr_observed_device_ids r')) ->
  (xr_closed r' = true -> xr_summary_file r' = WholeSummary s /\ is_Some (su_ended_at_ms s) /\ forall c, count_in c s <= count_in c (xr_summary r')) ->
  log_ok gate r'.
Proof.
  intros [H1 Hw _ (pre & reqs & fin & Hcs & Hpre & Hfin) _] Ho Hl E1 E2 E3 E5 E4 Hclosed. rewrite Ho in Hfin. destruct Hfin as [-> _]. split.
  - congruence.
  - by rewrite E5.
  - done.
  - exists pre, reqs, [final_line s]. rewrite E1, fmap_app, Hcs, E2. cbn. rewrite Hl, app_nil_r, <- (assoc_L (++)). split_and!; [done|done|eauto].
  - intros Hcl. split; [done|]. destruct (Hclosed Hcl) as (Hf & He & Hc). exists s. split_and!; [done|done| |done].
    rewrite E1, fmap_app. cbn. by rewrite last_snoc, Hl.
Qed.

Lemma closing_ok gate r outcome r' res : log_ok gate r -> closing r outcome r' res -> log_ok gate r' /\ quiet r r'.
Proof.
  intros Hok Hcl. pose proof (lo_observed _ _ Hok) as Hob.
  destruct Hcl as [Hc|s e Hc [Hs Hd] Hn|s Hc Ho [Hs Hd]|s l r' Hc Ho [Hs Hd] Hl Hout E1 E2 E3 E4 E5 E6 E7|s l Hc Ho [Hs Hd] Hl He].
  - split; [done|apply quiet_refl].
  - split; [|by split]. apply (log_ok_same _ r); try done; [cbn; congruence|]. intros c. cbn. by rewrite Hs.
  - split; [|by split]. apply (log_ok_same _ r); try done; [cbn; congruence|]. intros c. cbn. by rewrite Hs.
  - split; [|split; [by rewrite E4|eapply log_requests_snoc; [done|done|by rewrite Hl]]].
    eapply log_ok_end; try done; [unfold gate_of; by rewrite E7|congruence|by rewrite E3].
  - split; [|split; [done|eapply log_requests_snoc; [done|done|by rewrite Hl]]].
    eapply log_ok_end; try done. cbn. congruence.
Qed.

Lemma should_record_ok gate r clock outcome r' res : log_ok gate r -> _should_record r clock outcome = (r', res) ->
  log_ok gate r' /\ quiet r r' /\ (res = Ok true -> r' = r /\ xr_closed r = false /\ is_Some (xr_started_at_monotonic r)).
Proof.
  intros Hok. unfold _should_record. destruct (xr_closed r) eqn:Ec; [intros [= <- <-]; split; [done|split; [apply quiet_refl|done]]|].
  destruct (xr_started_at_monotonic r) as [st|] eqn:Es; [|intros [= <- <-]; split; [done|split; [apply quiet_refl|done]]].
  destruct (xr_duration_sec r) as [d|]; [destruct (float_leb _ _)|]; try (intros [= <- <-]; split; [done|split; [apply quiet_refl|by eauto]]).
  destruct (_close_locked r clock 1 outcome) as [r1 res1] eqn:E. apply close_locked_does in E.
  destruct (closing_ok _ _ _ _ _ Hok E) as [H1 H2]. by destruct res1; intros [= <- <-].
Qed.

(** The device is noted. *)
Lemma note_device gate r (d : string) : log_ok gate r -> xr_closed r = false ->
  let r1 := r <| xr_observed_device_ids ::= union {[ d ]} |> in
  let r2 := r1 <| xr_summary ::= fun s => s <| su_observed_device_ids := sort_by String.leb (elements (xr_observed_device_ids r1)) |> |> in
  log_ok gate r2 /\ quiet r r2.
Proof. intros Hok Hc. split; [|split; [by intros []|done]]. by apply (log_ok_same _ r). Qed.

(** The gate opens: the first line of the log, unless the log is closed. *)
Lemma opened_ok gate r r2 l r' res : log_ok gate r -> xr_started_at_monotonic r = None -> xr_closed r = false ->
  xr_events r2 = xr_events r -> xr_events_open r2 = xr_events_open r -> xr_closed r2 = false -> gate_of r2 = gate_of r ->
  is_Some (xr_started_at_monotonic r2) -> carries (xr_summary r) (xr_summary r2) -> xr_observed_device_ids r2 = xr_observed_device_ids r ->
  (exists g, ln_content l = ExperimentStarted g /\ gate_line_ok gate g) ->
  write_line r2 l = (r', res) -> log_ok gate r' /\ quiet r r'.
Proof.
  intros [H1 Hw H2 (pre & reqs & fin & Hcs & Hpre & Hfin) H3] Es Ec E1 E2 E3 E4 [st E5] [Hc Hd] E6 (g & Hg & Hok). unfold write_line. rewrite E2.
  destruct (xr_events_open r) eqn:Eo; intros [= <- <-].
  - destruct Hfin as [-> Hiff]. assert (pre = []) as -> by (by apply Hiff). destruct Hpre as [[_ ->]|(? & ? & _)]; [|done].
    split; [|split; [exact Hc|eapply log_requests_snoc; [done|cbn; by rewrite E1|by rewrite Hg]]].
    split; [by rewrite <- H1, <- E4|cbn; by rewrite E5|cbn; congruence| |cbn; congruence].
    exists [ExperimentStarted g], [], []. split; [|split; [by right; exists g|cbn; rewrite E2, E5; by split]].
    change (ln_content <$> xr_events r2 ++ [l] = [ExperimentStarted g]). by rewrite fmap_app, E1, Hcs, <- Hg.
  - split; [|split; [exact Hc|unfold log_requests; by rewrite E1]]. split; [congruence|by rewrite E5|congruence| |congruence].
    exists pre, reqs, fin. rewrite E1, E2. by split_and!.
Qed.

Lemma observe_ok gate r d clock r' res : log_ok gate r -> observe_device r d clock = (r', res) -> log_ok gate r' /\ quiet r r'.
Proof.
  intros Hok. unfold observe_device. destruct (xr_closed r) eqn:Ec; [intros [= <- <-]; split; [done|apply quiet_refl]|].
  set (r1 := match d with Some _ => _ | None => r end).
  assert (log_ok gate r1 /\ quiet r r1) as [Hok1 Hq1].
  { unfold r1. destruct d as [d|]; [destruct (truthy d); [by apply note_device|]|]; (split; [done|apply quiet_refl]). }
  assert (xr_closed r1 = false) as Ec1 by (unfold r1; by repeat case_match). clearbody r1. clear Hok Ec.
  destruct (xr_started_at_monotonic r1) as [st|] eqn:Es; [by intros [= <- <-]|].
  destruct (xr_expected_device_count r1) as [n|] eqn:En; [|by intros [= <- <-]].
  destruct (Z.ltb_spec (Z.of_nat (size (xr_observed_device_ids r1))) n) as [|Hn]; [by intros [= <- <-]|]. cbv zeta.
  destruct (_write_event_locked _ _ _ _) as [r3 res3] eqn:Ew. intros E. assert (r' = r3) as -> by (by destruct res3; injection E).
  unfold _write_event_locked in Ew. eapply (opened_ok gate r1) in Ew as [H1 [H2 H3]]; try done.
  - split; [done|]. destruct Hq1 as [Q1 Q2]. split; [intros c; by rewrite H2|congruence].
  - eexists. split; [reflexivity|].
    destruct Hok1 as [H1 Hw H2 _ _]. unfold gate_line_ok. rewrite <- H1. unfold gate_of. rewrite En.
    destruct (Z.eqb_spec n 0) as [->|]; [exfalso; apply (Hw Es); rewrite <- H1; unfold gate_of; by rewrite En|]. cbn. rewrite H2. split.
    + rewrite sort_by_perm. apply NoDup_elements.
    + rewrite length_sort_by. exact Hn.
Qed.

(** A recording is logged after the start. *)
Lemma request_ok gate r req clock r' res : log_ok gate r -> is_Some (xr_started_at_monotonic r) ->
  _write_event_locked r (Requested req) clock 0 = (r', res) ->
  log_ok gate r' /\ same_counts (xr_summary r) (xr_summary r') /\ xr_started_at_monotonic r' = xr_started_at_monotonic r /\
  match res with
  | Ok _ => log_requests r' = log_requests r ++ [req]
  | Raise e => e = ClosedFile /\ xr_events_open r = false /\ r' = r
  end.
Proof.
  intros [H1 Hw H2 (pre & reqs & fin & Hcs & Hpre & Hfin) H3] [st Hst]. unfold _write_event_locked, write_line.
  destruct (xr_events_open r) eqn:Eo; intros [= <- <-].
  - destruct Hfin as [-> Hiff]. destruct Hpre as [[-> ->]|(g & -> & Hg)]; [by rewrite (proj1 Hiff eq_refl) in Hst|].
    split; [|split; [by intros []|split; [done|unfold log_requests; cbn; by rewrite omap_app]]].
    split; [done|done|done| |].
    + exists [ExperimentStarted g], (reqs ++ [req]), []. split; [|split; [right; by exists g|cbn; rewrite Eo; by split]].
      change (ln_content <$> xr_events r ++ [mkLine (wall clock 0) (_runtime_s r (mono clock 0)) (Requested req)] =
        [ExperimentStarted g] ++ (Requested <$> reqs ++ [req]) ++ []).
      rewrite !fmap_app, Hcs, !app_nil_r. by rewrite (assoc_L (++)).
    + intros Hc. destruct (H3 Hc) as [Ho _]. congruence.
  - split; [|split; [by intros []|done]]. split; [done|done|done| |by rewrite Eo]. exists pre, reqs, fin. rewrite Eo. by split_and!.
Qed.

(** *** The start stays *)

Lemma closing_started r outcome r' res : closing r outcome r' res -> xr_started_at_monotonic r' = xr_started_at_monotonic r.
Proof. by destruct 1. Qed.

Lemma should_record_started r clock outcome r' res : _should_record r clock outcome = (r', res) ->
  xr_started_at_monotonic r' = xr_started_at_monotonic r.
Proof.
  unfold _should_record. destruct (xr_closed r); [by intros [= <- _]|]. destruct (xr_started_at_monotonic r) eqn:Es; [|by intros [= <- _]].
  destruct (xr_duration_sec r); [destruct (float_leb _ _)|]; [|by intros [= <- _]..].
  destruct (_close_locked r clock 1 outcome) as [r1 [[]|e]] eqn:E; intros [= <- _]; apply close_locked_does, closing_started in E; congruence.
Qed.

Lemma observe_started r d clock r' res : observe_device r d clock = (r', res) ->
  is_Some (xr_started_at_monotonic r) -> is_Some (xr_started_at_monotonic r').
Proof.
  unfold observe_device. destruct (xr_closed r); [by intros [= <- _]|]. set (r1 := match d with Some _ => _ | None => r end).
  assert (xr_started_at_monotonic r1 = xr_started_at_monotonic r) as <- by (unfold r1; by repeat case_match). clearbody r1.
  intros E [st Hst]. rewrite Hst in E. injection E as <- _. by eexists.
Qed.

(** *** The calls *)

Record calls_ok (r : recorder) (calls : list (recording * call_pc)) : Prop := {
  co_counts : forall c, count_in c (xr_summary r) = counted_calls c calls;
  co_written : log_requests r ≡ₚ written_calls calls;
  co_started : forall i req, calls !! i = Some (req, Writing) -> is_Some (xr_started_at_monotonic r);
}.

Lemma filter_replace {A} (P : A -> Prop) `{forall x, Decision (P x)} (l : list A) i x y : l !! i = Some x ->
  (length (filter P (<[i := y]> l)) + (if decide (P x) then 1 else 0) = length (filter P l) + (if decide (P y) then 1 else 0))%nat.
Proof.
  revert i. induction l as [|a l IH]; intros [|i] Hi; [done|done| |]; cbn in Hi.
  - injection Hi as ->. change (<[0%nat := y]> (x :: l)) with (y :: l). rewrite !filter_cons. do 2 case_decide; cbn [length]; lia.
  - specialize (IH i Hi). change (<[S i := y]> (a :: l)) with (a :: <[i := y]> l). rewrite !filter_cons.
    destruct (decide (P a)); cbn [length]; lia.
Qed.

Lemma counted_replace c calls i req pc pc' : calls !! i = Some (req, pc) ->
  counted_calls c (<[i := (req, pc')]> calls) =
  counted_calls c calls + (if bool_decide (counter_of req = Some c) then Z.b2z (was_counted pc') - Z.b2z (was_counted pc) else 0).
Proof.
  intros Hi. unfold counted_calls.
  pose proof (filter_replace (fun x : recording * call_pc => counter_of x.1 = Some c /\ was_counted x.2 = true) calls i _ (req, pc') Hi) as H.
  cbn [fst snd] in H. destruct (decide (counter_of req = Some c)) as [Hc|Hc].
  - rewrite bool_decide_true by done. destruct (was_counted pc) eqn:E1, (was_counted pc') eqn:E2; cbn [Z.b2z]; repeat case_decide; lia || (exfalso; intuition congruence).
  - rewrite bool_decide_false by done. rewrite !decide_False in H by tauto. lia.
Qed.

(** A step that neither counts nor writes. *)
Lemma quiet_step r r' calls i req pc pc' : calls_ok r calls -> calls !! i = Some (req, pc) -> quiet r r' ->
  (is_Some (xr_started_at_monotonic r) -> is_Some (xr_started_at_monotonic r')) ->
  was_counted pc' = was_counted pc -> is_written pc = false -> is_written pc' = false ->
  (pc' = Writing -> is_Some (xr_started_at_monotonic r')) -> calls_ok r' (<[i := (req, pc')]> calls).
Proof.
  intros [H1 H2 H3] Hi [Q1 Q2] Hst Hc Hw Hw' Hn. split.
  - intros c. rewrite (counted_replace c calls i req pc pc' Hi), Hc, Z.sub_diag, Q1, H1. case_bool_decide; lia.
  - rewrite Q2, H2. unfold written_calls. rewrite (filter_same _ calls i (req, pc)); [done|done|cbn; congruence|cbn; congruence].
  - intros j req' Hj. apply list_lookup_insert_Some in Hj as [(-> & [= -> ->] & _)|[_ Hj]]; [by apply Hn|by apply Hst, (H3 j req')].
Qed.

Lemma quiet_calls r r' calls : calls_ok r calls -> quiet r r' ->
  (is_Some (xr_started_at_monotonic r) -> is_Some (xr_started_at_monotonic r')) -> calls_ok r' calls.
Proof.
  intros [H1 H2 H3] [Q1 Q2] Hst. split; [intros c; by rewrite Q1|by rewrite Q2|]. intros j req Hj. by apply Hst, (H3 j req).
Qed.

Definition recorder_ok (gate : option Z) (st : recorder * list (recording * call_pc)) : Prop := log_ok gate st.1 /\ calls_ok st.1 st.2.

Lemma call_step_ok gate r calls i req pc clock outcome r' pc' : recorder_ok gate (r, calls) -> calls !! i = Some (req, pc) ->
  call_step r req pc clock outcome = (r', pc') -> recorder_ok gate (r', <[i := (req, pc')]> calls).
Proof.
  intros [Hl Hc] Hi. cbn [fst snd] in Hl, Hc. unfold call_step. destruct pc eqn:Epc;
    try (intros [= <- <-]; split; [done|]; cbn; by rewrite list_insert_id).
  - destruct (observe_device r (mjoin (observes req)) clock) as [r1 [b|e]] eqn:E; intros [= <- <-];
      destruct (observe_ok _ _ _ _ _ _ Hl E) as [Hl1 Hq]; (split; [done|]); cbn [fst snd]; eapply quiet_step; try done; by eapply observe_started.
  - destruct (_should_record r clock outcome) as [r1 [[]|e]] eqn:E; intros [= <- <-];
      destruct (should_record_ok _ _ _ _ _ _ Hl E) as (Hl1 & Hq & _); (split; [done|]); cbn [fst snd]; eapply quiet_step; try done;
      rewrite ?(should_record_started _ _ _ _ _ E); done.
  - intros [= <- <-]. split.
    + apply (log_ok_same _ r); try done; cbn; [by destruct req; cbn; repeat case_bool_decide; apply (lo_observed _ _ Hl)|].
      intros c. rewrite count_in_counted. case_bool_decide; lia.
    + destruct Hc as [H1 H2 H3]. split; cbn.
      * intros c. rewrite count_in_counted, H1, (counted_replace c calls i req _ _ Hi). cbn. case_bool_decide; lia.
      * change (log_requests (r <| xr_summary ::= counted req |>)) with (log_requests r). rewrite H2. unfold written_calls.
        rewrite (filter_same _ calls i (req, Counting)); [done|done|by cbn|by cbn].
      * intros j req' Hj. apply list_lookup_insert_Some in Hj as [(_ & [= ] & _)|[_ Hj]]. by apply (H3 j req').
  - destruct (_should_record r clock outcome) as [r1 [[]|e]] eqn:E; intros [= <- <-];
      destruct (should_record_ok _ _ _ _ _ _ Hl E) as (Hl1 & Hq & Ht); (split; [done|]); cbn [fst snd]; eapply quiet_step; try done;
      rewrite ?(should_record_started _ _ _ _ _ E); try done. intros _. by apply Ht.
  - destruct (_write_event_locked r (Requested req) clock 0) as [r1 [u|e]] eqn:E; intros [= <- <-];
      destruct (request_ok _ _ _ _ _ _ Hl (co_started _ _ Hc i req Hi) E) as (Hl1 & Hs & Hst & Hr); (split; [done|]).
    + destruct Hc as [H1 H2 H3]. split; cbn.
      * intros c. rewrite Hs, H1, (counted_replace c calls i req _ _ Hi). cbn. case_bool_decide; lia.
      * rewrite Hr, H2. unfold written_calls. rewrite (filter_enters _ calls i (req, Writing) (req, Written)); [|done|by cbn|by cbn].
        cbn. by rewrite Permutation_app_comm.
      * intros j req' Hj. rewrite Hst. apply list_lookup_insert_Some in Hj as [(_ & [= ] & _)|[_ Hj]]. by apply (H3 j req').
    + destruct Hr as (-> & _ & ->). eapply quiet_step; try done; apply quiet_refl.
Qed.

Lemma recorder_step_ok gate st ev : recorder_ok gate st -> recorder_ok gate (recorder_step st ev).
Proof.
  destruct st as [r calls]. intros Hok. destruct ev as [req|i clock outcome|d clock|clock outcome]; cbn [recorder_step].
  - destruct Hok as [Hl [H1 H2 H3]]. split; [done|]. cbn [fst snd] in *. assert (was_counted (first_pc req) = true -> counter_of req = None) as Hc.
    { destruct req; cbn; try done. }
    assert (is_written (first_pc req) = false) as Hw by (by destruct req). assert (first_pc req <> Writing) as Hn by (by destruct req).
    split.
    + intros c. rewrite H1. unfold counted_calls. rewrite filter_app. rewrite filter_cons, filter_nil.
      rewrite decide_False; [by rewrite app_nil_r|]. cbn [fst snd]. intros [Hx Hy]. rewrite (Hc Hy) in Hx. done.
    + rewrite H2. unfold written_calls. rewrite filter_app, filter_cons, filter_nil. rewrite decide_False by (cbn [fst snd]; congruence). by rewrite app_nil_r.
    + intros i req' [Hi|[_ Hi]]%lookup_app_Some; [by apply (H3 i req')|]. destruct (i - length calls)%nat; [|done].
      injection Hi as _ Hi. done.
  - destruct (calls !! i) as [[req pc]|] eqn:Ei; [|done]. destruct (call_step r req pc clock outcome) as [r' pc'] eqn:E. by eapply call_step_ok.
  - destruct (observe_device r d clock) as [r' res] eqn:E. destruct Hok as [Hl Hc]. destruct (observe_ok _ _ _ _ _ _ Hl E). split; [done|].
    eapply quiet_calls; [done|done|by eapply observe_started].
  - destruct (close r clock outcome) as [r' res] eqn:E. apply close_locked_does in E. destruct Hok as [Hl Hc].
    destruct (closing_ok _ _ _ _ _ Hl E). split; [done|]. eapply quiet_calls; [done|done|]. cbn. by rewrite (closing_started _ _ _ _ E).
Qed.

Lemma recorder_run_ok gate evs : forall st, recorder_ok gate st -> recorder_ok gate (recorder_run st evs).
Proof. induction evs as [|ev evs IH]; intros st H; [done|]. by apply IH, recorder_step_ok. Qed.

Lemma new_recorder_ok unicode_alnum c label clock r : new_recorder unicode_alnum c label clock = Ok r ->
  recorder_ok (if gated c then xc_expected_device_count c else None) (r, []) /\ xr_events_open r = true /\ xr_closed r = false.
Proof.
  unfold new_recorder. destruct (xc_experiment_log_dir c) as [[|x dir]|]; [done| |done].
  destruct (gated c) eqn:Eg; [|unfold _write_event_locked, write_line; cbn [xr_events_open]]; intros [= <-]; (split; [split|done]).
  - split; [|by unfold gated in Eg; destruct (xc_expected_device_count c)|done| |done].
    + unfold gated, gate_of in *. cbn. destruct (xc_expected_device_count c) as [n|]; [|done]. by destruct (n =? 0).
    + exists [], [], []. split; [done|]. split; [by left|by split].
  - split; [intros []; done|done|done].
  - split; [|done|done| |done].
    + unfold gated, gate_of in *. cbn. destruct (xc_expected_device_count c) as [n|]; [|done]. by destruct (n =? 0).
    + exists [ExperimentStarted None], [], []. split; [done|]. split; [by right; exists None|by split].
  - split; [intros []; done|done|done].
Qed.

(** *** What may fail *)

(** No attempt to write the summary fails. *)
Definition summary_written (ev : recorder_event) : Prop :=
  match ev with Steps _ _ outcome | Closes _ outcome => outcome = SummaryWritten | _ => True end.

Definition tidy (r : recorder) : Prop := xr_events_open r = negb (xr_closed r).

Definition small (r : recorder) : Prop := 0 <= su_captured_count (xr_summary r) < 2 ^ 53.

Lemma closing_tidy r r' res : tidy r -> small r -> closing r SummaryWritten r' res ->
  tidy r' /\ res = Ok tt /\ xr_closed r' = true.
Proof. unfold tidy. intros Ht Hs Hcl. destruct Hcl as [Hc|s e Hc Hss Hn|s Hc Ho|s l r' Hc Ho Hss Hl Hout|s l Hc Ho]; try done.
  by rewrite Ho, Hc in Ht.
Qed.

Lemma write_line_open r l : xr_events_open r = true -> write_line r l = (r <| xr_events ::= fun ls => ls ++ [l] |>, Ok tt).
Proof. unfold write_line. by intros ->. Qed.

Lemma observe_tidy r d clock r' res : tidy r -> observe_device r d clock = (r', res) ->
  tidy r' /\ (exists b, res = Ok b) /\ xr_closed r' = xr_closed r.
Proof.
  unfold tidy, observe_device. intros Ht. destruct (xr_closed r) eqn:Ec; [intros [= <- <-]; rewrite Ec; eauto|].
  set (r1 := match d with Some _ => _ | None => r end).
  assert (xr_events_open r1 = true /\ xr_closed r1 = false) as [Ho1 Ec1] by (unfold r1; by repeat case_match). clearbody r1.
  destruct (xr_started_at_monotonic r1); [intros [= <- <-]; rewrite Ho1, Ec1; eauto|].
  destruct (xr_expected_device_count r1); [|intros [= <- <-]; rewrite Ho1, Ec1; eauto]. destruct (_ <? z); [intros [= <- <-]; rewrite Ho1, Ec1; eauto|].
  unfold _write_event_locked. rewrite write_line_open by exact Ho1. intros [= <- <-].
  split; [change (xr_events_open r1 = negb (xr_closed r1)); by rewrite Ho1, Ec1|]. split; [by eexists|exact Ec1].
Qed.

Lemma should_record_tidy r clock r' res : tidy r -> small r -> _should_record r clock SummaryWritten = (r', res) ->
  tidy r' /\ (exists b, res = Ok b) /\ (xr_closed r = true -> xr_closed r' = true).
Proof.
  intros Ht Hs. unfold _should_record. destruct (xr_closed r) eqn:Ec; [intros [= <- <-]; eauto|].
  destruct (xr_started_at_monotonic r); [|intros [= <- <-]; eauto]. destruct (xr_duration_sec r); [destruct (float_leb _ _)|]; try (intros [= <- <-]; by eauto).
  destruct (_close_locked r clock 1 SummaryWritten) as [r1 res1] eqn:E. apply close_locked_does in E.
  destruct (closing_tidy _ _ _ Ht Hs E) as (H1 & -> & H2). intros [= <- <-]. eauto.
Qed.

(** A call that failed was writing when the log had been closed. *)
Definition fails_late (st : recorder * list (recording * call_pc)) : Prop :=
  tidy st.1 /\ forall i req b e, st.2 !! i = Some (req, Failed b e) -> b = true /\ e = ClosedFile /\ xr_closed st.1 = true.

Lemma fails_late_step st ev : fails_late st -> small st.1 -> summary_written ev -> fails_late (recorder_step st ev).
Proof.
  destruct st as [r calls]. intros [Ht Hf] Hs Hw. cbn [fst snd] in *. destruct ev as [req|i clock outcome|d clock|clock outcome]; cbn [recorder_step].
  - split; [done|]. cbn [fst snd]. intros i req' b e [Hi|[_ Hi]]%lookup_app_Some; [by eapply Hf|].
    destruct (i - length calls)%nat; cbn in Hi; [|done]. by destruct req.
  - destruct (calls !! i) as [[req pc]|] eqn:Ei; [|done]. cbn in Hw. subst outcome.
    assert (forall r' pc', tidy r' -> (xr_closed r = true -> xr_closed r' = true) ->
      (forall b e, pc' = Failed b e -> b = true /\ e = ClosedFile /\ xr_closed r' = true) -> fails_late (r', <[i := (req, pc')]> calls)) as Hdone.
    { intros r' pc' Ht' Hc' Hpc. split; [done|]. intros j req' b e Hj. cbn [fst snd] in *.
      apply list_lookup_insert_Some in Hj as [(_ & [= -> ->] & _)|[_ Hj]]; [by apply Hpc|]. destruct (Hf _ _ _ _ Hj) as (? & ? & ?). auto. }
    unfold call_step. destruct pc eqn:Epc; try (apply Hdone; [done|done|intros b' e' [= -> ->]; by eapply Hf]); try (by apply Hdone).
    + destruct (observe_device _ _ _) as [r1 res] eqn:E. destruct (observe_tidy _ _ _ _ _ Ht E) as (H1 & [x ->] & H2). apply Hdone; [done|by rewrite H2|done].
    + destruct (_should_record _ _ _) as [r1 res] eqn:E. destruct (should_record_tidy _ _ _ _ Ht Hs E) as (H1 & [[] ->] & H2); by apply Hdone.
    + destruct (_should_record _ _ _) as [r1 res] eqn:E. destruct (should_record_tidy _ _ _ _ Ht Hs E) as (H1 & [[] ->] & H2); by apply Hdone.
    + unfold _write_event_locked, write_line. destruct (xr_events_open r) eqn:Eo; apply Hdone; try done. intros b e [= <- <-]. split_and!; [done|done|].
      unfold tidy in Ht. destruct (xr_closed r); [done|by rewrite Eo in Ht].
  - destruct (observe_device _ _ _) as [r1 res] eqn:E. destruct (observe_tidy _ _ _ _ _ Ht E) as (H1 & _ & H2). split; [done|]. cbn. by rewrite H2.
  - cbn in Hw. subst outcome. destruct (close _ _ _) as [r1 res] eqn:E. apply close_locked_does in E. destruct (closing_tidy _ _ _ Ht Hs E) as (H1 & _ & H2).
    split; [done|]. intros j req b e Hj. destruct (Hf _ _ _ _ Hj) as (? & ? & _). done.
Qed.

Lemma length_calls evs : forall st, (length (recorder_run st evs).2 <= length st.2 + length evs)%nat.
Proof.
  induction evs as [|ev evs IH]; intros st; cbn [recorder_run foldl length]; [lia|]. specialize (IH (recorder_step st ev)). unfold recorder_run in *.
  assert (length (recorder_step st ev).2 <= S (length st.2))%nat; [|lia]. destruct st as [r calls]. destruct ev; cbn; [rewrite length_app; cbn; lia| |lia|lia].
  destruct (calls !! i) as [[req pc]|]; cbn; [|lia]. destruct (call_step _ _ _ _ _). cbn. rewrite length_insert. lia.
Qed.

Lemma counted_bounds c calls : 0 <= counted_calls c calls <= Z.of_nat (length calls).
Proof.
  unfold counted_calls. pose proof (length_filter (fun x => counter_of x.1 = Some c /\ was_counted x.2 = true) calls). lia.
Qed.

Lemma fails_late_run gate evs : forall st, recorder_ok gate st -> fails_late st -> Z.of_nat (length st.2 + length evs) < 2 ^ 53 ->
  Forall summary_written evs -> fails_late (recorder_run st evs).
Proof.
  induction evs as [|ev evs IH] using rev_ind; intros st Hok Hf Hlen Hw; [done|]. apply Forall_app in Hw as [Hw [Hev _]%Forall_cons].
  rewrite length_app in Hlen. cbn in Hlen. unfold recorder_run. rewrite foldl_app. cbn. fold (recorder_run st evs).
  apply fails_late_step; [apply IH; [done|done|lia|done]| |exact Hev]. destruct (recorder_run_ok gate evs st Hok) as [_ [Hc _ _]].
  unfold small. pose proof (Hc Captured) as Hcap. cbn [count_in] in Hcap. rewrite Hcap.
  pose proof (counted_bounds Captured (recorder_run st evs).2). pose proof (length_calls evs st). lia.
Qed.

Lemma logged_requests pre reqs fin (ls : list line) : ln_content <$> ls = pre ++ (Requested <$> reqs) ++ fin ->
  (pre = [] \/ exists g, pre = [ExperimentStarted g]) -> (fin = [] \/ exists s, fin = [final_line s]) ->
  omap (fun l => match ln_content l with Requested req => Some req | _ => None end) ls = reqs.
Proof.
  intros E Hp Hf. set (f := fun c => match c with Requested req => Some req | _ => None end).
  trans (omap f (ln_content <$> ls)); [clear; induction ls as [|l ls IH]; [done|]; cbn; rewrite <- IH; by destruct (ln_content l)|].
  rewrite E, !omap_app. assert (omap f pre = []) as -> by (by destruct Hp as [->|[g ->]]). assert (omap f fin = []) as -> by (by destruct Hf as [->|[s ->]]).
  rewrite app_nil_r. change (omap f (Requested <$> reqs) = reqs). clear. induction reqs as [|x l IH]; [done|]. cbn. f_equal. exact IH.
Qed.

(** C38: however the calls of the streams and relays interleave with the
    observation of devices and the closing of the recorder, its log is its
    start, which comes once the expected number of different devices were
    seen, the lines of exactly the calls that were written, and its end, after
    which nothing is written. Each counter is the number of calls that were
    counted. A closed recorder has saved a summary with its end and with
    counts that are those of the last line, and none above the counters. When
    no writing of the summary fails and there were fewer than 2^53 events - the
    averages divide the counts as floats -, a call can only fail after it was
    counted, by writing to the log that was closed meanwhile; when one fails,
    calls go on failing, [failed_summary_keeps_raising]. *)
Theorem recorder_log_exact unicode_alnum c timestamp_label clock r0 evs :
  new_recorder unicode_alnum c timestamp_label clock = Ok r0 ->
  let '(r, calls) := recorder_run (r0, []) evs in
  (exists pre reqs fin, ln_content <$> xr_events r = pre ++ (Requested <$> reqs) ++ fin /\ reqs ≡ₚ written_calls calls /\
     (pre = [] /\ reqs = [] \/ exists g, pre = [ExperimentStarted g] /\ gate_line_ok (if gated c then xc_expected_device_count c else None) g) /\
     (if xr_events_open r then fin = [] else exists s, fin = [final_line s])) /\
  (forall k, count_in k (xr_summary r) = counted_calls k calls) /\
  (xr_closed r = true -> xr_events_open r = false /\ exists s, xr_summary_file r = WholeSummary s /\ is_Some (su_ended_at_ms s) /\
     last (ln_content <$> xr_events r) = Some (final_line s) /\ forall k, count_in k s <= count_in k (xr_summary r)) /\
  (Forall summary_written evs -> Z.of_nat (length evs) < 2 ^ 53 ->
   forall i req b e, calls !! i = Some (req, Failed b e) -> b = true /\ e = ClosedFile /\ xr_closed r = true).
Proof.
  intros Hnew. destruct (new_recorder_ok _ _ _ _ _ Hnew) as (Hok & Ho & Hc). pose proof (recorder_run_ok _ evs _ Hok) as Hrun.
  assert (Hlate : fails_late (r0, [])) by (split; [unfold tidy; cbn [fst]; by rewrite Ho, Hc|done]).
  pose proof (fails_late_run _ evs _ Hok Hlate) as Hf. destruct (recorder_run (r0, []) evs) as [r calls]. destruct Hrun as [Hl [H1 H2 H3]].
  cbn [fst snd length] in *. split; [|split; [exact H1|split; [apply (lo_closed _ _ Hl)|intros Hw Hlen; by apply Hf]]].
  destruct (lo_shape _ _ Hl) as (pre & reqs & fin & Hcs & Hpre & Hfin). exists pre, reqs, fin. split; [exact Hcs|].
  assert (fin = [] \/ exists s, fin = [final_line s]) as Hfin' by (destruct (xr_events_open r); [left; apply Hfin|by right]).
  assert (pre = [] \/ exists g, pre = [ExperimentStarted g]) as Hpre' by (destruct Hpre as [[? _]|(g & ? & _)]; eauto).
  split; [rewrite <- H2; unfold log_requests; by rewrite (logged_requests _ _ _ _ Hcs Hpre' Hfin')|]. split; [done|].
  destruct (xr_events_open r); [apply Hfin|done].
Qed.

(** *** A race *)

Definition demo_clock (t : Z) : readings := mkReadings (fun _ => t) (fun _ => float_of t 0 false).

Definition demo_context : ExperimentContext :=
  stream_context (text_of "logs") (text_of "run/1") (Some (float_of 60 0 false)) None (text_of "/data") [] ["cam-1"].

(** A registration is counted and about to be written when the server closes
    the recorder: its call raises, and so the one of the stream that made it. *)
Definition demo_events : list recorder_event :=
  [Calls (RecordRegistration "registered" 5 float_zero 0 None None (Some "cam-1"));
   Steps 0 (demo_clock 1) SummaryWritten; Steps 0 (demo_clock 1) SummaryWritten; Steps 0 (demo_clock 1) SummaryWritten;
   Steps 0 (demo_clock 1) SummaryWritten; Closes (demo_clock 2) SummaryWritten; Steps 0 (demo_clock 2) SummaryWritten].

Lemma recorder_log_exact_witness :
  exists r0, new_recorder (fun _ => false) demo_context [] (demo_clock 0) = Ok r0 /\
    let '(r, calls) := recorder_run (r0, []) demo_events in
    calls.*2 = [Failed true ClosedFile] /\ xr_closed r = true /\ count_in Registered (xr_summary r) = 1 /\ written_calls calls = [] /\
    count_in Registered (xr_summary r) = counted_calls Registered calls.
Proof.
  destruct (new_recorder (fun _ => false) demo_context [] (demo_clock 0)) as [r0|e] eqn:E; [|exfalso; vm_compute in E; discriminate E].
  exists r0. split; [reflexivity|]. pose proof (recorder_log_exact _ _ _ _ _ demo_events E) as H.
  assert (let '(r, calls) := recorder_run (r0, []) demo_events in
    calls.*2 = [Failed true ClosedFile] /\ xr_closed r = true /\ count_in Registered (xr_summary r) = 1 /\ written_calls calls = []) as Hd.
  { vm_compute in E. injection E as <-. vm_compute. tauto. }
  destruct (recorder_run (r0, []) demo_events) as [r calls]. destruct H as (_ & Hc & _). specialize (Hc Registered).
  destruct Hd as (D1 & D2 & D3 & D4). split; [exact D1|]. split; [exact D2|]. split; [exact D3|]. split; [exact D4|exact Hc].
Defined.

(** When the summary cannot be written the recorder stays open with a closed
    log, and whoever asks next gets the exception. *)
Example failed_summary_keeps_raising :
  let run := match new_recorder (fun _ => false) demo_context [] (demo_clock 0) with
             | Ok r0 => recorder_run (r0, []) [Closes (demo_clock 1) (SummaryFails false); Calls (RecordRelayError "down");
                          Steps 0 (demo_clock 2) SummaryWritten; Steps 0 (demo_clock 2) SummaryWritten; Steps 0 (demo_clock 2) SummaryWritten;
                          Steps 0 (demo_clock 2) SummaryWritten]
             | Raise _ => (mkRecorder float_zero 0 None None None None ∅ [] false [] false (new_summary demo_context [] None) NoSummary, [])
             end in
  run.2.*2 = [Failed true ClosedFile] /\ xr_closed run.1 = false /\ xr_events_open run.1 = false /\
  (close run.1 (demo_clock 3) SummaryWritten).2 = Raise ClosedFile.
Proof. vm_compute. done. Qed.

(** ** Names of runs *)

Section RunNames.
Context (unicode_alnum : N -> bool).

Definition name_char (c : N) : Prop := is_alnum unicode_alnum c = true \/ c = dash \/ c = 95%N.

Lemma sanitize_char_name c : name_char (sanitize_char unicode_alnum c).
Proof.
  unfold sanitize_char, name_char. destruct (is_alnum unicode_alnum c) eqn:E; cbn; [by left|]. destruct (bool_decide (c = dash)) eqn:E1; cbn; [bools in E1; auto|].
  destruct (bool_decide (c = 95%N)) eqn:E2; cbn; [bools in E2; auto|auto].
Qed.

Lemma sanitize_char_id c : name_char c -> sanitize_char unicode_alnum c = c.
Proof. unfold sanitize_char. intros [->|[->| ->]]; [done|by rewrite orb_true_r|]. by rewrite (bool_decide_true (95%N = 95%N)), orb_true_r. Qed.

Lemma strip_left_suffix l : strip_left l `suffix_of` l.
Proof. induction l as [|c l IH]; cbn; [done|]. case_bool_decide; [by apply suffix_cons_r|done]. Qed.

Lemma strip_left_head l c r : strip_left l = c :: r -> c <> dash.
Proof. induction l as [|x l IH]; cbn; [done|]. case_bool_decide; [exact IH|]. by intros [= <- _]. Qed.

Lemma strip_left_id c l : c <> dash -> strip_left (c :: l) = c :: l.
Proof. intros H. cbn. by rewrite bool_decide_false. Qed.

Lemma strip_dashes_ends l c r : strip_dashes l = c :: r -> c <> dash /\ last (c :: r) <> Some dash.
Proof.
  unfold strip_dashes. set (m := strip_left l). destruct (strip_left (reverse m)) as [|x k] eqn:Ek; [done|]. intros E. split.
  - destruct (strip_left_suffix (reverse m)) as [p Hp]. rewrite Ek in Hp. assert (m = reverse (x :: k) ++ reverse p) as Hm by (by rewrite <- reverse_app, <- Hp, reverse_involutive).
    rewrite E in Hm. unfold m in Hm. by eapply strip_left_head.
  - rewrite <- E, last_reverse. cbn. intros [= ->]. by eapply strip_left_head in Ek.
Qed.

(** The name of a run is not empty, has only letters, digits, dashes and
    underscores, and no dash at its ends. *)
Lemma sanitized_name value : let name := sanitize_experiment_id unicode_alnum value in
  name <> [] /\ Forall name_char name /\ head name <> Some dash /\ last name <> Some dash.
Proof.
  unfold sanitize_experiment_id. cbv zeta. case_bool_decide as He; [split_and!; try done; repeat constructor|].
  destruct (strip_dashes (sanitize_char unicode_alnum <$> value)) as [|c r] eqn:E; [done|]. destruct (strip_dashes_ends _ _ _ E) as [H1 H2].
  split; [done|]. split; [|split; [cbn; congruence|exact H2]]. rewrite <- E, Forall_forall. intros x Hx. unfold strip_dashes in Hx.
  rewrite elem_of_reverse in Hx. destruct (strip_left_suffix (reverse (strip_left (sanitize_char unicode_alnum <$> value)))) as [p Hp].
  assert (x ∈ strip_left (sanitize_char unicode_alnum <$> value)) as Hx1 by (rewrite <- elem_of_reverse, Hp; apply elem_of_app; by right).
  destruct (strip_left_suffix (sanitize_char unicode_alnum <$> value)) as [q Hq].
  assert (x ∈ sanitize_char unicode_alnum <$> value) as (y & -> & _)%list_elem_of_fmap by (rewrite Hq; apply elem_of_app; by right). apply sanitize_char_name.
Qed.

(** Such a name is its own. *)
Lemma sanitize_idempotent value : sanitize_experiment_id unicode_alnum (sanitize_experiment_id unicode_alnum value) = sanitize_experiment_id unicode_alnum value.
Proof.
  destruct (sanitized_name value) as (Hne & Hchars & Hh & Hlast). set (name := sanitize_experiment_id unicode_alnum value) in *.
  unfold sanitize_experiment_id. assert (sanitize_char unicode_alnum <$> name = name) as ->.
  { clear - Hchars. induction Hchars as [|c l Hc _ IH]; [done|]. cbn. by rewrite sanitize_char_id, IH. }
  assert (strip_dashes name = name) as ->; [|by rewrite bool_decide_false].
  unfold strip_dashes. destruct name as [|c l] eqn:E; [done|]. rewrite strip_left_id by (cbn in Hh; congruence).
  destruct (reverse (c :: l)) as [|x k] eqn:Er; [by apply (f_equal reverse) in Er; rewrite reverse_involutive in Er|].
  rewrite strip_left_id; [by rewrite <- Er, reverse_involutive|]. rewrite <- (reverse_involutive (c :: l)), Er, last_reverse in Hlast. cbn in Hlast. congruence.
Qed.
End RunNames.
